(* ===== verification/_CoqProject ===== *)
-Q . S2P
Prelude.v
JsMap.v
JsString.v
CircuitBreaker.v
Float64.v
FloatError.v
LedgerTypes.v
Money.v
MemStore.v
Driver.v
SqlStore.v
SqlRefines.v
Tables.v
SqlHolds.v
AccountStore.v
Withdrawals.v
StoreLaws.v
Semiring.v
SemiringLaws.v
Digraph.v
Traversal.v
PathTheory.v
TraceTheory.v
ClosureTheory.v
OptimalRoutes.v
Json.v
EventLog.v
EventStore.v
ConflictResolver.v
Canonical.v
AuditChain.v
DepositDetector.v
DepositRelay.v
Redaction.v
EventSeq.v
SeqCursor.v
SyncDelivery.v
SyncDevice.v
Merkle.v
Election.v
TaskTypes.v
TaskQueue.v
TaskClaims.v
TaskAnswer.v
TaskRelay.v
TaskLaws.v
TaskSystem.v
TaskExpiry.v
Idempotency.v
Submission.v
SubmissionLaws.v
SubmissionSystem.v
Escrow.v
EscrowLaws.v
EscrowCallers.v
Freeze.v
Settlement.v
BatchWithdrawals.v
EscrowRuns.v
EscrowDemo.v
EscrowSettle.v
Pricing.v
EscrowRefunds.v
ForwardRetry.v
BatchLaws.v
BatchSystem.v
BatchRecovery.v
ChainPayouts.v
ChainLaws.v
ChainSystem.v
Authority.v
BlastRadius.v
SpendLaws.v
EscrowDispute.v
EscrowSystem.v
