(* ===== verification/Prelude.v ===== *)
(** * Motebit: a verification library

    Motebit is a TypeScript monorepo: agents ("motebits") with an event log and a
    memory on their own devices, and a relay service that keeps their accounts,
    forwards tasks between relays, credits on-chain deposits, and passes the event
    log from one device of an identity to the others.  This library models the parts
    that carry money, data and identity from one place to another.  Paths are
    relative to [src/].

    ** Parts

    Shared: [Prelude] (results, calls, tactics, lists), [JsMap] (the JavaScript
    [Map], in insertion order), [JsString], [Json] (payload values).

    Accounts.  [LedgerTypes] is [packages/virtual-accounts/src/types.ts] and the
    amount guards of [money.ts].  [MemStore] is [InMemoryAccountStore] of
    [store.ts], its fields the record [MemStore.InMemoryAccountStore].  [Driver] is
    [SqlJsDriver.transaction] of [packages/persistence/src/sqljs-driver.ts]: a
    session with its stack of savepoints and a list of faults.  [SqlStore] is
    [services/relay/src/account-store-sqlite.ts], statements over tables run through
    [Driver].  [SqlRefines] relates the two stores; [SqlHolds] the escrow queries.
    [AccountStore] is the interface both implement, as a class of operations and a
    class of laws; [Withdrawals] is [withdrawals.ts] and [spendable.ts], written
    against the interface; [StoreLaws] gives both instances and the theorems.

    Deposits.  [DepositDetector] is [packages/deposit-detector/src/detector.ts] over
    injected store, RPC and callback; [DepositRelay] is the relay's side
    ([services/relay/src/deposit-detector.ts]): its tables beside those of
    [SqlStore], the callback that credits inside a transaction, the tick.

    Forwarding and routing.  [CircuitBreaker] is
    [packages/circuit-breaker/src/index.ts].  [Semiring], [Digraph] and [Traversal]
    are [semiring.ts], [graph.ts] and [traversal.ts] of [packages/protocol/src];
    [SemiringLaws], [PathTheory], [TraceTheory], [ClosureTheory] and [OptimalRoutes]
    prove the queries.

    Events and sync.  [EventLog] and [EventStore] are the two classes of
    [packages/event-log/src/index.ts].  [EventSeq] is the relay's numbering of event
    rows ([services/relay/src/event-seq.ts], the triggers of its migration 46, the
    writes of [SqliteEventStore]), [Redaction] what the relay strips from them
    ([redaction.ts]).  [SeqCursor] is [packages/sync-engine/src/seq-cursor.ts]:
    [pullBySeq] over records of operations.  [SyncDelivery] states what a pull needs
    of its stores and its relay (the classes [SyncWorld], [PullLaws], [QuietLaws])
    and what it then guarantees; [SyncDevice] discharges them with the log of
    [EventLog], the in-memory cursor store and the tables of [EventSeq], beside other
    writers and under faults.  [ConflictResolver] is [conflict-resolver.ts].

    Tasks.  [TaskTypes] holds the queue entry and the executor pin
    ([services/relay/src/task-pin.ts]); [TaskQueue] is [task-queue.ts] with its tables
    and triggers, [TaskClaims] is [task-claim.ts], [TaskAnswer] is [task-answer.ts]
    cut where it awaits.  [TaskRelay] composes them: an event is one synchronous
    turn, suspended calls are kept and resumed in any order, a restart loses them.
    [TaskLaws] computes each turn, [TaskSystem] and [TaskExpiry] prove the laws.
    [Idempotency] is [services/relay/src/idempotency.ts]; [Submission] is the two doors
    that admit a task ([tasks.ts], [federation-callbacks.ts], the error boundary of
    [middleware.ts]) around a [TaskRelay] state, again a turn at a time;
    [SubmissionLaws] and [SubmissionSystem] prove its laws.

    Escrow.  [Escrow] is [services/relay/src/allocation-escrow.ts]: over the tables of
    [SqlStore], [heldSql], the one reading of what an allocation holds,
    [moveAllocationMoney], the one writer of allocation money, the other writers of
    the tables it reads ([horizon.ts] too) and the triggers.  [EscrowCallers] is the
    transactions that call it: the funding and the two settlements of [tasks.ts], the
    forward of [federation-callbacks.ts], the refunds of [index.ts], the fund action
    and the finalizers of [disputes.ts] over [dispute-fund-ledger.ts].  [EscrowLaws] is
    the invariant of the tables and the effect of one movement, [EscrowRuns] of a
    sequence of them; [EscrowSettle], [EscrowRefunds] and [EscrowDispute] prove each
    caller, [EscrowSystem] all of them in any order; [ForwardRetry] is the retry loop of
    [federation.ts], its passes interleaved turn by turn; [EscrowDemo] holds the states
    the instances are computed on.

    Withdrawals in batches.  [Freeze] is [services/relay/src/freeze.ts]: the guards on
    the money tables as a database driver, so that every store method, written against
    the driver class, runs under them.  [BatchWithdrawals] is
    [services/relay/src/batch-withdrawals.ts] with the payout horizons: the queue and
    the loop that hands its rows to a rail, cut where a pass awaits.  [BatchLaws] is the
    effect of each statement on the queue, [BatchSystem] the passes, answers, restarts
    and freezes in any order, [BatchRecovery] the first tick of a process.

    Payouts on chain.  [Tables] is the account tables inside a larger database.
    [ChainPayouts] is [services/relay/src/withdrawal-chain-payouts.ts] with its callers in
    [budget.ts] and the durable nonce of [packages/wallet-solana/src/web3js-adapter.ts]:
    the record of what was signed, the verdict of finalized statuses, the kill, and the
    paths of a payout, cut where they await.  [ChainLaws] is what a turn does to the
    withdrawals, [ChainSystem] the paths, restarts, other writers and landings in any
    order.

    Prices.  [Float64] is the [number] of the language, binary64, with what a share of
    an integer by a ratio needs of its rounding; [FloatError] gives a number's value as
    a rational and the error of each operation.  [Money] is
    [packages/protocol/src/money.ts]; [Settlement] is [settlement.ts] and [budget.ts] of
    [packages/market/src] with the places of [tasks.ts] that price a submission, size
    its hold and round its settlement; [Pricing] proves the rounding and composes it
    with the settlement transaction of [EscrowCallers].

    Evidence.  [Canonical] and [AuditChain] are [packages/policy/src/audit-chain.ts];
    [Merkle] is [packages/encryption/src/merkle.ts] with the verifier of
    [packages/crypto/src/merkle.ts].

    Processes.  [Election] is [packages/runtime-host/src/election.ts], a step
    relation over program counters of concurrent processes.

    ** What is shown

    - Accounts: the SQLite store refines the in-memory one, call by call and under
      any failing statement; balances are the sum of their ledger rows and money is
      conserved; a withdrawal is settled at most once; spending and withdrawing
      never reach into the escrow; a transaction takes effect whole or not at all.
    - Deposits: each log entry is credited at most once, whatever fails and however
      often a range is scanned; the cursor stays within the safe horizon.
    - Routing: over every lawful semiring the four queries return what they claim,
      and each concrete semiring is lawful; the breaker that prunes its window
      answers as one that keeps the whole history.
    - Sync: sequence numbers are never reissued; a pull ends; the cursor never
      passes an event that was not received; without faults a pull delivers all;
      replicas that merge converge; erased events stay erased; the relay's
      redaction leaves none of what it is to remove.
    - Tasks: at most one presenter may have run a task, over every order of claims,
      forwards, sweeps and restarts; a task is answered once, by an authorised
      receipt, and settled once, for that receipt; no task vanishes unanswered.
    - Submissions: a key admits one task while its claim lives, a payment funds one
      task for ever and so at most one execution, and a retry is answered with the
      task its key admitted.
    - Escrow: under every writer, in any order, no allocation is overdrawn and no
      trigger fires; a settlement distributes exactly what was held, once; a stale or
      undelivered task is refunded to who funded it, once; a verdict splits what it
      was given by its ratio, at most one per allocation, and one that is refused
      undoes everything and can be retried.  A forward whose peer stays silent is refunded at
      its last attempt.  A nested settlement strands what it does not pay, overlapping
      passes refund what a peer has acknowledged, and a peer that reuses a settlement id overdraws an escrow.
    - Freeze and batches: no money path of the library moves money while the relay is
      frozen; a queued payout is handed to a rail at most once, refunded at most once,
      and not both sent and refunded; a restart strands none of them.
    - Payouts on chain: a withdrawal is settled once, as paid only when a payout of its
      amount to its destination is on the chain, as refunded only when none of it is or
      can be; a payout signed over the treasury's nonce serves one withdrawal; the
      verdict is undecided only while the payout's nonce is unused.
    - Prices: dollars survive the boundary exactly; the legs of a split sum to what is
      split and none is negative; from a listing to the payment, the price is held,
      the legs of the settlement sum to it, and the worker earns the listed amount to
      within one micro-unit.
    - Evidence: an audit chain that verifies is the chain that was written, or a
      collision is found; Merkle proofs verify, and only of what is in the tree.
    - Processes: at most one coordinator, none lost without a crash, and the two
      ways in which a crash defeats the takeover mutex.
    - Errors: the theorems of kind error are behaviour of the code that its
      comments exclude.

    ** Conventions

    A method of a stateful object is a [call]: from a state to a result ([Ok] or
    [Throw]) and the state it leaves.  The clock readings and random ids a method
    takes are its arguments.  JavaScript numbers that the code keeps integral are
    [Z]; where an argument may be anything, [JNonInt] stands for the rest, and where
    the code rounds a fraction it is a [Float64.number].  A [BEGIN] written by hand
    with its [COMMIT] and [ROLLBACK] is the transaction of the driver.  Objects
    are values: the aliasing of an object handed out by a store is not followed.

    ** Bounds

    The prices of [Pricing] are below 2^48 micro-units (281 million dollars; a listing
    below 2^46) and the fee rate at most one half: there every rounding error on the
    way stays below half a micro-unit.  [micro_roundtrip] holds to 2^50,
    [federated_split_exact] for every safe integer and every rate.

    ** Fuel

    [SeqCursor.pull_fuel] is the page limit and two more: a page either ends the
    loop, counts, or is the one restart ([pull_terminates]).  [Merkle.build_layers]
    takes the number of leaves, as each pass at least halves a layer.
    [Traversal.follow] takes one more than the number of nodes, which its visited set
    bounds; the relaxation rounds are the code's own counter.

    ** Parameters

    SHA-256 ([sha256hex], [sha256]), the host's [localeCompare], the signer of
    horizon certificates, the RPC, [classifyEventPayload] and decryption, the
    coordinator's answers to an attach, the record of task routes, the resolution and
    verification of a receipt's key, the funding writes of a submission, the parsing
    and minting of dispatch tokens.

    ** Not modelled

    - Of the modelled parts: logger events (but the breaker's), 64-bit overflow in
      SQLite, [Number] of a BigInt beyond 2^53, the JSON text of payload columns, the
      flush of the database file, floating-point formatting of descriptions,
      platform calls of the election that throw, and Windows pipes.
    - Task ids: that an id is admitted once is the relay's minting and collision
      check, a guard of the admission event.  What a submission is refused for before
      its admission: validation, price, route, x402 payment.
    - Escrow: the upgrade of rows written before it, the filing of a dispute and its votes, the
      backoff of the retry loop (a delay is an argument).  Other modules' writes of statuses and of rows of no
      allocation are steps of the system ([step_quiet], [step_ledger]).
    - Freeze: the boot checks of the guards against the schema and the JSON row that
      says frozen; an update that writes what a row already has.  Batches: the payout
      itself is the event [ev_lands], which a rail may show not to have happened and
      then does not; the operator's reconciliation of a [processing] withdrawal is the
      one of [Withdrawals], its admin route is not modelled.
    - Payouts on chain: assumed of the chain are the two rules its code states (of the
      transactions over one nonce value one lands at most, success or not; a status
      read as [finalized] is what landed) and that distinct transactions have distinct
      signatures.  A timeout is an answer ([unavailable], [rpc_error], none at all), the
      bounded concurrency of the reads is their order.  Not modelled: the tick's order
      and its alarm for a squatted lane, the transactions that create a lane, the
      reconcile door and [signCompletion] (an answer), the answers of the HTTP route,
      payouts over a blockhash beyond their rows.
    - Whole parts: HTTP and WebSocket handlers, task routing, peering, treasury
      reconciliation and anchoring are I/O around databases and chains, with little
      state of their own; scoring of the market, memory and gradients is floating-point
      heuristics without a stated contract; the policy gate's sanitiser and injection
      detection are regular expressions; the runtime drives language models; the
      cryptographic primitives are third-party; user interfaces are not logic. *)

From Stdlib Require Export ZArith Lia Bool.
From stdpp Require Export base list option gmap strings sorting.

(** ** Scopes and notations *)

Declare Scope motebit_scope.
Delimit Scope motebit_scope with motebit.

(** ** Results of calls that may throw

    A TypeScript call either returns a value or throws; an [Error] is kept as
    the message class the code throws, which every component declares as its
    own inductive type. *)

Inductive result (E A : Type) : Type :=
| Ok (a : A)
| Throw (e : E).
Arguments Ok {E A} a.
Arguments Throw {E A} e.

Definition result_bind {E A B} (m : result E A) (k : A -> result E B) : result E B :=
  match m with
  | Ok a => k a
  | Throw e => Throw e
  end.

(** [x ← m; k] is stdpp's bind notation, at this monad. *)
#[export] Instance result_mret {E} : MRet (result E) := fun _ a => Ok a.
#[export] Instance result_mbind {E} : MBind (result E) := fun _ _ k m => result_bind m k.

Definition is_ok {E A} (m : result E A) : bool :=
  match m with Ok _ => true | Throw _ => false end.

Lemma result_bind_ok {E A B} (m : result E A) (k : A -> result E B) b :
  result_bind m k = Ok b <-> exists a, m = Ok a /\ k a = Ok b.
Proof.
  destruct m as [a|e]; cbn; split; intros H.
  - eauto.
  - destruct H as (a' & [= <-] & H). done.
  - done.
  - destruct H as (a' & [=] & _).
Qed.

(** ** Stateful calls that may throw

    A method of a stateful object: from the object's state, a value or an error,
    and the state it leaves, also when it throws. *)

Definition call (W E A : Type) : Type := W -> result E A * W.

Definition call_ret {W E A} (a : A) : call W E A := fun w => (Ok a, w).
Definition call_throw {W E A} (e : E) : call W E A := fun w => (Throw e, w).

Definition call_bind {W E A B} (m : call W E A) (k : A -> call W E B) : call W E B :=
  fun w => match m w with
           | (Ok a, w') => k a w'
           | (Throw e, w') => (Throw e, w')
           end.

(** [try { m } catch (e) { h }], and a statement under an [if]. *)
Definition call_catch {W E A} (m : call W E A) (h : E -> call W E A) : call W E A :=
  fun w => match m w with
           | (Ok a, w') => (Ok a, w')
           | (Throw e, w') => h e w'
           end.
Definition call_when {W E} (b : bool) (m : call W E unit) : call W E unit := if b then m else call_ret tt.

Notation "'let!' x := m 'in' k" := (call_bind m (fun x => k))
  (at level 10, x pattern, m at level 100, k at level 200) : motebit_scope.
Notation "m ';!' k" := (call_bind m (fun _ => k))
  (at level 199, right associativity) : motebit_scope.

Lemma call_bind_ok {W E A B} (m : call W E A) (k : A -> call W E B) w b w' :
  call_bind m k w = (Ok b, w') <-> exists a w1, m w = (Ok a, w1) /\ k a w1 = (Ok b, w').
Proof.
  unfold call_bind. destruct (m w) as [[a|e] w1]; split; try naive_solver.
Qed.

(** ** What a call leaves

    [stays R m]: whether it returns or throws, [m] takes the state along [R]. *)
Section stays.
Context {W E : Type} (R : W -> W -> Prop) `{!PreOrder R}.

Definition stays {A} (m : call W E A) : Prop := forall w, R w (m w).2.

Lemma stays_ret {A} (a : A) : stays (call_ret a).
Proof. by intros w. Qed.

Lemma stays_throw {A} (e : E) : stays (call_throw (A := A) e).
Proof. by intros w. Qed.

Lemma stays_bind {A B} (m : call W E A) (k : A -> call W E B) :
  stays m -> (forall a, stays (k a)) -> stays (call_bind m k).
Proof.
  intros Hm Hk w. specialize (Hm w). unfold call_bind. destruct (m w) as [[a|e] w1]; [|done].
  cbn in Hm. etrans; [exact Hm|apply Hk].
Qed.

Lemma stays_catch {A} (m : call W E A) h : stays m -> (forall e, stays (h e)) -> stays (call_catch m h).
Proof.
  intros Hm Hh w. specialize (Hm w). unfold call_catch. destruct (m w) as [[a|e] w1]; [done|].
  cbn in Hm. etrans; [exact Hm|apply Hh].
Qed.

Lemma stays_foldr {A B C} (f : A -> call W E C) (l : list A) (m : call W E B) :
  stays m -> (forall a, stays (f a)) -> stays (foldr (fun a k => call_bind (f a) (fun _ => k)) m l).
Proof. intros Hm Hf. induction l; cbn; [done|]. by apply stays_bind. Qed.
End stays.

(** ** Tactics *)

(** Case split on every [decide], [match] and [if] of the goal. *)
Ltac split_cases :=
  repeat (case_decide || case_match); simplify_eq/=.

(** Split a hypothesis that is the value of a branching definition. *)
Ltac split_in H :=
  repeat match type of H with
         | context [decide ?P] => destruct (decide P)
         | context [match ?x with _ => _ end] => destruct x eqn:?
         end; simplify_eq/=.

(** The databases components add their lemmas to: [motebit] for resolution,
    the rewriting base of the same name for equations. *)
Create HintDb motebit.
Create Rewrite HintDb motebit.

(** ** Lists *)

Lemma Forall_filter_keep {A} (P Q : A -> Prop) `{!forall x, Decision (P x)} l :
  Forall Q l -> Forall Q (filter P l).
Proof.
  rewrite !Forall_forall. intros HQ x [_ Hx]%list_elem_of_filter. auto.
Qed.

#[export] Hint Resolve Forall_filter_keep : motebit.

(** ** Sums over lists of integers *)

Section zsum.
Context {A : Type}.
Local Open Scope Z_scope.

Fixpoint zsum (f : A -> Z) (l : list A) : Z :=
  match l with
  | [] => 0
  | a :: l => f a + zsum f l
  end.

Lemma zsum_nil f : zsum f [] = 0.
Proof. done. Qed.

Lemma zsum_cons f a l : zsum f (a :: l) = f a + zsum f l.
Proof. done. Qed.

Lemma zsum_app f l1 l2 : zsum f (l1 ++ l2) = zsum f l1 + zsum f l2.
Proof. induction l1 as [|a l1 IH]; cbn; [done|]. rewrite IH. lia. Qed.

Lemma zsum_ext f g l : (forall a, a ∈ l -> f a = g a) -> zsum f l = zsum g l.
Proof.
  induction l as [|a l IH]; intros H; cbn; [done|].
  rewrite IH by (intros; apply H; by right). rewrite H by (by left). done.
Qed.

Lemma zsum_nonneg f l : (forall a, a ∈ l -> 0 <= f a) -> 0 <= zsum f l.
Proof.
  induction l as [|a l IH]; intros H; cbn; [lia|].
  assert (0 <= f a) by (apply H; by left).
  assert (0 <= zsum f l) by (apply IH; intros; apply H; by right). lia.
Qed.

Lemma zsum_add f g l : zsum (fun a => f a + g a) l = zsum f l + zsum g l.
Proof. induction l as [|a l IH]; cbn; lia. Qed.

Lemma zsum_permutation f l l' : l ≡ₚ l' -> zsum f l = zsum f l'.
Proof. induction 1; cbn; lia. Qed.

(** The left fold the code writes ([reduce((s, x) => s + f(x), 0)]). *)
Lemma zsum_foldl f l s : foldl (fun acc a => acc + f a) s l = s + zsum f l.
Proof.
  revert s; induction l as [|a l IH]; intros s; cbn; [lia|].
  rewrite IH. lia.
Qed.

Lemma zsum_filter (P : A -> Prop) `{!forall a, Decision (P a)} f l :
  zsum f (filter P l) = zsum (fun a => if decide (P a) then f a else 0) l.
Proof.
  induction l as [|a l IH]; [done|].
  rewrite filter_cons. cbn. case_decide; cbn; lia.
Qed.
End zsum.

#[export] Hint Rewrite @zsum_nil @zsum_cons @zsum_app : motebit.

(** ** [Math.max(...xs)] over a list *)

Section zmax.
Local Open Scope Z_scope.

(** [Math.max(d, ...l)] *)
Fixpoint zmax_from (d : Z) (l : list Z) : Z :=
  match l with
  | [] => d
  | x :: l => Z.max x (zmax_from d l)
  end.

Lemma zmax_from_ge d l x : x ∈ l -> x <= zmax_from d l.
Proof. induction 1; cbn; lia. Qed.

Lemma zmax_from_base d l : d <= zmax_from d l.
Proof. induction l; cbn; lia. Qed.

Lemma zmax_from_le d l u : d <= u -> (forall x, x ∈ l -> x <= u) -> zmax_from d l <= u.
Proof.
  induction l as [|x l IH]; intros Hd H; cbn; [done|].
  apply Z.max_lub; [apply H; by left|]. apply IH; [done|]. intros; apply H; by right.
Qed.

Lemma zmax_from_elem d l : zmax_from d l = d \/ zmax_from d l ∈ l.
Proof.
  induction l as [|x l IH]; cbn; [by left|].
  destruct (Z.max_spec x (zmax_from d l)) as [[_ ->]|[_ ->]].
  - destruct IH as [IH|IH]; [by left|]. right; by right.
  - right; by left.
Qed.
End zmax.

(** ** Rows with a unique key *)

Lemma nodup_key {A B} (key : A -> B) (l : list A) x y : NoDup (key <$> l) -> x ∈ l -> y ∈ l -> key x = key y -> x = y.
Proof.
  intros Hn (i & Hi)%list_elem_of_lookup (j & Hj)%list_elem_of_lookup E.
  assert (i = j) as <-; [|congruence].
  eapply (NoDup_lookup (key <$> l)); [done| |]; rewrite list_lookup_fmap; [by rewrite Hi|]. rewrite Hj. cbn. by rewrite E.
Qed.

Lemma find_unique {A B} (key : A -> B) (c : A -> bool) (l : list A) x : NoDup (key <$> l) -> x ∈ l ->
  (forall y, y ∈ l -> c y = true -> key y = key x) -> c x = true -> List.find c l = Some x.
Proof.
  intros Hn Hx Hc Hcx. destruct (List.find c l) as [y|] eqn:E.
  - apply find_some in E as [Hy Hcy]. apply list_elem_of_In in Hy. f_equal. by apply (nodup_key key l); auto.
  - apply list_elem_of_In in Hx. by rewrite (find_none _ _ E x Hx) in Hcx.
Qed.

(** ** Stable sorting

    [Array.prototype.sort] with a comparator [cmp] is a stable sort: equal
    elements keep their order.  The model inserts each element before the first
    later element that is not strictly smaller. *)

Section js_sort.
Context {A : Type} (le : A -> A -> bool).

Fixpoint js_insert (x : A) (l : list A) : list A :=
  match l with
  | [] => [x]
  | y :: l' => if le x y then x :: l else y :: js_insert x l'
  end.

Definition js_sort (l : list A) : list A := foldr js_insert [] l.

Lemma js_insert_perm x l : js_insert x l ≡ₚ x :: l.
Proof.
  induction l as [|y l IH]; cbn; [done|].
  destruct (le x y); [done|]. rewrite IH. apply Permutation_swap.
Qed.

Lemma js_sort_perm l : js_sort l ≡ₚ l.
Proof.
  induction l as [|x l IH]; cbn; [done|]. by rewrite js_insert_perm, IH.
Qed.

Lemma js_sort_elem x l : x ∈ js_sort l <-> x ∈ l.
Proof. by rewrite js_sort_perm. Qed.

Lemma js_sort_length l : length (js_sort l) = length l.
Proof. by rewrite js_sort_perm. Qed.

Context (le_total : forall x y, le x y = true \/ le y x = true).
Context (le_trans : forall x y z, le x y = true -> le y z = true -> le x z = true).

Abbreviation sorted := (StronglySorted (fun x y => le x y = true)).

Lemma js_insert_sorted x l : sorted l -> sorted (js_insert x l).
Proof.
  induction 1 as [|y l Hl IH Hy]; cbn; [by repeat constructor|].
  destruct (le x y) eqn:Hxy.
  - constructor; [by constructor|]. constructor; [done|].
    eapply Forall_impl; [exact Hy|]. cbn. eauto.
  - constructor; [done|]. rewrite js_insert_perm.
    constructor; [|done]. destruct (le_total x y); congruence.
Qed.

Lemma js_sort_sorted l : sorted (js_sort l).
Proof. induction l; cbn; [constructor|]. by apply js_insert_sorted. Qed.
End js_sort.

(** Two sorted permutations of the same elements agree when the order is
    antisymmetric: the sort is a function of the multiset. *)
Lemma sorted_perm_unique {A} (R : A -> A -> Prop) (l1 l2 : list A) :
  (forall x y, x ∈ l1 -> y ∈ l1 -> R x y -> R y x -> x = y) ->
  StronglySorted R l1 -> StronglySorted R l2 -> l1 ≡ₚ l2 -> l1 = l2.
Proof.
  intros Hanti H1. revert l2. induction H1 as [|x l1 Hs1 IH Hx]; intros l2 H2 Hp.
  - by apply Permutation_nil_l in Hp as ->.
  - destruct H2 as [|y l2 Hs2 Hy].
    { by apply symmetry, Permutation_nil_cons in Hp. }
    assert (x = y) as <-.
    { assert (y ∈ x :: l1) as Hyin by (rewrite Hp; by left).
      assert (x ∈ y :: l2) as Hxin by (rewrite <- Hp; by left).
      apply elem_of_cons in Hyin as [->|Hyin]; [done|].
      apply elem_of_cons in Hxin as [->|Hxin]; [done|].
      rewrite Forall_forall in Hx, Hy. apply Hanti; [by left|by right| |]; auto. }
    f_equal. apply IH; [|done|].
    + intros a b Ha Hb. apply Hanti; by right.
    + by apply Permutation_cons_inv in Hp.
Qed.
