(* ===== verification/JsMap.v ===== *)
(** * The JavaScript [Map] and [Set]

    The components keep their state in [Map]s, whose iteration order is the
    order in which keys were first inserted.  Where a component iterates, that
    order is part of its behaviour, so the model is the list of entries: [set]
    updates in place or appends, [delete] removes, iteration reads the list.

    The first part states the lookup laws; the second the well-formedness
    invariant (distinct keys) and the sums of a quantity over the entries; the
    last the abstraction to stdpp's unordered finite map. *)

From S2P Require Import Prelude.
Local Open Scope Z_scope.

Abbreviation jsmap K V := (list (prod K V)).

Section jsmap.
Context {K V : Type} `{!EqDecision K}.
Implicit Types (m : jsmap K V) (k : K) (v : V).

Definition jm_empty : jsmap K V := [].

Fixpoint jm_get k m : option V :=
  match m with
  | [] => None
  | (k', v) :: m' => if decide (k = k') then Some v else jm_get k m'
  end.

Definition jm_has k m : bool :=
  match jm_get k m with Some _ => true | None => false end.

Fixpoint jm_set k v m : jsmap K V :=
  match m with
  | [] => [(k, v)]
  | (k', v') :: m' => if decide (k = k') then (k', v) :: m' else (k', v') :: jm_set k v m'
  end.

Definition jm_delete k m : jsmap K V := filter (fun e => e.1 <> k) m.

Definition jm_keys m : list K := m.*1.
Definition jm_values m : list V := m.*2.

(** ** Lookup laws *)

Lemma jm_get_empty k : jm_get k jm_empty = None.
Proof. done. Qed.

Lemma jm_get_set_eq k v m : jm_get k (jm_set k v m) = Some v.
Proof. induction m as [|[k' v'] m IH]; cbn; split_cases; by repeat case_decide. Qed.

Lemma jm_get_set_ne k k' v m : k <> k' -> jm_get k (jm_set k' v m) = jm_get k m.
Proof. intros. induction m as [|[k1 v1] m IH]; cbn; repeat (case_decide; cbn); congruence. Qed.

Lemma jm_get_set k k' v m :
  jm_get k (jm_set k' v m) = if decide (k = k') then Some v else jm_get k m.
Proof. case_decide; subst; [apply jm_get_set_eq|by apply jm_get_set_ne]. Qed.

Lemma jm_get_delete k k' m :
  jm_get k (jm_delete k' m) = if decide (k = k') then None else jm_get k m.
Proof.
  unfold jm_delete. induction m as [|[k1 v1] m IH]; [by case_decide|].
  rewrite filter_cons. cbn [jm_get fst].
  repeat (case_decide; cbn [jm_get]); naive_solver.
Qed.

Lemma jm_get_delete_eq k m : jm_get k (jm_delete k m) = None.
Proof. rewrite jm_get_delete. by case_decide. Qed.

Lemma jm_get_delete_ne k k' m : k <> k' -> jm_get k (jm_delete k' m) = jm_get k m.
Proof. intros. rewrite jm_get_delete. by case_decide. Qed.

Lemma jm_set_set k v v' m : jm_set k v (jm_set k v' m) = jm_set k v m.
Proof.
  induction m as [|[k1 v1] m IH]; cbn; repeat (case_decide; cbn); congruence.
Qed.

Lemma jm_set_id k v m : jm_get k m = Some v -> jm_set k v m = m.
Proof.
  induction m as [|[k1 v1] m IH]; cbn; [done|].
  repeat case_decide; [intros [= ->]; congruence|]. intros; f_equal; auto.
Qed.

Lemma jm_get_elem k v m : jm_get k m = Some v -> (k, v) ∈ m.
Proof.
  induction m as [|[k1 v1] m IH]; cbn; [done|].
  case_decide; [intros [= ->]; subst; by left|right; auto].
Qed.

Lemma jm_get_none k m : jm_get k m = None <-> k ∉ jm_keys m.
Proof.
  unfold jm_keys. induction m as [|[k1 v1] m IH]; cbn; [split; [intros _; set_solver|done]|].
  rewrite not_elem_of_cons. case_decide; [|by intuition auto].
  split; [done|]. intros [? _]; congruence.
Qed.

Lemma jm_get_is_some k m : is_Some (jm_get k m) <-> k ∈ jm_keys m.
Proof.
  rewrite <- not_eq_None_Some. rewrite jm_get_none.
  destruct (decide (k ∈ jm_keys m)); naive_solver.
Qed.

Lemma jm_keys_set k v m :
  jm_keys (jm_set k v m) = if decide (k ∈ jm_keys m) then jm_keys m else jm_keys m ++ [k].
Proof.
  unfold jm_keys.
  induction m as [|[k1 v1] m IH]; cbn; [by rewrite decide_False by set_solver|].
  destruct (decide (k = k1)) as [->|H1]; cbn.
  - rewrite decide_True by (by left). done.
  - rewrite IH. case_decide as H2.
    + rewrite decide_True by (by right). done.
    + rewrite decide_False by (by apply not_elem_of_cons). done.
Qed.

(** ** Distinct keys *)

Definition jm_wf m : Prop := NoDup (jm_keys m).

Lemma jm_wf_empty : jm_wf jm_empty.
Proof. apply NoDup_nil_2. Qed.

Lemma jm_wf_set k v m : jm_wf m -> jm_wf (jm_set k v m).
Proof.
  unfold jm_wf. intros H. rewrite jm_keys_set. case_decide; [done|].
  apply NoDup_app. repeat split; [done|set_solver|apply NoDup_singleton].
Qed.

Lemma jm_keys_delete k m : jm_keys (jm_delete k m) = filter (fun k' => k' <> k) (jm_keys m).
Proof.
  unfold jm_keys, jm_delete. induction m as [|[k1 v1] m IH]; [done|].
  rewrite fmap_cons, !filter_cons. cbn. case_decide; cbn; by rewrite IH.
Qed.

Lemma jm_wf_delete k m : jm_wf m -> jm_wf (jm_delete k m).
Proof. unfold jm_wf. rewrite jm_keys_delete. apply NoDup_filter. Qed.

Lemma jm_elem_get k v m : jm_wf m -> (k, v) ∈ m -> jm_get k m = Some v.
Proof.
  unfold jm_wf, jm_keys. induction m as [|[k1 v1] m IH]; cbn; [set_solver|].
  intros [Hk Hm]%NoDup_cons [[= -> ->]|Hin]%elem_of_cons; [by rewrite decide_True|].
  rewrite decide_False; [auto|]. intros ->. apply Hk.
  apply list_elem_of_fmap. by exists (k1, v).
Qed.

Lemma jm_get_filter k (P : K * V -> Prop) `{!forall e, Decision (P e)} m :
  jm_wf m ->
  jm_get k (filter P m) =
  match jm_get k m with Some v => if decide (P (k, v)) then Some v else None | None => None end.
Proof.
  unfold jm_wf, jm_keys. induction m as [|[k1 v1] m IH]; [done|]. cbn [fmap list_fmap].
  intros [Hk Hm]%NoDup_cons. rewrite filter_cons. cbn [jm_get]. specialize (IH Hm).
  destruct (decide (k = k1)) as [->|Hne].
  - assert (jm_get k1 m = None) as En by (by apply jm_get_none).
    case_decide; cbn [jm_get]; [by rewrite decide_True|]. by rewrite IH, En.
  - case_decide; cbn [jm_get]; [by rewrite decide_False|done].
Qed.

Lemma jm_wf_filter (P : K * V -> Prop) `{!forall e, Decision (P e)} m : jm_wf m -> jm_wf (filter P m).
Proof.
  unfold jm_wf, jm_keys. induction m as [|[k v] m IH]; [done|]. cbn [fmap list_fmap].
  intros [Hk Hm]%NoDup_cons. rewrite filter_cons. case_decide; cbn [fmap list_fmap]; [|by apply IH].
  apply NoDup_cons. split; [|by apply IH]. intros ([k2 v2] & E & Hin)%list_elem_of_fmap. cbn in E, Hk. subst.
  apply Hk. apply list_elem_of_fmap. exists (k2, v2). split; [done|]. by apply list_elem_of_filter in Hin as [_ ?].
Qed.

(** ** Sums over the values *)

Definition jm_sum (f : V -> Z) m : Z := zsum f (jm_values m).

(** The contribution of one key. *)
Definition jm_at (f : V -> Z) k m : Z :=
  match jm_get k m with Some v => f v | None => 0 end.

Lemma jm_sum_set f k v m : jm_sum f (jm_set k v m) = jm_sum f m - jm_at f k m + f v.
Proof.
  unfold jm_sum, jm_at, jm_values. induction m as [|[k1 v1] m IH]; cbn; [lia|].
  case_decide; cbn; lia.
Qed.

(** ** Abstraction to a finite map *)

Context `{!Countable K}.

Definition jm_abs m : gmap K V := list_to_map m.

Lemma jm_abs_lookup k m : jm_abs m !! k = jm_get k m.
Proof.
  unfold jm_abs. induction m as [|[k1 v1] m IH]; cbn; [done|].
  rewrite lookup_insert. repeat case_decide; congruence.
Qed.

Lemma jm_abs_set k v m : jm_abs (jm_set k v m) = <[k := v]> (jm_abs m).
Proof.
  apply map_eq; intros j. rewrite lookup_insert, !jm_abs_lookup, jm_get_set.
  repeat case_decide; congruence.
Qed.

Lemma jm_abs_delete k m : jm_abs (jm_delete k m) = delete k (jm_abs m).
Proof.
  apply map_eq; intros j. rewrite lookup_delete, !jm_abs_lookup, jm_get_delete.
  repeat case_decide; congruence.
Qed.
End jsmap.

Arguments jm_sum : simpl never.
Arguments jm_at : simpl never.

#[export] Hint Rewrite @jm_get_set_eq @jm_get_empty @jm_get_delete_eq : motebit.
#[export] Hint Resolve jm_wf_empty jm_wf_set jm_wf_delete : motebit.

(** Lookups of updated maps by case analysis on the keys. *)
Ltac jm_simpl :=
  repeat first
    [ rewrite jm_get_set_eq
    | rewrite jm_get_set_ne by (assumption || congruence)
    | rewrite jm_get_delete_eq
    | rewrite jm_get_delete_ne by (assumption || congruence) ].

(** ** [Set]: insertion-ordered, without duplicates *)

Section jsset.
Context {A : Type} `{!EqDecision A}.
Implicit Types (s : list A) (x : A).

Definition js_has x s : bool := bool_decide (x ∈ s).
Definition js_add x s : list A := if decide (x ∈ s) then s else s ++ [x].

(** [new Set(l)] *)
Definition js_set_of (l : list A) : list A := foldl (fun s x => js_add x s) [] l.

Lemma js_add_elem x y s : y ∈ js_add x s <-> y = x \/ y ∈ s.
Proof. unfold js_add. case_decide; set_solver. Qed.

Lemma js_add_nodup x s : NoDup s -> NoDup (js_add x s).
Proof.
  intros. unfold js_add. case_decide; [done|].
  apply NoDup_app. repeat split; [done|set_solver|apply NoDup_singleton].
Qed.

Lemma js_set_of_elem l x : x ∈ js_set_of l <-> x ∈ l.
Proof.
  unfold js_set_of. enough (forall s, x ∈ foldl (fun s x => js_add x s) s l <-> x ∈ s \/ x ∈ l) as ->
    by set_solver.
  induction l as [|y l IH]; intros s; cbn; [set_solver|].
  rewrite IH, js_add_elem. set_solver.
Qed.
End jsset.
