(* ===== verification/JsString.v ===== *)
(** * JavaScript strings

    The string operations the components use, on [String.string] (one
    character per code unit; the modelled strings are ASCII ids, hex and keys):
    [startsWith], [slice], [toLowerCase], code-unit order, [toString(16)] and
    [padStart].  [hex_id_inj] is the fact the id counters rely on: padding the
    hexadecimal of a counter is injective. *)

From Stdlib Require Import String Ascii.
From S2P Require Import Prelude.
Local Open Scope N_scope.

Notation "'str!' s" := (s%string) (at level 1, only parsing) : motebit_scope.

Fixpoint startsWith (pre s : string) : bool :=
  match pre, s with
  | EmptyString, _ => true
  | String a pre', String b s' => bool_decide (a = b) && startsWith pre' s'
  | String _ _, EmptyString => false
  end.

(** [s.slice(n)] for [0 <= n]. *)
Fixpoint slice_from (n : nat) (s : string) : string :=
  match n, s with
  | O, _ => s
  | S n', String _ s' => slice_from n' s'
  | S _, EmptyString => EmptyString
  end.

Definition lower_ascii (c : ascii) : ascii :=
  let n := N_of_ascii c in
  if (65 <=? n) && (n <=? 90) then ascii_of_N (n + 32) else c.

Fixpoint toLowerCase (s : string) : string :=
  match s with
  | EmptyString => EmptyString
  | String c s' => String (lower_ascii c) (toLowerCase s')
  end.

(** [a >= b] and [a < b] on strings compare code units lexicographically. *)
Definition str_ltb (a b : string) : bool :=
  match String.compare a b with Lt => true | _ => false end.
Definition str_geb (a b : string) : bool := negb (str_ltb a b).

Lemma string_compare_antisym a b : String.compare a b = CompOpp (String.compare b a).
Proof. apply String.compare_antisym. Qed.

Lemma str_geb_total a b : str_geb a b = true \/ str_geb b a = true.
Proof.
  unfold str_geb, str_ltb. rewrite (string_compare_antisym b a).
  destruct (String.compare a b); cbn; auto.
Qed.

Lemma str_geb_antisym a b : str_geb a b = true -> str_geb b a = true -> a = b.
Proof.
  unfold str_geb, str_ltb. rewrite (string_compare_antisym b a).
  destruct (String.compare a b) eqn:E; cbn; try discriminate. intros _ _.
  by apply String.compare_eq_iff.
Qed.

(** ** Hexadecimal *)

Definition hex_digit (d : N) : ascii :=
  if d <? 10 then ascii_of_N (48 + d) else ascii_of_N (87 + d).

Definition hex_value (c : ascii) : N :=
  let n := N_of_ascii c in if n <? 58 then n - 48 else n - 87.

(** Most significant digit first; [fuel] bounds the number of digits. *)
Fixpoint hex_digits (fuel : nat) (n : N) (acc : list ascii) : list ascii :=
  match fuel with
  | O => acc
  | S fuel' =>
      let acc' := hex_digit (n mod 16) :: acc in
      if n <? 16 then acc' else hex_digits fuel' (n / 16) acc'
  end.

Definition string_of_list (l : list ascii) : string :=
  List.fold_right String EmptyString l.

(** [n.toString(16)]: [N.size_nat n] digits are always enough. *)
Definition toString16 (n : N) : string :=
  string_of_list (hex_digits (S (N.size_nat n)) n []).

Fixpoint str_repeat (c : ascii) (n : nat) : string :=
  match n with O => EmptyString | S n' => String c (str_repeat c n') end.

(** [s.padStart(n, c)] for a one-character [c]. *)
Definition padStart (n : nat) (c : ascii) (s : string) : string :=
  String.append (str_repeat c (n - String.length s)) s.

Definition hex_id (prefix : string) (n : N) : string :=
  String.append prefix (padStart 8 "0"%char (toString16 n)).

(** ** Injectivity of padded ids *)

Fixpoint parse16 (acc : N) (s : string) : N :=
  match s with
  | EmptyString => acc
  | String c s' => parse16 (16 * acc + hex_value c) s'
  end.

Lemma hex_value_digit d : d < 16 -> hex_value (hex_digit d) = d.
Proof.
  intros Hd. unfold hex_value, hex_digit.
  destruct (N.ltb_spec d 10); rewrite N_ascii_embedding by lia;
    [destruct (N.ltb_spec (48 + d) 58)|destruct (N.ltb_spec (87 + d) 58)]; lia.
Qed.

Lemma hex_digits_parse fuel n acc a :
  n < 16 ^ N.of_nat fuel ->
  parse16 a (string_of_list (hex_digits fuel n acc)) =
  parse16 (match fuel with O => a | _ => a * 16 ^ N.of_nat (length (hex_digits fuel n [])) + n end)
    (string_of_list acc).
Proof.
  revert n acc a. induction fuel as [|fuel IH]; intros n acc a Hn; [done|].
  cbn [hex_digits]. destruct (N.ltb_spec n 16) as [Hlt|Hge].
  - cbn. rewrite hex_value_digit by (apply N.mod_lt; lia).
    rewrite N.mod_small by done. f_equal. lia.
  - assert (n / 16 < 16 ^ N.of_nat fuel) as Hq.
    { apply N.Div0.div_lt_upper_bound. rewrite Nat2N.inj_succ, N.pow_succ_r' in Hn. lia. }
    destruct fuel as [|fuel]; [cbn in *; lia|].
    rewrite IH by done. cbn [string_of_list List.fold_right parse16].
    rewrite hex_value_digit by (apply N.mod_lt; lia). f_equal.
    assert (forall f m l, length (hex_digits f m l) = (length (hex_digits f m []) + length l)%nat)
      as Hlen.
    { clear. induction f as [|f IHf]; intros m l; cbn; [done|].
      destruct (m <? 16); [cbn; lia|]. rewrite (IHf _ (_ :: l)), (IHf _ [_]). cbn. lia. }
    rewrite (Hlen _ _ [_]). cbn [length].
    rewrite Nat2N.inj_add, N.pow_add_r. change (16 ^ N.of_nat 1) with 16.
    pose proof (N.div_mod n 16 ltac:(lia)). lia.
Qed.

Lemma size_nat_pow n : n < 16 ^ N.of_nat (S (N.size_nat n)).
Proof.
  destruct n as [|p]; [cbn; lia|].
  assert (N.pos p < 2 ^ N.of_nat (Pos.size_nat p)) as H.
  { induction p as [p IH|p IH|]; cbn [Pos.size_nat]; [| |cbn; lia].
    all: rewrite Nat2N.inj_succ, N.pow_succ_r'.
    - change (N.pos p~1) with (2 * N.pos p + 1). lia.
    - change (N.pos p~0) with (2 * N.pos p). lia. }
  change (N.size_nat (N.pos p)) with (Pos.size_nat p).
  eapply N.lt_trans; [exact H|].
  eapply N.le_lt_trans; [apply (N.pow_le_mono_l 2 16); lia|].
  apply N.pow_lt_mono_r; lia.
Qed.

Lemma toString16_parse n : parse16 0 (toString16 n) = n.
Proof. unfold toString16. rewrite hex_digits_parse by apply size_nat_pow. cbn -[hex_digits]. lia. Qed.

Lemma parse16_append a s t : parse16 a (String.append s t) = parse16 (parse16 a s) t.
Proof. revert a. induction s as [|c s IH]; intros a; cbn; [done|]. apply IH. Qed.

Lemma parse16_zeros n : parse16 0 (str_repeat "0" n) = 0.
Proof. induction n as [|n IH]; cbn; [done|]. exact IH. Qed.

Lemma append_inj_l p s t : String.append p s = String.append p t -> s = t.
Proof. induction p as [|c p IH]; cbn; [done|]. intros [= H]. auto. Qed.

Lemma hex_id_inj p n m : hex_id p n = hex_id p m -> n = m.
Proof.
  intros H%append_inj_l. apply (f_equal (parse16 0)) in H. unfold padStart in H.
  by rewrite !parse16_append, !parse16_zeros, !toString16_parse in H.
Qed.
