(* ===== verification/CircuitBreaker.v ===== *)
(** * Circuit breaker ([packages/circuit-breaker/src/index.ts])

    The per-peer three-state machine that guards outbound forwards.  A breaker
    holds a [Map] from peer id to a mutable entry and an injected logger; its
    state here is that map and the list of logged events.  Every operation
    takes the reading of the injected clock ([_now()]) it makes.

    - [Section breaker]: the code, one definition per method;
    - [legal], [entry_ok], [breaker_ok]: the state-machine invariant, preserved
      by every method ([step_ok]) and so true of every reachable state;
    - [Section window_spec]: the abstract contract.  A specification that never
      prunes keeps the whole failure history of a closed peer and counts the
      failures inside the window; [run_refines] shows that the pruning
      implementation answers every query of every time-ordered trace as the
      specification does. *)

From S2P Require Import Prelude JsMap.
Local Open Scope Z_scope.

Inductive circuit_state := closed | open | half_open.

#[export] Instance circuit_state_eq_dec : EqDecision circuit_state.
Proof. solve_decision. Defined.

Record CircuitBreakerConfig := {
  failureThreshold : Z;
  successThreshold : Z;
  resetTimeoutMs : Z;
  windowMs : Z;
}.

Record CircuitBreakerState := {
  cs_state : circuit_state;
  cs_failures : Z;
  cs_successes : Z;
  cs_lastFailureAt : Z;
  cs_lastStateChangeAt : Z;
}.

Record PeerEntry := {
  pe_state : circuit_state;
  failureTimestamps : list Z;
  halfOpenSuccesses : Z;
  lastFailureAt : Z;
  lastStateChangeAt : Z;
}.

Definition DEFAULT_CONFIG : CircuitBreakerConfig := {|
  failureThreshold := 5;
  successThreshold := 2;
  resetTimeoutMs := 60000;
  windowMs := 120000;
|}.

(** What the injected logger receives. *)
Inductive log_event :=
| state_change (peerId : string) (from to : circuit_state)
| log_reset (peerId : string).

Record CircuitBreaker := {
  peers : jsmap string PeerEntry;
  logger : list log_event;
}.

Definition new_breaker : CircuitBreaker := {| peers := jm_empty; logger := [] |}.

Section breaker.
Context (config : CircuitBreakerConfig).

Definition pruneWindow (entry : PeerEntry) (now : Z) : PeerEntry :=
  let cutoff := now - windowMs config in
  {| pe_state := pe_state entry;
     failureTimestamps := filter (fun ts => cutoff <= ts) (failureTimestamps entry);
     halfOpenSuccesses := halfOpenSuccesses entry;
     lastFailureAt := lastFailureAt entry;
     lastStateChangeAt := lastStateChangeAt entry |}.

(** The entry object is shared with the map, so the caller's [jm_set] of the
    returned entry is the mutation; the event is what the logger receives. *)
Definition transition (peerId : string) (entry : PeerEntry) (newState : circuit_state)
    (now : Z) : PeerEntry * log_event :=
  ({| pe_state := newState;
      failureTimestamps :=
        match newState with
        | closed => []
        | half_open => failureTimestamps entry
        | open => []
        end;
      halfOpenSuccesses := 0;
      lastFailureAt := lastFailureAt entry;
      lastStateChangeAt := now |},
   state_change peerId (pe_state entry) newState).

Definition put (peerId : string) (entry : PeerEntry) (b : CircuitBreaker) : CircuitBreaker :=
  {| peers := jm_set peerId entry (peers b); logger := logger b |}.

Definition put_logged (peerId : string) (p : PeerEntry * log_event) (b : CircuitBreaker)
    : CircuitBreaker :=
  {| peers := jm_set peerId p.1 (peers b); logger := logger b ++ [p.2] |}.

Definition recordSuccess (peerId : string) (now : Z) (b : CircuitBreaker) : CircuitBreaker :=
  match jm_get peerId (peers b) with
  | None => b
  | Some entry =>
      match pe_state entry with
      | half_open =>
          let entry' := {| pe_state := half_open;
                           failureTimestamps := failureTimestamps entry;
                           halfOpenSuccesses := halfOpenSuccesses entry + 1;
                           lastFailureAt := lastFailureAt entry;
                           lastStateChangeAt := lastStateChangeAt entry |} in
          if decide (successThreshold config <= halfOpenSuccesses entry')
          then put_logged peerId (transition peerId entry' closed now) b
          else put peerId entry' b
      | closed => put peerId (pruneWindow entry now) b
      | open => b
      end
  end.

(** [entry] with [lastFailureAt := now], and with [now] pushed on the window. *)
Definition stamp_failure (entry : PeerEntry) (now : Z) : PeerEntry :=
  {| pe_state := pe_state entry;
     failureTimestamps := failureTimestamps entry;
     halfOpenSuccesses := halfOpenSuccesses entry;
     lastFailureAt := now;
     lastStateChangeAt := lastStateChangeAt entry |}.

Definition push_failure (entry : PeerEntry) (now : Z) : PeerEntry :=
  {| pe_state := pe_state entry;
     failureTimestamps := failureTimestamps entry ++ [now];
     halfOpenSuccesses := halfOpenSuccesses entry;
     lastFailureAt := lastFailureAt entry;
     lastStateChangeAt := lastStateChangeAt entry |}.

(** The entry of a peer's first recorded failure. *)
Definition new_entry (now : Z) : PeerEntry :=
  {| pe_state := closed;
     failureTimestamps := [now];
     halfOpenSuccesses := 0;
     lastFailureAt := now;
     lastStateChangeAt := now |}.

Definition recordFailure (peerId : string) (now : Z) (b : CircuitBreaker) : CircuitBreaker :=
  match jm_get peerId (peers b) with
  | None =>
      let entry := new_entry now in
      let b' := put peerId entry b in
      if decide (failureThreshold config <= Z.of_nat (length (failureTimestamps entry)))
      then put_logged peerId (transition peerId entry open now) b'
      else b'
  | Some entry0 =>
      let entry := stamp_failure entry0 now in
      match pe_state entry with
      | half_open => put_logged peerId (transition peerId entry open now) b
      | closed =>
          let entry' := pruneWindow (push_failure entry now) now in
          if decide (failureThreshold config <= Z.of_nat (length (failureTimestamps entry')))
          then put_logged peerId (transition peerId entry' open now) b
          else put peerId entry' b
      | open => put peerId entry b
      end
  end.

Definition canForward (peerId : string) (now : Z) (b : CircuitBreaker) : bool * CircuitBreaker :=
  match jm_get peerId (peers b) with
  | None => (true, b)
  | Some entry =>
      match pe_state entry with
      | closed => (true, b)
      | half_open => (true, b)
      | open =>
          if decide (resetTimeoutMs config <= now - lastStateChangeAt entry)
          then (true, put_logged peerId (transition peerId entry half_open now) b)
          else (false, b)
      end
  end.

Definition observe (entry : PeerEntry) : CircuitBreakerState :=
  {| cs_state := pe_state entry;
     cs_failures := Z.of_nat (length (failureTimestamps entry));
     cs_successes := halfOpenSuccesses entry;
     cs_lastFailureAt := lastFailureAt entry;
     cs_lastStateChangeAt := lastStateChangeAt entry |}.

Definition untracked : CircuitBreakerState :=
  {| cs_state := closed; cs_failures := 0; cs_successes := 0;
     cs_lastFailureAt := 0; cs_lastStateChangeAt := 0 |}.

Definition getState (peerId : string) (now : Z) (b : CircuitBreaker)
    : CircuitBreakerState * CircuitBreaker :=
  match jm_get peerId (peers b) with
  | None => (untracked, b)
  | Some entry =>
      match pe_state entry with
      | closed => let entry' := pruneWindow entry now in (observe entry', put peerId entry' b)
      | _ => (observe entry, b)
      end
  end.

Definition reset (peerId : string) (b : CircuitBreaker) : CircuitBreaker :=
  {| peers := jm_delete peerId (peers b); logger := logger b ++ [log_reset peerId] |}.

(** The loop of [getAllStates] over the peer ids; [clock p] is the reading
    made while visiting [p]. *)
Fixpoint getStates (ids : list string) (clock : string -> Z)
    (acc : jsmap string CircuitBreakerState) (b : CircuitBreaker)
    : jsmap string CircuitBreakerState * CircuitBreaker :=
  match ids with
  | [] => (acc, b)
  | p :: ids' =>
      let '(s, b') := getState p (clock p) b in getStates ids' clock (jm_set p s acc) b'
  end.

Definition getAllStates (clock : string -> Z) (b : CircuitBreaker)
    : jsmap string CircuitBreakerState * CircuitBreaker :=
  getStates (jm_keys (peers b)) clock jm_empty b.
End breaker.

(** ** Steps

    One call of one method.  [apply_op] is the method's effect at the clock
    reading [now]; the observation is what the call returns. *)

Inductive peer_op := PSuccess | PFailure | PCan | PGet | PReset.

Inductive obs := ONone | OBool (b : bool) | OState (s : CircuitBreakerState).

Section steps.
Context (config : CircuitBreakerConfig).

Definition apply_op (peerId : string) (op : peer_op) (now : Z) (b : CircuitBreaker)
    : obs * CircuitBreaker :=
  match op with
  | PSuccess => (ONone, recordSuccess config peerId now b)
  | PFailure => (ONone, recordFailure config peerId now b)
  | PCan => let '(r, b') := canForward config peerId now b in (OBool r, b')
  | PGet => let '(r, b') := getState config peerId now b in (OState r, b')
  | PReset => (ONone, reset peerId b)
  end.

(** A trace of calls, each with its clock reading, peer and method. *)
Fixpoint run (trace : list (Z * string * peer_op)) (b : CircuitBreaker)
    : list obs * CircuitBreaker :=
  match trace with
  | [] => ([], b)
  | (now, p, op) :: trace' =>
      let '(o, b1) := apply_op p op now b in
      let '(os, b2) := run trace' b1 in
      (o :: os, b2)
  end.

(** The clock never goes back along the trace. *)
Fixpoint clock_ordered (t : Z) (trace : list (Z * string * peer_op)) : Prop :=
  match trace with
  | [] => True
  | (now, _, _) :: trace' => t <= now /\ clock_ordered now trace'
  end.
End steps.

(** ** The state machine and its invariant *)

Definition legal (from to : circuit_state) : Prop :=
  match from, to with
  | closed, open => True
  | open, half_open => True
  | half_open, open => True
  | half_open, closed => True
  | _, _ => False
  end.

(** The state of one peer as the log alone determines it: [None] when the log
    is not a path of legal transitions from [closed]. *)
Definition replay_event (p : string) (s : option circuit_state) (e : log_event)
    : option circuit_state :=
  match e with
  | state_change p' from to =>
      if decide (p' = p) then
        match s with
        | Some cur =>
            if decide (cur = from) then
              match from, to with
              | closed, open | open, half_open | half_open, open | half_open, closed => Some to
              | _, _ => None
              end
            else None
        | None => None
        end
      else s
  | log_reset p' =>
      if decide (p' = p) then match s with Some _ => Some closed | None => None end else s
  end.

Definition replay (p : string) (l : list log_event) : option circuit_state :=
  foldl (replay_event p) (Some closed) l.
Arguments replay : simpl never.

Definition peer_state (p : string) (b : CircuitBreaker) : circuit_state :=
  match jm_get p (peers b) with Some e => pe_state e | None => closed end.

Section invariant.
Context (config : CircuitBreakerConfig).
Context (Hft : 1 <= failureThreshold config) (Hst : 1 <= successThreshold config).

Record entry_ok (now : Z) (e : PeerEntry) : Prop := {
  eo_closed : pe_state e = closed ->
    Z.of_nat (length (failureTimestamps e)) < failureThreshold config /\
    halfOpenSuccesses e = 0;
  eo_not_closed : pe_state e <> closed -> failureTimestamps e = [];
  eo_open : pe_state e = open -> halfOpenSuccesses e = 0;
  eo_half : pe_state e = half_open -> 0 <= halfOpenSuccesses e < successThreshold config;
  eo_times : Forall (fun ts => ts <= now) (failureTimestamps e);
  eo_change : lastStateChangeAt e <= now;
  eo_failure : lastFailureAt e <= now;
}.

Record breaker_ok (now : Z) (b : CircuitBreaker) : Prop := {
  bo_wf : jm_wf (peers b);
  bo_entries : forall p e, jm_get p (peers b) = Some e -> entry_ok now e;
  bo_log : forall p, replay p (logger b) = Some (peer_state p b);
}.

Lemma entry_ok_mono t t' e : t <= t' -> entry_ok t e -> entry_ok t' e.
Proof.
  intros Ht []. constructor; try done; try lia.
  eapply Forall_impl; [done|]. cbn. lia.
Qed.

Lemma breaker_ok_new t : breaker_ok t new_breaker.
Proof. constructor; [apply jm_wf_empty|done|done]. Qed.

Lemma breaker_ok_mono t t' b : t <= t' -> breaker_ok t b -> breaker_ok t' b.
Proof. intros ? []. constructor; eauto using entry_ok_mono. Qed.

Lemma replay_app p l e : replay p (l ++ [e]) = replay_event p (replay p l) e.
Proof. unfold replay. by rewrite foldl_app. Qed.

Lemma peer_state_put p q e b :
  peer_state q (put p e b) = if decide (q = p) then pe_state e else peer_state q b.
Proof. unfold peer_state. cbn. rewrite jm_get_set. by case_decide. Qed.

Lemma peer_state_put_logged p q x b :
  peer_state q (put_logged p x b) = if decide (q = p) then pe_state x.1 else peer_state q b.
Proof. unfold peer_state. cbn. rewrite jm_get_set. by case_decide. Qed.

(** Writing an entry of the same state keeps the invariant. *)
Lemma put_ok t p e b :
  breaker_ok t b -> entry_ok t e -> peer_state p b = pe_state e -> breaker_ok t (put p e b).
Proof.
  intros [Hwf Hent Hlog] He Hst'. constructor; cbn.
  - by apply jm_wf_set.
  - intros q f. rewrite jm_get_set. case_decide; [by intros [= <-]|eauto].
  - intros q. rewrite Hlog, peer_state_put. case_decide; congruence.
Qed.

(** A legal transition, written and logged, keeps the invariant. *)
Lemma transition_ok t p e to b :
  breaker_ok t b -> legal (peer_state p b) to -> peer_state p b = pe_state e ->
  (pe_state e <> closed -> failureTimestamps e = []) -> lastFailureAt e <= t ->
  breaker_ok t (put_logged p (transition p e to t) b).
Proof.
  intros [Hwf Hent Hlog] Hleg Hse Hfts Hlf. constructor; cbn.
  - by apply jm_wf_set.
  - intros q f. rewrite jm_get_set. case_decide; [|eauto]. intros [= <-].
    rewrite Hse in Hleg.
    destruct (pe_state e) eqn:E, to; cbn in Hleg; try done; constructor; cbn; try done;
      try lia; try (intros; by apply Hfts); by rewrite Hfts.
  - intros q. rewrite replay_app, Hlog, peer_state_put_logged. cbn. destruct (decide (p = q)) as [->|Hne].
    + rewrite decide_True by done. rewrite Hse, decide_True by done.
      rewrite Hse in Hleg. by destruct (pe_state e), to.
    + rewrite decide_False by congruence. done.
Qed.

Lemma prune_ok t now e :
  entry_ok t e -> pe_state e = closed -> entry_ok t (pruneWindow config e now).
Proof.
  intros [] Hc. destruct (eo_closed0 Hc) as [Hlen Hs].
  pose proof (length_filter (fun ts => now - windowMs config <= ts) (failureTimestamps e)).
  constructor; cbn; try congruence; try done.
  - split; [lia|done].
  - by apply Forall_filter_keep.
Qed.

Lemma entry_state p b e : jm_get p (peers b) = Some e -> peer_state p b = pe_state e.
Proof. intros E. unfold peer_state. by rewrite E. Qed.

Lemma recordSuccess_ok t p b : breaker_ok t b -> breaker_ok t (recordSuccess config p t b).
Proof.
  intros Hb. unfold recordSuccess. destruct (jm_get p (peers b)) as [e|] eqn:E; [|done].
  pose proof (entry_state _ _ _ E) as Hps.
  pose proof (bo_entries _ _ Hb _ _ E) as He.
  destruct (pe_state e) eqn:Es; [|done|].
  - apply put_ok; [done|by apply prune_ok|by rewrite Hps].
  - destruct He. specialize (eo_half0 Es). cbn [halfOpenSuccesses]. case_decide.
    + apply transition_ok; cbn; try done; [by rewrite Hps|].
      intros _. apply eo_not_closed0. congruence.
    + apply put_ok; [done| |done].
      constructor; cbn; try done; try lia. intros _. apply eo_not_closed0. congruence.
Qed.

Lemma recordFailure_ok t p b : breaker_ok t b -> breaker_ok t (recordFailure config p t b).
Proof.
  intros Hb. unfold recordFailure. destruct (jm_get p (peers b)) as [e|] eqn:E.
  - pose proof (entry_state _ _ _ E) as Hps.
    pose proof (bo_entries _ _ Hb _ _ E) as He. destruct He.
    cbn [stamp_failure pe_state]. destruct (pe_state e) eqn:Es.
    + case_decide as Hlen.
      * apply transition_ok; cbn; try done; [by rewrite Hps|congruence].
      * apply put_ok; [done| |by cbn; rewrite Es].
        destruct (eo_closed0 eq_refl) as [_ Hz].
        constructor; cbn; rewrite ?Es; try done; try lia; [split; [cbn in Hlen; lia|done]|].
        apply Forall_filter_keep, Forall_app. split; [done|]. repeat constructor; lia.
    + apply put_ok; [done| |by cbn; rewrite Es].
      constructor; cbn; rewrite ?Es; try done; lia.
    + apply transition_ok; cbn; try done; [by rewrite Hps|congruence|auto].
  - assert (peer_state p b = closed) as Hps by (unfold peer_state; by rewrite E).
    case_decide as Hlen; cbn in Hlen.
    + unfold put_logged, put; cbn. rewrite jm_set_set.
      apply (transition_ok t p (new_entry t) open b); cbn; try done. by rewrite Hps.
    + apply put_ok; [done| |done]. constructor; cbn; try done; try lia.
      repeat constructor; lia.
Qed.

Lemma canForward_ok t p b : breaker_ok t b -> breaker_ok t (canForward config p t b).2.
Proof.
  intros Hb. unfold canForward. destruct (jm_get p (peers b)) as [e|] eqn:E; [|done].
  pose proof (entry_state _ _ _ E) as Hps.
  destruct (bo_entries _ _ Hb _ _ E). destruct (pe_state e) eqn:Es; try done.
  case_decide; [|done]. cbn [snd]. apply transition_ok; try done; [by rewrite Hps|congruence|].
  rewrite Es. auto.
Qed.

Lemma getState_ok t now p b : breaker_ok t b -> breaker_ok t (getState config p now b).2.
Proof.
  intros Hb. unfold getState. destruct (jm_get p (peers b)) as [e|] eqn:E; [|done].
  pose proof (entry_state _ _ _ E) as Hps.
  pose proof (bo_entries _ _ Hb _ _ E). destruct (pe_state e) eqn:Es; try done.
  cbn [snd]. apply put_ok; [done|by apply prune_ok|by cbn; congruence].
Qed.

Lemma reset_ok t p b : breaker_ok t b -> breaker_ok t (reset p b).
Proof.
  intros [Hwf Hent Hlog]. constructor; cbn.
  - by apply jm_wf_delete.
  - intros q e. rewrite jm_get_delete. case_decide; [done|eauto].
  - intros q. rewrite replay_app, Hlog. unfold peer_state; cbn.
    rewrite jm_get_delete. repeat case_decide; try congruence; done.
Qed.

Lemma breaker_op_ok t p op b : breaker_ok t b -> breaker_ok t (apply_op config p op t b).2.
Proof.
  intros Hb. destruct op; cbn.
  - by apply recordSuccess_ok.
  - by apply recordFailure_ok.
  - pose proof (canForward_ok t p b Hb). by destruct (canForward config p t b).
  - pose proof (getState_ok t t p b Hb). by destruct (getState config p t b).
  - by apply reset_ok.
Qed.

Lemma getStates_ok t clock ids acc b :
  breaker_ok t b -> breaker_ok t (getStates config ids clock acc b).2.
Proof.
  revert acc b. induction ids as [|p ids IH]; intros acc b Hb; cbn; [done|].
  pose proof (getState_ok t (clock p) p b Hb). destruct (getState config p (clock p) b). by apply IH.
Qed.

(** ** Reachability *)

Inductive reachable : Z -> CircuitBreaker -> Prop :=
| reach_init t : reachable t new_breaker
| reach_op t t' p op b : reachable t b -> t <= t' -> reachable t' (apply_op config p op t' b).2
| reach_all t t' clock b :
    reachable t b -> t <= t' -> reachable t' (getAllStates config clock b).2.

Lemma breaker_reachable_ok t b : reachable t b -> breaker_ok t b.
Proof.
  induction 1 as [t|t t' p op b _ IH Ht|t t' clock b _ IH Ht].
  - apply breaker_ok_new.
  - apply breaker_op_ok. by eapply breaker_ok_mono.
  - apply getStates_ok. by eapply breaker_ok_mono.
Qed.
End invariant.

(** ** The abstract contract: an unpruned failure history

    The specification keeps one optional record per peer.  A closed peer's
    record holds every failure since it was last closed; nothing is ever
    pruned, and every question counts the failures inside the window. *)

Record spec_peer := {
  sp_state : circuit_state;
  sp_failures : list Z;
  sp_successes : Z;
  sp_lastFailureAt : Z;
  sp_lastChange : Z;
}.

Section window_spec.
Context (config : CircuitBreakerConfig).

Definition window (now : Z) (l : list Z) : list Z :=
  filter (fun ts => now - windowMs config <= ts) l.

Definition spec_enter (st : circuit_state) (lf now : Z) : spec_peer :=
  {| sp_state := st; sp_failures := []; sp_successes := 0;
     sp_lastFailureAt := lf; sp_lastChange := now |}.

(** A failure of a closed peer whose history becomes [fails]. *)
Definition spec_count (fails : list Z) (succ now change : Z) : spec_peer :=
  if decide (failureThreshold config <= Z.of_nat (length (window now fails)))
  then spec_enter open now now
  else {| sp_state := closed; sp_failures := fails; sp_successes := succ;
          sp_lastFailureAt := now; sp_lastChange := change |}.

Definition spec_peer_step (op : peer_op) (now : Z) (s : option spec_peer)
    : obs * option spec_peer :=
  match op, s with
  | PSuccess, Some s' =>
      match sp_state s' with
      | half_open =>
          if decide (successThreshold config <= sp_successes s' + 1)
          then (ONone, Some (spec_enter closed (sp_lastFailureAt s') now))
          else (ONone, Some {| sp_state := half_open; sp_failures := sp_failures s';
                               sp_successes := sp_successes s' + 1;
                               sp_lastFailureAt := sp_lastFailureAt s';
                               sp_lastChange := sp_lastChange s' |})
      | _ => (ONone, s)
      end
  | PSuccess, None => (ONone, None)
  | PFailure, None => (ONone, Some (
      if decide (failureThreshold config <= 1) then spec_enter open now now
      else {| sp_state := closed; sp_failures := [now]; sp_successes := 0;
              sp_lastFailureAt := now; sp_lastChange := now |}))
  | PFailure, Some s' =>
      (ONone, Some
        match sp_state s' with
        | half_open => spec_enter open now now
        | closed => spec_count (sp_failures s' ++ [now]) (sp_successes s') now (sp_lastChange s')
        | open => {| sp_state := open; sp_failures := sp_failures s';
                     sp_successes := sp_successes s';
                     sp_lastFailureAt := now; sp_lastChange := sp_lastChange s' |}
        end)
  | PCan, None => (OBool true, None)
  | PCan, Some s' =>
      match sp_state s' with
      | open =>
          if decide (resetTimeoutMs config <= now - sp_lastChange s')
          then (OBool true, Some {| sp_state := half_open; sp_failures := sp_failures s';
                                    sp_successes := 0;
                                    sp_lastFailureAt := sp_lastFailureAt s';
                                    sp_lastChange := now |})
          else (OBool false, s)
      | _ => (OBool true, s)
      end
  | PGet, None => (OState untracked, None)
  | PGet, Some s' =>
      (OState {| cs_state := sp_state s';
                 cs_failures := Z.of_nat (length
                   (if decide (sp_state s' = closed) then window now (sp_failures s')
                    else sp_failures s'));
                 cs_successes := sp_successes s';
                 cs_lastFailureAt := sp_lastFailureAt s';
                 cs_lastStateChangeAt := sp_lastChange s' |}, s)
  | PReset, _ => (ONone, None)
  end.

Definition spec_state := string -> option spec_peer.

Fixpoint spec_run (trace : list (Z * string * peer_op)) (m : spec_state) : list obs :=
  match trace with
  | [] => []
  | (now, p, op) :: trace' =>
      let '(o, s) := spec_peer_step op now (m p) in
      o :: spec_run trace' (fun q => if decide (q = p) then s else m q)
  end.

(** An entry refines a specification record at time [t] when every window
    that starts at [t] or later selects the same failures from both. *)
Record refines (t : Z) (e : PeerEntry) (s : spec_peer) : Prop := {
  rf_state : pe_state e = sp_state s;
  rf_window : forall t', t <= t' -> window t' (failureTimestamps e) = window t' (sp_failures s);
  rf_exact : pe_state e <> closed -> failureTimestamps e = sp_failures s;
  rf_successes : halfOpenSuccesses e = sp_successes s;
  rf_failure : lastFailureAt e = sp_lastFailureAt s;
  rf_change : lastStateChangeAt e = sp_lastChange s;
}.

Definition refines_opt (t : Z) (e : option PeerEntry) (s : option spec_peer) : Prop :=
  match e, s with
  | Some e, Some s => refines t e s
  | None, None => True
  | _, _ => False
  end.

Definition refines_all (t : Z) (b : CircuitBreaker) (m : spec_state) : Prop :=
  forall p, refines_opt t (jm_get p (peers b)) (m p).

Lemma window_window t t' l : t <= t' -> window t' (window t l) = window t' l.
Proof.
  intros Ht. unfold window. induction l as [|x l IH]; [done|].
  rewrite !filter_cons. repeat case_decide; rewrite ?filter_cons, ?IH;
    repeat case_decide; try done; lia.
Qed.

Lemma window_app t l l' : window t (l ++ l') = window t l ++ window t l'.
Proof. apply filter_app. Qed.

Lemma refines_opt_mono t t' e s : t <= t' -> refines_opt t e s -> refines_opt t' e s.
Proof.
  intros Ht. destruct e, s; try done. intros []. constructor; try done.
  intros; apply rf_window0; lia.
Qed.

Definition upd (p : string) (s : option spec_peer) (m : spec_state) : spec_state :=
  fun q => if decide (q = p) then s else m q.

Lemma refines_upd t now p b b' s m :
  refines_all t b m -> t <= now ->
  refines_opt now (jm_get p (peers b')) s ->
  (forall q, q <> p -> jm_get q (peers b') = jm_get q (peers b)) ->
  refines_all now b' (upd p s m).
Proof.
  intros HR Ht Hp Hq q. unfold upd. case_decide as E; [by subst|].
  rewrite Hq by done. eapply refines_opt_mono; [exact Ht|apply HR].
Qed.

Lemma refines_prune now e s :
  refines now e s -> pe_state e = closed -> refines now (pruneWindow config e now) s.
Proof.
  intros [] Hc. constructor; cbn; try done; try congruence.
  intros t' Ht. change (window t' (window now (failureTimestamps e)) = window t' (sp_failures s)).
  rewrite window_window by done. auto.
Qed.

Lemma refines_enter now e s st :
  refines now e s -> st <> half_open ->
  refines now (transition EmptyString e st now).1 (spec_enter st (sp_lastFailureAt s) now).
Proof. intros [] Hst. by destruct st; constructor; cbn. Qed.

Lemma refines_count now e s :
  refines now e s -> pe_state e = closed ->
  let e' := pruneWindow config (push_failure (stamp_failure e now) now) now in
  refines now
    (if decide (failureThreshold config <= Z.of_nat (length (failureTimestamps e')))
     then (transition EmptyString e' open now).1 else e')
    (spec_count (sp_failures s ++ [now]) (sp_successes s) now (sp_lastChange s)).
Proof.
  intros [] Hc e'.
  assert (failureTimestamps e' = window now (sp_failures s ++ [now])) as Hft.
  { unfold e'; cbn. fold (window now (failureTimestamps e ++ [now])).
    by rewrite !window_app, rf_window0 by lia. }
  unfold spec_count. rewrite Hft. case_decide; [by constructor|].
  constructor; cbn; try done; try congruence.
  intros t' Ht. cbn in Hft. rewrite Hft. by apply window_window.
Qed.

Ltac unchanged E := eapply refines_upd; try done; cbn [fst snd]; by rewrite E.
Ltac other_peers := intros; cbn; unfold put, put_logged; cbn; by jm_simpl.

Lemma success_refines t now p b m :
  refines_all t b m -> t <= now ->
  refines_all now (recordSuccess config p now b) (upd p (spec_peer_step PSuccess now (m p)).2 m).
Proof.
  intros HR Ht. pose proof (refines_opt_mono _ now _ _ Ht (HR p)) as Hp.
  unfold recordSuccess. destruct (jm_get p (peers b)) as [e|] eqn:E, (m p) as [s|] eqn:Em; try done.
  2: { unchanged E. }
  cbn in Hp. cbn [spec_peer_step]. rewrite <- (rf_state _ _ _ Hp).
  destruct (pe_state e) eqn:Es.
  - eapply refines_upd; [done|done| |other_peers]. cbn. rewrite jm_get_set_eq.
    by apply refines_prune.
  - unchanged E.
  - pose proof Hp as []. cbn [halfOpenSuccesses]. rewrite rf_successes0.
    case_decide; (eapply refines_upd; [done|done| |other_peers]); cbn; rewrite jm_get_set_eq.
    + by constructor.
    + constructor; cbn; try done; try lia. intros _. apply rf_exact0. congruence.
Qed.

Lemma failure_refines t now p b m :
  refines_all t b m -> t <= now ->
  refines_all now (recordFailure config p now b) (upd p (spec_peer_step PFailure now (m p)).2 m).
Proof.
  intros HR Ht. pose proof (refines_opt_mono _ now _ _ Ht (HR p)) as Hp.
  unfold recordFailure. destruct (jm_get p (peers b)) as [e|] eqn:E, (m p) as [s|] eqn:Em; try done.
  - cbn in Hp. cbn [spec_peer_step snd stamp_failure pe_state].
    rewrite <- (rf_state _ _ _ Hp). destruct (pe_state e) eqn:Es.
    + pose proof (refines_count now e s Hp Es) as Hc. cbn zeta in Hc.
      case_decide; (eapply refines_upd; [done|done| |other_peers]); cbn; rewrite jm_get_set_eq;
        exact Hc.
    + pose proof Hp as []. eapply refines_upd; [done|done| |other_peers]. cbn.
      rewrite jm_get_set_eq. constructor; cbn; auto; done.
    + pose proof Hp as []. eapply refines_upd; [done|done| |other_peers]. cbn.
      rewrite jm_get_set_eq. by constructor.
  - cbn [spec_peer_step snd new_entry failureTimestamps length].
    change (Z.of_nat 1) with 1.
    case_decide; (eapply refines_upd; [done|done| |other_peers]); cbn; rewrite jm_get_set_eq;
      by constructor.
Qed.

Lemma can_refines t now p b m :
  refines_all t b m -> t <= now ->
  OBool (canForward config p now b).1 = (spec_peer_step PCan now (m p)).1 /\
  refines_all now (canForward config p now b).2 (upd p (spec_peer_step PCan now (m p)).2 m).
Proof.
  intros HR Ht. pose proof (refines_opt_mono _ now _ _ Ht (HR p)) as Hp.
  unfold canForward. destruct (jm_get p (peers b)) as [e|] eqn:E, (m p) as [s|] eqn:Em; try done.
  2: { split; [done|]. unchanged E. }
  cbn in Hp. cbn [spec_peer_step]. rewrite <- (rf_state _ _ _ Hp).
  pose proof Hp as []. destruct (pe_state e) eqn:Es.
  1,3: split; [done|]; unchanged E.
  rewrite rf_change0. case_decide; (split; [done|]).
  - eapply refines_upd; [done|done| |other_peers]. cbn. rewrite jm_get_set_eq.
    constructor; cbn; try done. intros _. apply rf_exact0; congruence.
  - unchanged E.
Qed.

Lemma get_refines t now p b m :
  refines_all t b m -> t <= now ->
  OState (getState config p now b).1 = (spec_peer_step PGet now (m p)).1 /\
  refines_all now (getState config p now b).2 (upd p (spec_peer_step PGet now (m p)).2 m).
Proof.
  intros HR Ht. pose proof (refines_opt_mono _ now _ _ Ht (HR p)) as Hp.
  unfold getState. destruct (jm_get p (peers b)) as [e|] eqn:E, (m p) as [s|] eqn:Em; try done.
  2: { split; [done|]. unchanged E. }
  cbn in Hp. cbn [spec_peer_step fst snd]. pose proof Hp as [].
  destruct (pe_state e) eqn:Es; rewrite <- rf_state0; cbn [fst snd]; unfold observe; cbn.
  - split.
    + rewrite Es, decide_True by done. fold (window now (failureTimestamps e)).
      rewrite rf_window0 by lia. congruence.
    + eapply refines_upd; [done|done| |other_peers]. cbn. rewrite jm_get_set_eq.
      by apply refines_prune.
  - split; [|unchanged E].
    rewrite Es, decide_False by done. rewrite rf_exact0 by congruence. congruence.
  - split; [|unchanged E].
    rewrite Es, decide_False by done. rewrite rf_exact0 by congruence. congruence.
Qed.

Lemma apply_op_refines t now p op b m :
  refines_all t b m -> t <= now ->
  (apply_op config p op now b).1 = (spec_peer_step op now (m p)).1 /\
  refines_all now (apply_op config p op now b).2 (upd p (spec_peer_step op now (m p)).2 m).
Proof.
  intros HR Ht. destruct op; cbn [apply_op].
  - split; [|by eapply success_refines]. cbn. destruct (m p) as [s|]; [|done].
    by destruct (sp_state s); repeat case_decide.
  - split; [by cbn; destruct (m p)|by eapply failure_refines].
  - pose proof (can_refines t now p b m HR Ht). by destruct (canForward config p now b).
  - pose proof (get_refines t now p b m HR Ht). by destruct (getState config p now b).
  - split; [by cbn; destruct (m p)|]. eapply refines_upd; [done|done| |intros; cbn; by jm_simpl].
    cbn. rewrite jm_get_delete_eq. by destruct (m p).
Qed.

Lemma run_refines_from t b m trace :
  refines_all t b m -> clock_ordered t trace -> (run config trace b).1 = spec_run trace m.
Proof.
  revert t b m. induction trace as [|[[now p] op] trace IH]; intros t b m HR; cbn; [done|].
  intros [Ht Hc]. destruct (apply_op_refines t now p op b m HR Ht) as [Ho HR'].
  destruct (apply_op config p op now b) as [o b1].
  destruct (spec_peer_step op now (m p)) as [o' s']. cbn in Ho, HR'. subst o'.
  specialize (IH _ _ _ HR' Hc). destruct (run config trace b1) as [os b2].
  cbn in *. by rewrite IH.
Qed.
End window_spec.

(** ** Tripping and recovering *)

Section behaviour.
Context (config : CircuitBreakerConfig).

Definition failures_at (p : string) (ts : list Z) (b : CircuitBreaker) : CircuitBreaker :=
  foldl (fun b now => recordFailure config p now b) b ts.

Definition successes_at (p : string) (ts : list Z) (b : CircuitBreaker) : CircuitBreaker :=
  foldl (fun b now => recordSuccess config p now b) b ts.

(** All the readings of [ts] lie within one window of each other. *)
Definition within_window (ts : list Z) : Prop :=
  forall x y, x ∈ ts -> y ∈ ts -> x - windowMs config <= y.

Lemma filter_all (P : Z -> Prop) `{!forall x, Decision (P x)} (l : list Z) :
  (forall x, x ∈ l -> P x) -> filter P l = l.
Proof.
  induction l as [|x l IH]; intros Hl; [done|]. rewrite filter_cons_True by (apply Hl; by left).
  f_equal. apply IH. intros; apply Hl. by right.
Qed.

Lemma burst_prefix p ts b :
  jm_get p (peers b) = None -> ts <> [] -> within_window ts ->
  Z.of_nat (length ts) < failureThreshold config ->
  exists e, jm_get p (peers (failures_at p ts b)) = Some e /\
    pe_state e = closed /\ failureTimestamps e = ts.
Proof.
  intros Hp. induction ts as [|now ts IH] using rev_ind; intros Hne Hw Hlen; [done|].
  unfold failures_at. rewrite foldl_app. fold (failures_at p ts b). cbn [foldl].
  rewrite length_app in Hlen. cbn [length] in Hlen.
  destruct ts as [|t0 ts].
  - cbn in *. unfold recordFailure. rewrite Hp. cbn. rewrite decide_False by lia.
    cbn. rewrite jm_get_set_eq. by eexists.
  - destruct IH as (e & He & Hst & Hft); [done| |lia|].
    { intros x y Hx Hy. apply Hw; apply elem_of_app; by left. }
    assert (filter (fun ts => now - windowMs config <= ts) (failureTimestamps e ++ [now])
            = (t0 :: ts) ++ [now]) as Hfl.
    { rewrite Hft. apply filter_all. intros x Hx. apply Hw; [|done]. set_solver. }
    unfold recordFailure. rewrite He. cbn [stamp_failure pe_state]. rewrite Hst.
    cbn [pruneWindow push_failure stamp_failure failureTimestamps]. rewrite Hfl.
    rewrite decide_False by (rewrite length_app; cbn [length] in *; lia).
    eexists. cbn [put peers]. rewrite jm_get_set_eq. split; [done|].
    split; [exact Hst|]. exact Hfl.
Qed.

Lemma burst_opens p ts now b :
  jm_get p (peers b) = None -> within_window (ts ++ [now]) ->
  Z.of_nat (length (ts ++ [now])) = failureThreshold config ->
  exists e, jm_get p (peers (failures_at p (ts ++ [now]) b)) = Some e /\
    pe_state e = open /\ lastStateChangeAt e = now.
Proof.
  intros Hp Hw Hlen. unfold failures_at. rewrite foldl_app. fold (failures_at p ts b).
  cbn [foldl]. rewrite length_app in Hlen. cbn [length] in Hlen. destruct ts as [|t0 ts].
  - cbn in *. unfold recordFailure. rewrite Hp. cbn. rewrite decide_True by lia.
    cbn. rewrite jm_get_set_eq. by eexists.
  - destruct (burst_prefix p (t0 :: ts) b) as (e & He & Hst & Hft); [done|done| |lia|].
    { intros x y Hx Hy. apply Hw; apply elem_of_app; by left. }
    assert (filter (fun ts => now - windowMs config <= ts) (failureTimestamps e ++ [now])
            = (t0 :: ts) ++ [now]) as Hfl.
    { rewrite Hft. apply filter_all. intros x Hx. apply Hw; [set_solver|done]. }
    unfold recordFailure. rewrite He. cbn [stamp_failure pe_state]. rewrite Hst.
    cbn [pruneWindow push_failure stamp_failure failureTimestamps]. rewrite Hfl.
    rewrite decide_True by (rewrite length_app; cbn [length] in *; lia).
    eexists. cbn [put_logged peers fst]. rewrite jm_get_set_eq. done.
Qed.

Lemma half_open_successes p ts b e :
  jm_get p (peers b) = Some e -> pe_state e = half_open ->
  halfOpenSuccesses e + Z.of_nat (length ts) < successThreshold config ->
  exists e', jm_get p (peers (successes_at p ts b)) = Some e' /\
    pe_state e' = half_open /\
    halfOpenSuccesses e' = halfOpenSuccesses e + Z.of_nat (length ts).
Proof.
  revert b e. induction ts as [|now ts IH]; intros b e He Hst Hlen; cbn [length] in *.
  - exists e. cbn. split; [done|]. split; [done|]. lia.
  - unfold successes_at. cbn [foldl]. fold (successes_at p ts (recordSuccess config p now b)).
    unfold recordSuccess. rewrite He, Hst. cbn [halfOpenSuccesses].
    rewrite decide_False by lia.
    match goal with |- context [put p ?x b] =>
      destruct (IH (put p x b) x) as (e' & He' & Hst' & Hs') end.
    { cbn [put peers]. apply jm_get_set_eq. }
    { done. }
    { cbn [halfOpenSuccesses]. lia. }
    exists e'. split; [exact He'|]. split; [done|]. rewrite Hs'. cbn [halfOpenSuccesses]. lia.
Qed.
End behaviour.

(** * Properties *)

(** In every state the breaker can reach, whatever the calls and however
    the clock moves forward, each tracked peer's entry is well formed (a closed
    peer is below the failure threshold, an open or half-open one holds no
    window, probe successes stay below the success threshold, no timestamp is
    in the future), and the logged transitions, replayed alone, are legal edges
    of the machine that end in the peer's state. *)
Theorem reachable_breaker_ok config t b :
  1 <= failureThreshold config -> 1 <= successThreshold config ->
  reachable config t b -> breaker_ok config t b.
Proof. intros Hf Hs. by apply breaker_reachable_ok. Qed.

Definition trip_trace : list (Z * string * peer_op) :=
  [(10, "a", PFailure); (20, "a", PFailure); (30, "a", PFailure); (35, "b", PFailure);
   (40, "a", PFailure); (50, "a", PFailure); (60, "a", PCan); (70000, "a", PCan);
   (70001, "a", PSuccess); (70002, "a", PSuccess); (70003, "a", PGet)]%string.

Lemma run_reachable config t b trace :
  reachable config t b -> clock_ordered t trace ->
  exists t', reachable config t' (run config trace b).2.
Proof.
  revert t b. induction trace as [|[[now p] op] trace IH]; intros t b Hr; cbn; [eauto|].
  intros [Ht Hc]. pose proof (reach_op config t now p op b Hr Ht) as Hr'.
  destruct (apply_op config p op now b) as [o b1]. cbn in Hr'.
  destruct (IH _ _ Hr' Hc) as [t' Ht']. destruct (run config trace b1). eauto.
Qed.

Lemma reachable_breaker_ok_witness :
  exists t, breaker_ok DEFAULT_CONFIG t (run DEFAULT_CONFIG trip_trace new_breaker).2.
Proof.
  destruct (run_reachable DEFAULT_CONFIG 0 new_breaker trip_trace) as [t Ht].
  - constructor.
  - vm_compute; repeat split; discriminate.
  - exists t. apply (reachable_breaker_ok DEFAULT_CONFIG t).
    + vm_compute; discriminate.
    + vm_compute; discriminate.
    + exact Ht.
Defined.



(** A burst of exactly [failureThreshold] failures of a peer that was not
    tracked, all within one window, opens the circuit: forwarding is refused at
    every later reading before the reset timeout, and allowed again, as a
    half-open probe, from the timeout on. *)
Theorem failure_burst_trips config p ts last b :
  jm_get p (peers b) = None -> within_window config (ts ++ [last]) ->
  Z.of_nat (length (ts ++ [last])) = failureThreshold config ->
  let b' := failures_at config p (ts ++ [last]) b in
  peer_state p b' = open /\
  (forall now, now < last + resetTimeoutMs config -> canForward config p now b' = (false, b')) /\
  (forall now, last + resetTimeoutMs config <= now ->
     (canForward config p now b').1 = true /\
     peer_state p (canForward config p now b').2 = half_open).
Proof.
  intros Hp Hw Hlen b'. destruct (burst_opens config p ts last b Hp Hw Hlen) as (e & He & Hst & Hch).
  fold b' in He. unfold peer_state at 1, canForward. rewrite He, Hst, Hch. split; [done|]. split.
  - intros now Hn. by rewrite decide_False by lia.
  - intros now Hn. rewrite decide_True by lia. split; [done|]. cbn [snd].
    rewrite peer_state_put_logged. by rewrite decide_True.
Qed.

Lemma failure_burst_trips_witness :
  peer_state "a"%string (failures_at DEFAULT_CONFIG "a"%string [1; 2; 3; 4; 120001] new_breaker) = open /\
  fst (canForward DEFAULT_CONFIG "a"%string 130000
         (failures_at DEFAULT_CONFIG "a"%string [1; 2; 3; 4; 120001] new_breaker)) = false.
Proof.
  destruct (failure_burst_trips DEFAULT_CONFIG "a"%string [1; 2; 3; 4] 120001 new_breaker) as (H1 & H2 & _).
  - reflexivity.
  - intros x y Hx Hy. cbn in Hx, Hy |- *.
    repeat (apply elem_of_cons in Hx as [->|Hx]); try (by apply elem_of_nil in Hx);
      repeat (apply elem_of_cons in Hy as [->|Hy]); try (by apply elem_of_nil in Hy); lia.
  - reflexivity.
  - split; [exact H1|]. change [1; 2; 3; 4; 120001] with ([1; 2; 3; 4] ++ [120001]).
    rewrite H2; [reflexivity|cbn; lia].
Defined.

(** Recovery.  Once the reset timeout has elapsed, the next query of an
    open peer is let through as a probe, and [successThreshold] recorded
    successes from there close the circuit with an empty failure window. *)
Theorem open_peer_recovers config p b e now ts last :
  jm_get p (peers b) = Some e -> pe_state e = open ->
  resetTimeoutMs config <= now - lastStateChangeAt e ->
  Z.of_nat (length (ts ++ [last])) = successThreshold config ->
  let '(allowed, b1) := canForward config p now b in
  let b2 := successes_at config p (ts ++ [last]) b1 in
  allowed = true /\
  exists e', jm_get p (peers b2) = Some e' /\ pe_state e' = closed /\ failureTimestamps e' = [].
Proof.
  intros He Hst Hto Hlen. unfold canForward. rewrite He, Hst, decide_True by done.
  split; [done|]. rewrite length_app in Hlen. cbn [length] in Hlen.
  unfold successes_at. rewrite foldl_app.
  match goal with |- context [foldl ?f (put_logged p ?x b) ts] =>
    destruct (half_open_successes config p ts (put_logged p x b) x.1) as (e' & He' & Hst' & Hs') end.
  - cbn [put_logged peers]. apply jm_get_set_eq.
  - done.
  - cbn. lia.
  - cbn in Hs'. unfold successes_at in He'. cbn [foldl]. unfold recordSuccess at 1. rewrite He', Hst'.
    cbn [halfOpenSuccesses]. rewrite decide_True by lia. eexists. cbn [put_logged peers].
    rewrite jm_get_set_eq. done.
Qed.

Lemma open_peer_recovers_witness :
  let b := failures_at DEFAULT_CONFIG "a"%string [1; 2; 3; 4; 5] new_breaker in
  exists e', jm_get "a"%string (peers (successes_at DEFAULT_CONFIG "a"%string [60006; 60007]
               (canForward DEFAULT_CONFIG "a"%string 60005 b).2)) = Some e' /\ pe_state e' = closed.
Proof.
  intros b.
  pose proof (open_peer_recovers DEFAULT_CONFIG "a"%string b
    {| pe_state := open; failureTimestamps := []; halfOpenSuccesses := 0;
       lastFailureAt := 5; lastStateChangeAt := 5 |} 60005 [60006] 60007
    ltac:(vm_compute; reflexivity) eq_refl ltac:(vm_compute; discriminate) eq_refl) as H.
  cbv zeta in H. destruct (canForward DEFAULT_CONFIG "a"%string 60005 b) as [r b1].
  destruct H as (_ & e' & He' & Hst' & _). exists e'. split; [exact He'|exact Hst'].
Defined.
