(* ===== verification/Float64.v ===== *)
(** * JavaScript numbers as binary64 values

    A [number] is an IEEE 754 double, [spec_float] at precision 53; the arithmetic
    is the Standard Library's [SFmul], [SFadd], [SFsub], [SFdiv].  The lemmas compare
    values as integers, scaled by a power of two below every exponent. *)

From Stdlib Require Import ZArith Lia.
From Stdlib Require Import Floats.SpecFloat.
From S2P Require Import Prelude.
Local Open Scope Z_scope.

Definition number : Type := spec_float.

Definition Number (z : Z) : number := binary_normalize 53 1024 z 0 false.
Definition js_mul : number -> number -> number := SFmul 53 1024.
Definition js_add : number -> number -> number := SFadd 53 1024.
Definition js_sub : number -> number -> number := SFsub 53 1024.
Definition js_div : number -> number -> number := SFdiv 53 1024.
(** [a < b] and [a <= b]: false when one of them is [NaN]. *)
Definition js_ltb : number -> number -> bool := SFltb.
Definition js_leb : number -> number -> bool := SFleb.
Definition js_eqb : number -> number -> bool := SFeqb.

(** A double of the language: its mantissa and exponent are in range. *)
Definition is_number (x : number) : bool := valid_binary 53 1024 x.

Definition Number_isFinite (x : number) : bool :=
  match x with S754_zero _ | S754_finite _ _ _ => true | S754_infinity _ | S754_nan => false end.

(** The integer part of [m * 2^e] below, and of [m * 2^e + 1/2]. *)
Definition floor_scaled (m e : Z) : Z := if 0 <=? e then m * 2 ^ e else m / 2 ^ (- e).
Definition round_scaled (m e : Z) : Z := if 0 <=? e then m * 2 ^ e else (2 * m + 2 ^ (- e)) / 2 ^ (1 - e).

(** [Math.floor] and [Math.round] of a finite number; [None] of the others. *)
Definition floor_Z (x : number) : option Z :=
  match x with
  | S754_zero _ => Some 0
  | S754_finite s m e => Some (floor_scaled (cond_Zopp s (Zpos m)) e)
  | _ => None
  end.
Definition round_Z (x : number) : option Z :=
  match x with
  | S754_zero _ => Some 0
  | S754_finite s m e => Some (round_scaled (cond_Zopp s (Zpos m)) e)
  | _ => None
  end.

(** Their results as numbers: an integer of that size is a double again. *)
Definition Math_floor (x : number) : number := match floor_Z x with Some z => Number z | None => x end.
Definition Math_round (x : number) : number := match round_Z x with Some z => Number z | None => x end.

(** ** Shifting and rounding a mantissa *)

(** What the record keeps of the bits shifted out: the last one, and whether one of
    the others was set. *)
Record shifted (m k : Z) (r : shr_record) : Prop := {
  sh_m : shr_m r = m / 2 ^ k;
  sh_r : shr_r r = (2 ^ k <=? 2 * (m mod 2 ^ k));
  sh_s : shr_s r = negb (m mod 2 ^ k =? (if shr_r r then 2 ^ k / 2 else 0));
}.

Lemma pow2_S k : 0 <= k -> 2 ^ (k + 1) = 2 * 2 ^ k.
Proof. intros Hk. rewrite Z.pow_add_r by lia. lia. Qed.

Lemma pow2_pos k : 0 <= k -> 0 < 2 ^ k.
Proof. intros. apply Z.pow_pos_nonneg; lia. Qed.

Lemma shifted_0 m : shifted m 0 {| shr_m := m; shr_r := false; shr_s := false |}.
Proof. split; cbn; rewrite ?Z.pow_0_r, ?Z.mod_1_r, ?Z.div_1_r; done. Qed.

(** One step: the new last bit is the quotient's, the rest sticks. *)
Lemma shr_1_fields m r s : 0 <= m ->
  shr_1 {| shr_m := m; shr_r := r; shr_s := s |}
  = {| shr_m := m / 2; shr_r := negb (m mod 2 =? 0); shr_s := r || s |}.
Proof.
  intros Hm. assert (forall q b, 0 <= b < 2 -> (2 * q + b) / 2 = q /\ (2 * q + b) mod 2 = b) as Hq.
  { intros q b Hb. split; [symmetry; apply (Z.div_unique _ _ _ b)|symmetry; apply (Z.mod_unique _ _ q)]; lia. }
  destruct m as [|[p|p|]|p]; [done| | |done|lia]; cbn [shr_1].
  - rewrite Pos2Z.inj_xI. by destruct (Hq (Zpos p) 1) as [-> ->].
  - rewrite Pos2Z.inj_xO. rewrite <- (Z.add_0_r (2 * _)). by destruct (Hq (Zpos p) 0) as [-> ->].
Qed.

Lemma shifted_step m k r : 0 <= m -> 0 <= k -> shifted m k r -> shifted m (k + 1) (shr_1 r).
Proof.
  intros Hm Hk [H1 H2 H3]. destruct r as [q b s]. cbn [shr_m shr_r shr_s] in *. subst q.
  pose proof (pow2_pos k Hk) as Hp.
  assert (0 <= m / 2 ^ k) as Hq by (apply Z.div_pos; lia).
  rewrite shr_1_fields by done.
  pose proof (Z.mod_pos_bound m (2 ^ k) Hp) as Hr.
  pose proof (Z.div_mod m (2 ^ k) ltac:(lia)) as Hd.
  set (q := m / 2 ^ k) in *. set (rem := m mod 2 ^ k) in *.
  pose proof (Z.div_mod q 2 ltac:(lia)) as Hd2. pose proof (Z.mod_pos_bound q 2 ltac:(lia)) as Hr2.
  assert (m mod 2 ^ (k + 1) = (q mod 2) * 2 ^ k + rem /\ m / 2 ^ (k + 1) = q / 2) as [Em Eq].
  { rewrite pow2_S by lia. split.
    - symmetry. apply (Z.mod_unique _ _ (q / 2)); nia.
    - symmetry. apply (Z.div_unique _ _ _ ((q mod 2) * 2 ^ k + rem)); nia. }
  split; cbn [shr_m shr_r shr_s]; rewrite ?Em, ?Eq, ?pow2_S by lia; [done| |].
  - destruct (q mod 2 =? 0) eqn:E; cbn [negb].
    + apply Z.eqb_eq in E. rewrite E. symmetry. apply Z.leb_gt. lia.
    + apply Z.eqb_neq in E. assert (q mod 2 = 1) as -> by lia. symmetry. apply Z.leb_le. lia.
  - assert (2 * 2 ^ k / 2 = 2 ^ k) as -> by (rewrite Z.mul_comm; apply Z.div_mul; lia).
    assert (b || s = negb (rem =? 0)) as ->.
    { rewrite H2 in H3 |- *. destruct (2 ^ k <=? 2 * rem) eqn:E; cbn [orb].
      - apply Z.leb_le in E. symmetry. apply negb_true_iff, Z.eqb_neq. lia.
      - done. }
    destruct (q mod 2 =? 0) eqn:E; cbn [negb]; f_equal; apply Bool.eq_iff_eq_true; rewrite !Z.eqb_eq.
    + apply Z.eqb_eq in E. rewrite E. lia.
    + apply Z.eqb_neq in E. assert (q mod 2 = 1) as -> by lia. lia.
Qed.

Lemma shifted_iter m p : forall k r, 0 <= m -> 0 <= k -> shifted m k r -> shifted m (k + Zpos p) (SpecFloat.iter_pos shr_1 p r).
Proof.
  induction p as [p IH|p IH|]; intros k r Hm Hk Hs; cbn [SpecFloat.iter_pos].
  - replace (k + Zpos p~1) with (k + 1 + Zpos p + Zpos p) by lia. apply IH; [done|lia|].
    apply IH; [done|lia|]. by apply shifted_step.
  - replace (k + Zpos p~0) with (k + Zpos p + Zpos p) by lia. apply IH; [done|lia|]. by apply IH.
  - by apply shifted_step.
Qed.

Lemma shr_shifted m e n : 0 <= m ->
  exists r, shr {| shr_m := m; shr_r := false; shr_s := false |} e n = (r, e + Z.max n 0) /\ shifted m (Z.max n 0) r.
Proof.
  intros Hm. destruct n as [|p|p]; cbn [shr].
  - eexists. split; [by rewrite Z.add_0_r|apply shifted_0].
  - eexists. split; [done|]. apply (shifted_iter m p 0); [done|lia|apply shifted_0].
  - eexists. split; [by rewrite Z.add_0_r|apply shifted_0].
Qed.

(** The nearest multiple: within half a unit, and exact when nothing was lost. *)
Lemma round_shifted m k r : 0 <= m -> 0 <= k -> shifted m k r ->
  let R := round_nearest_even (shr_m r) (loc_of_shr_record r) in
  m / 2 ^ k <= R <= m / 2 ^ k + 1 /\ (m mod 2 ^ k = 0 -> R = m / 2 ^ k) /\
  2 * Z.abs (R * 2 ^ k - m) <= 2 ^ k.
Proof.
  intros Hm Hk [H1 H2 H3]. destruct r as [q b s]. cbn [shr_m shr_r shr_s] in *. subst q.
  pose proof (pow2_pos k Hk) as Hp. pose proof (Z.mod_pos_bound m (2 ^ k) Hp) as Hr.
  pose proof (Z.div_mod m (2 ^ k) ltac:(lia)) as Hd.
  set (q := m / 2 ^ k) in *. set (rem := m mod 2 ^ k) in *. set (P := 2 ^ k) in *.
  assert (P / 2 * 2 <= P <= P / 2 * 2 + 1) as Hhalf
    by (pose proof (Z.div_mod P 2 ltac:(lia)); pose proof (Z.mod_pos_bound P 2 ltac:(lia)); lia).
  destruct b, s; cbn [loc_of_shr_record round_nearest_even];
    symmetry in H2, H3; rewrite ?negb_true_iff, ?negb_false_iff in H3;
    rewrite ?Z.leb_le, ?Z.leb_gt in H2; rewrite ?Z.eqb_eq, ?Z.eqb_neq in H3;
    [| destruct (Z.even q) | |]; repeat split; intros; try lia; nia.
Qed.

(** ** Rounding to 53 bits *)

Lemma digits2_pos_bounds p : 2 ^ (Zpos (digits2_pos p) - 1) <= Zpos p < 2 ^ Zpos (digits2_pos p).
Proof.
  induction p as [p IH|p IH|]; cbn [digits2_pos]; [| |done];
    rewrite Pos2Z.inj_succ, <- Z.add_1_r, Z.add_simpl_r; rewrite pow2_S by lia;
    replace (2 ^ Zpos (digits2_pos p)) with (2 * 2 ^ (Zpos (digits2_pos p) - 1)) in * by
      (rewrite <- pow2_S by lia; f_equal; lia); lia.
Qed.

Lemma digits2_pos_le p n : 0 <= n -> Zpos p < 2 ^ n -> Zpos (digits2_pos p) <= n.
Proof.
  intros Hn Hp. destruct (digits2_pos_bounds p) as [H _].
  destruct (Z_le_gt_dec (Zpos (digits2_pos p)) n); [done|].
  assert (2 ^ n <= 2 ^ (Zpos (digits2_pos p) - 1)) by (apply Z.pow_le_mono_r; lia). lia.
Qed.

Lemma digits2_pos_ge p n : 2 ^ n <= Zpos p -> n < Zpos (digits2_pos p).
Proof.
  intros Hp. destruct (digits2_pos_bounds p) as [_ H].
  apply (Z.pow_lt_mono_r_iff 2); [lia|lia|lia].
Qed.

Abbreviation exponent d := (Z.max (d - 53) (-1074)).

Lemma fexp_64 d : fexp 53 1024 d = exponent d.
Proof. done. Qed.

(** How many bits of [m * 2^e] are rounded away. *)
Definition lost (m : positive) (e : Z) : Z := Z.max (exponent (Zpos (digits2_pos m) + e) - e) 0.

(** The rounded mantissa has 53 digits, or is the power of two above. *)
Lemma rounded_digits m e R : 0 < lost m e -> Zpos m / 2 ^ lost m e <= R <= Zpos m / 2 ^ lost m e + 1 -> 0 < R ->
  exponent (Zdigits2 R + (e + lost m e)) = e + lost m e \/
  R = 2 ^ 53 /\ exponent (Zdigits2 R + (e + lost m e)) = e + lost m e + 1.
Proof.
  set (k := lost m e). intros Hk HR Hpos. destruct (digits2_pos_bounds m) as [Hlo Hhi].
  set (d := Zpos (digits2_pos m)) in *. pose proof (pow2_pos k ltac:(lia)) as Hp.
  assert (k = exponent (d + e) - e) as Ek by (unfold k, lost in *; fold d in Hk |- *; lia).
  assert (d <= 53 + k) as Hd by lia.
  assert (Zpos m / 2 ^ k < 2 ^ 53) as Hq.
  { apply Z.div_lt_upper_bound; [done|]. rewrite <- Z.pow_add_r by lia. eapply Z.lt_le_trans; [exact Hhi|].
    apply Z.pow_le_mono_r; lia. }
  destruct R as [|p|p]; [lia| |lia]. cbn [Zdigits2].
  destruct (Z.eq_dec (Zpos p) (2 ^ 53)) as [E|E].
  - assert (Zpos (digits2_pos p) = 54) as E54 by (by injection E as ->). rewrite E54.
    destruct (Z_le_gt_dec (53 + k) d) as [Hd'|Hd'].
    + right. split; [done|lia].
    + assert (Zpos m / 2 ^ k < 2 ^ 52); [|lia].
      apply Z.div_lt_upper_bound; [done|]. rewrite <- Z.pow_add_r by lia. eapply Z.lt_le_trans; [exact Hhi|].
      apply Z.pow_le_mono_r; lia.
  - left. assert (Zpos (digits2_pos p) <= 53) by (apply digits2_pos_le; lia).
    destruct (Z_le_gt_dec (53 + k) d) as [Hd'|Hd']; [|lia].
    assert (52 < Zpos (digits2_pos p)); [|lia]. apply digits2_pos_ge. transitivity (Zpos m / 2 ^ k); [|lia].
    apply Z.div_le_lower_bound; [done|]. rewrite <- Z.pow_add_r by lia.
    transitivity (2 ^ (d - 1)); [apply Z.pow_le_mono_r; lia|done].
Qed.

Lemma rounded_canonical m e R : e <= exponent (Zpos (digits2_pos m) + e) -> 0 < R ->
  Zpos m / 2 ^ lost m e <= R <= Zpos m / 2 ^ lost m e + 1 -> (Zpos m mod 2 ^ lost m e = 0 -> R = Zpos m / 2 ^ lost m e) ->
  exponent (Zdigits2 R + (e + lost m e)) = e + lost m e \/
  R = 2 ^ 53 /\ exponent (Zdigits2 R + (e + lost m e)) = e + lost m e + 1.
Proof.
  intros He Hpos Hf Hx. destruct (decide (0 < lost m e)) as [Hl|Hl]; [by apply rounded_digits|].
  assert (lost m e = 0) as E by (unfold lost in *; lia). left. rewrite E in Hx |- *.
  rewrite Z.pow_0_r, Z.mod_1_r, Z.div_1_r in Hx. rewrite Hx by done. cbn [Zdigits2]. unfold lost in *. lia.
Qed.

Lemma finite_valid s p e : exponent (Zpos (digits2_pos p) + e) = e ->
  is_number (if e <=? 1024 - 53 then S754_finite s p e else S754_infinity s) = true.
Proof.
  intros E. destruct (e <=? 1024 - 53) eqn:Hle; [|done]. unfold is_number, valid_binary, bounded, canonical_mantissa.
  rewrite fexp_64, E, Z.eqb_refl. done.
Qed.

(** [binary_round_aux] keeps the nearest multiple of [2^lost]. *)
Record nearest (s : bool) (m : positive) (e R : Z) (x : number) : Prop := {
  nr_floor : Zpos m / 2 ^ lost m e <= R <= Zpos m / 2 ^ lost m e + 1;
  nr_exact : Zpos m mod 2 ^ lost m e = 0 -> R = Zpos m / 2 ^ lost m e;
  nr_error : 2 * Z.abs (R * 2 ^ lost m e - Zpos m) <= 2 ^ lost m e;
  nr_zero : R = 0 -> x = S754_zero s;
  nr_valid : e <= exponent (Zpos (digits2_pos m) + e) -> is_number x = true;
  nr_finite : 0 < R -> e + lost m e < 971 -> exists p,
    (x = S754_finite s p (e + lost m e) /\ Zpos p = R) \/ (x = S754_finite s p (e + lost m e + 1) /\ 2 * Zpos p = R /\ R = 2 ^ 53);
}.

Lemma binary_round_nearest s m e : exists R, 0 <= R /\ nearest s m e R (binary_round_aux 53 1024 s (Zpos m) e loc_Exact).
Proof.
  unfold binary_round_aux, shr_fexp. cbn [shr_record_of_loc Zdigits2]. rewrite fexp_64.
  destruct (shr_shifted (Zpos m) e (exponent (Zpos (digits2_pos m) + e) - e) ltac:(lia)) as (r & -> & Hs).
  change (Z.max (exponent (Zpos (digits2_pos m) + e) - e) 0) with (lost m e) in *.
  pose proof (pow2_pos (lost m e) ltac:(unfold lost; lia)) as Hp.
  destruct (round_shifted (Zpos m) (lost m e) r ltac:(lia) ltac:(unfold lost; lia) Hs) as (Hf & Hx & He).
  set (R := round_nearest_even (shr_m r) (loc_of_shr_record r)) in *.
  assert (0 <= R) as HR by (pose proof (Z.div_pos (Zpos m) (2 ^ lost m e)); lia).
  exists R. split; [done|]. cbn [shr_record_of_loc]. rewrite fexp_64.
  destruct (shr_shifted R (e + lost m e) (exponent (Zdigits2 R + (e + lost m e)) - (e + lost m e)) HR) as (r2 & -> & Hs2).
  rewrite (sh_m _ _ _ Hs2). split; try done.
  - intros E. by rewrite E, Z.div_0_l by (apply Z.pow_nonzero; lia).
  - intros He'. destruct (Z.eq_dec R 0) as [E|E]; [by rewrite E, Z.div_0_l by (apply Z.pow_nonzero; lia)|].
    destruct (rounded_canonical m e R He' ltac:(lia) Hf Hx) as [E'|[E1 E']]; rewrite E'.
    + rewrite Z.sub_diag, Z.max_id, Z.pow_0_r, Z.div_1_r, Z.add_0_r. destruct R as [|p|p]; [lia| |lia].
      by apply finite_valid.
    + replace (e + lost m e + 1 - (e + lost m e)) with 1 by lia. rewrite E1 in E' |- *. cbn -[Z.add Z.leb lost].
      change (Zdigits2 (2 ^ 53)) with 54 in E'. apply finite_valid.
      match goal with |- context [digits2_pos ?p] => change (digits2_pos p) with 53%positive end. lia.
  - intros Hpos Hbig.
    assert (exponent (Zdigits2 R + (e + lost m e)) <= e + lost m e \/
            R = 2 ^ 53 /\ exponent (Zdigits2 R + (e + lost m e)) = e + lost m e + 1) as [E|[E1 E2]].
    { destruct (decide (0 < lost m e)) as [Hl|Hl].
      - destruct (rounded_digits m e R Hl Hf Hpos) as [?|?]; [left; lia|by right].
      - left. assert (lost m e = 0) as E by (unfold lost in *; lia). rewrite E in Hx.
        rewrite Z.pow_0_r, Z.mod_1_r, Z.div_1_r in Hx. rewrite Hx by done. cbn [Zdigits2]. unfold lost in *. lia. }
    + rewrite Z.max_r by lia. rewrite Z.pow_0_r, Z.div_1_r, Z.add_0_r. destruct R as [|p|p]; [lia| |lia].
      exists p. left. split; [|done]. destruct (_ <=? _) eqn:El; [done|lia].
    + rewrite E2. replace (e + lost m e + 1 - (e + lost m e)) with 1 by lia. rewrite E1. cbn -[Z.add Z.leb lost].
      eexists. right. split; [|done]. by destruct (_ <=? _) eqn:El; [|lia].
Qed.

(** ** Integers and bounds *)

(** [m * 2^e <= n] *)
Definition at_most (m e n : Z) : Prop := if 0 <=? e then m * 2 ^ e <= n else m <= n * 2 ^ (- e).

Lemma at_most_nonneg m e n : 0 <= e -> at_most m e n <-> m * 2 ^ e <= n.
Proof. intros He. unfold at_most. destruct (Z.leb_spec 0 e); [done|lia]. Qed.

Lemma at_most_neg m e n : e <= 0 -> at_most m e n <-> m <= n * 2 ^ (- e).
Proof.
  intros He. unfold at_most. destruct (Z.leb_spec 0 e); [|done]. assert (e = 0) as -> by lia. cbn. lia.
Qed.

(** The rounding of [m * 2^e] stays below an integer that bounds it. *)
Lemma rounded_at_most s m e R x n : 0 <= n < 2 ^ 53 -> nearest s m e R x -> at_most (Zpos m) e n -> at_most R (e + lost m e) n.
Proof.
  intros Hn [Hf Hx _ _ _ _] Hm. set (k := lost m e) in *. assert (0 <= k) as Hk by (unfold k, lost; lia).
  pose proof (pow2_pos k Hk) as Hp.
  pose proof (Z.div_mod (Zpos m) (2 ^ k) ltac:(lia)) as Hd. pose proof (Z.mod_pos_bound (Zpos m) (2 ^ k) Hp) as Hr.
  destruct (Z_le_gt_dec (e + k) 0) as [He|He].
  - apply at_most_neg; [done|]. apply at_most_neg in Hm; [|lia].
    assert (2 ^ (- e) = 2 ^ (- (e + k)) * 2 ^ k) as E by (rewrite <- Z.pow_add_r by lia; f_equal; lia).
    rewrite E, Z.mul_assoc in Hm. set (N := n * 2 ^ (- (e + k))) in *.
    destruct (Z.eq_dec (Zpos m mod 2 ^ k) 0) as [E0|E0]; [rewrite (Hx E0)|]; nia.
  - destruct (Z.eq_dec k 0) as [E0|E0].
    + rewrite E0, Z.pow_0_r, Z.mod_1_r, Z.div_1_r in Hx. rewrite Hx, E0, Z.add_0_r by done. done.
    + exfalso. destruct (digits2_pos_bounds m) as [Hlo _]. set (d := Zpos (digits2_pos m)) in *.
      assert (e + k = d + e - 53) as Ek by (unfold k, lost in *; fold d in E0, He |- *; lia).
      assert (2 ^ 53 <= 2 ^ (d - 1 + Z.min e 0) * 2 ^ (e - Z.min e 0)) as H53
        by (rewrite <- Z.pow_add_r by lia; apply Z.pow_le_mono_r; lia).
      destruct (Z_le_gt_dec e 0) as [H0|H0].
      * apply at_most_neg in Hm; [|done]. rewrite Z.min_l, Z.sub_diag, Z.pow_0_r, Z.mul_1_r in H53 by done.
        assert (2 ^ (d - 1) = 2 ^ (d - 1 + e) * 2 ^ (- e)) as E by (rewrite <- Z.pow_add_r by lia; f_equal; lia).
        pose proof (pow2_pos (- e) ltac:(lia)). nia.
      * apply at_most_nonneg in Hm; [|lia]. rewrite Z.min_r, Z.add_0_r, Z.sub_0_r in H53 by lia.
        pose proof (pow2_pos e ltac:(lia)). nia.
Qed.

Lemma floor_scaled_bounds m e n : 0 <= m -> at_most m e n -> 0 <= floor_scaled m e <= n.
Proof.
  intros Hm. unfold at_most, floor_scaled. destruct (Z.leb_spec 0 e) as [He|He]; intros Hn.
  - pose proof (pow2_pos e He). nia.
  - pose proof (pow2_pos (- e) ltac:(lia)). split; [apply Z.div_pos; lia|].
    apply Z.lt_succ_r, Z.div_lt_upper_bound; [done|]. nia.
Qed.

Lemma round_scaled_bounds m e n : 0 <= m -> at_most m e n -> 0 <= round_scaled m e <= n.
Proof.
  intros Hm. unfold at_most, round_scaled. destruct (Z.leb_spec 0 e) as [He|He]; intros Hn.
  - pose proof (pow2_pos e He). nia.
  - replace (1 - e) with (- e + 1) by lia. rewrite pow2_S by lia. pose proof (pow2_pos (- e) ltac:(lia)).
    split; [apply Z.div_pos; lia|]. apply Z.lt_succ_r, Z.div_lt_upper_bound; [lia|]. nia.
Qed.

(** Values of the nonnegative finite numbers. *)
Definition nonneg_at_most (x : number) (n : Z) : Prop :=
  match x with
  | S754_zero _ => True
  | S754_finite false m e => at_most (Zpos m) e n
  | _ => False
  end.

Lemma nonneg_floor x n : 0 <= n -> nonneg_at_most x n -> exists z, floor_Z x = Some z /\ 0 <= z <= n.
Proof.
  intros Hn Hx. destruct x as [s| | |[] m e]; try done; cbn.
  - eexists. by split.
  - eexists. split; [done|]. by apply floor_scaled_bounds.
Qed.

Lemma nonneg_round x n : 0 <= n -> nonneg_at_most x n -> exists z, round_Z x = Some z /\ 0 <= z <= n.
Proof.
  intros Hn Hx. destruct x as [s| | |[] m e]; try done; cbn.
  - eexists. by split.
  - eexists. split; [done|]. by apply round_scaled_bounds.
Qed.

Lemma round_at_most m e n : 0 <= n < 2 ^ 53 -> at_most (Zpos m) e n ->
  nonneg_at_most (binary_round_aux 53 1024 false (Zpos m) e loc_Exact) n.
Proof.
  intros Hn Hm. destruct (binary_round_nearest false m e) as (R & HR & Hx).
  pose proof (rounded_at_most _ _ _ _ _ n Hn Hx Hm) as Hb. destruct (Z.eq_dec R 0) as [E|E].
  - by rewrite (nr_zero _ _ _ _ _ Hx E).
  - assert (e + lost m e < 971) as He.
    { destruct (Z_lt_le_dec (e + lost m e) 971) as [|H]; [done|]. apply at_most_nonneg in Hb; [|lia].
      assert (2 ^ 53 <= 2 ^ (e + lost m e)) by (apply Z.pow_le_mono_r; lia). nia. }
    destruct (nr_finite _ _ _ _ _ Hx ltac:(lia) He) as (p & [[-> E2]|(-> & E2 & _)]).
    + cbn. by rewrite E2.
    + cbn. rewrite <- E2 in Hb. destruct (Z_le_gt_dec 0 (e + lost m e)) as [H|H].
      * apply at_most_nonneg in Hb; [|done]. apply at_most_nonneg; [lia|]. rewrite pow2_S by done. lia.
      * apply at_most_neg in Hb; [|lia]. apply at_most_neg; [lia|].
        replace (- (e + lost m e)) with (- (e + lost m e + 1) + 1) in Hb by lia. rewrite pow2_S in Hb by lia. lia.
Qed.

(** *** An integer as a number *)

Lemma iter_xO m d : Zpos (Pos.iter xO m d) = Zpos m * 2 ^ Zpos d.
Proof.
  induction d as [|d IH] using Pos.peano_ind.
  - change (Pos.iter xO m 1) with (m~0)%positive. rewrite Pos2Z.inj_xO. change (2 ^ 1) with 2. lia.
  - rewrite Pos.iter_succ, Pos2Z.inj_xO, IH, Pos2Z.inj_succ, <- Z.add_1_r. rewrite pow2_S by lia. lia.
Qed.

Lemma digits2_pos_shift m d n : Zpos m = Zpos d * 2 ^ n -> 0 <= n -> Zpos (digits2_pos m) = Zpos (digits2_pos d) + n.
Proof.
  intros E Hn. destruct (digits2_pos_bounds d) as [H1 H2]. pose proof (pow2_pos n Hn).
  assert (Zpos (digits2_pos m) <= Zpos (digits2_pos d) + n)
    by (apply digits2_pos_le; [lia|]; rewrite Z.pow_add_r by lia; nia).
  assert (Zpos (digits2_pos d) - 1 + n < Zpos (digits2_pos m)); [|lia].
  apply digits2_pos_ge. rewrite Z.pow_add_r by lia. nia.
Qed.

(** The one form of an integer of at most 53 bits. *)
Lemma binary_round_exact v m e : 0 < v < 2 ^ 53 -> -1074 <= e <= 0 -> Zpos m = v * 2 ^ (- e) ->
  exists p, binary_round 53 1024 false m e = S754_finite false p (Zdigits2 v - 53) /\ Zpos p = v * 2 ^ (53 - Zdigits2 v).
Proof.
  intros Hv He Hm. destruct v as [|v|v]; [lia| |lia]. cbn [Zdigits2].
  pose proof (digits2_pos_shift m v (- e) Hm ltac:(lia)) as Hd.
  assert (Zpos (digits2_pos v) <= 53) as Hd53 by (apply digits2_pos_le; lia).
  unfold binary_round. rewrite fexp_64. rewrite Z.max_l by lia.
  set (d := Zpos (digits2_pos v)) in *. assert (0 < d) as Hd0 by done.
  assert (exists m' e', shl_align m e (Zpos (digits2_pos m) + e - 53) = (m', e') /\ e' + lost m' e' = d - 53 /\
            Zpos m' = Zpos v * 2 ^ (53 - d) * 2 ^ lost m' e') as (m' & e' & -> & He' & Em').
  { unfold shl_align. rewrite Hd. replace (d + - e + e - 53 - e) with (d - 53 - e) by lia.
    assert (forall n, Zpos (digits2_pos n) = d - e -> lost n e = Z.max (d - 53 - e) 0) as Hl
      by (intros n En; unfold lost; rewrite En; lia).
    destruct (d - 53 - e) as [|c|c] eqn:Ec.
    - exists m, e. rewrite Hl by lia. split; [done|]. split; [lia|]. rewrite Hm. cbn [Z.max Z.compare].
      rewrite Z.pow_0_r, Z.mul_1_r. do 2 f_equal. lia.
    - exists m, e. rewrite Hl by lia. split; [done|]. split; [lia|]. rewrite Hm, <- Z.mul_assoc, <- Z.pow_add_r by lia.
      do 2 f_equal. lia.
    - assert (Zpos (digits2_pos (Pos.iter xO m c)) = 53) as E53
        by (rewrite (digits2_pos_shift (Pos.iter xO m c) m (Zpos c) (iter_xO m c)) by lia; lia).
      assert (lost (Pos.iter xO m c) (d - 53) = 0) as El by (unfold lost; rewrite E53; lia).
      exists (Pos.iter xO m c), (d - 53). rewrite El. split; [f_equal; lia|]. split; [lia|].
      rewrite iter_xO, Hm, <- Z.mul_assoc, <- Z.pow_add_r, Z.pow_0_r, Z.mul_1_r by lia. do 2 f_equal. lia. }
  destruct (binary_round_nearest false m' e') as (R & HR & [_ Hx _ _ _ Hfin]).
  pose proof (pow2_pos (lost m' e') ltac:(unfold lost; lia)) as Hp.
  rewrite Em', Z.mod_mul, Z.div_mul in Hx by lia. specialize (Hx eq_refl) as ->.
  assert (Zpos v * 2 ^ (53 - d) < 2 ^ 53) as Hlt.
  { destruct (digits2_pos_bounds v) as [_ Hb]. fold d in Hb. replace (2 ^ 53) with (2 ^ d * 2 ^ (53 - d))
      by (rewrite <- Z.pow_add_r by lia; f_equal; lia). apply Z.mul_lt_mono_pos_r; [apply pow2_pos; lia|done]. }
  pose proof (pow2_pos (53 - d) ltac:(lia)).
  destruct (Hfin ltac:(nia) ltac:(lia)) as (p & [[-> E]|(_ & _ & E)]); [|lia].
  exists p. by rewrite He'.
Qed.

(** Up to 53 bits an integer is exactly a number. *)
Lemma Number_exact n : 0 < n < 2 ^ 53 -> exists p e, Number n = S754_finite false p e /\ -53 <= e <= 0 /\ Zpos p = n * 2 ^ (- e).
Proof.
  intros Hn. destruct n as [|n|n]; [lia| |lia]. destruct (binary_round_exact (Zpos n) n 0 Hn) as (p & Ep & E); [lia|lia|].
  exists p, (Zpos (digits2_pos n) - 53). split; [exact Ep|].
  assert (Zpos (digits2_pos n) <= 53) by (apply digits2_pos_le; lia). split; [lia|].
  rewrite E. cbn [Zdigits2]. do 2 f_equal. lia.
Qed.

Lemma binary_round_Number v m e : 0 < v < 2 ^ 53 -> -1074 <= e <= 0 -> Zpos m = v * 2 ^ (- e) ->
  binary_round 53 1024 false m e = Number v.
Proof.
  intros Hv He Hm. destruct (binary_round_exact v m e Hv He Hm) as (p & -> & Ep). destruct v as [|v|v]; [lia| |lia].
  destruct (binary_round_exact (Zpos v) v 0 Hv) as (q & Eq & Hq); [lia|lia|]. unfold Number, binary_normalize. rewrite Eq.
  f_equal. lia.
Qed.

Lemma align_exact m g n z : z <= g -> -53 <= g <= 0 -> Zpos m = n * 2 ^ (- g) -> Zpos (fst (shl_align m g z)) = n * 2 ^ (- z).
Proof.
  intros Hz Hg Hm. unfold shl_align. destruct (z - g) as [|c|c] eqn:Ec; [|lia|]; cbn [fst].
  - rewrite Hm. do 2 f_equal. lia.
  - rewrite iter_xO, Hm, <- Z.mul_assoc, <- Z.pow_add_r by lia. do 2 f_equal. lia.
Qed.

(** Integers add and subtract exactly. *)
Lemma js_add_exact a b : 0 <= a -> 0 <= b -> a + b < 2 ^ 53 -> js_add (Number a) (Number b) = Number (a + b).
Proof.
  intros Ha Hb Hab. destruct (Z.eq_dec a 0) as [->|Ha0].
  { rewrite Z.add_0_l. destruct (Z.eq_dec b 0) as [->|]; [done|]. by destruct (Number_exact b ltac:(lia)) as (p & e & -> & _). }
  destruct (Z.eq_dec b 0) as [->|Hb0].
  { rewrite Z.add_0_r. by destruct (Number_exact a ltac:(lia)) as (p & e & -> & _). }
  destruct (Number_exact a ltac:(lia)) as (p & e & -> & He & Hp), (Number_exact b ltac:(lia)) as (q & f & -> & Hf & Hq).
  unfold js_add, SFadd. set (z := Z.min e f). cbn [cond_Zopp].
  rewrite (align_exact p e a), (align_exact q f b) by (done || lia). rewrite <- Z.mul_add_distr_r.
  pose proof (pow2_pos (- z) ltac:(lia)).
  destruct ((a + b) * 2 ^ (- z)) as [|m|m] eqn:Em; [nia| |nia]. cbn [binary_normalize].
  apply binary_round_Number; [lia|lia|done].
Qed.

Lemma js_sub_exact a b : 0 <= b <= a -> a < 2 ^ 53 -> js_sub (Number a) (Number b) = Number (a - b).
Proof.
  intros Hb Ha. destruct (Z.eq_dec b 0) as [->|Hb0].
  { rewrite Z.sub_0_r. destruct (Z.eq_dec a 0) as [->|]; [done|]. by destruct (Number_exact a ltac:(lia)) as (p & e & -> & _). }
  destruct (Number_exact a ltac:(lia)) as (p & e & -> & He & Hp), (Number_exact b ltac:(lia)) as (q & f & -> & Hf & Hq).
  unfold js_sub, SFsub. set (z := Z.min e f). cbn [cond_Zopp].
  rewrite (align_exact p e a), (align_exact q f b) by (done || lia). rewrite <- Z.mul_sub_distr_r. pose proof (pow2_pos (- z) ltac:(lia)).
  destruct (Z.eq_dec (a - b) 0) as [->|Hne]; [done|].
  destruct ((a - b) * 2 ^ (- z)) as [|m|m] eqn:Em; [nia| |nia]. cbn [binary_normalize].
  apply binary_round_Number; [lia|lia|done].
Qed.

(** ** A share of an integer *)

(** A ratio of the language between 0 and 1. *)
Definition is_ratio (r : number) : Prop := is_number r = true /\ js_leb (Number 0) r = true /\ js_leb r (Number 1) = true.

Lemma ratio_cases r : is_ratio r -> match r with S754_zero _ => True | S754_finite false m e => at_most (Zpos m) e 1 | _ => False end.
Proof.
  intros (Hv & H0 & H1). destruct r as [s|[]| |[] m e]; try done.
  assert (exists c, Number 1 = S754_finite false c (-52) /\ Zpos c = 2 ^ 52) as (c & E1 & Ec) by (by eexists).
  unfold js_leb, SFleb in H1. rewrite E1 in H1. cbn [SFcompare] in H1.
  unfold is_number, valid_binary, bounded in Hv. apply andb_true_iff in Hv as [Hc _].
  unfold canonical_mantissa in Hc. rewrite fexp_64 in Hc. apply Z.eqb_eq in Hc.
  destruct (digits2_pos_bounds m) as [_ Hm].
  assert (Zpos m < 2 ^ 53) as Hm53 by (eapply Z.lt_le_trans; [exact Hm|]; apply Z.pow_le_mono_r; lia).
  assert (e <= -52 /\ (e = -52 -> Zpos m <= 2 ^ 52)) as [He Hm52].
  { destruct (Z.compare_spec e (-52)) as [E|E|E]; [|split; lia|done]. split; [lia|]. intros _.
    change (Pos.compare_cont Eq m c) with (m ?= c)%positive in H1.
    destruct (Pos.compare_spec m c); [lia|lia|done]. }
  apply at_most_neg; [lia|]. rewrite Z.mul_1_l.
  destruct (Z.eq_dec e (-52)) as [->|]; [by apply Hm52|]. apply Z.lt_le_incl. eapply Z.lt_le_trans; [exact Hm53|].
  apply Z.pow_le_mono_r; lia.
Qed.

(** The product of an integer and a ratio is between 0 and the integer. *)
Lemma share_bounds n r : 0 <= n < 2 ^ 53 -> is_ratio r -> nonneg_at_most (js_mul (Number n) r) n.
Proof.
  intros Hn Hr. apply ratio_cases in Hr. destruct (Z.eq_dec n 0) as [->|Hne].
  { destruct r as [s| | |[] m e]; done. }
  destruct (Number_exact n ltac:(lia)) as (p & e & -> & He & Hp). destruct r as [s| | |[] m ey]; try done.
  unfold js_mul, SFmul, xorb. apply round_at_most; [done|]. rewrite Pos2Z.inj_mul.
  assert (ey <= 0) as Hey.
  { destruct (Z_le_gt_dec ey 0); [done|]. apply at_most_nonneg in Hr; [|lia].
    assert (2 ^ 1 <= 2 ^ ey) by (apply Z.pow_le_mono_r; lia). nia. }
  apply at_most_neg in Hr; [|done]. rewrite Z.mul_1_l in Hr.
  apply at_most_neg; [lia|]. assert (2 ^ (- (e + ey)) = 2 ^ (- e) * 2 ^ (- ey)) as E by (rewrite <- Z.pow_add_r by lia; f_equal; lia).
  rewrite Hp, E. pose proof (pow2_pos (- e) ltac:(lia)). nia.
Qed.
