(* ===== verification/FloatError.v ===== *)
(** * Rounding errors of JavaScript numbers

    The value of a finite number is a rational.  [near x q err] says that the
    nonnegative number [x] lies within [err] of [q]; each operation of [Float64]
    rounds a result below [2^k] to within [2^(k-54)], half the spacing of the
    numbers there, and comparison orders numbers as their values. *)

From Stdlib Require Import ZArith Lia QArith Qpower Lqa.
From Stdlib Require Import Floats.SpecFloat.
From S2P Require Import Prelude Float64.
Local Open Scope Z_scope.

Definition pow2 (e : Z) : Q := Qpower (inject_Z 2) e.

Definition Qval (x : number) : Q :=
  match x with S754_finite s m e => (inject_Z (cond_Zopp s (Zpos m)) * pow2 e)%Q | _ => 0%Q end.

(** A finite number that is not below zero (either zero counts). *)
Definition nonneg (x : number) : Prop :=
  is_number x = true /\ match x with S754_zero _ => True | S754_finite s _ _ => s = false | _ => False end.

Record near (x : number) (q err : Q) : Prop := {
  near_nonneg : nonneg x;
  near_low : (q - err <= Qval x)%Q;
  near_high : (Qval x <= q + err)%Q;
}.

(** ** Powers of two *)

Lemma pow2_gt0 e : (0 < pow2 e)%Q.
Proof. by apply Qpower_0_lt. Qed.

Lemma pow2_plus a b : (pow2 (a + b) == pow2 a * pow2 b)%Q.
Proof. by apply Qpower_plus. Qed.

Lemma pow2_Z k : 0 <= k -> (pow2 k == inject_Z (2 ^ k))%Q.
Proof. intros. symmetry. by apply Zpower_Qpower. Qed.

Lemma pow2_le a b : a <= b -> (pow2 a <= pow2 b)%Q.
Proof. intros. by apply Qpower_le_compat_l. Qed.

Lemma pow2_lt_inv a b : (pow2 a < pow2 b)%Q -> a < b.
Proof. intros. by apply (Qpower_lt_compat_l_inv (inject_Z 2)). Qed.

Lemma pow2_half e : (2 * pow2 (e - 1) == pow2 e)%Q.
Proof. transitivity (pow2 (1 + (e - 1))); [by rewrite pow2_plus|]. by replace (1 + (e - 1)) with e by lia. Qed.

(** ** Values *)

Lemma Qval_nonneg x : nonneg x -> (0 <= Qval x)%Q.
Proof.
  intros [_ Hx]. destruct x as [s| | |s m e]; try done; cbn. subst s. cbn.
  apply Qmult_le_0_compat; [done|]. apply Qlt_le_weak, pow2_gt0.
Qed.

Lemma near_exact x : nonneg x -> near x (Qval x) 0.
Proof. split; [done|lra|lra]. Qed.

Lemma near_eq x q q' err : near x q err -> (q == q')%Q -> near x q' err.
Proof. intros [H1 H2 H3] E. split; [done|lra|lra]. Qed.

Lemma near_weaken x q err err' : near x q err -> (err <= err')%Q -> near x q err'.
Proof. intros [H1 H2 H3] E. split; [done|lra|lra]. Qed.

(** What a canonical mantissa says of its exponent. *)
Lemma canonical_exponent m e s : is_number (S754_finite s m e) = true -> exponent (Zpos (digits2_pos m) + e) = e /\ e <= 971.
Proof.
  unfold is_number, valid_binary, bounded, canonical_mantissa. rewrite fexp_64.
  intros [?%Z.eqb_eq ?%Z.leb_le]%andb_true_iff. lia.
Qed.

Lemma mantissa_lt m e s : is_number (S754_finite s m e) = true -> Zpos m < 2 ^ 53.
Proof.
  intros [He _]%canonical_exponent. destruct (digits2_pos_bounds m) as [_ Hm].
  eapply Z.lt_le_trans; [exact Hm|]. apply Z.pow_le_mono_r; lia.
Qed.

(** ** Rounding to the nearest number *)

Lemma digits_below m e k : (inject_Z (Zpos m) * pow2 e < pow2 k)%Q -> Zpos (digits2_pos m) + e <= k.
Proof.
  intros Hlt. destruct (digits2_pos_bounds m) as [Hlo _]. set (d := Zpos (digits2_pos m)) in *.
  enough (d - 1 + e < k) by lia. apply pow2_lt_inv. rewrite pow2_plus, (pow2_Z (d - 1)) by lia.
  rewrite Zle_Qle in Hlo. pose proof (pow2_gt0 e). nra.
Qed.

Lemma round_near m e k : e <= exponent (Zpos (digits2_pos m) + e) -> -1020 <= k <= 1000 ->
  (inject_Z (Zpos m) * pow2 e < pow2 k)%Q ->
  near (binary_round_aux 53 1024 false (Zpos m) e loc_Exact) (inject_Z (Zpos m) * pow2 e) (pow2 (k - 54)).
Proof.
  intros He Hk Hlt. pose proof (digits_below _ _ _ Hlt) as Hd.
  destruct (binary_round_nearest false m e) as (R & HR & [_ _ Herr Hz Hv Hfin]).
  set (x := binary_round_aux _ _ _ _ _ _) in *. set (l := lost m e) in *.
  assert (l = exponent (Zpos (digits2_pos m) + e) - e) as El by (unfold l, lost; lia).
  assert (nonneg x /\ Qval x == inject_Z R * pow2 (e + l))%Q as [Hn Ev].
  { specialize (Hv He). destruct (Z.eq_dec R 0) as [E|E].
    - rewrite (Hz E) in Hv |- *. split; [done|]. rewrite E. cbn. ring.
    - destruct (Hfin ltac:(lia) ltac:(lia)) as (p & [[Ex Ep]|(Ex & Ep & _)]); rewrite Ex in Hv |- *; (split; [done|]); cbn.
      + by rewrite Ep.
      + rewrite <- Ep, inject_Z_mult. rewrite (pow2_plus (e + l) 1). change (pow2 1) with (inject_Z 2). ring. }
  assert (2 * (R * 2 ^ l - Zpos m) <= 2 ^ l /\ 2 * (Zpos m - R * 2 ^ l) <= 2 ^ l) as [H1 H2] by lia.
  rewrite Zle_Qle in H1, H2. unfold Z.sub in H1, H2.
  rewrite !inject_Z_mult, !inject_Z_plus, !inject_Z_opp, !inject_Z_mult in H1, H2.
  assert (pow2 (e + l) <= 2 * pow2 (k - 54))%Q as Hu.
  { pose proof (pow2_half (k - 53)) as Hh. replace (k - 53 - 1) with (k - 54) in Hh by lia.
    rewrite Hh. apply pow2_le. lia. }
  rewrite (pow2_plus e l), (pow2_Z l) in Hu by lia. rewrite (pow2_plus e l), (pow2_Z l) in Ev by lia.
  pose proof (pow2_gt0 e) as Hp. change (inject_Z 2) with 2%Q in *.
  split; [done| |]; rewrite Ev; nra.
Qed.

(** ** The operations *)

Lemma near_zero s err : (0 <= err)%Q -> near (S754_zero s) 0 err.
Proof. intros He. split; [done| |]; cbn; lra. Qed.

Lemma pow2_err k : (0 <= pow2 (k - 54))%Q.
Proof. apply Qlt_le_weak, pow2_gt0. Qed.

Lemma mul_exponent m1 e1 m2 e2 s1 s2 : is_number (S754_finite s1 m1 e1) = true -> is_number (S754_finite s2 m2 e2) = true ->
  e1 + e2 <= exponent (Zpos (digits2_pos (m1 * m2)) + (e1 + e2)).
Proof.
  intros [H1 _]%canonical_exponent [H2 _]%canonical_exponent.
  destruct (digits2_pos_bounds m1) as [Hm1 _], (digits2_pos_bounds m2) as [Hm2 _].
  set (d1 := Zpos (digits2_pos m1)) in *. set (d2 := Zpos (digits2_pos m2)) in *.
  assert (0 < d1 /\ 0 < d2) as [Hd1 Hd2] by done.
  assert (d1 - 1 + (d2 - 1) < Zpos (digits2_pos (m1 * m2))); [|lia].
  apply digits2_pos_ge. rewrite Pos2Z.inj_mul, Z.pow_add_r by lia. apply Z.mul_le_mono_nonneg; try done; apply Z.pow_nonneg; lia.
Qed.

Lemma js_mul_near x y k : nonneg x -> nonneg y -> -1020 <= k <= 1000 -> (Qval x * Qval y < pow2 k)%Q ->
  near (js_mul x y) (Qval x * Qval y) (pow2 (k - 54)).
Proof.
  intros [Vx Hx] [Vy Hy] Hk Hlt. pose proof (pow2_err k) as He.
  destruct x as [sx| | |sx mx ex]; try done; destruct y as [sy| | |sy my ey]; try done;
    unfold js_mul, SFmul; try (eapply near_eq; [by apply near_zero|cbn; ring]).
  cbn in Hx, Hy. subst sx sy. unfold Qval, cond_Zopp, xorb in *.
  assert (inject_Z (Zpos mx) * pow2 ex * (inject_Z (Zpos my) * pow2 ey) ==
          inject_Z (Zpos (mx * my)) * pow2 (ex + ey))%Q as E
    by (rewrite Pos2Z.inj_mul, inject_Z_mult, pow2_plus; ring).
  eapply near_eq; [|symmetry; exact E]. apply round_near; [by eapply mul_exponent|done|]. by rewrite <- E.
Qed.

Lemma iter_xO_value m c e : (inject_Z (Zpos (Pos.iter xO m c)) * pow2 e == inject_Z (Zpos m) * pow2 (e + Zpos c))%Q.
Proof. rewrite iter_xO, inject_Z_mult, pow2_plus, (pow2_Z (Zpos c)) by lia. ring. Qed.

Lemma shl_align_value m e z : z <= e -> (inject_Z (Zpos (fst (shl_align m e z))) * pow2 z == inject_Z (Zpos m) * pow2 e)%Q.
Proof.
  intros Hz. unfold shl_align. destruct (z - e) as [|c|c] eqn:E; cbn [fst]; [|lia|].
  - by replace z with e by lia.
  - rewrite iter_xO_value. by replace (z + Zpos c) with e by lia.
Qed.

Lemma normalize_near z e k : 0 <= z -> -1020 <= k <= 1000 -> (inject_Z z * pow2 e < pow2 k)%Q ->
  near (binary_normalize 53 1024 z e false) (inject_Z z * pow2 e) (pow2 (k - 54)).
Proof.
  intros Hz Hk Hlt. destruct z as [|m|m]; [|cbn [binary_normalize]|lia].
  { eapply near_eq; [apply near_zero, pow2_err|cbn; ring]. }
  unfold binary_round. rewrite fexp_64. unfold shl_align. set (d := Zpos (digits2_pos m)).
  destruct (exponent (d + e) - e) as [|c|c] eqn:E; [apply round_near; [lia|done|done]..|].
  assert (inject_Z (Zpos (Pos.iter xO m c)) * pow2 (exponent (d + e)) == inject_Z (Zpos m) * pow2 e)%Q as Ev
    by (rewrite iter_xO_value; by replace (exponent (d + e) + Zpos c) with e by lia).
  eapply near_eq; [|exact Ev]. apply round_near; [|done|by rewrite Ev].
  rewrite (digits2_pos_shift (Pos.iter xO m c) m (Zpos c) (iter_xO m c)) by lia. fold d. lia.
Qed.

Lemma js_add_near x y k : nonneg x -> nonneg y -> -1020 <= k <= 1000 -> (Qval x + Qval y < pow2 k)%Q ->
  near (js_add x y) (Qval x + Qval y) (pow2 (k - 54)).
Proof.
  intros Nx Ny Hk Hlt. pose proof (pow2_err k) as He.
  destruct x as [sx| | |sx mx ex]; try by destruct Nx. destruct y as [sy| | |sy my ey]; try by destruct Ny.
  - unfold js_add, SFadd. apply (near_eq _ 0); [|cbn; ring]. by destruct sx, sy; apply near_zero.
  - change (js_add _ _) with (S754_finite sy my ey). eapply near_weaken; [|exact He].
    eapply near_eq; [by apply near_exact|]. change (Qval (S754_zero sx)) with 0%Q. ring.
  - destruct y as [sy| | |sy my ey]; try by destruct Ny.
    + change (js_add _ _) with (S754_finite sx mx ex). eapply near_weaken; [|exact He].
      eapply near_eq; [by apply near_exact|]. change (Qval (S754_zero sy)) with 0%Q. ring.
    + destruct Nx as [Vx Hx], Ny as [Vy Hy]. cbn in Hx, Hy. subst sx sy. unfold js_add, SFadd.
      unfold Qval, cond_Zopp in *. set (z := Z.min ex ey).
      pose proof (shl_align_value mx ex z ltac:(lia)) as E1. pose proof (shl_align_value my ey z ltac:(lia)) as E2.
      assert (inject_Z (Zpos mx) * pow2 ex + inject_Z (Zpos my) * pow2 ey ==
        inject_Z (Zpos (fst (shl_align mx ex z)) + Zpos (fst (shl_align my ey z))) * pow2 z)%Q as E
        by (rewrite <- E1, <- E2, inject_Z_plus; ring).
      eapply near_eq; [|symmetry; exact E]. apply normalize_near; [lia|done|by rewrite <- E].
Qed.

Lemma js_sub_near x y k : nonneg x -> nonneg y -> -1020 <= k <= 1000 -> (Qval y <= Qval x)%Q -> (Qval x < pow2 k)%Q ->
  near (js_sub x y) (Qval x - Qval y) (pow2 (k - 54)).
Proof.
  intros Nx Ny Hk Hle Hlt. pose proof (pow2_err k) as He.
  destruct y as [sy| | |sy my ey]; try by destruct Ny.
  { destruct x as [sx| | |sx mx ex]; try by destruct Nx.
    - unfold js_sub, SFsub. apply (near_eq _ 0); [|cbn; ring]. by destruct sx, sy; apply near_zero.
    - change (js_sub _ _) with (S754_finite sx mx ex). eapply near_weaken; [|exact He].
      eapply near_eq; [by apply near_exact|]. change (Qval (S754_zero sy)) with 0%Q. ring. }
  destruct x as [sx| | |sx mx ex]; try by destruct Nx.
  { exfalso. destruct Ny as [_ Hy]. cbn in Hy. subst sy. cbn in Hle. pose proof (pow2_gt0 ey).
    assert (0 < inject_Z (Zpos my))%Q by done. nra. }
  destruct Nx as [Vx Hx], Ny as [Vy Hy]. cbn in Hx, Hy. subst sx sy. unfold js_sub, SFsub.
  unfold Qval, cond_Zopp in *. set (z := Z.min ex ey).
  pose proof (shl_align_value mx ex z ltac:(lia)) as E1. pose proof (shl_align_value my ey z ltac:(lia)) as E2.
  assert (inject_Z (Zpos mx) * pow2 ex - inject_Z (Zpos my) * pow2 ey ==
    inject_Z (Zpos (fst (shl_align mx ex z)) - Zpos (fst (shl_align my ey z))) * pow2 z)%Q as E
    by (rewrite <- E1, <- E2; unfold Z.sub; rewrite inject_Z_plus, inject_Z_opp; ring).
  rewrite <- E1, <- E2 in Hle. pose proof (pow2_gt0 z) as Hz. apply Qmult_le_r in Hle; [|done]. rewrite <- Zle_Qle in Hle.
  eapply near_eq; [|symmetry; exact E]. apply normalize_near; [lia|done|]. rewrite <- E.
  assert (0 < inject_Z (Zpos my))%Q by done. pose proof (pow2_gt0 ey). nra.
Qed.

(** ** Division: the remainder decides between neighbours *)

(** Where the quotient lies, in quarters of its last digit. *)
Definition quarter (l : location) : Z :=
  match l with loc_Exact => 0 | loc_Inexact Lt => 1 | loc_Inexact Eq => 2 | loc_Inexact Gt => 3 end.

Lemma quarter_bounds l : 0 <= quarter l < 4.
Proof. destruct l as [|[]]; cbn; lia. Qed.

Lemma shifted_unique m k r1 r2 : shifted m k r1 -> shifted m k r2 -> r1 = r2.
Proof.
  intros [A1 A2 A3] [B1 B2 B3]. destruct r1 as [q1 b1 s1], r2 as [q2 b2 s2]. cbn in *. subst. done.
Qed.

Lemma shifted_of_loc q l : 0 <= q -> shifted (4 * q + quarter l) 2 (shr_record_of_loc q l).
Proof.
  intros Hq. pose proof (quarter_bounds l) as Hc. change (2 ^ 2) with 4 in *.
  assert ((4 * q + quarter l) / 4 = q) as Ed by (symmetry; apply (Z.div_unique _ _ _ (quarter l)); lia).
  assert ((4 * q + quarter l) mod 4 = quarter l) as Em by (symmetry; apply (Z.mod_unique _ _ q); lia).
  split; change (2 ^ 2) with 4; rewrite ?Ed, ?Em; by destruct l as [|[]].
Qed.

Lemma shr_more m e n k r : 0 <= m -> 0 <= n -> shifted m k r -> 0 <= k ->
  exists r', shr r e n = (r', e + n) /\ shifted m (k + n) r'.
Proof.
  intros Hm Hn Hs Hk. destruct n as [|p|p]; [| |lia]; cbn [shr].
  - exists r. by rewrite !Z.add_0_r.
  - eexists. split; [done|]. by apply shifted_iter.
Qed.

(** Rounding with a location is rounding the quotient to a quarter digit. *)
Lemma round_with_loc s q e l p : Zpos p = 4 * q + quarter l -> 0 < q ->
  e <= exponent (Zdigits2 q + e) ->
  binary_round_aux 53 1024 s q e l = binary_round_aux 53 1024 s (Zpos p) (e - 2) loc_Exact.
Proof.
  intros Ep Hq He. assert (0 <= 4 * q + quarter l) as H4 by lia.
  assert (Zdigits2 (Zpos p) = Zdigits2 q + 2) as Ed.
  { destruct q as [|q|q]; [lia| |lia]. cbn [Zdigits2]. pose proof (quarter_bounds l).
    destruct (digits2_pos_bounds q) as [H1 H2]. set (d := Zpos (digits2_pos q)) in *.
    assert (0 < d) by done.
    assert (Zpos (digits2_pos p) <= d + 2) by (apply digits2_pos_le; [lia|]; rewrite Z.pow_add_r by lia; lia).
    assert (d - 1 + 2 < Zpos (digits2_pos p)); [|lia]. apply digits2_pos_ge. rewrite Z.pow_add_r by lia. lia. }
  unfold binary_round_aux, shr_fexp. rewrite !fexp_64, Ed.
  replace (Zdigits2 q + 2 + (e - 2)) with (Zdigits2 q + e) by lia. set (n := exponent (Zdigits2 q + e) - e).
  replace (exponent (Zdigits2 q + e) - (e - 2)) with (2 + n) by lia.
  destruct (shr_more (4 * q + quarter l) e n 2 (shr_record_of_loc q l)) as (r1 & -> & H1);
    [lia|lia|apply shifted_of_loc; lia|lia|].
  destruct (shr_more (4 * q + quarter l) (e - 2) (2 + n) 0 (shr_record_of_loc (Zpos p) loc_Exact)) as (r2 & -> & H2);
    [lia|lia| |lia|].
  { cbn [shr_record_of_loc]. rewrite Ep. apply shifted_0. }
  rewrite (shifted_unique _ _ _ _ H1 H2). by replace (e - 2 + (2 + n)) with (e + n) by lia.
Qed.

(** The location of the remainder: the quotient is within a quarter digit. *)
Lemma new_location_quarter m r : 0 < m -> 0 <= r < m ->
  let c := quarter (new_location m r) in (c - 1) * m <= 4 * r <= (c + 1) * m.
Proof.
  intros Hm Hr. unfold new_location. destruct (Z.even m) eqn:Ev; unfold new_location_even, new_location_odd;
    destruct (Z.eqb_spec r 0) as [->|Hne]; cbn [quarter]; try lia.
  - destruct (Z.compare_spec (2 * r) m); cbn [quarter]; lia.
  - destruct (Z.compare_spec (2 * r + 1) m); cbn [quarter]; lia.
Qed.

(** The quotient the division works with, before it is rounded. *)
Section quotient.
Context (m1 m2 : positive) (e1 e2 k : Z).
Abbreviation X := (inject_Z (Zpos m1) * pow2 e1 / (inject_Z (Zpos m2) * pow2 e2))%Q.
Let D := Zpos (digits2_pos m1) + e1 - (Zpos (digits2_pos m2) + e2).
Let e' := Z.min (exponent D) (e1 - e2).
Let M := Zpos m1 * 2 ^ (e1 - e2 - e').
Let q := M / Zpos m2.
Let l := new_location (Zpos m2) (M mod Zpos m2).
Context (Hk : -900 <= k <= 1000) (Hlt : (X < pow2 k)%Q) (Hge : (pow2 (-1000) <= X)%Q).

Lemma div_core : SFdiv_core_binary 53 1024 (Zpos m1) e1 (Zpos m2) e2 = (q, e', l).
Proof.
  unfold SFdiv_core_binary. cbn [Zdigits2]. rewrite fexp_64. fold D e'.
  assert ((match e1 - e2 - e' with Z0 => Zpos m1 | Zpos _ => Z.shiftl (Zpos m1) (e1 - e2 - e') | Zneg _ => 0 end) = M) as ->.
  { unfold M. destruct (e1 - e2 - e') as [|c|c] eqn:E; [by rewrite Z.mul_1_r|by rewrite Z.shiftl_mul_pow2|lia]. }
  unfold q, l, Z.div, Z.modulo. by destruct (Z.div_eucl M (Zpos m2)).
Qed.

Lemma quotient_value : (X * inject_Z (Zpos m2) == inject_Z M * pow2 e')%Q.
Proof.
  unfold M. rewrite inject_Z_mult, <- (pow2_Z (e1 - e2 - e')) by lia.
  transitivity (inject_Z (Zpos m1) * (pow2 (e1 - e2 - e') * pow2 e'))%Q; [|ring].
  rewrite <- pow2_plus. replace (e1 - e2 - e' + e') with (e1 - e2) by lia.
  assert (pow2 e1 == pow2 (e1 - e2) * pow2 e2)%Q as -> by (rewrite <- pow2_plus; by replace (e1 - e2 + e2) with e1 by lia).
  pose proof (pow2_gt0 e2). assert (0 < inject_Z (Zpos m2))%Q by done. field. split; lra.
Qed.

Lemma quotient_digits : (pow2 (D - 1) <= X)%Q /\ (X <= pow2 (D + 1))%Q.
Proof.
  destruct (digits2_pos_bounds m1) as [A1 A2], (digits2_pos_bounds m2) as [B1 B2]. unfold D.
  set (d1 := Zpos (digits2_pos m1)) in *. set (d2 := Zpos (digits2_pos m2)) in *.
  assert (0 < d1 /\ 0 < d2) as [Hd1 Hd2] by done.
  pose proof (pow2_gt0 e1) as P1. pose proof (pow2_gt0 e2) as P2. assert (0 < inject_Z (Zpos m2))%Q as Hm by done.
  apply Z.lt_le_incl in A2, B2. rewrite Zle_Qle in A1, A2, B1, B2. rewrite <- pow2_Z in A1, A2, B1, B2 by lia.
  assert (0 < inject_Z (Zpos m2) * pow2 e2)%Q as Hy by nra.
  split; [apply Qle_shift_div_l; [done|]|apply Qle_shift_div_r; [done|]].
  - apply (Qle_trans _ (pow2 (d1 + e1 - (d2 + e2) - 1) * (pow2 d2 * pow2 e2)));
      [apply Qmult_le_l; [apply pow2_gt0|]; by apply Qmult_le_r|]. rewrite <- !pow2_plus.
    replace (d1 + e1 - (d2 + e2) - 1 + (d2 + e2)) with (d1 - 1 + e1) by lia. rewrite pow2_plus. by apply Qmult_le_r.
  - apply (Qle_trans _ (pow2 (d1 + e1 - (d2 + e2) + 1) * (pow2 (d2 - 1) * pow2 e2)));
      [|apply Qmult_le_l; [apply pow2_gt0|]; by apply Qmult_le_r]. rewrite <- !pow2_plus.
    replace (d1 + e1 - (d2 + e2) + 1 + (d2 - 1 + e2)) with (d1 + e1) by lia. rewrite pow2_plus. by apply Qmult_le_r.
Qed.

Lemma quotient_ranges : -1001 <= D <= k /\ e' <= k - 53 /\ 0 <= D - e' - 53.
Proof.
  destruct quotient_digits as [H1 H2].
  assert (pow2 (-1000) <= pow2 (D + 1))%Q as HD by (by apply (Qle_trans _ X)).
  assert (D - 1 < k) by (apply pow2_lt_inv; eapply Qle_lt_trans; [exact H1|exact Hlt]).
  assert (-1001 <= D).
  { destruct (Z_le_gt_dec (-1001) D); [done|]. exfalso.
    assert (D + 1 < -1000) by lia. pose proof (Qpower_lt_compat_l (inject_Z 2) (D + 1) (-1000) ltac:(lia) ltac:(done)).
    unfold pow2 in HD. lra. }
  unfold e'. lia.
Qed.

Lemma quotient_near : near (binary_round_aux 53 1024 false q e' l) X (pow2 (k - 53)).
Proof.
  destruct quotient_ranges as (HD & He & Hs). destruct quotient_digits as [Hlo _].
  pose proof quotient_value as Ev. assert (0 < inject_Z (Zpos m2))%Q as Hm by done.
  pose proof (pow2_gt0 e') as Hp. pose proof (Z.div_mod M (Zpos m2) ltac:(lia)) as Hdm.
  pose proof (Z.mod_pos_bound M (Zpos m2) ltac:(lia)) as Hr. fold q in Hdm. set (r := M mod Zpos m2) in *.
  pose proof (new_location_quarter (Zpos m2) r ltac:(lia) Hr) as Hc. fold l in Hc. cbn zeta in Hc.
  pose proof (quarter_bounds l) as Hq4.
  assert (2 ^ (D - 1 - e') <= q) as Hqlo.
  { apply Z.div_le_lower_bound; [lia|]. rewrite Zle_Qle, inject_Z_mult, <- pow2_Z by lia.
    apply (Qmult_le_r _ _ (pow2 e')); [done|]. rewrite <- Ev.
    assert (pow2 (D - 1) == pow2 (D - 1 - e') * pow2 e')%Q as Ep by (rewrite <- pow2_plus; by replace (D - 1 - e' + e') with (D - 1) by lia).
    rewrite Ep in Hlo. nra. }
  assert (q < 2 ^ (k - e')) as Hqhi.
  { apply Z.div_lt_upper_bound; [lia|]. rewrite Zlt_Qlt, inject_Z_mult, <- pow2_Z by lia.
    apply (Qmult_lt_r _ _ (pow2 e')); [done|]. rewrite <- Ev.
    assert (pow2 k == pow2 (k - e') * pow2 e')%Q as Ep by (rewrite <- pow2_plus; by replace (k - e' + e') with k by lia).
    pose proof Hlt as H'. rewrite Ep in H'. nra. }
  pose proof (pow2_pos (D - 1 - e') ltac:(lia)) as Hq0.
  assert (exists p, Zpos p = 4 * q + quarter l) as [p Ep] by (exists (Z.to_pos (4 * q + quarter l)); lia).
  assert (D - e' <= Zdigits2 q) as Hdq.
  { destruct q as [|x|x]; [lia| |lia]. cbn [Zdigits2].
    assert (D - 1 - e' < Zpos (digits2_pos x)); [by apply digits2_pos_ge|lia]. }
  rewrite (round_with_loc false q e' l p Ep) by lia.
  assert (pow2 (e' - 2) * 4 == pow2 e')%Q as E4.
  { transitivity (pow2 (e' - 2) * pow2 2)%Q; [done|]. rewrite <- pow2_plus. by replace (e' - 2 + 2) with e' by lia. }
  assert (near (binary_round_aux 53 1024 false (Zpos p) (e' - 2) loc_Exact) (inject_Z (Zpos p) * pow2 (e' - 2)) (pow2 (k - 54)))
    as [Hn H1 H2].
  { apply round_near; [|lia|].
    - assert (D - e' + 1 < Zpos (digits2_pos p)); [|lia]. apply digits2_pos_ge.
      replace (D - e' + 1) with (D - 1 - e' + 2) by lia. rewrite Z.pow_add_r by lia. lia.
    - rewrite Ep. assert (4 * q + quarter l < 4 * 2 ^ (k - e')) as H4 by lia. rewrite Zlt_Qlt, inject_Z_mult, <- pow2_Z in H4 by lia.
      assert (pow2 k == pow2 (k - e') * pow2 e')%Q as Ek by (rewrite <- pow2_plus; by replace (k - e' + e') with k by lia).
      change (inject_Z 4) with 4%Q in H4. pose proof (pow2_gt0 (e' - 2)). rewrite Ek, <- E4. nra. }
  assert (pow2 (e' - 2) <= pow2 (k - 54))%Q as Hu by (apply pow2_le; lia).
  assert (pow2 (k - 53) == 2 * pow2 (k - 54))%Q as E53 by (rewrite <- (pow2_half (k - 53)); by replace (k - 53 - 1) with (k - 54) by lia).
  assert ((inject_Z (Zpos p) - 1) * pow2 (e' - 2) <= X /\ X <= (inject_Z (Zpos p) + 1) * pow2 (e' - 2))%Q as [HX1 HX2].
  { assert ((Zpos p - 1) * Zpos m2 <= 4 * M <= (Zpos p + 1) * Zpos m2) as [G1 G2] by nia.
    rewrite Zle_Qle, !inject_Z_mult in G1, G2. unfold Z.sub in G1. rewrite inject_Z_plus in G1, G2.
    change (inject_Z 4) with 4%Q in *. change (inject_Z (- (1))) with (-1)%Q in *. change (inject_Z 1) with 1%Q in *.
    pose proof (pow2_gt0 (e' - 2)) as Hp2. rewrite <- E4 in Ev.
    split; apply (Qmult_le_r _ _ (inject_Z (Zpos m2))); try done; rewrite Ev; nra. }
  split; [done| |]; rewrite E53; nra.
Qed.
End quotient.

Lemma js_div_near x y k : nonneg x -> nonneg y -> (0 < Qval y)%Q -> -900 <= k <= 1000 -> (Qval x / Qval y < pow2 k)%Q ->
  (Qval x == 0)%Q \/ (pow2 (-1000) <= Qval x / Qval y)%Q -> near (js_div x y) (Qval x / Qval y) (pow2 (k - 53)).
Proof.
  intros [Vx Hx] [Vy Hy] Hpos Hk Hlt Hlow. pose proof (pow2_gt0 (k - 53)) as Hp.
  destruct y as [sy| | |sy my ey]; try done. cbn in Hy. subst sy.
  destruct x as [sx| | |sx mx ex]; try done.
  { apply (near_eq _ 0); [|change (Qval (S754_zero sx)) with 0%Q; symmetry; apply Qmult_0_l]. apply near_zero. lra. }
  cbn in Hx. subst sx. unfold Qval, cond_Zopp in *.
  assert (pow2 (-1000) <= inject_Z (Zpos mx) * pow2 ex / (inject_Z (Zpos my) * pow2 ey))%Q as Hge.
  { destruct Hlow as [E|]; [|done]. exfalso. pose proof (pow2_gt0 ex). assert (0 < inject_Z (Zpos mx))%Q by done. nra. }
  unfold js_div, SFdiv, xorb. rewrite div_core. by apply quotient_near.
Qed.

(** ** Integers *)

Lemma Number_value n : 0 <= n < 2 ^ 53 -> nonneg (Number n) /\ (Qval (Number n) == inject_Z n)%Q.
Proof.
  intros Hn. destruct (Z.eq_dec n 0) as [->|Hne]; [done|].
  destruct n as [|n|n]; [lia| |lia]. destruct (binary_round_exact (Zpos n) n 0) as (p & E & Ep); [lia|lia|lia|].
  unfold Number, binary_normalize. rewrite E. cbn [Zdigits2] in *.
  assert (Zpos (digits2_pos n) <= 53) as Hd by (apply digits2_pos_le; lia).
  pose proof (digits2_pos_shift p n (53 - Zpos (digits2_pos n)) Ep ltac:(lia)) as Hp.
  set (d := Zpos (digits2_pos n)) in *. assert (0 < d) by done. split.
  - split; [|done]. unfold is_number, valid_binary, bounded, canonical_mantissa. rewrite fexp_64, Hp.
    apply andb_true_iff. split; [apply Z.eqb_eq|apply Z.leb_le]; lia.
  - unfold Qval, cond_Zopp. rewrite Ep, inject_Z_mult, <- pow2_Z by lia. rewrite <- Qmult_assoc, <- pow2_plus.
    replace (53 - d + (d - 53)) with 0 by lia. change (pow2 0) with 1%Q. ring.
Qed.

Lemma Number_nonneg n : 0 <= n < 2 ^ 53 -> nonneg (Number n).
Proof. intros. by apply Number_value. Qed.

Lemma near_Number n : 0 <= n < 2 ^ 53 -> near (Number n) (inject_Z n) 0.
Proof. intros Hn. destruct (Number_value n Hn) as [H1 H2]. eapply near_eq; [by apply near_exact|done]. Qed.

(** An integer with a canonical mantissa is its own number. *)
Lemma Number_scaled m e s : is_number (S754_finite s m e) = true -> 0 <= e < 970 ->
  Number (Zpos m * 2 ^ e) = S754_finite false m e.
Proof.
  intros Hv He. destruct (canonical_exponent m e s Hv) as [Hc _]. pose proof (mantissa_lt m e s Hv) as Hm.
  pose proof (pow2_pos e ltac:(lia)) as Hp.
  assert (exists M, Zpos M = Zpos m * 2 ^ e) as [M EM] by (exists (Z.to_pos (Zpos m * 2 ^ e)); lia).
  pose proof (digits2_pos_shift M m e EM ltac:(lia)) as Hd.
  rewrite <- EM. unfold Number, binary_normalize, binary_round. rewrite fexp_64, Hd, Z.add_0_r, Hc.
  assert (shl_align M 0 e = (M, 0)) as -> by (unfold shl_align; destruct (e - 0) eqn:E; [done|done|lia]).
  assert (lost M 0 = e) as El by (unfold lost; lia).
  destruct (binary_round_nearest false M 0) as (R & HR & [_ Hx _ _ _ Hfin]). rewrite El, EM in Hx.
  rewrite Z.mod_mul, Z.div_mul in Hx by lia. rewrite (Hx eq_refl) in Hfin. rewrite El in Hfin.
  destruct (Hfin ltac:(lia) ltac:(lia)) as (p & [[-> E]|(_ & _ & E)]); [|lia]. injection E as ->. by rewrite Z.add_0_l.
Qed.

(** [Math.round]: the nearest integer, a half going up. *)
Record rounds_to (x : number) (z : Z) : Prop := {
  rt_Z : round_Z x = Some z;
  rt_pos : 0 <= z;
  rt_low : (inject_Z z - (1 # 2) <= Qval x)%Q;
  rt_high : (Qval x < inject_Z z + (1 # 2))%Q;
  rt_nonneg : nonneg (Math_round x);
  rt_value : (Qval (Math_round x) == inject_Z z)%Q;
}.

Lemma round_scaled_near m e : 0 <= m -> e < 0 ->
  (inject_Z (round_scaled m e) - (1 # 2) <= inject_Z m * pow2 e)%Q /\ (inject_Z m * pow2 e < inject_Z (round_scaled m e) + (1 # 2))%Q.
Proof.
  intros Hm He. unfold round_scaled. destruct (Z.leb_spec 0 e); [lia|].
  replace (1 - e) with (- e + 1) by lia. rewrite pow2_S by lia. set (P := 2 ^ (- e)).
  pose proof (pow2_pos (- e) ltac:(lia)) as HP. fold P in HP. set (z := (2 * m + P) / (2 * P)).
  pose proof (Z.div_mod (2 * m + P) (2 * P) ltac:(lia)) as Hd. pose proof (Z.mod_pos_bound (2 * m + P) (2 * P) ltac:(lia)) as Hr.
  fold z in Hd. assert (2 * z * P - P <= 2 * m) as H1 by lia. assert (2 * m < 2 * z * P + P) as H2 by lia.
  rewrite Zle_Qle in H1. rewrite Zlt_Qlt in H2. unfold Z.sub in H1.
  rewrite inject_Z_plus, inject_Z_opp, !inject_Z_mult in H1. rewrite !inject_Z_plus, !inject_Z_mult in H2. change (inject_Z 2) with 2%Q in *.
  assert (pow2 e * inject_Z P == 1)%Q as E.
  { unfold P. rewrite <- pow2_Z, <- pow2_plus by lia. replace (e + - e) with 0 by lia. done. }
  pose proof (pow2_gt0 e) as Hp. assert (0 < inject_Z P)%Q as HPq by (by rewrite <- (Zlt_Qlt 0)).
  split; [apply (Qmult_le_r _ _ (inject_Z P))|apply (Qmult_lt_r _ _ (inject_Z P))]; try done;
    rewrite <- Qmult_assoc, E; lra.
Qed.

Lemma Math_round_near x : nonneg x -> (Qval x < pow2 900)%Q -> exists z, rounds_to x z.
Proof.
  intros [Hv Hx] Hlt. destruct x as [s| | |s m e]; try done.
  - exists 0. by split.
  - cbn in Hx. subst s. unfold Qval, cond_Zopp in Hlt. destruct (canonical_exponent m e false Hv) as [Hc _].
    pose proof (mantissa_lt m e false Hv) as Hm. destruct (Z_lt_le_dec e 0) as [He|He].
    + exists (round_scaled (Zpos m) e). destruct (round_scaled_near (Zpos m) e) as [H1 H2]; [lia|done|].
      assert (0 <= round_scaled (Zpos m) e < 2 ^ 53) as Hz.
      { unfold round_scaled. destruct (Z.leb_spec 0 e); [lia|]. replace (1 - e) with (- e + 1) by lia. rewrite pow2_S by lia.
        assert (2 <= 2 ^ (- e)) by (change 2 with (2 ^ 1) at 1; apply Z.pow_le_mono_r; lia).
        split; [apply Z.div_pos; lia|]. apply Z.div_lt_upper_bound; [lia|]. nia. }
      destruct (Number_value _ Hz) as [Hn Ev].
      split; [done|lia|done|done|exact Hn|exact Ev].
    + exists (Zpos m * 2 ^ e). assert (e < 970) as He'.
      { pose proof (digits_below m e 900 Hlt). lia. }
      assert (Math_round (S754_finite false m e) = S754_finite false m e) as Er.
      { unfold Math_round, round_Z, round_scaled, cond_Zopp. destruct (Z.leb_spec 0 e); [|lia]. by apply (Number_scaled m e false). }
      assert (Qval (S754_finite false m e) == inject_Z (Zpos m * 2 ^ e))%Q as Ev
        by (unfold Qval, cond_Zopp; rewrite inject_Z_mult, <- pow2_Z by done; done).
      split.
      * unfold round_Z, round_scaled, cond_Zopp. by destruct (Z.leb_spec 0 e); [|lia].
      * pose proof (pow2_pos e He). lia.
      * rewrite Ev. lra.
      * rewrite Ev. lra.
      * by rewrite Er.
      * by rewrite Er.
Qed.

(** ** Comparison *)

Lemma canonical_lt m1 e1 m2 e2 s1 s2 : is_number (S754_finite s1 m1 e1) = true -> is_number (S754_finite s2 m2 e2) = true ->
  e1 < e2 -> (inject_Z (Zpos m1) * pow2 e1 < inject_Z (Zpos m2) * pow2 e2)%Q.
Proof.
  intros H1 H2 He. pose proof (mantissa_lt _ _ _ H1) as Hm1.
  destruct (canonical_exponent _ _ _ H1) as [C1 _], (canonical_exponent _ _ _ H2) as [C2 _].
  destruct (digits2_pos_bounds m2) as [Hm2 _]. assert (2 ^ 52 <= Zpos m2) as H52.
  { eapply Z.le_trans; [|exact Hm2]. apply Z.pow_le_mono_r; lia. }
  assert (pow2 e2 == pow2 (e2 - e1 - 1) * (2 * pow2 e1))%Q as ->.
  { change 2%Q with (pow2 1) at 1. rewrite <- !pow2_plus. by replace (e2 - e1 - 1 + (1 + e1)) with e2 by lia. }
  pose proof (pow2_gt0 e1) as P1. pose proof (pow2_le 0 (e2 - e1 - 1) ltac:(lia)) as P2. change (pow2 0) with 1%Q in P2.
  rewrite Zlt_Qlt in Hm1. rewrite Zle_Qle in H52. change (inject_Z (2 ^ 53)) with (2 * inject_Z (2 ^ 52))%Q in Hm1.
  set (A := inject_Z (2 ^ 52)) in *. assert (0 < inject_Z (Zpos m1))%Q by done. 
  apply (Qlt_le_trans _ (2 * A * pow2 e1)); [by apply Qmult_lt_r|].
  apply (Qle_trans _ (inject_Z (Zpos m2) * (2 * pow2 e1))); [nra|]. apply Qmult_le_l; [done|]. nra.
Qed.

Lemma js_compare x y : nonneg x -> nonneg y -> SFcompare x y = Some (Qcompare (Qval x) (Qval y)).
Proof.
  intros [Vx Hx] [Vy Hy].
  assert (forall m e, (0 < inject_Z (Zpos m) * pow2 e)%Q) as Hpos.
  { intros m e. pose proof (pow2_gt0 e). assert (0 < inject_Z (Zpos m))%Q by done. nra. }
  destruct x as [sx| | |sx mx ex]; try done; destruct y as [sy| | |sy my ey]; try done; cbn in Hx, Hy; subst;
    cbn [SFcompare]; f_equal; symmetry; unfold Qval, cond_Zopp.
  - apply Qlt_alt, Hpos.
  - apply Qgt_alt, Hpos.
  - destruct (Z.compare_spec ex ey) as [->|H|H].
    + change (Pos.compare_cont Eq mx my) with (mx ?= my)%positive. pose proof (pow2_gt0 ey).
      destruct (Pos.compare_spec mx my) as [->|H'|H'].
      * by apply Qeq_alt.
      * apply Qlt_alt, Qmult_lt_r; [done|]. by rewrite <- Zlt_Qlt.
      * apply Qgt_alt, Qmult_lt_r; [done|]. rewrite <- Zlt_Qlt. lia.
    + apply Qlt_alt. by eapply canonical_lt.
    + apply Qgt_alt. by eapply canonical_lt.
Qed.

Lemma js_ltb_spec x y : nonneg x -> nonneg y -> js_ltb x y = true <-> (Qval x < Qval y)%Q.
Proof.
  intros Hx Hy. unfold js_ltb, SFltb. rewrite js_compare by done. rewrite Qlt_alt. by destruct (_ ?= _)%Q.
Qed.

Lemma js_leb_spec x y : nonneg x -> nonneg y -> js_leb x y = true <-> (Qval x <= Qval y)%Q.
Proof.
  intros Hx Hy. unfold js_leb, SFleb. rewrite js_compare by done. rewrite Qle_alt. by destruct (_ ?= _)%Q.
Qed.

Lemma js_eqb_spec x y : nonneg x -> nonneg y -> js_eqb x y = true <-> (Qval x == Qval y)%Q.
Proof.
  intros Hx Hy. unfold js_eqb, SFeqb. rewrite js_compare by done. rewrite Qeq_alt. by destruct (_ ?= _)%Q.
Qed.

Lemma js_ltb_false x y : nonneg x -> nonneg y -> (Qval y <= Qval x)%Q -> js_ltb x y = false.
Proof.
  intros Hx Hy Hle. destruct (js_ltb x y) eqn:E; [|done]. apply js_ltb_spec in E; [|done|done]. lra.
Qed.

(** ** What a rounded value is *)

Lemma rounds_ge x z n : rounds_to x z -> (inject_Z n <= Qval x)%Q -> n <= z.
Proof.
  intros H Hn. pose proof (rt_high _ _ H). destruct (Z_le_gt_dec n z); [done|]. exfalso.
  assert (z + 1 <= n) as G by lia. rewrite Zle_Qle, inject_Z_plus in G. change (inject_Z 1) with 1%Q in G. lra.
Qed.

Lemma rounds_le x z n : rounds_to x z -> (Qval x <= inject_Z n)%Q -> z <= n.
Proof.
  intros H Hn. pose proof (rt_low _ _ H). destruct (Z_le_gt_dec z n); [done|]. exfalso.
  assert (n + 1 <= z) as G by lia. rewrite Zle_Qle, inject_Z_plus in G. change (inject_Z 1) with 1%Q in G. lra.
Qed.

Lemma rounds_eq x z n : rounds_to x z -> (inject_Z n - (1 # 2) <= Qval x)%Q -> (Qval x < inject_Z n + (1 # 2))%Q -> z = n.
Proof.
  intros H H1 H2. pose proof (rt_low _ _ H). pose proof (rt_high _ _ H).
  destruct (Z.lt_trichotomy z n) as [G|[->|G]]; [exfalso|done|exfalso].
  - assert (z + 1 <= n) as G' by lia. rewrite Zle_Qle, inject_Z_plus in G'. change (inject_Z 1) with 1%Q in G'. lra.
  - assert (n + 1 <= z) as G' by lia. rewrite Zle_Qle, inject_Z_plus in G'. change (inject_Z 1) with 1%Q in G'. lra.
Qed.

Lemma round_Number x z : rounds_to x z -> Math_round x = Number z.
Proof. intros H. unfold Math_round. by rewrite (rt_Z _ _ H). Qed.
