(* ===== verification/LedgerTypes.v ===== *)
(** * Virtual-account ledger: data

    Types of [packages/virtual-accounts/src/types.ts] and the amount guards of
    [money.ts] ([packages/virtual-accounts], [packages/protocol]).  Money is an
    integer number of micro-units; a JavaScript number that is not an integer
    (a fraction, [NaN], an infinity) can reach the guards only, and is the
    constructor [JNonInt] there. *)

From S2P Require Import Prelude JsString.
Local Open Scope Z_scope.

Definition MAX_SAFE_INTEGER : Z := 9007199254740991.

Inductive js_number := JInt (z : Z) | JNonInt.

Definition Number_isInteger (n : js_number) : bool :=
  match n with JInt _ => true | JNonInt => false end.

Definition Number_isSafeInteger (n : js_number) : bool :=
  match n with
  | JInt z => bool_decide (- MAX_SAFE_INTEGER <= z <= MAX_SAFE_INTEGER)
  | JNonInt => false
  end.

Definition MICRO : Z := 1000000.
Definition MIN_POSITIVE_MICRO : Z := 1.

Definition isPositiveMicro (micro : js_number) : bool :=
  match micro with
  | JInt z => Number_isSafeInteger micro && bool_decide (MIN_POSITIVE_MICRO <= z)
  | JNonInt => false
  end.

(** [allocation-escrow.ts]: why a movement of allocation money is refused. *)
Inductive AllocationMoneyRefusal :=
| no_allocation
| exceeds_held
| not_a_party
| unroutable
| insufficient_balance
| invalid_amount
| forward_not_pending
| under_review.

#[export] Instance AllocationMoneyRefusal_eq : EqDecision AllocationMoneyRefusal.
Proof. solve_decision. Defined.

(** [dispute-fund-ledger.ts]: why a verdict's fund action moved nothing. *)
Inductive FundRefusalReason := task_mismatch | no_allocation_row | unroutable_funds | clawback_insufficient | under_operator_review.

#[export] Instance FundRefusalReason_eq : EqDecision FundRefusalReason.
Proof. solve_decision. Defined.

(** What a ledger call may throw. *)
Inductive ledger_error :=
| RangeError_not_positive_micro
| Error_not_integer_micro
| Error_invalid_from_status
| Error_withdrawal_vanished
| Error_pending_vanished
| Error_unique_constraint
| Error_check_constraint
| AllocationMoneyRefused (reason : AllocationMoneyRefusal)
| EmergencyFrozenError
| Error_inbound_settlement
| FundActionRefused (reason : FundRefusalReason)
| Error_split_ratio
| InsufficientFundsError
| RangeError_batch_inputs
| HTTPException (status : Z)
| Error_driver.

Definition assertPositiveMicro (amount : js_number) : result ledger_error Z :=
  match amount with
  | JInt z => if isPositiveMicro amount then Ok z else Throw RangeError_not_positive_micro
  | JNonInt => Throw RangeError_not_positive_micro
  end.

(** Rejects a non-integer at the SQL write boundary ([account-store-sqlite.ts]). *)
Definition assertMicroUnits (amount : js_number) : result ledger_error Z :=
  match amount with
  | JInt z => Ok z
  | JNonInt => Throw Error_not_integer_micro
  end.

Definition DISPUTE_WINDOW_MS : Z := 24 * 60 * 60 * 1000.

(** ** Types *)

Inductive TransactionType :=
| deposit | withdrawal | allocation_hold | allocation_release
| settlement_debit | settlement_credit | fee | waiver.

#[export] Instance TransactionType_eq_dec : EqDecision TransactionType.
Proof. solve_decision. Defined.

Record VirtualAccount := {
  va_motebit_id : string;
  va_balance : Z;
  va_currency : string;
  va_created_at : Z;
  va_updated_at : Z;
}.

Record AccountTransaction := {
  transaction_id : string;
  tx_motebit_id : string;
  tx_type : TransactionType;
  tx_amount : Z;
  balance_after : Z;
  reference_id : option string;
  tx_description : option string;
  tx_created_at : Z;
}.

Inductive WithdrawalStatus := pending | processing | completed | failed | cancelled.

#[export] Instance WithdrawalStatus_eq_dec : EqDecision WithdrawalStatus.
Proof. solve_decision. Defined.

(** [WithdrawalOpenStatus] is the two-member subtype; a cast can still pass any
    status at run time, which is what [isOpenFrom] checks. *)
Definition isOpenFrom (from : WithdrawalStatus) : bool :=
  match from with pending | processing => true | _ => false end.

(** [pre_claim_review] is written only by the table migration of the SQL store
    and never by an operation; it is not a field here. *)
Record WithdrawalRequest := {
  withdrawal_id : string;
  w_motebit_id : string;
  w_amount : Z;
  w_currency : string;
  destination : string;
  w_status : WithdrawalStatus;
  payout_reference : option string;
  requested_at : Z;
  completed_at : option Z;
  failure_reason : option string;
  relay_signature : option string;
  relay_public_key : option string;
  claimed_at : option Z;
  payout_valid_until : option Z;
}.

Record NewWithdrawal := {
  nw_withdrawal_id : string;
  nw_motebit_id : string;
  nw_amount : js_number;
  nw_currency : string;
  nw_destination : string;
  nw_idempotency_key : option string;
  nw_requested_at : Z;
}.

Record AccountBalanceDetail := {
  abd_balance : Z;
  abd_currency : string;
  pending_withdrawals : Z;
  pending_allocations : Z;
  dispute_window_hold : Z;
  available_for_withdrawal : Z;
  abd_sweep_threshold : option Z;
  abd_settlement_address : option string;
}.

Record SweepConfig := {
  sweep_threshold : option Z;
  settlement_address : option string;
}.

Inductive sweep_source := source_sweep | source_user.
(** [q_unknown], [q_refund_owed] and [q_refunded] are written by the relay only. *)
Inductive queue_status :=
| q_pending | q_firing | q_fired | q_failed | q_cancelled | q_unknown | q_refund_owed | q_refunded.

#[export] Instance queue_status_eq_dec : EqDecision queue_status.
Proof. solve_decision. Defined.

(** A row of the aggregated-withdrawal queue. *)
Record PendingRow := {
  pr_pendingId : string;
  pr_motebitId : string;
  pr_amountMicro : Z;
  pr_destination : string;
  pr_rail : string;
  pr_source : sweep_source;
  pr_enqueuedAt : Z;
  pr_status : queue_status;
  pr_idempotencyKey : option string;
}.

(** Arguments of [debitAndEnqueuePending]. *)
Record EnqueueArgs := {
  ea_motebitId : string;
  ea_amountMicro : js_number;
  ea_destination : string;
  ea_rail : string;
  ea_source : sweep_source;
  ea_idempotencyKey : option string;
  ea_pendingId : option string;
  ea_description : option string;
}.

(** The result of [debitAndRecordWithdrawal]. *)
Inductive record_result :=
| Recorded (record : WithdrawalRequest) (newBalance : Z)
| Existing (existing : WithdrawalRequest)
| InsufficientFunds.

(** The record a new withdrawal starts as. *)
Definition fresh_withdrawal (w : NewWithdrawal) (amount : Z) : WithdrawalRequest := {|
  withdrawal_id := nw_withdrawal_id w;
  w_motebit_id := nw_motebit_id w;
  w_amount := amount;
  w_currency := nw_currency w;
  destination := nw_destination w;
  w_status := pending;
  payout_reference := None;
  requested_at := nw_requested_at w;
  completed_at := None;
  failure_reason := None;
  relay_signature := None;
  relay_public_key := None;
  claimed_at := None;
  payout_valid_until := None;
|}.

(** ** Updates of one withdrawal record

    Each transition of the withdrawal lifecycle as the assignments it makes;
    both stores apply the same ones. *)

Definition is_open (w : WithdrawalRequest) : bool := isOpenFrom (w_status w).

Definition with_reference (ref : string) (w : WithdrawalRequest) : WithdrawalRequest := {|
  withdrawal_id := withdrawal_id w; w_motebit_id := w_motebit_id w; w_amount := w_amount w;
  w_currency := w_currency w; destination := destination w; w_status := w_status w;
  payout_reference := Some ref; requested_at := requested_at w;
  completed_at := completed_at w; failure_reason := failure_reason w;
  relay_signature := relay_signature w; relay_public_key := relay_public_key w;
  claimed_at := claimed_at w; payout_valid_until := payout_valid_until w |}.

Definition with_claim (at_ : Z) (until : option Z) (w : WithdrawalRequest) : WithdrawalRequest := {|
  withdrawal_id := withdrawal_id w; w_motebit_id := w_motebit_id w; w_amount := w_amount w;
  w_currency := w_currency w; destination := destination w; w_status := processing;
  payout_reference := payout_reference w; requested_at := requested_at w;
  completed_at := completed_at w; failure_reason := failure_reason w;
  relay_signature := relay_signature w; relay_public_key := relay_public_key w;
  claimed_at := Some at_; payout_valid_until := until |}.

Definition with_signature (sig pk : string) (w : WithdrawalRequest) : WithdrawalRequest := {|
  withdrawal_id := withdrawal_id w; w_motebit_id := w_motebit_id w; w_amount := w_amount w;
  w_currency := w_currency w; destination := destination w; w_status := w_status w;
  payout_reference := payout_reference w; requested_at := requested_at w;
  completed_at := completed_at w; failure_reason := failure_reason w;
  relay_signature := Some sig; relay_public_key := Some pk;
  claimed_at := claimed_at w; payout_valid_until := payout_valid_until w |}.

Definition with_completion (ref : string) (at_ : Z) (w : WithdrawalRequest) : WithdrawalRequest := {|
  withdrawal_id := withdrawal_id w; w_motebit_id := w_motebit_id w; w_amount := w_amount w;
  w_currency := w_currency w; destination := destination w; w_status := completed;
  payout_reference := Some ref; requested_at := requested_at w;
  completed_at := Some at_; failure_reason := None;
  relay_signature := relay_signature w; relay_public_key := relay_public_key w;
  claimed_at := claimed_at w; payout_valid_until := payout_valid_until w |}.

Definition with_failure (reason : string) (at_ : Z) (w : WithdrawalRequest) : WithdrawalRequest := {|
  withdrawal_id := withdrawal_id w; w_motebit_id := w_motebit_id w; w_amount := w_amount w;
  w_currency := w_currency w; destination := destination w; w_status := failed;
  payout_reference := payout_reference w; requested_at := requested_at w;
  completed_at := Some at_; failure_reason := Some reason;
  relay_signature := relay_signature w; relay_public_key := relay_public_key w;
  claimed_at := claimed_at w; payout_valid_until := payout_valid_until w |}.

Definition with_note (note : string) (w : WithdrawalRequest) : WithdrawalRequest := {|
  withdrawal_id := withdrawal_id w; w_motebit_id := w_motebit_id w; w_amount := w_amount w;
  w_currency := w_currency w; destination := destination w; w_status := w_status w;
  payout_reference := payout_reference w; requested_at := requested_at w;
  completed_at := completed_at w; failure_reason := Some note;
  relay_signature := relay_signature w; relay_public_key := relay_public_key w;
  claimed_at := claimed_at w; payout_valid_until := payout_valid_until w |}.

(** ** Guards *)

Lemma assertPositiveMicro_ok n z :
  assertPositiveMicro n = Ok z <-> n = JInt z /\ 1 <= z <= MAX_SAFE_INTEGER.
Proof.
  destruct n as [y|]; cbn; [|split; [done|intros [[=] _]]].
  unfold MAX_SAFE_INTEGER, MIN_POSITIVE_MICRO.
  case_match eqn:E.
  - rewrite andb_true_iff, !bool_decide_eq_true in E. split; [intros [= ->]|intros [[= ->] _]].
    + split; [done|lia].
    + done.
  - rewrite andb_false_iff, !bool_decide_eq_false in E. split; [done|].
    intros [[= ->] ?]. lia.
Qed.

Lemma assertPositiveMicro_cases n :
  (exists z, assertPositiveMicro n = Ok z /\ n = JInt z /\ 1 <= z <= MAX_SAFE_INTEGER) \/
  assertPositiveMicro n = Throw RangeError_not_positive_micro.
Proof.
  destruct (assertPositiveMicro n) as [z|e] eqn:E.
  - left. apply assertPositiveMicro_ok in E. eauto.
  - right. destruct n as [y|]; cbn in E |- *; [case_match|]; congruence.
Qed.
