(* ===== verification/Money.v ===== *)
(** * Dollars and micro-units

    [packages/protocol/src/money.ts]: the conversions between dollars and whole
    micro-units, and the three ways a payment is split with the relays that carried
    it.  Amounts are [number]s, so every product and quotient rounds. *)

From Stdlib Require Import ZArith Lia QArith Lqa.
From Stdlib Require Import Floats.SpecFloat.
From S2P Require Import Prelude Float64 FloatError LedgerTypes.
Local Open Scope Z_scope.

(** What the pricing code throws. *)
Inductive money_error :=
| Error_fee_rate
| Error_negative_allocation
| Error_unsafe_allocation
| Error_completed_exceeds_total
| Error_product_overflow
| Error_negative_net
| Error_batch_inputs.

(** A number as the ledger's guards see it. *)
Definition as_js_number (x : number) : js_number :=
  match x with
  | S754_zero _ => JInt 0
  | S754_finite s m e =>
      if 0 <=? e then JInt (cond_Zopp s (Zpos m * 2 ^ e))
      else if Zpos m mod 2 ^ (- e) =? 0 then JInt (cond_Zopp s (Zpos m / 2 ^ (- e))) else JNonInt
  | S754_infinity _ | S754_nan => JNonInt
  end.

Definition CENTS : Z := 100.

Definition toMicro (dollars : number) : number := Math_round (js_mul dollars (Number MICRO)).
Definition fromMicro (micro : number) : number := js_div micro (Number MICRO).

(** [dollars]: [None] when the request field is not a number. *)
Definition parsePositiveMicro (dollars : option number) : option number :=
  match dollars with
  | None => None
  | Some dollars =>
      if negb (Number_isFinite dollars) then None
      else let micro := toMicro dollars in
           if isPositiveMicro (as_js_number micro) then Some micro else None
  end.

Definition toCents (dollars : number) : number := Math_round (js_mul dollars (Number CENTS)).
Definition fromCents (cents : number) : number := js_div cents (Number CENTS).

(** [feeRate >= 0 && feeRate < 1] *)
Definition valid_fee_rate (feeRate : number) : bool := js_leb (Number 0) feeRate && js_ltb feeRate (Number 1).

Definition computeP2pFeeMicro (netCostMicro feeRate : number) : result money_error number :=
  if negb (valid_fee_rate feeRate) then Throw Error_fee_rate
  else Ok (js_sub (Math_round (js_div netCostMicro (js_sub (Number 1) feeRate))) netCostMicro).

Record SettlementSplitMicro := { netMicro : number; feeMicro : number }.

Definition roundSettlementSplitMicro (netExact feeExact : number) : SettlementSplitMicro :=
  let grossMicro := Math_round (js_add netExact feeExact) in
  let feeMicro := Math_round feeExact in
  {| netMicro := js_sub grossMicro feeMicro; feeMicro := feeMicro |}.

Record FederatedFeeSplit := { originFeeMicro : number; executorFeeMicro : number; workerNetMicro : number }.

Definition computeFederatedFeeSplit (budgetMicro feeRate : number) (executorFeeRate : option number)
    : result money_error FederatedFeeSplit :=
  let executorFeeRate := default feeRate executorFeeRate in
  if negb (valid_fee_rate feeRate) then Throw Error_fee_rate
  else if negb (valid_fee_rate executorFeeRate) then Throw Error_fee_rate
  else
    let originFeeMicro := Math_round (js_mul budgetMicro feeRate) in
    let forwardedMicro := js_sub budgetMicro originFeeMicro in
    let executorFeeMicro := Math_round (js_mul forwardedMicro executorFeeRate) in
    let workerNetMicro := js_sub forwardedMicro executorFeeMicro in
    Ok {| originFeeMicro := originFeeMicro; executorFeeMicro := executorFeeMicro; workerNetMicro := workerNetMicro |}.

(** The forward site's check of the split ([tasks.ts]). *)
Definition conserves_budget (split : FederatedFeeSplit) (budgetMicro : number) : bool :=
  js_eqb (js_add (js_add (workerNetMicro split) (originFeeMicro split)) (executorFeeMicro split)) budgetMicro.

(** ** Rates *)

Lemma ratio_nonneg r : is_ratio r -> nonneg r /\ (Qval r <= 1)%Q.
Proof.
  intros (Hv & H0 & H1). assert (nonneg r) as Hn.
  { destruct r as [s|[]| |[] m e]; try done. }
  split; [done|]. destruct (Number_value 1) as [N1 E1]; [done|].
  apply js_leb_spec in H1; [by rewrite E1 in H1|done|done].
Qed.

Lemma fee_rate_ratio r : is_number r = true -> valid_fee_rate r = true -> is_ratio r.
Proof.
  intros Hv [H0 H1]%andb_true_iff. repeat split; [done|done|]. unfold js_leb, SFleb, js_ltb, SFltb in *.
  by destruct (SFcompare r (Number 1)) as [[]|].
Qed.

Lemma fee_rate_value r : is_number r = true -> valid_fee_rate r = true -> nonneg r /\ (Qval r < 1)%Q.
Proof.
  intros Hv H. destruct (ratio_nonneg r (fee_rate_ratio r Hv H)) as [Hn _]. split; [done|].
  destruct (Number_value 1) as [N1 E1]; [done|].
  apply andb_true_iff in H as [_ H]. apply js_ltb_spec in H; [by rewrite E1 in H|done|done].
Qed.

(** A rounded share of an integer. *)
Lemma rounded_share n r : 0 <= n < 2 ^ 53 -> is_ratio r ->
  exists z, Math_round (js_mul (Number n) r) = Number z /\ 0 <= z <= n /\
            (inject_Z z - 1 <= inject_Z n * Qval r)%Q /\ (inject_Z n * Qval r <= inject_Z z + 1)%Q.
Proof.
  intros Hn Hr. destruct (nonneg_round _ n ltac:(lia) (share_bounds n r Hn Hr)) as (z & E & Hz).
  exists z. split; [unfold Math_round; by rewrite E|]. split; [done|].
  destruct (ratio_nonneg r Hr) as [Nr H1]. destruct (Number_value n Hn) as [Nn Ev]. pose proof (Qval_nonneg r Nr) as H0.
  assert (0 <= inject_Z n)%Q as Hn0 by (rewrite <- (Zle_Qle 0); lia).
  assert (inject_Z n < 9007199254740992)%Q as Hn1 by (change 9007199254740992%Q with (inject_Z (2 ^ 53)); rewrite <- Zlt_Qlt; lia).
  assert (Qval (Number n) * Qval r < pow2 53)%Q as Hlt.
  { rewrite Ev. change (pow2 53) with 9007199254740992%Q. nra. }
  destruct (js_mul_near _ _ 53 Nn Nr ltac:(lia) Hlt) as [Hnn Hlo Hhi]. change (pow2 (53 - 54)) with (1 # 2)%Q in *.
  rewrite Ev in Hlo, Hhi. destruct (Math_round_near _ Hnn) as [z' Hz'].
  { apply (Qle_lt_trans _ 9007199254740993); [nra|done]. }
  pose proof (rt_Z _ _ Hz') as E'. rewrite E in E'. injection E' as <-.
  pose proof (rt_low _ _ Hz'). pose proof (rt_high _ _ Hz'). split; lra.
Qed.

(** ** Conversions *)

Lemma as_js_Number z : 0 <= z < 2 ^ 53 -> as_js_number (Number z) = JInt z.
Proof.
  intros Hz. destruct (Z.eq_dec z 0) as [->|]; [done|].
  destruct (Number_exact z ltac:(lia)) as (p & e & -> & He & Ep). cbn [as_js_number cond_Zopp].
  destruct (Z.leb_spec 0 e).
  - assert (e = 0) as -> by lia. rewrite Ep. cbn. f_equal. lia.
  - pose proof (pow2_pos (- e) ltac:(lia)). by rewrite Ep, Z.mod_mul, Z.div_mul by lia.
Qed.

Lemma MICRO_value : nonneg (Number MICRO) /\ (Qval (Number MICRO) == 1000000)%Q.
Proof. by apply (Number_value 1000000). Qed.

(** A quotient by [MICRO] is zero or far from the smallest numbers. *)
Lemma micro_quotient z : 0 <= z -> (inject_Z z == 0)%Q \/ (pow2 (-1000) <= inject_Z z / 1000000)%Q.
Proof.
  intros Hz. destruct (Z.eq_dec z 0) as [->|]; [by left|right].
  apply (Qle_trans _ (pow2 (-20))); [by apply pow2_le|]. change (pow2 (-20)) with (1 # 1048576)%Q.
  apply Qle_shift_div_l; [done|]. assert (1 <= z) as H by lia. rewrite Zle_Qle in H. change (inject_Z 1) with 1%Q in H. lra.
Qed.

(** Dividing a whole number of micro-units by [MICRO]. *)
Lemma div_micro_near x z k : nonneg x -> (Qval x == inject_Z z)%Q -> 0 <= z -> -900 <= k <= 1000 ->
  (inject_Z z < 1000000 * pow2 k)%Q -> near (js_div x (Number MICRO)) (inject_Z z / 1000000) (pow2 (k - 53)).
Proof.
  intros Hn Ev Hz Hk Hlt. destruct MICRO_value as [Nm Em].
  assert (Qval x / Qval (Number MICRO) == inject_Z z / 1000000)%Q as E by (by rewrite Ev, Em).
  eapply near_eq; [|exact E]. apply js_div_near; [done|done|rewrite Em; done|lia|rewrite E|].
  - apply Qlt_shift_div_r; [done|]. lra.
  - rewrite E, Ev. by apply micro_quotient.
Qed.

Lemma fromMicro_near m : 0 <= m < 2 ^ 50 -> near (fromMicro (Number m)) (inject_Z m / 1000000) (1 # 4194304).
Proof.
  intros Hm. destruct (Number_value m ltac:(lia)) as [Hn Ev].
  apply (div_micro_near (Number m) m 31 Hn Ev); [lia|lia|].
  assert (m < 1000000 * 2 ^ 31) as H by lia. rewrite Zlt_Qlt in H. exact H.
Qed.

(** The product with [MICRO] of a number that lies near an integer of micro-units. *)
Lemma toMicro_whole x m err : 0 <= m < 2 ^ 50 -> near x (inject_Z m / 1000000) err -> (err * 1000000 < 3 # 8)%Q ->
  toMicro x = Number m.
Proof.
  intros Hm [Hn Hlo Hhi] He. destruct MICRO_value as [Nm Em].
  assert (0 <= inject_Z m)%Q as H0 by (rewrite <- (Zle_Qle 0); lia).
  assert (inject_Z m < 1125899906842624)%Q as H1 by (change 1125899906842624%Q with (inject_Z (2 ^ 50)); rewrite <- Zlt_Qlt; lia).
  assert (inject_Z m / 1000000 == inject_Z m * (1 # 1000000))%Q as Eq by done. rewrite Eq in Hlo, Hhi.
  assert (Qval x * Qval (Number MICRO) < pow2 51)%Q as Hlt.
  { rewrite Em. change (pow2 51) with 2251799813685248%Q. lra. }
  destruct (js_mul_near _ _ 51 Hn Nm ltac:(lia) Hlt) as [Np Plo Phi]. change (pow2 (51 - 54)) with (1 # 8)%Q in *.
  rewrite Em in Plo, Phi. destruct (Math_round_near _ Np) as [z Hz].
  { apply (Qle_lt_trans _ 2251799813685248); [lra|done]. }
  unfold toMicro. rewrite (round_Number _ _ Hz). f_equal. apply (rounds_eq _ _ _ Hz); lra.
Qed.

(** ** Properties *)

(** C38: an amount survives the API boundary.  Up to 2^50 micro-units the dollars
    that [fromMicro] sends out convert back to exactly the same micro-units, and
    the boundary parser accepts them just when they move value: the amount it
    returns is then the one the ledger's own guard passes. *)
Theorem micro_roundtrip m : 0 <= m < 2 ^ 50 ->
  toMicro (fromMicro (Number m)) = Number m /\
  (m = 0 -> parsePositiveMicro (Some (fromMicro (Number m))) = None) /\
  (0 < m -> exists micro, parsePositiveMicro (Some (fromMicro (Number m))) = Some micro /\
            assertPositiveMicro (as_js_number micro) = Ok m).
Proof.
  intros Hm. pose proof (fromMicro_near m Hm) as Hn.
  assert (toMicro (fromMicro (Number m)) = Number m) as E by (by eapply toMicro_whole).
  split; [done|]. unfold parsePositiveMicro. rewrite E.
  assert (Number_isFinite (fromMicro (Number m)) = true) as ->.
  { destruct (near_nonneg _ _ _ Hn) as [_ Hx]. by destruct (fromMicro (Number m)). }
  rewrite as_js_Number by lia. cbn [negb]. split.
  - intros ->. done.
  - intros Hpos. assert (isPositiveMicro (JInt m) = true) as Hp.
    { unfold isPositiveMicro, Number_isSafeInteger, MAX_SAFE_INTEGER, MIN_POSITIVE_MICRO. rewrite !bool_decide_true by lia. done. }
    rewrite Hp. eexists. split; [done|]. rewrite as_js_Number by lia. unfold assertPositiveMicro. by rewrite Hp.
Qed.

(** C21: the three legs of a federated payment are whole micro-units, none is
    negative, and they sum to the budget exactly: whatever the two rates, no leg is
    rounded into money that is not there and the forward site's own check of the sum
    never refuses.  Each relay's leg is its rate of what reached it, to within one
    micro-unit.  A rate outside [0, 1) is refused before anything is computed. *)
Theorem federated_split_exact budget feeRate executorRate :
  0 <= budget <= MAX_SAFE_INTEGER -> is_number feeRate = true -> is_number (default feeRate executorRate) = true ->
  if valid_fee_rate feeRate && valid_fee_rate (default feeRate executorRate)
  then exists a b w, computeFederatedFeeSplit (Number budget) feeRate executorRate =
         Ok {| originFeeMicro := Number a; executorFeeMicro := Number b; workerNetMicro := Number w |} /\
       0 <= a /\ 0 <= b /\ 0 <= w /\ a + b + w = budget /\
       conserves_budget {| originFeeMicro := Number a; executorFeeMicro := Number b; workerNetMicro := Number w |} (Number budget) = true /\
       (inject_Z a - 1 <= inject_Z budget * Qval feeRate <= inject_Z a + 1)%Q /\
       (inject_Z b - 1 <= inject_Z (budget - a) * Qval (default feeRate executorRate) <= inject_Z b + 1)%Q
  else computeFederatedFeeSplit (Number budget) feeRate executorRate = Throw Error_fee_rate.
Proof.
  intros HB V1 V2. unfold MAX_SAFE_INTEGER in HB. unfold computeFederatedFeeSplit.
  set (r2 := default feeRate executorRate) in *.
  destruct (valid_fee_rate feeRate) eqn:F1; [|done]. destruct (valid_fee_rate r2) eqn:F2; [|done].
  cbn [negb andb].
  destruct (rounded_share budget feeRate) as (a & Ea & Ha & A1 & A2); [lia|by apply fee_rate_ratio|].
  destruct (rounded_share (budget - a) r2) as (b & Eb & Hb & B1 & B2); [lia|by apply fee_rate_ratio|].
  exists a, b, (budget - a - b). rewrite Ea, js_sub_exact, Eb, js_sub_exact by lia.
  split; [done|]. repeat (split; [lia|]). split; [|done].
  unfold conserves_budget. cbn. rewrite !js_add_exact by lia.
  replace (budget - a - b + a + b) with budget by lia. destruct (Number_value budget ltac:(lia)) as [Hn _].
  by apply js_eqb_spec.
Qed.

(** ** At concrete inputs *)

(** The example of the documentation: a dollar at 5% and 5%. *)
Lemma federated_split_exact_witness : exists a b w,
  computeFederatedFeeSplit (Number 1000000) (js_div (Number 5) (Number 100)) None =
    Ok {| originFeeMicro := Number a; executorFeeMicro := Number b; workerNetMicro := Number w |} /\
  a + b + w = 1000000 /\ 0 <= a /\ 0 <= b /\ 0 <= w.
Proof.
  pose proof (federated_split_exact 1000000 (js_div (Number 5) (Number 100)) None ltac:(by vm_compute) eq_refl eq_refl) as H.
  assert (valid_fee_rate (js_div (Number 5) (Number 100)) = true) as E by (vm_compute; reflexivity).
  change (default (js_div (Number 5) (Number 100)) None) with (js_div (Number 5) (Number 100)) in H.
  rewrite E in H. destruct H as (a & b & w & H & Ha & Hb & Hw & Hs & _).
  exists a, b, w. split; [exact H|]. split; [exact Hs|]. split; [exact Ha|]. split; [exact Hb|exact Hw].
Defined.

Lemma micro_roundtrip_witness : exists micro,
  parsePositiveMicro (Some (fromMicro (Number 19990000))) = Some micro /\ assertPositiveMicro (as_js_number micro) = Ok 19990000.
Proof.
  destruct (micro_roundtrip 19990000 ltac:(lia)) as (_ & _ & H). apply H. lia.
Defined.
