(* ===== verification/MemStore.v ===== *)
(** * The in-memory account store ([packages/virtual-accounts/src/store.ts])

    [InMemoryAccountStore]: its state as a record of the class's fields, one
    definition per method.  The clock reading a method makes ([this._now()]) is
    its argument [now]; the injected hold and sweep functions are section
    variables.  JavaScript runs each method to completion, so a method is one
    function on the state. *)

From S2P Require Import Prelude JsMap JsString LedgerTypes.
Local Open Scope Z_scope.

Record InMemoryAccountStore := {
  accounts : jsmap string VirtualAccount;
  transactions : list AccountTransaction;
  withdrawals : jsmap string WithdrawalRequest;
  idempotencyIndex : jsmap string string;
  pendingWithdrawals : jsmap string PendingRow;
  txnCounter : N;
  pendingCounter : N;
}.

Definition new_mem_store : InMemoryAccountStore := {|
  accounts := []; transactions := []; withdrawals := []; idempotencyIndex := [];
  pendingWithdrawals := []; txnCounter := 0%N; pendingCounter := 0%N |}.

Definition set_accounts a (s : InMemoryAccountStore) : InMemoryAccountStore := {|
  accounts := a; transactions := transactions s; withdrawals := withdrawals s;
  idempotencyIndex := idempotencyIndex s; pendingWithdrawals := pendingWithdrawals s;
  txnCounter := txnCounter s; pendingCounter := pendingCounter s |}.

Definition set_withdrawals w (s : InMemoryAccountStore) : InMemoryAccountStore := {|
  accounts := accounts s; transactions := transactions s; withdrawals := w;
  idempotencyIndex := idempotencyIndex s; pendingWithdrawals := pendingWithdrawals s;
  txnCounter := txnCounter s; pendingCounter := pendingCounter s |}.

Definition set_index i (s : InMemoryAccountStore) : InMemoryAccountStore := {|
  accounts := accounts s; transactions := transactions s; withdrawals := withdrawals s;
  idempotencyIndex := i; pendingWithdrawals := pendingWithdrawals s;
  txnCounter := txnCounter s; pendingCounter := pendingCounter s |}.

Definition set_pending p n (s : InMemoryAccountStore) : InMemoryAccountStore := {|
  accounts := accounts s; transactions := transactions s; withdrawals := withdrawals s;
  idempotencyIndex := idempotencyIndex s; pendingWithdrawals := p;
  txnCounter := txnCounter s; pendingCounter := n |}.

(** [newTxnId] and [transactions.push]. *)
Definition push_txn (motebitId : string) (type : TransactionType) (amount after : Z)
    (ref desc : option string) (now : Z) (s : InMemoryAccountStore) : InMemoryAccountStore :=
  let n := (txnCounter s + 1)%N in
  {| accounts := accounts s;
     transactions := transactions s ++ [{|
       transaction_id := hex_id "txn-mem-" n;
       tx_motebit_id := motebitId;
       tx_type := type;
       tx_amount := amount;
       balance_after := after;
       reference_id := ref;
       tx_description := desc;
       tx_created_at := now |}];
     withdrawals := withdrawals s;
     idempotencyIndex := idempotencyIndex s;
     pendingWithdrawals := pendingWithdrawals s;
     txnCounter := n;
     pendingCounter := pendingCounter s |}.

Definition new_row (motebitId : string) (now : Z) : VirtualAccount := {|
  va_motebit_id := motebitId; va_balance := 0; va_currency := "USD";
  va_created_at := now; va_updated_at := now |}.

Definition with_balance (b now : Z) (row : VirtualAccount) : VirtualAccount := {|
  va_motebit_id := va_motebit_id row; va_balance := b; va_currency := va_currency row;
  va_created_at := va_created_at row; va_updated_at := now |}.

(** [this.accounts.get(id)?.balance ?? 0] *)
Definition balance_of (motebitId : string) (s : InMemoryAccountStore) : Z :=
  match jm_get motebitId (accounts s) with Some row => va_balance row | None => 0 end.

Section mem_store.
Context (unwithdrawableHold unspentGrantHold : string -> Z) (sweepConfig : string -> SweepConfig).

Definition getOrCreateAccount (motebitId : string) (now : Z) (s : InMemoryAccountStore)
    : VirtualAccount * InMemoryAccountStore :=
  match jm_get motebitId (accounts s) with
  | Some existing => (existing, s)
  | None =>
      let row := new_row motebitId now in
      (row, set_accounts (jm_set motebitId row (accounts s)) s)
  end.

Definition getAccount (motebitId : string) (s : InMemoryAccountStore) : option VirtualAccount :=
  jm_get motebitId (accounts s).

Definition credit (motebitId : string) (amount : Z) (type : TransactionType)
    (referenceId description : option string) (now : Z) (s : InMemoryAccountStore)
    : Z * InMemoryAccountStore :=
  let row := match jm_get motebitId (accounts s) with
             | Some row => row
             | None => new_row motebitId now
             end in
  let b := va_balance row + amount in
  let s1 := set_accounts (jm_set motebitId (with_balance b now row) (accounts s)) s in
  (b, push_txn motebitId type amount b referenceId description now s1).

Definition debit (motebitId : string) (amount : Z) (type : TransactionType)
    (referenceId description : option string) (now : Z) (s : InMemoryAccountStore)
    : option Z * InMemoryAccountStore :=
  let '(row, s0) := match jm_get motebitId (accounts s) with
                    | Some row => (row, s)
                    | None => let row := new_row motebitId now in
                              (row, set_accounts (jm_set motebitId row (accounts s)) s)
                    end in
  if decide (va_balance row < amount) then (None, s0) else
  let b := va_balance row - amount in
  let s1 := set_accounts (jm_set motebitId (with_balance b now row) (accounts s0)) s0 in
  (Some b, push_txn motebitId type (- amount) b referenceId description now s1).

Definition debitSpendable (motebitId : string) (amount : Z) (type : TransactionType)
    (referenceId description : option string) (now : Z) (s : InMemoryAccountStore)
    : option Z * InMemoryAccountStore :=
  let hold := unwithdrawableHold motebitId in
  if decide (balance_of motebitId s - hold < amount) then (None, s)
  else debit motebitId amount type referenceId description now s.

(** The comparator of [getTransactions]: newest first, ties by descending id. *)
Definition newest_first (localeCompare : string -> string -> Z) (a b : AccountTransaction) : bool :=
  if decide (tx_created_at b <> tx_created_at a)
  then bool_decide (tx_created_at b - tx_created_at a <= 0)
  else bool_decide (localeCompare (transaction_id b) (transaction_id a) <= 0).

Definition getTransactions (localeCompare : string -> string -> Z) (motebitId : string)
    (limit : nat) (s : InMemoryAccountStore) : list AccountTransaction :=
  take limit (js_sort (newest_first localeCompare)
    (filter (fun t => tx_motebit_id t = motebitId) (transactions s))).

Definition hasDepositWithReference (motebitId referenceId : string) (s : InMemoryAccountStore)
    : bool :=
  existsb (fun t => bool_decide (tx_motebit_id t = motebitId) &&
                    bool_decide (reference_id t = Some referenceId) &&
                    bool_decide (tx_type t = deposit)) (transactions s).

(** One iteration of the loop of [getAllocationHoldRemaining]. *)
Definition hold_step (referenceId : string) (net : Z) (t : AccountTransaction) : Z :=
  if decide (reference_id t <> Some referenceId) then net
  else match tx_type t with
       | allocation_hold | allocation_release => net + tx_amount t
       | _ => net
       end.

Definition getAllocationHoldRemaining (referenceId : string) (s : InMemoryAccountStore) : Z :=
  Z.max 0 (- foldl (hold_step referenceId) 0 (transactions s)).

(** The sidecar index's key, [`${motebit_id}:${idempotency_key}`]. *)
Definition index_key (motebitId key : string) : string :=
  String.append motebitId (String.append ":" key).

Definition insertWithdrawal (w : NewWithdrawal) (amount : Z) (s : InMemoryAccountStore)
    : WithdrawalRequest * InMemoryAccountStore :=
  let record := fresh_withdrawal w amount in
  let s1 := set_withdrawals (jm_set (nw_withdrawal_id w) record (withdrawals s)) s in
  (record,
   match nw_idempotency_key w with
   | Some key =>
       set_index (jm_set (index_key (nw_motebit_id w) key) (nw_withdrawal_id w)
                    (idempotencyIndex s1)) s1
   | None => s1
   end).

(** A guarded assignment to a withdrawal record; [false] when the record is
    missing or the guard fails. *)
Definition update_withdrawal (id : string) (guard : WithdrawalRequest -> bool)
    (f : WithdrawalRequest -> WithdrawalRequest) (s : InMemoryAccountStore)
    : bool * InMemoryAccountStore :=
  match jm_get id (withdrawals s) with
  | Some w =>
      if guard w then (true, set_withdrawals (jm_set id (f w) (withdrawals s)) s) else (false, s)
  | None => (false, s)
  end.

Definition linkWithdrawalTransfer (id payoutReference : string) (s : InMemoryAccountStore)
    : bool * InMemoryAccountStore :=
  update_withdrawal id
    (fun w => (bool_decide (w_status w = pending) || bool_decide (w_status w = processing)) &&
              bool_decide (payout_reference w = None))
    (with_reference payoutReference) s.

Definition setWithdrawalSignature (id signature publicKey : string) (s : InMemoryAccountStore)
    : InMemoryAccountStore :=
  (update_withdrawal id (fun _ => true) (with_signature signature publicKey) s).2.

Definition claimWithdrawalForPayout (id : string) (claimedAt : Z) (payoutValidUntil : option Z)
    (s : InMemoryAccountStore) : bool * InMemoryAccountStore :=
  update_withdrawal id (fun w => bool_decide (w_status w = pending))
    (with_claim claimedAt payoutValidUntil) s.

Definition setWithdrawalCompletion (id payoutReference : string) (completedAt : Z)
    (from : WithdrawalStatus) (s : InMemoryAccountStore) : bool * InMemoryAccountStore :=
  update_withdrawal id (fun w => isOpenFrom from && bool_decide (w_status w = from))
    (with_completion payoutReference completedAt) s.

Definition failure_description (reason : string) : string :=
  String.append "Withdrawal failed: " reason.

Definition failWithdrawalAndRefund (id reason : string) (from : WithdrawalStatus)
    (failedAt now : Z) (s : InMemoryAccountStore)
    : option (string * Z) * InMemoryAccountStore :=
  match jm_get id (withdrawals s) with
  | None => (None, s)
  | Some w =>
      if isOpenFrom from && bool_decide (w_status w = from) then
        let s1 := set_withdrawals
                    (jm_set id (with_failure reason failedAt w) (withdrawals s)) s in
        let '(_, s2) := credit (w_motebit_id w) (w_amount w) withdrawal (Some id)
                          (Some (failure_description reason)) now s1 in
        (Some (w_motebit_id w, w_amount w), s2)
      else (None, s)
  end.

Definition noteWithdrawalPayoutUnresolved (id note : string) (s : InMemoryAccountStore)
    : bool * InMemoryAccountStore :=
  update_withdrawal id (fun w => bool_decide (w_status w = processing)) (with_note note) s.

Definition getWithdrawalById (id : string) (s : InMemoryAccountStore)
    : option WithdrawalRequest :=
  jm_get id (withdrawals s).

(** [if (!id) return null]: an empty id is falsy too. *)
Definition getWithdrawalByIdempotencyKey (motebitId key : string) (s : InMemoryAccountStore)
    : option WithdrawalRequest :=
  match jm_get (index_key motebitId key) (idempotencyIndex s) with
  | Some id => if decide (id = EmptyString) then None else getWithdrawalById id s
  | None => None
  end.

Definition getWithdrawals (motebitId : string) (limit : nat) (s : InMemoryAccountStore)
    : list WithdrawalRequest :=
  take limit (js_sort (fun a b => bool_decide (requested_at b - requested_at a <= 0))
    (filter (fun w => w_motebit_id w = motebitId) (jm_values (withdrawals s)))).

Definition getPendingWithdrawalsAdmin (s : InMemoryAccountStore) : list WithdrawalRequest :=
  js_sort (fun a b => bool_decide (requested_at a - requested_at b <= 0))
    (filter (fun w => w_status w = pending \/ w_status w = processing)
       (jm_values (withdrawals s))).

Definition getPendingWithdrawalsTotal (motebitId : string) (s : InMemoryAccountStore) : Z :=
  foldl (fun sum w => sum + w_amount w) 0
    (filter (fun w => w_motebit_id w = motebitId /\
                      (w_status w = pending \/ w_status w = processing))
       (jm_values (withdrawals s))).

Definition getPendingAllocationsTotal (_ : string) : Z := 0.

Definition getSweepConfig (motebitId : string) : SweepConfig := sweepConfig motebitId.
Definition getUnwithdrawableHold (motebitId : string) : Z := unwithdrawableHold motebitId.
Definition getUnspentGrantHold (motebitId : string) : Z := unspentGrantHold motebitId.

Definition debitAndRecordWithdrawal (w : NewWithdrawal) (description : string) (now : Z)
    (s : InMemoryAccountStore) : result ledger_error (record_result * InMemoryAccountStore) :=
  match assertPositiveMicro (nw_amount w) with
  | Throw e => Throw e
  | Ok amount =>
      match (match nw_idempotency_key w with
             | Some key => getWithdrawalByIdempotencyKey (nw_motebit_id w) key s
             | None => None
             end) with
      | Some existing => Ok (Existing existing, s)
      | None =>
          match debit (nw_motebit_id w) amount withdrawal (Some (nw_withdrawal_id w))
                  (Some description) now s with
          | (None, s1) => Ok (InsufficientFunds, s1)
          | (Some newBalance, s1) =>
              let '(record, s2) := insertWithdrawal w amount s1 in
              Ok (Recorded record newBalance, s2)
          end
      end
  end.

(** [newPendingId] *)
Definition newPendingId (s : InMemoryAccountStore) : string * InMemoryAccountStore :=
  let n := (pendingCounter s + 1)%N in
  (hex_id "pend-mem-" n, set_pending (pendingWithdrawals s) n s).

Definition queue_description (pendingId dest rail : string) : string :=
  String.append "Pending withdrawal " (String.append pendingId
    (String.append " → " (String.append dest (String.append " via " rail)))).

(** The replay scan: the first row of this motebit with this key. *)
Definition find_pending (motebitId key : string) (rows : list PendingRow) : option PendingRow :=
  List.find (fun row => bool_decide (pr_motebitId row = motebitId) &&
                        bool_decide (pr_idempotencyKey row = Some key)) rows.

(** [amount] is the caller's validated integer; the in-memory store does not
    check it. *)
Definition debitAndEnqueuePending (args : EnqueueArgs) (amount now : Z)
    (s : InMemoryAccountStore) : option (string * Z) * InMemoryAccountStore :=
  match (match ea_idempotencyKey args with
         | Some key => find_pending (ea_motebitId args) key (jm_values (pendingWithdrawals s))
         | None => None
         end) with
  | Some row => (Some (pr_pendingId row, balance_of (ea_motebitId args) s), s)
  | None =>
      let '(pendingId, s0) := match ea_pendingId args with
                              | Some id => (id, s)
                              | None => newPendingId s
                              end in
      let desc := match ea_description args with
                  | Some d => d
                  | None => queue_description pendingId (ea_destination args) (ea_rail args)
                  end in
      match debit (ea_motebitId args) amount withdrawal (Some pendingId) (Some desc) now s0 with
      | (None, s1) => (None, s1)
      | (Some newBalance, s1) =>
          (Some (pendingId, newBalance),
           set_pending (jm_set pendingId {|
             pr_pendingId := pendingId;
             pr_motebitId := ea_motebitId args;
             pr_amountMicro := amount;
             pr_destination := ea_destination args;
             pr_rail := ea_rail args;
             pr_source := ea_source args;
             pr_enqueuedAt := now;
             pr_status := q_pending;
             pr_idempotencyKey := ea_idempotencyKey args |} (pendingWithdrawals s1))
             (pendingCounter s1) s1)
      end
  end.
End mem_store.

(** ** Steps

    A step is one call of one mutating method with the clock reading it makes. *)

Inductive ledger_op :=
| OGetOrCreate (id : string)
| OCredit (id : string) (amount : Z) (type : TransactionType) (ref desc : option string)
| ODebit (id : string) (amount : Z) (type : TransactionType) (ref desc : option string)
| ODebitSpendable (id : string) (amount : Z) (type : TransactionType) (ref desc : option string)
| OLink (wid ref : string)
| OClaim (wid : string) (claimedAt : Z) (until : option Z)
| OSign (wid sig pk : string)
| OComplete (wid ref : string) (completedAt : Z) (from : WithdrawalStatus)
| OFail (wid reason : string) (from : WithdrawalStatus) (failedAt : Z)
| ONote (wid note : string)
| ORecord (w : NewWithdrawal) (desc : string)
| OEnqueue (args : EnqueueArgs) (amount : Z).

Definition apply_op (hold : string -> Z) (op : ledger_op) (now : Z) (s : InMemoryAccountStore)
    : InMemoryAccountStore :=
  match op with
  | OGetOrCreate id => (getOrCreateAccount id now s).2
  | OCredit id a ty r d => (credit id a ty r d now s).2
  | ODebit id a ty r d => (debit id a ty r d now s).2
  | ODebitSpendable id a ty r d => (debitSpendable hold id a ty r d now s).2
  | OLink wid r => (linkWithdrawalTransfer wid r s).2
  | OClaim wid c u => (claimWithdrawalForPayout wid c u s).2
  | OSign wid sg pk => setWithdrawalSignature wid sg pk s
  | OComplete wid r c f => (setWithdrawalCompletion wid r c f s).2
  | OFail wid r f fa => (failWithdrawalAndRefund wid r f fa now s).2
  | ONote wid n => (noteWithdrawalPayoutUnresolved wid n s).2
  | ORecord w d =>
      match debitAndRecordWithdrawal w d now s with Ok (_, s') => s' | Throw _ => s end
  | OEnqueue args a => (debitAndEnqueuePending args a now s).2
  end.

(** What the callers owe: amounts are not negative, only the withdrawal
    methods write [withdrawal] rows, a new withdrawal's id is not in use (the
    relay mints UUIDs), and a queue id the caller supplies is not one the
    store could mint. *)
Definition op_ok (op : ledger_op) (s : InMemoryAccountStore) : Prop :=
  match op with
  | OCredit _ a ty _ _ | ODebit _ a ty _ _ | ODebitSpendable _ a ty _ _ =>
      0 <= a /\ ty <> withdrawal
  | ORecord w _ => jm_get (nw_withdrawal_id w) (withdrawals s) = None
  | OEnqueue args a =>
      0 <= a /\
      match ea_pendingId args with
      | Some id => jm_get id (pendingWithdrawals s) = None /\
                   forall n, id <> hex_id "pend-mem-" n
      | None => True
      end
  | _ => True
  end.

(** The stores a sequence of such calls can lead to; the injected hold function
    may answer differently at every call. *)
Inductive reachable : InMemoryAccountStore -> Prop :=
| reach_new : reachable new_mem_store
| reach_step hold op now s : reachable s -> op_ok op s -> reachable (apply_op hold op now s).

(** ** The ledger invariant *)

Definition amount_for (id : string) (t : AccountTransaction) : Z :=
  if decide (tx_motebit_id t = id) then tx_amount t else 0.

(** The signed total of one account's ledger rows. *)
Definition txn_sum (id : string) (l : list AccountTransaction) : Z := zsum (amount_for id) l.

Definition is_withdrawal_txn (t : AccountTransaction) : bool :=
  bool_decide (tx_type t = withdrawal).

(** The part of it that withdrawals moved, and the rest. *)
Definition withdrawal_sum (id : string) (l : list AccountTransaction) : Z :=
  zsum (fun t => if is_withdrawal_txn t then amount_for id t else 0) l.
Definition other_sum (id : string) (l : list AccountTransaction) : Z :=
  zsum (fun t => if is_withdrawal_txn t then 0 else amount_for id t) l.

(** Every row's [balance_after] is the running total of its account. *)
Inductive running : list AccountTransaction -> Prop :=
| running_nil : running []
| running_snoc l t :
    running l -> balance_after t = txn_sum (tx_motebit_id t) (l ++ [t]) -> running (l ++ [t]).

(** What a withdrawal, or a queue row, still takes out of its account. *)
Definition taken (id : string) (w : WithdrawalRequest) : Z :=
  if decide (w_motebit_id w = id) then
    if decide (w_status w = failed) then 0 else w_amount w
  else 0.
Definition queued (id : string) (r : PendingRow) : Z :=
  if decide (pr_motebitId r = id) then pr_amountMicro r else 0.

Definition outstanding (id : string) (s : InMemoryAccountStore) : Z :=
  jm_sum (taken id) (withdrawals s) + jm_sum (queued id) (pendingWithdrawals s).

Record mem_ok (s : InMemoryAccountStore) : Prop := {
  mo_balance : forall id, balance_of id s = txn_sum id (transactions s);
  mo_nonneg : forall id, 0 <= balance_of id s;
  mo_running : running (transactions s);
  mo_txn_ids : transaction_id <$> transactions s =
    (fun n => hex_id "txn-mem-" (N.of_nat n)) <$> seq 1 (length (transactions s));
  mo_counter : txnCounter s = N.of_nat (length (transactions s));
  mo_withdrawals : forall id w, jm_get id (withdrawals s) = Some w ->
    withdrawal_id w = id /\ 0 <= w_amount w;
  mo_queue : forall id r, jm_get id (pendingWithdrawals s) = Some r ->
    pr_pendingId r = id /\ 0 <= pr_amountMicro r /\
    forall n, id = hex_id "pend-mem-" n -> (n <= pendingCounter s)%N;
  mo_conserved : forall id, withdrawal_sum id (transactions s) = - outstanding id s;
}.

Section invariant.
Lemma txn_sum_split id l : txn_sum id l = withdrawal_sum id l + other_sum id l.
Proof.
  unfold txn_sum, withdrawal_sum, other_sum. rewrite <- zsum_add.
  apply zsum_ext. intros t _. destruct (is_withdrawal_txn t); lia.
Qed.

Lemma txn_sum_snoc id l t : txn_sum id (l ++ [t]) = txn_sum id l + amount_for id t.
Proof. unfold txn_sum. rewrite zsum_app. cbn. lia. Qed.

Lemma new_ok : mem_ok new_mem_store.
Proof. by constructor; try constructor. Qed.

(** The balance and ledger row of one account moving by [amt]; the withdrawals
    and the queue may move with it. *)
Lemma move_ok id row ty amt ref desc now s s' :
  mem_ok s ->
  va_balance row = balance_of id s ->
  0 <= balance_of id s + amt ->
  accounts s' = accounts s \/ accounts s' = jm_set id row (accounts s) ->
  transactions s' = transactions s -> txnCounter s' = txnCounter s ->
  (forall wid w, jm_get wid (withdrawals s') = Some w -> withdrawal_id w = wid /\ 0 <= w_amount w) ->
  (forall qid r, jm_get qid (pendingWithdrawals s') = Some r ->
     pr_pendingId r = qid /\ 0 <= pr_amountMicro r /\
     forall n, qid = hex_id "pend-mem-" n -> (n <= pendingCounter s')%N) ->
  (forall i, outstanding i s' = outstanding i s -
     (if decide (ty = withdrawal) then if decide (id = i) then amt else 0 else 0)) ->
  mem_ok (push_txn id ty amt (balance_of id s + amt) ref desc now
            (set_accounts (jm_set id (with_balance (balance_of id s + amt) now row)
                             (accounts s')) s')).
Proof.
  intros [] Hrow Hpos Hacc Htx Hcnt Hwd Hq Hout.
  assert (forall i, balance_of i (push_txn id ty amt (balance_of id s + amt) ref desc now
            (set_accounts (jm_set id (with_balance (balance_of id s + amt) now row)
                             (accounts s')) s'))
          = balance_of i s + if decide (id = i) then amt else 0) as Hbal.
  { intros i. unfold balance_of at 1. cbn. rewrite jm_get_set.
    destruct (decide (i = id)) as [->|Hne]; [by rewrite decide_True by done|].
    rewrite (decide_False (P := id = i)) by congruence. unfold balance_of.
    destruct Hacc as [-> | ->]; [lia|]. rewrite jm_get_set_ne by done. lia. }
  constructor.
  - intros i. rewrite Hbal. cbn [push_txn transactions set_accounts]. rewrite Htx, txn_sum_snoc.
    rewrite mo_balance0. unfold amount_for. cbn. case_decide; done.
  - intros i. rewrite Hbal. specialize (mo_nonneg0 i). destruct (decide (id = i)) as [<-|]; lia.
  - cbn [push_txn transactions set_accounts]. rewrite Htx. constructor; [done|].
    rewrite txn_sum_snoc. cbn. unfold amount_for. cbn. rewrite decide_True by done.
    by rewrite mo_balance0.
  - cbn [push_txn transactions set_accounts txnCounter]. rewrite Htx, Hcnt.
    rewrite fmap_app, length_app, seq_app, fmap_app, mo_txn_ids0. f_equal. cbn.
    do 2 f_equal. rewrite mo_counter0. lia.
  - cbn [push_txn transactions set_accounts txnCounter]. rewrite Htx, Hcnt, length_app, mo_counter0.
    cbn. lia.
  - exact Hwd.
  - exact Hq.
  - intros i. cbn [push_txn transactions set_accounts]. rewrite Htx.
    unfold withdrawal_sum. rewrite zsum_app. fold (withdrawal_sum i (transactions s)).
    change (outstanding i (push_txn _ _ _ _ _ _ _ _)) with (outstanding i s').
    rewrite mo_conserved0, Hout. unfold is_withdrawal_txn, amount_for. cbn.
    destruct (decide (ty = withdrawal)) as [->|Hty].
    + rewrite bool_decide_eq_true_2 by done. case_decide; lia.
    + rewrite bool_decide_eq_false_2 by done. lia.
Qed.

(** A step that moves no money. *)
Lemma frame_ok s s' :
  mem_ok s ->
  transactions s' = transactions s -> txnCounter s' = txnCounter s ->
  (forall id, balance_of id s' = balance_of id s) ->
  (forall wid w, jm_get wid (withdrawals s') = Some w -> withdrawal_id w = wid /\ 0 <= w_amount w) ->
  (forall qid r, jm_get qid (pendingWithdrawals s') = Some r ->
     pr_pendingId r = qid /\ 0 <= pr_amountMicro r /\
     forall n, qid = hex_id "pend-mem-" n -> (n <= pendingCounter s')%N) ->
  (forall i, outstanding i s' = outstanding i s) ->
  mem_ok s'.
Proof.
  intros [] Htx Hcnt Hbal Hwd Hq Hout. constructor; try done; rewrite ?Htx, ?Hcnt; try done.
  - intros id. by rewrite Hbal.
  - intros id. by rewrite Hbal.
  - intros id. by rewrite Hout.
Qed.

Lemma balance_of_new_row id now i s :
  jm_get id (accounts s) = None ->
  balance_of i (set_accounts (jm_set id (new_row id now) (accounts s)) s) = balance_of i s.
Proof.
  intros E. unfold balance_of. cbn. rewrite jm_get_set. case_decide; [|done]. subst. by rewrite E.
Qed.

Lemma new_row_ok id now s :
  mem_ok s -> jm_get id (accounts s) = None ->
  mem_ok (set_accounts (jm_set id (new_row id now) (accounts s)) s).
Proof.
  intros Hok E. pose proof Hok as [].
  eapply frame_ok; try done. intros i. by apply balance_of_new_row.
Qed.

(** Rewriting one withdrawal record into one that takes as much out. *)
Lemma update_ok wid guard f s :
  mem_ok s ->
  (forall w, guard w = true -> withdrawal_id (f w) = withdrawal_id w /\
     w_amount (f w) = w_amount w /\ forall i, taken i (f w) = taken i w) ->
  mem_ok (update_withdrawal wid guard f s).2.
Proof.
  intros Hok Hf. unfold update_withdrawal.
  destruct (jm_get wid (withdrawals s)) as [w|] eqn:E; [|done].
  destruct (guard w) eqn:G; [|done]. destruct (Hf w G) as (Hid & Ham & Hta).
  pose proof Hok as []. eapply frame_ok; cbn; try done.
  - intros wid' w'. rewrite jm_get_set. destruct (decide (wid' = _)) as [->|]; [|apply mo_withdrawals0].
    intros [= <-]. destruct (mo_withdrawals0 _ _ E). by rewrite Hid, Ham.
  - intros i. unfold outstanding. cbn. rewrite jm_sum_set. unfold jm_at. rewrite E, Hta. lia.
Qed.

Lemma credit_ok id amt ty ref desc now s s' :
  mem_ok s -> 0 <= balance_of id s + amt ->
  accounts s' = accounts s -> transactions s' = transactions s -> txnCounter s' = txnCounter s ->
  (forall wid w, jm_get wid (withdrawals s') = Some w -> withdrawal_id w = wid /\ 0 <= w_amount w) ->
  (forall qid r, jm_get qid (pendingWithdrawals s') = Some r ->
     pr_pendingId r = qid /\ 0 <= pr_amountMicro r /\
     forall n, qid = hex_id "pend-mem-" n -> (n <= pendingCounter s')%N) ->
  (forall i, outstanding i s' = outstanding i s -
     (if decide (ty = withdrawal) then if decide (id = i) then amt else 0 else 0)) ->
  mem_ok (credit id amt ty ref desc now s').2.
Proof.
  intros Hok Hpos Hacc Htx Hcnt Hwd Hq Hout. unfold credit. rewrite Hacc. cbn [snd].
  destruct (jm_get id (accounts s)) as [row|] eqn:E.
  - assert (va_balance row = balance_of id s) as Hrow by (unfold balance_of; by rewrite E).
    rewrite Hrow. rewrite <- Hacc. by apply (move_ok id row ty amt ref desc now s s'); auto.
  - assert (balance_of id s = 0) as Hz by (unfold balance_of; by rewrite E).
    change (va_balance (new_row id now)) with 0. rewrite <- Hz, <- Hacc.
    by apply (move_ok id (new_row id now) ty amt ref desc now s s'); auto.
Qed.

(** [debit] either refuses, leaving balances alone, or moves [- amt]. *)
Lemma debit_cases id amt ty ref desc now s :
  (balance_of id s < amt /\ (debit id amt ty ref desc now s).1 = None /\
   ((debit id amt ty ref desc now s).2 = s \/
    jm_get id (accounts s) = None /\
    (debit id amt ty ref desc now s).2
    = set_accounts (jm_set id (new_row id now) (accounts s)) s)) \/
  (amt <= balance_of id s /\ exists row acc,
   va_balance row = balance_of id s /\
   (acc = accounts s \/ acc = jm_set id row (accounts s)) /\
   debit id amt ty ref desc now s =
     (Some (balance_of id s - amt),
      push_txn id ty (- amt) (balance_of id s - amt) ref desc now
        (set_accounts (jm_set id (with_balance (balance_of id s - amt) now row) acc)
           (set_accounts acc s)))).
Proof.
  unfold debit, balance_of. destruct (jm_get id (accounts s)) as [row|] eqn:E; case_decide as D.
  - left. split; [done|]. split; [done|]. by left.
  - right. split; [lia|]. exists row, (accounts s). split; [done|]. split; [by left|]. done.
  - left. cbn in D. split; [done|]. split; [done|]. right. done.
  - right. cbn in D. split; [lia|]. exists (new_row id now), (jm_set id (new_row id now) (accounts s)).
    split; [done|]. split; [by right|]. cbn. by rewrite jm_set_set.
Qed.

Lemma taken_fresh i w z :
  taken i (fresh_withdrawal w z) = if decide (nw_motebit_id w = i) then z else 0.
Proof. unfold taken. cbn. by rewrite (decide_False (P := pending = failed)). Qed.

Lemma taken_live i w w' :
  w_motebit_id w' = w_motebit_id w -> w_amount w' = w_amount w ->
  w_status w <> failed -> w_status w' <> failed -> taken i w' = taken i w.
Proof. intros Hm Ha Hs Hs'. unfold taken. rewrite Hm, Ha. by rewrite !(decide_False (P := _ = failed)). Qed.

(** A debit of [amt] whose withdrawals or queue (those of [s']) take out the
    [amt] more that a [withdrawal] row records. *)
Lemma debit_move_ok id amt ty ref desc now s row acc s' :
  mem_ok s -> amt <= balance_of id s ->
  va_balance row = balance_of id s ->
  acc = accounts s \/ acc = jm_set id row (accounts s) ->
  accounts s' = acc -> transactions s' = transactions s -> txnCounter s' = txnCounter s ->
  (forall wid w, jm_get wid (withdrawals s') = Some w -> withdrawal_id w = wid /\ 0 <= w_amount w) ->
  (forall qid r, jm_get qid (pendingWithdrawals s') = Some r ->
     pr_pendingId r = qid /\ 0 <= pr_amountMicro r /\
     forall n, qid = hex_id "pend-mem-" n -> (n <= pendingCounter s')%N) ->
  (forall i, outstanding i s' = outstanding i s +
     (if decide (ty = withdrawal) then if decide (id = i) then amt else 0 else 0)) ->
  mem_ok (push_txn id ty (- amt) (balance_of id s - amt) ref desc now
            (set_accounts (jm_set id (with_balance (balance_of id s - amt) now row) acc) s')).
Proof.
  intros Hok Hle Hrow Hacc <- Htx Hcnt Hwd Hq Hout.
  change (balance_of id s - amt) with (balance_of id s + - amt).
  apply (move_ok id row ty (- amt)); try done; [lia|].
  intros i. rewrite Hout. repeat case_decide; lia.
Qed.

Lemma debit_ok id amt ty ref desc now s :
  mem_ok s -> ty <> withdrawal -> mem_ok (debit id amt ty ref desc now s).2.
Proof.
  intros Hok Hty. pose proof Hok as [].
  destruct (debit_cases id amt ty ref desc now s)
    as [(_ & _ & [->|[E ->]])|(Hle & row & acc & Hrow & Hacc & ->)].
  - done.
  - by apply new_row_ok.
  - cbn [snd]. eapply debit_move_ok; try done.
    intros i. rewrite decide_False by done. cbn. unfold outstanding; cbn. lia.
Qed.

Lemma fail_ok wid reason from fa now s :
  mem_ok s -> mem_ok (failWithdrawalAndRefund wid reason from fa now s).2.
Proof.
  intros Hok. pose proof Hok as []. unfold failWithdrawalAndRefund.
  destruct (jm_get wid (withdrawals s)) as [w|] eqn:E; [|done].
  destruct (isOpenFrom from && bool_decide (w_status w = from)) eqn:G; [|done].
  apply andb_true_iff in G as [Hopen Hst%bool_decide_eq_true].
  destruct (mo_withdrawals0 _ _ E) as [Hid Hamt].
  match goal with |- context [credit ?a ?b ?c ?d ?e ?f ?g] =>
    pose proof (credit_ok a b c d e f s g Hok) as Hc; destruct (credit a b c d e f g) as [nb s2] end.
  cbn [snd] in *. specialize (mo_nonneg0 (w_motebit_id w)). apply Hc; cbn; try done; [lia| |].
  - intros wid' w'. rewrite jm_get_set. destruct (decide (wid' = _)) as [->|]; [|apply mo_withdrawals0].
    intros [= <-]. done.
  - intros i. unfold outstanding. cbn [withdrawals pendingWithdrawals set_withdrawals].
    rewrite jm_sum_set. unfold jm_at. rewrite E. unfold taken at 2 3. cbn.
    rewrite (decide_False (P := w_status w = failed))
      by (intros F; by rewrite <- Hst, F in Hopen).
    rewrite (decide_True (P := withdrawal = withdrawal)) by done.
    rewrite (decide_True (P := failed = failed)) by done.
    destruct (decide (w_motebit_id w = i)); lia.
Qed.

Lemma record_ok w desc now s :
  mem_ok s -> jm_get (nw_withdrawal_id w) (withdrawals s) = None ->
  match debitAndRecordWithdrawal w desc now s with
  | Ok (_, s') => mem_ok s'
  | Throw _ => True
  end.
Proof.
  intros Hok Hfresh. pose proof Hok as []. unfold debitAndRecordWithdrawal.
  destruct (assertPositiveMicro_cases (nw_amount w)) as [(z & -> & _ & Hz)| ->]; [|done].
  destruct (match nw_idempotency_key w with Some _ => _ | None => _ end); [done|].
  destruct (debit_cases (nw_motebit_id w) z withdrawal (Some (nw_withdrawal_id w)) (Some desc) now s)
    as [(_ & Hn & Hs)|(Hle & row & acc & Hrow & Hacc & ->)].
  - destruct (debit _ _ _ _ _ _ _) as [r s1]. cbn in Hn, Hs. subst r.
    destruct Hs as [->|[E ->]]; [done|by apply new_row_ok].
  - assert (forall i s1, outstanding i (set_withdrawals
              (jm_set (nw_withdrawal_id w) (fresh_withdrawal w z) (withdrawals s)) s1)
            = jm_sum (taken i) (withdrawals s) + jm_sum (queued i) (pendingWithdrawals s1) +
              if decide (nw_motebit_id w = i) then z else 0) as Hout.
    { intros i s1. unfold outstanding. cbn [withdrawals pendingWithdrawals set_withdrawals].
      rewrite jm_sum_set. unfold jm_at. rewrite Hfresh, taken_fresh. lia. }
    set (wds := jm_set (nw_withdrawal_id w) (fresh_withdrawal w z) (withdrawals s)) in *.
    set (s0 := set_withdrawals wds (set_accounts acc s)).
    assert (forall wid w', jm_get wid wds = Some w' -> withdrawal_id w' = wid /\ 0 <= w_amount w')
      as Hwds.
    { intros wid w'. unfold wds. rewrite jm_get_set.
      destruct (decide (wid = _)) as [->|]; [|apply mo_withdrawals0].
      intros [= <-]. cbn. split; [done|lia]. }
    assert (forall i, outstanding i s0 = outstanding i s +
              (if decide (withdrawal = withdrawal)
               then if decide (nw_motebit_id w = i) then z else 0 else 0)) as Hout0.
    { intros i. rewrite decide_True by done. apply (Hout i (set_accounts acc s)). }
    unfold insertWithdrawal. destruct (nw_idempotency_key w) as [key|].
    + exact (debit_move_ok (nw_motebit_id w) z withdrawal (Some (nw_withdrawal_id w)) (Some desc)
        now s row acc (set_index (jm_set (index_key (nw_motebit_id w) key) (nw_withdrawal_id w)
                                    (idempotencyIndex s)) s0)
        Hok Hle Hrow Hacc eq_refl eq_refl eq_refl Hwds mo_queue0 Hout0).
    + exact (debit_move_ok (nw_motebit_id w) z withdrawal (Some (nw_withdrawal_id w)) (Some desc)
        now s row acc s0 Hok Hle Hrow Hacc eq_refl eq_refl eq_refl Hwds mo_queue0 Hout0).
Qed.

Lemma find_pending_elem id key rows r :
  find_pending id key rows = Some r -> r ∈ rows.
Proof. intros H%List.find_some. apply list_elem_of_In. apply H. Qed.

(** The id a new queue row gets, and the store that holds its counter. *)
Definition enqueue_id (args : EnqueueArgs) (s : InMemoryAccountStore)
    : string * InMemoryAccountStore :=
  match ea_pendingId args with Some id => (id, s) | None => newPendingId s end.

Lemma enqueue_id_ok args a s :
  mem_ok s -> op_ok (OEnqueue args a) s ->
  let '(qid, s0) := enqueue_id args s in
  mem_ok s0 /\ (forall i, balance_of i s0 = balance_of i s) /\
  jm_get qid (pendingWithdrawals s0) = None /\
  (forall n, qid = hex_id "pend-mem-" n -> (n <= pendingCounter s0)%N).
Proof.
  intros Hok [Ha Hid]. pose proof Hok as []. unfold enqueue_id.
  destruct (ea_pendingId args) as [qid|].
  - destruct Hid as [Hfresh Hne]. split; [done|]. split; [done|]. split; [done|].
    intros n ->. by destruct (Hne n).
  - unfold newPendingId. split; [|split; [done|split]].
    + eapply frame_ok; try done. intros qid r Hr. destruct (mo_queue0 _ _ Hr) as (? & ? & Hn).
      split; [done|]. split; [done|]. intros n Hq. specialize (Hn n Hq). cbn. lia.
    + cbn. destruct (jm_get _ _) as [r|] eqn:E; [|done].
      destruct (mo_queue0 _ _ E) as (_ & _ & Hn). specialize (Hn _ eq_refl). lia.
    + cbn. intros n Hn%hex_id_inj. lia.
Qed.

Lemma enqueue_ok args a now s :
  mem_ok s -> op_ok (OEnqueue args a) s -> mem_ok (debitAndEnqueuePending args a now s).2.
Proof.
  intros Hok Hop. pose proof (enqueue_id_ok args a s Hok Hop) as Hid. unfold debitAndEnqueuePending.
  destruct (match ea_idempotencyKey args with Some _ => _ | None => _ end); [done|].
  fold (enqueue_id args s). destruct (enqueue_id args s) as [qid s0].
  destruct Hid as (Hok0 & Hbal & Hfresh & Hn). pose proof Hok0 as [].
  destruct Hop as [Ha _].
  destruct (debit_cases (ea_motebitId args) a withdrawal (Some qid)
      (Some match ea_description args with
            | Some d => d
            | None => queue_description qid (ea_destination args) (ea_rail args)
            end) now s0)
    as [(_ & Hnone & Hs)|(Hle & row & acc & Hrow & Hacc & ->)].
  - destruct (debit _ _ _ _ _ _ _) as [r s1]. cbn in Hnone, Hs. subst r.
    destruct Hs as [->|[E ->]]; [done|by apply new_row_ok].
  - cbn [snd]. match goal with |- context [jm_set qid ?r _] => set (row' := r) end.
    set (q := jm_set qid row' (pendingWithdrawals s0)).
    refine (debit_move_ok (ea_motebitId args) a withdrawal _ _ now s0 row acc
        (set_pending q (pendingCounter s0) (set_accounts acc s0))
        Hok0 Hle Hrow Hacc eq_refl eq_refl eq_refl mo_withdrawals0 _ _).
    + intros qid' r'. cbn. unfold q. rewrite jm_get_set.
      destruct (decide (qid' = qid)) as [->|]; [|apply mo_queue0]. by intros [= <-].
    + intros i. rewrite decide_True by done. unfold outstanding. cbn [pendingWithdrawals set_pending
        withdrawals set_accounts]. unfold q. rewrite jm_sum_set. unfold jm_at. rewrite Hfresh.
      unfold queued at 2. cbn. lia.
Qed.

Lemma ledger_op_ok hold op now s : mem_ok s -> op_ok op s -> mem_ok (apply_op hold op now s).
Proof.
  intros Hok Hop. pose proof Hok as []. destruct op; cbn in Hop |- *.
  - unfold getOrCreateAccount. destruct (jm_get id (accounts s)) eqn:E; [done|].
    cbn [snd]. by apply new_row_ok.
  - destruct Hop as [Ha Hty]. specialize (mo_nonneg0 id). apply (credit_ok _ _ _ _ _ _ s s); try done; try lia.
    intros i. rewrite decide_False by done. lia.
  - destruct Hop. by apply debit_ok.
  - destruct Hop. unfold debitSpendable. case_decide; [done|]. by apply debit_ok.
  - apply update_ok; [done|]. done.
  - apply update_ok; [done|]. intros w Hw%bool_decide_eq_true. split; [done|]. split; [done|].
    intros i. by apply taken_live; rewrite ?Hw.
  - apply update_ok; [done|]. done.
  - apply update_ok; [done|].
    intros w [Hf Hw%bool_decide_eq_true]%andb_true_iff. split; [done|]. split; [done|].
    intros i. apply taken_live; rewrite ?Hw; by destruct from.
  - by apply fail_ok.
  - apply update_ok; [done|]. done.
  - pose proof (record_ok w desc now s Hok Hop) as H.
    by destruct (debitAndRecordWithdrawal w desc now s) as [[r s']|e].
  - by apply enqueue_ok.
Qed.

Lemma ledger_reachable_ok s : reachable s -> mem_ok s.
Proof. induction 1 as [|hold op now s _ IH Hop]; [apply new_ok|by apply ledger_op_ok]. Qed.
End invariant.

(** ** The withdrawal state machine *)

Inductive status_edge : WithdrawalStatus -> WithdrawalStatus -> Prop :=
| edge_stay st : status_edge st st
| edge_claim : status_edge pending processing
| edge_complete st : isOpenFrom st = true -> status_edge st completed
| edge_fail st : isOpenFrom st = true -> status_edge st failed.

(** What a step may do to a stored withdrawal: follow an edge; the identity,
    owner, amount and destination never change, and a terminal record keeps its
    completion. *)
Record lifecycle (w w' : WithdrawalRequest) : Prop := {
  lc_edge : status_edge (w_status w) (w_status w');
  lc_id : withdrawal_id w' = withdrawal_id w;
  lc_owner : w_motebit_id w' = w_motebit_id w;
  lc_amount : w_amount w' = w_amount w;
  lc_destination : destination w' = destination w;
  lc_terminal : isOpenFrom (w_status w) = false ->
    completed_at w' = completed_at w /\ payout_reference w' = payout_reference w /\
    failure_reason w' = failure_reason w;
}.

Section lifecycle.
Lemma lifecycle_refl w : lifecycle w w.
Proof. by constructor; try constructor. Qed.

Lemma update_lifecycle wid w id guard f s :
  (forall v, guard v = true -> lifecycle v (f v)) ->
  jm_get wid (withdrawals s) = Some w ->
  exists w', jm_get wid (withdrawals (update_withdrawal id guard f s).2) = Some w' /\ lifecycle w w'.
Proof.
  intros Hf Hw. unfold update_withdrawal.
  destruct (jm_get id (withdrawals s)) as [v|] eqn:E; [|eauto using lifecycle_refl].
  destruct (guard v) eqn:G; [|eauto using lifecycle_refl]. cbn. rewrite jm_get_set.
  case_decide; [|eauto using lifecycle_refl]. subst. rewrite E in Hw. injection Hw as <-. eauto.
Qed.

Lemma debit_withdrawals id amt ty ref desc now s :
  withdrawals (debit id amt ty ref desc now s).2 = withdrawals s.
Proof. unfold debit. destruct (jm_get id (accounts s)); by case_decide. Qed.

Lemma record_lifecycle wid w nw desc now s :
  jm_get (nw_withdrawal_id nw) (withdrawals s) = None ->
  jm_get wid (withdrawals s) = Some w ->
  match debitAndRecordWithdrawal nw desc now s with
  | Ok (_, s') => jm_get wid (withdrawals s') = Some w
  | Throw _ => True
  end.
Proof.
  intros Hfresh Hw. unfold debitAndRecordWithdrawal.
  destruct (assertPositiveMicro (nw_amount nw)) as [amt|e]; [|done].
  destruct (match nw_idempotency_key nw with Some _ => _ | None => _ end); [done|].
  pose proof (debit_withdrawals (nw_motebit_id nw) amt withdrawal (Some (nw_withdrawal_id nw))
    (Some desc) now s) as Hd.
  destruct (debit _ _ _ _ _ _ _) as [[nb|] s1]; cbn in Hd; [|by rewrite Hd].
  unfold insertWithdrawal. destruct (nw_idempotency_key nw); cbn; rewrite Hd;
    (rewrite jm_get_set_ne; [done|congruence]).
Qed.

Lemma enqueue_withdrawals args a now s :
  withdrawals (debitAndEnqueuePending args a now s).2 = withdrawals s.
Proof.
  unfold debitAndEnqueuePending. destruct (match ea_idempotencyKey args with Some _ => _ | None => _ end);
    [done|]. fold (enqueue_id args s).
  assert (withdrawals (enqueue_id args s).2 = withdrawals s) as He
    by (unfold enqueue_id; by destruct (ea_pendingId args)).
  destruct (enqueue_id args s) as [qid s0]. cbn in He.
  match goal with |- context [debit ?a ?b ?c ?d ?e ?f ?g] =>
    pose proof (debit_withdrawals a b c d e f g) as Hd; destruct (debit a b c d e f g) as [[nb|] s1] end;
    cbn in Hd |- *; congruence.
Qed.

Lemma apply_lifecycle hold op now s wid w :
  op_ok op s -> jm_get wid (withdrawals s) = Some w ->
  exists w', jm_get wid (withdrawals (apply_op hold op now s)) = Some w' /\ lifecycle w w'.
Proof.
  intros Hop Hw. destruct op; cbn in Hop |- *.
  - unfold getOrCreateAccount. destruct (jm_get id (accounts s)); eauto using lifecycle_refl.
  - eauto using lifecycle_refl.
  - rewrite debit_withdrawals. eauto using lifecycle_refl.
  - unfold debitSpendable. case_decide; [eauto using lifecycle_refl|].
    rewrite debit_withdrawals. eauto using lifecycle_refl.
  - apply update_lifecycle; [|done]. intros v [Hv _]%andb_true_iff.
    rewrite orb_true_iff, !bool_decide_eq_true in Hv. constructor; cbn; try done; [constructor|].
    intros F. destruct Hv as [Hv|Hv]; by rewrite Hv in F.
  - apply update_lifecycle; [|done]. intros v Hv%bool_decide_eq_true.
    constructor; cbn; try done; rewrite Hv; constructor.
  - apply update_lifecycle; [|done]. intros v _. constructor; cbn; try done. constructor.
  - apply update_lifecycle; [|done]. intros v [Hf Hv%bool_decide_eq_true]%andb_true_iff.
    constructor; cbn; try done; rewrite Hv; [by constructor|congruence].
  - unfold failWithdrawalAndRefund. destruct (jm_get wid0 (withdrawals s)) as [v|] eqn:E;
      [|eauto using lifecycle_refl].
    destruct (isOpenFrom from && bool_decide (w_status v = from)) eqn:G; [|eauto using lifecycle_refl].
    apply andb_true_iff in G as [Hf Hv%bool_decide_eq_true]. cbn. rewrite jm_get_set.
    case_decide; [|eauto using lifecycle_refl]. subst wid0. rewrite E in Hw. injection Hw as <-.
    eexists. split; [done|]. constructor; cbn; try done; rewrite Hv; [by constructor|congruence].
  - apply update_lifecycle; [|done]. intros v Hv%bool_decide_eq_true.
    constructor; cbn; try done; rewrite Hv; [constructor|done].
  - pose proof (record_lifecycle wid w w0 desc now s Hop Hw) as H.
    destruct (debitAndRecordWithdrawal w0 desc now s) as [[r s']|e]; eauto using lifecycle_refl.
  - rewrite enqueue_withdrawals. eauto using lifecycle_refl.
Qed.
End lifecycle.

(** * Properties *)

(** After any sequence of ledger calls whose callers keep their side (no
    negative amount, fresh withdrawal ids), every account's balance is the sum
    of its ledger rows, is not negative, and every row's [balance_after] is the
    running balance of its account at that row. *)
Theorem ledger_equation s :
  reachable s ->
  (forall id, balance_of id s = txn_sum id (transactions s) /\ 0 <= balance_of id s) /\
  running (transactions s).
Proof.
  intros [Hb Hn Hr _ _ _ _ _]%ledger_reachable_ok. split; [|done]. intros id. by split.
Qed.

Definition demo_withdrawal (wid : string) (amount : Z) (key : option string) : NewWithdrawal := {|
  nw_withdrawal_id := wid; nw_motebit_id := "alice"; nw_amount := JInt amount;
  nw_currency := "USD"; nw_destination := "wallet"; nw_idempotency_key := key;
  nw_requested_at := 7 |}.

Definition no_hold (_ : string) : Z := 0.

(** A deposit, a spend, a withdrawal that is claimed and fails, and a second
    one that completes. *)
Definition demo_store : InMemoryAccountStore :=
  apply_op no_hold (OComplete "w2" "tx" 60 pending) 60
  (apply_op no_hold (ORecord (demo_withdrawal "w2" 200 None) "again") 50
  (apply_op no_hold (OFail "w1" "rail down" processing 40) 40
  (apply_op no_hold (OClaim "w1" 30 None) 30
  (apply_op no_hold (ORecord (demo_withdrawal "w1" 300 (Some "k")%string) "first") 20
  (apply_op no_hold (ODebit "alice" 100 fee None None) 15
  (apply_op no_hold (OCredit "alice" 1000 deposit None None) 10 new_mem_store)))))).

Lemma demo_store_reachable : reachable demo_store.
Proof.
  repeat (apply reach_step; [|vm_compute; try done; repeat split; discriminate]). constructor.
Defined.

Lemma ledger_equation_witness :
  balance_of "alice"%string demo_store = 700 /\
  balance_of "alice"%string demo_store = txn_sum "alice" (transactions demo_store).
Proof.
  split; [vm_compute; reflexivity|].
  apply (ledger_equation demo_store demo_store_reachable).
Defined.

(** Conservation through the withdrawal lifecycle.  An account's balance is
    the net of its non-withdrawal rows less the amounts of its withdrawals that
    have not failed and of its queue rows: whatever order of requests, claims,
    completions, failures, replays and enqueues led there, no micro-unit is
    minted or lost and no failed withdrawal is refunded twice. *)
Theorem withdrawals_conserve s id :
  reachable s ->
  balance_of id s = other_sum id (transactions s) - outstanding id s.
Proof.
  intros [Hb _ _ _ _ _ _ Hc]%ledger_reachable_ok. rewrite Hb, txn_sum_split, Hc. lia.
Qed.

Lemma withdrawals_conserve_witness :
  outstanding "alice" demo_store = 200 /\
  balance_of "alice" demo_store = other_sum "alice" (transactions demo_store) - 200.
Proof.
  split; [vm_compute; reflexivity|].
  pose proof (withdrawals_conserve demo_store "alice" demo_store_reachable) as H.
  exact H.
Defined.

(** Every call moves a stored withdrawal along an edge of its state machine
    only ([pending -> processing], an open state to [completed] or [failed]); it
    never changes whose it is, its amount or its destination, and leaves the
    completion time, payout reference and failure reason of a terminal one
    alone. *)
Theorem withdrawal_lifecycle hold op now s wid w :
  op_ok op s -> jm_get wid (withdrawals s) = Some w ->
  exists w', jm_get wid (withdrawals (apply_op hold op now s)) = Some w' /\ lifecycle w w'.
Proof. apply apply_lifecycle. Qed.

Lemma withdrawal_lifecycle_witness :
  exists w w', jm_get "w2"%string (withdrawals demo_store) = Some w /\
    jm_get "w2"%string (withdrawals (apply_op no_hold (OFail "w2" "late" pending 70) 70 demo_store)) = Some w' /\
    lifecycle w w' /\ w_status w' = completed.
Proof.
  destruct (jm_get "w2"%string (withdrawals demo_store)) as [w|] eqn:E; [|vm_compute in E; discriminate].
  destruct (withdrawal_lifecycle no_hold (OFail "w2" "late" pending 70) 70 demo_store "w2" w I E)
    as (w' & Hw' & Hl).
  exists w, w'. split; [reflexivity|]. split; [exact Hw'|]. split; [exact Hl|].
  vm_compute in Hw'. injection Hw' as <-. reflexivity.
Defined.

(** The in-memory idempotency index is keyed by the concatenation of the
    motebit id and the client key around a colon, so for an id that contains a
    colon one account's key finds another account's withdrawal: the later
    request is answered with a foreign record and debits nothing. *)
Theorem idempotency_key_collision :
  let w1 := {| nw_withdrawal_id := "w1"; nw_motebit_id := "did:a"; nw_amount := JInt 5;
               nw_currency := "USD"; nw_destination := "x"; nw_idempotency_key := Some "b"%string;
               nw_requested_at := 0 |} in
  let w2 := {| nw_withdrawal_id := "w2"; nw_motebit_id := "did"; nw_amount := JInt 9;
               nw_currency := "USD"; nw_destination := "y"; nw_idempotency_key := Some "a:b"%string;
               nw_requested_at := 0 |} in
  let s := apply_op no_hold (ORecord w1 "") 0
             (apply_op no_hold (OCredit "did" 100 deposit None None) 0
               (apply_op no_hold (OCredit "did:a" 100 deposit None None) 0 new_mem_store)) in
  exists foreign, debitAndRecordWithdrawal w2 "" 0 s = Ok (Existing foreign, s) /\
    w_motebit_id foreign = "did:a"%string /\ nw_motebit_id w2 = "did"%string.
Proof. cbv zeta. eexists. split; [vm_compute; reflexivity|]. split; reflexivity. Qed.
