(* ===== verification/Driver.v ===== *)
(** * The database driver's transactions ([packages/persistence/src/sqljs-driver.ts])

    [SqlJsDriver.transaction] runs a function inside [BEGIN]/[COMMIT] and, when
    it is called again inside itself, inside [SAVEPOINT]/[RELEASE]; a throw rolls
    back to the boundary of the call that sees it.  The SQL transaction commands
    the driver issues act on a session: the database a statement sees and the
    stack of open transaction boundaries, each with the database to go back to.
    [faults] is the environment's choice, one entry per command or statement
    still to run: [true] makes it throw, having changed nothing.  The file flush
    that follows a commit is outside the model. *)

From S2P Require Import Prelude.
From stdpp Require Import pretty.
Local Open Scope motebit_scope.

Record session (Db : Type) := {
  db : Db;
  boundaries : list (option string * Db);
  txnDepth : nat;
  faults : list bool;
}.
Arguments db {Db}.
Arguments boundaries {Db}.
Arguments txnDepth {Db}.
Arguments faults {Db}.

Section driver.
Context {Db E : Type} (driver_error : E).
Implicit Types (s : session Db).

Definition set_db d s : session Db :=
  {| db := d; boundaries := boundaries s; txnDepth := txnDepth s; faults := faults s |}.
Definition set_boundaries b s : session Db :=
  {| db := db s; boundaries := b; txnDepth := txnDepth s; faults := faults s |}.
Definition set_depth n s : session Db :=
  {| db := db s; boundaries := boundaries s; txnDepth := n; faults := faults s |}.
Definition set_faults f s : session Db :=
  {| db := db s; boundaries := boundaries s; txnDepth := txnDepth s; faults := f |}.

(** [db.run] of a command that may fail. *)
Definition guarded {A} (k : call (session Db) E A) : call (session Db) E A := fun s =>
  match faults s with
  | true :: fs => (Throw driver_error, set_faults fs s)
  | false :: fs => k (set_faults fs s)
  | [] => k s
  end.

(** ** The SQL commands the driver issues *)

(** [BEGIN]: an error inside a transaction. *)
Definition run_begin : call (session Db) E unit := guarded (fun s =>
  match boundaries s with
  | [] => (Ok tt, set_boundaries [(None, db s)] s)
  | _ :: _ => (Throw driver_error, s)
  end).

(** [SAVEPOINT l]: outside a transaction it opens one. *)
Definition run_savepoint (l : string) : call (session Db) E unit := guarded (fun s =>
  (Ok tt, set_boundaries ((Some l, db s) :: boundaries s) s)).

(** The boundaries at and below the most recent savepoint named [l]. *)
Fixpoint from_savepoint (l : string) (bs : list (option string * Db))
    : option (Db * list (option string * Db)) :=
  match bs with
  | [] => None
  | (l', d) :: bs' => if decide (l' = Some l) then Some (d, bs') else from_savepoint l bs'
  end.

(** [RELEASE l]: an error when there is no such savepoint; releasing the
    outermost one commits. *)
Definition release (l : string) : call (session Db) E unit := fun s =>
  match from_savepoint l (boundaries s) with
  | Some (_, bs) => (Ok tt, set_boundaries bs s)
  | None => (Throw driver_error, s)
  end.
Definition run_release (l : string) : call (session Db) E unit := guarded (release l).

(** [ROLLBACK TO l]: goes back to the savepoint, which stays open. *)
Definition run_rollback_to (l : string) : call (session Db) E unit := fun s =>
  match from_savepoint l (boundaries s) with
  | Some (d, bs) => (Ok tt, set_db d (set_boundaries ((Some l, d) :: bs) s))
  | None => (Throw driver_error, s)
  end.

(** [COMMIT] and [ROLLBACK]: errors outside a transaction. *)
Definition run_commit : call (session Db) E unit := guarded (fun s =>
  match boundaries s with
  | [] => (Throw driver_error, s)
  | _ :: _ => (Ok tt, set_boundaries [] s)
  end).

Definition run_rollback : call (session Db) E unit := fun s =>
  match last (boundaries s) with
  | Some (_, d) => (Ok tt, set_db d (set_boundaries [] s))
  | None => (Throw driver_error, s)
  end.

(** ** [transaction] *)

Definition sp_label (depth : nat) : string := String.append "motebit_sp_" (pretty depth).

(** The [try] block: the function, then [RELEASE] or [COMMIT]. *)
Definition try_block {A} (useSavepoint : bool) (label : string) (fn : call (session Db) E A)
    : call (session Db) E A :=
  let! result := fn in
  (if useSavepoint then run_release label else run_commit) ;!
  call_ret result.

(** The [catch] block: it rethrows [err] unless the roll back itself throws. *)
Definition catch_block {A} (useSavepoint : bool) (label : string) (err : E)
    : call (session Db) E A :=
  (if useSavepoint then run_rollback_to label ;! release label else run_rollback) ;!
  call_throw err.

(** The [BEGIN] or [SAVEPOINT] stands before the [try]: when it throws, the
    [finally] does not run and [txnDepth] keeps its increment. *)
Definition transaction {A} (fn : call (session Db) E A) : call (session Db) E A := fun s =>
  let depth := txnDepth s in
  let useSavepoint := bool_decide (0 < depth)%nat in
  let label := sp_label depth in
  match (if useSavepoint then run_savepoint label else run_begin) (set_depth (S depth) s) with
  | (Throw e, s1) => (Throw e, s1)
  | (Ok _, s1) =>
      let '(r, s2) := match try_block useSavepoint label fn s1 with
                      | (Ok a, s2) => (Ok a, s2)
                      | (Throw err, s2) => catch_block useSavepoint label err s2
                      end in
      (r, set_depth depth s2)
  end.

(** A statement of the store: reads or rewrites the database, or throws. *)
Definition statement {A} (f : Db -> result E (A * Db)) : call (session Db) E A := guarded (fun s =>
  match f (db s) with
  | Ok (a, d) => (Ok a, set_db d s)
  | Throw e => (Throw e, s)
  end).

(** Outside any [transaction] call no boundary is open. *)
Definition session_ok s : Prop := (txnDepth s = 0 -> boundaries s = [])%nat.

(** ** Well-bracketed bodies

    A body leaves the boundaries as it found them, whatever happens in it; a
    throw by [BEGIN] can leave the depth higher than it was, never lower. *)
Definition bracketed {A} (m : call (session Db) E A) : Prop := forall s,
  session_ok s ->
  boundaries (m s).2 = boundaries s /\ (txnDepth s <= txnDepth (m s).2)%nat.

(** A call that changes nothing when it throws. *)
Definition atomic {A} (m : call (session Db) E A) : Prop := forall s,
  session_ok s ->
  match m s with
  | (Throw _, s') => db s' = db s
  | (Ok _, _) => True
  end.

Lemma guarded_cases {A} (k : call (session Db) E A) s :
  (exists fs, guarded k s = (Throw driver_error, set_faults fs s)) \/
  (exists fs, guarded k s = k (set_faults fs s)).
Proof.
  unfold guarded. destruct (faults s) as [|[] fs] eqn:F; eauto.
  right. exists []. f_equal. destruct s; cbn in *; by subst.
Qed.

Lemma bracketed_ret {A} (a : A) : bracketed (call_ret a).
Proof. intros s Hs. by split. Qed.

Lemma bracketed_throw {A} (e : E) : bracketed (call_throw (A := A) e).
Proof. intros s Hs. by split. Qed.

Lemma bracketed_bind {A B} (m : call (session Db) E A) (k : A -> call (session Db) E B) :
  bracketed m -> (forall a, bracketed (k a)) -> bracketed (call_bind m k).
Proof.
  intros Hm Hk s Hs. unfold call_bind. destruct (Hm s Hs) as [Hb Hd].
  destruct (m s) as [[a|e] s1]; cbn in *; [|done].
  destruct (Hk a s1) as [Hb' Hd']; [intros H0; rewrite Hb; apply Hs; lia|].
  split; [congruence|lia].
Qed.

Lemma bracketed_statement {A} (f : Db -> result E (A * Db)) : bracketed (statement f).
Proof.
  intros s Hs. unfold statement.
  match goal with |- context [guarded ?k s] => destruct (guarded_cases k s) as [[fs ->]|[fs ->]] end;
    [by split|]. cbn. by destruct (f (db s)) as [[a d]|e].
Qed.

Lemma atomic_statement {A} (f : Db -> result E (A * Db)) : atomic (statement f).
Proof.
  intros s Hs. unfold statement.
  match goal with |- context [guarded ?k s] => destruct (guarded_cases k s) as [[fs ->]|[fs ->]] end;
    [done|]. cbn. by destruct (f (db s)) as [[a d]|e].
Qed.

(** The session inside the boundary a transaction opens, with [fs] left of the
    faults. *)
Definition opened s (fs : list bool) : session Db := {|
  db := db s;
  boundaries := (if bool_decide (0 < txnDepth s)%nat then Some (sp_label (txnDepth s)) else None, db s)
                :: boundaries s;
  txnDepth := S (txnDepth s);
  faults := fs |}.

(** The session a transaction leaves, with [d] in the database. *)
Definition closed s d (fs : list bool) : session Db :=
  {| db := d; boundaries := boundaries s; txnDepth := txnDepth s; faults := fs |}.

Lemma from_savepoint_top l d bs : from_savepoint l ((Some l, d) :: bs) = Some (d, bs).
Proof. cbn. by rewrite decide_True. Qed.

Lemma open_cases s :
  session_ok s ->
  let m := if bool_decide (0 < txnDepth s)%nat
           then run_savepoint (sp_label (txnDepth s)) else run_begin in
  (faults s <> [] /\ exists fs, m (set_depth (S (txnDepth s)) s)
     = (Throw driver_error, set_depth (S (txnDepth s)) (set_faults fs s))) \/
  (exists fs, (faults s = [] -> fs = []) /\ m (set_depth (S (txnDepth s)) s) = (Ok tt, opened s fs)).
Proof.
  destruct s as [d bs n fs0]. intros Hs. cbn zeta. unfold run_savepoint, run_begin, guarded, opened.
  unfold session_ok in Hs. cbn in *. case_bool_decide as D.
  - destruct fs0 as [|[] fs]; [right; by exists []|left; split; [done|by exists fs]|right; by exists fs].
  - rewrite (Hs ltac:(lia)).
    destruct fs0 as [|[] fs]; [right; by exists []|left; split; [done|by exists fs]|right; by exists fs].
Qed.

(** Closing the boundary of a body that left the boundaries as it found them. *)
Lemma close_cases s fs s1 :
  session_ok s -> boundaries s1 = boundaries (opened s fs) ->
  let m := if bool_decide (0 < txnDepth s)%nat
           then run_release (sp_label (txnDepth s)) else run_commit in
  (faults s1 <> [] /\ exists fs', m s1 = (Throw driver_error, set_faults fs' s1)) \/
  (exists fs', (faults s1 = [] -> fs' = []) /\
     m s1 = (Ok tt, set_boundaries (boundaries s) (set_faults fs' s1))).
Proof.
  intros Hs Hb. cbn zeta. unfold opened in Hb. cbn in Hb.
  unfold run_release, run_commit, release, guarded.
  case_bool_decide as D; cbn.
  - destruct (faults s1) as [|[] gs] eqn:G; [right; exists []|left; split; [done|eauto]|right; exists gs];
      (split; [done|]); cbn; rewrite Hb, from_savepoint_top;
    destruct s1; cbn in *; by subst.
  - rewrite (Hs ltac:(lia)) in *.
    destruct (faults s1) as [|[] gs] eqn:G; [right; exists []|left; split; [done|eauto]|right; exists gs];
      (split; [done|]); cbn; rewrite Hb;
    destruct s1; cbn in *; by subst.
Qed.

Lemma undo_run {A} s fs s1 (e : E) :
  session_ok s -> boundaries s1 = boundaries (opened s fs) ->
  catch_block (A := A) (bool_decide (0 < txnDepth s)%nat) (sp_label (txnDepth s)) e s1
  = (Throw e, set_db (db s) (set_boundaries (boundaries s) s1)).
Proof.
  intros Hs Hb. unfold opened in Hb. cbn in Hb.
  unfold catch_block, call_bind, call_throw, run_rollback_to, release, run_rollback.
  case_bool_decide as D.
  - rewrite Hb, from_savepoint_top. cbn [boundaries set_db set_boundaries].
    by rewrite from_savepoint_top.
  - rewrite (Hs ltac:(lia)) in *. by rewrite Hb.
Qed.

(** The outcome of a transaction around a bracketed body: the boundary command
    threw, or the body ran inside it and was committed or undone. *)
Lemma transaction_cases {A} (fn : call (session Db) E A) s :
  bracketed fn -> session_ok s ->
  (faults s <> [] /\ exists fs, transaction fn s
     = (Throw driver_error, set_depth (S (txnDepth s)) (set_faults fs s))) \/
  (exists fs, (faults s = [] -> fs = []) /\
    let '(r, s1) := fn (opened s fs) in
    (exists a fs', r = Ok a /\ (faults s1 = [] -> fs' = []) /\
       transaction fn s = (Ok a, closed s (db s1) fs')) \/
    (exists e fs', ((exists a, r = Ok a /\ faults s1 <> []) \/ r = Throw e /\ fs' = faults s1) /\
       transaction fn s = (Throw e, closed s (db s) fs'))).
Proof.
  intros Hfn Hs. unfold transaction.
  destruct (open_cases s Hs) as [[Hne [fs ->]]|(fs & Hfs & ->)]; [by left; eauto|].
  right. exists fs. split; [done|].
  destruct (Hfn (opened s fs)) as [Hb _]; [by cbn|].
  unfold try_block, call_bind.
  destruct (fn (opened s fs)) as [r s1]. cbn in Hb.
  destruct r as [a|e].
  - destruct (close_cases s fs s1 Hs Hb) as [[Hne [fs' ->]]|(fs' & Hfs' & ->)]; cbn.
    + right. exists driver_error, fs'. rewrite (undo_run s fs); [|done|done]. split; [|done].
      left. by exists a.
    + left. by exists a, fs'.
  - right. exists e, (faults s1). rewrite (undo_run s fs); [|done|done]. split; [|done]. by right.
Qed.
Lemma bracketed_transaction {A} (fn : call (session Db) E A) :
  bracketed fn -> bracketed (transaction fn).
Proof.
  intros Hfn s Hs. destruct (transaction_cases fn s Hfn Hs) as [[_ [fs ->]]|(fs & _ & H)].
  - cbn. split; [done|lia].
  - destruct (fn (opened s fs)) as [r s1].
    destruct H as [(a & fs' & _ & _ & ->)|(e & fs' & _ & ->)]; cbn; (split; [done|lia]).
Qed.

Lemma atomic_transaction {A} (fn : call (session Db) E A) :
  bracketed fn -> atomic (transaction fn).
Proof.
  intros Hfn s Hs. destruct (transaction_cases fn s Hfn Hs) as [[_ [fs ->]]|(fs & _ & H)]; [done|].
  destruct (fn (opened s fs)) as [r s1].
  by destruct H as [(a & fs' & _ & _ & ->)|(e & fs' & _ & ->)].
Qed.

(** Mapping the result of an atomic call. *)
Lemma atomic_map {A B} (m : call (session Db) E A) (f : A -> B) :
  atomic m -> atomic (call_bind m (fun a => call_ret (f a))).
Proof.
  intros Hm s Hs. specialize (Hm s Hs). unfold call_bind, call_ret.
  by destruct (m s) as [[a|e] s'].
Qed.

(** A read before an atomic call. *)
Definition reads {A} (m : call (session Db) E A) : Prop := forall s, db (m s).2 = db s.

Lemma reads_statement {A} (q : Db -> A) : reads (statement (fun d => Ok (q d, d))).
Proof.
  intros s. unfold statement.
  by match goal with |- context [guarded ?k s] => destruct (guarded_cases k s) as [[fs ->]|[fs ->]] end.
Qed.

Lemma atomic_read_bind {A B} (m : call (session Db) E A) (k : A -> call (session Db) E B) :
  bracketed m -> reads m -> (forall a, atomic (k a)) -> atomic (call_bind m k).
Proof.
  intros Hb Hr Hk s Hs. specialize (Hr s). destruct (Hb s Hs) as [Hb' Hd].
  unfold call_bind. destruct (m s) as [[a|e] s1]; cbn in *; [|done].
  assert (session_ok s1) as Hs1 by (intros H0; rewrite Hb'; apply Hs; lia).
  specialize (Hk a s1 Hs1). destruct (k a s1) as [[b|e] s2]; [done|congruence].
Qed.

Lemma atomic_ret {A} (a : A) : atomic (call_ret a).
Proof. by intros s Hs. Qed.

Lemma atomic_throw {A} (e : E) : atomic (call_throw (A := A) e).
Proof. by intros s Hs. Qed.

Lemma set_db_same s : set_db (db s) s = s.
Proof. by destruct s. Qed.

(** ** What a call does to the database

    [denotes m f]: the call keeps the boundaries; run without faults it has the
    effect of [f] on the database and no other; and whenever it returns, faults
    or not, its result and its effect are those of [f]. *)
Record denotes {A} (m : call (session Db) E A) (f : call Db E A) : Prop := {
  dn_bracketed : bracketed m;
  dn_clean : forall s, session_ok s -> faults s = [] ->
    m s = (let '(r, d) := f (db s) in (r, set_db d s));
  dn_ok : forall s a s', session_ok s -> m s = (Ok a, s') -> f (db s) = (Ok a, db s');
}.

(** A statement and a transaction as functions of the database. *)
Definition stmt_fn {A} (f : Db -> result E (A * Db)) : call Db E A := fun d =>
  match f d with Ok (a, d') => (Ok a, d') | Throw e => (Throw e, d) end.
Definition all_or_nothing {A} (f : call Db E A) : call Db E A := fun d =>
  match f d with (Ok a, d') => (Ok a, d') | (Throw e, _) => (Throw e, d) end.

Lemma bracketed_session_ok {A} (m : call (session Db) E A) s :
  bracketed m -> session_ok s -> session_ok (m s).2.
Proof. intros Hm Hs. destruct (Hm s Hs) as [Hb Hd]. intros H0. rewrite Hb. apply Hs. lia. Qed.

Lemma denotes_ret {A} (a : A) : denotes (call_ret a) (call_ret a).
Proof.
  split; [apply bracketed_ret| |].
  - intros s _ _. unfold call_ret. by rewrite set_db_same.
  - by intros s b s' _ [= -> ->].
Qed.

Lemma denotes_throw {A} (e : E) : denotes (call_throw (A := A) e) (call_throw e).
Proof.
  split; [apply bracketed_throw| |done].
  intros s _ _. unfold call_throw. by rewrite set_db_same.
Qed.

Lemma denotes_bind {A B} (m : call (session Db) E A) (k : A -> call (session Db) E B) f g :
  denotes m f -> (forall a, denotes (k a) (g a)) -> denotes (call_bind m k) (call_bind f g).
Proof.
  intros Hm Hk. split.
  - apply bracketed_bind; [apply Hm|]. intros a. apply Hk.
  - intros s Hs Hf. unfold call_bind. rewrite (dn_clean _ _ Hm s Hs Hf).
    destruct (f (db s)) as [[a|e] d]; [|done]. by rewrite (dn_clean _ _ (Hk a) (set_db d s) Hs Hf).
  - intros s b s' Hs (a & s1 & H1 & H2)%call_bind_ok. unfold call_bind.
    rewrite (dn_ok _ _ Hm s a s1 Hs H1).
    apply (dn_ok _ _ (Hk a)); [|done].
    pose proof (bracketed_session_ok m s (dn_bracketed _ _ Hm) Hs) as Hs1. by rewrite H1 in Hs1.
Qed.

Lemma denotes_statement {A} (f : Db -> result E (A * Db)) :
  denotes (statement f) (stmt_fn f).
Proof.
  split; [apply bracketed_statement| |].
  - intros s _ Hf. unfold statement, guarded, stmt_fn. rewrite Hf.
    destruct (f (db s)) as [[a d]|e]; [done|]. by rewrite set_db_same.
  - intros s a s' _. unfold statement, stmt_fn.
    match goal with |- context [guarded ?k s] => destruct (guarded_cases k s) as [[fs ->]|[fs ->]] end;
      [done|]. cbn. destruct (f (db s)) as [[b d]|e]; [by intros [= -> <-]|done].
Qed.

Lemma denotes_transaction {A} (fn : call (session Db) E A) f :
  denotes fn f -> denotes (transaction fn) (all_or_nothing f).
Proof.
  intros Hd. pose proof (dn_bracketed _ _ Hd) as Hb. split; [by apply bracketed_transaction| |].
  - intros s Hs Hf. unfold all_or_nothing.
    destruct (transaction_cases fn s Hb Hs) as [[Hne _]|(fs & Hfs & H)]; [done|].
    specialize (Hfs Hf) as ->. rewrite (dn_clean _ _ Hd (opened s [])) in H by done.
    cbn [db opened] in H. destruct (f (db s)) as [r d].
    destruct H as [(a & fs' & -> & Hn & ->)|(e & fs' & H & ->)].
    + specialize (Hn eq_refl) as ->. unfold closed, set_db. cbn. do 2 f_equal. done.
    + destruct H as [(a & -> & Hn)|[-> ->]]; [by destruct Hn|].
      unfold closed, set_db. cbn. by rewrite <- Hf.
  - intros s a s' Hs Et. unfold all_or_nothing.
    destruct (transaction_cases fn s Hb Hs) as [[_ [fs E1]]|(fs & _ & H)]; [congruence|].
    pose proof (dn_ok _ _ Hd (opened s fs)) as Hok.
    destruct (fn (opened s fs)) as [r s1].
    destruct H as [(b & fs' & -> & _ & Eq)|(e & fs' & _ & Eq)]; [|congruence].
    rewrite Eq in Et. injection Et as <- <-. change (db s) with (db (opened s fs)). by rewrite (Hok b s1).
Qed.
End driver.

(** ** The [DatabaseDriver] interface

    What a store is written against.  [SqlJsDriver] is the class above;
    [PureDriver] is the abstract driver whose session is the database itself. *)
Class DatabaseDriver (Db E W : Type) := {
  run_sql : forall {A : Type}, (Db -> result E (A * Db)) -> call W E A;
  run_transaction : forall {A : Type}, call W E A -> call W E A;
}.

#[export] Instance SqlJsDriver {Db E} (driver_error : E) : DatabaseDriver Db E (session Db) := {
  run_sql := fun A f => statement driver_error f;
  run_transaction := fun A fn => transaction driver_error fn;
}.

#[export] Instance PureDriver {Db E} : DatabaseDriver Db E Db := {
  run_sql := fun A f => stmt_fn f;
  run_transaction := fun A fn => all_or_nothing fn;
}.

#[export] Hint Resolve denotes_ret denotes_throw denotes_bind denotes_statement
  denotes_transaction : motebit.

(** Relates a store method over the two drivers, following its structure. *)
Ltac denotes_auto :=
  repeat first
    [ progress intros
    | apply denotes_ret | apply denotes_throw | apply denotes_statement
    | apply denotes_transaction | apply denotes_bind
    | match goal with |- denotes _ (match ?x with _ => _ end) _ => destruct x end
    | match goal with |- denotes (match ?x with _ => _ end) _ => destruct x end ].

(** The brackets of a store method over [SqlJsDriver]. *)
Ltac bracketed_auto :=
  repeat first
    [ progress intros
    | apply bracketed_ret | apply bracketed_throw | apply bracketed_statement
    | apply bracketed_transaction | apply bracketed_bind
    | match goal with |- bracketed (match ?x with _ => _ end) => destruct x end ].

(** * Properties *)

(** A [transaction] call is all or nothing at its own boundary, nested or
    not, wherever a statement or a command in it fails: when it throws, the
    database is the one it started from; when it returns, its body ran to its
    end inside the boundary, on the starting database, and what the body left is
    kept.  The boundaries of the enclosing calls stay open either way. *)
Theorem transaction_all_or_nothing {Db E A : Type} (driver_error : E)
    (fn : call (session Db) E A) (s : session Db) :
  bracketed fn -> session_ok s ->
  match transaction driver_error fn s with
  | (Throw _, s') => db s' = db s /\ boundaries s' = boundaries s
  | (Ok a, s') => exists fs, (fn (opened s fs)).1 = Ok a /\ db s' = db (fn (opened s fs)).2 /\
      boundaries s' = boundaries s /\ txnDepth s' = txnDepth s
  end.
Proof.
  intros Hfn Hs. destruct (transaction_cases driver_error fn s Hfn Hs) as [[_ [fs ->]]|(fs & _ & H)];
    [done|]. destruct (fn (opened s fs)) as [r s1] eqn:Ef.
  destruct H as [(a & fs' & -> & _ & ->)|(e & fs' & _ & ->)]; [|done].
  exists fs. by rewrite Ef.
Qed.

(** A transaction that appends [1], then [2] in a nested one. *)
Definition demo_body : call (session (list Z)) unit unit :=
  (statement tt (fun d => Ok (tt, d ++ [1%Z])) ;!
   transaction tt (statement tt (fun d => Ok (tt, d ++ [2%Z]))))%motebit.

Definition demo_session (fs : list bool) : session (list Z) :=
  {| db := [0%Z]; boundaries := []; txnDepth := 0; faults := fs |}.

Lemma transaction_all_or_nothing_witness :
  (transaction tt demo_body (demo_session [])).1 = Ok tt /\
  db (transaction tt demo_body (demo_session [])).2 = [0; 1; 2]%Z /\
  (let '(r, s') := transaction tt demo_body (demo_session [false; false; false; true]) in
   r = Throw tt /\ db s' = [0]%Z).
Proof.
  split; [reflexivity|]. split; [reflexivity|].
  assert (bracketed demo_body) as Hb
    by (apply bracketed_bind; [apply bracketed_statement|]; intros _;
        apply bracketed_transaction, bracketed_statement).
  pose proof (transaction_all_or_nothing tt demo_body (demo_session [false; false; false; true]) Hb
    (fun _ => eq_refl)) as H.
  destruct (transaction tt demo_body (demo_session [false; false; false; true])) as [[a|[]] s'] eqn:E.
  - vm_compute in E. discriminate E.
  - split; [reflexivity|apply H].
Defined.

(** [txnDepth] is incremented before the [try]: when [BEGIN] itself throws,
    the [finally] never runs and the depth stays raised, so the next outermost
    call opens a savepoint where a [BEGIN] is meant. *)
Theorem failed_begin_leaks_depth {Db E A : Type} (driver_error : E)
    (fn : call (session Db) E A) (d : Db) :
  let s := {| db := d; boundaries := []; txnDepth := 0; faults := [true] |} in
  let s' := (transaction driver_error fn s).2 in
  txnDepth s' = 1 /\ boundaries s' = [] /\
  boundaries (run_savepoint driver_error (sp_label (txnDepth s')) s').2
  = [(Some "motebit_sp_1"%string, d)].
Proof. done. Qed.
