(* ===== verification/SqlStore.v ===== *)
(** * The SQLite account store ([services/relay/src/account-store-sqlite.ts])

    [SqliteAccountStore]: the tables it touches as lists of rows in insertion
    order, each SQL statement as a function on the database, each method as the
    statements it runs, over a [DatabaseDriver].  [Date.now()] and
    [crypto.randomUUID()] are the arguments [now] and [uuid]; the primary keys
    and unique indexes of the tables make an insert throw.  A table another
    module creates and the methods probe with [hasTables] is [None] when it is
    absent.  SQLite's 64-bit overflow is not modelled. *)

From S2P Require Import Prelude Float64 JsString LedgerTypes Driver.
Local Open Scope Z_scope.
Local Open Scope motebit_scope.

(** ** Tables *)

(** A row of [relay_transactions]: the ledger row and the allocation-escrow
    stamp. *)
Record txn_row := {
  txn : AccountTransaction;
  allocation_id : option string;
  allocation_kind : option string;
}.

Record withdrawal_row := {
  wd : WithdrawalRequest;
  idempotency_key : option string;
}.

(** A row of [relay_pending_withdrawals]; [linked_withdrawal] is its column
    [withdrawal_id]. *)
Record pending_row := {
  pw : PendingRow;
  last_attempt_at : option Z;
  last_error : option string;
  linked_withdrawal : option string;
}.

(** [al_motebit_id]: the worker. *)
Record allocation_row := {
  al_allocation_id : string;
  al_task_id : string;
  al_motebit_id : string;
  amount_locked : Z;
  al_status : string;
  al_created_at : Z;
  review_reason : option string;
  claim_unrecoverable_at : option Z;
}.

(** [record_motebit_id]: the payee the signed body names, when [record_json] is
    there and names one. *)
Record settlement_row := {
  st_settlement_id : string;
  st_allocation_id : string;
  platform_fee : Z;
  record_motebit_id : option string;
  st_motebit_id : string;
  st_task_id : string;
  amount_settled : Z;
  st_status : string;
  settlement_mode : option string;
  settled_at : Z;
}.

(** A row of [relay_federation_settlements]: sent when it names a downstream relay. *)
Inductive ForwardStatus := fwd_pending | fwd_delivered | fwd_failed.

#[export] Instance ForwardStatus_eq : EqDecision ForwardStatus.
Proof. solve_decision. Defined.

Record forward_row := {
  f_settlement_id : string;
  f_task_id : string;
  upstream_relay_id : string;
  downstream_relay_id : option string;
  gross_amount : Z;
  f_allocation_id : option string;
  f_status : ForwardStatus;
}.

(** A row of [relay_allocation_fees]. *)
Record fee_row := {
  fee_settlement_id : string;
  fee_allocation_id : string;
  fee_amount : Z;
}.

Record dispute_row := {
  d_dispute_id : string;
  d_task_id : string;
  d_allocation_id : string;
  d_state : string;
  d_amount_locked : Z;
  d_resolved_at : option Z;
  d_appealed_at : option Z;
  d_final_at : option Z;
  fund_refusal : option FundRefusalReason;
}.

(** A row of [relay_dispute_resolutions]. *)
Record resolution_row := {
  rs_dispute_id : string;
  rs_round : Z;
  rs_fund_action : string;
  rs_split_ratio : number;
  rs_resolved_at : Z;
}.

(** A row of [relay_dispute_fund_actions]. *)
Record fund_action_row := {
  fa_allocation_id : string;
  fa_task_id : string;
  fa_dispute_id : string;
  fa_fund_action : string;
  fa_split_ratio : number;
  fa_regime : string;
  fa_worker_amount : Z;
  fa_delegator_amount : Z;
}.

(** A row of [relay_settlement_retries]. *)
Record retry_row := {
  rt_retry_id : string;
  rt_settlement_id : string;
  rt_task_id : string;
  rt_peer_relay_id : string;
  rt_attempts : Z;
  rt_max_attempts : Z;
  rt_next_retry_at : Z;
  rt_status : string;
}.

(** A row of [relay_refund_log]. *)
Record refund_log_row := {
  rl_refund_id : string;
  rl_retry_id : string;
  rl_task_id : string;
  rl_allocation_id : string;
  rl_delegator_id : string;
  rl_amount : Z;
}.

Record agent_row := {
  ag_motebit_id : string;
  ag_sweep_threshold : option Z;
  ag_settlement_address : option string;
}.

Record relay_db := {
  relay_accounts : list VirtualAccount;
  relay_transactions : list txn_row;
  relay_withdrawals : list withdrawal_row;
  relay_pending_withdrawals : list pending_row;
  relay_allocations : list allocation_row;
  relay_settlements : option (list settlement_row);
  relay_disputes : option (list dispute_row);
  agent_registry : option (list agent_row);
  relay_federation_settlements : list forward_row;
  relay_allocation_fees : list fee_row;
  relay_dispute_resolutions : list resolution_row;
  relay_dispute_fund_actions : list fund_action_row;
  relay_settlement_retries : list retry_row;
  relay_refund_log : list refund_log_row;
}.

Definition upd_accounts f (d : relay_db) : relay_db := {|
  relay_accounts := f (relay_accounts d); relay_transactions := relay_transactions d;
  relay_withdrawals := relay_withdrawals d; relay_pending_withdrawals := relay_pending_withdrawals d;
  relay_allocations := relay_allocations d; relay_settlements := relay_settlements d;
  relay_disputes := relay_disputes d; agent_registry := agent_registry d;
  relay_federation_settlements := relay_federation_settlements d; relay_allocation_fees := relay_allocation_fees d;
  relay_dispute_resolutions := relay_dispute_resolutions d;
  relay_dispute_fund_actions := relay_dispute_fund_actions d;
  relay_settlement_retries := relay_settlement_retries d; relay_refund_log := relay_refund_log d |}.
Definition upd_transactions f (d : relay_db) : relay_db := {|
  relay_accounts := relay_accounts d; relay_transactions := f (relay_transactions d);
  relay_withdrawals := relay_withdrawals d; relay_pending_withdrawals := relay_pending_withdrawals d;
  relay_allocations := relay_allocations d; relay_settlements := relay_settlements d;
  relay_disputes := relay_disputes d; agent_registry := agent_registry d;
  relay_federation_settlements := relay_federation_settlements d; relay_allocation_fees := relay_allocation_fees d;
  relay_dispute_resolutions := relay_dispute_resolutions d;
  relay_dispute_fund_actions := relay_dispute_fund_actions d;
  relay_settlement_retries := relay_settlement_retries d; relay_refund_log := relay_refund_log d |}.
Definition upd_withdrawals f (d : relay_db) : relay_db := {|
  relay_accounts := relay_accounts d; relay_transactions := relay_transactions d;
  relay_withdrawals := f (relay_withdrawals d); relay_pending_withdrawals := relay_pending_withdrawals d;
  relay_allocations := relay_allocations d; relay_settlements := relay_settlements d;
  relay_disputes := relay_disputes d; agent_registry := agent_registry d;
  relay_federation_settlements := relay_federation_settlements d; relay_allocation_fees := relay_allocation_fees d;
  relay_dispute_resolutions := relay_dispute_resolutions d;
  relay_dispute_fund_actions := relay_dispute_fund_actions d;
  relay_settlement_retries := relay_settlement_retries d; relay_refund_log := relay_refund_log d |}.
Definition upd_pending f (d : relay_db) : relay_db := {|
  relay_accounts := relay_accounts d; relay_transactions := relay_transactions d;
  relay_withdrawals := relay_withdrawals d; relay_pending_withdrawals := f (relay_pending_withdrawals d);
  relay_allocations := relay_allocations d; relay_settlements := relay_settlements d;
  relay_disputes := relay_disputes d; agent_registry := agent_registry d;
  relay_federation_settlements := relay_federation_settlements d; relay_allocation_fees := relay_allocation_fees d;
  relay_dispute_resolutions := relay_dispute_resolutions d;
  relay_dispute_fund_actions := relay_dispute_fund_actions d;
  relay_settlement_retries := relay_settlement_retries d; relay_refund_log := relay_refund_log d |}.
Definition upd_allocations f (d : relay_db) : relay_db := {|
  relay_accounts := relay_accounts d; relay_transactions := relay_transactions d;
  relay_withdrawals := relay_withdrawals d; relay_pending_withdrawals := relay_pending_withdrawals d;
  relay_allocations := f (relay_allocations d); relay_settlements := relay_settlements d;
  relay_disputes := relay_disputes d; agent_registry := agent_registry d;
  relay_federation_settlements := relay_federation_settlements d; relay_allocation_fees := relay_allocation_fees d;
  relay_dispute_resolutions := relay_dispute_resolutions d;
  relay_dispute_fund_actions := relay_dispute_fund_actions d;
  relay_settlement_retries := relay_settlement_retries d; relay_refund_log := relay_refund_log d |}.
Definition upd_settlements f (d : relay_db) : relay_db := {|
  relay_accounts := relay_accounts d; relay_transactions := relay_transactions d;
  relay_withdrawals := relay_withdrawals d; relay_pending_withdrawals := relay_pending_withdrawals d;
  relay_allocations := relay_allocations d; relay_settlements := f (relay_settlements d);
  relay_disputes := relay_disputes d; agent_registry := agent_registry d;
  relay_federation_settlements := relay_federation_settlements d; relay_allocation_fees := relay_allocation_fees d;
  relay_dispute_resolutions := relay_dispute_resolutions d;
  relay_dispute_fund_actions := relay_dispute_fund_actions d;
  relay_settlement_retries := relay_settlement_retries d; relay_refund_log := relay_refund_log d |}.
Definition upd_disputes f (d : relay_db) : relay_db := {|
  relay_accounts := relay_accounts d; relay_transactions := relay_transactions d;
  relay_withdrawals := relay_withdrawals d; relay_pending_withdrawals := relay_pending_withdrawals d;
  relay_allocations := relay_allocations d; relay_settlements := relay_settlements d;
  relay_disputes := f (relay_disputes d); agent_registry := agent_registry d;
  relay_federation_settlements := relay_federation_settlements d; relay_allocation_fees := relay_allocation_fees d;
  relay_dispute_resolutions := relay_dispute_resolutions d;
  relay_dispute_fund_actions := relay_dispute_fund_actions d;
  relay_settlement_retries := relay_settlement_retries d; relay_refund_log := relay_refund_log d |}.
Definition upd_forwards f (d : relay_db) : relay_db := {|
  relay_accounts := relay_accounts d; relay_transactions := relay_transactions d;
  relay_withdrawals := relay_withdrawals d; relay_pending_withdrawals := relay_pending_withdrawals d;
  relay_allocations := relay_allocations d; relay_settlements := relay_settlements d;
  relay_disputes := relay_disputes d; agent_registry := agent_registry d;
  relay_federation_settlements := f (relay_federation_settlements d);
  relay_allocation_fees := relay_allocation_fees d; relay_dispute_resolutions := relay_dispute_resolutions d;
  relay_dispute_fund_actions := relay_dispute_fund_actions d;
  relay_settlement_retries := relay_settlement_retries d; relay_refund_log := relay_refund_log d |}.
Definition upd_fees f (d : relay_db) : relay_db := {|
  relay_accounts := relay_accounts d; relay_transactions := relay_transactions d;
  relay_withdrawals := relay_withdrawals d; relay_pending_withdrawals := relay_pending_withdrawals d;
  relay_allocations := relay_allocations d; relay_settlements := relay_settlements d;
  relay_disputes := relay_disputes d; agent_registry := agent_registry d;
  relay_federation_settlements := relay_federation_settlements d;
  relay_allocation_fees := f (relay_allocation_fees d); relay_dispute_resolutions := relay_dispute_resolutions d;
  relay_dispute_fund_actions := relay_dispute_fund_actions d;
  relay_settlement_retries := relay_settlement_retries d; relay_refund_log := relay_refund_log d |}.
Definition upd_resolutions f (d : relay_db) : relay_db := {|
  relay_accounts := relay_accounts d; relay_transactions := relay_transactions d;
  relay_withdrawals := relay_withdrawals d; relay_pending_withdrawals := relay_pending_withdrawals d;
  relay_allocations := relay_allocations d; relay_settlements := relay_settlements d;
  relay_disputes := relay_disputes d; agent_registry := agent_registry d;
  relay_federation_settlements := relay_federation_settlements d; relay_allocation_fees := relay_allocation_fees d;
  relay_dispute_resolutions := f (relay_dispute_resolutions d);
  relay_dispute_fund_actions := relay_dispute_fund_actions d;
  relay_settlement_retries := relay_settlement_retries d; relay_refund_log := relay_refund_log d |}.
Definition upd_fund_actions f (d : relay_db) : relay_db := {|
  relay_accounts := relay_accounts d; relay_transactions := relay_transactions d;
  relay_withdrawals := relay_withdrawals d; relay_pending_withdrawals := relay_pending_withdrawals d;
  relay_allocations := relay_allocations d; relay_settlements := relay_settlements d;
  relay_disputes := relay_disputes d; agent_registry := agent_registry d;
  relay_federation_settlements := relay_federation_settlements d; relay_allocation_fees := relay_allocation_fees d;
  relay_dispute_resolutions := relay_dispute_resolutions d;
  relay_dispute_fund_actions := f (relay_dispute_fund_actions d);
  relay_settlement_retries := relay_settlement_retries d; relay_refund_log := relay_refund_log d |}.
Definition upd_retries f (d : relay_db) : relay_db := {|
  relay_accounts := relay_accounts d; relay_transactions := relay_transactions d;
  relay_withdrawals := relay_withdrawals d; relay_pending_withdrawals := relay_pending_withdrawals d;
  relay_allocations := relay_allocations d; relay_settlements := relay_settlements d;
  relay_disputes := relay_disputes d; agent_registry := agent_registry d;
  relay_federation_settlements := relay_federation_settlements d; relay_allocation_fees := relay_allocation_fees d;
  relay_dispute_resolutions := relay_dispute_resolutions d;
  relay_dispute_fund_actions := relay_dispute_fund_actions d;
  relay_settlement_retries := f (relay_settlement_retries d); relay_refund_log := relay_refund_log d |}.
Definition upd_refund_log f (d : relay_db) : relay_db := {|
  relay_accounts := relay_accounts d; relay_transactions := relay_transactions d;
  relay_withdrawals := relay_withdrawals d; relay_pending_withdrawals := relay_pending_withdrawals d;
  relay_allocations := relay_allocations d; relay_settlements := relay_settlements d;
  relay_disputes := relay_disputes d; agent_registry := agent_registry d;
  relay_federation_settlements := relay_federation_settlements d; relay_allocation_fees := relay_allocation_fees d;
  relay_dispute_resolutions := relay_dispute_resolutions d;
  relay_dispute_fund_actions := relay_dispute_fund_actions d;
  relay_settlement_retries := relay_settlement_retries d; relay_refund_log := f (relay_refund_log d) |}.

(** The tables right after [createAccountTables] and [createWithdrawalTables],
    in a minimal setup. *)
Definition createAccountTables : relay_db := {|
  relay_accounts := []; relay_transactions := []; relay_withdrawals := []; relay_pending_withdrawals := [];
  relay_allocations := []; relay_settlements := None; relay_disputes := None; agent_registry := None;
  relay_federation_settlements := []; relay_allocation_fees := []; relay_dispute_resolutions := [];
  relay_dispute_fund_actions := []; relay_settlement_retries := []; relay_refund_log := [] |}.

(** ** SQL statements *)

(** [INSERT] into a table with unique keys: throws on a row that [clashes]. *)
Definition insert_row {R} (clashes : R -> R -> bool) (row : R) (rows : list R)
    : result ledger_error (list R) :=
  if existsb (clashes row) rows then Throw Error_unique_constraint else Ok (rows ++ [row]).

(** [UPDATE ... SET f WHERE cond]: the rows and the number of rows changed. *)
Definition update_rows {R} (cond : R -> bool) (f : R -> R) (rows : list R) : list R :=
  (fun r => if cond r then f r else r) <$> rows.
Definition changes {R} (cond : R -> bool) (rows : list R) : nat := length (List.filter cond rows).

(** [SELECT COALESCE(SUM(f), 0) ... WHERE cond] *)
Definition select_sum {R} (cond : R -> bool) (f : R -> Z) (rows : list R) : Z :=
  zsum f (List.filter cond rows).

Definition same_account (a b : VirtualAccount) : bool :=
  bool_decide (va_motebit_id a = va_motebit_id b).
Definition same_txn (a b : txn_row) : bool :=
  bool_decide (transaction_id (txn a) = transaction_id (txn b)).

(** The primary key and the partial unique index on
    [(motebit_id, idempotency_key)]. *)
Definition same_withdrawal (a b : withdrawal_row) : bool :=
  bool_decide (withdrawal_id (wd a) = withdrawal_id (wd b)) ||
  (bool_decide (w_motebit_id (wd a) = w_motebit_id (wd b)) &&
   bool_decide (is_Some (idempotency_key a)) &&
   bool_decide (idempotency_key a = idempotency_key b)).
Definition same_pending (a b : pending_row) : bool :=
  bool_decide (pr_pendingId (pw a) = pr_pendingId (pw b)) ||
  (bool_decide (pr_motebitId (pw a) = pr_motebitId (pw b)) &&
   bool_decide (is_Some (pr_idempotencyKey (pw a))) &&
   bool_decide (pr_idempotencyKey (pw a) = pr_idempotencyKey (pw b))).

Definition open_status (st : WithdrawalStatus) : bool :=
  bool_decide (st = pending) || bool_decide (st = processing).

Definition FREE_CREDIT_REFERENCE_PREFIX : string := "free-credit:".

(** [reference_id LIKE 'free-credit:%']: SQLite's [LIKE] ignores ASCII case. *)
Definition like_free_credit (ref : option string) : bool :=
  match ref with
  | Some r => startsWith (toLowerCase FREE_CREDIT_REFERENCE_PREFIX) (toLowerCase r)
  | None => false
  end.

(** The rows the escrow hold counts. *)
Definition held_settlement (motebitId : string) (cutoff : Z) (disputes : list dispute_row)
    (s : settlement_row) : bool :=
  bool_decide (st_motebit_id s = motebitId) &&
  (bool_decide (st_status s = "completed"%string) || bool_decide (st_status s = "partial"%string)) &&
  bool_decide (default "relay"%string (settlement_mode s) = "relay"%string) &&
  (bool_decide (settled_at s > cutoff) ||
   existsb (fun d => bool_decide (d_task_id d = st_task_id s))
     (List.filter (fun d => negb (bool_decide (d_state d = "final"%string) ||
                             bool_decide (d_state d = "expired"%string))) disputes)).

Record AllocationStamp := { stamp_allocationId : string; stamp_kind : string }.

(** ** The store *)

Definition openStatus (from : WithdrawalStatus) : result ledger_error WithdrawalStatus :=
  match from with
  | pending | processing => Ok from
  | _ => Throw Error_invalid_from_status
  end.

(** Runs a guard that may throw before the rest of a method. *)
Definition check {W A B} (g : result ledger_error A) (k : A -> call W ledger_error B)
    : call W ledger_error B :=
  match g with Ok a => k a | Throw e => call_throw e end.

Section store.
Context {W : Type} `{!DatabaseDriver relay_db ledger_error W}.
Abbreviation db_call := (call W ledger_error).

Definition select {A} (q : relay_db -> A) : db_call A := run_sql (fun d => Ok (q d, d)).

Definition find_account (motebitId : string) (d : relay_db) : option VirtualAccount :=
  List.find (fun r => bool_decide (va_motebit_id r = motebitId)) (relay_accounts d).

Definition select_balance (motebitId : string) : db_call Z :=
  select (fun d => match find_account motebitId d with Some r => va_balance r | None => 0 end).

Definition getOrCreateAccount (motebitId : string) (now : Z) : db_call VirtualAccount :=
  let! existing := select (find_account motebitId) in
  match existing with
  | Some row => call_ret row
  | None =>
      let row := {| va_motebit_id := motebitId; va_balance := 0; va_currency := "USD";
                    va_created_at := now; va_updated_at := now |} in
      run_sql (fun d => match insert_row same_account row (relay_accounts d) with
                        | Ok rows => Ok (tt, upd_accounts (fun _ => rows) d)
                        | Throw e => Throw e
                        end) ;!
      call_ret row
  end.

Definition getAccount (motebitId : string) : db_call (option VirtualAccount) :=
  select (find_account motebitId).

(** [UPDATE relay_accounts SET balance = balance + delta, updated_at = now
    WHERE motebit_id = ? AND balance >= floor]; no [floor] for a credit. *)
Definition update_balance (motebitId : string) (delta : Z) (floor : option Z) (now : Z)
    : db_call nat :=
  let cond r := bool_decide (va_motebit_id r = motebitId) &&
                match floor with Some f => bool_decide (f <= va_balance r) | None => true end in
  let set r := {| va_motebit_id := va_motebit_id r; va_balance := va_balance r + delta;
                  va_currency := va_currency r; va_created_at := va_created_at r;
                  va_updated_at := now |} in
  run_sql (fun d => Ok (changes cond (relay_accounts d), upd_accounts (update_rows cond set) d)).

Definition insert_transaction (row : txn_row) : db_call unit :=
  run_sql (fun d => match insert_row same_txn row (relay_transactions d) with
                    | Ok rows => Ok (tt, upd_transactions (fun _ => rows) d)
                    | Throw e => Throw e
                    end).

(** The ledger row of a movement, with the stamp's columns. *)
Definition txn_values (transactionId motebitId : string) (type : TransactionType)
    (amount newBalance : Z) (referenceId description : option string) (now : Z)
    (stamp : option AllocationStamp) : txn_row := {|
  txn := {|
    transaction_id := transactionId; tx_motebit_id := motebitId; tx_type := type;
    tx_amount := amount; balance_after := newBalance; reference_id := referenceId;
    tx_description := description; tx_created_at := now |};
  allocation_id := stamp_allocationId <$> stamp;
  allocation_kind := stamp_kind <$> stamp |}.

Definition credit (motebitId : string) (amount : js_number) (type : TransactionType)
    (referenceId description : option string) (stamp : option AllocationStamp)
    (uuid : string) (now : Z) : db_call Z :=
  check (assertMicroUnits amount) (fun amount =>
  run_transaction (
    getOrCreateAccount motebitId now ;!
    update_balance motebitId amount None now ;!
    let! newBalance := select_balance motebitId in
    insert_transaction (txn_values uuid motebitId type amount newBalance referenceId description
                          now stamp) ;!
    call_ret newBalance)).

Definition debit (motebitId : string) (amount : js_number) (type : TransactionType)
    (referenceId description : option string) (stamp : option AllocationStamp)
    (uuid : string) (now : Z) : db_call (option Z) :=
  check (assertMicroUnits amount) (fun amount =>
  run_transaction (
    getOrCreateAccount motebitId now ;!
    let! info := update_balance motebitId (- amount) (Some amount) now in
    if decide (info = 0%nat) then call_ret None else
    let! newBalance := select_balance motebitId in
    insert_transaction (txn_values uuid motebitId type (- amount) newBalance referenceId
                          description now stamp) ;!
    call_ret (Some newBalance))).

(** [hasTables]: which of the tables other modules create exist. *)
Definition hasTables (exist : relay_db -> bool) : db_call bool := select exist.

Definition getUnwithdrawableHold (motebitId : string) (now : Z) : db_call Z :=
  let! present := hasTables (fun d => bool_decide (is_Some (relay_settlements d)) &&
                                      bool_decide (is_Some (relay_disputes d))) in
  if negb present then call_ret 0 else
  let cutoff := now - DISPUTE_WINDOW_MS in
  select (fun d => select_sum (held_settlement motebitId cutoff (default [] (relay_disputes d)))
                     amount_settled (default [] (relay_settlements d))).

Definition debitSpendable (motebitId : string) (amount : js_number) (type : TransactionType)
    (referenceId description : option string) (stamp : option AllocationStamp)
    (uuid : string) (now : Z) : db_call (option Z) :=
  check (assertMicroUnits amount) (fun amount =>
  run_transaction (
    getOrCreateAccount motebitId now ;!
    let! hold := getUnwithdrawableHold motebitId now in
    let! info := update_balance motebitId (- amount) (Some (amount + hold)) now in
    if decide (info = 0%nat) then call_ret None else
    let! newBalance := select_balance motebitId in
    insert_transaction (txn_values uuid motebitId type (- amount) newBalance referenceId
                          description now stamp) ;!
    call_ret (Some newBalance))).

(** [ORDER BY created_at DESC, rowid DESC LIMIT ?]: the table's reverse is the
    [rowid DESC] order, which the stable sort keeps within a timestamp. *)
Definition getTransactions (motebitId : string) (limit : nat) : db_call (list AccountTransaction) :=
  select (fun d => take limit
    (js_sort (fun a b => bool_decide (tx_created_at b <= tx_created_at a))
       (reverse (List.filter (fun t => bool_decide (tx_motebit_id t = motebitId))
                   (txn <$> relay_transactions d))))).

(** [SELECT 1 FROM relay_transactions WHERE motebit_id = ? AND reference_id = ?
    AND type = ? LIMIT 1] *)
Definition has_reference (type : TransactionType) (motebitId referenceId : string) : db_call bool :=
  select (fun d => existsb (fun t => bool_decide (tx_motebit_id t = motebitId) &&
                                     bool_decide (reference_id t = Some referenceId) &&
                                     bool_decide (tx_type t = type)) (txn <$> relay_transactions d)).

Definition hasDepositWithReference := has_reference deposit.
Definition hasFeeWithReference := has_reference fee.

Definition getAllocationHoldRemaining (referenceId : string) : db_call Z :=
  let! net := select (fun d => select_sum
    (fun t => bool_decide (reference_id t = Some referenceId) &&
              (bool_decide (tx_type t = allocation_hold) ||
               bool_decide (tx_type t = allocation_release)))
    tx_amount (txn <$> relay_transactions d)) in
  call_ret (Z.max 0 (- net)).

(** Called with the amount [debitAndRecordWithdrawal] has checked. *)
Definition insertWithdrawal (w : NewWithdrawal) (amount : Z) : db_call WithdrawalRequest :=
  let row := {| wd := fresh_withdrawal w amount; idempotency_key := nw_idempotency_key w |} in
  run_sql (fun d => match insert_row same_withdrawal row (relay_withdrawals d) with
                    | Ok rows => Ok (tt, upd_withdrawals (fun _ => rows) d)
                    | Throw e => Throw e
                    end) ;!
  call_ret (fresh_withdrawal w amount).

Definition getWithdrawalByIdempotencyKey (motebitId key : string)
    : db_call (option WithdrawalRequest) :=
  select (fun d => wd <$> List.find (fun r => bool_decide (w_motebit_id (wd r) = motebitId) &&
                                   bool_decide (idempotency_key r = Some key))
                     (relay_withdrawals d)).

Definition debitAndRecordWithdrawal (w : NewWithdrawal) (description : string)
    (uuid : string) (now : Z) : db_call record_result :=
  check (assertPositiveMicro (nw_amount w)) (fun amount =>
  run_transaction (
    let! existing := match nw_idempotency_key w with
                     | Some key => getWithdrawalByIdempotencyKey (nw_motebit_id w) key
                     | None => call_ret None
                     end in
    match existing with
    | Some e => call_ret (Existing e)
    | None =>
        let! newBalance := debit (nw_motebit_id w) (nw_amount w) withdrawal
          (Some (nw_withdrawal_id w)) (Some description) None uuid now in
        match newBalance with
        | None => call_ret InsufficientFunds
        | Some b => let! record := insertWithdrawal w amount in call_ret (Recorded record b)
        end
    end)).

(** [UPDATE relay_withdrawals SET f WHERE withdrawal_id = ? AND cond] *)
Definition update_withdrawal (id : string) (cond : WithdrawalRequest -> bool)
    (f : WithdrawalRequest -> WithdrawalRequest) : db_call bool :=
  let hit r := bool_decide (withdrawal_id (wd r) = id) && cond (wd r) in
  run_sql (fun d =>
    Ok (bool_decide (0 < changes hit (relay_withdrawals d))%nat,
        upd_withdrawals (update_rows hit (fun r =>
          {| wd := f (wd r); idempotency_key := idempotency_key r |})) d)).

Definition linkWithdrawalTransfer (id payoutReference : string) : db_call bool :=
  update_withdrawal id
    (fun w => open_status (w_status w) && bool_decide (payout_reference w = None))
    (with_reference payoutReference).

Definition claimWithdrawalForPayout (id : string) (claimedAt : Z) (payoutValidUntil : option Z)
    : db_call bool :=
  update_withdrawal id (fun w => bool_decide (w_status w = pending))
    (with_claim claimedAt payoutValidUntil).

Definition setWithdrawalSignature (id signature publicKey : string) : db_call unit :=
  update_withdrawal id (fun _ => true) (with_signature signature publicKey) ;! call_ret tt.

Definition setWithdrawalCompletion (id payoutReference : string) (completedAt : Z)
    (from : WithdrawalStatus) : db_call bool :=
  check (openStatus from) (fun from =>
  update_withdrawal id (fun w => bool_decide (w_status w = from))
    (with_completion payoutReference completedAt)).

Definition getWithdrawalById (id : string) : db_call (option WithdrawalRequest) :=
  select (fun d => wd <$> List.find (fun r => bool_decide (withdrawal_id (wd r) = id))
                            (relay_withdrawals d)).

Definition failWithdrawalAndRefund (id reason : string) (from : WithdrawalStatus) (failedAt : Z)
    (uuid : string) (now : Z) : db_call (option (string * Z)) :=
  check (openStatus from) (fun fromStatus =>
  run_transaction (
    let! changed := update_withdrawal id (fun w => bool_decide (w_status w = fromStatus))
                      (with_failure reason failedAt) in
    if negb changed then call_ret None else
    let! row := getWithdrawalById id in
    match row with
    | None => call_throw Error_withdrawal_vanished
    | Some w =>
        credit (w_motebit_id w) (JInt (w_amount w)) withdrawal (Some id)
          (Some (String.append "Withdrawal failed: " reason)) None uuid now ;!
        call_ret (Some (w_motebit_id w, w_amount w))
    end)).

Definition with_queue_status (st : queue_status) (r : PendingRow) : PendingRow := {|
  pr_pendingId := pr_pendingId r; pr_motebitId := pr_motebitId r;
  pr_amountMicro := pr_amountMicro r; pr_destination := pr_destination r; pr_rail := pr_rail r;
  pr_source := pr_source r; pr_enqueuedAt := pr_enqueuedAt r; pr_status := st;
  pr_idempotencyKey := pr_idempotencyKey r |}.

Definition refundPendingWithdrawal (pendingId : string) (refundedAt : Z) (uuid : string) (now : Z)
    : db_call bool :=
  let hit r := bool_decide (pr_pendingId (pw r) = pendingId) &&
               bool_decide (pr_status (pw r) = q_refund_owed) in
  run_transaction (
    let! info := run_sql (fun d =>
      Ok (changes hit (relay_pending_withdrawals d),
          upd_pending (update_rows hit (fun r =>
            {| pw := with_queue_status q_refunded (pw r); last_attempt_at := Some refundedAt;
               last_error := last_error r; linked_withdrawal := linked_withdrawal r |})) d)) in
    if decide (info = 0%nat) then call_ret false else
    let! row := select (fun d => List.find (fun r => bool_decide (pr_pendingId (pw r) = pendingId))
                                   (relay_pending_withdrawals d)) in
    match row with
    | None => call_throw Error_pending_vanished
    | Some r =>
        credit (pr_motebitId (pw r)) (JInt (pr_amountMicro (pw r))) withdrawal (Some pendingId)
          (Some (String.append "Pending withdrawal " (String.append pendingId
             (String.append " not sent: " (default "refunded"%string (last_error r))))))
          None uuid now ;!
        call_ret true
    end).

Definition noteWithdrawalPayoutUnresolved (id note : string) : db_call bool :=
  update_withdrawal id (fun w => bool_decide (w_status w = processing)) (with_note note).

(** [ORDER BY requested_at] leaves ties in an order SQL does not fix; the model
    keeps the table's. *)
Definition getWithdrawals (motebitId : string) (limit : nat) : db_call (list WithdrawalRequest) :=
  select (fun d => take limit
    (js_sort (fun a b => bool_decide (requested_at b <= requested_at a))
       (List.filter (fun w => bool_decide (w_motebit_id w = motebitId))
          (wd <$> relay_withdrawals d)))).

Definition getPendingWithdrawalsAdmin : db_call (list WithdrawalRequest) :=
  select (fun d => js_sort (fun a b => bool_decide (requested_at a <= requested_at b))
    (List.filter (fun w => open_status (w_status w)) (wd <$> relay_withdrawals d))).

Definition getPendingWithdrawalsTotal (motebitId : string) : db_call Z :=
  select (fun d => select_sum (fun w => bool_decide (w_motebit_id w = motebitId) &&
                                        open_status (w_status w))
                     w_amount (wd <$> relay_withdrawals d)).

Definition getPendingAllocationsTotal (motebitId : string) : db_call Z :=
  select (fun d => select_sum (fun a => bool_decide (al_motebit_id a = motebitId) &&
                                        bool_decide (al_status a = "locked"%string))
                     amount_locked (relay_allocations d)).

Definition getSweepConfig (motebitId : string) : db_call SweepConfig :=
  let none := {| sweep_threshold := None; settlement_address := None |} in
  let! present := hasTables (fun d => bool_decide (is_Some (agent_registry d))) in
  if negb present then call_ret none else
  let! row := select (fun d => List.find (fun a => bool_decide (ag_motebit_id a = motebitId))
                                 (default [] (agent_registry d))) in
  call_ret (match row with
            | Some a => {| sweep_threshold := ag_sweep_threshold a;
                           settlement_address := ag_settlement_address a |}
            | None => none
            end).

Definition getUnspentGrantHold (motebitId : string) : db_call Z :=
  let! present := hasTables (fun _ => true) in
  if negb present then call_ret 0 else
  let! granted := select (fun d => select_sum
    (fun t => bool_decide (tx_motebit_id t = motebitId) && bool_decide (tx_type t = deposit) &&
              like_free_credit (reference_id t)) tx_amount (txn <$> relay_transactions d)) in
  if decide (granted <= 0) then call_ret 0 else
  let! spend := select (fun d => select_sum
    (fun t => bool_decide (tx_motebit_id t = motebitId) && bool_decide (tx_type t = fee))
    tx_amount (txn <$> relay_transactions d)) in
  let inferenceSpend := - spend in
  call_ret (Z.max 0 (granted - inferenceSpend)).

Definition debitAndEnqueuePending (args : EnqueueArgs) (pendingUuid uuid : string) (now : Z)
    : db_call (option (string * Z)) :=
  check (assertMicroUnits (ea_amountMicro args)) (fun amount =>
  let pendingId := default pendingUuid (ea_pendingId args) in
  let description :=
    default (String.append "Pending withdrawal " (String.append pendingId
              (String.append " → " (String.append (ea_destination args)
                (String.append " via " (ea_rail args)))))) (ea_description args) in
  run_transaction (
    let! existing := match ea_idempotencyKey args with
                     | Some key => select (fun d => List.find (fun r =>
                         bool_decide (pr_motebitId (pw r) = ea_motebitId args) &&
                         bool_decide (pr_idempotencyKey (pw r) = Some key))
                         (relay_pending_withdrawals d))
                     | None => call_ret None
                     end in
    match existing with
    | Some r =>
        let! balance := select_balance (ea_motebitId args) in
        call_ret (Some (pr_pendingId (pw r), balance))
    | None =>
        getOrCreateAccount (ea_motebitId args) now ;!
        let! info := update_balance (ea_motebitId args) (- amount) (Some amount) now in
        if decide (info = 0%nat) then call_ret None else
        let! newBalance := select_balance (ea_motebitId args) in
        insert_transaction (txn_values uuid (ea_motebitId args) withdrawal (- amount) newBalance
                              (Some pendingId) (Some description) now None) ;!
        let row := {| pw := {|
          pr_pendingId := pendingId; pr_motebitId := ea_motebitId args;
          pr_amountMicro := amount; pr_destination := ea_destination args;
          pr_rail := ea_rail args; pr_source := ea_source args; pr_enqueuedAt := now;
          pr_status := q_pending; pr_idempotencyKey := ea_idempotencyKey args |};
          last_attempt_at := None; last_error := None; linked_withdrawal := None |} in
        run_sql (fun d => match insert_row same_pending row (relay_pending_withdrawals d) with
                          | Ok rows => Ok (tt, upd_pending (fun _ => rows) d)
                          | Throw e => Throw e
                          end) ;!
        call_ret (Some (pendingId, newBalance))
    end)).
End store.
