(* ===== verification/SqlRefines.v ===== *)
(** * The SQLite store implements the in-memory one

    The relay runs [SqliteAccountStore]; tests and other consumers run
    [InMemoryAccountStore] ([MemStore]).  [rel] relates their states; every
    mutating call of the interface preserves it and answers the same, and a call
    that throws leaves the database as it was, wherever a statement failed.  The
    ledger properties of [MemStore] therefore hold of the tables. *)

From Stdlib Require Import Ascii.
From S2P Require Import Prelude JsMap JsString LedgerTypes MemStore Driver SqlStore.
Local Open Scope Z_scope.

(** ** One dispatcher per store *)

Inductive ledger_value :=
| VUnit
| VBalance (b : Z)
| VOptBalance (b : option Z)
| VBool (b : bool)
| VRefund (r : option (string * Z))
| VRecord (r : record_result)
| VEnqueued (r : option (string * Z)).

(** What a call of the in-memory store answers. *)
Definition mem_answer (hold : string -> Z) (op : ledger_op) (now : Z) (m : InMemoryAccountStore)
    : result ledger_error ledger_value :=
  match op with
  | OGetOrCreate id => Ok (VBalance (va_balance (MemStore.getOrCreateAccount id now m).1))
  | OCredit id a ty r d => Ok (VBalance (MemStore.credit id a ty r d now m).1)
  | ODebit id a ty r d => Ok (VOptBalance (MemStore.debit id a ty r d now m).1)
  | ODebitSpendable id a ty r d =>
      Ok (VOptBalance (MemStore.debitSpendable hold id a ty r d now m).1)
  | OLink wid r => Ok (VBool (MemStore.linkWithdrawalTransfer wid r m).1)
  | OClaim wid c u => Ok (VBool (MemStore.claimWithdrawalForPayout wid c u m).1)
  | OSign _ _ _ => Ok VUnit
  | OComplete wid r c f => Ok (VBool (MemStore.setWithdrawalCompletion wid r c f m).1)
  | OFail wid r f fa => Ok (VRefund (MemStore.failWithdrawalAndRefund wid r f fa now m).1)
  | ONote wid n => Ok (VBool (MemStore.noteWithdrawalPayoutUnresolved wid n m).1)
  | ORecord w d =>
      match MemStore.debitAndRecordWithdrawal w d now m with
      | Ok (r, _) => Ok (VRecord r)
      | Throw e => Throw e
      end
  | OEnqueue args a => Ok (VEnqueued (MemStore.debitAndEnqueuePending args a now m).1)
  end.

Section dispatch.
Context {W : Type} `{!DatabaseDriver relay_db ledger_error W}.
Local Open Scope motebit_scope.

Definition answer {A} (f : A -> ledger_value) (m : call W ledger_error A)
    : call W ledger_error ledger_value :=
  let! a := m in call_ret (f a).

(** The same call of the SQLite store; [uuid] is the id its ledger row gets. *)
Definition sql_call (op : ledger_op) (uuid : string) (now : Z)
    : call W ledger_error ledger_value :=
  match op with
  | OGetOrCreate id => answer (fun r => VBalance (va_balance r)) (getOrCreateAccount id now)
  | OCredit id a ty r d => answer VBalance (credit id (JInt a) ty r d None uuid now)
  | ODebit id a ty r d => answer VOptBalance (debit id (JInt a) ty r d None uuid now)
  | ODebitSpendable id a ty r d =>
      answer VOptBalance (debitSpendable id (JInt a) ty r d None uuid now)
  | OLink wid r => answer VBool (linkWithdrawalTransfer wid r)
  | OClaim wid c u => answer VBool (claimWithdrawalForPayout wid c u)
  | OSign wid sg pk => answer (fun _ => VUnit) (setWithdrawalSignature wid sg pk)
  | OComplete wid r c f => answer VBool (setWithdrawalCompletion wid r c f)
  | OFail wid r f fa => answer VRefund (failWithdrawalAndRefund wid r f fa uuid now)
  | ONote wid n => answer VBool (noteWithdrawalPayoutUnresolved wid n)
  | ORecord w d => answer VRecord (debitAndRecordWithdrawal w d uuid now)
  | OEnqueue args _ => answer VEnqueued (debitAndEnqueuePending args EmptyString uuid now)
  end.
End dispatch.

(** ** The relation *)

Definition sql_balance (id : string) (d : relay_db) : Z :=
  match find_account id d with Some r => va_balance r | None => 0 end.

(** A ledger row without its id: the stores mint different ids. *)
Definition erase_id (t : AccountTransaction) : AccountTransaction := {|
  transaction_id := EmptyString; tx_motebit_id := tx_motebit_id t; tx_type := tx_type t;
  tx_amount := tx_amount t; balance_after := balance_after t; reference_id := reference_id t;
  tx_description := tx_description t; tx_created_at := tx_created_at t |}.

Fixpoint colon_free (s : string) : bool :=
  match s with
  | EmptyString => true
  | String c s => negb (Ascii.eqb c ":"%char) && colon_free s
  end.

Definition find_keyed (motebitId key : string) (rows : list withdrawal_row)
    : option withdrawal_row :=
  List.find (fun r => bool_decide (w_motebit_id (wd r) = motebitId) &&
                      bool_decide (idempotency_key r = Some key)) rows.

Record rel (m : InMemoryAccountStore) (d : relay_db) : Prop := {
  rel_balance : forall id, balance_of id m = sql_balance id d;
  rel_accounts : NoDup (va_motebit_id <$> relay_accounts d);
  rel_txns : erase_id <$> transactions m = (fun r => erase_id (txn r)) <$> relay_transactions d;
  rel_withdrawals :
    withdrawals m = (fun r => (withdrawal_id (wd r), wd r)) <$> relay_withdrawals d;
  rel_wids : NoDup ((fun r => withdrawal_id (wd r)) <$> relay_withdrawals d);
  rel_named : EmptyString ∉ (fun r => withdrawal_id (wd r)) <$> relay_withdrawals d;
  rel_queue :
    pendingWithdrawals m = (fun r => (pr_pendingId (pw r), pw r)) <$> relay_pending_withdrawals d;
  rel_qids : NoDup ((fun r => pr_pendingId (pw r)) <$> relay_pending_withdrawals d);
  rel_index : forall mb key, colon_free mb = true ->
    jm_get (index_key mb key) (idempotencyIndex m)
    = (fun r => withdrawal_id (wd r)) <$> find_keyed mb key (relay_withdrawals d);
}.

(** What a call must respect for the two stores to agree: a fresh row id; an
    open [from]; ids that are fresh, not empty and, for the in-memory key index,
    without a colon; a queue id chosen by the caller. *)
Definition call_fits (op : ledger_op) (uuid : string) (d : relay_db) : Prop :=
  Forall (fun r => transaction_id (txn r) <> uuid) (relay_transactions d) /\
  match op with
  | OComplete _ _ _ from | OFail _ _ from _ => isOpenFrom from = true
  | ORecord w _ =>
      Forall (fun r => withdrawal_id (wd r) <> nw_withdrawal_id w) (relay_withdrawals d) /\
      nw_withdrawal_id w <> EmptyString /\ colon_free (nw_motebit_id w) = true
  | OEnqueue args a =>
      ea_amountMicro args = JInt a /\
      exists id, ea_pendingId args = Some id /\
        Forall (fun r => pr_pendingId (pw r) <> id) (relay_pending_withdrawals d)
  | _ => True
  end.

(** ** Lists of rows *)

Lemma insert_row_ok {R} (clashes : R -> R -> bool) row rows :
  Forall (fun r => clashes row r = false) rows -> insert_row clashes row rows = Ok (rows ++ [row]).
Proof.
  intros H. unfold insert_row. destruct (existsb _ _) eqn:E; [|done].
  apply existsb_exists in E as (r & Hr & Hc). rewrite Forall_forall in H.
  rewrite H in Hc; [done|by apply list_elem_of_In].
Qed.

Lemma find_fmap {A B} (f : A -> B) (p : B -> bool) (l : list A) :
  List.find p (f <$> l) = f <$> List.find (fun x => p (f x)) l.
Proof. induction l as [|x l IH]; [done|]. cbn. by destruct (p (f x)). Qed.

Lemma find_ext {A} (p q : A -> bool) (l : list A) :
  (forall x, p x = q x) -> List.find p l = List.find q l.
Proof. intros H. induction l as [|x l IH]; [done|]. cbn. by rewrite H, IH. Qed.

Lemma find_app {A} (p : A -> bool) (l1 l2 : list A) :
  List.find p (l1 ++ l2) = match List.find p l1 with Some x => Some x | None => List.find p l2 end.
Proof. induction l1 as [|x l IH]; [done|]. cbn. by destruct (p x). Qed.

Lemma find_none_forall {A} (p : A -> bool) (l : list A) :
  List.find p l = None <-> Forall (fun x => p x = false) l.
Proof.
  induction l as [|x l IH]; cbn; [by split|].
  rewrite Forall_cons. destruct (p x); [by split; [done|intros [? _]]|]. by rewrite IH; naive_solver.
Qed.

(** A map keyed by its values' own ids. *)
Section keyed.
Context {R K V : Type} `{!EqDecision K} (key : R -> K) (val : R -> V).
Abbreviation keyed_map := (fmap (fun r => (key r, val r))).

Lemma jm_get_keyed k (rows : list R) :
  jm_get k (keyed_map rows) = val <$> List.find (fun r => bool_decide (key r = k)) rows.
Proof.
  induction rows as [|r rows IH]; [done|]. cbn.
  destruct (decide (k = key r)) as [->|Hne].
  - by rewrite bool_decide_eq_true_2.
  - by rewrite bool_decide_eq_false_2.
Qed.

Lemma jm_set_keyed_new k v (rows : list R) r :
  key r = k -> val r = v -> Forall (fun r => key r <> k) rows ->
  jm_set k v (keyed_map rows) = keyed_map (rows ++ [r]).
Proof.
  intros Hk Hv. induction 1 as [|r' rows Hr _ IH]; cbn; [by rewrite Hk, Hv|].
  rewrite decide_False by congruence. f_equal. exact IH.
Qed.

(** [UPDATE ... WHERE id = k AND cond] is a guarded [set] of that key. *)
Lemma keyed_update k (cond : V -> bool) (f : V -> V) (g : R -> R) (rows : list R) :
  (forall r, key (g r) = key r) -> (forall r, val (g r) = f (val r)) ->
  NoDup (key <$> rows) ->
  let hit r := bool_decide (key r = k) && cond (val r) in
  match val <$> List.find (fun r => bool_decide (key r = k)) rows with
  | Some v =>
      if cond v then changes hit rows = 1%nat /\
        keyed_map (update_rows hit g rows) = jm_set k (f v) (keyed_map rows)
      else changes hit rows = 0%nat /\ update_rows hit g rows = rows
  | None => changes hit rows = 0%nat /\ update_rows hit g rows = rows
  end.
Proof.
  intros Hgk Hgv. unfold changes, update_rows.
  assert (forall rows, k ∉ key <$> rows ->
    List.filter (fun r => bool_decide (key r = k) && cond (val r)) rows = [] /\
    ((fun r => if bool_decide (key r = k) && cond (val r) then g r else r) <$> rows) = rows) as Hnone.
  { clear rows. intros rows. induction rows as [|r rows IH]; [done|]. cbn.
    intros [Hk Hr]%not_elem_of_cons. rewrite bool_decide_eq_false_2 by congruence. cbn.
    destruct (IH Hr) as [-> ->]. done. }
  induction rows as [|r rows IH]; [done|]. cbn. intros [Hr Hnd]%NoDup_cons.
  destruct (decide (key r = k)) as [<-|Hk].
  - rewrite bool_decide_eq_true_2 by done. cbn. destruct (Hnone rows Hr) as [H1 H2].
    destruct (cond (val r)); cbn; rewrite ?H1, ?H2; [|done].
    split; [done|]. rewrite decide_True by done. by rewrite Hgk, Hgv.
  - rewrite bool_decide_eq_false_2 by done. cbn. specialize (IH Hnd). cbn in IH.
    destruct (val <$> List.find (fun r => bool_decide (key r = k)) rows) as [v|]; cbn.
    + rewrite decide_False by congruence.
      destruct (cond v); cbn; destruct IH as [-> IH]; (split; [done|]); f_equal; exact IH.
    + destruct IH as [-> IH]. split; [done|]. f_equal; exact IH.
Qed.
End keyed.

(** ** The money movements, on the database alone *)

Definition bal_in (id : string) (rows : list VirtualAccount) : Z :=
  match List.find (fun r => bool_decide (va_motebit_id r = id)) rows with
  | Some r => va_balance r
  | None => 0
  end.

(** [d'] is [d] with [a] added to the balance of [id] and [l] to the ledger. *)
Record moved (id : string) (a : Z) (l : list txn_row) (d d' : relay_db) : Prop := {
  mv_balance : forall i, sql_balance i d' = sql_balance i d + (if decide (i = id) then a else 0);
  mv_accounts : NoDup (va_motebit_id <$> relay_accounts d');
  mv_rest : exists rows,
    d' = upd_accounts (fun _ => rows) (upd_transactions (fun t => t ++ l) d);
}.

Section pure.
Abbreviation run m := (m : call relay_db ledger_error _).

Lemma bal_in_keyed id rows :
  bal_in id rows = match jm_get id ((fun r => (va_motebit_id r, r)) <$> rows) with
                   | Some r => va_balance r
                   | None => 0
                   end.
Proof.
  unfold bal_in. rewrite (jm_get_keyed va_motebit_id (fun r => r)).
  by destruct (List.find _ rows).
Qed.

Lemma upd_accounts_rows f d :
  upd_accounts f d
  = upd_accounts (fun _ => f (relay_accounts d)) (upd_transactions (fun t => t ++ []) d).
Proof. unfold upd_accounts, upd_transactions. cbn. by rewrite app_nil_r. Qed.

Lemma getOrCreate_pure id now d :
  NoDup (va_motebit_id <$> relay_accounts d) ->
  exists row d', run (getOrCreateAccount id now) d = (Ok row, d') /\ moved id 0 [] d d' /\
    List.find (fun r => bool_decide (va_motebit_id r = id)) (relay_accounts d') = Some row /\
    va_balance row = sql_balance id d.
Proof.
  intros Hnd. unfold getOrCreateAccount, select, call_bind, run_sql. cbn.
  unfold stmt_fn at 1. unfold find_account, sql_balance.
  destruct (List.find _ (relay_accounts d)) as [row|] eqn:E.
  - exists row, d. split; [done|]. split; [|by unfold find_account; rewrite E]. split.
    + intros i. case_decide; lia.
    + done.
    + exists (relay_accounts d). destruct d. unfold upd_accounts, upd_transactions. cbn. by rewrite app_nil_r.
  - eapply find_none_forall in E as Hn. unfold stmt_fn. cbn.
    rewrite insert_row_ok.
    2:{ eapply Forall_impl; [exact Hn|]. cbn. intros r Hr%bool_decide_eq_false.
        apply bool_decide_eq_false_2. cbn. congruence. }
    eexists _, _. split; [reflexivity|]. cbn. rewrite find_app, E. cbn.
    rewrite bool_decide_eq_true_2 by done. unfold find_account. rewrite E. split; [|done]. split.
    + intros i. unfold sql_balance, find_account. cbn. rewrite find_app. cbn.
      destruct (decide (i = id)) as [->|Hi].
      * rewrite E. by rewrite bool_decide_eq_true_2.
      * rewrite (bool_decide_eq_false_2 (id = i)) by congruence.
        destruct (List.find (fun r => bool_decide (va_motebit_id r = i)) (relay_accounts d)); cbn; lia.
    + cbn. rewrite fmap_app. apply NoDup_app. split; [done|]. split; [|apply NoDup_singleton].
      intros x (r & -> & Hr)%list_elem_of_fmap Heq%list_elem_of_singleton.
      rewrite Forall_forall in Hn. specialize (Hn r Hr). by rewrite bool_decide_eq_true_2 in Hn.
    + eexists. apply upd_accounts_rows.
Qed.

(** The guarded [UPDATE] of a balance either passes its floor or does nothing. *)
Lemma update_balance_pure id delta floor now row d :
  NoDup (va_motebit_id <$> relay_accounts d) ->
  List.find (fun r => bool_decide (va_motebit_id r = id)) (relay_accounts d) = Some row ->
  (match floor with Some f => f <= va_balance row | None => True end /\
   exists d', run (update_balance id delta floor now) d = (Ok 1%nat, d') /\ moved id delta [] d d') \/
  (match floor with Some f => va_balance row < f | None => False end /\
   run (update_balance id delta floor now) d = (Ok 0%nat, d)).
Proof.
  intros Hnd Hrow. unfold update_balance. cbn. unfold stmt_fn.
  set (pass := fun r => match floor with Some f => bool_decide (f <= va_balance r) | None => true end).
  set (set' := fun r => {| va_motebit_id := va_motebit_id r; va_balance := va_balance r + delta;
    va_currency := va_currency r; va_created_at := va_created_at r; va_updated_at := now |}).
  pose proof (keyed_update va_motebit_id (fun r => r) id pass set' set' (relay_accounts d)
    (fun _ => eq_refl) (fun _ => eq_refl) Hnd) as H. cbn in H.
  rewrite Hrow in H. cbn in H. change (fun r => bool_decide (va_motebit_id r = id) && _) with
    (fun r => bool_decide (va_motebit_id r = id) && pass r).
  destruct (pass row) eqn:P.
  - left. destruct H as [Hc Hk]. split.
    { unfold pass in P. destruct floor; [|done]. by apply bool_decide_eq_true in P. }
    eexists. split; [by rewrite Hc|]. split.
    + intros i. unfold sql_balance, find_account. cbn. fold (bal_in i (relay_accounts d)).
      match goal with |- context [List.find _ (update_rows ?c ?s ?l)] =>
        fold (bal_in i (update_rows c s l)) end.
      rewrite !bal_in_keyed, Hk, jm_get_set. destruct (decide (i = id)) as [->|].
      * rewrite (jm_get_keyed va_motebit_id (fun r => r)), Hrow. done.
      * lia.
    + cbn. apply (f_equal (fmap fst)) in Hk. rewrite <- !list_fmap_compose in Hk.
      change (fst ∘ (fun r : VirtualAccount => (va_motebit_id r, r))) with va_motebit_id in Hk.
      rewrite Hk. apply jm_wf_set. unfold jm_wf, jm_keys. by rewrite <- list_fmap_compose.
    + eexists. apply upd_accounts_rows.
  - right. destruct H as [Hc Hk]. rewrite Hc. split.
    { unfold pass in P. destruct floor; [|done]. apply bool_decide_eq_false in P. lia. }
    unfold upd_accounts. rewrite Hk. by destruct d.
Qed.

Lemma moved_trans id a b l1 l2 d1 d2 d3 :
  moved id a l1 d1 d2 -> moved id b l2 d2 d3 -> moved id (a + b) (l1 ++ l2) d1 d3.
Proof.
  intros [H1 _ [r1 ->]] [H2 Hn [r2 ->]]. split; [|done|].
  - intros i. rewrite H2, H1. case_decide; lia.
  - exists r2. destruct d1. unfold upd_accounts, upd_transactions. cbn. by rewrite app_assoc.
Qed.

Lemma select_balance_pure id d : run (select_balance id) d = (Ok (sql_balance id d), d).
Proof. done. Qed.

Lemma insert_transaction_pure id row d :
  NoDup (va_motebit_id <$> relay_accounts d) ->
  Forall (fun r => transaction_id (txn r) <> transaction_id (txn row)) (relay_transactions d) ->
  exists d', run (insert_transaction row) d = (Ok tt, d') /\ moved id 0 [row] d d'.
Proof.
  intros Hnd Hf. unfold insert_transaction. cbn. unfold stmt_fn. rewrite insert_row_ok.
  2:{ eapply Forall_impl; [exact Hf|]. cbn. intros r Hr. apply bool_decide_eq_false_2. congruence. }
  eexists. split; [reflexivity|]. split; [|done|].
  - intros i. change (sql_balance i d = sql_balance i d + if decide (i = id) then 0 else 0).
    case_decide; lia.
  - exists (relay_accounts d). by destruct d.
Qed.
Lemma call_bind_run {W E A B} (m : call W E A) (k : A -> call W E B) w a w' :
  m w = (Ok a, w') -> call_bind m k w = k a w'.
Proof. unfold call_bind. by intros ->. Qed.

Lemma pure_transaction {A} (m : call relay_db ledger_error A) d :
  run_transaction m d = all_or_nothing m d.
Proof. done. Qed.

Definition fresh_uuid (uuid : string) (d : relay_db) : Prop :=
  Forall (fun r => transaction_id (txn r) <> uuid) (relay_transactions d).

Lemma moved_tables id a d d' :
  moved id a [] d d' -> relay_transactions d' = relay_transactions d.
Proof. intros [_ _ [rows ->]]. cbn. by rewrite app_nil_r. Qed.

Lemma moved_balance id a l d d' : moved id a l d d' -> sql_balance id d' = sql_balance id d + a.
Proof. intros [H _ _]. rewrite H. by rewrite decide_True. Qed.

(** The steps a debit and a credit share once the account exists: the guarded
    update passed, the ledger row goes in. *)
Lemma record_move_pure id a uuid ty ref desc stamp now d d1 :
  moved id a [] d d1 -> fresh_uuid uuid d ->
  exists d2,
    run (let! b := select_balance id in
         (insert_transaction (txn_values uuid id ty a b ref desc now stamp) ;!
          call_ret b)%motebit)%motebit d1 = (Ok (sql_balance id d + a), d2) /\
    moved id a [txn_values uuid id ty a (sql_balance id d + a) ref desc now stamp] d d2.
Proof.
  intros Hm Hf. rewrite (call_bind_run _ _ _ _ _ (select_balance_pure id d1)).
  rewrite (moved_balance _ _ _ _ _ Hm).
  destruct (insert_transaction_pure id
    (txn_values uuid id ty a (sql_balance id d + a) ref desc now stamp) d1) as (d2 & Hi & Hm2).
  - apply Hm.
  - rewrite (moved_tables _ _ _ _ Hm). exact Hf.
  - exists d2. rewrite (call_bind_run _ _ _ _ _ Hi). split; [done|].
    pose proof (moved_trans _ _ _ _ _ _ _ _ Hm Hm2) as H. by rewrite Z.add_0_r in H.
Qed.

Lemma credit_pure id a ty ref desc stamp uuid now d :
  NoDup (va_motebit_id <$> relay_accounts d) -> fresh_uuid uuid d ->
  exists d', run (credit id (JInt a) ty ref desc stamp uuid now) d
      = (Ok (sql_balance id d + a), d') /\
    moved id a [txn_values uuid id ty a (sql_balance id d + a) ref desc now stamp] d d'.
Proof.
  intros Hnd Hf. unfold credit. cbn [assertMicroUnits check].
  destruct (getOrCreate_pure id now d Hnd) as (row & d1 & H1 & Hm1 & Hrow & _).
  destruct (update_balance_pure id a None now row d1) as [[_ (d2 & H2 & Hm2)]|[[] _]];
    [apply Hm1|done|].
  pose proof (moved_trans _ _ _ _ _ _ _ _ Hm1 Hm2) as Hm. rewrite Z.add_0_l in Hm.
  destruct (record_move_pure id a uuid ty ref desc stamp now d d2 Hm Hf) as (d3 & H3 & Hm3).
  exists d3. split; [|done]. rewrite pure_transaction. unfold all_or_nothing.
  rewrite (call_bind_run _ _ _ _ _ H1), (call_bind_run _ _ _ _ _ H2).
  by rewrite H3.
Qed.

(** The debits: [floor] is what the balance must reach. *)
Lemma guarded_debit_pure id a floor ty ref desc stamp uuid now row d d1 :
  moved id 0 [] d d1 -> fresh_uuid uuid d ->
  List.find (fun r => bool_decide (va_motebit_id r = id)) (relay_accounts d1) = Some row ->
  va_balance row = sql_balance id d ->
  let body := (let! info := update_balance id (- a) (Some floor) now in
               if decide (info = 0%nat) then call_ret None else
               let! b := select_balance id in
               insert_transaction (txn_values uuid id ty (- a) b ref desc now stamp) ;!
               call_ret (Some b))%motebit in
  (sql_balance id d < floor /\ run body d1 = (Ok None, d1)) \/
  (floor <= sql_balance id d /\ exists d', run body d1 = (Ok (Some (sql_balance id d - a)), d') /\
    moved id (- a) [txn_values uuid id ty (- a) (sql_balance id d - a) ref desc now stamp] d d').
Proof.
  intros Hm1 Hf Hrow Hb body. unfold body.
  destruct (update_balance_pure id (- a) (Some floor) now row d1)
    as [[Hle (d2 & H2 & Hm2)]|[Hlt H2]]; [apply Hm1|done| |].
  - right. rewrite <- Hb. split; [done|].
    pose proof (moved_trans _ _ _ _ _ _ _ _ Hm1 Hm2) as Hm. rewrite Z.add_0_l in Hm.
    destruct (record_move_pure id (- a) uuid ty ref desc stamp now d d2 Hm Hf) as (d3 & H3 & Hm3).
    exists d3. rewrite (call_bind_run _ _ _ _ _ H2), decide_False by done.
    revert H3. unfold call_bind. destruct (run (select_balance id) d2) as [[b|e] d4]; [|done].
    destruct (run (insert_transaction _) d4) as [[[]|e] d5]; [|done].
    intros [= -> ->]. rewrite Hb. by split.
  - left. rewrite <- Hb. split; [done|]. by rewrite (call_bind_run _ _ _ _ _ H2).
Qed.

Lemma debit_pure id a ty ref desc stamp uuid now d :
  NoDup (va_motebit_id <$> relay_accounts d) -> fresh_uuid uuid d ->
  (sql_balance id d < a /\ exists d',
     run (debit id (JInt a) ty ref desc stamp uuid now) d = (Ok None, d') /\ moved id 0 [] d d') \/
  (a <= sql_balance id d /\ exists d',
     run (debit id (JInt a) ty ref desc stamp uuid now) d = (Ok (Some (sql_balance id d - a)), d') /\
     moved id (- a) [txn_values uuid id ty (- a) (sql_balance id d - a) ref desc now stamp] d d').
Proof.
  intros Hnd Hf. unfold debit. cbn [assertMicroUnits check].
  destruct (getOrCreate_pure id now d Hnd) as (row & d1 & H1 & Hm1 & Hrow & Hb).
  rewrite pure_transaction. unfold all_or_nothing. rewrite (call_bind_run _ _ _ _ _ H1).
  destruct (guarded_debit_pure id a a ty ref desc stamp uuid now row d d1 Hm1 Hf Hrow Hb)
    as [[Hlt ->]|[Hle (d' & -> & Hm)]]; [left|right]; eauto.
Qed.

Definition escrow_hold (id : string) (now : Z) (d : relay_db) : Z :=
  match relay_settlements d, relay_disputes d with
  | Some st, Some ds =>
      select_sum (held_settlement id (now - DISPUTE_WINDOW_MS) ds) amount_settled st
  | _, _ => 0
  end.

Lemma hold_pure id now d : run (getUnwithdrawableHold id now) d = (Ok (escrow_hold id now d), d).
Proof.
  unfold getUnwithdrawableHold, hasTables, select, call_bind, escrow_hold. cbn. unfold stmt_fn.
  destruct (relay_settlements d) as [st|] eqn:E1; [|done].
  destruct (relay_disputes d) as [ds|] eqn:E2; [|done]. cbn. by rewrite E1, E2.
Qed.

Lemma escrow_hold_moved id i a l now d d' :
  moved i a l d d' -> escrow_hold id now d' = escrow_hold id now d.
Proof. by intros [_ _ [rows ->]]. Qed.

Lemma debitSpendable_pure id a ty ref desc stamp uuid now d :
  NoDup (va_motebit_id <$> relay_accounts d) -> fresh_uuid uuid d ->
  let m := run (debitSpendable id (JInt a) ty ref desc stamp uuid now) in
  (sql_balance id d < a + escrow_hold id now d /\ exists d',
     m d = (Ok None, d') /\ moved id 0 [] d d') \/
  (a + escrow_hold id now d <= sql_balance id d /\ exists d',
     m d = (Ok (Some (sql_balance id d - a)), d') /\
     moved id (- a) [txn_values uuid id ty (- a) (sql_balance id d - a) ref desc now stamp] d d').
Proof.
  intros Hnd Hf m. unfold m, debitSpendable. cbn [assertMicroUnits check].
  destruct (getOrCreate_pure id now d Hnd) as (row & d1 & H1 & Hm1 & Hrow & Hb).
  rewrite pure_transaction. unfold all_or_nothing. rewrite (call_bind_run _ _ _ _ _ H1).
  rewrite (call_bind_run _ _ _ _ _ (hold_pure id now d1)).
  rewrite (escrow_hold_moved _ _ _ _ _ _ _ Hm1).
  destruct (guarded_debit_pure id a (a + escrow_hold id now d) ty ref desc stamp uuid now row d d1
    Hm1 Hf Hrow Hb) as [[Hlt ->]|[Hle (d' & -> & Hm)]]; [left|right]; eauto.
Qed.
End pure.

(** ** The relation through a money movement *)

(** What a movement does to the in-memory store. *)
Record mem_moved (id : string) (a : Z) (l : list AccountTransaction)
    (m m' : InMemoryAccountStore) : Prop := {
  mm_balance : forall i, balance_of i m' = balance_of i m + (if decide (i = id) then a else 0);
  mm_transactions : transactions m' = transactions m ++ l;
  mm_withdrawals : withdrawals m' = withdrawals m;
  mm_index : idempotencyIndex m' = idempotencyIndex m;
  mm_pending : pendingWithdrawals m' = pendingWithdrawals m;
}.

Section relation.
Abbreviation run m := (m : call relay_db ledger_error _).
Implicit Types (m : InMemoryAccountStore) (d : relay_db).

Lemma rel_moved id a l l' m m' d d' :
  rel m d -> mem_moved id a l m m' -> moved id a l' d d' ->
  erase_id <$> l = (fun r => erase_id (txn r)) <$> l' -> rel m' d'.
Proof.
  intros [] [] [Hb Hnd [rows ->]] Hl. constructor; cbn in *; try congruence.
  - intros i. by rewrite mm_balance0, Hb, rel_balance0.
  - by rewrite mm_transactions0, !fmap_app, rel_txns0, Hl.
  - intros mb key Hc. rewrite mm_index0. by apply rel_index0.
Qed.

Lemma mem_moved_nothing id m : mem_moved id 0 [] m m.
Proof.
  split; [|by rewrite app_nil_r|done|done|done]. intros i. case_decide; lia.
Qed.

Lemma mem_new_row id now m :
  jm_get id (accounts m) = None ->
  mem_moved id 0 [] m (set_accounts (jm_set id (new_row id now) (accounts m)) m).
Proof.
  intros E. split; [|by rewrite app_nil_r|done|done|done].
  intros i. rewrite balance_of_new_row by done. case_decide; lia.
Qed.

Lemma mem_push id a ty ref desc now row acc m :
  va_balance row = balance_of id m -> acc = accounts m \/ acc = jm_set id row (accounts m) ->
  let b := balance_of id m + a in
  exists t, mem_moved id a [t] m
      (push_txn id ty a b ref desc now
         (set_accounts (jm_set id (with_balance b now row) acc) (set_accounts acc m))) /\
    forall uuid stamp, erase_id t = erase_id (txn (txn_values uuid id ty a b ref desc now stamp)).
Proof.
  intros Hrow Hacc b. eexists. split.
  - split; [|reflexivity|done|done|done].
    intros i. unfold balance_of at 1. cbn. rewrite jm_get_set.
    destruct (decide (i = id)) as [->|Hi]; [done|].
    unfold balance_of. destruct Hacc as [-> | ->]; [lia|]. rewrite jm_get_set_ne by done. lia.
  - done.
Qed.

Lemma mem_credit id a ty ref desc now m :
  (MemStore.credit id a ty ref desc now m).1 = balance_of id m + a /\
  exists t, mem_moved id a [t] m (MemStore.credit id a ty ref desc now m).2 /\
    forall uuid stamp, erase_id t
      = erase_id (txn (txn_values uuid id ty a (balance_of id m + a) ref desc now stamp)).
Proof.
  unfold MemStore.credit. cbn [fst snd].
  set (row := match jm_get id (accounts m) with Some r => r | None => new_row id now end).
  assert (va_balance row = balance_of id m) as Hrow
    by (unfold row, balance_of; by destruct (jm_get id (accounts m))).
  rewrite Hrow. split; [done|].
  exact (mem_push id a ty ref desc now row (accounts m) m Hrow (or_introl eq_refl)).
Qed.

Lemma mem_debit id a ty ref desc now m :
  (balance_of id m < a /\ exists m', MemStore.debit id a ty ref desc now m = (None, m') /\
     mem_moved id 0 [] m m') \/
  (a <= balance_of id m /\ exists m' t,
     MemStore.debit id a ty ref desc now m = (Some (balance_of id m - a), m') /\
     mem_moved id (- a) [t] m m' /\
     forall uuid stamp, erase_id t
       = erase_id (txn (txn_values uuid id ty (- a) (balance_of id m - a) ref desc now stamp))).
Proof.
  destruct (debit_cases id a ty ref desc now m) as [(Hlt & H1 & H2)|(Hle & row & acc & Hrow & Hacc & ->)].
  - left. split; [done|]. destruct (MemStore.debit id a ty ref desc now m) as [r m'].
    cbn in H1, H2. subst r. exists m'. split; [done|].
    destruct H2 as [-> |[E ->]]; [apply mem_moved_nothing|by apply mem_new_row].
  - right. split; [done|].
    destruct (mem_push id (- a) ty ref desc now row acc m Hrow Hacc) as (t & Hm & Ht).
    eexists. exists t. split; [reflexivity|]. by split.
Qed.

Lemma rel_fresh_uuid m d uuid op : rel m d -> call_fits op uuid d -> fresh_uuid uuid d.
Proof. by intros _ [H _]. Qed.

(** ** The relation through an update of a withdrawal *)

Lemma find_keyed_update mb key hit f rows :
  (forall w, withdrawal_id (f w) = withdrawal_id w /\ w_motebit_id (f w) = w_motebit_id w) ->
  (fun r => withdrawal_id (wd r)) <$> find_keyed mb key (update_rows hit
     (fun r => {| wd := f (wd r); idempotency_key := idempotency_key r |}) rows)
  = (fun r => withdrawal_id (wd r)) <$> find_keyed mb key rows.
Proof.
  intros Hf. unfold find_keyed, update_rows. rewrite find_fmap.
  erewrite (find_ext (fun x => _) (fun r => bool_decide (w_motebit_id (wd r) = mb) &&
                                  bool_decide (idempotency_key r = Some key))).
  2:{ intros r. destruct (hit r); [|done]. cbn. by rewrite (proj2 (Hf (wd r))). }
  destruct (List.find _ rows) as [r|]; [|done]. cbn. destruct (hit r); [|done]. cbn.
  by rewrite (proj1 (Hf (wd r))).
Qed.

Lemma rel_update id cond f m d :
  (forall w, withdrawal_id (f w) = withdrawal_id w /\ w_motebit_id (f w) = w_motebit_id w) ->
  rel m d ->
  exists d', run (SqlStore.update_withdrawal id cond f) d
      = (Ok (MemStore.update_withdrawal id cond f m).1, d') /\
    rel (MemStore.update_withdrawal id cond f m).2 d' /\
    relay_transactions d' = relay_transactions d.
Proof.
  intros Hf Hrel. pose proof Hrel as []. unfold SqlStore.update_withdrawal. cbn. unfold stmt_fn.
  set (g := fun r => {| wd := f (wd r); idempotency_key := idempotency_key r |}).
  set (hit := fun r => bool_decide (withdrawal_id (wd r) = id) && cond (wd r)).
  pose proof (keyed_update (fun r => withdrawal_id (wd r)) wd id cond f g (relay_withdrawals d)
    (fun r => proj1 (Hf (wd r))) (fun _ => eq_refl) rel_wids0) as H. cbn in H. fold hit in H.
  unfold MemStore.update_withdrawal. rewrite rel_withdrawals0.
  rewrite (jm_get_keyed (fun r => withdrawal_id (wd r)) wd).
  destruct (wd <$> List.find _ (relay_withdrawals d)) as [w|].
  2:{ destruct H as [-> H]. eexists. split; [reflexivity|]. unfold upd_withdrawals. rewrite H.
      destruct d. split; [exact Hrel|done]. }
  destruct (cond w); cbn.
  2:{ destruct H as [-> H]. eexists. split; [reflexivity|]. unfold upd_withdrawals. rewrite H.
      destruct d. split; [exact Hrel|done]. }
  destruct H as [-> H]. eexists. split; [reflexivity|]. split; [|done].
  assert ((fun r => withdrawal_id (wd r)) <$> update_rows hit g (relay_withdrawals d)
          = (fun r => withdrawal_id (wd r)) <$> relay_withdrawals d) as Hids.
  { unfold update_rows. rewrite <- list_fmap_compose. apply list_fmap_ext. intros _ r _. cbn.
    destruct (hit r); [|done]. apply Hf. }
  constructor; cbn; try done; try exact rel_balance0.
  - by rewrite Hids.
  - by rewrite Hids.
  - intros mb key Hc. rewrite rel_index0 by done. symmetry. by apply find_keyed_update.
Qed.
End relation.

(** ** Each call *)

Section calls.
Abbreviation run m := (m : call relay_db ledger_error _).
Implicit Types (m : InMemoryAccountStore) (d : relay_db).

(** The two runs agree: same answer, related states. *)
Definition agree {A} (r : call relay_db ledger_error A) (ans : A) (m' : InMemoryAccountStore)
    (d : relay_db) : Prop := exists d', r d = (Ok ans, d') /\ rel m' d'.

Lemma agree_answer {A} (f : A -> ledger_value) r ans m' d :
  agree r ans m' d -> agree (answer f r) (f ans) m' d.
Proof.
  intros (d' & H & Hrel). exists d'. split; [|done].
  unfold answer. by rewrite (call_bind_run _ _ _ _ _ H).
Qed.

Lemma agree_getOrCreate id now m d :
  rel m d ->
  exists d' row, run (getOrCreateAccount id now) d = (Ok row, d') /\
    va_balance row = va_balance (MemStore.getOrCreateAccount id now m).1 /\
    rel (MemStore.getOrCreateAccount id now m).2 d'.
Proof.
  intros Hrel. destruct (getOrCreate_pure id now d (rel_accounts _ _ Hrel))
    as (row & d' & H & Hm & _ & Hb). exists d', row. split; [done|].
  rewrite Hb, <- (rel_balance _ _ Hrel). unfold MemStore.getOrCreateAccount, balance_of.
  destruct (jm_get id (accounts m)) as [r|] eqn:E; cbn; split; try done.
  - exact (rel_moved _ _ _ _ _ _ _ _ Hrel (mem_moved_nothing id m) Hm eq_refl).
  - exact (rel_moved _ _ _ _ _ _ _ _ Hrel (mem_new_row id now m E) Hm eq_refl).
Qed.

Lemma agree_credit id a ty ref desc uuid now m d :
  rel m d -> fresh_uuid uuid d ->
  agree (credit id (JInt a) ty ref desc None uuid now)
    (MemStore.credit id a ty ref desc now m).1 (MemStore.credit id a ty ref desc now m).2 d.
Proof.
  intros Hrel Hf.
  destruct (credit_pure id a ty ref desc None uuid now d (rel_accounts _ _ Hrel) Hf) as (d' & H & Hm).
  destruct (mem_credit id a ty ref desc now m) as (Hb & t & Hmm & Ht).
  exists d'. rewrite Hb, (rel_balance _ _ Hrel). split; [done|].
  apply (rel_moved _ _ _ _ _ _ _ _ Hrel Hmm Hm). cbn.
  rewrite (Ht uuid None), (rel_balance _ _ Hrel). done.
Qed.

(** A debit of either store, from the outcome of its guard. *)
Lemma agree_debit_of id a floor ty ref desc uuid now m d
    (r : call relay_db ledger_error (option Z)) (mr : option Z * InMemoryAccountStore) :
  rel m d ->
  (sql_balance id d < floor /\ exists d', r d = (Ok None, d') /\ moved id 0 [] d d') \/
  (floor <= sql_balance id d /\ exists d', r d = (Ok (Some (sql_balance id d - a)), d') /\
   moved id (- a) [txn_values uuid id ty (- a) (sql_balance id d - a) ref desc now None] d d') ->
  (balance_of id m < floor /\ exists m', mr = (None, m') /\ mem_moved id 0 [] m m') \/
  (floor <= balance_of id m /\ exists m' t, mr = (Some (balance_of id m - a), m') /\
   mem_moved id (- a) [t] m m' /\ forall uuid stamp, erase_id t
     = erase_id (txn (txn_values uuid id ty (- a) (balance_of id m - a) ref desc now stamp))) ->
  agree r mr.1 mr.2 d.
Proof.
  intros Hrel. rewrite (rel_balance _ _ Hrel).
  intros [[Hs (d' & H & Hm)]|[Hs (d' & H & Hm)]] [[Hs' (m' & -> & Hmm)]|[Hs' (m' & t & -> & Hmm & Ht)]];
    try lia; exists d'; (split; [done|]).
  - exact (rel_moved _ _ _ _ _ _ _ _ Hrel Hmm Hm eq_refl).
  - apply (rel_moved _ _ _ _ _ _ _ _ Hrel Hmm Hm). cbn. by rewrite (Ht uuid None).
Qed.

Lemma agree_debit id a ty ref desc uuid now m d :
  rel m d -> fresh_uuid uuid d ->
  agree (debit id (JInt a) ty ref desc None uuid now)
    (MemStore.debit id a ty ref desc now m).1 (MemStore.debit id a ty ref desc now m).2 d.
Proof.
  intros Hrel Hf. eapply agree_debit_of; [done| |apply mem_debit].
  apply debit_pure; [apply Hrel|done].
Qed.

Lemma agree_debitSpendable id a ty ref desc uuid now m d :
  rel m d -> fresh_uuid uuid d -> 0 <= escrow_hold id now d ->
  let mr := MemStore.debitSpendable (fun i => escrow_hold i now d) id a ty ref desc now m in
  agree (debitSpendable id (JInt a) ty ref desc None uuid now) mr.1 mr.2 d.
Proof.
  intros Hrel Hf Hh mr. eapply agree_debit_of; [done| |].
  - apply debitSpendable_pure; [apply Hrel|done].
  - unfold mr, MemStore.debitSpendable. case_decide as D.
    + left. split; [lia|]. exists m. split; [done|]. apply mem_moved_nothing.
    + destruct (mem_debit id a ty ref desc now m) as [[H _]|[H H']]; [lia|].
      right. split; [lia|done].
Qed.

Lemma getWithdrawalById_pure id m d :
  rel m d -> run (SqlStore.getWithdrawalById id) d = (Ok (jm_get id (withdrawals m)), d).
Proof.
  intros Hrel. rewrite (rel_withdrawals _ _ Hrel).
  by rewrite (jm_get_keyed (fun r => withdrawal_id (wd r)) wd).
Qed.

Lemma agree_fail id reason from fa uuid now m d :
  rel m d -> fresh_uuid uuid d -> isOpenFrom from = true ->
  agree (failWithdrawalAndRefund id reason from fa uuid now)
    (MemStore.failWithdrawalAndRefund id reason from fa now m).1
    (MemStore.failWithdrawalAndRefund id reason from fa now m).2 d.
Proof.
  intros Hrel Hf Hopen. unfold agree, failWithdrawalAndRefund.
  replace (openStatus from) with (Ok (E := ledger_error) from) by (by destruct from).
  cbn [check]. rewrite pure_transaction. unfold all_or_nothing.
  destruct (rel_update id (fun w => bool_decide (w_status w = from)) (with_failure reason fa) m d)
    as (d1 & H1 & Hrel1 & Htx); [done|done|].
  rewrite (call_bind_run _ _ _ _ _ H1). unfold MemStore.failWithdrawalAndRefund. rewrite Hopen.
  unfold MemStore.update_withdrawal in Hrel1, H1 |- *. cbn [andb].
  destruct (jm_get id (withdrawals m)) as [w|] eqn:E; [|by exists d1].
  case_bool_decide as Hst; [|by exists d1]. cbn [fst snd negb] in *.
  rewrite (call_bind_run _ _ _ _ _ (getWithdrawalById_pure id _ d1 Hrel1)).
  cbn [withdrawals set_withdrawals]. rewrite jm_get_set_eq. cbn [with_failure w_motebit_id w_amount].
  destruct (agree_credit (w_motebit_id w) (w_amount w) withdrawal (Some id)
    (Some (failure_description reason)) uuid now _ d1 Hrel1) as (d2 & H2 & Hrel2).
  { unfold fresh_uuid. by rewrite Htx. }
  rewrite (call_bind_run _ _ _ _ _ H2). exists d2.
  destruct (MemStore.credit _ _ _ _ _ _ _) as [b m']. by split.
Qed.
Lemma index_key_inj mb mb' key key' :
  colon_free mb = true -> colon_free mb' = true ->
  index_key mb key = index_key mb' key' -> mb = mb' /\ key = key'.
Proof.
  unfold index_key. revert mb'. induction mb as [|c mb IH]; intros [|c' mb']; cbn.
  - by intros _ _ [=].
  - rewrite andb_true_iff, negb_true_iff, Ascii.eqb_neq. by intros _ [Hc _] [=].
  - rewrite andb_true_iff, negb_true_iff, Ascii.eqb_neq. by intros [Hc _] _ [=].
  - rewrite !andb_true_iff. intros [_ H1] [_ H2] [= -> H].
    destruct (IH mb' H1 H2 H) as [-> ->]. done.
Qed.

Lemma find_id_elem r (rows : list withdrawal_row) :
  NoDup ((fun r => withdrawal_id (wd r)) <$> rows) -> r ∈ rows ->
  List.find (fun r' => bool_decide (withdrawal_id (wd r') = withdrawal_id (wd r))) rows = Some r.
Proof.
  induction rows as [|r' rows IH]; cbn; [set_solver|].
  intros [Hn Hnd]%NoDup_cons [->|Hin]%elem_of_cons; [by rewrite bool_decide_eq_true_2|].
  rewrite bool_decide_eq_false_2; [auto|]. intros Heq. apply Hn. rewrite Heq.
  by apply (list_elem_of_fmap_2 (fun r => withdrawal_id (wd r))).
Qed.

Lemma keyed_lookup mb key m d :
  rel m d -> colon_free mb = true ->
  MemStore.getWithdrawalByIdempotencyKey mb key m = wd <$> find_keyed mb key (relay_withdrawals d).
Proof.
  intros Hrel Hc. pose proof Hrel as []. unfold MemStore.getWithdrawalByIdempotencyKey.
  rewrite rel_index0 by done.
  destruct (find_keyed mb key (relay_withdrawals d)) as [r|] eqn:E; [|done]. cbn.
  apply List.find_some in E as [Hin%list_elem_of_In _].
  rewrite decide_False.
  2:{ intros Hem. apply rel_named0. rewrite <- Hem.
      by apply (list_elem_of_fmap_2 (fun r => withdrawal_id (wd r))). }
  unfold MemStore.getWithdrawalById. rewrite rel_withdrawals0.
  rewrite (jm_get_keyed (fun r => withdrawal_id (wd r)) wd). by rewrite find_id_elem.
Qed.

Lemma agree_insert w a m d :
  rel m d -> Forall (fun r => withdrawal_id (wd r) <> nw_withdrawal_id w) (relay_withdrawals d) ->
  nw_withdrawal_id w <> EmptyString -> colon_free (nw_motebit_id w) = true ->
  (forall key, nw_idempotency_key w = Some key ->
     find_keyed (nw_motebit_id w) key (relay_withdrawals d) = None) ->
  agree (SqlStore.insertWithdrawal w a) (fresh_withdrawal w a) (MemStore.insertWithdrawal w a m).2 d.
Proof.
  intros Hrel Hfresh Hne Hc Hkey. pose proof Hrel as []. unfold agree, SqlStore.insertWithdrawal.
  set (row := {| wd := fresh_withdrawal w a; idempotency_key := nw_idempotency_key w |}).
  assert (run (run_sql (fun d => match insert_row same_withdrawal row (relay_withdrawals d) with
      | Ok rows => Ok (tt, upd_withdrawals (fun _ => rows) d)
      | Throw e => Throw e end)) d = (Ok tt, upd_withdrawals (fun rows => rows ++ [row]) d)) as H.
  { cbn. unfold stmt_fn. rewrite insert_row_ok; [done|].
    rewrite Forall_forall in Hfresh |- *. intros r Hr. specialize (Hfresh r Hr).
    unfold same_withdrawal. cbn. rewrite bool_decide_eq_false_2 by congruence. cbn.
    destruct (nw_idempotency_key w) as [key|] eqn:Ek; cbn; [|by rewrite andb_false_r].
    specialize (Hkey key eq_refl). apply find_none_forall in Hkey. rewrite Forall_forall in Hkey.
    specialize (Hkey r Hr). apply andb_false_iff in Hkey as [Hk%bool_decide_eq_false|Hk%bool_decide_eq_false].
    - rewrite bool_decide_eq_false_2 by congruence. done.
    - rewrite (bool_decide_eq_false_2 (Some key = _)) by congruence. by rewrite andb_false_r. }
  rewrite (call_bind_run _ _ _ _ _ H). eexists. split; [reflexivity|].
  assert (jm_set (nw_withdrawal_id w) (fresh_withdrawal w a) (withdrawals m)
          = (fun r => (withdrawal_id (wd r), wd r)) <$> relay_withdrawals d ++ [row]) as Hset.
  { rewrite rel_withdrawals0. by apply (jm_set_keyed_new (fun r => withdrawal_id (wd r)) wd). }
  assert (nw_withdrawal_id w ∉ (fun r => withdrawal_id (wd r)) <$> relay_withdrawals d) as Hnot.
  { intros (r & Hr & Hin)%list_elem_of_fmap. rewrite Forall_forall in Hfresh. by apply (Hfresh r Hin). }
  unfold MemStore.insertWithdrawal. constructor;
    try (destruct (nw_idempotency_key w); cbn; first [exact rel_balance0 | done]).
  - cbn [upd_withdrawals relay_withdrawals]. rewrite fmap_app. apply NoDup_app.
    split; [done|]. split; [|apply NoDup_singleton].
    by intros x Hx ->%list_elem_of_singleton.
  - cbn [upd_withdrawals relay_withdrawals]. rewrite fmap_app. rewrite elem_of_app.
    intros [H1|H1%list_elem_of_singleton]; [done|]. by apply Hne.
  - intros mb key Hmb. cbn [upd_withdrawals relay_withdrawals]. unfold find_keyed. rewrite find_app.
    fold (find_keyed mb key (relay_withdrawals d)).
    destruct (nw_idempotency_key w) as [key'|] eqn:Ek; cbn [snd].
    + cbn [idempotencyIndex set_index set_withdrawals]. rewrite jm_get_set. case_decide as Hi.
      * apply index_key_inj in Hi as [-> ->]; [|done|done].
        rewrite (Hkey key' eq_refl). cbn. rewrite !bool_decide_eq_true_2 by done. done.
      * rewrite rel_index0 by done. destruct (find_keyed mb key (relay_withdrawals d)); [done|].
        cbn. destruct (bool_decide_reflect (nw_motebit_id w = mb)) as [<-|]; [|done]. cbn.
        rewrite bool_decide_eq_false_2; [done|]. congruence.
    + cbn [idempotencyIndex set_withdrawals]. rewrite rel_index0 by done.
      destruct (find_keyed mb key (relay_withdrawals d)); [done|]. cbn.
      by rewrite andb_false_r.
Qed.
Lemma moved_withdrawals id a l d d' :
  moved id a l d d' -> relay_withdrawals d' = relay_withdrawals d /\
  relay_pending_withdrawals d' = relay_pending_withdrawals d.
Proof. by intros [_ _ [rows ->]]. Qed.

(** [debit], and the tables it leaves alone. *)
Lemma agree_debit_tables id a ty ref desc uuid now m d :
  rel m d -> fresh_uuid uuid d ->
  exists d', run (debit id (JInt a) ty ref desc None uuid now) d
      = (Ok (MemStore.debit id a ty ref desc now m).1, d') /\
    rel (MemStore.debit id a ty ref desc now m).2 d' /\
    relay_withdrawals d' = relay_withdrawals d /\
    relay_pending_withdrawals d' = relay_pending_withdrawals d.
Proof.
  intros Hrel Hf. destruct (agree_debit id a ty ref desc uuid now m d Hrel Hf) as (d' & H & Hrel').
  exists d'. split; [done|]. split; [done|].
  destruct (debit_pure id a ty ref desc None uuid now d (rel_accounts _ _ Hrel) Hf)
    as [[_ (d2 & H2 & Hm)]|[_ (d2 & H2 & Hm)]];
    rewrite H2 in H; injection H as _ <-; by eapply moved_withdrawals.
Qed.

Lemma agree_record w desc uuid now m d :
  rel m d -> call_fits (ORecord w desc) uuid d ->
  match MemStore.debitAndRecordWithdrawal w desc now m with
  | Ok (ans, m') => agree (debitAndRecordWithdrawal w desc uuid now) ans m' d
  | Throw e => run (debitAndRecordWithdrawal w desc uuid now) d = (Throw e, d)
  end.
Proof.
  intros Hrel (Hf & Hfresh & Hne & Hc).
  unfold MemStore.debitAndRecordWithdrawal, debitAndRecordWithdrawal, agree.
  destruct (assertPositiveMicro_cases (nw_amount w)) as [(a & -> & Ha & _)| ->]; [|done].
  cbn [check]. rewrite pure_transaction, Ha. unfold all_or_nothing.
  set (found := match nw_idempotency_key w with
                | Some key => MemStore.getWithdrawalByIdempotencyKey (nw_motebit_id w) key m
                | None => None end).
  assert (run (match nw_idempotency_key w with
               | Some key => getWithdrawalByIdempotencyKey (nw_motebit_id w) key
               | None => call_ret None end) d = (Ok found, d)) as H.
  { unfold found. destruct (nw_idempotency_key w) as [key|]; [|done].
    by rewrite (keyed_lookup _ _ _ _ Hrel Hc). }
  rewrite (call_bind_run _ _ _ _ _ H). destruct found as [ex|] eqn:Efound; [by exists d|].
  destruct (agree_debit_tables (nw_motebit_id w) a withdrawal (Some (nw_withdrawal_id w)) (Some desc)
    uuid now m d Hrel Hf) as (d1 & H1 & Hrel1 & Hw & _).
  rewrite (call_bind_run _ _ _ _ _ H1).
  destruct (MemStore.debit _ _ _ _ _ _ _) as [[b|] m1]; cbn [fst snd] in *; [|by exists d1].
  destruct (agree_insert w a m1 d1) as (d2 & H2 & Hrel2); try rewrite Hw; try done.
  { intros key Hk. unfold found in Efound. rewrite Hk, (keyed_lookup _ _ _ _ Hrel Hc) in Efound.
    by destruct (find_keyed _ _ _). }
  unfold call_bind. rewrite H2. exists d2.
  unfold MemStore.insertWithdrawal in Hrel2 |- *. by destruct (nw_idempotency_key w).
Qed.

(** The body of [debit]'s transaction, which [debitAndEnqueuePending] repeats. *)
Definition debit_body (id : string) (a : Z) (ref desc : option string) (uuid : string) (now : Z)
    : call relay_db ledger_error (option Z) :=
  (getOrCreateAccount id now ;!
   let! info := update_balance id (- a) (Some a) now in
   if decide (info = 0%nat) then call_ret None else
   let! b := select_balance id in
   insert_transaction (txn_values uuid id withdrawal (- a) b ref desc now None) ;!
   call_ret (Some b))%motebit.

Lemma debit_body_pure id a ref desc uuid now d :
  run (debit id (JInt a) withdrawal ref desc None uuid now) d
  = all_or_nothing (debit_body id a ref desc uuid now) d.
Proof. done. Qed.

Lemma enqueue_debit_pure id a ref desc uuid now d {B} (k : Z -> call relay_db ledger_error (option B)) :
  run (getOrCreateAccount id now ;!
       let! info := update_balance id (- a) (Some a) now in
       if decide (info = 0%nat) then call_ret None else
       let! b := select_balance id in
       insert_transaction (txn_values uuid id withdrawal (- a) b ref desc now None) ;! k b)%motebit d =
  match debit_body id a ref desc uuid now d with
  | (Ok (Some b), d') => k b d'
  | (Ok None, d') => (Ok None, d')
  | (Throw e, d') => (Throw e, d')
  end.
Proof.
  unfold debit_body, call_bind, call_ret. destruct (run (getOrCreateAccount id now) d) as [[row|e] d1]; [|done].
  destruct (run (update_balance id (- a) (Some a) now) d1) as [[n|e] d2]; [|done].
  case_decide; [done|]. destruct (run (select_balance id) d2) as [[b|e] d3]; [|done].
  by destruct (run (insert_transaction _) d3) as [[[]|e] d4].
Qed.

Lemma agree_enqueue args a uuid now m d :
  rel m d -> call_fits (OEnqueue args a) uuid d ->
  agree (debitAndEnqueuePending args EmptyString uuid now)
    (MemStore.debitAndEnqueuePending args a now m).1
    (MemStore.debitAndEnqueuePending args a now m).2 d.
Proof.
  intros Hrel (Hf & Ha & qid & Hq & Hfresh). pose proof Hrel as [].
  unfold MemStore.debitAndEnqueuePending, debitAndEnqueuePending, agree.
  rewrite Ha, Hq. cbn [assertMicroUnits check default]. rewrite pure_transaction. unfold all_or_nothing.
  set (found := match ea_idempotencyKey args with
    | Some key => find_pending (ea_motebitId args) key (jm_values (pendingWithdrawals m))
    | None => None end).
  set (hit := fun key r => bool_decide (pr_motebitId (pw r) = ea_motebitId args) &&
                           bool_decide (pr_idempotencyKey (pw r) = Some key)).
  set (sfound := match ea_idempotencyKey args with
    | Some key => List.find (hit key) (relay_pending_withdrawals d)
    | None => None end).
  assert (found = pw <$> sfound) as Efound.
  { unfold found, sfound. destruct (ea_idempotencyKey args) as [key|]; [|done].
    unfold find_pending, jm_values. rewrite rel_queue0, <- list_fmap_compose.
    change (snd ∘ (fun r : pending_row => (pr_pendingId (pw r), pw r))) with pw.
    by rewrite find_fmap. }
  assert (run (match ea_idempotencyKey args with
               | Some key => select (fun d => List.find (hit key) (relay_pending_withdrawals d))
               | None => call_ret None end) d = (Ok sfound, d)) as H
    by (unfold sfound; by destruct (ea_idempotencyKey args)).
  rewrite (call_bind_run _ _ _ _ _ H). rewrite Efound. destruct sfound as [r|] eqn:Es.
  { exists d. cbn. rewrite rel_balance0. by split. }
  cbn [fmap option_fmap option_map].
  set (desc := default (String.append "Pending withdrawal " (String.append qid (String.append " → "
       (String.append (ea_destination args) (String.append " via " (ea_rail args))))))
       (ea_description args)).
  replace (match ea_description args with
           | Some x => x
           | None => queue_description qid (ea_destination args) (ea_rail args)
           end) with desc by (unfold desc; by destruct (ea_description args)).
  destruct (agree_debit_tables (ea_motebitId args) a withdrawal (Some qid) (Some desc)
    uuid now m d Hrel Hf) as (d1 & H1 & Hrel1 & _ & Hp).
  rewrite debit_body_pure in H1. unfold all_or_nothing in H1. rewrite enqueue_debit_pure.
  destruct (debit_body _ _ _ _ _ _ _) as [[[b|]|e] d2]; [| |done]; injection H1 as Hb ->;
    destruct (MemStore.debit _ _ _ _ _ _ _) as [mb m1]; cbn [fst snd] in *; subst mb;
    [|by exists d1].
  set (row := {| pw := _ |}).
  assert (run (run_sql (fun d => match insert_row same_pending row (relay_pending_withdrawals d) with
      | Ok rows => Ok (tt, upd_pending (fun _ => rows) d)
      | Throw e => Throw e end)) d1 = (Ok tt, upd_pending (fun rows => rows ++ [row]) d1)) as Hi.
  { cbn. unfold stmt_fn. rewrite Hp, insert_row_ok; [unfold upd_pending; by rewrite Hp|].
    apply Forall_forall. intros r Hr. rewrite Forall_forall in Hfresh. specialize (Hfresh r Hr).
    unfold same_pending. cbn. rewrite bool_decide_eq_false_2 by congruence. cbn.
    destruct (ea_idempotencyKey args) as [key|] eqn:Ek; cbn; [|by rewrite andb_false_r].
    unfold sfound in Es. apply find_none_forall in Es. rewrite Forall_forall in Es.
    specialize (Es r Hr).
    apply andb_false_iff in Es as [Hk%bool_decide_eq_false|Hk%bool_decide_eq_false].
    - rewrite bool_decide_eq_false_2 by congruence. done.
    - rewrite (bool_decide_eq_false_2 (Some key = _)) by congruence. by rewrite andb_false_r. }
  rewrite (call_bind_run _ _ _ _ _ Hi). eexists. split; [reflexivity|].
  pose proof Hrel1 as []. constructor; cbn; try done.
  - rewrite rel_queue1.
    rewrite (jm_set_keyed_new (fun r => pr_pendingId (pw r)) pw _ _ _ row); [done|done|done|].
    rewrite Hp. done.
  - rewrite fmap_app. apply NoDup_app. split; [done|]. split; [|apply NoDup_singleton].
    intros x Hx ->%list_elem_of_singleton. rewrite Hp in Hx.
    apply list_elem_of_fmap in Hx as (r & Hr & Hin). rewrite Forall_forall in Hfresh.
    by apply (Hfresh r Hin).
Qed.

(** Every call of the interface. *)
Lemma call_agrees op uuid now m d :
  let hold := fun id => escrow_hold id now d in
  rel m d -> call_fits op uuid d -> (forall id, 0 <= hold id) ->
  match mem_answer hold op now m with
  | Ok ans => agree (sql_call op uuid now) ans (apply_op hold op now m) d
  | Throw e => run (sql_call op uuid now) d = (Throw e, d)
  end.
Proof.
  intros hold Hrel Hfit Hh. pose proof (rel_fresh_uuid _ _ _ _ Hrel Hfit) as Hf.
  assert (forall id cond f, (forall w, withdrawal_id (f w) = withdrawal_id w /\ w_motebit_id (f w) = w_motebit_id w) ->
          agree (SqlStore.update_withdrawal id cond f) (MemStore.update_withdrawal id cond f m).1
            (MemStore.update_withdrawal id cond f m).2 d) as Hupd.
  { intros id cond f Hff. destruct (rel_update id cond f m d Hff Hrel) as (d' & H & Hr & _).
    by exists d'. }
  destruct op; cbn [mem_answer sql_call apply_op].
  - destruct (agree_getOrCreate id now m d Hrel) as (d' & row & H & Hb & Hr).
    exists d'. unfold answer. rewrite (call_bind_run _ _ _ _ _ H), Hb. by split.
  - by apply agree_answer, agree_credit.
  - by apply agree_answer, agree_debit.
  - apply agree_answer. apply agree_debitSpendable; [done|done|apply Hh].
  - by apply agree_answer, Hupd.
  - by apply agree_answer, Hupd.
  - destruct (Hupd wid (fun _ => true) (with_signature sig pk) ltac:(done)) as (d' & H & Hr).
    exists d'. split; [|done]. unfold answer, setWithdrawalSignature, call_bind. by rewrite H.
  - apply (agree_answer VBool). destruct Hfit as [_ Hopen]. unfold setWithdrawalCompletion.
    replace (openStatus from) with (Ok (E := ledger_error) from) by (by destruct from).
    unfold MemStore.setWithdrawalCompletion. rewrite Hopen. by apply Hupd.
  - destruct Hfit as [_ Hopen]. by apply agree_answer, agree_fail.
  - by apply agree_answer, Hupd.
  - pose proof (agree_record w desc uuid now m d Hrel Hfit) as H.
    destruct (MemStore.debitAndRecordWithdrawal w desc now m) as [[ans m']|e].
    + by apply agree_answer.
    + unfold answer, call_bind. by rewrite H.
  - by apply agree_answer, agree_enqueue.
Qed.
End calls.

(** ** Over the real driver, with faults *)

#[export] Instance RelayDriver : DatabaseDriver relay_db ledger_error (session relay_db) :=
  SqlJsDriver Error_driver.

Abbreviation sql_run m := (m : call (session relay_db) ledger_error _).

Section driver_runs.
Implicit Types (s : session relay_db).

(** A call on the SQLite session denotes the same call on the bare tables. *)
Lemma sql_call_denotes op uuid now :
  denotes (sql_run (sql_call op uuid now)) (sql_call op uuid now).
Proof.
  destruct op; apply denotes_bind; try (intros; apply denotes_ret).
  - unfold getOrCreateAccount, select; denotes_auto.
  - unfold credit, getOrCreateAccount, select; cbn [check assertMicroUnits]; denotes_auto.
  - unfold debit, getOrCreateAccount, select; cbn [check assertMicroUnits]; denotes_auto.
  - unfold debitSpendable, getUnwithdrawableHold, hasTables, getOrCreateAccount, select;
      cbn [check assertMicroUnits]; denotes_auto.
  - unfold linkWithdrawalTransfer, SqlStore.update_withdrawal; denotes_auto.
  - unfold claimWithdrawalForPayout, SqlStore.update_withdrawal; denotes_auto.
  - unfold setWithdrawalSignature, SqlStore.update_withdrawal; denotes_auto.
  - unfold setWithdrawalCompletion, SqlStore.update_withdrawal, check; denotes_auto.
  - unfold failWithdrawalAndRefund, SqlStore.update_withdrawal, SqlStore.getWithdrawalById,
      credit, getOrCreateAccount, select, check; denotes_auto.
  - unfold noteWithdrawalPayoutUnresolved, SqlStore.update_withdrawal; denotes_auto.
  - unfold debitAndRecordWithdrawal, getWithdrawalByIdempotencyKey, debit, SqlStore.insertWithdrawal,
      getOrCreateAccount, select, check; denotes_auto.
  - unfold debitAndEnqueuePending, getOrCreateAccount, select, check; denotes_auto.
Qed.
Lemma atomic_checked {A B} (g : result ledger_error A) (k : A -> call (session relay_db) ledger_error B) :
  (forall a, g = Ok a -> atomic (k a)) -> atomic (check g k).
Proof. intros Hk. destruct g as [a|e]; [by apply Hk|apply atomic_throw]. Qed.

Lemma atomic_getOrCreate id now : atomic (sql_run (getOrCreateAccount id now)).
Proof.
  apply atomic_read_bind; [apply bracketed_statement|apply reads_statement|].
  intros [row|]; [apply atomic_ret|]. apply (atomic_map _ (fun _ => _)), atomic_statement.
Qed.

Lemma sql_call_atomic op uuid now : atomic (sql_run (sql_call op uuid now)).
Proof.
  assert (forall id cond f, atomic (sql_run (SqlStore.update_withdrawal id cond f))) as Hupd
    by (intros; apply atomic_statement).
  destruct op; apply (atomic_map _ (fun _ => _)); try apply Hupd.
  - apply atomic_getOrCreate.
  - apply atomic_transaction. unfold getOrCreateAccount, select. bracketed_auto.
  - apply atomic_transaction. unfold getOrCreateAccount, select. bracketed_auto.
  - apply atomic_transaction.
    unfold getUnwithdrawableHold, hasTables, getOrCreateAccount, select. bracketed_auto.
  - apply (atomic_map _ (fun _ => tt)), Hupd.
  - apply atomic_checked. intros st _. apply Hupd.
  - apply atomic_checked. intros st _. apply atomic_transaction.
    unfold SqlStore.update_withdrawal, SqlStore.getWithdrawalById, credit, getOrCreateAccount, select,
      check. bracketed_auto.
  - apply atomic_checked. intros a _. apply atomic_transaction.
    unfold getWithdrawalByIdempotencyKey, debit, SqlStore.insertWithdrawal, getOrCreateAccount, select,
      check. bracketed_auto.
  - apply atomic_checked. intros a _. apply atomic_transaction.
    unfold getOrCreateAccount, select. bracketed_auto.
Qed.

Lemma sql_call_bracketed op uuid now : bracketed (sql_run (sql_call op uuid now)).
Proof. apply (dn_bracketed _ _ (sql_call_denotes op uuid now)). Qed.

(** The outcome of a call in any weather. *)
Lemma sql_call_outcome op uuid now m s :
  let hold := fun id => escrow_hold id now (db s) in
  session_ok s -> rel m (db s) -> call_fits op uuid (db s) -> (forall id, 0 <= hold id) ->
  match sql_run (sql_call op uuid now) s with
  | (Ok ans, s') => mem_answer hold op now m = Ok ans /\ rel (apply_op hold op now m) (db s')
  | (Throw _, s') => db s' = db s
  end.
Proof.
  intros hold Hs Hrel Hfit Hh.
  pose proof (call_agrees op uuid now m (db s) Hrel Hfit Hh) as Hag. fold hold in Hag.
  pose proof (dn_ok _ _ (sql_call_denotes op uuid now) s) as Hok.
  pose proof (sql_call_atomic op uuid now s Hs) as Hat.
  destruct (sql_run (sql_call op uuid now) s) as [[ans|e] s']; [|done].
  specialize (Hok ans s' Hs eq_refl).
  destruct (mem_answer hold op now m) as [ans'|e'].
  - destruct Hag as (d' & H & Hr). rewrite Hok in H. injection H as -> ->. by split.
  - congruence.
Qed.
End driver_runs.

(** ** Reachable sessions

    Any sequence of calls, each under any faults, and of changes other modules
    make to the tables the store only reads. *)

Definition caller_ok (op : ledger_op) (uuid : string) (d : relay_db) : Prop :=
  call_fits op uuid d /\
  match op with
  | OCredit _ a ty _ _ | ODebit _ a ty _ _ | ODebitSpendable _ a ty _ _ =>
      0 <= a /\ ty <> withdrawal
  | OEnqueue args a => 0 <= a /\ forall n, ea_pendingId args <> Some (hex_id "pend-mem-" n)
  | _ => True
  end /\
  Forall (fun r => 0 <= amount_settled r) (default [] (relay_settlements d)).

Definition empty_ledger (d : relay_db) : Prop :=
  relay_accounts d = [] /\ relay_transactions d = [] /\ relay_withdrawals d = [] /\
  relay_pending_withdrawals d = [].

Definition same_ledger (d d' : relay_db) : Prop :=
  relay_accounts d' = relay_accounts d /\ relay_transactions d' = relay_transactions d /\
  relay_withdrawals d' = relay_withdrawals d /\
  relay_pending_withdrawals d' = relay_pending_withdrawals d.

Inductive sql_reachable : session relay_db -> Prop :=
| sql_start d fs : empty_ledger d ->
    sql_reachable {| db := d; boundaries := []; txnDepth := 0; faults := fs |}
| sql_step op uuid now s fs : sql_reachable s -> caller_ok op uuid (db s) ->
    sql_reachable (set_faults fs (sql_run (sql_call op uuid now) s).2)
| sql_env s d' : sql_reachable s -> same_ledger (db s) d' -> sql_reachable (set_db d' s).

Section reachable_sessions.
Lemma rel_empty d : empty_ledger d -> rel new_mem_store d.
Proof.
  intros (Ha & Ht & Hw & Hp). constructor; rewrite ?Ha, ?Ht, ?Hw, ?Hp; try done.
  - intros id. unfold sql_balance, find_account. by rewrite Ha.
  - apply NoDup_nil_2.
  - apply NoDup_nil_2.
  - cbn. set_solver.
  - apply NoDup_nil_2.
Qed.

Lemma rel_same_ledger m d d' : same_ledger d d' -> rel m d -> rel m d'.
Proof.
  intros (Ha & Ht & Hw & Hp) []. constructor; rewrite ?Ha, ?Ht, ?Hw, ?Hp; try done.
  intros id. rewrite rel_balance0. unfold sql_balance, find_account. by rewrite Ha.
Qed.

Lemma escrow_hold_nonneg id now d :
  Forall (fun r => 0 <= amount_settled r) (default [] (relay_settlements d)) ->
  0 <= escrow_hold id now d.
Proof.
  unfold escrow_hold. destruct (relay_settlements d) as [st|]; [|done].
  destruct (relay_disputes d) as [ds|]; [|done]. intros H. apply zsum_nonneg.
  intros r Hr%list_elem_of_In%filter_In. rewrite Forall_forall in H. apply H, list_elem_of_In, Hr.
Qed.

Lemma caller_ok_mem op uuid m d : rel m d -> caller_ok op uuid d -> op_ok op m.
Proof.
  intros [] [[_ Hfit] [Hop _]]. destruct op; cbn; try done.
  - destruct Hfit as (Hfresh & _ & _). rewrite rel_withdrawals0.
    rewrite (jm_get_keyed (fun r => withdrawal_id (wd r)) wd).
    destruct (List.find _ _) as [r|] eqn:E; [|done]. apply List.find_some in E as [Hin Hr].
    rewrite Forall_forall in Hfresh. apply list_elem_of_In in Hin. apply Hfresh in Hin.
    by apply bool_decide_eq_true in Hr.
  - destruct Hop as [Ha Hid], Hfit as (_ & qid & Hq & Hfresh). split; [done|]. rewrite Hq in *.
    split; [|intros n; specialize (Hid n); congruence]. rewrite rel_queue0.
    rewrite (jm_get_keyed (fun r => pr_pendingId (pw r)) pw).
    destruct (List.find _ _) as [r|] eqn:E; [|done]. apply List.find_some in E as [Hin Hr].
    rewrite Forall_forall in Hfresh. apply list_elem_of_In in Hin. apply Hfresh in Hin.
    by apply bool_decide_eq_true in Hr.
Qed.

(** Every reachable session has a reachable in-memory counterpart. *)
Lemma sql_reachable_rel s :
  sql_reachable s -> session_ok s /\ exists m, MemStore.reachable m /\ rel m (db s).
Proof.
  induction 1 as [d fs He|op uuid now s fs _ [Hs (m & Hm & Hrel)] Hcall|s d' _ [Hs (m & Hm & Hrel)] Hsame].
  - split; [done|]. exists new_mem_store. split; [constructor|by apply rel_empty].
  - split.
    { apply (bracketed_session_ok _ s (sql_call_bracketed op uuid now) Hs). }
    pose proof (sql_call_outcome op uuid now m s Hs Hrel (proj1 Hcall)) as Hout.
    specialize (Hout (fun id => escrow_hold_nonneg id now _ (proj2 (proj2 Hcall)))).
    cbn [set_faults db]. destruct (sql_run (sql_call op uuid now) s) as [[ans|e] s']; cbn [snd].
    + destruct Hout as [_ Hr]. eexists. split; [|exact Hr]. apply reach_step; [done|].
      by apply (caller_ok_mem op uuid m (db s)).
    + exists m. split; [done|]. by rewrite Hout.
  - split; [done|]. exists m. split; [done|]. by apply (rel_same_ledger m (db s)).
Qed.

Lemma zsum_erased f (l : list AccountTransaction) (rows : list txn_row) :
  (forall t, f (erase_id t) = f t) ->
  erase_id <$> l = (fun r => erase_id (txn r)) <$> rows -> zsum f l = zsum f (txn <$> rows).
Proof.
  intros Hf. revert rows. induction l as [|t l IH]; intros [|r rows]; try done.
  rewrite !fmap_cons. intros Heq. apply (inj2 cons) in Heq as [H1 H2]. cbn. by rewrite <- (Hf t), (IH rows H2), H1, Hf.
Qed.
End reachable_sessions.

(** * Properties *)

(** What the tables say is still out of an account: its withdrawals that did
    not fail and its queue rows. *)
Definition sql_outstanding (id : string) (d : relay_db) : Z :=
  zsum (taken id) (wd <$> relay_withdrawals d) +
  zsum (queued id) (pw <$> relay_pending_withdrawals d).

(** C1: the SQLite store implements the in-memory store, under any failures.
    From related states a call either returns what the in-memory store returns
    and the states stay related, or throws and leaves every table as it was; and
    when no statement fails it throws only where the in-memory store throws. *)
Theorem sqlite_refines_memory op uuid now m (s : session relay_db) :
  let hold := fun id => escrow_hold id now (db s) in
  session_ok s -> rel m (db s) -> call_fits op uuid (db s) -> (forall id, 0 <= hold id) ->
  match sql_run (sql_call op uuid now) s with
  | (Ok ans, s') => mem_answer hold op now m = Ok ans /\ rel (apply_op hold op now m) (db s')
  | (Throw _, s') => db s' = db s
  end /\
  (faults s = [] -> (sql_run (sql_call op uuid now) s).1 = mem_answer hold op now m).
Proof.
  intros hold Hs Hrel Hfit Hh. split; [by apply sql_call_outcome|]. intros Hf.
  rewrite (dn_clean _ _ (sql_call_denotes op uuid now) s Hs Hf).
  pose proof (call_agrees op uuid now m (db s) Hrel Hfit Hh) as H. fold hold in H.
  destruct (mem_answer hold op now m) as [ans|e].
  - by destruct H as (d' & -> & _).
  - by rewrite H.
Qed.

Definition relay_session (fs : list bool) : session relay_db :=
  {| db := createAccountTables; boundaries := []; txnDepth := 0; faults := fs |}.

Definition demo_credit : ledger_op := OCredit "alice" 500 deposit None None.

Definition session_after (op : ledger_op) (uuid : string) (now : Z) (fs : list bool)
    (s : session relay_db) : session relay_db :=
  set_faults fs (sql_run (sql_call op uuid now) s).2.

(** Alice deposits 500 and asks for 200; the insert of the withdrawal row fails. *)
Definition demo_record : ledger_op :=
  ORecord (demo_withdrawal "w1" 200 (Some "k"%string)) "first".
Definition demo_funded : session relay_db :=
  session_after demo_credit "t1" 10 [] (relay_session []).

Lemma demo_rel :
  rel (apply_op no_hold demo_credit 10 new_mem_store) (db demo_funded).
Proof.
  assert (rel new_mem_store (db (relay_session []))) as H0 by (apply rel_empty; by repeat split).
  assert (call_fits demo_credit "t1" (db (relay_session []))) as H1 by (split; [constructor|done]).
  pose proof (sql_call_outcome demo_credit "t1" 10 new_mem_store (relay_session [])
    (fun _ => eq_refl) H0 H1 (fun _ => Z.le_refl 0)) as H.
  exact (proj2 H).
Defined.

Lemma sqlite_refines_memory_witness :
  exists m, rel m (db demo_funded) /\
  (let '(r, s') := sql_run (sql_call demo_record "t2" 20)
                     (set_faults (repeat false 9 ++ [true]) demo_funded) in
   r = Throw Error_driver /\ db s' = db demo_funded) /\
  exists record m', rel m' (db (sql_run (sql_call demo_record "t2" 20) demo_funded).2) /\
    (sql_run (sql_call demo_record "t2" 20) demo_funded).1 = Ok (VRecord (Recorded record 300)).
Proof.
  set (m0 := apply_op no_hold demo_credit 10 new_mem_store).
  assert (call_fits demo_record "t2" (db demo_funded)) as Hfit.
  { repeat split; try discriminate; repeat constructor; discriminate. }
  exists m0. split; [exact demo_rel|]. split.
  - destruct (sqlite_refines_memory demo_record "t2" 20 m0
      (set_faults (repeat false 9 ++ [true]) demo_funded)
      (fun _ => eq_refl) demo_rel Hfit (fun _ => Z.le_refl 0)) as [H _].
    destruct (sql_run (sql_call demo_record "t2" 20)
      (set_faults (repeat false 9 ++ [true]) demo_funded)) as [r s'] eqn:E.
    vm_compute in E. injection E as <- <-. split; [reflexivity|exact H].
  - destruct (sqlite_refines_memory demo_record "t2" 20 m0 demo_funded
      (fun _ => eq_refl) demo_rel Hfit (fun _ => Z.le_refl 0)) as [H _].
    destruct (sql_run (sql_call demo_record "t2" 20) demo_funded) as [r s'] eqn:E.
    assert (r = (sql_run (sql_call demo_record "t2" 20) demo_funded).1) as Hr by (by rewrite E).
    vm_compute in Hr. subst r. eexists _, _. split; [exact (proj2 H)|reflexivity].
Defined.


