(* ===== verification/Tables.v ===== *)
(** * Account tables inside a larger database

    A module with tables of its own keeps them beside those of [SqlStore]: the
    database is a pair.  A driver of the pair is a driver of the account tables, and
    over the plain driver a method of the account store acts on its half only. *)

From S2P Require Import Prelude LedgerTypes Driver SqlStore.
Local Open Scope motebit_scope.

#[export] Instance AccountTables {T W} `{!DatabaseDriver (prod relay_db T) ledger_error W}
    : DatabaseDriver relay_db ledger_error W := {
  run_sql := fun A f => run_sql (fun d : prod relay_db T =>
    match f d.1 with Ok (a, d') => Ok (a, (d', d.2)) | Throw e => Throw e end);
  run_transaction := fun A fn => run_transaction (Db := prod relay_db T) fn;
}.

Section tables.
Context {T : Type}.
Abbreviation pair_db := (prod relay_db T).

(** [m] acts on the account tables as [f] and leaves the other tables. *)
Definition lifts {A} (m : call pair_db ledger_error A) (f : call relay_db ledger_error A) : Prop :=
  forall d t, m (d, t) = (let '(r, d') := f d in (r, (d', t))).

Lemma lifts_ret {A} (a : A) : lifts (call_ret a) (call_ret a).
Proof. done. Qed.

Lemma lifts_throw {A} (e : ledger_error) : lifts (call_throw (A := A) e) (call_throw e).
Proof. done. Qed.

Lemma lifts_bind {A B} (m : call pair_db ledger_error A) f
    (k : A -> call pair_db ledger_error B) h :
  lifts m f -> (forall a, lifts (k a) (h a)) -> lifts (call_bind m k) (call_bind f h).
Proof.
  intros Hm Hk d t. unfold call_bind. rewrite Hm. destruct (f d) as [[a|e] d']; [apply Hk|done].
Qed.

Lemma lifts_statement {A} (f : relay_db -> result ledger_error (A * relay_db)) :
  lifts (run_sql f) (run_sql f).
Proof. intros d t. cbn. unfold stmt_fn. cbn. by destruct (f d) as [[a d']|e]. Qed.

Lemma lifts_all_or_nothing {A} (m : call pair_db ledger_error A) f :
  lifts m f -> lifts (all_or_nothing m) (all_or_nothing f).
Proof. intros Hm d t. unfold all_or_nothing. rewrite Hm. by destruct (f d) as [[a|e] d']. Qed.

Lemma lifts_transaction {A} (m : call pair_db ledger_error A) f :
  lifts m f -> lifts (run_transaction (Db := pair_db) m) (run_transaction f).
Proof. apply lifts_all_or_nothing. Qed.

Lemma lifts_credit id a ty ref desc stamp uuid now :
  lifts (credit id (JInt a) ty ref desc stamp uuid now) (credit id (JInt a) ty ref desc stamp uuid now).
Proof.
  unfold credit. cbn [assertMicroUnits check]. apply lifts_transaction. apply lifts_bind.
  - unfold getOrCreateAccount. apply lifts_bind; [apply lifts_statement|]. intros [row|]; [apply lifts_ret|].
    apply lifts_bind; [apply lifts_statement|]. intros ?. apply lifts_ret.
  - intros ?. apply lifts_bind; [apply lifts_statement|]. intros ?.
    apply lifts_bind; [apply lifts_statement|]. intros ?.
    apply lifts_bind; [apply lifts_statement|]. intros ?. apply lifts_ret.
Qed.
End tables.
