(* ===== verification/SqlHolds.v ===== *)
(** * Escrow holds and refunds of the SQLite store

    What [debitSpendable] may spend, what the escrow hold covers, the grant hold,
    and [refundPendingWithdrawal] ([services/relay/src/account-store-sqlite.ts]),
    over the real driver with faults. *)

From S2P Require Import Prelude JsMap JsString LedgerTypes MemStore Driver SqlStore SqlRefines.
Local Open Scope Z_scope.

Section holds.
Abbreviation run m := (m : call relay_db ledger_error _).

Lemma debitSpendable_denotes id a ty ref desc stamp uuid now :
  denotes (sql_run (debitSpendable id a ty ref desc stamp uuid now))
          (debitSpendable id a ty ref desc stamp uuid now).
Proof.
  unfold debitSpendable, getUnwithdrawableHold, hasTables, getOrCreateAccount, select, check.
  denotes_auto.
Qed.

Lemma debitSpendable_atomic id a ty ref desc stamp uuid now :
  atomic (sql_run (debitSpendable id a ty ref desc stamp uuid now)).
Proof.
  apply atomic_checked. intros z _. apply atomic_transaction.
  unfold getUnwithdrawableHold, hasTables, getOrCreateAccount, select. bracketed_auto.
Qed.

(** The queue row that refunds: the last part of [refundPendingWithdrawal]. *)
Definition refunded_row (refundedAt : Z) (r : pending_row) : pending_row :=
  {| pw := with_queue_status q_refunded (pw r); last_attempt_at := Some refundedAt;
     last_error := last_error r; linked_withdrawal := linked_withdrawal r |}.

Definition queue_row (qid : string) (d : relay_db) : option pending_row :=
  List.find (fun r => bool_decide (pr_pendingId (pw r) = qid)) (relay_pending_withdrawals d).

(** The primary keys of the accounts and of the queue. *)
Definition keys_ok (d : relay_db) : Prop :=
  NoDup (va_motebit_id <$> relay_accounts d) /\
  NoDup ((fun r => pr_pendingId (pw r)) <$> relay_pending_withdrawals d).

Lemma refund_pure qid at_ uuid now d :
  keys_ok d -> fresh_uuid uuid d ->
  (exists r d', queue_row qid d = Some r /\ pr_status (pw r) = q_refund_owed /\
     run (refundPendingWithdrawal qid at_ uuid now) d = (Ok true, d') /\
     queue_row qid d' = Some (refunded_row at_ r) /\ keys_ok d' /\
     forall i, sql_balance i d'
       = sql_balance i d + if decide (i = pr_motebitId (pw r)) then pr_amountMicro (pw r) else 0) \/
  ((forall r, queue_row qid d = Some r -> pr_status (pw r) <> q_refund_owed) /\
   run (refundPendingWithdrawal qid at_ uuid now) d = (Ok false, d)).
Proof.
  intros [Hnd Hq] Hf. unfold refundPendingWithdrawal. rewrite pure_transaction. unfold all_or_nothing.
  set (hit := fun r => bool_decide (pr_pendingId (pw r) = qid) &&
                       bool_decide (pr_status (pw r) = q_refund_owed)).
  pose proof (keyed_update (fun r => pr_pendingId (pw r)) (fun r => r) qid
    (fun r => bool_decide (pr_status (pw r) = q_refund_owed)) (refunded_row at_) (refunded_row at_)
    (relay_pending_withdrawals d) (fun _ => eq_refl) (fun _ => eq_refl) Hq) as H.
  cbv beta zeta in H. fold (queue_row qid d) in H. fold hit in H.
  set (d1 := upd_pending (update_rows hit (refunded_row at_)) d).
  assert (run (run_sql (fun d => Ok (changes hit (relay_pending_withdrawals d),
      upd_pending (update_rows hit (refunded_row at_)) d))) d
    = (Ok (changes hit (relay_pending_withdrawals d)), d1)) as H1 by done.
  rewrite (call_bind_run _ _ _ _ _ H1).
  destruct (queue_row qid d) as [r|] eqn:Er; cbn [fmap option_fmap option_map] in H.
  2:{ destruct H as [-> H]. right. split; [by intros r|]. cbn. unfold d1, upd_pending. rewrite H.
      by destruct d. }
  case_bool_decide as Hst.
  2:{ destruct H as [-> H]. right. split; [by intros r' [= <-]|]. cbn. unfold d1, upd_pending.
      rewrite H. by destruct d. }
  left. destruct H as [-> H]. exists r.
  assert (queue_row qid d1 = Some (refunded_row at_ r)) as Er1.
  { pose proof (jm_get_keyed (fun r => pr_pendingId (pw r)) (fun r => r) qid
      (relay_pending_withdrawals d1)) as Hg. cbv beta in Hg. fold (queue_row qid d1) in Hg.
    unfold d1 in Hg at 1. cbn [upd_pending relay_pending_withdrawals] in Hg.
    rewrite H, jm_get_set_eq in Hg. destruct (queue_row qid d1) as [r1|]; [|done].
    cbn in Hg. congruence. }
  assert (run (select (queue_row qid)) d1 = (Ok (queue_row qid d1), d1)) as H2 by done.
  cbn [decide decide_rel]. rewrite (decide_False (P := 1%nat = 0%nat)) by done.
  change (select (fun d => List.find _ (relay_pending_withdrawals d))) with (run (select (queue_row qid))).
  rewrite (call_bind_run _ _ _ _ _ H2), Er1.
  destruct (credit_pure (pr_motebitId (pw r)) (pr_amountMicro (pw r)) withdrawal (Some qid)
    (Some (String.append "Pending withdrawal " (String.append qid
             (String.append " not sent: " (default "refunded"%string (last_error r))))))
    None uuid now d1 Hnd Hf) as (d2 & H3 & Hm).
  exists d2. split; [done|]. split; [done|].
  cbn [pw refunded_row with_queue_status pr_motebitId pr_amountMicro last_error].
  rewrite (call_bind_run _ _ _ _ _ H3). split; [done|]. destruct Hm as [Hb Hnd2 [rows ->]].
  split; [exact Er1|]. split; [|exact Hb]. split; [exact Hnd2|].
  cbn [upd_accounts upd_transactions d1 upd_pending relay_pending_withdrawals].
  replace ((fun r => pr_pendingId (pw r)) <$> update_rows hit (refunded_row at_) _)
    with ((fun r => pr_pendingId (pw r)) <$> relay_pending_withdrawals d); [done|].
  unfold update_rows. rewrite <- list_fmap_compose. apply list_fmap_ext. intros _ x _. cbn.
  by destruct (hit x).
Qed.

Lemma refund_denotes qid at_ uuid now :
  denotes (sql_run (refundPendingWithdrawal qid at_ uuid now))
          (refundPendingWithdrawal qid at_ uuid now).
Proof.
  unfold refundPendingWithdrawal, credit, getOrCreateAccount, select, check. denotes_auto.
Qed.

Lemma refund_atomic qid at_ uuid now : atomic (sql_run (refundPendingWithdrawal qid at_ uuid now)).
Proof.
  apply atomic_transaction. unfold credit, getOrCreateAccount, select, check. bracketed_auto.
Qed.
End holds.

(** * Properties *)

(** A spend never reaches into escrow.  In any reachable session, when
    [debitSpendable] returns a balance it has taken exactly the amount, from that
    account alone, and what is left covers the escrow hold; when it refuses, no
    balance has changed and the spendable part was too small; when it throws,
    nothing has changed. *)
Theorem spend_leaves_escrow id z ty ref desc uuid now (s : session relay_db) :
  sql_reachable s -> fresh_uuid uuid (db s) ->
  let hold := escrow_hold id now (db s) in
  match sql_run (debitSpendable id (JInt z) ty ref desc None uuid now) s with
  | (Ok (Some b), s') => b = sql_balance id (db s) - z /\ hold <= b /\
      forall i, sql_balance i (db s') = if decide (i = id) then b else sql_balance i (db s)
  | (Ok None, s') => sql_balance id (db s) - hold < z /\
      forall i, sql_balance i (db s') = sql_balance i (db s)
  | (Throw _, s') => db s' = db s
  end.
Proof.
  intros (Hs & m & _ & Hrel)%sql_reachable_rel Hf hold.
  pose proof (dn_ok _ _ (debitSpendable_denotes id (JInt z) ty ref desc None uuid now) s) as Hok.
  pose proof (debitSpendable_atomic id (JInt z) ty ref desc None uuid now s Hs) as Hat.
  destruct (sql_run _ s) as [[r|e] s']; [|done]. specialize (Hok r s' Hs eq_refl).
  destruct (debitSpendable_pure id z ty ref desc None uuid now (db s) (rel_accounts _ _ Hrel) Hf)
    as [[Hlt (d' & H & [Hb _ _])]|[Hle (d' & H & [Hb _ _])]];
    rewrite Hok in H; injection H as -> ->.
  - split; [unfold hold; lia|]. intros i. rewrite Hb. case_decide; lia.
  - split; [done|]. split; [unfold hold; lia|]. intros i. rewrite Hb. case_decide; [subst|]; lia.
Qed.

(** Alice has 500, of which 150 settled an hour ago. *)
Definition demo_escrowed : session relay_db :=
  set_db (upd_settlements (fun _ => Some [{| st_settlement_id := "s9"; st_allocation_id := "a9";
            platform_fee := 8; record_motebit_id := None; st_motebit_id := "alice"; st_task_id := "t9";
            amount_settled := 150; st_status := "completed"; settlement_mode := None; settled_at := 1000 |}])
         (upd_disputes (fun _ => Some [{| d_dispute_id := "d9"; d_task_id := "t9"; d_allocation_id := "a9";
            d_state := "opened"; d_amount_locked := 158; d_resolved_at := None; d_appealed_at := None;
            d_final_at := None; fund_refusal := None |}])
         (upd_allocations (fun _ => []) (db demo_funded)))) demo_funded.

Lemma demo_escrowed_reachable : sql_reachable demo_escrowed.
Proof.
  apply sql_env; [|by repeat split].
  apply (sql_step demo_credit "t1" 10 (relay_session []) []).
  - apply (sql_start createAccountTables []). by repeat split.
  - repeat split; try constructor; discriminate.
Defined.

Lemma spend_leaves_escrow_witness :
  (let '(r, s') := sql_run (debitSpendable "alice" (JInt 350) fee None None None "t2" 3601000)
                     demo_escrowed in
   r = Ok (Some 150) /\ escrow_hold "alice" 3601000 (db demo_escrowed) <= 150) /\
  (sql_run (debitSpendable "alice" (JInt 351) fee None None None "t2" 3601000) demo_escrowed).1
  = Ok None.
Proof.
  split; [|vm_compute; reflexivity].
  assert (fresh_uuid "t2" (db demo_escrowed)) as Hf by (repeat constructor; discriminate).
  pose proof (spend_leaves_escrow "alice" 350 fee None None "t2" 3601000 demo_escrowed
    demo_escrowed_reachable Hf) as H.
  destruct (sql_run (debitSpendable "alice" (JInt 350) fee None None None "t2" 3601000) demo_escrowed)
    as [r s'] eqn:E.
  assert (r = Ok (Some 150)) as -> by (vm_compute in E; by injection E as <-).
  split; [reflexivity|]. apply H.
Defined.

(** What the escrow hold covers.  A relay-mode settlement credited to the
    account ([completed] or [partial]) is covered by the hold while its dispute
    window is open or a dispute on its task is active, whichever lasts longer;
    and when neither is so of any settlement, the hold is zero. *)
Theorem escrow_covers_window_and_disputes id now d st ds :
  relay_settlements d = Some st -> relay_disputes d = Some ds ->
  Forall (fun r => 0 <= amount_settled r) st ->
  let at_risk r := settled_at r > now - DISPUTE_WINDOW_MS \/
    exists x, x ∈ ds /\ d_task_id x = st_task_id r /\
      d_state x <> "final"%string /\ d_state x <> "expired"%string in
  let credited r := st_motebit_id r = id /\
    (st_status r = "completed"%string \/ st_status r = "partial"%string) /\
    (settlement_mode r = None \/ settlement_mode r = Some "relay"%string) in
  (forall r, r ∈ st -> credited r -> at_risk r -> amount_settled r <= escrow_hold id now d) /\
  ((forall r, r ∈ st -> credited r -> ~ at_risk r) -> escrow_hold id now d = 0).
Proof.
  intros Hst Hds Hpos at_risk credited. unfold escrow_hold. rewrite Hst, Hds.
  assert (forall r, held_settlement id (now - DISPUTE_WINDOW_MS) ds r = true <->
            credited r /\ at_risk r) as Hheld.
  { intros r. unfold held_settlement, credited, at_risk.
    rewrite !andb_true_iff, !orb_true_iff, !bool_decide_eq_true.
    assert (default "relay"%string (settlement_mode r) = "relay"%string <->
      settlement_mode r = None \/ settlement_mode r = Some "relay"%string) as ->
      by (destruct (settlement_mode r); naive_solver).
    enough (existsb (fun x => bool_decide (d_task_id x = st_task_id r))
      (List.filter (fun x => negb (bool_decide (d_state x = "final"%string) ||
                                   bool_decide (d_state x = "expired"%string))) ds) = true <->
      exists x, x ∈ ds /\ d_task_id x = st_task_id r /\
        d_state x <> "final"%string /\ d_state x <> "expired"%string) as -> by tauto.
    rewrite existsb_exists. setoid_rewrite filter_In. setoid_rewrite <- list_elem_of_In.
    setoid_rewrite negb_true_iff. setoid_rewrite orb_false_iff.
    setoid_rewrite bool_decide_eq_true. setoid_rewrite bool_decide_eq_false. naive_solver. }
  unfold select_sum. rewrite Forall_forall in Hpos. split.
  - intros r Hr Hc Ha. apply list_elem_of_split in Hr as (l1 & l2 & ->).
    rewrite List.filter_app, zsum_app. cbn. rewrite (proj2 (Hheld r) (conj Hc Ha)). cbn.
    assert (forall l, (forall x, x ∈ l -> x ∈ l1 ++ r :: l2) ->
      0 <= zsum amount_settled (List.filter (held_settlement id (now - DISPUTE_WINDOW_MS) ds) l)) as Hnn.
    { intros l Hl. apply zsum_nonneg. intros x Hx%list_elem_of_In%filter_In.
      apply Hpos, Hl, list_elem_of_In, Hx. }
    pose proof (Hnn l1 ltac:(set_solver)). pose proof (Hnn l2 ltac:(set_solver)). lia.
  - intros Hnone. replace (List.filter _ st) with (@nil settlement_row); [done|].
    symmetry. clear Hpos Hst. induction st as [|r st IH]; [done|]. cbn.
    destruct (held_settlement _ _ ds r) eqn:E.
    + apply Hheld in E as [Hc Ha]. by destruct (Hnone r ltac:(by left) Hc).
    + apply IH. intros r' Hr'. apply Hnone. by right.
Qed.

Lemma escrow_covers_window_and_disputes_witness :
  150 <= escrow_hold "alice" 1000000000 (db demo_escrowed) /\
  1000 <= 1000000000 - DISPUTE_WINDOW_MS.
Proof.
  split; [|vm_compute; discriminate].
  destruct (escrow_covers_window_and_disputes "alice" 1000000000 (db demo_escrowed) _ _
    eq_refl eq_refl ltac:(repeat constructor; discriminate)) as [H _].
  apply (H {| st_settlement_id := "s9"; st_allocation_id := "a9";
              platform_fee := 8; record_motebit_id := None; st_motebit_id := "alice"; st_task_id := "t9"; amount_settled := 150;
              st_status := "completed"; settlement_mode := None; settled_at := 1000 |}).
  - left.
  - repeat split; by left.
  - right. eexists. split; [by left|]. repeat split; discriminate.
Defined.

(** A parked batch withdrawal is refunded exactly once.  In a reachable
    session [refundPendingWithdrawal] returns true only for a [refund_owed] row,
    credits its amount to its owner alone and leaves the row [refunded]; so any
    later refund of the same row, at any time and through any failures, changes
    no balance. *)
Theorem pending_refund_once qid at1 uuid1 t1 (s s' : session relay_db) :
  session_ok s -> keys_ok (db s) -> fresh_uuid uuid1 (db s) ->
  sql_run (refundPendingWithdrawal qid at1 uuid1 t1) s = (Ok true, s') ->
  (exists r, queue_row qid (db s) = Some r /\ pr_status (pw r) = q_refund_owed /\
     forall i, sql_balance i (db s') = sql_balance i (db s) +
       if decide (i = pr_motebitId (pw r)) then pr_amountMicro (pw r) else 0) /\
  forall at2 uuid2 t2 fs, fresh_uuid uuid2 (db s') ->
    let '(r2, s2) := sql_run (refundPendingWithdrawal qid at2 uuid2 t2) (set_faults fs s') in
    r2 <> Ok true /\ db s2 = db s'.
Proof.
  intros Hs Hk Hf H1.
  pose proof (dn_ok _ _ (refund_denotes qid at1 uuid1 t1) s true s' Hs H1) as Hd.
  destruct (refund_pure qid at1 uuid1 t1 (db s) Hk Hf)
    as [(r & d' & Hr & Hst & Hrun & Hr' & Hk' & Hb)|[_ Hrun]]; rewrite Hd in Hrun; [|congruence].
  injection Hrun as Hdb. subst d'.
  split; [by exists r|]. intros at2 uuid2 t2 fs Hf2.
  assert (session_ok (set_faults fs s')) as Hs'.
  { pose proof (bracketed_session_ok _ s (dn_bracketed _ _ (refund_denotes qid at1 uuid1 t1)) Hs) as H.
    by rewrite H1 in H. }
  pose proof (refund_atomic qid at2 uuid2 t2 (set_faults fs s') Hs') as Hat.
  pose proof (dn_ok _ _ (refund_denotes qid at2 uuid2 t2) (set_faults fs s')) as Hok.
  destruct (sql_run (refundPendingWithdrawal qid at2 uuid2 t2) (set_faults fs s')) as [[b|e] s2];
    [|by split].
  specialize (Hok b s2 Hs' eq_refl). cbn [set_faults db] in Hok.
  destruct (refund_pure qid at2 uuid2 t2 (db s') Hk' Hf2)
    as [(r2 & d2 & Hr2 & Hst2 & _)|[_ Hrun2]].
  - rewrite Hr' in Hr2. by injection Hr2 as <-.
  - rewrite Hok in Hrun2. by injection Hrun2 as -> ->.
Qed.

(** A batched withdrawal the fire path parked. *)
Definition demo_parked : session relay_db :=
  set_db (upd_pending (fun _ => [{| pw := {| pr_pendingId := "q1"; pr_motebitId := "alice";
      pr_amountMicro := 70; pr_destination := "w"; pr_rail := "r"; pr_source := source_user;
      pr_enqueuedAt := 5; pr_status := q_refund_owed; pr_idempotencyKey := None |};
    last_attempt_at := None; last_error := None; linked_withdrawal := None |}]) (db demo_funded)) demo_funded.

Lemma pending_refund_once_witness :
  exists s', sql_run (refundPendingWithdrawal "q1" 8 "u1" 8) demo_parked = (Ok true, s') /\
    sql_balance "alice" (db s') = 570 /\
    let '(r2, s2) := sql_run (refundPendingWithdrawal "q1" 9 "u2" 9) (set_faults [] s') in
    r2 <> Ok true /\ db s2 = db s'.
Proof.
  set (s' := (sql_run (refundPendingWithdrawal "q1" 8 "u1" 8) demo_parked).2).
  assert (sql_run (refundPendingWithdrawal "q1" 8 "u1" 8) demo_parked = (Ok true, s')) as E
    by (vm_compute; reflexivity).
  exists s'. split; [exact E|]. split; [vm_compute; reflexivity|].
  assert (keys_ok (db demo_parked)) as Hk by (split; apply NoDup_singleton).
  assert (fresh_uuid "u1" (db demo_parked)) as Hf by (repeat constructor; discriminate).
  assert (fresh_uuid "u2" (db s')) as Hf2 by (vm_compute; repeat constructor; discriminate).
  exact (proj2 (pending_refund_once "q1" 8 "u1" 8 demo_parked s' (fun _ => eq_refl) Hk Hf E)
    9 "u2"%string 9 [] Hf2).
Defined.
