(* ===== verification/AccountStore.v ===== *)
(** * The account-store interface ([packages/virtual-accounts/src/store.ts])

    [AccountStore] is the interface the withdrawal and balance functions are
    written against; [AccountStoreLaws] is what its documentation promises about
    balances, holds and withdrawal states, in terms of four observations of a
    store.  The clock and the id supply a method reads belong to the instance. *)

From S2P Require Import Prelude LedgerTypes.
Local Open Scope Z_scope.

Class AccountStore (W : Type) := {
  getOrCreateAccount : string -> call W ledger_error VirtualAccount;
  getAccount : string -> call W ledger_error (option VirtualAccount);
  getUnwithdrawableHold : string -> call W ledger_error Z;
  getUnspentGrantHold : string -> call W ledger_error Z;
  getPendingWithdrawalsTotal : string -> call W ledger_error Z;
  getPendingAllocationsTotal : string -> call W ledger_error Z;
  getSweepConfig : string -> call W ledger_error SweepConfig;
  getWithdrawalByIdempotencyKey : string -> string -> call W ledger_error (option WithdrawalRequest);
  debitAndRecordWithdrawal : NewWithdrawal -> string -> call W ledger_error record_result;
  linkWithdrawalTransfer : string -> string -> call W ledger_error bool;
  claimWithdrawalForPayout : string -> Z -> option Z -> call W ledger_error bool;
  setWithdrawalCompletion : string -> string -> Z -> WithdrawalStatus -> call W ledger_error bool;
  setWithdrawalSignature : string -> string -> string -> call W ledger_error unit;
  failWithdrawalAndRefund : string -> string -> WithdrawalStatus -> option Z ->
    call W ledger_error (option (string * Z));
  noteWithdrawalPayoutUnresolved : string -> string -> call W ledger_error bool;
}.

(** What a client may observe: each account's balance and holds, and the status
    and owner and amount of each withdrawal. *)
Record observation (W : Type) := {
  ob_balance : string -> W -> Z;
  ob_escrow : string -> W -> Z;
  ob_grant : string -> W -> Z;
  ob_withdrawal : string -> W -> option (WithdrawalStatus * string * Z);
}.
Arguments ob_balance {W}.
Arguments ob_escrow {W}.
Arguments ob_grant {W}.
Arguments ob_withdrawal {W}.

(** Two stores no client can tell apart. *)
Record indistinct {W} (ob : observation W) (w w' : W) : Prop := {
  in_balance : forall i, ob_balance ob i w' = ob_balance ob i w;
  in_escrow : forall i, ob_escrow ob i w' = ob_escrow ob i w;
  in_grant : forall i, ob_grant ob i w' = ob_grant ob i w;
  in_withdrawal : forall i, ob_withdrawal ob i w' = ob_withdrawal ob i w;
}.

#[export] Instance indistinct_equivalence {W} (ob : observation W) : Equivalence (indistinct ob).
Proof.
  split.
  - by intros w.
  - intros w1 w2 []. by split; intros i; symmetry.
  - intros w1 w2 w3 [] []. split; intros i; etransitivity; eauto.
Qed.

(** A query: it observes [f] and leaves the store as it was, or throws and does
    so. *)
Definition observes {W A} (ob : observation W) (ok : W -> Prop) (m : call W ledger_error A)
    (P : A -> W -> Prop) : Prop := forall w, ok w ->
  let '(r, w') := m w in
  ok w' /\ indistinct ob w w' /\ match r with Ok a => P a w | Throw _ => True end.

(** A compare-and-set of one withdrawal's status: [won] tells from the answer
    whether this call made the transition [from -> to]; [paid] is what a won
    call adds to the owner's balance for each unit of the amount. *)
Definition compare_and_set {W A} (ob : observation W) (ok : W -> Prop)
    (m : call W ledger_error A) (won : A -> bool) (id : string) (from to : WithdrawalStatus)
    (paid : Z) : Prop := forall w, ok w ->
  let '(r, w') := m w in
  ok w' /\
  match r with
  | Ok a =>
      if won a then exists mb amt,
        ob_withdrawal ob id w = Some (from, mb, amt) /\
        ob_withdrawal ob id w' = Some (to, mb, amt) /\
        (forall j, j <> id -> ob_withdrawal ob j w' = ob_withdrawal ob j w) /\
        (forall i, ob_balance ob i w' = ob_balance ob i w + if decide (i = mb) then paid * amt else 0)
      else indistinct ob w w'
  | Throw _ => indistinct ob w w'
  end.

Class AccountStoreLaws (W : Type) `{AccountStore W} := {
  obs : observation W;
  store_ok : W -> Prop;
  law_getOrCreate id :
    observes obs store_ok (getOrCreateAccount id) (fun a w => va_balance a = ob_balance obs id w);
  law_getAccount id :
    observes obs store_ok (getAccount id)
      (fun a w => match a with Some r => va_balance r | None => 0 end = ob_balance obs id w);
  law_escrow id :
    observes obs store_ok (getUnwithdrawableHold id) (fun h w => h = ob_escrow obs id w);
  law_grant id :
    observes obs store_ok (getUnspentGrantHold id) (fun h w => h = ob_grant obs id w);
  law_keyed mb key :
    observes obs store_ok (getWithdrawalByIdempotencyKey mb key) (fun _ _ => True);
  law_record nw desc w : store_ok w ->
    match debitAndRecordWithdrawal nw desc w with
    | (Ok (Recorded record b), w') => exists a,
        nw_amount nw = JInt a /\ record = fresh_withdrawal nw a /\
        a <= ob_balance obs (nw_motebit_id nw) w /\ b = ob_balance obs (nw_motebit_id nw) w - a /\
        forall i, ob_balance obs i w'
          = if decide (i = nw_motebit_id nw) then b else ob_balance obs i w
    | (_, w') => forall i, ob_balance obs i w' = ob_balance obs i w
    end;
  law_link id ref : observes obs store_ok (linkWithdrawalTransfer id ref) (fun _ _ => True);
  law_claim id at_ until :
    compare_and_set obs store_ok (claimWithdrawalForPayout id at_ until) (fun b => b)
      id pending processing 0;
  law_complete id ref at_ from : isOpenFrom from = true ->
    compare_and_set obs store_ok (setWithdrawalCompletion id ref at_ from) (fun b => b)
      id from completed 0;
  law_sign id sig pk : observes obs store_ok (setWithdrawalSignature id sig pk) (fun _ _ => True);
  law_fail id reason from at_ : isOpenFrom from = true ->
    compare_and_set obs store_ok (failWithdrawalAndRefund id reason from at_)
      (fun r => bool_decide (is_Some r)) id from failed 1;
  law_note id note : observes obs store_ok (noteWithdrawalPayoutUnresolved id note) (fun _ _ => True);
}.

#[export] Hint Resolve law_getOrCreate law_getAccount law_escrow law_grant law_keyed law_link law_sign
  law_note : motebit.

(** Sequencing of queries. *)
Section observes.
Context {W : Type} (ob : observation W) (ok : W -> Prop).

Lemma observes_ret {A} (a : A) (P : A -> W -> Prop) :
  (forall w, P a w) -> observes ob ok (call_ret a) P.
Proof. intros HP w Hw. cbn. by split; [|split]. Qed.

Lemma observes_bind {A B} (m : call W ledger_error A) (k : A -> call W ledger_error B)
    (P : A -> W -> Prop) (Q : B -> W -> Prop) :
  observes ob ok m P ->
  (forall a w0, P a w0 -> observes ob ok (k a) (fun b w => indistinct ob w0 w -> Q b w0)) ->
  observes ob ok (call_bind m k) Q.
Proof.
  intros Hm Hk w Hw. specialize (Hm w Hw). unfold call_bind.
  destruct (m w) as [[a|e] w1]; destruct Hm as (Hw1 & Hi & HP); [|done].
  specialize (Hk a w HP w1 Hw1). destruct (k a w1) as [r w2].
  destruct Hk as (Hw2 & Hi2 & HQ). split; [done|]. split; [by etransitivity|].
  destruct r; [by apply HQ|done].
Qed.
End observes.
