(* ===== verification/Withdrawals.v ===== *)
(** * Withdrawal orchestration ([packages/virtual-accounts/src/withdrawals.ts],
      [spendable.ts])

    The functions over an injected [AccountStore].  The logger's events are not
    modelled; [fromMicro(amount).toFixed(6)] in the description is a parameter.
    The theorems use the interface's laws only, so they hold of every store
    that has them ([StoreLaws.v]). *)

From S2P Require Import Prelude LedgerTypes AccountStore.
Local Open Scope Z_scope.
Local Open Scope motebit_scope.

Record WithdrawableAvailable := {
  wa_balance : Z;
  disputeHold : Z;
  grantHold : Z;
  available : Z;
}.

(** [now] and [newId] are called after the holds are checked; their answers are
    fields here. *)
Record RequestWithdrawalArgs := {
  rw_motebitId : string;
  amountMicro : js_number;
  rw_destination : option string;
  idempotencyKey : option string;
  newId : string;
  rw_now : Z;
}.

Inductive request_result :=
| Requested (record : WithdrawalRequest)
| AlreadyRequested (existing : WithdrawalRequest)
| Refused.

Record CompleteWithdrawalArgs := {
  cw_withdrawalId : string;
  cw_payoutReference : string;
  cw_from : WithdrawalStatus;
  relaySignature : option string;
  relayPublicKey : option string;
  completedAt : Z;
}.

Section withdrawals.
Context {W : Type} `{!AccountStore W} (toFixed6 : Z -> string).
Abbreviation store_call := (call W ledger_error).

Definition computeWithdrawableAvailable (motebitId : string) : store_call WithdrawableAvailable :=
  let! account := getOrCreateAccount motebitId in
  let! dispute := getUnwithdrawableHold motebitId in
  let! grant := getUnspentGrantHold motebitId in
  call_ret {| wa_balance := va_balance account; disputeHold := dispute; grantHold := grant;
              available := Z.max 0 (va_balance account - dispute - grant) |}.

(** An empty key is falsy: it is not looked up, but it is stored. *)
Definition truthy (s : option string) : option string :=
  match s with Some EmptyString => None | _ => s end.

Definition requestWithdrawal (args : RequestWithdrawalArgs) : store_call request_result :=
  match assertPositiveMicro (amountMicro args) with
  | Throw e => call_throw e
  | Ok amount =>
      let destination := default "pending"%string (rw_destination args) in
      let! prior := match truthy (idempotencyKey args) with
                    | Some key => getWithdrawalByIdempotencyKey (rw_motebitId args) key
                    | None => call_ret None
                    end in
      match prior with
      | Some p => call_ret (AlreadyRequested p)
      | None =>
          let! wa := computeWithdrawableAvailable (rw_motebitId args) in
          if decide (available wa < amount) then call_ret Refused else
          let! result := debitAndRecordWithdrawal
            {| nw_withdrawal_id := newId args;
               nw_motebit_id := rw_motebitId args;
               nw_amount := amountMicro args;
               nw_currency := "USD";
               nw_destination := destination;
               nw_idempotency_key := idempotencyKey args;
               nw_requested_at := rw_now args |}
            (String.append "Withdrawal request: $"
               (String.append (toFixed6 amount) (String.append " to " destination))) in
          match result with
          | InsufficientFunds => call_ret Refused
          | Existing e => call_ret (AlreadyRequested e)
          | Recorded record _ => call_ret (Requested record)
          end
      end
  end.

Definition linkWithdrawalTransfer (withdrawalId payoutReference : string) : store_call bool :=
  AccountStore.linkWithdrawalTransfer withdrawalId payoutReference.

Definition claimWithdrawalForPayout (withdrawalId : string) (claimedAt : Z)
    (payoutValidUntil : option Z) : store_call bool :=
  AccountStore.claimWithdrawalForPayout withdrawalId claimedAt payoutValidUntil.

Definition completeWithdrawal (args : CompleteWithdrawalArgs) : store_call bool :=
  let! ok := setWithdrawalCompletion (cw_withdrawalId args) (cw_payoutReference args)
               (completedAt args) (cw_from args) in
  if negb ok then call_ret false else
  match truthy (relaySignature args), truthy (relayPublicKey args) with
  | Some sig, Some pk =>
      setWithdrawalSignature (cw_withdrawalId args) sig pk ;! call_ret true
  | _, _ => call_ret true
  end.

Definition failWithdrawal (withdrawalId reason : string) (from : WithdrawalStatus)
    (failedAt : option Z) : store_call bool :=
  let! refunded := failWithdrawalAndRefund withdrawalId reason from failedAt in
  match refunded with
  | None => call_ret false
  | Some _ => call_ret true
  end.

Definition noteWithdrawalPayoutUnresolved (withdrawalId note : string) : store_call bool :=
  AccountStore.noteWithdrawalPayoutUnresolved withdrawalId note.

Definition getAccountBalanceDetailed (motebitId : string) : store_call AccountBalanceDetail :=
  let! account := getOrCreateAccount motebitId in
  let! pendingW := getPendingWithdrawalsTotal motebitId in
  let! pendingA := getPendingAllocationsTotal motebitId in
  let! wa := computeWithdrawableAvailable motebitId in
  let! sweep := getSweepConfig motebitId in
  call_ret {| abd_balance := va_balance account;
              abd_currency := va_currency account;
              pending_withdrawals := pendingW;
              pending_allocations := pendingA;
              dispute_window_hold := disputeHold wa;
              available_for_withdrawal := available wa;
              abd_sweep_threshold := sweep_threshold sweep;
              abd_settlement_address := settlement_address sweep |}.

Definition computeSpendableAvailable (motebitId : string) : store_call Z :=
  let! account := getAccount motebitId in
  let balance := match account with Some r => va_balance r | None => 0 end in
  let! escrowHold := getUnwithdrawableHold motebitId in
  call_ret (Z.max 0 (balance - escrowHold)).
End withdrawals.

(** ** Sequences of payout actions

    What handlers, operators and retries may do to existing withdrawals, in any
    interleaving. *)

Inductive payout_action :=
| Claim (id : string) (claimedAt : Z) (until : option Z)
| Complete (args : CompleteWithdrawalArgs)
| Fail_ (id reason : string) (from : WithdrawalStatus) (failedAt : option Z)
| Note (id note : string)
| Link (id ref : string).

(** [from] is typed [WithdrawalOpenStatus]. *)
Definition well_typed (a : payout_action) : bool :=
  match a with
  | Complete args => isOpenFrom (cw_from args)
  | Fail_ _ _ from _ => isOpenFrom from
  | _ => true
  end.

(** Whether an answer says that this action settled withdrawal [id], and that it
    refunded it. *)
Definition settles (id : string) (e : payout_action * result ledger_error bool) : bool :=
  match e with
  | (Complete args, Ok true) => bool_decide (cw_withdrawalId args = id)
  | (Fail_ id' _ _ _, Ok true) => bool_decide (id' = id)
  | _ => false
  end.

Section actions.
Context {W : Type} `{!AccountStore W}.

Definition act (a : payout_action) : call W ledger_error bool :=
  match a with
  | Claim id at_ until => claimWithdrawalForPayout id at_ until
  | Complete args => completeWithdrawal args
  | Fail_ id reason from at_ => failWithdrawal id reason from at_
  | Note id note => noteWithdrawalPayoutUnresolved id note
  | Link id ref => linkWithdrawalTransfer id ref
  end.

Fixpoint run_actions (l : list payout_action) (w : W)
    : list (payout_action * result ledger_error bool) * W :=
  match l with
  | [] => ([], w)
  | a :: l => let '(r, w1) := act a w in
              let '(rs, w2) := run_actions l w1 in
              ((a, r) :: rs, w2)
  end.

Context `{!AccountStoreLaws W}.
Implicit Types (w : W).

(** The amount a won refund pays to account [i]. *)
Definition refund_to (i : string) w (e : payout_action * result ledger_error bool) : Z :=
  match e with
  | (Fail_ id _ _ _, Ok true) =>
      match ob_withdrawal obs id w with
      | Some (_, mb, amt) => if decide (mb = i) then amt else 0
      | None => 0
      end
  | _ => 0
  end.

(** One action: it moved one withdrawal along an open edge, or nothing. *)
Definition moved_one (id : string) (refund : bool) (from to : WithdrawalStatus) w w' : Prop :=
  isOpenFrom from = true /\ exists mb amt,
    ob_withdrawal obs id w = Some (from, mb, amt) /\
    ob_withdrawal obs id w' = Some (to, mb, amt) /\
    (forall j, j <> id -> ob_withdrawal obs j w' = ob_withdrawal obs j w) /\
    (forall i, ob_balance obs i w'
       = ob_balance obs i w + if decide (i = mb) then if refund then amt else 0 else 0).

Lemma indistinct_trans_r w w1 w2 id b from to :
  moved_one id b from to w w1 -> indistinct obs w1 w2 -> moved_one id b from to w w2.
Proof.
  intros (Ho & mb & amt & H1 & H2 & H3 & H4) [Hbal _ _ Hwd]. split; [done|]. exists mb, amt.
  split; [done|]. split; [congruence|]. split.
  - intros j Hj. rewrite Hwd. auto.
  - intros i. rewrite Hbal. auto.
Qed.

(** What each kind of action does, in terms of its answer. *)
Lemma act_outcome a w :
  well_typed a = true -> store_ok w ->
  let '(r, w') := act a w in
  store_ok w' /\
  match a with
  | Fail_ id _ from _ =>
      match r with Ok true => moved_one id true from failed w w' | _ => indistinct obs w w' end
  | Complete args =>
      match r with
      | Ok true => moved_one (cw_withdrawalId args) false (cw_from args) completed w w'
      | Ok false => indistinct obs w w'
      | Throw _ => indistinct obs w w' \/
          moved_one (cw_withdrawalId args) false (cw_from args) completed w w'
      end
  | Claim id _ _ =>
      indistinct obs w w' \/ moved_one id false pending processing w w'
  | Note _ _ | Link _ _ => indistinct obs w w'
  end.
Proof.
  intros Ht Hw. destruct a as [id at_ until|args|id reason from at_|id note|id ref]; cbn in Ht |- *.
  - unfold claimWithdrawalForPayout. pose proof (law_claim id at_ until w Hw) as H.
    destruct (AccountStore.claimWithdrawalForPayout id at_ until w) as [[[]|e] w1];
      destruct H as [Hw1 H]; (split; [done|]); [|by left|by left].
    right. split; [done|]. destruct H as (mb & amt & H1 & H2 & H3 & H4). exists mb, amt.
    repeat (split; [done|]). intros i. rewrite H4. case_decide; lia.
  - unfold completeWithdrawal, call_bind.
    pose proof (law_complete (cw_withdrawalId args) (cw_payoutReference args) (completedAt args)
      (cw_from args) Ht w Hw) as H.
    destruct (setWithdrawalCompletion _ _ _ _ w) as [[[]|e] w1]; destruct H as [Hw1 H]; cbn;
      [|by split|by split; [|left]].
    assert (moved_one (cw_withdrawalId args) false (cw_from args) completed w w1) as Hm.
    { split; [done|]. destruct H as (mb & amt & H1 & H2 & H3 & H4). exists mb, amt.
      repeat (split; [done|]). intros i. rewrite H4. case_decide; lia. }
    destruct (truthy (relaySignature args)) as [sig|]; [|by split].
    destruct (truthy (relayPublicKey args)) as [pk|]; [|by split].
    pose proof (law_sign (cw_withdrawalId args) sig pk w1 Hw1) as Hs. cbn.
    destruct (setWithdrawalSignature _ _ _ w1) as [[u|e] w2]; destruct Hs as (Hw2 & Hi & _); cbn;
      (split; [done|]); [|right]; by eapply indistinct_trans_r.
  - unfold failWithdrawal, call_bind. pose proof (law_fail id reason from at_ Ht w Hw) as H.
    destruct (failWithdrawalAndRefund _ _ _ _ w) as [[[p|]|e] w1]; destruct H as [Hw1 H]; cbn in *;
      (split; [done|]); try done.
    split; [done|]. destruct H as (mb & amt & H1 & H2 & H3 & H4). exists mb, amt.
    repeat (split; [done|]). intros i. rewrite H4. case_decide; lia.
  - unfold noteWithdrawalPayoutUnresolved. pose proof (law_note id note w Hw) as H.
    destruct (AccountStore.noteWithdrawalPayoutUnresolved id note w) as [r w1].
    by destruct H as (? & ? & _).
  - unfold linkWithdrawalTransfer. pose proof (law_link id ref w Hw) as H.
    destruct (AccountStore.linkWithdrawalTransfer id ref w) as [r w1].
    by destruct H as (? & ? & _).
Qed.

(** A withdrawal that is not open. *)
Definition closed_for (id : string) w : Prop :=
  match ob_withdrawal obs id w with Some (st, _, _) => isOpenFrom st = false | None => True end.

Lemma closed_indistinct id w w' : indistinct obs w w' -> closed_for id w -> closed_for id w'.
Proof. intros [_ _ _ Hwd]. unfold closed_for. by rewrite Hwd. Qed.

Lemma closed_moved id id' b from to w w' :
  moved_one id' b from to w w' -> closed_for id w -> closed_for id w' /\ id' <> id.
Proof.
  intros (Ho & mb & amt & H1 & H2 & H3 & _) Hc. unfold closed_for in *.
  destruct (decide (id = id')) as [->|Hne]; [rewrite H1 in Hc; congruence|].
  by rewrite H3.
Qed.

(** One action leaves a closed withdrawal closed and does not settle it; an
    action that settles one closes it. *)
Lemma act_closed a id w :
  well_typed a = true -> store_ok w ->
  let '(r, w') := act a w in
  (closed_for id w -> closed_for id w' /\ settles id (a, r) = false) /\
  (settles id (a, r) = true -> closed_for id w').
Proof.
  intros Ht Hw. pose proof (act_outcome a w Ht Hw) as H. destruct (act a w) as [r w'].
  destruct H as [_ H].
  assert (forall id' b from to, moved_one id' b from to w w' -> isOpenFrom to = false ->
    closed_for id' w') as Hclose.
  { intros id' b from to (_ & mb & amt & _ & H2 & _) Hto. unfold closed_for. by rewrite H2. }
  destruct a; cbn; (split; [intros Hc|try done]).
  - destruct H as [H|H]; [eauto using closed_indistinct|].
    by destruct (closed_moved _ _ _ _ _ _ _ H Hc).
  - destruct r as [[]|e]; [|eauto using closed_indistinct|destruct H as [H|H]; [eauto using closed_indistinct|]];
      destruct (closed_moved _ _ _ _ _ _ _ H Hc) as [? Hne]; (split; [done|]); [|done].
    by apply bool_decide_eq_false_2.
  - destruct r as [[]|e]; try done. intros <-%bool_decide_eq_true. by eapply Hclose.
  - destruct r as [[]|e]; [|eauto using closed_indistinct|eauto using closed_indistinct].
    destruct (closed_moved _ _ _ _ _ _ _ H Hc) as [? Hne]. split; [done|].
    by apply bool_decide_eq_false_2.
  - destruct r as [[]|e]; try done. intros <-%bool_decide_eq_true. by eapply Hclose.
  - eauto using closed_indistinct.
  - eauto using closed_indistinct.
Qed.

Definition settle_count (id : string) (l : list (payout_action * result ledger_error bool)) : nat :=
  length (List.filter (settles id) l).

Lemma settle_count_cons id e l :
  settle_count id (e :: l) = ((if settles id e then 1 else 0) + settle_count id l)%nat.
Proof. unfold settle_count. cbn [List.filter]. by destruct (settles id e). Qed.

Lemma settle_count_closed l id w :
  Forall (fun a => well_typed a = true) l -> store_ok w ->
  (closed_for id w -> settle_count id (run_actions l w).1 = 0)%nat /\
  (settle_count id (run_actions l w).1 <= 1)%nat.
Proof.
  intros Hl. revert w. induction Hl as [|a l Ha _ IH]; intros w Hw; [split; [done|]; cbn; lia|]; cbn.
  pose proof (act_outcome a w Ha Hw) as Hout. pose proof (act_closed a id w Ha Hw) as Hc.
  destruct (act a w) as [r w1]. destruct Hout as [Hw1 _]. destruct Hc as [Hc1 Hc2].
  specialize (IH w1 Hw1). destruct (run_actions l w1) as [rs w2]. cbn [fst] in IH |- *.
  destruct IH as [IH1 IH2]. rewrite settle_count_cons.
  destruct (settles id (a, r)) eqn:E.
  - specialize (Hc2 eq_refl). specialize (IH1 Hc2). split; [|lia]. intros Hcl. by destruct (Hc1 Hcl).
  - split; [|done]. intros Hcl. apply IH1. by destruct (Hc1 Hcl).
Qed.

(** The refunds of a run, at the amounts the withdrawals started with. *)
Lemma refund_to_stable i w w' e :
  (forall id, snd <$> (fst <$> ob_withdrawal obs id w') = snd <$> (fst <$> ob_withdrawal obs id w) /\
              snd <$> ob_withdrawal obs id w' = snd <$> ob_withdrawal obs id w) ->
  refund_to i w' e = refund_to i w e.
Proof.
  intros H. destruct e as [[] [[]|]]; try done. cbn. destruct (H id) as [H1 H2].
  destruct (ob_withdrawal obs id w') as [[[? ?] ?]|], (ob_withdrawal obs id w) as [[[? ?] ?]|];
    cbn in *; by simplify_eq.
Qed.

Lemma act_money a w :
  well_typed a = true -> store_ok w ->
  let '(r, w') := act a w in
  (forall id, snd <$> (fst <$> ob_withdrawal obs id w') = snd <$> (fst <$> ob_withdrawal obs id w) /\
              snd <$> ob_withdrawal obs id w' = snd <$> ob_withdrawal obs id w) /\
  forall i, ob_balance obs i w' = ob_balance obs i w + refund_to i w (a, r).
Proof.
  intros Ht Hw. pose proof (act_outcome a w Ht Hw) as H. destruct (act a w) as [r w'].
  destruct H as [_ H].
  assert (indistinct obs w w' -> (forall i, refund_to i w (a, r) = 0) ->
    (forall id, snd <$> (fst <$> ob_withdrawal obs id w') = snd <$> (fst <$> ob_withdrawal obs id w) /\
                snd <$> ob_withdrawal obs id w' = snd <$> ob_withdrawal obs id w) /\
    forall i, ob_balance obs i w' = ob_balance obs i w + refund_to i w (a, r)) as Hid.
  { intros [Hbal _ _ Hwd] Hz. split; [intros id; by rewrite Hwd|].
    intros i. rewrite Hz, Hbal. lia. }
  assert (forall id b from to, moved_one id b from to w w' ->
    (forall i, refund_to i w (a, r) = match ob_withdrawal obs id w with
       | Some (_, mb, amt) => if decide (mb = i) then if b then amt else 0 else 0 | None => 0 end) ->
    (forall id, snd <$> (fst <$> ob_withdrawal obs id w') = snd <$> (fst <$> ob_withdrawal obs id w) /\
                snd <$> ob_withdrawal obs id w' = snd <$> ob_withdrawal obs id w) /\
    forall i, ob_balance obs i w' = ob_balance obs i w + refund_to i w (a, r)) as Hmv.
  { intros id b from to (_ & mb & amt & H1 & H2 & H3 & H4) Hr. split.
    - intros j. destruct (decide (j = id)) as [->|Hj]; [by rewrite H1, H2|by rewrite H3].
    - intros i. rewrite H4, Hr, H1. repeat case_decide; congruence || lia. }
  destruct a; cbn in Hid, Hmv |- *.
  - destruct H as [H|H]; [by apply Hid|]. eapply Hmv; [exact H|]. intros i.
    destruct (ob_withdrawal obs id w) as [[[? ?] ?]|]; [by case_decide|done].
  - destruct r as [[]|e]; [|by apply Hid|destruct H as [H|H]; [by apply Hid|]];
      (eapply Hmv; [exact H|]); intros i;
      (destruct (ob_withdrawal obs _ w) as [[[? ?] ?]|]; [by case_decide|done]).
  - destruct r as [[]|e]; [|by apply Hid|by apply Hid]. by eapply Hmv.
  - by apply Hid.
  - by apply Hid.
Qed.

Lemma run_money l w :
  Forall (fun a => well_typed a = true) l -> store_ok w ->
  forall i, ob_balance obs i (run_actions l w).2
            = ob_balance obs i w + zsum (refund_to i w) (run_actions l w).1.
Proof.
  intros Hl. revert w. induction Hl as [|a l Ha _ IH]; intros w Hw i; cbn; [lia|].
  pose proof (act_outcome a w Ha Hw) as Hout. pose proof (act_money a w Ha Hw) as Hmon.
  destruct (act a w) as [r w1]. destruct Hout as [Hw1 _], Hmon as [Hs Hm].
  specialize (IH w1 Hw1 i). destruct (run_actions l w1) as [rs w2]. cbn [fst snd] in *.
  rewrite IH, Hm, zsum_cons. rewrite (zsum_ext (refund_to i w1) (refund_to i w) rs); [lia|].
  intros e _. by apply refund_to_stable.
Qed.
End actions.
