(* ===== verification/StoreLaws.v ===== *)
(** * Both stores keep the interface's promises

    Instances of [AccountStore] and [AccountStoreLaws] for the in-memory store and
    for the SQLite store over the real driver, under any faults; and the
    properties of the withdrawal functions, which hold of every lawful store. *)

From S2P Require Import Prelude JsMap JsString LedgerTypes MemStore Driver SqlStore SqlRefines.
From S2P Require Import SqlHolds AccountStore Withdrawals.
Local Open Scope Z_scope.

(** ** The in-memory store *)

Section mem_instance.
Context (escrow grant : string -> Z) (sweep : string -> SweepConfig) (now : Z).
Abbreviation MS := InMemoryAccountStore.

Definition total {A} (f : MS -> A * MS) : call MS ledger_error A :=
  fun m => let '(a, m') := f m in (Ok a, m').
Definition query {A} (f : MS -> A) : call MS ledger_error A := fun m => (Ok (f m), m).

Definition mem_account_store : AccountStore MS := {|
  AccountStore.getOrCreateAccount id := total (MemStore.getOrCreateAccount id now);
  AccountStore.getAccount id := query (MemStore.getAccount id);
  AccountStore.getUnwithdrawableHold id := query (fun _ => MemStore.getUnwithdrawableHold escrow id);
  AccountStore.getUnspentGrantHold id := query (fun _ => MemStore.getUnspentGrantHold grant id);
  AccountStore.getPendingWithdrawalsTotal id := query (MemStore.getPendingWithdrawalsTotal id);
  AccountStore.getPendingAllocationsTotal id := query (fun _ => MemStore.getPendingAllocationsTotal id);
  AccountStore.getSweepConfig id := query (fun _ => MemStore.getSweepConfig sweep id);
  AccountStore.getWithdrawalByIdempotencyKey mb key :=
    query (MemStore.getWithdrawalByIdempotencyKey mb key);
  AccountStore.debitAndRecordWithdrawal w desc := fun m =>
    match MemStore.debitAndRecordWithdrawal w desc now m with
    | Ok (r, m') => (Ok r, m')
    | Throw e => (Throw e, m)
    end;
  AccountStore.linkWithdrawalTransfer id ref := total (MemStore.linkWithdrawalTransfer id ref);
  AccountStore.claimWithdrawalForPayout id at_ until :=
    total (MemStore.claimWithdrawalForPayout id at_ until);
  AccountStore.setWithdrawalCompletion id ref at_ from :=
    total (MemStore.setWithdrawalCompletion id ref at_ from);
  AccountStore.setWithdrawalSignature id sig pk :=
    total (fun m => (tt, MemStore.setWithdrawalSignature id sig pk m));
  AccountStore.failWithdrawalAndRefund id reason from at_ :=
    total (MemStore.failWithdrawalAndRefund id reason from (default now at_) now);
  AccountStore.noteWithdrawalPayoutUnresolved id note :=
    total (MemStore.noteWithdrawalPayoutUnresolved id note);
|}.

Definition withdrawal_view (w : WithdrawalRequest) : WithdrawalStatus * string * Z :=
  (w_status w, w_motebit_id w, w_amount w).

Definition mem_obs : observation MS := {|
  ob_balance := balance_of;
  ob_escrow id _ := escrow id;
  ob_grant id _ := grant id;
  ob_withdrawal id m := withdrawal_view <$> jm_get id (withdrawals m);
|}.

Lemma mem_query {A} (f : MS -> A) (P : A -> MS -> Prop) :
  (forall m, P (f m) m) -> observes mem_obs (fun _ => True) (query f) P.
Proof. intros HP m _. cbn. split; [done|]. split; [done|apply HP]. Qed.

(** Same balances and same withdrawal views: indistinct. *)
Lemma mem_indistinct m m' :
  (forall i, balance_of i m' = balance_of i m) ->
  (forall i, withdrawal_view <$> jm_get i (withdrawals m') = withdrawal_view <$> jm_get i (withdrawals m)) ->
  indistinct mem_obs m m'.
Proof. by intros Hb Hw; split. Qed.

Lemma mem_update_view id guard f m i :
  withdrawal_view <$> jm_get i (withdrawals (MemStore.update_withdrawal id guard f m).2)
  = match jm_get i (withdrawals m) with
    | Some w => Some (withdrawal_view (if bool_decide (i = id) && guard w then f w else w))
    | None => None
    end.
Proof.
  unfold MemStore.update_withdrawal. destruct (jm_get id (withdrawals m)) as [w|] eqn:E.
  - destruct (guard w) eqn:G; cbn.
    + rewrite jm_get_set. destruct (decide (i = id)) as [->|Hi].
      * by rewrite E, G, bool_decide_eq_true_2.
      * rewrite bool_decide_eq_false_2 by done. by destruct (jm_get i (withdrawals m)).
    + destruct (decide (i = id)) as [->|Hi].
      * by rewrite E, G, bool_decide_eq_true_2.
      * rewrite bool_decide_eq_false_2 by done. by destruct (jm_get i (withdrawals m)).
  - cbn. destruct (decide (i = id)) as [->|Hi]; [by rewrite E|].
    rewrite bool_decide_eq_false_2 by done. by destruct (jm_get i (withdrawals m)).
Qed.

Lemma mem_update_balance id guard f m i :
  balance_of i (MemStore.update_withdrawal id guard f m).2 = balance_of i m.
Proof.
  unfold MemStore.update_withdrawal. destruct (jm_get id (withdrawals m)) as [w|]; [|done].
  by destruct (guard w).
Qed.

Lemma mem_update_observes {A} id guard f (g : bool -> A) :
  (forall w, withdrawal_view (f w) = withdrawal_view w) ->
  observes mem_obs (fun _ => True)
    (total (fun m => (g (MemStore.update_withdrawal id guard f m).1,
                      (MemStore.update_withdrawal id guard f m).2))) (fun _ _ => True).
Proof.
  intros Hf m _. cbn. split; [done|]. split; [|done]. apply mem_indistinct.
  - intros i. apply mem_update_balance.
  - intros i. rewrite mem_update_view. destruct (jm_get i (withdrawals m)) as [w|]; [|done].
    destruct (bool_decide (i = id) && guard w); cbn; by rewrite ?Hf.
Qed.

Lemma mem_update_cas id guard f from to :
  (forall w, guard w = bool_decide (w_status w = from)) ->
  (forall w, withdrawal_view (f w) = (to, w_motebit_id w, w_amount w)) ->
  compare_and_set mem_obs (fun _ => True) (total (MemStore.update_withdrawal id guard f))
    (fun b => b) id from to 0.
Proof.
  intros Hg Hf m _. unfold total.
  pose proof (mem_update_view id guard f m) as Hv. pose proof (mem_update_balance id guard f m) as Hb.
  assert (Hr : (MemStore.update_withdrawal id guard f m).1 =
    match jm_get id (withdrawals m) with Some w => guard w | None => false end).
  { unfold MemStore.update_withdrawal. destruct (jm_get id (withdrawals m)) as [w|]; [|done].
    by destruct (guard w). }
  destruct (MemStore.update_withdrawal id guard f m) as [r m']. cbn [fst snd] in *. split; [done|].
  destruct r.
  - destruct (jm_get id (withdrawals m)) as [w|] eqn:E; [|done]. symmetry in Hr.
    exists (w_motebit_id w), (w_amount w). cbn. rewrite E, Hv, E, bool_decide_eq_true_2 by done.
    rewrite Hr. cbn. rewrite Hf. rewrite Hg in Hr. apply bool_decide_eq_true in Hr.
    split; [by rewrite <- Hr|]. split; [done|]. split.
    + intros j Hj. rewrite Hv. destruct (jm_get j (withdrawals m)); [|done].
      by rewrite bool_decide_eq_false_2.
    + intros i. rewrite Hb. case_decide; lia.
  - apply mem_indistinct; [done|]. intros i. rewrite Hv.
    destruct (jm_get i (withdrawals m)) as [w|] eqn:E; [|done]. cbn. do 2 f_equal.
    destruct (decide (i = id)) as [->|Hi].
    + rewrite E in Hr. by rewrite <- Hr, andb_false_r.
    + by rewrite bool_decide_eq_false_2.
Qed.

Lemma mem_fail_cas id reason from at_ :
  isOpenFrom from = true ->
  compare_and_set mem_obs (fun _ => True)
    (total (MemStore.failWithdrawalAndRefund id reason from at_ now))
    (fun r => bool_decide (is_Some r)) id from failed 1.
Proof.
  intros Ho m _. unfold total, MemStore.failWithdrawalAndRefund. rewrite Ho. cbn [andb].
  destruct (jm_get id (withdrawals m)) as [w|] eqn:E; [|by split].
  case_bool_decide as Hst; [|by split].
  destruct (mem_credit (w_motebit_id w) (w_amount w) withdrawal (Some id)
    (Some (failure_description reason)) now
    (set_withdrawals (jm_set id (with_failure reason at_ w) (withdrawals m)) m))
    as (_ & t & [Hb _ Hw _ _] & _).
  destruct (MemStore.credit _ _ _ _ _ _ _) as [b m']. cbn [fst snd] in *. split; [done|].
  rewrite bool_decide_eq_true_2 by eauto. exists (w_motebit_id w), (w_amount w).
  cbn. rewrite E, Hw. cbn. rewrite jm_get_set_eq. split; [by rewrite <- Hst|]. split; [done|]. split.
  - intros j Hj. by rewrite jm_get_set_ne.
  - intros i. rewrite Hb. change (balance_of i (set_withdrawals _ m)) with (balance_of i m).
    case_decide; lia.
Qed.

Lemma mem_record_law w desc m :
  match debitAndRecordWithdrawal (AccountStore := mem_account_store) w desc m with
  | (Ok (Recorded record b), m') => exists a,
      nw_amount w = JInt a /\ record = fresh_withdrawal w a /\
      a <= balance_of (nw_motebit_id w) m /\ b = balance_of (nw_motebit_id w) m - a /\
      forall i, balance_of i m' = if decide (i = nw_motebit_id w) then b else balance_of i m
  | (_, m') => forall i, balance_of i m' = balance_of i m
  end.
Proof.
  cbn. unfold MemStore.debitAndRecordWithdrawal.
  destruct (assertPositiveMicro_cases (nw_amount w)) as [(a & -> & Ha & _)| ->]; [|done]. rewrite Ha.
  destruct (match nw_idempotency_key w with Some _ => _ | None => _ end); [done|].
  destruct (mem_debit (nw_motebit_id w) a withdrawal (Some (nw_withdrawal_id w)) (Some desc) now m)
    as [[_ (m' & -> & [Hb _ _ _ _])]|[Hle (m' & t & -> & [Hb _ _ _ _] & _)]].
  - intros i. rewrite Hb. case_decide; lia.
  - assert (forall i, balance_of i (MemStore.insertWithdrawal w a m').2 = balance_of i m') as Hi
      by (intros i; unfold MemStore.insertWithdrawal; by destruct (nw_idempotency_key w)).
    assert ((MemStore.insertWithdrawal w a m').1 = fresh_withdrawal w a) as Hrec by done.
    destruct (MemStore.insertWithdrawal w a m') as [record m2]. cbn [fst snd] in *.
    exists a. repeat (split; [done|]). intros i. rewrite Hi, Hb. case_decide; subst; lia.
Qed.

Definition mem_laws : @AccountStoreLaws MS mem_account_store.
Proof.
  refine (@Build_AccountStoreLaws MS mem_account_store mem_obs (fun _ => True)
    _ _ _ _ _ _ _ _ _ _ _ _).
  - intros id m _. cbn. unfold total. unfold MemStore.getOrCreateAccount, balance_of.
    destruct (jm_get id (accounts m)) as [row|] eqn:E; [done|].
    split; [done|]. split; [|done]. apply mem_indistinct; [|done].
    intros i. by apply balance_of_new_row.
  - intros id. by apply mem_query.
  - intros id. by apply mem_query.
  - intros id. by apply mem_query.
  - intros mb key. by apply mem_query.
  - intros w desc m _. apply mem_record_law.
  - intros id ref. pose proof (mem_update_observes id
      (fun w => (bool_decide (w_status w = pending) || bool_decide (w_status w = processing)) &&
                bool_decide (payout_reference w = None)) (with_reference ref) (fun b => b)) as H.
    intros m Hm. specialize (H (fun _ => eq_refl) m Hm). cbn. unfold total in *.
    unfold MemStore.linkWithdrawalTransfer. by destruct (MemStore.update_withdrawal _ _ _ m).
  - intros id at_ until. by apply mem_update_cas.
  - intros id ref at_ from Ho. apply mem_update_cas; [|done]. intros w. by rewrite Ho.
  - intros id sig pk. exact (mem_update_observes id (fun _ => true) (with_signature sig pk)
      (fun _ => tt) (fun _ => eq_refl)).
  - intros id reason from at_ Ho. by apply mem_fail_cas.
  - intros id note. pose proof (mem_update_observes id
      (fun w => bool_decide (w_status w = processing)) (with_note note) (fun b => b)) as H.
    intros m Hm. specialize (H (fun _ => eq_refl) m Hm). cbn. unfold total in *.
    unfold MemStore.noteWithdrawalPayoutUnresolved. by destruct (MemStore.update_withdrawal _ _ _ m).
Defined.
End mem_instance.

(** ** The SQLite store *)

(** [sqliteAccountStoreFor], at one reading of the clock and of the id supply. *)
Definition sqliteAccountStoreFor {W} `{!DatabaseDriver relay_db ledger_error W} (now : Z) (uuid : string) : AccountStore W := {|
  AccountStore.getOrCreateAccount id := SqlStore.getOrCreateAccount id now;
  AccountStore.getAccount id := SqlStore.getAccount id;
  AccountStore.getUnwithdrawableHold id := SqlStore.getUnwithdrawableHold id now;
  AccountStore.getUnspentGrantHold id := SqlStore.getUnspentGrantHold id;
  AccountStore.getPendingWithdrawalsTotal id := SqlStore.getPendingWithdrawalsTotal id;
  AccountStore.getPendingAllocationsTotal id := SqlStore.getPendingAllocationsTotal id;
  AccountStore.getSweepConfig id := SqlStore.getSweepConfig id;
  AccountStore.getWithdrawalByIdempotencyKey mb key := SqlStore.getWithdrawalByIdempotencyKey mb key;
  AccountStore.debitAndRecordWithdrawal w desc := SqlStore.debitAndRecordWithdrawal w desc uuid now;
  AccountStore.linkWithdrawalTransfer id ref := SqlStore.linkWithdrawalTransfer id ref;
  AccountStore.claimWithdrawalForPayout id at_ until := SqlStore.claimWithdrawalForPayout id at_ until;
  AccountStore.setWithdrawalCompletion id ref at_ from := SqlStore.setWithdrawalCompletion id ref at_ from;
  AccountStore.setWithdrawalSignature id sig pk := SqlStore.setWithdrawalSignature id sig pk;
  AccountStore.failWithdrawalAndRefund id reason from at_ :=
    SqlStore.failWithdrawalAndRefund id reason from (default now at_) uuid now;
  AccountStore.noteWithdrawalPayoutUnresolved id note := SqlStore.noteWithdrawalPayoutUnresolved id note;
|}.

Section sql_instance.
Context (now : Z) (uuid : string).
Abbreviation SS := (session relay_db).
Abbreviation run m := (m : call relay_db ledger_error _).
Implicit Types (d : relay_db) (s : SS).

Definition sql_account_store : AccountStore SS := Eval unfold sqliteAccountStoreFor in sqliteAccountStoreFor now uuid.
#[local] Existing Instance sql_account_store.

(** The grant hold: the free credit granted less the inference spend. *)
Definition grant_hold (id : string) d : Z :=
  let granted := select_sum (fun t => bool_decide (tx_motebit_id t = id) &&
    bool_decide (tx_type t = deposit) && like_free_credit (reference_id t))
    tx_amount (txn <$> relay_transactions d) in
  let fees := select_sum (fun t => bool_decide (tx_motebit_id t = id) && bool_decide (tx_type t = fee))
    tx_amount (txn <$> relay_transactions d) in
  if decide (granted <= 0) then 0 else Z.max 0 (granted + fees).

Definition withdrawal_of (id : string) d : option WithdrawalRequest :=
  wd <$> List.find (fun r => bool_decide (withdrawal_id (wd r) = id)) (relay_withdrawals d).

Definition sql_obs : observation SS := {|
  ob_balance id s := sql_balance id (db s);
  ob_escrow id s := escrow_hold id now (db s);
  ob_grant id s := grant_hold id (db s);
  ob_withdrawal id s := withdrawal_view <$> withdrawal_of id (db s);
|}.

(** The primary keys of the accounts and the withdrawals. *)
Definition sql_wf d : Prop :=
  NoDup (va_motebit_id <$> relay_accounts d) /\
  NoDup ((fun r => withdrawal_id (wd r)) <$> relay_withdrawals d).

Definition sql_ok s : Prop := session_ok s /\ sql_wf (db s).

(** What the observations read: the accounts' balances and the other tables. *)
Definition same_views d d' : Prop :=
  (forall i, sql_balance i d' = sql_balance i d) /\
  relay_transactions d' = relay_transactions d /\
  relay_settlements d' = relay_settlements d /\ relay_disputes d' = relay_disputes d /\
  (forall i, withdrawal_view <$> withdrawal_of i d' = withdrawal_view <$> withdrawal_of i d).

Lemma same_views_refl d : same_views d d.
Proof. by repeat split. Qed.

Lemma same_views_indistinct s s' : same_views (db s) (db s') -> indistinct sql_obs s s'.
Proof.
  intros (Hb & Ht & Hst & Hd & Hw). split; intros i; cbn; [done| | |done].
  - unfold escrow_hold. by rewrite Hst, Hd.
  - unfold grant_hold. by rewrite Ht.
Qed.

Lemma moved_views id d d' : moved id 0 [] d d' -> same_views d d'.
Proof.
  intros [Hb _ [rows ->]]. split; [intros i; rewrite Hb; case_decide; lia|].
  split; [|done]. cbn. by rewrite app_nil_r.
Qed.

(** A call is lawful when its denotation is: a throw leaves the tables alone. *)
Lemma lift_observes {A} (m : call SS ledger_error A) (f : call relay_db ledger_error A)
    (P : A -> SS -> Prop) :
  denotes m f -> atomic m ->
  (forall d a d', sql_wf d -> f d = (Ok a, d') -> sql_wf d' /\ same_views d d') ->
  (forall s a d', sql_ok s -> f (db s) = (Ok a, d') -> P a s) ->
  observes sql_obs sql_ok m P.
Proof.
  intros Hden Hat Hf HP s [Hs Hwf]. specialize (Hat s Hs).
  pose proof (bracketed_session_ok m s (dn_bracketed _ _ Hden) Hs) as Hs'.
  pose proof (dn_ok _ _ Hden s) as Hok. destruct (m s) as [[a|e] s']; cbn in Hs'.
  - specialize (Hok a s' Hs eq_refl). destruct (Hf _ _ _ Hwf Hok) as [Hwf' Hv].
    split; [done|]. split; [by apply same_views_indistinct|]. by apply (HP s a (db s')).
  - split; [split; [done|by rewrite Hat]|]. split; [|done].
    apply same_views_indistinct. rewrite Hat. apply same_views_refl.
Qed.

Lemma lift_cas {A} (m : call SS ledger_error A) (f : call relay_db ledger_error A)
    (won : A -> bool) id from to paid :
  denotes m f -> atomic m ->
  (forall d a d', sql_wf d -> f d = (Ok a, d') -> sql_wf d' /\
     if won a then exists w, withdrawal_of id d = Some w /\ w_status w = from /\
       (withdrawal_view <$> withdrawal_of id d' = Some (to, w_motebit_id w, w_amount w)) /\
       (forall j, j <> id -> withdrawal_view <$> withdrawal_of j d' = withdrawal_view <$> withdrawal_of j d) /\
       (forall i, sql_balance i d'
          = sql_balance i d + if decide (i = w_motebit_id w) then paid * w_amount w else 0)
     else same_views d d') ->
  compare_and_set sql_obs sql_ok m won id from to paid.
Proof.
  intros Hden Hat Hf s [Hs Hwf]. specialize (Hat s Hs).
  pose proof (bracketed_session_ok m s (dn_bracketed _ _ Hden) Hs) as Hs'.
  pose proof (dn_ok _ _ Hden s) as Hok. destruct (m s) as [[a|e] s']; cbn in Hs'.
  - specialize (Hok a s' Hs eq_refl). destruct (Hf _ _ _ Hwf Hok) as [Hwf' Hv].
    split; [done|]. destruct (won a); [|by apply same_views_indistinct].
    destruct Hv as (w & H1 & <- & H2 & H3 & H4). exists (w_motebit_id w), (w_amount w). cbn.
    rewrite H1. by repeat split.
  - split; [split; [done|by rewrite Hat]|]. apply same_views_indistinct. rewrite Hat.
    apply same_views_refl.
Qed.

Lemma atomic_reads {A} (m : call SS ledger_error A) : reads m -> atomic m.
Proof. intros Hr s _. specialize (Hr s). by destruct (m s) as [[a|e] s']. Qed.

(** One update of a withdrawal, on the tables. *)
Lemma sql_update_pure id cond f d b d' :
  (forall w, withdrawal_id (f w) = withdrawal_id w) ->
  sql_wf d -> run (SqlStore.update_withdrawal id cond f) d = (Ok b, d') ->
  sql_wf d' /\ (forall i, sql_balance i d' = sql_balance i d) /\
  relay_transactions d' = relay_transactions d /\
  relay_settlements d' = relay_settlements d /\ relay_disputes d' = relay_disputes d /\
  match withdrawal_of id d with
  | Some w => b = cond w /\ forall i, withdrawal_of i d'
      = if decide (i = id) then Some (if cond w then f w else w) else withdrawal_of i d
  | None => b = false /\ forall i, withdrawal_of i d' = withdrawal_of i d
  end.
Proof.
  intros Hf [Ha Hw] H. unfold SqlStore.update_withdrawal in H. cbn in H. unfold stmt_fn in H.
  set (g := fun r => {| wd := f (wd r); idempotency_key := idempotency_key r |}) in H.
  set (hit := fun r => bool_decide (withdrawal_id (wd r) = id) && cond (wd r)) in H.
  injection H as Hb <-.
  pose proof (keyed_update (fun r => withdrawal_id (wd r)) wd id cond f g (relay_withdrawals d)
    (fun r => Hf (wd r)) (fun _ => eq_refl) Hw) as H. cbv beta zeta in H. fold hit in H.
  fold (withdrawal_of id d) in H.
  assert ((fun r => withdrawal_id (wd r)) <$> update_rows hit g (relay_withdrawals d)
          = (fun r => withdrawal_id (wd r)) <$> relay_withdrawals d) as Hids.
  { unfold update_rows. rewrite <- list_fmap_compose. apply list_fmap_ext. intros _ r _. cbn.
    destruct (hit r); [|done]. apply Hf. }
  split; [split; [done|by cbn; rewrite Hids]|]. split; [done|]. repeat (split; [done|]).
  assert (forall i rows, wd <$> List.find (fun r => bool_decide (withdrawal_id (wd r) = i)) rows
    = jm_get i ((fun r => (withdrawal_id (wd r), wd r)) <$> rows)) as Hkey
    by (intros; by rewrite (jm_get_keyed (fun r => withdrawal_id (wd r)) wd)).
  destruct (withdrawal_of id d) as [w|] eqn:E.
  - destruct (cond w) eqn:C; destruct H as [Hc H].
    + split; [by rewrite <- Hb, Hc|]. intros i. unfold withdrawal_of. cbn. rewrite !Hkey, H, jm_get_set.
      case_decide; [done|]. by rewrite <- Hkey.
    + split; [by rewrite <- Hb, Hc|]. intros i. unfold withdrawal_of. cbn. rewrite H.
      fold (withdrawal_of i d).
      destruct (decide (i = id)) as [->|]; [by rewrite E|done].
  - destruct H as [Hc H]. split; [by rewrite <- Hb, Hc|]. intros i. unfold withdrawal_of. cbn.
    by rewrite H.
Qed.
Lemma withdrawal_of_id id d w : withdrawal_of id d = Some w -> withdrawal_id w = id.
Proof.
  unfold withdrawal_of. destruct (List.find _ _) as [r|] eqn:E; [|done]. intros [= <-].
  apply List.find_some in E as [_ E]. by apply bool_decide_eq_true in E.
Qed.

(** The update as a compare-and-set, and as one no client can see. *)
Lemma sql_cas_pure id cond f from to d b d' :
  (forall w, withdrawal_id (f w) = withdrawal_id w) ->
  (forall w, cond w = bool_decide (w_status w = from)) ->
  (forall w, withdrawal_view (f w) = (to, w_motebit_id w, w_amount w)) ->
  sql_wf d -> run (SqlStore.update_withdrawal id cond f) d = (Ok b, d') ->
  sql_wf d' /\ relay_transactions d' = relay_transactions d /\
  (forall i, sql_balance i d' = sql_balance i d) /\
  if b then exists w, withdrawal_of id d = Some w /\ withdrawal_of id d' = Some (f w) /\
      w_status w = from /\
      (withdrawal_view <$> withdrawal_of id d' = Some (to, w_motebit_id w, w_amount w)) /\
      (forall j, j <> id -> withdrawal_view <$> withdrawal_of j d' = withdrawal_view <$> withdrawal_of j d)
  else same_views d d'.
Proof.
  intros Hid Hc Hv Hwf H. destruct (sql_update_pure id cond f d b d' Hid Hwf H)
    as (Hwf' & Hb & Ht & Hs & Hd & Hw). split; [done|]. split; [done|]. split; [done|].
  destruct (withdrawal_of id d) as [w|] eqn:E; destruct Hw as [-> Hw].
  - destruct (cond w) eqn:C.
    + exists w. rewrite Hw, decide_True by done. split; [done|]. split; [done|].
      rewrite Hc in C. apply bool_decide_eq_true in C. split; [done|]. split; [cbn; by rewrite Hv|].
      intros j Hj. by rewrite Hw, decide_False.
    + split; [done|]. repeat (split; [done|]). intros i. rewrite Hw.
      destruct (decide (i = id)) as [->|]; [by rewrite E|done].
  - split; [done|]. repeat (split; [done|]). intros i. by rewrite Hw.
Qed.

Lemma sql_silent_pure id cond f d b d' :
  (forall w, withdrawal_id (f w) = withdrawal_id w) ->
  (forall w, withdrawal_view (f w) = withdrawal_view w) ->
  sql_wf d -> run (SqlStore.update_withdrawal id cond f) d = (Ok b, d') ->
  sql_wf d' /\ same_views d d'.
Proof.
  intros Hid Hv Hwf H. destruct (sql_update_pure id cond f d b d' Hid Hwf H)
    as (Hwf' & Hb & Ht & Hs & Hd & Hw). split; [done|]. split; [done|]. repeat (split; [done|]).
  intros i. destruct (withdrawal_of id d) as [w|] eqn:E; destruct Hw as [_ Hw]; rewrite Hw; [|done].
  destruct (decide (i = id)) as [->|]; [|done]. rewrite E. cbn. destruct (cond w); by rewrite ?Hv.
Qed.

(** A movement that returned had a fresh row id. *)
Lemma insert_stale row d :
  ~ fresh_uuid (transaction_id (txn row)) d -> exists e, run (insert_transaction row) d = (Throw e, d).
Proof.
  intros Hn. unfold insert_transaction. cbn. unfold stmt_fn, insert_row.
  destruct (existsb (same_txn row) (relay_transactions d)) eqn:E; [by eexists|].
  exfalso. apply Hn. apply Forall_forall. intros r Hr Heq.
  assert (existsb (same_txn row) (relay_transactions d) = true) as Ht; [|congruence].
  apply existsb_exists. exists r. split; [by apply list_elem_of_In|].
  by apply bool_decide_eq_true_2.
Qed.

Lemma record_stale id a u ty ref desc stamp t d d1 {B} (k : Z -> call relay_db ledger_error B) :
  moved id a [] d d1 -> ~ fresh_uuid u d ->
  exists e, run (let! b := select_balance id in
         (insert_transaction (txn_values u id ty a b ref desc t stamp) ;!
          k b)%motebit)%motebit d1 = (Throw e, d1).
Proof.
  intros Hm Hn. rewrite (call_bind_run _ _ _ _ _ (select_balance_pure id d1)).
  destruct (insert_stale (txn_values u id ty a (sql_balance id d1) ref desc t stamp) d1) as [e He].
  - unfold fresh_uuid. rewrite (moved_tables _ _ _ _ Hm). exact Hn.
  - exists e. unfold call_bind. by rewrite He.
Qed.

Lemma credit_returns id a ty ref desc stamp u t d b d' :
  NoDup (va_motebit_id <$> relay_accounts d) ->
  run (credit id (JInt a) ty ref desc stamp u t) d = (Ok b, d') ->
  b = sql_balance id d + a /\
  moved id a [txn_values u id ty a (sql_balance id d + a) ref desc t stamp] d d'.
Proof.
  intros Hnd H. destruct (decide (fresh_uuid u d)) as [Hf|Hn].
  - destruct (credit_pure id a ty ref desc stamp u t d Hnd Hf) as (d2 & H2 & Hm).
    rewrite H in H2. by injection H2 as -> ->.
  - exfalso. unfold credit in H. cbn [assertMicroUnits check] in H. rewrite pure_transaction in H.
    unfold all_or_nothing in H.
    destruct (getOrCreate_pure id t d Hnd) as (row & d1 & H1 & Hm1 & Hrow & _).
    destruct (update_balance_pure id a None t row d1) as [[_ (d2 & H2 & Hm2)]|[[] _]];
      [apply Hm1|done|].
    pose proof (moved_trans _ _ _ _ _ _ _ _ Hm1 Hm2) as Hm. rewrite Z.add_0_l in Hm.
    rewrite (call_bind_run _ _ _ _ _ H1), (call_bind_run _ _ _ _ _ H2) in H.
    destruct (record_stale id a u ty ref desc stamp t d d2 (fun b => call_ret b) Hm Hn) as [e He].
    by rewrite He in H.
Qed.

Lemma debit_returns id a ty ref desc stamp u t d b d' :
  NoDup (va_motebit_id <$> relay_accounts d) ->
  run (debit id (JInt a) ty ref desc stamp u t) d = (Ok b, d') ->
  match b with
  | None => moved id 0 [] d d'
  | Some b => a <= sql_balance id d /\ b = sql_balance id d - a /\
      moved id (- a) [txn_values u id ty (- a) (sql_balance id d - a) ref desc t stamp] d d'
  end.
Proof.
  intros Hnd H. destruct (decide (fresh_uuid u d)) as [Hf|Hn].
  - destruct (debit_pure id a ty ref desc stamp u t d Hnd Hf)
      as [[_ (d2 & H2 & Hm)]|[Hle (d2 & H2 & Hm)]]; rewrite H in H2; by injection H2 as -> ->.
  - unfold debit in H. cbn [assertMicroUnits check] in H. rewrite pure_transaction in H.
    unfold all_or_nothing in H.
    destruct (getOrCreate_pure id t d Hnd) as (row & d1 & H1 & Hm1 & Hrow & _).
    rewrite (call_bind_run _ _ _ _ _ H1) in H.
    destruct (update_balance_pure id (- a) (Some a) t row d1)
      as [[_ (d2 & H2 & Hm2)]|[_ H2]]; [apply Hm1|done| |];
      rewrite (call_bind_run _ _ _ _ _ H2) in H; cbn [decide] in H.
    + rewrite decide_False in H by done.
      pose proof (moved_trans _ _ _ _ _ _ _ _ Hm1 Hm2) as Hm. rewrite Z.add_0_l in Hm.
      destruct (record_stale id (- a) u ty ref desc stamp t d d2 (fun b => call_ret (Some b)) Hm Hn)
        as [e He].
      by rewrite He in H.
    + rewrite decide_True in H by done. by injection H as <- <-.
Qed.

Lemma moved_wf id a l d d' : sql_wf d -> moved id a l d d' -> sql_wf d'.
Proof. intros [_ Hw] [_ Ha [rows ->]]. by split. Qed.
Lemma grant_pure id d : run (SqlStore.getUnspentGrantHold id) d = (Ok (grant_hold id d), d).
Proof.
  unfold SqlStore.getUnspentGrantHold, hasTables, select, call_bind, grant_hold. cbn. unfold stmt_fn.
  cbn. case_decide; [done|]. cbn. unfold call_ret. do 3 f_equal. lia.
Qed.

(** A read-only method: its denotation returns a value and the same tables. *)
Lemma lift_query {A} (m : call SS ledger_error A) (q : relay_db -> A) (P : A -> SS -> Prop)
    (f : call relay_db ledger_error A) :
  denotes m f -> atomic m -> (forall d, f d = (Ok (q d), d)) -> (forall s, P (q (db s)) s) ->
  observes sql_obs sql_ok m P.
Proof.
  intros Hden Hat Hq HP. apply (lift_observes m f P Hden Hat).
  - intros d a d' Hwf H. rewrite Hq in H. injection H as _ <-. by split.
  - intros s a d' _ H. rewrite Hq in H. injection H as <- _. apply HP.
Qed.

Lemma sql_update_denotes id cond f :
  denotes (SqlStore.update_withdrawal id cond f : call SS ledger_error bool)
          (SqlStore.update_withdrawal id cond f).
Proof. apply denotes_statement. Qed.

Lemma sql_update_atomic id cond f :
  atomic (SqlStore.update_withdrawal id cond f : call SS ledger_error bool).
Proof. apply atomic_statement. Qed.

Lemma sql_fail_denotes id reason from at_ :
  denotes (SqlStore.failWithdrawalAndRefund id reason from at_ uuid now : call SS ledger_error _)
          (SqlStore.failWithdrawalAndRefund id reason from at_ uuid now).
Proof.
  unfold SqlStore.failWithdrawalAndRefund, SqlStore.update_withdrawal, SqlStore.getWithdrawalById,
    credit, SqlStore.getOrCreateAccount, select, check. denotes_auto.
Qed.

Lemma sql_record_law nw desc s :
  sql_ok s ->
  match SqlStore.debitAndRecordWithdrawal nw desc uuid now s with
  | (Ok (Recorded record b), s') => exists a,
      nw_amount nw = JInt a /\ record = fresh_withdrawal nw a /\
      a <= sql_balance (nw_motebit_id nw) (db s) /\
      b = sql_balance (nw_motebit_id nw) (db s) - a /\
      forall i, sql_balance i (db s')
        = if decide (i = nw_motebit_id nw) then b else sql_balance i (db s)
  | (_, s') => forall i, sql_balance i (db s') = sql_balance i (db s)
  end.
Proof.
  intros [Hs [Hnd _]].
  pose proof (dn_ok _ _ (sql_call_denotes (ORecord nw desc) uuid now) s) as Hok.
  pose proof (sql_call_atomic (ORecord nw desc) uuid now s Hs) as Hat.
  cbn [sql_call] in Hok, Hat. unfold answer, call_bind, call_ret in Hok, Hat.
  destruct (SqlStore.debitAndRecordWithdrawal nw desc uuid now s) as [[r|e] s'] eqn:E;
    [|intros i; by rewrite Hat].
  specialize (Hok _ _ Hs eq_refl).
  destruct (run (SqlStore.debitAndRecordWithdrawal nw desc uuid now) (db s)) as [[r'|e] d'] eqn:E';
    [|done]. injection Hok as -> ->. clear E Hat.
  unfold SqlStore.debitAndRecordWithdrawal in E'.
  destruct (assertPositiveMicro_cases (nw_amount nw)) as [(a & Ha & Hn & _)|Ha]; rewrite Ha in E';
    [|done].
  cbn [check] in E'. rewrite pure_transaction in E'. unfold all_or_nothing in E'.
  set (lookup := match nw_idempotency_key nw with Some _ => _ | None => _ end) in E'.
  assert (exists o, lookup (db s) = (Ok o, db s)) as [o Ho]
    by (unfold lookup; destruct (nw_idempotency_key nw); by eexists).
  rewrite (call_bind_run _ _ _ _ _ Ho) in E'. destruct o as [ex|].
  { injection E' as <- Hd. intros i. by rewrite <- Hd. }
  rewrite Hn in E'. unfold call_bind in E' at 1.
  destruct (run (debit _ _ _ _ _ _ _ _) (db s)) as [[b|e] d1] eqn:Ed; [|done].
  apply debit_returns in Ed; [|done]. destruct b as [b|].
  2:{ injection E' as <- Hd. intros i. destruct Ed as [Hb _ _]. rewrite <- Hd, Hb. case_decide; lia. }
  destruct Ed as (Hle & -> & [Hb _ [rows ->]]).
  unfold call_bind, SqlStore.insertWithdrawal, call_bind in E'. cbn in E'. unfold stmt_fn in E'.
  cbn in E'. destruct (insert_row same_withdrawal _ _) as [rows'|e]; [|done].
  cbn in E'. injection E' as <- <-. exists a. repeat (split; [done|]).
  intros i. change (sql_balance i (upd_withdrawals _ ?d)) with (sql_balance i d). rewrite Hb.
  case_decide; subst; lia.
Qed.
Lemma sql_fail_pure id reason from at_ d r d' :
  isOpenFrom from = true -> sql_wf d ->
  run (SqlStore.failWithdrawalAndRefund id reason from at_ uuid now) d = (Ok r, d') ->
  sql_wf d' /\
  if bool_decide (is_Some r) then exists w, withdrawal_of id d = Some w /\ w_status w = from /\
    (withdrawal_view <$> withdrawal_of id d' = Some (failed, w_motebit_id w, w_amount w)) /\
    (forall j, j <> id -> withdrawal_view <$> withdrawal_of j d' = withdrawal_view <$> withdrawal_of j d) /\
    (forall i, sql_balance i d'
       = sql_balance i d + if decide (i = w_motebit_id w) then 1 * w_amount w else 0)
  else same_views d d'.
Proof.
  intros Ho Hwf H. unfold SqlStore.failWithdrawalAndRefund in H.
  replace (openStatus from) with (Ok (E := ledger_error) from) in H by (by destruct from).
  cbn [check] in H. rewrite pure_transaction in H. unfold all_or_nothing in H.
  unfold call_bind in H at 1.
  destruct (run (SqlStore.update_withdrawal _ _ _) d) as [[b|e] d1] eqn:Eu; [|done].
  apply (sql_cas_pure id _ _ from failed) in Eu as (Hwf1 & Ht & Hb1 & Hu); try done.
  destruct b; cbn [negb] in H.
  2:{ injection H as <- <-. by rewrite bool_decide_eq_false_2 by (by intros []). }
  destruct Hu as (w & Hw & Hw' & Hst & Hv & Hother).
  assert (run (SqlStore.getWithdrawalById id) d1 = (Ok (withdrawal_of id d1), d1)) as Hg by done.
  rewrite (call_bind_run _ _ _ _ _ Hg), Hw' in H. unfold call_bind in H.
  destruct (run (credit _ _ _ _ _ _ _ _) d1) as [[b|e] d2] eqn:Ec; [|done].
  cbn in H. injection H as <- <-. apply credit_returns in Ec as (_ & Hm); [|apply Hwf1].
  cbn [with_failure w_motebit_id w_amount] in Hm.
  split; [by eapply moved_wf|]. rewrite bool_decide_eq_true_2 by eauto.
  destruct Hm as [Hb2 _ [rows ->]]. exists w. repeat (split; [done|]).
  intros i. rewrite Hb2, Hb1. case_decide; lia.
Qed.

Definition sql_laws : @AccountStoreLaws SS sql_account_store.
Proof.
  refine (@Build_AccountStoreLaws SS sql_account_store sql_obs sql_ok
    _ _ _ _ _ _ _ _ _ _ _ _).
  - intros id. eapply (lift_observes _ (SqlStore.getOrCreateAccount id now)).
    + unfold AccountStore.getOrCreateAccount, SqlStore.getOrCreateAccount, select. denotes_auto.
    + apply atomic_getOrCreate.
    + intros d a d' Hwf H. destruct (getOrCreate_pure id now d (proj1 Hwf)) as (row & d2 & H2 & Hm & _).
      rewrite H in H2. injection H2 as -> ->. split; [by eapply moved_wf|by eapply moved_views].
    + intros s a d' [_ Hwf] H. cbn.
      destruct (getOrCreate_pure id now (db s) (proj1 Hwf)) as (row & d2 & H2 & _ & _ & Hb).
      rewrite H in H2. by injection H2 as -> ->.
  - intros id. apply (lift_query _ (find_account id) _ (SqlStore.getAccount id));
      [apply denotes_statement|apply atomic_statement|done|done].
  - intros id. apply (lift_query _ (escrow_hold id now) _ (SqlStore.getUnwithdrawableHold id now)).
    + unfold AccountStore.getUnwithdrawableHold, SqlStore.getUnwithdrawableHold, hasTables, select.
      denotes_auto.
    + apply atomic_read_bind; [apply bracketed_statement|apply reads_statement|].
      intros []; [apply atomic_statement|apply atomic_ret].
    + apply hold_pure.
    + done.
  - intros id. apply (lift_query _ (grant_hold id) _ (SqlStore.getUnspentGrantHold id)).
    + unfold AccountStore.getUnspentGrantHold, SqlStore.getUnspentGrantHold, hasTables, select.
      denotes_auto.
    + apply atomic_read_bind; [apply bracketed_statement|apply reads_statement|]. intros [];
        [|apply atomic_ret].
      apply atomic_read_bind; [apply bracketed_statement|apply reads_statement|]. intros g. cbn.
      destruct (decide (g <= 0)); [apply atomic_ret|].
      apply atomic_read_bind; [apply bracketed_statement|apply reads_statement|]. intros sp.
      apply atomic_ret.
    + apply grant_pure.
    + done.
  - intros mb key. apply (lift_query _ (fun d => wd <$> find_keyed mb key (relay_withdrawals d)) _
      (SqlStore.getWithdrawalByIdempotencyKey mb key));
      [apply denotes_statement|apply atomic_statement|done|done].
  - intros nw desc s Hs. by apply sql_record_law.
  - intros id ref. eapply lift_observes; [apply sql_update_denotes|apply sql_update_atomic| |done].
    intros d b d' Hwf H. by apply (sql_silent_pure id _ _ d b d') in H.
  - intros id at_ until. eapply lift_cas; [apply sql_update_denotes|apply sql_update_atomic|].
    intros d b d' Hwf H. apply (sql_cas_pure id _ _ pending processing) in H as (Hwf' & _ & Hb & H); try done.
    split; [done|]. destruct b; [|done]. destruct H as (w & Hw & _ & Hst & Hv & Ho). exists w.
    repeat (split; [done|]). intros i. rewrite Hb. case_decide; lia.
  - intros id ref at_ from Ho. cbn. unfold SqlStore.setWithdrawalCompletion.
    replace (openStatus from) with (Ok (E := ledger_error) from) by (by destruct from). cbn [check].
    eapply lift_cas; [apply sql_update_denotes|apply sql_update_atomic|].
    intros d b d' Hwf H. apply (sql_cas_pure id _ _ from completed) in H as (Hwf' & _ & Hb & H); try done.
    split; [done|]. destruct b; [|done]. destruct H as (w & Hw & _ & Hst & Hv & Hother). exists w.
    repeat (split; [done|]). intros i. rewrite Hb. case_decide; lia.
  - intros id sig pk. apply (lift_observes _ (SqlStore.setWithdrawalSignature id sig pk)).
    + unfold AccountStore.setWithdrawalSignature, SqlStore.setWithdrawalSignature,
        SqlStore.update_withdrawal. denotes_auto.
    + apply (atomic_map _ (fun _ => tt)), sql_update_atomic.
    + intros d u d' Hwf (b & d1 & H & [= <- <-])%call_bind_ok.
      by apply (sql_silent_pure id _ _ d b d1) in H.
    + done.
  - intros id reason from at_ Ho.
    apply (lift_cas _ (SqlStore.failWithdrawalAndRefund id reason from (default now at_) uuid now)).
    + apply sql_fail_denotes.
    + apply atomic_checked. intros st _. apply atomic_transaction.
      unfold SqlStore.update_withdrawal, SqlStore.getWithdrawalById, credit, SqlStore.getOrCreateAccount,
        select, check. bracketed_auto.
    + intros d a d' Hwf H. by apply (sql_fail_pure id reason from (default now at_)).
  - intros id note. eapply lift_observes; [apply sql_update_denotes|apply sql_update_atomic| |done].
    intros d b d' Hwf H. by apply (sql_silent_pure id _ _ d b d') in H.
Defined.
End sql_instance.

(** ** The withdrawal functions over a lawful store *)

Section lawful.
Context {W : Type} `{!AccountStore W} `{!AccountStoreLaws W}.
Implicit Types (w : W).

Definition withdrawable (id : string) w : Z :=
  Z.max 0 (ob_balance obs id w - ob_escrow obs id w - ob_grant obs id w).

Lemma computeWithdrawable_observes id :
  observes obs store_ok (computeWithdrawableAvailable id)
    (fun wa w => wa_balance wa = ob_balance obs id w /\ disputeHold wa = ob_escrow obs id w /\
       grantHold wa = ob_grant obs id w /\ available wa = withdrawable id w).
Proof.
  unfold computeWithdrawableAvailable. eapply observes_bind; [apply law_getOrCreate|].
  intros a w0 Ha. eapply observes_bind; [apply law_escrow|]. intros h w1 Hh.
  eapply observes_bind; [apply law_grant|]. intros g w2 Hg w Hw. split; [done|].
  split; [done|]. intros [_ _ E3 _] [_ E2 E2g _] [E1 E1e E1g _].
  cbn. unfold withdrawable.
  rewrite Ha, Hh, Hg, ?E3, ?E2, ?E2g, ?E1, ?E1e, ?E1g. done.
Qed.

Lemma computeSpendable_observes id :
  observes obs store_ok (computeSpendableAvailable id)
    (fun a w => a = Z.max 0 (ob_balance obs id w - ob_escrow obs id w)).
Proof.
  unfold computeSpendableAvailable. eapply observes_bind; [apply law_getAccount|].
  intros a w0 Ha. eapply observes_bind; [apply law_escrow|]. intros h w1 Hh w Hw.
  split; [done|]. split; [done|]. intros [_ _ _ _] [_ E2 _ _]. by rewrite Ha, Hh, E2.
Qed.
End lawful.

(** * Properties *)

(** A withdrawal takes out exactly what was asked, only from what both holds
    leave.  On any lawful store, when [requestWithdrawal] returns a new record
    its amount is positive and at most the balance less the escrow and grant
    holds, its owner's balance falls by exactly that amount and nobody else's
    changes; a refusal, a replay and a throw change no balance. *)
Theorem request_stays_within_holds {W} `{!AccountStore W} `{!AccountStoreLaws W}
    (toFixed6 : Z -> string) (args : RequestWithdrawalArgs) (w : W) :
  store_ok w ->
  let id := rw_motebitId args in
  match requestWithdrawal toFixed6 args w with
  | (Ok (Requested record), w') => exists a,
      amountMicro args = JInt a /\ 0 < a <= MAX_SAFE_INTEGER /\ a <= withdrawable id w /\
      w_amount record = a /\ w_motebit_id record = id /\ w_status record = pending /\
      forall i, ob_balance obs i w' = ob_balance obs i w - if decide (i = id) then a else 0
  | (_, w') => forall i, ob_balance obs i w' = ob_balance obs i w
  end.
Proof.
  intros Hw id. unfold requestWithdrawal.
  destruct (assertPositiveMicro_cases (amountMicro args)) as [(a & -> & Ha & Hpos)| ->]; [|done].
  assert (forall o : option string, observes obs store_ok
    (match o with Some key => getWithdrawalByIdempotencyKey (rw_motebitId args) key
                | None => call_ret None end) (fun _ _ => True)) as Hprior
    by (intros []; [apply law_keyed|by apply observes_ret]).
  specialize (Hprior (truthy (idempotencyKey args)) w Hw). unfold call_bind at 1.
  match type of Hprior with context [let '(_, _) := ?m in _] => destruct m as [[[p|]|e] w1] end;
    destruct Hprior as (Hw1 & [Hb1 He1 Hg1 _] & _); [exact Hb1| |exact Hb1].
  pose proof (computeWithdrawable_observes (rw_motebitId args) w1 Hw1) as Hc. unfold call_bind at 1.
  destruct (computeWithdrawableAvailable (rw_motebitId args) w1) as [[wa|e] w2];
    destruct Hc as (Hw2 & [Hb2 He2 Hg2 _] & Hwa); [|intros i; by rewrite Hb2, Hb1].
  assert (available wa = withdrawable id w) as Hav.
  { rewrite (proj2 (proj2 (proj2 Hwa))). unfold withdrawable. by rewrite Hb1, He1, Hg1. }
  case_decide as D; [intros i; by rewrite Hb2, Hb1|]. unfold call_bind.
  match goal with |- context [debitAndRecordWithdrawal ?nw ?desc w2] =>
    pose proof (law_record nw desc w2 Hw2) as Hrec; set (nw' := nw) in *;
    destruct (debitAndRecordWithdrawal nw' desc w2) as [[[record b|ex|]|e] w3] end;
    cbn; [|intros i; by rewrite Hrec, Hb2, Hb1..].
  destruct Hrec as (a' & Ha' & -> & _ & -> & Hb3). cbn in Ha'. rewrite Ha in Ha'. injection Ha' as <-.
  exists a. cbn. repeat (split; [done || lia|]). intros i. rewrite Hb3. cbn.
  rewrite !Hb2, !Hb1. fold id. case_decide; subst; lia.
Qed.

(** Alice's 500 in the SQLite store, of which 150 is in escrow. *)
Definition demo_request (a : Z) : RequestWithdrawalArgs := {|
  rw_motebitId := "alice"; amountMicro := JInt a; rw_destination := None;
  idempotencyKey := Some "k1"%string; newId := "w7"; rw_now := 9 |}.

Definition demo_holding : session relay_db :=
  set_db (upd_settlements (fun _ => Some [{| st_settlement_id := "s9"; st_allocation_id := "a9";
            platform_fee := 8; record_motebit_id := None; st_motebit_id := "alice"; st_task_id := "t9";
            amount_settled := 150; st_status := "completed"; settlement_mode := None; settled_at := 1000 |}])
         (upd_disputes (fun _ => Some []) (upd_withdrawals (fun _ => []) (upd_pending (fun _ => [])
         (upd_allocations (fun _ => []) (db demo_funded)))))) demo_funded.

Lemma demo_holding_ok : sql_ok demo_holding.
Proof. split; [done|]. split; [apply NoDup_singleton|apply NoDup_nil_2]. Defined.

Lemma request_stays_within_holds_witness :
  let run := requestWithdrawal (AccountStore0 := sql_account_store 2000 "t7")
               (fun _ => "0.00035"%string) in
  (run (demo_request 351) demo_holding).1 = Ok Refused /\
  exists record s', run (demo_request 350) demo_holding = (Ok (Requested record), s') /\
    sql_balance "alice" (db s') = 150 /\ w_amount record = 350.
Proof.
  intros run. split; [vm_compute; reflexivity|].
  destruct (run (demo_request 350) demo_holding) as [r s'] eqn:E.
  pose proof (@request_stays_within_holds _ (sql_account_store 2000 "t7") (sql_laws 2000 "t7")
    (fun _ => "0.00035"%string) (demo_request 350) demo_holding demo_holding_ok) as H.
  cbn zeta in H. fold run in H. rewrite E in H.
  assert (exists record, r = Ok (Requested record)) as [record ->]
    by (vm_compute in E; injection E as <- _; by eexists).
  destruct H as (a & [= <-] & _ & _ & Ha & _ & _ & Hb).
  exists record, s'. split; [reflexivity|]. split; [|exact Ha].
  specialize (Hb "alice"%string). vm_compute in Hb. vm_compute. exact Hb.
Defined.

(** C25: a withdrawal is settled at most once, and every refund is paid once.
    Whatever interleaving of claims, completions, failures, notes and links
    handlers and operators make on a lawful store, with whatever failures in
    between, at most one call answers that it settled a given withdrawal, none
    does when it was closed to begin with, and every balance ends where it
    started plus the amounts of the withdrawals whose failure was answered. *)
Theorem settled_at_most_once {W} `{!AccountStore W} `{!AccountStoreLaws W}
    (l : list payout_action) (w : W) (id : string) :
  Forall (fun a => well_typed a = true) l -> store_ok w ->
  let '(answers, w') := run_actions l w in
  (settle_count id answers <= 1)%nat /\
  (closed_for id w -> settle_count id answers = 0%nat) /\
  forall i, ob_balance obs i w' = ob_balance obs i w + zsum (refund_to i w) answers.
Proof.
  intros Hl Hw. pose proof (settle_count_closed l id w Hl Hw) as [H0 H1].
  pose proof (run_money l w Hl Hw) as H2. by destruct (run_actions l w) as [answers w'].
Qed.

(** A claimed withdrawal of 350 that an operator and a handler race to settle;
    the first attempt dies in the driver. *)
Definition demo_actions : list payout_action :=
  [Claim "w7" 10 None; Fail_ "w7" "rail down" processing (Some 11);
   Fail_ "w7" "rail down" processing (Some 12);
   Complete {| cw_withdrawalId := "w7"; cw_payoutReference := "tx"; cw_from := processing;
               relaySignature := None; relayPublicKey := None; completedAt := 13 |}].

Definition demo_requested : session relay_db :=
  set_faults (repeat false 4 ++ [true])
    (requestWithdrawal (AccountStore0 := sql_account_store 2000 "t7")
       (fun _ => "0.00035"%string) (demo_request 350) demo_holding).2.

Lemma settled_at_most_once_witness :
  let '(answers, s') := run_actions (AccountStore0 := sql_account_store 2000 "t8") demo_actions
                          demo_requested in
  snd <$> answers = [Ok true; Throw Error_driver; Ok true; Ok false] /\
  settle_count "w7" answers = 1%nat /\ sql_balance "alice" (db s') = 500 /\
  (settle_count "w7" answers <= 1)%nat.
Proof.
  assert (sql_ok demo_requested) as Hok.
  { split; [done|]. split; [apply NoDup_singleton|apply NoDup_singleton]. }
  assert (Forall (fun a => well_typed a = true) demo_actions) as Hl by (repeat constructor).
  pose proof (@settled_at_most_once _ (sql_account_store 2000 "t8") (sql_laws 2000 "t8")
    demo_actions demo_requested "w7" Hl Hok) as H.
  destruct (run_actions (AccountStore0 := sql_account_store 2000 "t8") demo_actions demo_requested)
    as [answers s'] eqn:E.
  split; [vm_compute in E; by injection E as <- _|].
  split; [vm_compute in E; by injection E as <- _|].
  split; [vm_compute in E; by injection E as _ <-|].
  apply H.
Defined.

(** The spendable check and the debit cannot disagree.  On the SQLite store,
    when no statement fails, [computeSpendableAvailable] answers some amount
    without writing, and [debitSpendable] of a positive amount goes through
    exactly when it is at most that. *)
Theorem spendable_check_agrees_with_debit id z ty ref desc uuid now (s : session relay_db) :
  session_ok s -> faults s = [] -> sql_wf (db s) -> fresh_uuid uuid (db s) -> 0 < z ->
  exists avail,
    computeSpendableAvailable (AccountStore0 := sql_account_store now uuid) id s = (Ok avail, s) /\
    ((exists b, (sql_run (debitSpendable id (JInt z) ty ref desc None uuid now) s).1 = Ok (Some b))
     <-> z <= avail).
Proof.
  intros Hs Hf [Hnd _] Hfresh Hz.
  exists (Z.max 0 (sql_balance id (db s) - escrow_hold id now (db s))). split.
  - assert (denotes (computeSpendableAvailable (AccountStore0 := sql_account_store now uuid) id)
      (let! account := SqlStore.getAccount id in
       let! h := SqlStore.getUnwithdrawableHold id now in
       call_ret (Z.max 0 (match account with Some r => va_balance r | None => 0 end - h)))%motebit) as Hd.
    { apply denotes_bind; [apply denotes_statement|]. intros a. apply denotes_bind.
      - cbn. unfold SqlStore.getUnwithdrawableHold, hasTables, select. denotes_auto.
      - intros h. apply denotes_ret. }
    rewrite (dn_clean _ _ Hd s Hs Hf).
    assert (SqlStore.getAccount id (db s) = (Ok (find_account id (db s)), db s)) as H1 by done.
    rewrite (call_bind_run _ _ _ _ _ H1), (call_bind_run _ _ _ _ _ (hold_pure id now (db s))).
    unfold call_ret. by rewrite set_db_same.
  - rewrite (dn_clean _ _ (debitSpendable_denotes id (JInt z) ty ref desc None uuid now) s Hs Hf).
    destruct (debitSpendable_pure id z ty ref desc None uuid now (db s) Hnd Hfresh)
      as [[Hlt (d' & -> & _)]|[Hle (d' & -> & _)]]; cbn; split.
    + by intros [b [=]].
    + lia.
    + lia.
    + by eexists.
Qed.

Lemma spendable_check_agrees_with_debit_witness :
  let s := set_faults [] demo_holding in
  computeSpendableAvailable (AccountStore0 := sql_account_store 2000 "t7") "alice" s = (Ok 350, s) /\
  exists b, (sql_run (debitSpendable "alice" (JInt 350) fee None None None "t7" 2000) s).1 = Ok (Some b).
Proof.
  intros s. split; [vm_compute; reflexivity|].
  assert (fresh_uuid "t7" (db s)) as Hf by (repeat constructor; discriminate).
  destruct (spendable_check_agrees_with_debit "alice" 350 fee None None "t7" 2000 s
    (fun _ => eq_refl) eq_refl (proj2 demo_holding_ok) Hf ltac:(lia)) as (avail & H1 & H2).
  apply H2. vm_compute in H1. injection H1 as <-. lia.
Defined.
