(* ===== verification/Semiring.v ===== *)
(** * Semirings ([packages/protocol/src/semiring.ts])

    The [Semiring] interface, the concrete semirings and the combinators.  The
    concrete ones are JavaScript-number computations; [JsNumber] is what they use
    of a number type, so that they are stated once, for exact integers with
    infinities and for rounded fractions alike.  [path_laws] collects what the
    traversals need of a semiring on a carrier: no associativity or identity of
    [mul], hence nothing a rounded product fails. *)

From S2P Require Import Prelude JsMap.
Local Open Scope Z_scope.

(** [a === b] of the value type. *)
Class StrictEq (T : Type) := strict_eq : T -> T -> bool.

Record Semiring (T : Type) := {
  zero : T;
  one : T;
  add : T -> T -> T;
  mul : T -> T -> T;
  eq_opt : option (T -> T -> bool);
}.
Arguments zero {T}.
Arguments one {T}.
Arguments add {T}.
Arguments mul {T}.
Arguments eq_opt {T}.

(** [srEq ? srEq(a, b) : a === b] *)
Definition sr_eq {T} `{StrictEq T} (sr : Semiring T) (a b : T) : bool :=
  match eq_opt sr with Some f => f a b | None => strict_eq a b end.

(** ** Concrete semirings *)

Class JsNumber (N : Type) := {
  num_zero : N;
  num_one : N;
  Infinity : N;
  neg_Infinity : N;
  Math_max : N -> N -> N;
  Math_min : N -> N -> N;
  num_plus : N -> N -> N;
  num_times : N -> N -> N;
}.

Section concrete.
Context {N : Type} `{JsNumber N}.

Definition TrustSemiring : Semiring N := {|
  zero := num_zero; one := num_one; add := Math_max; mul := num_times; eq_opt := None |}.
Definition CostSemiring : Semiring N := {|
  zero := Infinity; one := num_zero; add := Math_min; mul := num_plus; eq_opt := None |}.
Definition LatencySemiring : Semiring N := {|
  zero := Infinity; one := num_zero; add := Math_min; mul := num_plus; eq_opt := None |}.
Definition BottleneckSemiring : Semiring N := {|
  zero := num_zero; one := Infinity; add := Math_max; mul := Math_min; eq_opt := None |}.
Definition ReliabilitySemiring : Semiring N := {|
  zero := num_zero; one := num_one; add := Math_max; mul := num_times; eq_opt := None |}.
Definition RegulatoryRiskSemiring : Semiring N := {|
  zero := Infinity; one := num_zero; add := Math_min; mul := num_plus; eq_opt := None |}.
Definition MaxProductLogSemiring : Semiring N := {|
  zero := neg_Infinity; one := num_zero; add := Math_max; mul := num_plus; eq_opt := None |}.
End concrete.

Definition BooleanSemiring : Semiring bool := {|
  zero := false; one := true; add := orb; mul := andb; eq_opt := None |}.

(** ** Combinators *)

Section combinators.
Context {A B : Type} `{!StrictEq A, !StrictEq B}.

Definition productSemiring (sa : Semiring A) (sb : Semiring B) : Semiring (A * B) := {|
  zero := (zero sa, zero sb);
  one := (one sa, one sb);
  add := fun x y => (add sa x.1 y.1, add sb x.2 y.2);
  mul := fun x y => (mul sa x.1 y.1, mul sb x.2 y.2);
  eq_opt := Some (fun x y => sr_eq sa x.1 y.1 && sr_eq sb x.2 y.2) |}.

Definition mappedSemiring (base : Semiring A) (to : A -> B) (from : B -> A) : Semiring B := {|
  zero := to (zero base);
  one := to (one base);
  add := fun a b => to (add base (from a) (from b));
  mul := fun a b => to (mul base (from a) (from b));
  eq_opt := Some (fun a b => sr_eq base (from a) (from b)) |}.
End combinators.

(** The fields' values share one type; [undefined] is what a missing field
    reads as. *)
Section records.
Context {V : Type} `{!StrictEq V} (undefined : V).
Abbreviation record := (jsmap string V).

Definition field (k : string) (r : record) : V := default undefined (jm_get k r).

Definition build (keys : list string) (f : string -> V) : record :=
  foldl (fun r k => jm_set k (f k) r) [] keys.

Definition field_sr (fields : jsmap string (Semiring V)) (k : string) : Semiring V :=
  default {| zero := undefined; one := undefined; add := fun a _ => a; mul := fun a _ => a;
             eq_opt := None |} (jm_get k fields).

Definition recordSemiring (fields : jsmap string (Semiring V)) : Semiring record :=
  let keys := jm_keys fields in
  {| zero := build keys (fun k => zero (field_sr fields k));
     one := build keys (fun k => one (field_sr fields k));
     add := fun a b => build keys (fun k => add (field_sr fields k) (field k a) (field k b));
     mul := fun a b => build keys (fun k => mul (field_sr fields k) (field k a) (field k b));
     eq_opt := Some (fun a b =>
       forallb (fun k => sr_eq (field_sr fields k) (field k a) (field k b)) keys) |}.
End records.

(** ** The laws a traversal relies on *)

(** On the carrier [good]: [add] is a semilattice with bottom [zero]; [mul]
    distributes over it on the left, is annihilated by [zero] on the left, and
    composing with one more edge never improves a value. *)
Record path_laws {T} `{StrictEq T} (sr : Semiring T) (good : T -> Prop) : Prop := {
  good_zero : good (zero sr);
  good_one : good (one sr);
  good_add a b : good a -> good b -> good (add sr a b);
  good_mul a b : good a -> good b -> good (mul sr a b);
  sr_add_comm a b : good a -> good b -> add sr a b = add sr b a;
  sr_add_assoc a b c : good a -> good b -> good c ->
    add sr a (add sr b c) = add sr (add sr a b) c;
  sr_add_idem a : good a -> add sr a a = a;
  sr_add_zero a : good a -> add sr (zero sr) a = a;
  sr_mul_zero w : good w -> mul sr (zero sr) w = zero sr;
  sr_mul_add a b w : good a -> good b -> good w ->
    mul sr (add sr a b) w = add sr (mul sr a w) (mul sr b w);
  sr_absorb a w : good a -> good w -> add sr a (mul sr a w) = a;
  sr_eq_spec a b : good a -> good b -> sr_eq sr a b = true <-> a = b;
}.

(** What the all-pairs closure needs besides. *)
Record closure_laws {T} `{StrictEq T} (sr : Semiring T) (good : T -> Prop) : Prop := {
  cl_path : path_laws sr good;
  sr_mul_assoc a b c : good a -> good b -> good c ->
    mul sr a (mul sr b c) = mul sr (mul sr a b) c;
  sr_mul_one_l a : good a -> mul sr (one sr) a = a;
  sr_mul_one_r a : good a -> mul sr a (one sr) = a;
  sr_mul_zero_r a : good a -> mul sr a (zero sr) = zero sr;
  sr_mul_add_r a b c : good a -> good b -> good c ->
    mul sr a (add sr b c) = add sr (mul sr a b) (mul sr a c);
}.

(** [add] picks one of its arguments. *)
Definition selective {T} (sr : Semiring T) (good : T -> Prop) : Prop :=
  forall a b, good a -> good b -> add sr a b = a \/ add sr a b = b.

(** *** The natural order: [b] is at least as good a value as [a]. *)

Section order.
Context {T : Type} `{!StrictEq T} (sr : Semiring T) (good : T -> Prop).
Context (L : path_laws sr good).

Definition sr_le (a b : T) : Prop := add sr a b = b.

Lemma sr_le_refl a : good a -> sr_le a a.
Proof. apply (sr_add_idem _ _ L). Qed.

Lemma sr_le_trans a b c : good a -> good b -> good c -> sr_le a b -> sr_le b c -> sr_le a c.
Proof.
  unfold sr_le. intros Ha Hb Hc H1 H2. rewrite <- H2. rewrite (sr_add_assoc _ _ L) by done.
  by rewrite H1.
Qed.

Lemma sr_le_antisym a b : good a -> good b -> sr_le a b -> sr_le b a -> a = b.
Proof.
  unfold sr_le. intros Ha Hb H1 H2. transitivity (add sr b a); [done|].
  by rewrite (sr_add_comm _ _ L).
Qed.

Lemma sr_le_zero a : good a -> sr_le (zero sr) a.
Proof. apply (sr_add_zero _ _ L). Qed.

Lemma sr_le_add_l a b : good a -> good b -> sr_le a (add sr a b).
Proof. unfold sr_le. intros Ha Hb. by rewrite (sr_add_assoc _ _ L), (sr_add_idem _ _ L). Qed.

Lemma sr_le_add_r a b : good a -> good b -> sr_le b (add sr a b).
Proof. intros Ha Hb. rewrite (sr_add_comm _ _ L) by done. by apply sr_le_add_l. Qed.

Lemma sr_le_add a b c : good a -> good b -> good c -> sr_le a c -> sr_le b c -> sr_le (add sr a b) c.
Proof. unfold sr_le. intros Ha Hb Hc H1 H2. by rewrite <- (sr_add_assoc _ _ L), H2. Qed.

Lemma sr_mul_mono a b w : good a -> good b -> good w -> sr_le a b -> sr_le (mul sr a w) (mul sr b w).
Proof. unfold sr_le. intros Ha Hb Hw H. by rewrite <- (sr_mul_add _ _ L), H. Qed.

Lemma sr_mul_shrink a w : good a -> good w -> sr_le (mul sr a w) a.
Proof.
  unfold sr_le. intros Ha Hw. rewrite (sr_add_comm _ _ L); [by apply (sr_absorb _ _ L)| |done].
  by apply (good_mul _ _ L).
Qed.
End order.

(** The closure under [add] of a set of values, with [zero]. *)
Inductive sum_of {T} (sr : Semiring T) (P : T -> Prop) : T -> Prop :=
| sum_zero : sum_of sr P (zero sr)
| sum_in x : P x -> sum_of sr P x
| sum_add a b : sum_of sr P a -> sum_of sr P b -> sum_of sr P (add sr a b).

(** [m] is the [add] of all the values in [P]: it is a sum of some, and none
    exceeds it. *)
Definition is_total {T} (sr : Semiring T) (P : T -> Prop) (m : T) : Prop :=
  sum_of sr P m /\ forall x, P x -> sr_le sr x m.

Section totals.
Context {T : Type} `{!StrictEq T} (sr : Semiring T) (good : T -> Prop).
Context (L : path_laws sr good).

Lemma sum_good P a : (forall x, P x -> good x) -> sum_of sr P a -> good a.
Proof.
  intros HP. induction 1; [apply (good_zero _ _ L)|auto|by apply (good_add _ _ L)].
Qed.

Lemma sum_le P a m :
  (forall x, P x -> good x) -> good m -> (forall x, P x -> sr_le sr x m) ->
  sum_of sr P a -> sr_le sr a m.
Proof.
  intros HP Hm Hle. induction 1 as [|x Hx|a b Ha IHa Hb IHb].
  - by apply (sr_le_zero _ _ L).
  - auto.
  - apply (sr_le_add _ _ L); eauto using sum_good.
Qed.

(** A total is unique. *)
Lemma is_total_unique P m m' :
  (forall x, P x -> good x) -> is_total sr P m -> is_total sr P m' -> m = m'.
Proof.
  intros HP [H1 H2] [H3 H4].
  apply (sr_le_antisym _ _ L); eauto using sum_good; eapply sum_le; eauto using sum_good.
Qed.

(** A selective [add] only ever returns one of the values, or [zero]. *)
Lemma sum_selective P a :
  selective sr good -> (forall x, P x -> good x) -> sum_of sr P a -> a = zero sr \/ P a.
Proof.
  intros Hs HP. induction 1 as [|x Hx|a b Ha IHa Hb IHb]; [by left|by right|].
  destruct (Hs a b) as [-> | ->]; eauto using sum_good.
Qed.
End totals.
