(* ===== verification/SemiringLaws.v ===== *)
(** * The semirings are lawful

    [path_laws] for every concrete semiring, on the weights it is meant for, and
    for the combinators.  The concrete ones go through one lemma about a [mul]
    that respects a total order; a rounded product qualifies. *)

From S2P Require Import Prelude JsMap Semiring.
Local Open Scope Z_scope.

(** ** An [add] that picks the greater value of a total order *)

Record ordered_laws {T} `{StrictEq T} (sr : Semiring T) (good : T -> Prop) (le : T -> T -> bool)
    : Prop := {
  ol_zero : good (zero sr);
  ol_one : good (one sr);
  ol_mul a b : good a -> good b -> good (mul sr a b);
  ol_add a b : good a -> good b -> add sr a b = if le a b then b else a;
  ol_total a b : good a -> good b -> le a b = true \/ le b a = true;
  ol_trans a b c : good a -> good b -> good c -> le a b = true -> le b c = true -> le a c = true;
  ol_antisym a b : good a -> good b -> le a b = true -> le b a = true -> a = b;
  ol_bottom a : good a -> le (zero sr) a = true;
  ol_annihilate w : good w -> mul sr (zero sr) w = zero sr;
  ol_mono a b w : good a -> good b -> good w ->
    le a b = true -> le (mul sr a w) (mul sr b w) = true;
  ol_shrink a w : good a -> good w -> le (mul sr a w) a = true;
  ol_eq a b : good a -> good b -> sr_eq sr a b = true <-> a = b;
}.

Section ordered.
Context {T : Type} `{!StrictEq T} (sr : Semiring T) (good : T -> Prop) (le : T -> T -> bool).
Context (O : ordered_laws sr good le).

Lemma ol_refl a : good a -> le a a = true.
Proof. intros Ha. by destruct (ol_total _ _ _ O a a). Qed.

Lemma ordered_selective : selective sr good.
Proof. intros a b Ha Hb. rewrite (ol_add _ _ _ O) by done. destruct (le a b); auto. Qed.

Lemma ol_add_good a b : good a -> good b -> good (add sr a b).
Proof. intros Ha Hb. by destruct (ordered_selective a b) as [-> | ->]. Qed.

Lemma ol_max_l a b : good a -> good b -> le a b = true -> add sr a b = b.
Proof. intros Ha Hb H. by rewrite (ol_add _ _ _ O), H. Qed.

Lemma ol_max_r a b : good a -> good b -> le b a = true -> add sr a b = a.
Proof.
  intros Ha Hb H. rewrite (ol_add _ _ _ O) by done. destruct (le a b) eqn:E; [|done].
  by apply (ol_antisym _ _ _ O).
Qed.

Lemma ordered_path_laws : path_laws sr good.
Proof.
  split.
  - apply (ol_zero _ _ _ O).
  - apply (ol_one _ _ _ O).
  - apply ol_add_good.
  - apply (ol_mul _ _ _ O).
  - intros a b Ha Hb. destruct (ol_total _ _ _ O a b Ha Hb) as [E|E].
    + by rewrite ol_max_l, ol_max_r.
    + by rewrite ol_max_r, ol_max_l.
  - intros a b c Ha Hb Hc.
    destruct (ol_total _ _ _ O b c Hb Hc) as [E1|E1], (ol_total _ _ _ O a b Ha Hb) as [E2|E2].
    + rewrite (ol_max_l b c), (ol_max_l a b), (ol_max_l b c) by done. apply ol_max_l; [done..|].
      by apply (ol_trans _ _ _ O a b c).
    + by rewrite (ol_max_l b c), (ol_max_r a b).
    + by rewrite (ol_max_r b c), (ol_max_l a b), (ol_max_r b c).
    + rewrite (ol_max_r b c), (ol_max_r a b) by done. symmetry. apply ol_max_r; [done..|].
      by apply (ol_trans _ _ _ O c b a).
  - intros a Ha. apply ol_max_l; auto using ol_refl.
  - intros a Ha. apply ol_max_l; [apply (ol_zero _ _ _ O)|done|by apply (ol_bottom _ _ _ O)].
  - apply (ol_annihilate _ _ _ O).
  - intros a b w Ha Hb Hw. destruct (ol_total _ _ _ O a b Ha Hb) as [E|E].
    + rewrite (ol_max_l a b), ol_max_l; try done; try by apply (ol_mul _ _ _ O).
      by apply (ol_mono _ _ _ O).
    + rewrite (ol_max_r a b), ol_max_r; try done; try by apply (ol_mul _ _ _ O).
      by apply (ol_mono _ _ _ O).
  - intros a w Ha Hw. apply ol_max_r; [done|by apply (ol_mul _ _ _ O)|by apply (ol_shrink _ _ _ O)].
  - apply (ol_eq _ _ _ O).
Qed.
End ordered.

(** ** Numbers: a grid of fractions with infinities

    [Num z] stands for [z / d]: exact integers when [d = 1], fractions whose
    product is rounded down otherwise.  [0 * Infinity] and
    [Infinity - Infinity] are [NaN]. *)

Inductive number := Num (z : Z) | PosInf | NegInf | NaN.

#[export] Instance number_eq_dec : EqDecision number.
Proof. solve_decision. Defined.

#[export] Instance number_strict_eq : StrictEq number := fun a b =>
  match a with NaN => false | _ => bool_decide (a = b) end.

#[export] Instance bool_strict_eq : StrictEq bool := fun a b => bool_decide (a = b).

Definition num_le (a b : number) : bool :=
  match a, b with
  | NaN, _ | _, NaN => false
  | NegInf, _ | _, PosInf => true
  | Num x, Num y => bool_decide (x <= y)
  | _, _ => false
  end.

Definition num_sign (a : number) : Z :=
  match a with Num z => Z.sgn z | PosInf => 1 | NegInf => -1 | NaN => 0 end.

Definition grid (d : Z) : JsNumber number := {|
  num_zero := Num 0;
  num_one := Num d;
  Infinity := PosInf;
  neg_Infinity := NegInf;
  Math_max := fun a b =>
    match a, b with NaN, _ | _, NaN => NaN | _, _ => if num_le a b then b else a end;
  Math_min := fun a b =>
    match a, b with NaN, _ | _, NaN => NaN | _, _ => if num_le b a then b else a end;
  num_plus := fun a b =>
    match a, b with
    | NaN, _ | _, NaN | PosInf, NegInf | NegInf, PosInf => NaN
    | PosInf, _ | _, PosInf => PosInf
    | NegInf, _ | _, NegInf => NegInf
    | Num x, Num y => Num (x + y)
    end;
  num_times := fun a b =>
    match a, b with
    | NaN, _ | _, NaN => NaN
    | Num x, Num y => Num (x * y / d)
    | _, _ => match num_sign a * num_sign b with 0 => NaN | Z.pos _ => PosInf | Z.neg _ => NegInf end
    end |}.

(** The weights each semiring is meant for. *)
Definition unit_weight (d : Z) (a : number) : Prop :=
  match a with Num z => 0 <= z <= d | _ => False end.
Definition cost_weight (a : number) : Prop :=
  match a with Num z => 0 <= z | PosInf => True | _ => False end.
Definition log_weight (a : number) : Prop :=
  match a with Num z => z <= 0 | NegInf => True | _ => False end.

Definition num_ge (a b : number) : bool := num_le b a.
Definition bool_le (a b : bool) : bool := implb a b.

Section number_laws.
Context (d : Z) (Hd : 0 < d).
#[local] Instance grid_number : JsNumber number := grid d.

Ltac num_cases :=
  repeat match goal with a : number |- _ => destruct a; cbn in * end;
  try done; rewrite ?bool_decide_eq_true in *;
  try (repeat case_bool_decide; repeat f_equal; auto; lia).

Lemma unit_times x y : 0 <= x <= d -> 0 <= y <= d -> 0 <= x * y / d <= x.
Proof.
  intros Hx Hy. split; [apply Z.div_pos; nia|]. apply Z.div_le_upper_bound; [done|]. nia.
Qed.

Lemma number_eq_spec a b : a <> NaN -> number_strict_eq a b = true <-> a = b.
Proof. intros Ha. unfold number_strict_eq. destruct a; [..|done]; apply bool_decide_eq_true. Qed.

Lemma trust_ordered : ordered_laws TrustSemiring (unit_weight d) num_le.
Proof.
  split; cbn.
  - lia.
  - lia.
  - intros a b Ha Hb. num_cases. pose proof (unit_times z0 z). lia.
  - intros a b Ha Hb. by num_cases.
  - intros a b Ha Hb. num_cases.
  - intros a b c Ha Hb Hc. num_cases.
  - intros a b Ha Hb. num_cases. intros. f_equal. lia.
  - intros a Ha. num_cases.
  - intros w Hw. num_cases.
  - intros a b w Ha Hb Hw. num_cases. intros. apply Z.div_le_mono; nia.
  - intros a w Ha Hw. num_cases. pose proof (unit_times z0 z). lia.
  - intros a b Ha Hb. apply number_eq_spec. by intros ->.
Qed.

Lemma cost_ordered : ordered_laws CostSemiring cost_weight num_ge.
Proof.
  split; cbn.
  - done.
  - lia.
  - intros a b Ha Hb. num_cases.
  - intros a b Ha Hb. num_cases.
  - intros a b Ha Hb. num_cases.
  - intros a b c Ha Hb Hc. num_cases.
  - intros a b Ha Hb. num_cases. intros. f_equal. lia.
  - intros a Ha. num_cases.
  - intros w Hw. num_cases.
  - intros a b w Ha Hb Hw. num_cases.
  - intros a w Ha Hw. num_cases.
  - intros a b Ha Hb. apply number_eq_spec. by intros ->.
Qed.
Lemma bottleneck_ordered : ordered_laws BottleneckSemiring cost_weight num_le.
Proof.
  split; cbn.
  - lia.
  - done.
  - intros a b Ha Hb. num_cases.
  - intros a b Ha Hb. num_cases.
  - intros a b Ha Hb. num_cases.
  - intros a b c Ha Hb Hc. num_cases.
  - intros a b Ha Hb. num_cases. intros. f_equal. lia.
  - intros a Ha. num_cases.
  - intros w Hw. num_cases.
  - intros a b w Ha Hb Hw. num_cases; intros; repeat case_bool_decide; cbn;
      rewrite ?bool_decide_eq_true; lia || done.
  - intros a w Ha Hw. num_cases; repeat case_bool_decide; cbn;
      rewrite ?bool_decide_eq_true; lia || done.
  - intros a b Ha Hb. apply number_eq_spec. by intros ->.
Qed.

Lemma log_ordered : ordered_laws MaxProductLogSemiring log_weight num_le.
Proof.
  split; cbn.
  - done.
  - lia.
  - intros a b Ha Hb. num_cases.
  - intros a b Ha Hb. num_cases.
  - intros a b Ha Hb. num_cases.
  - intros a b c Ha Hb Hc. num_cases.
  - intros a b Ha Hb. num_cases. intros. f_equal. lia.
  - intros a Ha. num_cases.
  - intros w Hw. num_cases.
  - intros a b w Ha Hb Hw. num_cases.
  - intros a w Ha Hw. num_cases.
  - intros a b Ha Hb. apply number_eq_spec. by intros ->.
Qed.
End number_laws.

Lemma boolean_ordered : ordered_laws BooleanSemiring (fun _ => True) bool_le.
Proof.
  split; intros; repeat match goal with b : bool |- _ => destruct b end; cbn in *;
    first [done | by left | by right | split; vm_compute; congruence].
Qed.

(** ** Combinators *)

Section combinator_laws.
Context {A B : Type} `{!StrictEq A, !StrictEq B}.

Definition good_pair (ga : A -> Prop) (gb : B -> Prop) (x : A * B) : Prop := ga x.1 /\ gb x.2.

Lemma product_path_laws `{!StrictEq (A * B)} (sa : Semiring A) (sb : Semiring B) ga gb :
  path_laws sa ga -> path_laws sb gb -> path_laws (productSemiring sa sb) (good_pair ga gb).
Proof.
  intros LA LB. split; cbn; unfold good_pair; cbn.
  - split; [apply (good_zero _ _ LA)|apply (good_zero _ _ LB)].
  - split; [apply (good_one _ _ LA)|apply (good_one _ _ LB)].
  - intros a b [] []. split; [by apply (good_add _ _ LA)|by apply (good_add _ _ LB)].
  - intros a b [] []. split; [by apply (good_mul _ _ LA)|by apply (good_mul _ _ LB)].
  - intros a b [] []. f_equal; [by apply (sr_add_comm _ _ LA)|by apply (sr_add_comm _ _ LB)].
  - intros a b c [] [] []. f_equal; [by apply (sr_add_assoc _ _ LA)|by apply (sr_add_assoc _ _ LB)].
  - intros [a b] []. cbn in *. f_equal; [by apply (sr_add_idem _ _ LA)|by apply (sr_add_idem _ _ LB)].
  - intros [a b] []. cbn in *. f_equal; [by apply (sr_add_zero _ _ LA)|by apply (sr_add_zero _ _ LB)].
  - intros w []. f_equal; [by apply (sr_mul_zero _ _ LA)|by apply (sr_mul_zero _ _ LB)].
  - intros a b w [] [] []. f_equal; [by apply (sr_mul_add _ _ LA)|by apply (sr_mul_add _ _ LB)].
  - intros [a b] w [] []. cbn in *. f_equal; [by apply (sr_absorb _ _ LA)|by apply (sr_absorb _ _ LB)].
  - intros [a1 a2] [b1 b2] [] []. cbn [fst snd] in *.
    change ((sr_eq sa a1 b1 && sr_eq sb a2 b2) = true <-> (a1, a2) = (b1, b2)).
    rewrite andb_true_iff, (sr_eq_spec _ _ LA), (sr_eq_spec _ _ LB) by done.
    split; [by intros [-> ->]|by intros [= -> ->]].
Qed.

(** [to] and [from] inverse to each other on the carriers. *)
Lemma mapped_path_laws (base : Semiring A) (to : A -> B) (from : B -> A) ga (gb : B -> Prop) :
  (forall a, ga a -> gb (to a) /\ from (to a) = a) ->
  (forall b, gb b -> ga (from b) /\ to (from b) = b) ->
  path_laws base ga -> path_laws (mappedSemiring base to from) gb.
Proof.
  intros Hto Hfrom L.
  assert (forall a, ga a -> gb (to a)) as Ht by (intros; by apply Hto).
  assert (forall a, ga a -> from (to a) = a) as Hft by (intros; by apply Hto).
  assert (forall b, gb b -> ga (from b)) as Hf by (intros; by apply Hfrom).
  assert (forall b, gb b -> to (from b) = b) as Htf by (intros; by apply Hfrom).
  split; cbn.
  - apply Ht, (good_zero _ _ L).
  - apply Ht, (good_one _ _ L).
  - intros a b Ha Hb. apply Ht, (good_add _ _ L); auto.
  - intros a b Ha Hb. apply Ht, (good_mul _ _ L); auto.
  - intros a b Ha Hb. f_equal. apply (sr_add_comm _ _ L); auto.
  - intros a b c Ha Hb Hc. f_equal. rewrite !Hft by (apply (good_add _ _ L); auto).
    apply (sr_add_assoc _ _ L); auto.
  - intros a Ha. rewrite (sr_add_idem _ _ L); auto.
  - intros a Ha. rewrite Hft by apply (good_zero _ _ L). rewrite (sr_add_zero _ _ L); auto.
  - intros w Hw. f_equal. rewrite Hft by apply (good_zero _ _ L). apply (sr_mul_zero _ _ L); auto.
  - intros a b w Ha Hb Hw. f_equal. rewrite !Hft; try apply (good_mul _ _ L); try apply (good_add _ _ L); auto.
    apply (sr_mul_add _ _ L); auto.
  - intros a w Ha Hw. rewrite Hft by (apply (good_mul _ _ L); auto).
    rewrite (sr_absorb _ _ L); auto.
  - intros a b Ha Hb. change (sr_eq (mappedSemiring base to from) a b) with (sr_eq base (from a) (from b)).
    rewrite (sr_eq_spec _ _ L); auto.
    split; [|by intros ->]. intros E. rewrite <- (Htf a), <- (Htf b); auto. by rewrite E.
Qed.
End combinator_laws.

Section record_laws.
Context {V : Type} `{!StrictEq V, !StrictEq (jsmap string V)} (undefined : V).
Context (fields : jsmap string (Semiring V)) (goods : string -> V -> Prop).
Abbreviation keys := (jm_keys fields).
Abbreviation fsr := (field_sr undefined fields).

(** A record with exactly the declared fields, in their order, each good. *)
Definition good_record (r : jsmap string V) : Prop :=
  jm_keys r = keys /\ forall k, k ∈ keys -> goods k (field undefined k r).

Lemma build_keys_from f (l : list string) (r : jsmap string V) :
  NoDup (jm_keys r ++ l) ->
  let r' := foldl (fun r k => jm_set k (f k) r) r l in
  jm_keys r' = jm_keys r ++ l /\
  forall k, field undefined k r' = if decide (k ∈ l) then f k else field undefined k r.
Proof.
  revert r. induction l as [|k l IH]; intros r Hnd; cbn [foldl].
  - rewrite app_nil_r. split; [done|]. intros k. by rewrite decide_False by set_solver.
  - assert (k ∉ jm_keys r) as Hk.
    { apply NoDup_app in Hnd as (_ & Hd & _). intros Hin. apply (Hd k Hin). by left. }
    destruct (IH (jm_set k (f k) r)) as [H1 H2].
    { rewrite jm_keys_set, decide_False by done. by rewrite <- app_assoc. }
    split.
    + rewrite H1, jm_keys_set, decide_False by done. by rewrite <- app_assoc.
    + intros k'. rewrite H2. apply NoDup_app in Hnd as (_ & _ & [Hkl Hl]%NoDup_cons).
      destruct (decide (k' ∈ l)) as [Hin|Hin].
      * by rewrite decide_True by (by right).
      * unfold field. rewrite jm_get_set. destruct (decide (k' = k)) as [->|Hne].
        -- by rewrite decide_True by (by left).
        -- by rewrite decide_False by (by apply not_elem_of_cons).
Qed.

Lemma build_keys f : jm_wf fields ->
  jm_keys (build keys f) = keys /\ forall k, k ∈ keys -> field undefined k (build keys f) = f k.
Proof.
  intros Hwf. destruct (build_keys_from f keys [] Hwf) as [H1 H2]. split; [exact H1|].
  intros k Hk. unfold build. rewrite H2. by rewrite decide_True.
Qed.

(** Records with the declared keys are equal when their fields are. *)
Lemma record_ext (a b : jsmap string V) :
  jm_wf fields -> jm_keys a = keys -> jm_keys b = keys ->
  (forall k, k ∈ keys -> field undefined k a = field undefined k b) -> a = b.
Proof.
  unfold jm_wf. generalize keys as ks. intros ks Hnd. revert a b. induction Hnd as [|k ks Hk Hnd IH];
    intros [|[ka va] a] [|[kb vb] b]; try done.
  unfold jm_keys. rewrite !fmap_cons. cbn. intros [= -> Ha] [= -> Hb] H.
  assert (va = vb) as ->.
  { specialize (H k ltac:(by left)). unfold field in H. cbn in H. rewrite !decide_True in H by done. exact H. }
  f_equal. apply IH; [done|done|]. intros k' Hk'. specialize (H k' ltac:(by right)).
  unfold field in *. cbn in H. by rewrite !decide_False in H by (intros ->; done).
Qed.

Lemma record_path_laws :
  jm_wf fields -> (forall k, k ∈ keys -> path_laws (fsr k) (goods k)) ->
  path_laws (recordSemiring undefined fields) good_record.
Proof.
  intros Hwf L.
  assert (forall f, (forall k, k ∈ keys -> goods k (f k)) -> good_record (build keys f)) as Hgood.
  { intros f Hf. destruct (build_keys f Hwf) as [H1 H2]. split; [done|]. intros k Hk.
    rewrite H2 by done. auto. }
  assert (forall f, (forall k, k ∈ keys -> field undefined k (build keys f) = f k)) as Hfield
    by (intros f; apply build_keys; done).
  assert (forall f g : string -> V, (forall k, k ∈ keys -> f k = g k) -> build keys f = build keys g) as Hext.
  { intros f g Hfg. apply record_ext; [done|by apply build_keys|by apply build_keys|].
    intros k Hk. rewrite !Hfield by done. auto. }
  assert (forall f r, good_record r -> (forall k, k ∈ keys -> f k = field undefined k r) ->
    build keys f = r) as Hrec.
  { intros f r [Hr _] Hf. apply record_ext; [done|by apply build_keys|done|].
    intros k Hk. rewrite Hfield by done. auto. }
  split; cbn [recordSemiring zero one add mul].
  - apply Hgood. intros k Hk. apply (good_zero _ _ (L k Hk)).
  - apply Hgood. intros k Hk. apply (good_one _ _ (L k Hk)).
  - intros a b [_ Ha] [_ Hb]. apply Hgood. intros k Hk. apply (good_add _ _ (L k Hk)); auto.
  - intros a b [_ Ha] [_ Hb]. apply Hgood. intros k Hk. apply (good_mul _ _ (L k Hk)); auto.
  - intros a b [_ Ha] [_ Hb]. apply Hext. intros k Hk. apply (sr_add_comm _ _ (L k Hk)); auto.
  - intros a b c [_ Ha] [_ Hb] [_ Hc]. apply Hext. intros k Hk. rewrite !Hfield by done.
    apply (sr_add_assoc _ _ (L k Hk)); auto.
  - intros a Ha. apply Hrec; [done|]. intros k Hk. apply (sr_add_idem _ _ (L k Hk)). by apply Ha.
  - intros a Ha. apply Hrec; [done|]. intros k Hk. rewrite Hfield by done.
    apply (sr_add_zero _ _ (L k Hk)). by apply Ha.
  - intros w [_ Hw]. apply Hext. intros k Hk. rewrite Hfield by done.
    apply (sr_mul_zero _ _ (L k Hk)); auto.
  - intros a b w [_ Ha] [_ Hb] [_ Hw]. apply Hext. intros k Hk. rewrite !Hfield by done.
    apply (sr_mul_add _ _ (L k Hk)); auto.
  - intros a w Ha [_ Hw]. apply Hrec; [done|]. intros k Hk. rewrite Hfield by done.
    apply (sr_absorb _ _ (L k Hk)); [by apply Ha|auto].
  - intros a b [Ka Ha] [Kb Hb]. unfold sr_eq at 1. cbn [recordSemiring eq_opt]. rewrite forallb_forall. split.
    + intros H. apply record_ext; [done|done|done|]. intros k Hk.
      apply (sr_eq_spec _ _ (L k Hk)); auto. apply H. by apply list_elem_of_In.
    + intros -> k Hk%list_elem_of_In. apply (sr_eq_spec _ _ (L k Hk)); auto.
Qed.
End record_laws.
