(* ===== verification/Digraph.v ===== *)
(** * The weighted digraph ([packages/protocol/src/graph.ts])

    [WeightedDigraph]: an adjacency map of neighbour maps and a node set, over a
    semiring.  The invariant says every endpoint is a node, which is what the
    traversals' non-null assertions rely on. *)

From S2P Require Import Prelude JsMap Semiring.
Local Open Scope Z_scope.

Record Edge (T : Type) := {
  from : string;
  to : string;
  weight : T;
}.
Arguments from {T}.
Arguments to {T}.
Arguments weight {T}.

Record WeightedDigraph (T : Type) := {
  adj : jsmap string (jsmap string T);
  nodes : list string;
  sr : Semiring T;
}.
Arguments adj {T}.
Arguments nodes {T}.
Arguments sr {T}.

Section digraph.
Context {T : Type}.
Implicit Types (g : WeightedDigraph T) (w : T).

Definition new_graph (s : Semiring T) : WeightedDigraph T :=
  {| adj := []; nodes := []; sr := s |}.

Definition set_adj a g : WeightedDigraph T := {| adj := a; nodes := nodes g; sr := sr g |}.

Definition addNode (id : string) g : WeightedDigraph T :=
  {| adj := if jm_has id (adj g) then adj g else jm_set id [] (adj g);
     nodes := js_add id (nodes g);
     sr := sr g |}.

(** [this._adj.get(from)!] after [addNode(from)]. *)
Definition neighbors (id : string) g : jsmap string T := default [] (jm_get id (adj g)).

Definition addEdge (u v : string) w g : WeightedDigraph T :=
  let g := addNode v (addNode u g) in
  let nb := neighbors u g in
  let combined := match jm_get v nb with
                  | Some existing => add (sr g) existing w
                  | None => w
                  end in
  set_adj (jm_set u (jm_set v combined nb) (adj g)) g.

Definition setEdge (u v : string) w g : WeightedDigraph T :=
  let g := addNode v (addNode u g) in
  set_adj (jm_set u (jm_set v w (neighbors u g)) (adj g)) g.

Definition removeEdge (u v : string) g : WeightedDigraph T :=
  match jm_get u (adj g) with
  | Some nb => set_adj (jm_set u (jm_delete v nb) (adj g)) g
  | None => g
  end.

Definition removeNode (id : string) g : WeightedDigraph T :=
  {| adj := (fun e => (e.1, jm_delete id e.2)) <$> jm_delete id (adj g);
     nodes := filter (fun n => n <> id) (nodes g);
     sr := sr g |}.

Definition hasNode (id : string) g : bool := js_has id (nodes g).

Definition hasEdge (u v : string) g : bool :=
  match jm_get u (adj g) with Some nb => jm_has v nb | None => false end.

Definition getEdge (u v : string) g : T :=
  match jm_get u (adj g) with
  | Some nb => default (zero (sr g)) (jm_get v nb)
  | None => zero (sr g)
  end.

Definition nodeCount g : nat := length (nodes g).

Definition edges g : list (Edge T) :=
  mjoin ((fun e => (fun n => {| from := e.1; to := n.1; weight := n.2 |}) <$> e.2) <$> adj g).

Definition edgeCount g : nat := foldl (fun count nb => count + length nb)%nat 0%nat (jm_values (adj g)).

(** There is an edge [u -> v] of weight [w]. *)
Definition edge g (u v : string) w : Prop := jm_get v (neighbors u g) = Some w.

(** ** Operations and the graphs they build *)

Inductive graph_op :=
| AddNode (id : string)
| AddEdge (u v : string) (w : T)
| SetEdge (u v : string) (w : T)
| RemoveEdge (u v : string)
| RemoveNode (id : string).

Definition apply_graph_op (op : graph_op) g : WeightedDigraph T :=
  match op with
  | AddNode id => addNode id g
  | AddEdge u v w => addEdge u v w g
  | SetEdge u v w => setEdge u v w g
  | RemoveEdge u v => removeEdge u v g
  | RemoveNode id => removeNode id g
  end.

Definition build_graph (s : Semiring T) (ops : list graph_op) : WeightedDigraph T :=
  foldl (fun g op => apply_graph_op op g) (new_graph s) ops.

(** ** The invariant *)

Record digraph_ok g : Prop := {
  dg_nodes : NoDup (nodes g);
  dg_keys : jm_keys (adj g) = nodes g;
  dg_neighbors : forall u nb, jm_get u (adj g) = Some nb ->
    jm_wf nb /\ forall v, v ∈ jm_keys nb -> v ∈ nodes g;
}.

Lemma new_graph_ok s : digraph_ok (new_graph s).
Proof. split; [apply NoDup_nil_2|done|done]. Qed.

Lemma adj_none g u : digraph_ok g -> jm_get u (adj g) = None <-> u ∉ nodes g.
Proof. intros [_ Hk _]. by rewrite jm_get_none, Hk. Qed.

Lemma addNode_ok id g : digraph_ok g -> digraph_ok (addNode id g).
Proof.
  intros Hok. pose proof Hok as [Hn Hk Hnb]. unfold addNode.
  split; cbn [adj nodes].
  - by apply js_add_nodup.
  - unfold js_add, jm_has. destruct (jm_get id (adj g)) as [nb|] eqn:E.
    + rewrite decide_True; [done|]. rewrite <- Hk. apply jm_get_is_some. by rewrite E.
    + apply jm_get_none in E. rewrite jm_keys_set, decide_False by done. rewrite Hk in E |- *.
      by rewrite decide_False.
  - intros u nb. unfold jm_has.
    destruct (jm_get id (adj g)) as [nb0|] eqn:E.
    + intros Hu. destruct (Hnb u nb Hu) as [Hwf Hv]. split; [done|].
      intros v Hin. apply js_add_elem. auto.
    + rewrite jm_get_set. destruct (decide (u = id)) as [->|].
      * intros [= <-]. split; [apply jm_wf_empty|]. cbn. set_solver.
      * intros Hu. destruct (Hnb u nb Hu) as [Hwf Hv]. split; [done|].
        intros v Hin. apply js_add_elem. auto.
Qed.

Lemma addNode_elem id g n : n ∈ nodes (addNode id g) <-> n = id \/ n ∈ nodes g.
Proof. apply js_add_elem. Qed.

Lemma addNode_neighbors id g u : digraph_ok g -> neighbors u (addNode id g) = neighbors u g.
Proof.
  intros Hok. unfold neighbors, addNode, jm_has. cbn.
  destruct (jm_get id (adj g)) as [nb|] eqn:E; [done|]. rewrite jm_get_set.
  destruct (decide (u = id)) as [->|]; [by rewrite E|done].
Qed.

(** Replacing the neighbours of a node by neighbours that are nodes. *)
Lemma set_neighbors_ok u nb g :
  digraph_ok g -> u ∈ nodes g -> jm_wf nb -> (forall v, v ∈ jm_keys nb -> v ∈ nodes g) ->
  digraph_ok (set_adj (jm_set u nb (adj g)) g).
Proof.
  intros [Hn Hk Hnb] Hu Hwf Hv. split; cbn [set_adj adj nodes].
  - done.
  - rewrite jm_keys_set, Hk. by rewrite decide_True.
  - intros u' nb'. rewrite jm_get_set. destruct (decide (u' = u)); [by intros [= <-]|apply Hnb].
Qed.

Lemma neighbors_ok u g : digraph_ok g ->
  jm_wf (neighbors u g) /\ forall v, v ∈ jm_keys (neighbors u g) -> v ∈ nodes g.
Proof.
  intros [_ _ Hnb]. unfold neighbors. destruct (jm_get u (adj g)) as [nb|] eqn:E; [eauto|].
  split; [apply jm_wf_empty|cbn; set_solver].
Qed.

Lemma put_edge_ok u v w g :
  digraph_ok g -> u ∈ nodes g -> v ∈ nodes g ->
  digraph_ok (set_adj (jm_set u (jm_set v w (neighbors u g)) (adj g)) g).
Proof.
  intros Hok Hu Hv. destruct (neighbors_ok u g Hok) as [Hwf Hin].
  apply set_neighbors_ok; [done|done|by apply jm_wf_set|].
  intros v'. rewrite jm_keys_set. case_decide; [apply Hin|]. rewrite elem_of_app, elem_of_cons.
  intros [Hv0|[->|Hv0]]; [auto|done|set_solver].
Qed.

Lemma endpoints_ok u v g : digraph_ok g ->
  digraph_ok (addNode v (addNode u g)) /\ u ∈ nodes (addNode v (addNode u g)) /\
  v ∈ nodes (addNode v (addNode u g)).
Proof.
  intros Hok. split; [by apply addNode_ok, addNode_ok|]. rewrite !addNode_elem. auto.
Qed.

Lemma graph_op_ok op g : digraph_ok g -> digraph_ok (apply_graph_op op g).
Proof.
  intros Hok. destruct op as [id|u v w|u v w|u v|id]; cbn [apply_graph_op].
  - by apply addNode_ok.
  - destruct (endpoints_ok u v g Hok) as (H1 & H2 & H3). by apply put_edge_ok.
  - destruct (endpoints_ok u v g Hok) as (H1 & H2 & H3). by apply put_edge_ok.
  - unfold removeEdge. destruct (jm_get u (adj g)) as [nb|] eqn:E; [|done].
    pose proof Hok as [_ _ Hnb]. destruct (Hnb u nb E) as [Hwf Hv].
    apply set_neighbors_ok; [done| |by apply jm_wf_delete|].
    + destruct (decide (u ∈ nodes g)) as [|Hu]; [done|]. apply adj_none in Hu; [congruence|done].
    + intros v'. rewrite jm_keys_delete. rewrite list_elem_of_filter. intros [_ H]. auto.
  - destruct Hok as [Hn Hk Hnb]. unfold removeNode. split; cbn [adj nodes].
    + by apply NoDup_filter.
    + unfold jm_keys. rewrite <- list_fmap_compose.
      change (fst ∘ (fun e : string * jsmap string T => (e.1, jm_delete id e.2)))
        with (@fst string (jsmap string T)).
      fold (jm_keys (jm_delete id (adj g))). by rewrite jm_keys_delete, Hk.
    + intros u nb.
      assert (forall (m : jsmap string (jsmap string T)),
        jm_get u ((fun e => (e.1, jm_delete id e.2)) <$> m) = jm_delete id <$> jm_get u m) as ->.
      { intros m. induction m as [|[k x] m IH]; [done|]. cbn. by case_decide. }
      rewrite jm_get_delete. case_decide; [done|]. intros Hu.
      destruct (jm_get u (adj g)) as [nb0|] eqn:E; [|done]. cbn in Hu. injection Hu as <-.
      destruct (Hnb u nb0 E) as [Hwf Hv]. split; [by apply jm_wf_delete|].
      intros v. rewrite jm_keys_delete, !list_elem_of_filter. intros [Hne Hin]. auto.
Qed.

Lemma build_graph_ok s ops : digraph_ok (build_graph s ops).
Proof.
  unfold build_graph. generalize (new_graph_ok s). generalize (new_graph s) as g.
  induction ops as [|op ops IH]; intros g Hg; [done|]. cbn. apply IH. by apply graph_op_ok.
Qed.

Lemma build_graph_sr s ops : sr (build_graph s ops) = s.
Proof.
  assert (forall op g, sr (apply_graph_op op g) = sr g) as Hop.
  { intros op g. destruct op; try done. cbn. unfold removeEdge. by destruct (jm_get _ _). }
  unfold build_graph. change s with (sr (new_graph s)) at 2. generalize (new_graph s) as g.
  induction ops as [|op ops IH]; intros g; [done|]. cbn [foldl]. by rewrite IH, Hop.
Qed.

(** ** Edges *)

Lemma edge_nodes g u v w : digraph_ok g -> edge g u v w -> u ∈ nodes g /\ v ∈ nodes g.
Proof.
  intros Hok He. unfold edge in He. split.
  - destruct (decide (u ∈ nodes g)) as [|Hu]; [done|]. apply adj_none in Hu; [|done].
    unfold neighbors in He. by rewrite Hu in He.
  - apply (proj2 (neighbors_ok u g Hok)). apply jm_get_is_some. by rewrite He.
Qed.

Lemma edge_hasEdge g u v : hasEdge u v g = true <-> exists w, edge g u v w.
Proof.
  unfold hasEdge, edge, neighbors, jm_has. destruct (jm_get u (adj g)) as [nb|]; cbn.
  - destruct (jm_get v nb); naive_solver.
  - naive_solver.
Qed.

Lemma edge_getEdge g u v w : edge g u v w -> getEdge u v g = w.
Proof.
  unfold edge, getEdge, neighbors. destruct (jm_get u (adj g)) as [nb|]; cbn; [by intros ->|done].
Qed.

Lemma edges_elem g e : digraph_ok g -> e ∈ edges g <-> edge g (from e) (to e) (weight e).
Proof.
  intros [Hn Hk Hnb]. unfold edges, edge, neighbors. rewrite list_elem_of_join. split.
  - intros (l & He & Hl). apply list_elem_of_fmap in Hl as ([u nb] & -> & Hu).
    apply list_elem_of_fmap in He as ([v w] & -> & Hv). cbn.
    assert (jm_get u (adj g) = Some nb) as E by (apply jm_elem_get; [unfold jm_wf; by rewrite Hk|done]).
    rewrite E. cbn. apply jm_elem_get; [|done]. by apply (Hnb u).
  - destruct e as [u v w]. cbn. intros He.
    destruct (jm_get u (adj g)) as [nb|] eqn:E; cbn in He; [|done].
    eexists. split; [|apply list_elem_of_fmap; exists (u, nb); split; [reflexivity|by apply jm_get_elem]].
    apply list_elem_of_fmap. exists (v, w). split; [done|]. by apply jm_get_elem.
Qed.

Lemma edgeCount_edges g : edgeCount g = length (edges g).
Proof.
  unfold edgeCount, edges, jm_values.
  enough (forall (m : jsmap string (jsmap string T)) n,
    foldl (fun count nb => count + length nb)%nat n m.*2
    = (n + length (mjoin ((fun e => (fun x => {| from := e.1; to := x.1; weight := x.2 |}) <$> e.2) <$> m)))%nat)
    as H by apply (H (adj g) 0%nat).
  induction m as [|[u nb] m IH]; intros n; [cbn; lia|]. cbn [fmap list_fmap foldl snd]. rewrite IH.
  unfold mjoin. cbn [list_join]. rewrite length_app, length_fmap. symmetry. apply Nat.add_assoc.
Qed.

(** Two edge insertions and a lookup. *)
Lemma addEdge_edge u v w g u' v' w' :
  digraph_ok g ->
  edge (addEdge u v w g) u' v' w' <->
  if decide (u' = u /\ v' = v)
  then w' = match jm_get v (neighbors u g) with Some x => add (sr g) x w | None => w end
  else edge g u' v' w'.
Proof.
  intros Hok. pose proof (addNode_ok u g Hok) as Hok1. unfold edge, addEdge.
  set (g2 := addNode v (addNode u g)).
  assert (forall n, neighbors n g2 = neighbors n g) as Hg2
    by (intros n; unfold g2; by rewrite !addNode_neighbors).
  unfold neighbors at 1. cbn [set_adj adj]. rewrite jm_get_set. destruct (decide (u' = u)) as [->|Hu].
  - cbn [from_option id]. rewrite jm_get_set, Hg2. destruct (decide (v' = v)) as [->|Hv].
    + rewrite decide_True by done. change (sr g2) with (sr g).
      destruct (jm_get v (neighbors u g)); split; [by intros [= <-]|by intros ->|by intros [= <-]|by intros ->].
    + by rewrite decide_False by (by intros [_ ?]).
  - rewrite decide_False by (by intros [? _]). fold (neighbors u' g2). by rewrite Hg2.
Qed.
End digraph.

Arguments graph_op : clear implicits.

(** * Properties *)

(** However a graph is built, by adding, merging, replacing and removing
    nodes and edges, it stays well formed: nodes and neighbour keys are
    distinct, the adjacency map has exactly the nodes as keys, every edge joins
    two nodes, [edges()] lists each edge once with its weight and [edgeCount]
    counts them, and a removed node has no edge left. *)
Theorem digraph_well_formed {T} (s : Semiring T) (ops : list (graph_op T)) :
  let g := build_graph s ops in
  digraph_ok g /\
  (forall u v, hasEdge u v g = true -> hasNode u g = true /\ hasNode v g = true) /\
  (forall e, e ∈ edges g <-> hasEdge (from e) (to e) g = true /\ getEdge (from e) (to e) g = weight e) /\
  edgeCount g = length (edges g) /\
  forall id u, hasEdge u id (removeNode id g) = false /\ hasEdge id u (removeNode id g) = false.
Proof.
  intros g. assert (digraph_ok g) as Hok by apply build_graph_ok. split; [done|].
  split; [|split; [|split; [apply edgeCount_edges|]]].
  - intros u v (w & He)%edge_hasEdge. destruct (edge_nodes g u v w Hok He).
    split; by apply bool_decide_eq_true_2.
  - intros e. rewrite edges_elem by done. split.
    + intros He. split; [apply edge_hasEdge; eauto|by apply edge_getEdge].
    + intros [[w He]%edge_hasEdge <-]. by rewrite (edge_getEdge _ _ _ _ He).
  - intros id u. pose proof (graph_op_ok (RemoveNode id) g Hok) as Hok'. cbn in Hok'.
    assert (id ∉ nodes (removeNode id g)) as Hn
      by (cbn; rewrite list_elem_of_filter; by intros [? _]).
    split; apply not_true_iff_false; intros (w & He)%edge_hasEdge;
      by destruct (edge_nodes _ _ _ _ Hok' He).
Qed.

(** Parallel edges merge by [add] and nothing else moves: after [addEdge]
    the edge [u -> v] weighs the old weight combined with the new one, or the
    new one alone, and every other edge weighs what it did. *)
Theorem addEdge_merges {T} (s : Semiring T) (ops : list (graph_op T)) u v w u' v' :
  let g := build_graph s ops in
  getEdge u' v' (addEdge u v w g) =
  if decide (u' = u /\ v' = v) then if hasEdge u v g then add s (getEdge u v g) w else w
  else getEdge u' v' g.
Proof.
  intros g. assert (digraph_ok g) as Hok by apply build_graph_ok.
  pose proof (build_graph_sr s ops) as Hs. fold g in Hs.
  assert (forall (g' : WeightedDigraph T) (w' : T), edge g' u' v' w' -> getEdge u' v' g' = w') as Hget
    by (intros; by apply edge_getEdge).
  case_decide as D.
  - destruct D as [-> ->]. apply edge_getEdge. apply addEdge_edge; [done|].
    rewrite decide_True by done. unfold hasEdge, getEdge, neighbors, jm_has.
    destruct (jm_get u (adj g)) as [nb|]; [|done]. cbn. rewrite Hs. by destruct (jm_get v nb).
  - destruct (hasEdge u' v' g) eqn:E.
    + apply edge_hasEdge in E as [w' E]. rewrite (Hget g w' E). apply Hget.
      apply addEdge_edge; [done|]. by rewrite decide_False.
    + assert (hasEdge u' v' (addEdge u v w g) = false) as E'.
      { apply not_true_iff_false. intros [w' E']%edge_hasEdge. apply addEdge_edge in E'; [|done].
        rewrite decide_False in E' by done.
        assert (hasEdge u' v' g = true) by (apply edge_hasEdge; eauto). congruence. }
      assert (forall g' : WeightedDigraph T, hasEdge u' v' g' = false -> getEdge u' v' g' = zero (sr g')) as Hz.
      { intros g'. unfold hasEdge, getEdge, jm_has. destruct (jm_get u' (adj g')) as [nb|]; [|done].
        by destruct (jm_get v' nb). }
      by rewrite !Hz.
Qed.
