(* ===== verification/Traversal.v ===== *)
(** * Graph traversal over a semiring ([packages/protocol/src/traversal.ts])

    [optimalPaths] (generalized Bellman-Ford), [optimalPath],
    [optimalPathTrace] and [transitiveClosure] (generalized Floyd-Warshall).  The
    loops run over the node list and each neighbour map in insertion order; a
    [break] on a round without change ends the rounds.  The tracing loop's fuel
    is one more than the number of nodes, which its visited set bounds. *)

From S2P Require Import Prelude JsMap Semiring Digraph.
Local Open Scope Z_scope.

Section traversal.
Context {T : Type} `{!StrictEq T}.
Implicit Types (g : WeightedDigraph T) (dist : jsmap string T).

(** [dist.get(node)!]: every node has a distance. *)
Definition dist_get g dist (v : string) : T := default (zero (sr g)) (jm_get v dist).

(** ** [optimalPaths] *)

Definition init_dist g (source : string) : jsmap string T :=
  jm_set source (one (sr g)) (foldl (fun d node => jm_set node (zero (sr g)) d) [] (nodes g)).

(** One neighbour of the node whose distance is [dNode]. *)
Definition relax_edge g (dNode : T) (st : jsmap string T * bool) (e : string * T)
    : jsmap string T * bool :=
  let '(dist, changed) := st in
  let candidate := mul (sr g) dNode e.2 in
  let current := dist_get g dist e.1 in
  let combined := add (sr g) current candidate in
  if negb (sr_eq (sr g) combined current) then (jm_set e.1 combined dist, true) else st.

Definition relax_node g (st : jsmap string T * bool) (node : string) : jsmap string T * bool :=
  let dNode := dist_get g st.1 node in
  if sr_eq (sr g) dNode (zero (sr g)) then st
  else foldl (relax_edge g dNode) st (neighbors node g).

Definition relax_round g dist : jsmap string T * bool :=
  foldl (relax_node g) (dist, false) (nodes g).

Fixpoint relax_rounds (n : nat) g dist : jsmap string T :=
  match n with
  | O => dist
  | S n => let '(dist', changed) := relax_round g dist in
           if changed then relax_rounds n g dist' else dist'
  end.

Definition optimalPaths g (source : string) : jsmap string T :=
  relax_rounds (nodeCount g - 1) g (init_dist g source).

Definition optimalPath g (source target : string) : T :=
  default (zero (sr g)) (jm_get target (optimalPaths g source)).

(** ** [optimalPathTrace] *)

Record trace_state := {
  t_dist : jsmap string T;
  t_pred : jsmap string (option string);
  t_changed : bool;
}.

Definition trace_edge g (node : string) (dNode : T) (st : trace_state) (e : string * T)
    : trace_state :=
  let candidate := mul (sr g) dNode e.2 in
  let current := dist_get g (t_dist st) e.1 in
  let combined := add (sr g) current candidate in
  if negb (sr_eq (sr g) combined current)
  then {| t_dist := jm_set e.1 combined (t_dist st); t_pred := jm_set e.1 (Some node) (t_pred st);
          t_changed := true |}
  else st.

Definition trace_node g (st : trace_state) (node : string) : trace_state :=
  let dNode := dist_get g (t_dist st) node in
  if sr_eq (sr g) dNode (zero (sr g)) then st
  else foldl (trace_edge g node dNode) st (neighbors node g).

Fixpoint trace_rounds (n : nat) g (st : trace_state) : trace_state :=
  match n with
  | O => st
  | S n =>
      let st' := foldl (trace_node g)
                   {| t_dist := t_dist st; t_pred := t_pred st; t_changed := false |} (nodes g) in
      if t_changed st' then trace_rounds n g st' else st'
  end.

Definition init_trace g (source : string) : trace_state := {|
  t_dist := init_dist g source;
  t_pred := foldl (fun p node => jm_set node None p) [] (nodes g);
  t_changed := false |}.

(** The [while] loop; [path] grows at the front. *)
Fixpoint follow (fuel : nat) (pred : jsmap string (option string)) (current : option string)
    (visited path : list string) : list string :=
  match fuel, current with
  | S fuel, Some c =>
      if js_has c visited then path
      else follow fuel pred (mjoin (jm_get c pred)) (js_add c visited) (c :: path)
  | _, _ => path
  end.

Definition optimalPathTrace g (source target : string) : option (T * list string) :=
  let st := trace_rounds (nodeCount g - 1) g (init_trace g source) in
  let value := default (zero (sr g)) (jm_get target (t_dist st)) in
  if strict_eq value (zero (sr g)) && negb (bool_decide (source = target)) then None else
  let path := follow (S (S (nodeCount g))) (t_pred st) (Some target) [] [] in
  match path with
  | p :: _ => if decide (p = source) then Some (value, path) else None
  | [] => None
  end.

(** ** [transitiveClosure] *)

Abbreviation matrix := (list (list T)).

Definition m_get (z : T) (m : matrix) (i j : nat) : T :=
  match m !! i with Some row => match row !! j with Some x => x | None => z end | None => z end.

Definition m_set (m : matrix) (i j : nat) (x : T) : matrix := alter (fun row => <[j := x]> row) i m.

Definition init_matrix g : matrix :=
  let n := length (nodes g) in
  (fun i => (fun j => if decide (i = j) then one (sr g) else zero (sr g)) <$> seq 0 n) <$> seq 0 n.

(** [idx.get(id)!] *)
Definition index_of g (id : string) : nat :=
  match list_find (fun n => n = id) (nodes g) with Some (i, _) => i | None => 0%nat end.

Definition load_edges g (m : matrix) : matrix :=
  foldl (fun m node =>
    let i := index_of g node in
    foldl (fun m e =>
      let j := index_of g e.1 in
      m_set m i j (add (sr g) (m_get (zero (sr g)) m i j) e.2)) m (neighbors node g)) m (nodes g).

Definition closure_step g (k : nat) (m : matrix) (ij : nat * nat) : matrix :=
  let z := zero (sr g) in
  let through_k := mul (sr g) (m_get z m ij.1 k) (m_get z m k ij.2) in
  m_set m ij.1 ij.2 (add (sr g) (m_get z m ij.1 ij.2) through_k).

(** The nested loops over [i] and [j]. *)
Definition index_pairs (n : nat) : list (nat * nat) :=
  mjoin ((fun i => (fun j => (i, j)) <$> seq 0 n) <$> seq 0 n).

Definition floyd_warshall g : matrix :=
  let n := length (nodes g) in
  foldl (fun m k => foldl (closure_step g k) m (index_pairs n))
    (load_edges g (init_matrix g)) (seq 0 n).

Definition transitiveClosure g : jsmap string (jsmap string T) :=
  let m := floyd_warshall g in
  let n := length (nodes g) in
  let name i := default EmptyString (nodes g !! i) in
  foldl (fun result i =>
    jm_set (name i) (foldl (fun row j => jm_set (name j) (m_get (zero (sr g)) m i j) row) [] (seq 0 n))
      result) [] (seq 0 n).
End traversal.

Arguments trace_state : clear implicits.
