(* ===== verification/PathTheory.v ===== *)
(** * Walks, and what relaxation computes

    The values of the walks from a source; the totals of [optimalPaths].  A walk
    is the list of its nodes, last first, and its value multiplies the edge
    weights from the source on, as the relaxation does. *)

From S2P Require Import Prelude JsMap Semiring Digraph Traversal.
Local Open Scope Z_scope.

Inductive walk {T} (g : WeightedDigraph T) (source : string) : list string -> T -> Prop :=
| walk_start : walk g source [source] (one (sr g))
| walk_step u v l x w :
    walk g source (u :: l) x -> edge g u v w -> walk g source (v :: u :: l) (mul (sr g) x w).

(** [x] is the value of some walk to [v]. *)
Definition walk_to {T} (g : WeightedDigraph T) (source v : string) (x : T) : Prop :=
  exists l, walk g source (v :: l) x.

(** The edge weights lie in the semiring's carrier. *)
Definition good_weights {T} (g : WeightedDigraph T) (good : T -> Prop) : Prop :=
  forall u v w, edge g u v w -> good w.

Section paths.
Context {T : Type} `{!StrictEq T} (g : WeightedDigraph T) (source : string) (good : T -> Prop).
Context (L : path_laws (sr g) good) (Hg : digraph_ok g) (Hw : good_weights g good).
Implicit Types (dist : jsmap string T) (v : string) (x : T).

Abbreviation S := (sr g).
Abbreviation le := (sr_le S).
Abbreviation wk := (walk g source).

(** ** Walks *)

Lemma walk_good l x : wk l x -> good x.
Proof.
  induction 1; [apply (good_one _ _ L)|]. apply (good_mul _ _ L); [done|]. by eapply Hw.
Qed.

Lemma walk_to_good v x : walk_to g source v x -> good x.
Proof. intros [l H]. by eapply walk_good. Qed.

(** Cutting a walk back to a node on it does not lose value. *)
Lemma walk_prefix l x v : wk l x -> v ∈ l -> exists l' x', wk (v :: l') x' /\ le x x' /\
  exists m, l = m ++ v :: l'.
Proof.
  induction 1 as [|u v' l x w Hwk IH He]; intros Hv.
  - apply list_elem_of_singleton in Hv as ->. exists [], (one S). split; [constructor|].
    split; [|by exists []]. apply (sr_le_refl _ _ L), (good_one _ _ L).
  - apply elem_of_cons in Hv as [->|Hv].
    + exists (u :: l), (mul S x w). split; [by constructor|]. split; [|by exists []].
      apply (sr_le_refl _ _ L), (good_mul _ _ L); [by eapply walk_good|by eapply Hw].
    + destruct (IH Hv) as (l' & x' & Hwk' & Hle & m & ->). exists l', x'. split; [done|].
      split; [|by exists (v' :: m)]. pose proof (walk_good _ _ Hwk). pose proof (Hw _ _ _ He).
      apply (sr_le_trans _ _ L _ x); try done; [by apply (good_mul _ _ L)|by eapply walk_good|].
      by apply (sr_mul_shrink _ _ L).
Qed.

(** Every walk is no better than a walk without repetition. *)
Lemma walk_simple l x v : wk (v :: l) x -> exists l' x', wk (v :: l') x' /\ NoDup (v :: l') /\ le x x'.
Proof.
  remember (v :: l) as l0 eqn:E. intros Hwk. revert v l E.
  induction Hwk as [|u v' l x w Hwk IH He]; intros v l0 [= -> <-].
  - exists [], (one S). split; [constructor|]. split; [apply NoDup_singleton|].
    apply (sr_le_refl _ _ L), (good_one _ _ L).
  - destruct (IH u l eq_refl) as (l' & x' & Hwk' & Hnd & Hle).
    pose proof (walk_good _ _ Hwk) as Gx. pose proof (walk_good _ _ Hwk') as Gx'.
    pose proof (Hw _ _ _ He) as Gw.
    destruct (decide (v ∈ u :: l')) as [Hin|Hin].
    + destruct (walk_prefix _ _ _ Hwk' Hin) as (l2 & x2 & Hwk2 & Hle2 & m & Hm).
      pose proof (walk_good _ _ Hwk2) as Gx2.
      exists l2, x2. split; [done|]. split.
      * rewrite Hm in Hnd. by apply NoDup_app in Hnd as (_ & _ & Hnd).
      * apply (sr_le_trans _ _ L _ x'); try done; [by apply (good_mul _ _ L)|].
        apply (sr_le_trans _ _ L _ x); try done; [by apply (good_mul _ _ L)|].
        by apply (sr_mul_shrink _ _ L).
    + exists (u :: l'), (mul S x' w). split; [by constructor|]. split; [by apply NoDup_cons|].
      by apply (sr_mul_mono _ _ L).
Qed.

Lemma walk_nodes l x : wk l x -> l = [source] \/ forall v, v ∈ l -> v ∈ nodes g.
Proof.
  induction 1 as [|u v l x w Hwk IH He]; [by left|right].
  destruct (edge_nodes _ _ _ _ Hg He) as [Hu Hv]. destruct IH as [[= -> ->]|IH]; set_solver.
Qed.

(** A walk without repetition has at most [nodeCount - 1] edges. *)
Lemma walk_length v l x : wk (v :: l) x -> NoDup (v :: l) -> (length l <= nodeCount g - 1)%nat.
Proof.
  intros Hwk Hnd. destruct (walk_nodes _ _ Hwk) as [[= _ ->]|Hin]; [cbn; lia|].
  assert (length (v :: l) <= length (nodes g))%nat; [|cbn in *; unfold nodeCount; lia].
  apply submseteq_length, NoDup_submseteq; [done|]. intros u. apply Hin.
Qed.

(** ** The distances *)

Abbreviation D := (dist_get g).

Definition sound dist : Prop := forall v, sum_of S (walk_to g source v) (D dist v).
Definition grows dist dist' : Prop := forall v, le (D dist v) (D dist' v).

Lemma sound_good dist v : sound dist -> good (D dist v).
Proof. intros H. apply (sum_good _ _ L _ _ (walk_to_good v) (H v)). Qed.

Lemma grows_refl dist : sound dist -> grows dist dist.
Proof. intros H v. apply (sr_le_refl _ _ L). by apply sound_good. Qed.

Lemma grows_trans d1 d2 d3 :
  sound d1 -> sound d2 -> sound d3 -> grows d1 d2 -> grows d2 d3 -> grows d1 d3.
Proof.
  intros H1 H2 H3 H12 H23 v.
  apply (sr_le_trans _ _ L _ (D d2 v)); [by apply sound_good..|apply H12|apply H23].
Qed.

Lemma D_set dist u x v : D (jm_set u x dist) v = if decide (v = u) then x else D dist v.
Proof. unfold dist_get. rewrite jm_get_set. by case_decide. Qed.

(** A sum of walk values to [u], extended by an edge. *)
Lemma sum_step u v w x :
  edge g u v w -> sum_of S (walk_to g source u) x -> sum_of S (walk_to g source v) (mul S x w).
Proof.
  intros He. pose proof (Hw _ _ _ He) as Gw. induction 1 as [|x [l Hx]|a b Ha IHa Hb IHb].
  - rewrite (sr_mul_zero _ _ L) by done. apply sum_zero.
  - apply sum_in. exists (u :: l). by constructor.
  - rewrite (sr_mul_add _ _ L); [by apply sum_add| | |done];
      by apply (sum_good _ _ L _ _ (walk_to_good u)).
Qed.

(** One relaxation: what it does to the distances, and that a [changed] flag
    still down means nothing moved. *)
Lemma relax_edge_D dNode dist c e v :
  good dNode -> good e.2 -> (forall v, good (D dist v)) ->
  D (relax_edge g dNode (dist, c) e).1 v
  = if decide (v = e.1) then add S (D dist v) (mul S dNode e.2) else D dist v.
Proof.
  intros Gd Ge Gdist. unfold relax_edge.
  destruct (sr_eq S _ _) eqn:E; cbn [negb fst].
  - apply (sr_eq_spec _ _ L) in E; [|apply (good_add _ _ L); [auto|by apply (good_mul _ _ L)]|auto].
    case_decide; [|done]. by subst.
  - rewrite D_set. case_decide; [by subst|done].
Qed.

Lemma relax_edge_unchanged dNode st e :
  (relax_edge g dNode st e).2 = false -> relax_edge g dNode st e = st /\ st.2 = false.
Proof. destruct st as [dist c]. unfold relax_edge. by destruct (negb _). Qed.

Lemma relax_neighbors_spec u dNode (l : list (string * T)) st :
  (forall e, e ∈ l -> edge g u e.1 e.2) ->
  sum_of S (walk_to g source u) dNode -> sound st.1 ->
  let st' := foldl (relax_edge g dNode) st l in
  sound st'.1 /\ grows st.1 st'.1 /\
  (forall e, e ∈ l -> le (mul S dNode e.2) (D st'.1 e.1)) /\
  (st'.2 = false -> st' = st).
Proof.
  intros Hl Hd. revert st. induction l as [|e l IH]; intros [dist c] Hs; cbn [foldl].
  - split; [done|]. split; [by apply grows_refl|]. split; [set_solver|done].
  - assert (edge g u e.1 e.2) as He by (apply Hl; by left).
    pose proof (Hw _ _ _ He) as Ge. pose proof (sum_good _ _ L _ _ (walk_to_good u) Hd) as Gd.
    assert (good (mul S dNode e.2)) as Gm by by apply (good_mul _ _ L).
    pose proof (fun v => relax_edge_D dNode dist c e v Gd Ge (fun v => sound_good _ v Hs)) as HD.
    pose proof (relax_edge_unchanged dNode (dist, c) e) as Hun.
    destruct (relax_edge g dNode (dist, c) e) as [dist1 c1]. cbn [fst snd] in *.
    assert (sound dist1) as Hs1.
    { intros v. rewrite HD. case_decide; [|apply Hs]. subst v.
      apply sum_add; [apply Hs|]. by apply sum_step with u. }
    destruct (IH (fun e' He' => Hl e' ltac:(by right)) (dist1, c1) Hs1) as (Hs' & Hg' & Hle & Hun').
    cbn [fst snd] in *. split; [done|].
    assert (grows dist dist1) as Hg1.
    { intros v. rewrite HD. case_decide.
      - apply (sr_le_add_l _ _ L); [by apply sound_good|done].
      - apply (sr_le_refl _ _ L). by apply sound_good. }
    split; [by apply (grows_trans dist dist1)|]. split.
    + intros e' [->|He']%elem_of_cons; [|auto].
      apply (sr_le_trans _ _ L _ (D dist1 e.1)); try done; eauto using sound_good.
      rewrite HD, decide_True by done. apply (sr_le_add_r _ _ L); eauto using sound_good.
    + intros Hc. rewrite (Hun' Hc) in Hc |- *. by apply Hun.
Qed.

Lemma relax_node_spec u st :
  sound st.1 ->
  let st' := relax_node g st u in
  sound st'.1 /\ grows st.1 st'.1 /\
  (forall v w, edge g u v w -> le (mul S (D st.1 u) w) (D st'.1 v)) /\
  (st'.2 = false -> st' = st).
Proof.
  intros Hs st'. unfold st', relax_node. destruct (sr_eq S _ _) eqn:E.
  - apply (sr_eq_spec _ _ L) in E; [|by apply sound_good|apply (good_zero _ _ L)].
    split; [done|]. split; [by apply grows_refl|]. split; [|done]. intros v w He.
    rewrite E, (sr_mul_zero _ _ L) by (by eapply Hw). apply (sr_le_zero _ _ L). by apply sound_good.
  - destruct (relax_neighbors_spec u (D st.1 u) (neighbors u g) st) as (H1 & H2 & H3 & H4); try done.
    + intros [v w] He. cbn. apply jm_elem_get; [|done]. by apply neighbors_ok.
    + split; [done|]. split; [done|]. split; [|done]. intros v w He.
      apply (H3 (v, w)). by apply jm_get_elem.
Qed.

Lemma relax_nodes_spec l st :
  sound st.1 ->
  let st' := foldl (relax_node g) st l in
  sound st'.1 /\ grows st.1 st'.1 /\
  (forall u v w, u ∈ l -> edge g u v w -> le (mul S (D st.1 u) w) (D st'.1 v)) /\
  (st'.2 = false -> st' = st).
Proof.
  revert st. induction l as [|u l IH]; intros st Hs; cbn [foldl].
  - split; [done|]. split; [by apply grows_refl|]. split; [set_solver|done].
  - destruct (relax_node_spec u st Hs) as (Hs1 & Hg1 & Hle1 & Hun1).
    destruct (IH (relax_node g st u) Hs1) as (Hs2 & Hg2 & Hle2 & Hun2).
    split; [done|]. split; [by apply (grows_trans _ (relax_node g st u).1)|]. split.
    + intros u' v w Hu He. pose proof (Hw _ _ _ He) as Gw.
      assert (forall dist, sound dist -> good (mul S (D dist u') w)) as Gm
        by (intros dist Hd; apply (good_mul _ _ L); [by apply sound_good|done]).
      apply elem_of_cons in Hu as [->|Hu].
      * apply (sr_le_trans _ _ L _ (D (relax_node g st u).1 v));
          [by apply Gm|by apply sound_good|by apply sound_good|by apply Hle1|apply Hg2].
      * apply (sr_le_trans _ _ L _ (mul S (D (relax_node g st u).1 u') w));
          [by apply Gm|by apply Gm|by apply sound_good| |by apply Hle2].
        apply (sr_mul_mono _ _ L); [by apply sound_good..|done|apply Hg1].
    + intros Hc. rewrite (Hun2 Hc) in Hc |- *. by apply Hun1.
Qed.

(** Every walk of at most [k] edges is matched. *)
Definition covered (k : nat) dist : Prop :=
  forall l v x, wk (v :: l) x -> (length l <= k)%nat -> le x (D dist v).

Lemma round_covers k dist dist' c :
  sound dist -> relax_round g dist = (dist', c) -> covered k dist ->
  sound dist' /\ covered (Datatypes.S k) dist' /\ (c = false -> forall k', covered k' dist').
Proof.
  intros Hs Hr Hk. unfold relax_round in Hr.
  destruct (relax_nodes_spec (nodes g) (dist, false) Hs) as (Hs' & Hgr & Hle & Hun).
  rewrite Hr in *. cbn [fst snd] in *.
  assert (forall k, covered k dist -> covered (Datatypes.S k) dist') as Hstep.
  { intros k' Hk' l v x Hwk Hlen. remember (v :: l) as l0 eqn:E.
    destruct Hwk as [|u v' l1 x w Hwk He].
    - injection E as <- <-.
      apply (sr_le_trans _ _ L _ (D dist source));
        [apply (good_one _ _ L)|by apply sound_good|by apply sound_good| |apply Hgr].
      apply (Hk' []); [constructor|cbn; lia].
    - injection E as <- <-. cbn in Hlen. pose proof (Hw _ _ _ He) as Gw.
      pose proof (walk_good _ _ Hwk) as Gx.
      apply (sr_le_trans _ _ L _ (mul S (D dist u) w)).
      + by apply (good_mul _ _ L).
      + apply (good_mul _ _ L); eauto using sound_good.
      + by apply sound_good.
      + apply (sr_mul_mono _ _ L); eauto using sound_good. apply (Hk' l1); [done|lia].
      + apply Hle; [|done]. by apply (edge_nodes _ _ _ _ Hg He). }
  split; [done|]. split; [by apply Hstep|]. intros -> k'.
  assert (dist' = dist) as -> by (specialize (Hun eq_refl); congruence).
  induction k' as [|k' IH]; [|by apply Hstep]. intros l v x Hwk Hlen. apply (Hk l); [done|lia].
Qed.

Lemma rounds_cover m k dist :
  sound dist -> covered k dist ->
  sound (relax_rounds m g dist) /\ covered (k + m) (relax_rounds m g dist).
Proof.
  revert k dist. induction m as [|m IH]; intros k dist Hs Hk; cbn [relax_rounds].
  - by rewrite Nat.add_0_r.
  - destruct (relax_round g dist) as [dist' c] eqn:Hr.
    destruct (round_covers k dist dist' c Hs Hr Hk) as (Hs' & Hk' & Hall). destruct c.
    + rewrite <- Nat.add_succ_comm. by apply IH.
    + split; [done|]. by apply Hall.
Qed.

Lemma init_dist_D v : D (init_dist g source) v = if decide (v = source) then one S else zero S.
Proof.
  unfold init_dist. rewrite D_set. case_decide; [done|].
  assert (forall l d, (forall v, D d v = zero S) ->
    D (foldl (fun d node => jm_set node (zero S) d) d l) v = zero S) as H0.
  { induction l as [|n l IH]; intros d Hd; cbn [foldl]; [done|]. apply IH. intros v'.
    rewrite D_set. by case_decide. }
  by apply H0.
Qed.

Lemma init_sound : sound (init_dist g source).
Proof.
  intros v. rewrite init_dist_D. case_decide as E; [|apply sum_zero]. subst. apply sum_in. exists [].
  constructor.
Qed.

Lemma init_covered : covered 0 (init_dist g source).
Proof.
  intros [|u l] v x Hwk Hlen; [|cbn in Hlen; lia].
  assert (v = source /\ x = one S) as [-> ->] by (by inversion Hwk).
  rewrite init_dist_D, decide_True by done. apply (sr_le_refl _ _ L), (good_one _ _ L).
Qed.

(** What the relaxation ends with. *)
Lemma optimalPaths_total v :
  is_total S (walk_to g source v) (D (optimalPaths g source) v) /\ good (D (optimalPaths g source) v).
Proof.
  destruct (rounds_cover (nodeCount g - 1) 0 (init_dist g source) init_sound init_covered)
    as [Hs Hc]. fold (optimalPaths g source) in Hs, Hc.
  split; [|by apply sound_good]. split; [apply Hs|]. intros x [l Hwk].
  destruct (walk_simple _ _ _ Hwk) as (l' & x' & Hwk' & Hnd & Hle).
  eapply (sr_le_trans _ _ L); [by eapply walk_good|by eapply walk_good|by apply sound_good|exact Hle|].
  apply (Hc l'); [done|]. by eapply walk_length.
Qed.
End paths.
