(* ===== verification/TraceTheory.v ===== *)
(** * Predecessors: the path [optimalPathTrace] reconstructs

    For a semiring whose [add] selects one of its arguments, the predecessor map
    always chains every reached node back to the source without a cycle, and at
    the end the chain's value is the node's distance. *)

From S2P Require Import Prelude JsMap Semiring Digraph Traversal PathTheory.
Local Open Scope Z_scope.

Definition pred_of (pred : jsmap string (option string)) (v : string) : option string :=
  mjoin (jm_get v pred).

(** The chain of predecessors from [v] to the source. *)
Inductive pchain (source : string) (pred : jsmap string (option string))
    : string -> list string -> Prop :=
| pc_source : pchain source pred source [source]
| pc_step v u l :
    v <> source -> pred_of pred v = Some u -> pchain source pred u l ->
    pchain source pred v (v :: l).

Section chains.
Context (source : string) (pred : jsmap string (option string)).
Abbreviation chain := (pchain source pred).

Lemma chain_head v l : chain v l -> exists l', l = v :: l'.
Proof. destruct 1; eauto. Qed.

Lemma chain_unique v l l' : chain v l -> chain v l' -> l = l'.
Proof.
  intros H. revert l'. induction H as [|v u l Hne Hp H IH]; intros l' H'; inversion H'; subst; try done.
  f_equal. apply IH. congruence.
Qed.

Lemma chain_suffix v l y : chain v l -> y ∈ l -> exists m l', l = m ++ l' /\ chain y l'.
Proof.
  induction 1 as [|v u l Hne Hp H IH]; intros Hy.
  - apply list_elem_of_singleton in Hy as ->. exists [], [source]. split; [done|constructor].
  - apply elem_of_cons in Hy as [->|Hy].
    + exists [], (v :: l). split; [done|by econstructor].
    + destruct (IH Hy) as (m & l' & -> & H'). by exists (v :: m), l'.
Qed.

Lemma chain_nodup v l : chain v l -> NoDup l.
Proof.
  induction 1 as [|v u l Hne Hp H IH]; [apply NoDup_singleton|]. apply NoDup_cons. split; [|done].
  intros Hin. destruct (chain_suffix u l v H Hin) as (m & l' & -> & H').
  assert (v :: m ++ l' = l') as E by (by apply (chain_unique v); [econstructor|]).
  apply (f_equal length) in E. cbn in E. rewrite length_app in E. lia.
Qed.

(** Rerouting one node leaves every node with a chain. *)
Lemma chain_reroute v0 u0 v l :
  (exists l0, pchain source (jm_set v0 (Some u0) pred) v0 l0) -> chain v l ->
  exists l', pchain source (jm_set v0 (Some u0) pred) v l'.
Proof.
  intros H0. induction 1 as [|v u l Hne Hp H IH]; [eexists; constructor|].
  destruct (decide (v = v0)) as [->|Hv]; [done|]. destruct IH as [l' Hl'].
  exists (v :: l'). apply pc_step with u; [done| |done].
  unfold pred_of. by rewrite jm_get_set_ne.
Qed.

Lemma chain_avoid v0 u0 v l :
  chain v l -> v0 ∉ l -> pchain source (jm_set v0 (Some u0) pred) v l.
Proof.
  induction 1 as [|v u l Hne Hp H IH]; [constructor|]. intros [Hv Hl]%not_elem_of_cons.
  apply pc_step with u; [done| |auto]. unfold pred_of. by rewrite jm_get_set_ne.
Qed.

(** The tracing loop returns the chain. *)
Lemma follow_chain fuel v l visited path :
  chain v l -> pred_of pred source = None -> (length l <= fuel)%nat ->
  (forall y, y ∈ l -> y ∉ visited) -> NoDup l ->
  follow fuel pred (Some v) visited path = reverse l ++ path.
Proof.
  intros H Hsrc. revert fuel visited path.
  induction H as [|v u l Hne Hp H IH]; intros fuel visited path Hf Hvis Hnd;
    (destruct fuel as [|fuel]; [cbn in Hf; lia|]); cbn [follow];
    unfold js_has; rewrite bool_decide_eq_false_2 by (apply Hvis; by left).
  - fold (pred_of pred source). rewrite Hsrc. by destruct fuel.
  - fold (pred_of pred v). rewrite Hp. apply NoDup_cons in Hnd as [Hv Hnd].
    rewrite IH; [by rewrite reverse_cons, <- app_assoc|cbn in Hf; lia| |done].
    intros y Hy. rewrite js_add_elem. intros [->|Hin]; [done|]. apply (Hvis y); [by right|done].
Qed.
End chains.

Section trace.
Context {T : Type} `{!StrictEq T} (g : WeightedDigraph T) (source : string) (good : T -> Prop).
Context (L : path_laws (sr g) good) (Hg : digraph_ok g) (Hw : good_weights g good).
Context (Hsel : selective (sr g) good).
Implicit Types (dist : jsmap string T) (pred : jsmap string (option string)) (v u : string).

Abbreviation S := (sr g).
Abbreviation le := (sr_le S).
Abbreviation D := (dist_get g).
Abbreviation snd_ := (sound g source).

Lemma walk_le_one l x : walk g source l x -> le x (one S).
Proof.
  pose proof (good_one _ _ L) as G1.
  induction 1 as [|u v l x w Hwk IH He]; [by apply (sr_le_refl _ _ L)|].
  pose proof (walk_good g source good L Hw _ _ Hwk) as Gx. pose proof (Hw _ _ _ He) as Gw.
  apply (sr_le_trans _ _ L _ x); try done; [by apply (good_mul _ _ L)|].
  by apply (sr_mul_shrink _ _ L).
Qed.

Lemma dist_le_one dist v : snd_ dist -> le (D dist v) (one S).
Proof.
  intros Hs. apply (sum_le S good L (walk_to g source v)).
  - apply (walk_to_good g source good L Hw).
  - apply (good_one _ _ L).
  - intros x [l Hx]. by eapply walk_le_one.
  - apply Hs.
Qed.

Record trace_ok dist pred : Prop := {
  to_sound : snd_ dist;
  to_source : D dist source = one S;
  to_root : pred_of pred source = None;
  to_edge : forall v u, pred_of pred v = Some u ->
    exists w, edge g u v w /\ le (D dist v) (mul S (D dist u) w);
  to_chain : forall v, D dist v <> zero S -> exists l, pchain source pred v l;
}.

(** Along a chain distances only improve. *)
Lemma chain_improves dist pred v l :
  trace_ok dist pred -> pchain source pred v l -> forall y, y ∈ l -> le (D dist v) (D dist y).
Proof.
  intros Hok. pose proof (fun v => sound_good g source good L Hw _ v (to_sound _ _ Hok)) as G.
  induction 1 as [|v u l Hne Hp H IH]; intros y Hy.
  - apply list_elem_of_singleton in Hy as ->. by apply (sr_le_refl _ _ L).
  - apply elem_of_cons in Hy as [->|Hy]; [by apply (sr_le_refl _ _ L)|].
    destruct (to_edge _ _ Hok v u Hp) as (w & He & Hle). pose proof (Hw _ _ _ He) as Gw.
    apply (sr_le_trans _ _ L _ (D dist u)); [done..| |by apply IH].
    apply (sr_le_trans _ _ L _ (mul S (D dist u) w)); [done|by apply (good_mul _ _ L)|done..|].
    by apply (sr_mul_shrink _ _ L).
Qed.

(** One relaxation that changes something keeps the predecessors right. *)
Lemma trace_update dist pred u v w dNode :
  trace_ok dist pred -> edge g u v w ->
  sum_of S (walk_to g source u) dNode -> dNode <> zero S -> le dNode (D dist u) ->
  add S (D dist v) (mul S dNode w) <> D dist v ->
  trace_ok (jm_set v (add S (D dist v) (mul S dNode w)) dist) (jm_set v (Some u) pred).
Proof.
  intros Hok He Hsum Hnz Hle Hch. pose proof Hok as [Hs Hsrc Hroot Hedge Hchain].
  pose proof (fun v => sound_good g source good L Hw _ v Hs) as G.
  pose proof (Hw _ _ _ He) as Gw.
  pose proof (sum_good S good L _ _ (walk_to_good g source good L Hw u) Hsum) as Gd.
  assert (good (mul S dNode w)) as Gm by by apply (good_mul _ _ L).
  set (c := mul S dNode w) in *.
  assert (add S (D dist v) c = c) as Hc by (destruct (Hsel (D dist v) c (G v) Gm); congruence).
  rewrite Hc in *.
  assert (le c dNode) as Hcd by (by apply (sr_mul_shrink _ _ L)).
  assert (le c (D dist u)) as Hcu by (by apply (sr_le_trans _ _ L _ dNode)).
  assert (forall y, le c (D dist y) -> y <> v) as Hstrict.
  { intros y Hy ->. apply Hch. by apply (sr_le_antisym _ _ L). }
  assert (v <> source) as Hvs.
  { intros ->. apply (Hstrict source); [|done]. rewrite Hsrc.
    apply (sr_le_trans _ _ L _ (D dist u)); try done; [apply (good_one _ _ L)|by apply dist_le_one]. }
  assert (forall y, D (jm_set v c dist) y = if decide (y = v) then c else D dist y) as HD
    by (intros; apply D_set).
  assert (forall y, le (D dist y) (D (jm_set v c dist) y)) as Hgr.
  { intros y. rewrite HD. case_decide; [by subst|]. by apply (sr_le_refl _ _ L). }
  assert (D dist u <> zero S) as Hunz.
  { intros E. apply Hnz. apply (sr_le_antisym _ _ L); [done|apply (good_zero _ _ L)|by rewrite <- E|].
    by apply (sr_le_zero _ _ L). }
  split.
  - intros y. rewrite HD. case_decide; [|apply Hs]. subst y. by apply (sum_step g source good L Hw u).
  - by rewrite HD, decide_False.
  - unfold pred_of. rewrite jm_get_set_ne by done. exact Hroot.
  - intros y x. unfold pred_of. rewrite jm_get_set. destruct (decide (y = v)) as [->|Hy].
    + intros [= <-]. exists w. split; [done|]. rewrite HD, decide_True by done.
      apply (sr_mul_mono _ _ L); [done| |done|].
      * rewrite HD. by case_decide.
      * apply (sr_le_trans _ _ L _ (D dist u)); try done. rewrite HD. by case_decide.
    + fold (pred_of pred y). intros Hp. destruct (Hedge y x Hp) as (w' & He' & Hle').
      exists w'. split; [done|]. rewrite (HD y), decide_False by done.
      pose proof (Hw _ _ _ He') as Gw'.
      assert (good (D (jm_set v c dist) x)) as Gx by (rewrite HD; by case_decide).
      apply (sr_le_trans _ _ L _ (mul S (D dist x) w')); try done;
        [by apply (good_mul _ _ L)|by apply (good_mul _ _ L)|].
      by apply (sr_mul_mono _ _ L).
  - assert (exists l0, pchain source (jm_set v (Some u) pred) v l0) as H0.
    { destruct (Hchain u Hunz) as [l Hl].
      assert (v ∉ l) as Hvl.
      { intros Hin. apply (Hstrict v); [|done].
        apply (sr_le_trans _ _ L _ (D dist u)); try done. by apply (chain_improves dist pred u l). }
      exists (v :: l). apply pc_step with u; [done| |by apply chain_avoid].
      unfold pred_of. by rewrite jm_get_set_eq. }
    intros y. rewrite HD. destruct (decide (y = v)) as [->|Hy]; [done|]. intros Hyz.
    destruct (Hchain y Hyz) as [l Hl]. by apply (chain_reroute source pred v u y l).
Qed.

(** The distances of the trace are those of [optimalPaths]. *)
Definition dist_part (st : trace_state T) : jsmap string T * bool := (t_dist st, t_changed st).

Lemma trace_edge_dist u dNode st e :
  dist_part (trace_edge g u dNode st e) = relax_edge g dNode (dist_part st) e.
Proof. unfold trace_edge, relax_edge, dist_part. by destruct (negb _). Qed.

Lemma trace_node_dist st u : dist_part (trace_node g st u) = relax_node g (dist_part st) u.
Proof.
  unfold trace_node, relax_node. cbn [dist_part fst]. destruct (sr_eq _ _ _); [done|].
  generalize (D (t_dist st) u) as dN, (neighbors u g) as l. intros dN l. revert st.
  induction l as [|e l IH]; intros st; [done|]. cbn [foldl]. by rewrite IH, trace_edge_dist.
Qed.

Lemma trace_rounds_dist n st :
  t_dist (trace_rounds n g st) = relax_rounds n g (t_dist st).
Proof.
  revert st. induction n as [|n IH]; intros st; [done|]. cbn [trace_rounds relax_rounds].
  unfold relax_round.
  assert (forall l st, dist_part (foldl (trace_node g) st l) = foldl (relax_node g) (dist_part st) l)
    as H.
  { induction l as [|u l IHl]; intros st'; [done|]. cbn [foldl]. by rewrite IHl, trace_node_dist. }
  specialize (H (nodes g) {| t_dist := t_dist st; t_pred := t_pred st; t_changed := false |}).
  change (dist_part {| t_dist := t_dist st; t_pred := t_pred st; t_changed := false |})
    with (t_dist st, false) in H. rewrite <- H. unfold dist_part.
  destruct (t_changed _); [apply IH|done].
Qed.

Definition st_ok (st : trace_state T) : Prop := trace_ok (t_dist st) (t_pred st).

Lemma trace_neighbors_ok u dNode (l : list (string * T)) st :
  (forall e, e ∈ l -> edge g u e.1 e.2) ->
  sum_of S (walk_to g source u) dNode -> dNode <> zero S ->
  st_ok st -> le dNode (D (t_dist st) u) ->
  st_ok (foldl (trace_edge g u dNode) st l).
Proof.
  intros Hl Hsum Hnz. revert st. induction l as [|e l IH]; intros st Hok Hle; [done|]. cbn [foldl].
  assert (edge g u e.1 e.2) as He by (apply Hl; by left).
  pose proof (sum_good S good L _ _ (walk_to_good g source good L Hw u) Hsum) as Gd.
  pose proof (fun v => sound_good g source good L Hw _ v (to_sound _ _ Hok)) as G.
  pose proof (Hw _ _ _ He) as Gw.
  assert (good (mul S dNode e.2)) as Gm by by apply (good_mul _ _ L).
  unfold trace_edge. destruct (sr_eq S _ _) eqn:E; cbn [negb].
  - apply IH; [intros; apply Hl; by right|done|done].
  - assert (add S (D (t_dist st) e.1) (mul S dNode e.2) <> D (t_dist st) e.1) as Hch.
    { intros Heq. assert (sr_eq S (add S (D (t_dist st) e.1) (mul S dNode e.2)) (D (t_dist st) e.1)
        = true); [|congruence].
      apply (sr_eq_spec _ _ L); [by apply (good_add _ _ L)|done|done]. }
    apply IH; [intros; apply Hl; by right| |].
    + by apply (trace_update _ _ u e.1 e.2 dNode).
    + cbn [t_dist]. apply (sr_le_trans _ _ L _ (D (t_dist st) u)); try done.
      * rewrite D_set. case_decide; [by apply (good_add _ _ L)|done].
      * rewrite D_set. case_decide as Eu; [|by apply (sr_le_refl _ _ L)]. rewrite Eu.
        by apply (sr_le_add_l _ _ L).
Qed.

Lemma trace_node_ok u st : st_ok st -> st_ok (trace_node g st u).
Proof.
  intros Hok. unfold trace_node. destruct (sr_eq S _ _) eqn:E; [done|].
  pose proof (fun v => sound_good g source good L Hw _ v (to_sound _ _ Hok)) as G.
  apply trace_neighbors_ok; [|by apply to_sound with (t_pred st)| |done|by apply (sr_le_refl _ _ L)].
  - intros [v w] He. cbn. apply jm_elem_get; [|done]. by apply neighbors_ok.
  - intros Hz. assert (sr_eq S (D (t_dist st) u) (zero S) = true); [|congruence].
    apply (sr_eq_spec _ _ L); [done|apply (good_zero _ _ L)|done].
Qed.

Lemma trace_rounds_ok n st : st_ok st -> st_ok (trace_rounds n g st).
Proof.
  revert st. induction n as [|n IH]; intros st Hok; [done|]. cbn [trace_rounds].
  assert (forall l st, st_ok st -> st_ok (foldl (trace_node g) st l)) as H.
  { induction l as [|u l IHl]; intros st' Hst'; [done|]. cbn [foldl]. apply IHl. by apply trace_node_ok. }
  specialize (H (nodes g) {| t_dist := t_dist st; t_pred := t_pred st; t_changed := false |} Hok).
  destruct (t_changed _); [by apply IH|done].
Qed.

Lemma init_trace_ok : st_ok (init_trace g source).
Proof.
  assert (forall l (p : jsmap string (option string)),
    (forall v, pred_of p v = None) ->
    forall v, pred_of (foldl (fun p node => jm_set node None p) p l) v = None) as Hp.
  { induction l as [|n l IH]; intros p Hp; cbn [foldl]; [done|]. apply IH. intros v.
    unfold pred_of. rewrite jm_get_set. case_decide; [done|apply Hp]. }
  specialize (Hp (nodes g) [] (fun _ => eq_refl)).
  split; cbn [init_trace t_dist t_pred].
  - apply init_sound.
  - rewrite (init_dist_D g source). by rewrite decide_True.
  - apply Hp.
  - intros v u Hv. rewrite Hp in Hv. done.
  - intros v. rewrite (init_dist_D g source). case_decide as E; [|done]. subst. intros _. eexists. constructor.
Qed.

(** The final state. *)
Definition final_trace : trace_state T := trace_rounds (nodeCount g - 1) g (init_trace g source).

Lemma final_trace_dist : t_dist final_trace = optimalPaths g source.
Proof. apply trace_rounds_dist. Qed.

Lemma chain_walk v l :
  pchain source (t_pred final_trace) v l -> walk g source l (D (optimalPaths g source) v).
Proof.
  pose proof (trace_rounds_ok (nodeCount g - 1) _ init_trace_ok) as Hok.
  fold final_trace in Hok. unfold st_ok in Hok. rewrite final_trace_dist in Hok.
  assert (forall v, is_total S (walk_to g source v) (D (optimalPaths g source) v) /\
    good (D (optimalPaths g source) v)) as Htot
    by (intros; by apply (optimalPaths_total g source good L Hg Hw)).
  induction 1 as [|v u l Hne Hp H IH].
  - rewrite (to_source _ _ Hok). constructor.
  - destruct (to_edge _ _ Hok v u Hp) as (w & He & Hle). pose proof (Hw _ _ _ He) as Gw.
    destruct (chain_head _ _ _ _ H) as [l' ->].
    assert (D (optimalPaths g source) v = mul S (D (optimalPaths g source) u) w) as ->;
      [|by constructor].
    destruct (Htot v) as [[_ Hmax] Gv], (Htot u) as [[Hsum _] Gu].
    apply (sr_le_antisym _ _ L); [done|by apply (good_mul _ _ L)|done|].
    apply Hmax. exists (u :: l'). by constructor.
Qed.

Lemma trace_result target :
  eq_opt S = None ->
  match optimalPathTrace g source target with
  | Some (value, path) =>
      walk g source (reverse path) value /\ NoDup path /\
      head path = Some source /\ last path = Some target /\
      is_total S (walk_to g source target) value
  | None => source <> target /\ forall x, walk_to g source target x -> x = zero S
  end.
Proof.
  intros Heq. unfold optimalPathTrace. fold final_trace. rewrite final_trace_dist.
  fold (dist_get g (optimalPaths g source) target).
  set (value := D (optimalPaths g source) target).
  destruct (optimalPaths_total g source good L Hg Hw target) as [Htot Gv]. fold value in Htot, Gv.
  assert (strict_eq value (zero S) = true <-> value = zero S) as Hseq.
  { rewrite <- (sr_eq_spec _ _ L value (zero S) Gv (good_zero _ _ L)). unfold sr_eq. by rewrite Heq. }
  destruct (strict_eq value (zero S) && negb (bool_decide (source = target))) eqn:E.
  - apply andb_true_iff in E as [Ez Ent]. apply Hseq in Ez.
    apply negb_true_iff, bool_decide_eq_false in Ent. split; [done|]. intros x Hx.
    pose proof (walk_to_good g source good L Hw _ _ Hx) as Gx.
    apply (sr_le_antisym _ _ L); [done|apply (good_zero _ _ L)|rewrite <- Ez; by apply Htot|].
    by apply (sr_le_zero _ _ L).
  - pose proof (trace_rounds_ok (nodeCount g - 1) _ init_trace_ok) as Hok.
    fold final_trace in Hok. unfold st_ok in Hok. rewrite final_trace_dist in Hok.
    assert (exists l, pchain source (t_pred final_trace) target l) as [l Hl].
    { apply andb_false_iff in E as [E|E].
      - apply (to_chain _ _ Hok). intros Ez. apply Hseq in Ez. congruence.
      - apply negb_false_iff, bool_decide_eq_true in E as <-. eexists. constructor. }
    pose proof (chain_walk target l Hl) as Hwk. fold value in Hwk.
    pose proof (chain_nodup _ _ _ _ Hl) as Hnd. destruct (chain_head _ _ _ _ Hl) as [l' El].
    rewrite (follow_chain source (t_pred final_trace) _ target l [] []);
      [|done|apply (to_root _ _ Hok)| |set_solver|done].
    2:{ rewrite El in Hwk, Hnd |- *. assert (length l' <= nodeCount g - 1)%nat by (by eapply walk_length). cbn. lia. }
    rewrite app_nil_r.
    assert (last l = Some source) as Hlast.
    { clear -Hl. induction Hl as [|v u l Hne Hp H IH]; [done|].
      destruct (chain_head _ _ _ _ H) as [l' ->]. exact IH. }
    assert (exists p, reverse l = source :: p) as [p Hp].
    { apply last_Some in Hlast as [m ->]. rewrite reverse_app. by eexists. }
    rewrite Hp, decide_True by done. rewrite <- Hp. rewrite reverse_involutive.
    split; [done|]. split; [by rewrite reverse_Permutation|]. split; [by rewrite Hp|].
    split; [|done]. by rewrite El, last_reverse.
Qed.
End trace.
