(* ===== verification/ClosureTheory.v ===== *)
(** * What the all-pairs closure computes

    The generalized Floyd-Warshall loops, in place: the matrix stays a sum of
    walk values, only grows, and after phase [k] it is at least every walk
    without repetition whose inner nodes are among the first [k]. *)

From S2P Require Import Prelude JsMap Semiring Digraph Traversal PathTheory.
Local Open Scope Z_scope.

Section closure.
Context {T : Type} `{!StrictEq T} (g : WeightedDigraph T) (good : T -> Prop).
Context (CL : closure_laws (sr g) good) (Hg : digraph_ok g) (Hw : good_weights g good).
Implicit Types (m : list (list T)) (i j k : nat) (x : T) (s u v : string).

Abbreviation S := (sr g).
Abbreviation le := (sr_le S).
Abbreviation n := (length (nodes g)).
Abbreviation get := (m_get (zero S)).
Abbreviation W := (walk_to g).

Lemma closure_path : path_laws S good.
Proof. apply (cl_path _ _ CL). Qed.

Definition nd i : string := default EmptyString (nodes g !! i).

Lemma mul_mono_r a b c : good a -> good b -> good c -> le b c -> le (mul S a b) (mul S a c).
Proof. unfold sr_le. intros Ha Hb Hc H. by rewrite <- (sr_mul_add_r _ _ CL), H. Qed.

Lemma walk_source s l x : walk g s l x -> exists p, l = p ++ [s].
Proof.
  induction 1 as [|u v l x w Hwk [p IH] He]; [by exists []|]. exists (v :: p). cbn. by rewrite IH.
Qed.

(** ** Joining and splitting walks *)

Lemma walk_join s u v p1 p2 x1 x2 :
  walk g s (u :: p2) x1 -> walk g u (v :: p1) x2 ->
  exists l, walk g s (v :: l) (mul S x1 x2).
Proof.
  intros H1. remember (v :: p1) as l eqn:E. intros H2. revert v p1 E.
  induction H2 as [|u' v' l x w Hwk IH He]; intros v p1 [= <- <-].
  - exists p2. rewrite (sr_mul_one_r _ _ CL); [done|]. by eapply walk_good; [apply closure_path|..].
  - destruct (IH u' l eq_refl) as [l' Hl']. exists (u' :: l').
    rewrite (sr_mul_assoc _ _ CL); [by constructor|..|by eapply Hw];
      by eapply walk_good; [apply closure_path|..].
Qed.

Lemma walk_split s u p1 p2 x :
  walk g s (p1 ++ u :: p2) x ->
  exists x1 x2, walk g s (u :: p2) x1 /\ walk g u (p1 ++ [u]) x2 /\ x = mul S x1 x2.
Proof.
  remember (p1 ++ u :: p2) as l eqn:E. intros H. revert p1 E.
  induction H as [|u' v' l x w Hwk IH He]; intros p1 E.
  - destruct p1 as [|a p1]; [|by destruct p1]. injection E as <- <-.
    exists (one S), (one S). split; [constructor|]. split; [constructor|].
    rewrite (sr_mul_one_r _ _ CL); [done|]. apply (good_one _ _ closure_path).
  - destruct p1 as [|a p1].
    + injection E as <- <-. exists (mul S x w), (one S). split; [by constructor|].
      split; [constructor|]. rewrite (sr_mul_one_r _ _ CL); [done|].
      apply (good_mul _ _ closure_path); [|by eapply Hw].
      by eapply walk_good; [apply closure_path|..].
    + injection E as <- E. destruct (IH p1 E) as (x1 & x2 & H1 & H2 & ->).
      exists x1, (mul S x2 w). split; [done|]. split.
      * destruct p1 as [|b p1]; cbn in *; [injection E as <- <-; by constructor|].
        injection E as <- ->. by constructor.
      * symmetry. apply (sr_mul_assoc _ _ CL); [..|by eapply Hw];
          by eapply walk_good; [apply closure_path|..].
Qed.

Lemma W_good s v x : W s v x -> good x.
Proof. apply (walk_to_good g s good closure_path Hw). Qed.

Lemma W_sum_good s v x : sum_of S (W s v) x -> good x.
Proof. apply (sum_good S good closure_path). apply W_good. Qed.

Lemma sum_join s u v a b :
  sum_of S (W s u) a -> sum_of S (W u v) b -> sum_of S (W s v) (mul S a b).
Proof.
  intros Ha Hb. induction Ha as [|a [p2 Ha]|a1 a2 Ha1 IH1 Ha2 IH2].
  - rewrite (sr_mul_zero _ _ closure_path); [constructor|by eapply W_sum_good].
  - assert (good a) as Ga by (by apply (W_good s u); exists p2).
    induction Hb as [|b [p1 Hb]|b1 b2 Hb1 IH1 Hb2 IH2].
    + rewrite (sr_mul_zero_r _ _ CL); [constructor|done].
    + apply sum_in. by apply (walk_join s u v p1 p2).
    + rewrite (sr_mul_add_r _ _ CL); [by apply sum_add|done|by eapply W_sum_good..].
  - rewrite (sr_mul_add _ _ closure_path); [by apply sum_add|by eapply W_sum_good..].
Qed.

(** ** The matrix *)

Definition shape m : Prop := length m = n /\ forall row, row ∈ m -> length row = n.

Definition msound m : Prop :=
  forall i j, (i < n)%nat -> (j < n)%nat -> sum_of S (W (nd i) (nd j)) (get m i j).

Definition mgrows m m' : Prop :=
  forall i j, (i < n)%nat -> (j < n)%nat -> le (get m i j) (get m' i j).

Lemma get_set m i j x i' j' :
  shape m -> (i < n)%nat -> (j < n)%nat ->
  get (m_set m i j x) i' j' = if decide (i' = i /\ j' = j) then x else get m i' j'.
Proof.
  intros [Hl Hr] Hi Hj. unfold m_get, m_set.
  destruct (lookup_lt_is_Some_2 m i) as [row Hrow]; [by rewrite Hl|].
  assert (length row = n) as Hlr by (apply Hr; by eapply list_elem_of_lookup_2).
  destruct (decide (i' = i)) as [->|Hne].
  - rewrite list_lookup_alter_eq, Hrow. cbn. destruct (decide (j' = j)) as [->|Hj'].
    + rewrite list_lookup_insert_eq by (by rewrite Hlr). by rewrite decide_True.
    + rewrite list_lookup_insert_ne by done. by rewrite decide_False by (by intros [_ ?]).
  - rewrite list_lookup_alter_ne by done. by rewrite decide_False by (by intros [? _]).
Qed.

Lemma shape_set m i j x : shape m -> shape (m_set m i j x).
Proof.
  intros [Hl Hr]. unfold m_set. split; [by rewrite length_alter|].
  intros row Hrow. apply list_elem_of_lookup in Hrow as [i' Hi'].
  destruct (decide (i' = i)) as [->|Hne].
  - rewrite list_lookup_alter_eq in Hi'. destruct (m !! i) as [row0|] eqn:E; [|done].
    cbn in Hi'. injection Hi' as <-. rewrite length_insert. apply Hr. by eapply list_elem_of_lookup_2.
  - rewrite list_lookup_alter_ne in Hi' by done. apply Hr. by eapply list_elem_of_lookup_2.
Qed.

Lemma msound_good m i j : msound m -> (i < n)%nat -> (j < n)%nat -> good (get m i j).
Proof. intros Hs Hi Hj. eapply W_sum_good. by apply Hs. Qed.

Lemma mgrows_refl m : msound m -> mgrows m m.
Proof. intros Hs i j Hi Hj. apply (sr_le_refl _ _ closure_path). by apply msound_good. Qed.

Lemma mgrows_trans m1 m2 m3 :
  msound m1 -> msound m2 -> msound m3 -> mgrows m1 m2 -> mgrows m2 m3 -> mgrows m1 m3.
Proof.
  intros H1 H2 H3 H12 H23 i j Hi Hj.
  apply (sr_le_trans _ _ closure_path _ (get m2 i j)); auto using msound_good.
Qed.

Definition good_matrix m : Prop := shape m /\ msound m.

(** One assignment [dist[i][j] = add(dist[i][j], x)]. *)
Lemma matrix_step m i j x :
  good_matrix m -> (i < n)%nat -> (j < n)%nat -> sum_of S (W (nd i) (nd j)) x ->
  let m' := m_set m i j (add S (get m i j) x) in
  good_matrix m' /\ mgrows m m' /\ le x (get m' i j).
Proof.
  intros [Hsh Hs] Hi Hj Hx m'. pose proof (W_sum_good _ _ _ Hx) as Gx.
  assert (forall i' j', get m' i' j' = if decide (i' = i /\ j' = j) then add S (get m i j) x
    else get m i' j') as Hget by (intros; by apply get_set).
  split; [split|split].
  - by apply shape_set.
  - intros i' j' Hi' Hj'. rewrite Hget. case_decide as E; [|by apply Hs]. destruct E as [-> ->].
    apply sum_add; [by apply Hs|done].
  - intros i' j' Hi' Hj'. rewrite Hget. case_decide as E.
    + destruct E as [-> ->]. apply (sr_le_add_l _ _ closure_path); [by apply msound_good|done].
    + apply (sr_le_refl _ _ closure_path). by apply msound_good.
  - rewrite Hget, decide_True by done. apply (sr_le_add_r _ _ closure_path); [by apply msound_good|done].
Qed.

(** A loop of such assignments, from [m0] on. *)
Lemma matrix_fold {A} (step : list (list T) -> A -> list (list T)) (Q : A -> list (list T) -> Prop)
    (l : list A) m0 :
  (forall m m' a, a ∈ l -> good_matrix m -> good_matrix m' -> mgrows m m' -> Q a m -> Q a m') ->
  (forall m a, a ∈ l -> good_matrix m -> mgrows m0 m ->
    good_matrix (step m a) /\ mgrows m (step m a) /\ Q a (step m a)) ->
  good_matrix m0 ->
  good_matrix (foldl step m0 l) /\ mgrows m0 (foldl step m0 l) /\
  forall a, a ∈ l -> Q a (foldl step m0 l).
Proof.
  intros HQ Hstep H0.
  assert (forall l' m, (forall a, a ∈ l' -> a ∈ l) -> good_matrix m -> mgrows m0 m ->
    good_matrix (foldl step m l') /\ mgrows m (foldl step m l') /\
    mgrows m0 (foldl step m l') /\ forall a, a ∈ l' -> Q a (foldl step m l')) as H.
  { induction l' as [|a l' IH]; intros m Hl Hm Hgr; cbn [foldl].
    - repeat split; try done; try apply Hm; [by apply mgrows_refl, Hm|set_solver].
    - destruct (Hstep m a) as (H1 & H2 & H3); [apply Hl; by left|done|done|].
      assert (mgrows m0 (step m a)) as H03
        by (apply (mgrows_trans m0 m); try apply H0; try apply Hm; try apply H1; done).
      destruct (IH (step m a)) as (H4 & H5 & H6 & H7); [intros; apply Hl; by right|done|done|].
      split; [done|]. split; [|split; [done|]].
      + by apply (mgrows_trans m (step m a)); try apply Hm; try apply H1; try apply H4.
      + intros b [->|Hb]%elem_of_cons; [|auto].
        apply (HQ (step m a)); [apply Hl; by left|done..]. }
  destruct (H l m0) as (H1 & _ & H3 & H4); [done|done|by apply mgrows_refl, H0|done].
Qed.

Lemma le_grows x m m' i j :
  good x -> good_matrix m -> good_matrix m' -> (i < n)%nat -> (j < n)%nat ->
  mgrows m m' -> le x (get m i j) -> le x (get m' i j).
Proof.
  intros Gx [_ Hs] [_ Hs'] Hi Hj Hgr Hle.
  apply (sr_le_trans _ _ closure_path _ (get m i j)); auto using msound_good.
Qed.

(** ** Loading *)

Lemma get_init i j : (i < n)%nat -> (j < n)%nat ->
  get (init_matrix g) i j = if decide (i = j) then one S else zero S.
Proof.
  intros Hi Hj. unfold m_get, init_matrix.
  rewrite list_lookup_fmap, lookup_seq_lt by done. cbn.
  by rewrite list_lookup_fmap, lookup_seq_lt.
Qed.

Lemma init_good : good_matrix (init_matrix g).
Proof.
  split; [split|].
  - unfold init_matrix. by rewrite length_fmap, length_seq.
  - intros row (i & -> & _)%list_elem_of_fmap. by rewrite length_fmap, length_seq.
  - intros i j Hi Hj. rewrite get_init by done. case_decide as E; [|constructor]. subst.
    apply sum_in. exists []. constructor.
Qed.

Lemma index_of_spec u : u ∈ nodes g -> (index_of g u < n)%nat /\ nd (index_of g u) = u.
Proof.
  intros Hu. unfold index_of.
  destruct (list_find (fun n => n = u) (nodes g)) as [[i v]|] eqn:E.
  - apply list_find_Some in E as (Hi & -> & _). split; [by eapply lookup_lt_Some|].
    unfold nd. by rewrite Hi.
  - exfalso. apply list_find_None in E. by eapply Forall_forall in E.
Qed.

Lemma nd_elem i : (i < n)%nat -> nd i ∈ nodes g /\ nodes g !! i = Some (nd i).
Proof.
  intros Hi. destruct (lookup_lt_is_Some_2 (nodes g) i Hi) as [u Hu]. unfold nd. rewrite Hu.
  split; [by eapply list_elem_of_lookup_2|done].
Qed.

Lemma nd_inj i j : (i < n)%nat -> (j < n)%nat -> nd i = nd j -> i = j.
Proof.
  intros Hi Hj E. destruct (nd_elem i Hi) as [_ H1], (nd_elem j Hj) as [_ H2].
  rewrite E in H1. by apply (NoDup_lookup _ _ _ _ (dg_nodes _ Hg) H1).
Qed.

Lemma edge_sum u v w : edge g u v w -> sum_of S (W u v) w.
Proof.
  intros He. apply sum_in. exists [u].
  rewrite <- (sr_mul_one_l _ _ CL w) by (by eapply Hw). constructor; [constructor|done].
Qed.

Lemma load_good :
  good_matrix (load_edges g (init_matrix g)) /\
  mgrows (init_matrix g) (load_edges g (init_matrix g)) /\
  forall u, u ∈ nodes g -> forall v w, edge g u v w ->
    le w (get (load_edges g (init_matrix g)) (index_of g u) (index_of g v)).
Proof.
  unfold load_edges.
  apply (matrix_fold _ (fun u m => forall v w, edge g u v w -> le w (get m (index_of g u) (index_of g v))));
    [| |apply init_good].
  - intros m m' u _ Hm Hm' Hgr HQ v w He. destruct (edge_nodes _ _ _ _ Hg He) as [Hu Hv].
    apply (le_grows _ m); [by eapply Hw|done|done|by apply index_of_spec..|done|by apply HQ].
  - intros m u Hu Hm _.
    assert (forall e, e ∈ neighbors u g -> edge g u e.1 e.2) as Hnb.
    { intros [v w] He. cbn. apply jm_elem_get; [|done]. by apply neighbors_ok. }
    destruct (matrix_fold (fun m e => m_set m (index_of g u) (index_of g e.1)
        (add S (get m (index_of g u) (index_of g e.1)) e.2))
      (fun e m => edge g u e.1 e.2 -> le e.2 (get m (index_of g u) (index_of g e.1)))
      (neighbors u g) m) as (H1 & H2 & H3); [| |done|].
    + intros m1 m2 e _ Hm1 Hm2 Hgr HQ He. destruct (edge_nodes _ _ _ _ Hg He) as [_ Hv].
      apply (le_grows _ m1); [by eapply Hw|done|done|by apply index_of_spec..|done|by apply HQ].
    + intros m1 e He%Hnb Hm1 _. destruct (edge_nodes _ _ _ _ Hg He) as [_ Hv].
      destruct (index_of_spec u Hu) as [Hi Ei], (index_of_spec e.1 Hv) as [Hj Ej].
      destruct (matrix_step m1 (index_of g u) (index_of g e.1) e.2) as (H1 & H2 & H3);
        [done..|rewrite Ei, Ej; by apply edge_sum|]. by split.
    + split; [done|]. split; [done|]. intros v w He. apply (H3 (v, w)); [|done]. by apply jm_get_elem.
Qed.

(** ** The phases *)

Lemma index_pairs_elem i j : (i, j) ∈ index_pairs n <-> (i < n)%nat /\ (j < n)%nat.
Proof.
  unfold index_pairs. rewrite list_elem_of_join. split.
  - intros (l & Hl & (i' & -> & Hi)%list_elem_of_fmap).
    apply list_elem_of_fmap in Hl as (j' & [= -> ->] & Hj). rewrite !elem_of_seq in *. lia.
  - intros [Hi Hj]. eexists. split; [|apply list_elem_of_fmap; exists i; split; [reflexivity|]].
    + apply list_elem_of_fmap. exists j. split; [done|]. rewrite elem_of_seq. lia.
    + rewrite elem_of_seq. lia.
Qed.

Lemma phase_spec k m : (k < n)%nat -> good_matrix m ->
  let m' := foldl (closure_step g k) m (index_pairs n) in
  good_matrix m' /\ mgrows m m' /\
  forall i j, (i < n)%nat -> (j < n)%nat -> le (mul S (get m i k) (get m k j)) (get m' i j).
Proof.
  intros Hk Hm m'.
  assert (forall m i j, good_matrix m -> (i < n)%nat -> (j < n)%nat -> good (get m i j)) as G
    by (intros m0 i j [_ Hs]; by apply msound_good).
  assert (forall i j, (i < n)%nat -> (j < n)%nat -> good (mul S (get m i k) (get m k j))) as Gm
    by (intros; apply (good_mul _ _ closure_path); auto).
  destruct (matrix_fold (closure_step g k)
    (fun ij m1 => le (mul S (get m ij.1 k) (get m k ij.2)) (get m1 ij.1 ij.2)) (index_pairs n) m)
    as (H1 & H2 & H3); [| |done|].
  - intros m1 m2 [i j] [Hi Hj]%index_pairs_elem Hm1 Hm2 Hgr HQ. by apply (le_grows _ m1); auto.
  - intros m1 [i j] [Hi Hj]%index_pairs_elem Hm1 Hgr. cbn [fst snd].
    destruct (matrix_step m1 i j (mul S (get m1 i k) (get m1 k j))) as (H1 & H2 & H3); try done.
    { destruct Hm1 as [_ Hs]. apply sum_join with (nd k); by apply Hs. }
    split; [done|]. split; [done|].
    apply (sr_le_trans _ _ closure_path _ (mul S (get m1 i k) (get m1 k j))); auto.
    + apply (good_mul _ _ closure_path); auto.
    + apply (sr_le_trans _ _ closure_path _ (mul S (get m1 i k) (get m k j))); auto.
      * apply (good_mul _ _ closure_path); auto.
      * apply (good_mul _ _ closure_path); auto.
      * apply (sr_mul_mono _ _ closure_path); auto.
      * apply mul_mono_r; auto.
  - split; [done|]. split; [done|]. intros i j Hi Hj. apply (H3 (i, j)).
    by apply index_pairs_elem.
Qed.

(** Walks without repetition whose inner nodes come before [k]. *)
Definition covers k m : Prop :=
  (forall i, (i < n)%nat -> le (one S) (get m i i)) /\
  forall i j p x, (i < n)%nat -> (j < n)%nat -> walk g (nd i) (nd j :: p ++ [nd i]) x ->
    NoDup (nd j :: p ++ [nd i]) -> (forall u, u ∈ p -> exists h, (h < k)%nat /\ nodes g !! h = Some u) ->
    le x (get m i j).

Lemma phase_covers k m : (k < n)%nat -> good_matrix m -> covers k m ->
  covers (Datatypes.S k) (foldl (closure_step g k) m (index_pairs n)).
Proof.
  intros Hk Hm [Hdiag Hc]. destruct (phase_spec k m Hk Hm) as (Hm' & Hgr & Hle).
  assert (forall m i j, good_matrix m -> (i < n)%nat -> (j < n)%nat -> good (get m i j)) as G
    by (intros m0 i j [_ Hs]; by apply msound_good).
  assert (forall s l x, walk g s l x -> good x) as Gwk
    by (intros; by eapply walk_good; [apply closure_path|..]).
  split.
  { intros i Hi. apply (le_grows _ m); auto. apply (good_one _ _ closure_path). }
  intros i j p x Hi Hj Hwk Hnd Hin.
  destruct (decide (nd k ∈ p)) as [Hkp|Hkp].
  - apply list_elem_of_split in Hkp as (p1 & p2 & ->).
    rewrite <- app_assoc in Hwk, Hnd. cbn [app] in Hwk, Hnd. rewrite app_comm_cons in Hwk, Hnd.
    destruct (walk_split _ _ _ _ _ Hwk) as (x1 & x2 & H1 & H2 & ->).
    cbn [app] in H2. pose proof (Gwk _ _ _ H1) as G1. pose proof (Gwk _ _ _ H2) as G2.
    assert (forall u, u ∈ p1 ++ p2 -> exists h, (h < k)%nat /\ nodes g !! h = Some u) as Hin'.
    { intros u Hu. destruct (Hin u) as (h & Hh & Hu'); [set_solver|]. exists h. split; [|done].
      assert (h <> k) as ?; [|lia]. intros ->.
      destruct (nd_elem k Hk) as [_ Ek]. rewrite Ek in Hu'. injection Hu' as <-.
      apply (NoDup_app) in Hnd as (_ & Hd & [Hd2 _]%NoDup_cons). 
      apply elem_of_app in Hu as [Hu|Hu]; [apply (Hd (nd k)); set_solver|set_solver]. }
    assert (le x1 (get m i k)) as L1.
    { apply (Hc i k p2); auto; [|intros; apply Hin'; set_solver].
      by apply NoDup_app in Hnd as (_ & _ & Hnd). }
    assert (le x2 (get m k j)) as L2.
    { apply (Hc k j p1); auto; [|intros; apply Hin'; set_solver].
      apply NoDup_app in Hnd as (H3 & H4 & _). rewrite app_comm_cons. apply NoDup_app.
      split; [done|]. split; [|apply NoDup_singleton]. intros u Hu. specialize (H4 u Hu). set_solver. }
    apply (sr_le_trans _ _ closure_path _ (mul S (get m i k) (get m k j))); auto.
    + by apply (good_mul _ _ closure_path).
    + apply (good_mul _ _ closure_path); auto.
    + apply (sr_le_trans _ _ closure_path _ (mul S x1 (get m k j))).
      * by apply (good_mul _ _ closure_path).
      * apply (good_mul _ _ closure_path); auto.
      * apply (good_mul _ _ closure_path); auto.
      * apply mul_mono_r; auto.
      * apply (sr_mul_mono _ _ closure_path); auto.
  - apply (le_grows _ m); auto; [by eapply Gwk|]. apply (Hc i j p); auto.
    intros u Hu. destruct (Hin u Hu) as (h & Hh & Hu'). exists h. split; [|done].
    assert (h <> k) as ?; [|lia]. intros ->. destruct (nd_elem k Hk) as [_ Ek]. congruence.
Qed.

Lemma load_covers : covers 0 (load_edges g (init_matrix g)).
Proof.
  destruct load_good as (Hm & Hgr & Hle). split.
  - intros i Hi. apply (le_grows _ (init_matrix g)); auto using init_good.
    + apply (good_one _ _ closure_path).
    + rewrite get_init, decide_True by done. apply (sr_le_refl _ _ closure_path), (good_one _ _ closure_path).
  - intros i j p x Hi Hj Hwk Hnd Hin. destruct p as [|u p].
    + cbn in Hwk. inversion Hwk as [|u v l x0 w Hwk0 He]; subst.
      assert (x0 = one S) as -> by by inversion Hwk0.
      rewrite (sr_mul_one_l _ _ CL) by (by eapply Hw).
      destruct (nd_elem i Hi) as [Hni _], (nd_elem j Hj) as [Hnj _].
      destruct (index_of_spec _ Hni) as [Hii Ei], (index_of_spec _ Hnj) as [Hjj Ej].
      apply nd_inj in Ei, Ej; [|done..]. rewrite <- Ei, <- Ej. by apply Hle.
    + destruct (Hin u) as (h & Hh & _); [by left|lia].
Qed.

Lemma floyd_warshall_spec :
  good_matrix (floyd_warshall g) /\ covers n (floyd_warshall g).
Proof.
  unfold floyd_warshall.
  assert (forall k, (k <= n)%nat ->
    let m := foldl (fun m k => foldl (closure_step g k) m (index_pairs n))
      (load_edges g (init_matrix g)) (seq 0 k) in good_matrix m /\ covers k m) as H; [|by apply H].
  induction k as [|k IH]; intros Hk; cbv zeta.
  - split; [apply load_good|apply load_covers].
  - rewrite seq_S, foldl_app. destruct IH as [Hm Hc]; [lia|]. cbn [foldl Nat.add].
    split; [by apply phase_spec|by apply phase_covers].
Qed.

Lemma floyd_warshall_total i j : (i < n)%nat -> (j < n)%nat ->
  is_total S (W (nd i) (nd j)) (get (floyd_warshall g) i j).
Proof.
  intros Hi Hj. destruct floyd_warshall_spec as [[Hsh Hs] [Hd Hc]]. split; [by apply Hs|].
  intros x [l Hwk].
  destruct (walk_simple g _ good closure_path Hw _ _ _ Hwk) as (l' & x' & Hwk' & Hnd & Hle).
  apply (sr_le_trans _ _ closure_path _ x'); auto using msound_good;
    [by eapply walk_good; [apply closure_path|..]..|].
  destruct (walk_source _ _ _ Hwk') as [p Hp].
  destruct p as [|u p]; cbn in Hp.
  - injection Hp as Hji ->. apply nd_inj in Hji; [|done..]. subst j.
    assert (x' = one S) as -> by by inversion Hwk'. by apply Hd.
  - injection Hp as <- ->. apply (Hc i j p); auto. intros u Hu.
    destruct (walk_nodes g _ good closure_path Hg Hw _ _ Hwk') as [E|Hin]; [by destruct p|].
    assert (u ∈ nodes g) as Hun by (apply Hin; set_solver).
    apply list_elem_of_lookup in Hun as [h Hh]. exists h. split; [by eapply lookup_lt_Some|done].
Qed.

(** The nested map holds the matrix. *)
Lemma transitiveClosure_get i j : (i < n)%nat -> (j < n)%nat ->
  (jm_get (nd i) (transitiveClosure g) ≫= jm_get (nd j)) = Some (get (floyd_warshall g) i j).
Proof.
  assert (forall (V : Type) (f : nat -> V) k i, (k <= n)%nat -> (i < n)%nat ->
    jm_get (nd i) (foldl (fun r h => jm_set (nd h) (f h) r) [] (seq 0 k))
    = if decide (i < k)%nat then Some (f i) else None) as H.
  { intros V f k i' Hk Hi'. induction k as [|k IH]; [done|]. rewrite seq_S, foldl_app. cbn [foldl Nat.add].
    rewrite jm_get_set. destruct (decide (nd i' = nd k)) as [E|E].
    - apply nd_inj in E as ->; [|done|lia]. by rewrite decide_True by lia.
    - rewrite IH by lia. assert (i' <> k) by (by intros ->). repeat case_decide; lia || done. }
  intros Hi Hj. unfold transitiveClosure. fold nd. fold (nd i).
  erewrite (H _ (fun i => foldl _ [] (seq 0 n))) by done. rewrite decide_True by done. cbn.
  erewrite (H _ (fun j => m_get _ _ i j)) by done. by rewrite decide_True.
Qed.

Lemma transitiveClosure_total u v : u ∈ nodes g -> v ∈ nodes g ->
  exists x, (jm_get u (transitiveClosure g) ≫= jm_get v) = Some x /\ is_total S (W u v) x.
Proof.
  intros [Hi <-]%index_of_spec [Hj <-]%index_of_spec. eexists. split.
  - by apply transitiveClosure_get.
  - by apply floyd_warshall_total.
Qed.
End closure.
