(* ===== verification/OptimalRoutes.v ===== *)
(** * Routing queries answer what they ask

    The contracts of the traversals over graphs built by the graph's own
    operations: every query returns the total of the walks it ranges over, the
    path it reconstructs achieves it, a product query is the pair of the queries,
    and the all-pairs closure agrees with the single-source one. *)

From S2P Require Import Prelude JsMap Semiring SemiringLaws Digraph Traversal PathTheory.
From S2P Require Import TraceTheory ClosureTheory.
Local Open Scope Z_scope.

(** The weights an operation brings in. *)
Definition op_good {T} (good : T -> Prop) (op : graph_op T) : Prop :=
  match op with AddEdge _ _ w | SetEdge _ _ w => good w | _ => True end.

Definition map_op {A B} (f : A -> B) (op : graph_op A) : graph_op B :=
  match op with
  | AddNode id => AddNode id
  | AddEdge u v w => AddEdge u v (f w)
  | SetEdge u v w => SetEdge u v (f w)
  | RemoveEdge u v => RemoveEdge u v
  | RemoveNode id => RemoveNode id
  end.

Section weights.
Context {T : Type} (good : T -> Prop) (s : Semiring T).
Context (Hadd : forall a b, good a -> good b -> good (add s a b)).
Implicit Types (g : WeightedDigraph T).

Definition all_good g : Prop :=
  forall u nb v w, jm_get u (adj g) = Some nb -> jm_get v nb = Some w -> good w.

Lemma all_good_neighbors g u v w : all_good g -> jm_get v (neighbors u g) = Some w -> good w.
Proof.
  unfold neighbors. intros Hg. destruct (jm_get u (adj g)) as [nb|] eqn:E; cbn; [|done].
  by apply Hg with u.
Qed.

Lemma all_good_set g u nb :
  all_good g -> (forall v w, jm_get v nb = Some w -> good w) ->
  all_good (set_adj (jm_set u nb (adj g)) g).
Proof.
  intros Hg Hnb u' nb' v w. cbn. rewrite jm_get_set. case_decide; [intros [= <-]; eauto|apply Hg].
Qed.

Lemma all_good_addNode id g : all_good g -> all_good (addNode id g).
Proof.
  intros Hg u nb v w. unfold addNode. cbn. destruct (jm_has id (adj g)); [apply Hg|].
  rewrite jm_get_set. case_decide; [by intros [= <-]|apply Hg].
Qed.

Lemma all_good_op op g : sr g = s -> op_good good op -> all_good g -> all_good (apply_graph_op op g).
Proof.
  intros Hs Hop Hg. destruct op as [id|u v w|u v w|u v|id]; cbn [apply_graph_op op_good] in *.
  - by apply all_good_addNode.
  - set (g2 := addNode v (addNode u g)).
    assert (all_good g2) as Hg2 by by apply all_good_addNode, all_good_addNode.
    unfold addEdge. fold g2. apply all_good_set; [done|]. intros v' w'. rewrite jm_get_set.
    case_decide; [|by apply all_good_neighbors]. intros [= <-].
    destruct (jm_get v (neighbors u g2)) eqn:E; [|done].
    change (sr g2) with (sr g). rewrite Hs. apply Hadd; [|done]. by eapply all_good_neighbors.
  - set (g2 := addNode v (addNode u g)).
    assert (all_good g2) as Hg2 by by apply all_good_addNode, all_good_addNode.
    unfold setEdge. fold g2. apply all_good_set; [done|]. intros v' w'. rewrite jm_get_set.
    case_decide; [by intros [= <-]|by apply all_good_neighbors].
  - unfold removeEdge. destruct (jm_get u (adj g)) as [nb|] eqn:E; [|done].
    apply all_good_set; [done|]. intros v' w'. rewrite jm_get_delete. case_decide; [done|]. by apply Hg with u.
  - intros u nb v w. unfold removeNode. cbn [adj].
    assert (forall (m : jsmap string (jsmap string T)),
      jm_get u ((fun e => (e.1, jm_delete id e.2)) <$> m) = jm_delete id <$> jm_get u m) as ->.
    { intros m. induction m as [|[k x] m IH]; [done|]. cbn. by case_decide. }
    rewrite jm_get_delete. case_decide; [done|]. destruct (jm_get u (adj g)) as [nb0|] eqn:E; [|done].
    cbn. intros [= <-]. rewrite jm_get_delete. case_decide; [done|]. by apply Hg with u.
Qed.

Lemma build_good_weights ops :
  Forall (op_good good) ops -> good_weights (build_graph s ops) good.
Proof.
  intros Hops. enough (all_good (build_graph s ops)) as H.
  { intros u v w He. by apply (all_good_neighbors _ u v) in He. }
  unfold build_graph. assert (all_good (new_graph s)) as H0 by done.
  assert (sr (new_graph s) = s) as Hs by done. revert H0 Hs. generalize (new_graph s) as g.
  induction Hops as [|op ops Hop Hops IH]; intros g H0 Hs; cbn [foldl]; [done|].
  apply IH; [by apply all_good_op|]. destruct op; try done. cbn. unfold removeEdge. by case_match.
Qed.
End weights.

(** ** Projecting a graph *)

Section projection.
Context {A B : Type} (f : A -> B) (sa : Semiring A) (sb : Semiring B).
Context (Hf : forall x y, f (add sa x y) = add sb (f x) (f y)).

Definition map_nb (nb : jsmap string A) : jsmap string B := (fun e => (e.1, f e.2)) <$> nb.
Definition map_adj (a : jsmap string (jsmap string A)) : jsmap string (jsmap string B) :=
  (fun e => (e.1, map_nb e.2)) <$> a.
Definition map_graph (g : WeightedDigraph A) : WeightedDigraph B :=
  {| adj := map_adj (adj g); nodes := nodes g; sr := sb |}.

Lemma map_get_gen {V W} (h : V -> W) k (m : jsmap string V) :
  jm_get k ((fun e => (e.1, h e.2)) <$> m) = h <$> jm_get k m.
Proof. induction m as [|[k' x] m IH]; [done|]. cbn. by case_decide. Qed.

Lemma map_set_gen {V W} (h : V -> W) k x (m : jsmap string V) :
  jm_set k (h x) ((fun e => (e.1, h e.2)) <$> m) = (fun e => (e.1, h e.2)) <$> jm_set k x m.
Proof. induction m as [|[k' y] m IH]; [done|]. cbn. case_decide; cbn; [done|]. by rewrite IH. Qed.

Lemma map_delete_gen {V W} (h : V -> W) k (m : jsmap string V) :
  jm_delete k ((fun e => (e.1, h e.2)) <$> m) = (fun e => (e.1, h e.2)) <$> jm_delete k m.
Proof.
  unfold jm_delete. induction m as [|[k' y] m IH]; [done|]. rewrite fmap_cons, !filter_cons. cbn.
  case_decide; cbn; by rewrite IH.
Qed.

Lemma map_neighbors id g : neighbors id (map_graph g) = map_nb (neighbors id g).
Proof.
  unfold neighbors, map_graph, map_adj. cbn. rewrite (map_get_gen map_nb). by destruct (jm_get id (adj g)).
Qed.

Lemma map_addNode id g : addNode id (map_graph g) = map_graph (addNode id g).
Proof.
  unfold addNode, map_graph, map_adj. cbn. f_equal. unfold jm_has. rewrite (map_get_gen map_nb).
  destruct (jm_get id (adj g)); cbn; [done|]. apply (map_set_gen map_nb id []).
Qed.

Lemma map_set_adj g u v w :
  set_adj (jm_set u (jm_set v (f w) (neighbors u (map_graph g))) (adj (map_graph g))) (map_graph g)
  = map_graph (set_adj (jm_set u (jm_set v w (neighbors u g)) (adj g)) g).
Proof.
  unfold set_adj. rewrite map_neighbors. unfold map_graph, map_adj. cbn. f_equal.
  rewrite <- (map_set_gen map_nb). f_equal. apply (map_set_gen f).
Qed.

Lemma map_graph_op op g : sr g = sa ->
  apply_graph_op (map_op f op) (map_graph g) = map_graph (apply_graph_op op g).
Proof.
  intros Hs. destruct op as [id|u v w|u v w|u v|id]; cbn [map_op apply_graph_op].
  - apply map_addNode.
  - unfold addEdge. rewrite !map_addNode. rewrite <- map_set_adj.
    f_equal. f_equal. f_equal. rewrite map_neighbors. unfold map_nb. rewrite (map_get_gen f).
    destruct (jm_get v (neighbors u _)) as [x|]; [|done]. cbn. by rewrite Hs, Hf.
  - unfold setEdge. rewrite !map_addNode. by rewrite <- map_set_adj.
  - unfold removeEdge. cbn [map_graph adj]. unfold map_adj at 1. rewrite (map_get_gen map_nb).
    destruct (jm_get u (adj g)) as [nb|] eqn:E; [|done]. unfold set_adj, map_graph, map_adj.
    cbn. f_equal. rewrite <- (map_set_gen map_nb). f_equal. apply (map_delete_gen f).
  - unfold removeNode, map_graph, map_adj. cbn [adj nodes sr]. f_equal. rewrite (map_delete_gen map_nb).
    rewrite <- !list_fmap_compose. apply list_fmap_ext. intros _ [k nb] _. cbn. f_equal.
    apply (map_delete_gen f).
Qed.

Lemma map_build ops : build_graph sb (map_op f <$> ops) = map_graph (build_graph sa ops).
Proof.
  unfold build_graph. change (new_graph sb) with (map_graph (new_graph sa)).
  assert (sr (new_graph sa) = sa) as Hs by done. revert Hs. generalize (new_graph sa) as g.
  induction ops as [|op ops IH]; intros g Hs; [done|]. rewrite fmap_cons. cbn [foldl].
  rewrite map_graph_op by done. apply IH. destruct op; try done. cbn. unfold removeEdge. by case_match.
Qed.

Lemma map_edge g u v y : edge (map_graph g) u v y <-> exists x, edge g u v x /\ y = f x.
Proof.
  unfold edge. rewrite map_neighbors. unfold map_nb. rewrite (map_get_gen f). destruct (jm_get v (neighbors u g)) as [x|]; cbn;
    naive_solver.
Qed.

Context (Hone : f (one sa) = one sb) (Hzero : f (zero sa) = zero sb).
Context (Hmul : forall x y, f (mul sa x y) = mul sb (f x) (f y)).

Lemma map_walk g s l y : sr g = sa ->
  walk (map_graph g) s l y <-> exists x, walk g s l x /\ y = f x.
Proof.
  intros Hs. split.
  - induction 1 as [|u v l y w Hwk (x & IH & ->) He].
    + exists (one sa). rewrite <- Hs at 1. split; [constructor|]. cbn. by rewrite Hone.
    + apply map_edge in He as (w' & He & ->). exists (mul (sr g) x w'). split; [by constructor|].
      cbn. by rewrite Hs, Hmul.
  - intros (x & Hwk & ->). induction Hwk as [|u v l x w Hwk IH He].
    + rewrite Hs, Hone. change (one sb) with (one (sr (map_graph g))). constructor.
    + rewrite Hs, Hmul. change (mul sb (f x) (f w)) with (mul (sr (map_graph g)) (f x) (f w)).
      constructor; [done|]. apply map_edge. eauto.
Qed.

Lemma map_total g s v m : sr g = sa ->
  is_total sa (walk_to g s v) m -> is_total sb (walk_to (map_graph g) s v) (f m).
Proof.
  intros Hs [Hsum Hmax]. split.
  - clear Hmax. induction Hsum as [|x [l Hx]|a b Ha IHa Hb IHb].
    + rewrite Hzero. constructor.
    + apply sum_in. exists l. apply map_walk; eauto.
    + rewrite Hf. by apply sum_add.
  - intros y [l Hy]. apply map_walk in Hy as (x & Hx & ->); [|done].
    unfold sr_le. rewrite <- Hf. f_equal. apply Hmax. by exists l.
Qed.
End projection.

(** ** Weights and laws of the concrete queries *)

(** Exact integers. *)
#[local] Instance exact_number : JsNumber number := grid 1.

Lemma cost_closure_laws : closure_laws CostSemiring cost_weight.
Proof.
  split.
  - eapply ordered_path_laws, (cost_ordered 1).
  - intros [] [] []; cbn; intros; try done; f_equal; lia.
  - intros []; done.
  - intros []; cbn; intros; try done; f_equal; lia.
  - intros []; done.
  - intros [] [] []; cbn; try done; intros; repeat case_bool_decide; cbn; try done; repeat case_bool_decide;
      try done; f_equal; lia.
Qed.

(** The total of the walks of a built graph. *)
Lemma build_total {T} `{!StrictEq T} (s : Semiring T) good ops source target :
  path_laws s good -> Forall (op_good good) ops ->
  let g := build_graph s ops in
  is_total s (walk_to g source target) (optimalPath g source target) /\
  forall x, walk_to g source target x -> good x.
Proof.
  intros L Hops g. pose proof (build_good_weights good s (good_add _ _ L) ops Hops) as Hw.
  pose proof (build_graph_sr s ops) as Hs. fold g in Hw, Hs. rewrite <- Hs in L |- *.
  split; [by apply (optimalPaths_total g source good L (build_graph_ok s ops) Hw)|].
  apply (walk_to_good g source good L Hw).
Qed.

Definition lawful {T} `{StrictEq T} (s : Semiring T) (good : T -> Prop) : Prop :=
  path_laws s good /\ selective s good.

Lemma ordered_lawful {T} `{StrictEq T} (s : Semiring T) good le :
  ordered_laws s good le -> lawful s good.
Proof. intros O. split; [by eapply ordered_path_laws|by eapply ordered_selective]. Qed.

(** * Properties *)

Section contracts.
Context {T : Type} `{!StrictEq T} (s : Semiring T) (good : T -> Prop).

(** C28: [optimalPaths] answers with the semiring's total over all walks, cycles
    included: the value it returns for [target] is a sum of values of walks from
    [source] to [target], and no walk is better. *)
Theorem optimalPaths_correct ops source target :
  path_laws s good -> Forall (op_good good) ops ->
  let g := build_graph s ops in
  is_total s (walk_to g source target) (optimalPath g source target).
Proof.
  intros L Hops g. by apply (build_total s good).
Qed.

(** For a semiring that chooses, [optimalPathTrace] returns an optimal route:
    a path without repetition from [source] to [target] whose own value is the
    returned value, the best of all walks; it returns [null] only when the
    target is another node that no walk of nonzero value reaches. *)
Theorem optimalPathTrace_optimal ops source target :
  path_laws s good -> selective s good -> eq_opt s = None -> Forall (op_good good) ops ->
  let g := build_graph s ops in
  match optimalPathTrace g source target with
  | Some (value, path) =>
      walk g source (reverse path) value /\ NoDup path /\
      head path = Some source /\ last path = Some target /\
      is_total s (walk_to g source target) value
  | None => source <> target /\ forall x, walk_to g source target x -> x = zero s
  end.
Proof.
  intros L Hsel Heq Hops g. pose proof (build_good_weights good s (good_add _ _ L) ops Hops) as Hw.
  pose proof (build_graph_sr s ops) as Hs. fold g in Hw, Hs. rewrite <- Hs in L, Hsel, Heq |- *.
  by apply (trace_result g source good L (build_graph_ok s ops) Hw Hsel).
Qed.

(** The all-pairs closure agrees with the single-source query: for any two
    nodes [transitiveClosure] holds the value [optimalPath] returns, the total
    over all walks between them. *)
Theorem transitiveClosure_agrees ops u v :
  closure_laws s good -> Forall (op_good good) ops ->
  let g := build_graph s ops in
  hasNode u g = true -> hasNode v g = true ->
  (jm_get u (transitiveClosure g) ≫= jm_get v) = Some (optimalPath g u v) /\
  is_total s (walk_to g u v) (optimalPath g u v).
Proof.
  intros CL Hops g Hu%bool_decide_eq_true Hv%bool_decide_eq_true.
  pose proof (cl_path _ _ CL) as L.
  pose proof (build_good_weights good s (good_add _ _ L) ops Hops) as Hw.
  pose proof (build_graph_sr s ops) as Hs. fold g in Hw, Hs. rewrite <- Hs in L, CL |- *.
  pose proof (optimalPaths_total g u good L (build_graph_ok s ops) Hw v) as [Htot _].
  split; [|exact Htot].
  destruct (transitiveClosure_total g good CL (build_graph_ok s ops) Hw u v Hu Hv) as (x & -> & Hx).
  f_equal. apply (is_total_unique _ good L (walk_to g u v)); [|done|done].
  apply (walk_to_good g u good L Hw).
Qed.
End contracts.

(** One pass over a product semiring is the separate passes: querying a
    graph of pairs gives the pair of what the two projected graphs give. *)
Theorem product_one_pass {A B} `{!StrictEq A, !StrictEq B, !StrictEq (A * B)}
    (sa : Semiring A) (sb : Semiring B) ga gb (ops : list (graph_op (A * B))) source target :
  path_laws sa ga -> path_laws sb gb -> Forall (op_good (good_pair ga gb)) ops ->
  optimalPath (build_graph (productSemiring sa sb) ops) source target =
  (optimalPath (build_graph sa (map_op fst <$> ops)) source target,
   optimalPath (build_graph sb (map_op snd <$> ops)) source target).
Proof.
  intros LA LB Hops.
  destruct (build_total _ _ ops source target (product_path_laws sa sb ga gb LA LB) Hops) as [H _].
  set (g := build_graph (productSemiring sa sb) ops) in *.
  pose proof (build_graph_sr (productSemiring sa sb) ops) as Hs. fold g in Hs.
  set (m := optimalPath g source target) in *. rewrite (surjective_pairing m). f_equal.
  - destruct (build_total sa ga (map_op fst <$> ops) source target LA) as [HA GA].
    { apply Forall_fmap. eapply Forall_impl; [exact Hops|]. intros []; cbn; try done; by intros []. }
    rewrite (map_build fst (productSemiring sa sb) sa) in HA, GA |- * by done. fold g in HA, GA |- *.
    apply (is_total_unique _ ga LA _ _ _ GA); [|done].
    by apply (map_total fst (productSemiring sa sb) sa).
  - destruct (build_total sb gb (map_op snd <$> ops) source target LB) as [HB GB].
    { apply Forall_fmap. eapply Forall_impl; [exact Hops|]. intros []; cbn; try done; by intros []. }
    rewrite (map_build snd (productSemiring sa sb) sb) in HB, GB |- * by done. fold g in HB, GB |- *.
    apply (is_total_unique _ gb LB _ _ _ GB); [|done].
    by apply (map_total snd (productSemiring sa sb) sb).
Qed.


(** ** Witnesses *)

(** A detour that is cheaper than the direct edge, and a cycle. *)
Definition demo_ops : list (graph_op number) :=
  [AddEdge "a" "b" (Num 3); AddEdge "b" "c" (Num 4); AddEdge "a" "c" (Num 9);
   AddEdge "c" "a" (Num 1); AddEdge "a" "b" (Num 2); AddNode "d"]%string.

Lemma demo_ops_good : Forall (op_good cost_weight) demo_ops.
Proof. repeat constructor; cbn; lia. Qed.

Lemma optimalPaths_correct_witness :
  optimalPath (build_graph CostSemiring demo_ops) "a" "c" = Num 6 /\
  is_total CostSemiring (walk_to (build_graph CostSemiring demo_ops) "a" "c") (Num 6).
Proof.
  pose proof (optimalPaths_correct CostSemiring cost_weight demo_ops "a" "c"
    (cl_path _ _ cost_closure_laws) demo_ops_good) as H. cbv zeta in H.
  assert (optimalPath (build_graph CostSemiring demo_ops) "a" "c" = Num 6) as E
    by (vm_compute; reflexivity).
  rewrite E in H. by split.
Defined.

Lemma optimalPathTrace_optimal_witness :
  optimalPathTrace (build_graph CostSemiring demo_ops) "a" "c" = Some (Num 6, ["a"; "b"; "c"]%string) /\
  optimalPathTrace (build_graph CostSemiring demo_ops) "a" "d" = None /\
  NoDup ["a"; "b"; "c"]%string.
Proof.
  pose proof (optimalPathTrace_optimal CostSemiring cost_weight demo_ops "a" "c"
    (cl_path _ _ cost_closure_laws) (ordered_selective _ _ _ (cost_ordered 1)) eq_refl demo_ops_good)
    as H. cbv zeta in H.
  assert (optimalPathTrace (build_graph CostSemiring demo_ops) "a" "c"
    = Some (Num 6, ["a"; "b"; "c"]%string)) as E by (vm_compute; reflexivity).
  rewrite E in H. split; [exact E|]. split; [vm_compute; reflexivity|]. exact (proj1 (proj2 H)).
Defined.

Lemma transitiveClosure_agrees_witness :
  (jm_get "b" (transitiveClosure (build_graph CostSemiring demo_ops)) ≫= jm_get "a"%string)%string
  = Some (Num 5).
Proof.
  pose proof (transitiveClosure_agrees CostSemiring cost_weight demo_ops "b" "a"
    cost_closure_laws demo_ops_good) as H. cbv zeta in H.
  rewrite (proj1 (H ltac:(vm_compute; reflexivity) ltac:(vm_compute; reflexivity))).
  vm_compute. reflexivity.
Defined.

Definition demo_pairs : list (graph_op (number * bool)) :=
  [AddEdge "a" "b" (Num 3, true); AddEdge "b" "c" (Num 4, false); AddEdge "a" "c" (Num 9, true)]%string.

#[local] Instance pair_strict_eq : StrictEq (number * bool) :=
  fun x y => strict_eq x.1 y.1 && strict_eq x.2 y.2.

Lemma product_one_pass_witness :
  optimalPath (build_graph (productSemiring CostSemiring BooleanSemiring) demo_pairs) "a" "c"
  = (Num 7, true) /\
  optimalPath (build_graph (productSemiring CostSemiring BooleanSemiring) demo_pairs) "a" "c"
  = (optimalPath (build_graph CostSemiring (map_op fst <$> demo_pairs)) "a" "c",
     optimalPath (build_graph BooleanSemiring (map_op snd <$> demo_pairs)) "a" "c").
Proof.
  split; [vm_compute; reflexivity|].
  apply (product_one_pass CostSemiring BooleanSemiring cost_weight (fun _ => True) demo_pairs "a" "c").
  - exact (cl_path _ _ cost_closure_laws).
  - exact (ordered_path_laws _ _ _ boolean_ordered).
  - repeat constructor; cbn; lia.
Defined.

