(* ===== verification/Json.v ===== *)
(** * JSON values

    The payloads the logs carry: the values [JSON.stringify] distinguishes.
    Numbers are integers; an object is the list of its properties in insertion
    order. *)

From S2P Require Import Prelude JsMap.
Local Open Scope Z_scope.

Inductive json :=
| JUndefined
| JNull
| JBoolean (b : bool)
| JNumber (z : Z)
| JString (s : string)
| JArray (l : list json)
| JObject (fields : jsmap string json).

(** [o[key]], [undefined] when the key is missing. *)
Definition js_field (key : string) (fields : jsmap string json) : json :=
  default JUndefined (jm_get key fields).

(** [j === s] for a string [s]. *)
Definition is_string (s : string) (j : json) : bool :=
  match j with JString t => bool_decide (t = s) | _ => false end.

(** [j === true] *)
Definition is_true (j : json) : bool :=
  match j with JBoolean b => b | _ => false end.

Lemma is_string_spec s j : is_string s j = true <-> j = JString s.
Proof. destruct j; cbn; rewrite ?bool_decide_eq_true; naive_solver. Qed.

Section json_ind.
Context (P : json -> Prop).
Context (Hund : P JUndefined) (Hnull : P JNull) (Hbool : forall b, P (JBoolean b)).
Context (Hnum : forall z, P (JNumber z)) (Hstr : forall s, P (JString s)).
Context (Harr : forall l, Forall P l -> P (JArray l)).
Context (Hobj : forall fields, Forall (fun e => P e.2) fields -> P (JObject fields)).

(** Induction through the nested lists. *)
Fixpoint json_nested_ind (j : json) : P j :=
  match j with
  | JUndefined => Hund
  | JNull => Hnull
  | JBoolean b => Hbool b
  | JNumber z => Hnum z
  | JString s => Hstr s
  | JArray l =>
      Harr l ((fix go l := match l return Forall P l with
                           | [] => Forall_nil_2 _
                           | x :: l => Forall_cons_2 _ _ _ (json_nested_ind x) (go l)
                           end) l)
  | JObject fields =>
      Hobj fields ((fix go l := match l return Forall (fun e => P e.2) l with
                                | [] => Forall_nil_2 _
                                | e :: l => Forall_cons_2 _ _ _ (json_nested_ind e.2) (go l)
                                end) fields)
  end.
End json_ind.
