(* ===== verification/EventLog.v ===== *)
(** * The in-memory event log ([packages/event-log/src/index.ts])

    [InMemoryEventStore]: an append-only list of events and the set of event ids
    ever seen.  The invariant relates the two, and the ids outlive the events
    that compaction and truncation erase. *)

From S2P Require Import Prelude JsMap Json.
Local Open Scope Z_scope.

Record EventLogEntry := {
  event_id : string;
  motebit_id : string;
  device_id : option string;
  timestamp : Z;
  event_type : string;
  payload : json;
  version_clock : Z;
  tombstoned : bool;
}.

Record EventFilter := {
  f_motebit_id : option string;
  f_event_types : option (list string);
  f_after_timestamp : option Z;
  f_before_timestamp : option Z;
  f_after_version_clock : option Z;
  f_limit : option Z;
}.

Definition MemoryFormed : string := "memory_formed".

Record InMemoryEventStore := {
  events : list EventLogEntry;
  seenIds : list string;
}.

Definition new_store : InMemoryEventStore := {| events := []; seenIds := [] |}.

(** What a call on the log throws. *)
Inductive event_error :=
| EmptyEventId
| EmptyMotebitId
| HorizonUnsupported
| OperatorIdsRequired
| SigningFailed (reason : string)
| TypeError.

Definition log_call := call InMemoryEventStore event_error.

Definition set_clock (clock : Z) (e : EventLogEntry) : EventLogEntry := {|
  event_id := event_id e; motebit_id := motebit_id e; device_id := device_id e;
  timestamp := timestamp e; event_type := event_type e; payload := payload e;
  version_clock := clock; tombstoned := tombstoned e |}.

Definition set_tombstoned (e : EventLogEntry) : EventLogEntry := {|
  event_id := event_id e; motebit_id := motebit_id e; device_id := device_id e;
  timestamp := timestamp e; event_type := event_type e; payload := payload e;
  version_clock := version_clock e; tombstoned := true |}.

Definition set_payload (p : json) (e : EventLogEntry) : EventLogEntry := {|
  event_id := event_id e; motebit_id := motebit_id e; device_id := device_id e;
  timestamp := timestamp e; event_type := event_type e; payload := p;
  version_clock := version_clock e; tombstoned := tombstoned e |}.

Definition set_events (es : list EventLogEntry) (st : InMemoryEventStore) : InMemoryEventStore :=
  {| events := es; seenIds := seenIds st |}.

(** [this.seenIds.add(id); this.events.push(e)] *)
Definition push (e : EventLogEntry) (st : InMemoryEventStore) : InMemoryEventStore :=
  {| events := events st ++ [e]; seenIds := js_add (event_id e) (seenIds st) |}.

Definition append (entry : EventLogEntry) : log_call unit := fun st =>
  if js_has (event_id entry) (seenIds st) then (Ok tt, st) else (Ok tt, push entry st).

(** [results.slice(0, limit)], also for a negative limit. *)
Definition slice_limit {A} (limit : Z) (l : list A) : list A :=
  if decide (limit < 0) then take (Z.to_nat (Z.of_nat (length l) + limit)) l
  else take (Z.to_nat limit) l.

(** [if (filter.x !== undefined) results = results.filter(...)] *)
Definition when_set {A X} (o : option X) (f : X -> list A -> list A) (l : list A) : list A :=
  match o with Some x => f x l | None => l end.

Definition run_filter (flt : EventFilter) (results : list EventLogEntry) : list EventLogEntry :=
  let results := when_set (f_motebit_id flt) (fun id => filter (fun e => motebit_id e = id)) results in
  let results := when_set (f_event_types flt) (fun ts => filter (fun e => event_type e ∈ ts)) results in
  let results := when_set (f_after_timestamp flt) (fun t => filter (fun e => timestamp e > t)) results in
  let results := when_set (f_before_timestamp flt) (fun t => filter (fun e => timestamp e < t)) results in
  let results := when_set (f_after_version_clock flt) (fun c => filter (fun e => version_clock e > c)) results in
  when_set (f_limit flt) slice_limit results.

Definition query (flt : EventFilter) : log_call (list EventLogEntry) := fun st =>
  (Ok (run_filter flt (events st)), st).

(** The events of one motebit, and [Math.max] over their clocks. *)
Definition mote_events (id : string) (l : list EventLogEntry) : list EventLogEntry :=
  filter (fun e => motebit_id e = id) l.

Definition max_clock (l : list EventLogEntry) : Z :=
  match l with
  | [] => 0
  | e :: l => zmax_from (version_clock e) (version_clock <$> l)
  end.

Definition appendWithClock (entry : EventLogEntry) : log_call Z := fun st =>
  if js_has (event_id entry) (seenIds st) then
    match List.find (fun e => bool_decide (event_id e = event_id entry)) (events st) with
    | Some existing => (Ok (version_clock existing), st)
    | None => (Throw TypeError, st)
    end
  else
    let moteEvents := mote_events (motebit_id entry) (events st) in
    let clock := match moteEvents with [] => 1 | _ => max_clock moteEvents + 1 end in
    (Ok clock, push (set_clock clock entry) st).

Definition getLatestClock (id : string) : log_call Z := fun st =>
  let moteEvents := mote_events id (events st) in
  (Ok (match moteEvents with [] => 0 | _ => max_clock moteEvents end), st).

(** [find] returns the stored event, which is then marked in place. *)
Fixpoint tombstone_first (eid mid : string) (l : list EventLogEntry) : list EventLogEntry :=
  match l with
  | [] => []
  | e :: l => if bool_decide (event_id e = eid) && bool_decide (motebit_id e = mid)
              then set_tombstoned e :: l else e :: tombstone_first eid mid l
  end.

Definition tombstone (eid mid : string) : log_call unit := fun st =>
  (Ok tt, set_events (tombstone_first eid mid (events st)) st).

Definition removed_count (before after : list EventLogEntry) : Z :=
  Z.of_nat (length before) - Z.of_nat (length after).

Definition compact (mid : string) (beforeClock : Z) : log_call Z := fun st =>
  let kept := filter (fun e => motebit_id e <> mid \/ version_clock e > beforeClock) (events st) in
  (Ok (removed_count (events st) kept), set_events kept st).

Definition truncateBeforeHorizon (mid : string) (horizonTs : Z) : log_call Z := fun st =>
  let kept := filter (fun e => motebit_id e <> mid \/ timestamp e >= horizonTs) (events st) in
  (Ok (removed_count (events st) kept), set_events kept st).

Definition countEvents (mid : string) : log_call Z := fun st =>
  (Ok (Z.of_nat (length (mote_events mid (events st)))), st).

(** [{ ...payload, content, redacted, redacted_reason }] *)
Definition redacted_payload (fields : jsmap string json) : jsmap string json :=
  (jm_set "redacted_reason" (JString "deleted")
    (jm_set "redacted" (JBoolean true)
      (jm_set "content" (JString "[REDACTED]") fields)))%string.

(** The [continue] guards of the loop: is this entry's payload to be erased? *)
Definition redactable (mid nodeId : string) (e : EventLogEntry) : option (jsmap string json) :=
  if negb (bool_decide (motebit_id e = mid)) then None else
  if negb (bool_decide (event_type e = MemoryFormed)) then None else
  match payload e with
  | JObject fields =>
      if is_true (js_field "_encrypted" fields) then None else
      if negb (is_string nodeId (js_field "node_id" fields)) then None else
      if is_string "[REDACTED]" (js_field "content" fields)
         && is_string "deleted" (js_field "redacted_reason" fields) then None
      else Some fields
  | _ => None
  end.

Definition redact_step (mid nodeId : string) (st : list EventLogEntry * Z) (e : EventLogEntry)
    : list EventLogEntry * Z :=
  match redactable mid nodeId e with
  | Some fields => (st.1 ++ [set_payload (JObject (redacted_payload fields)) e], st.2 + 1)
  | None => (st.1 ++ [e], st.2)
  end.

Definition redactMemoryContent (mid nodeId : string) : log_call Z := fun st =>
  let '(es, changed) := foldl (redact_step mid nodeId) ([], 0) (events st) in
  (Ok changed, set_events es st).

(** ** Operations *)

Inductive log_op :=
| Append (e : EventLogEntry)
| AppendWithClock (e : EventLogEntry)
| Tombstone (eid mid : string)
| Compact (mid : string) (beforeClock : Z)
| Truncate (mid : string) (horizonTs : Z)
| Redact (mid nodeId : string).

Definition apply_log_op (op : log_op) (st : InMemoryEventStore) : InMemoryEventStore :=
  match op with
  | Append e => (append e st).2
  | AppendWithClock e => (appendWithClock e st).2
  | Tombstone eid mid => (tombstone eid mid st).2
  | Compact mid c => (compact mid c st).2
  | Truncate mid t => (truncateBeforeHorizon mid t st).2
  | Redact mid nid => (redactMemoryContent mid nid st).2
  end.

Definition run_log (ops : list log_op) (st : InMemoryEventStore) : InMemoryEventStore :=
  foldl (fun st op => apply_log_op op st) st ops.

(** ** The ids *)

Definition ids (st : InMemoryEventStore) : list string := event_id <$> events st.

Record log_ok (st : InMemoryEventStore) : Prop := {
  lo_distinct : NoDup (ids st);
  lo_seen : forall id, id ∈ ids st -> id ∈ seenIds st;
}.

Lemma new_store_ok : log_ok new_store.
Proof. split; cbn; [apply NoDup_nil_2|set_solver]. Qed.

Definition redact_event (mid nodeId : string) (e : EventLogEntry) : EventLogEntry :=
  match redactable mid nodeId e with
  | Some fields => set_payload (JObject (redacted_payload fields)) e
  | None => e
  end.

Definition redacts (mid nodeId : string) (e : EventLogEntry) : bool :=
  match redactable mid nodeId e with Some _ => true | None => false end.

Lemma redact_fold mid nid l acc n :
  foldl (redact_step mid nid) (acc, n) l
  = (acc ++ (redact_event mid nid <$> l),
     n + Z.of_nat (length (filter (fun e => redacts mid nid e = true) l))).
Proof.
  revert acc n. induction l as [|e l IH]; intros acc n; cbn [foldl].
  - by rewrite app_nil_r, Z.add_0_r.
  - rewrite fmap_cons, filter_cons.
    assert (redact_step mid nid (acc, n) e = (acc ++ [redact_event mid nid e],
      if redacts mid nid e then n + 1 else n)) as ->
      by (unfold redact_step, redact_event, redacts; by destruct (redactable mid nid e)).
    rewrite IH, <- app_assoc. case_decide as R; [rewrite R; cbn [length app]; f_equal; lia|].
    by destruct (redacts mid nid e).
Qed.

(** What each operation does to the events: keep some, rewrite their payload or
    mark in place, append at most one whose id is new. *)
Definition same_stamp (e e' : EventLogEntry) : Prop :=
  event_id e = event_id e' /\ motebit_id e = motebit_id e' /\ timestamp e = timestamp e' /\
  version_clock e = version_clock e'.

Lemma same_stamp_refl e : same_stamp e e.
Proof. done. Qed.

Lemma redact_same_stamp mid nid e : same_stamp e (redact_event mid nid e).
Proof. unfold redact_event. by destruct (redactable mid nid e). Qed.

Lemma tombstone_same_stamp eid mid l : Forall2 same_stamp l (tombstone_first eid mid l).
Proof.
  induction l as [|e l IH]; cbn; [constructor|]. case_match; constructor; try done.
  clear IH. induction l; by constructor.
Qed.

Lemma redact_events_same_stamp mid nid l : Forall2 same_stamp l (redact_event mid nid <$> l).
Proof. induction l; cbn; constructor; [apply redact_same_stamp|done]. Qed.

Definition pushes (op : log_op) (st : InMemoryEventStore) : option EventLogEntry :=
  match op with
  | Append e => if js_has (event_id e) (seenIds st) then None else Some e
  | AppendWithClock e =>
      if js_has (event_id e) (seenIds st) then None
      else Some (set_clock (match mote_events (motebit_id e) (events st) with
                            | [] => 1
                            | l => max_clock l + 1
                            end) e)
  | _ => None
  end.

Lemma op_effect op st :
  match pushes op st with
  | Some e => (event_id e ∉ seenIds st) /\ apply_log_op op st = push e st
  | None => seenIds (apply_log_op op st) = seenIds st /\
            exists l, sublist l (events st) /\ Forall2 same_stamp l (events (apply_log_op op st))
  end.
Proof.
  assert (forall l : list EventLogEntry, Forall2 same_stamp l l) as Hrefl
    by (induction l; by constructor).
  destruct op as [e|e|eid mid|mid c|mid t|mid nid]; cbn [pushes apply_log_op].
  - unfold append. destruct (js_has (event_id e) (seenIds st)) eqn:E; cbn [snd].
    + split; [done|]. by exists (events st).
    + split; [|done]. by apply bool_decide_eq_false in E.
  - unfold appendWithClock. destruct (js_has (event_id e) (seenIds st)) eqn:E.
    + case_match; cbn [snd]; (split; [done|]; by exists (events st)).
    + cbn [snd]. split; [by apply bool_decide_eq_false in E|]. unfold max_clock. by case_match.
  - split; [done|]. exists (events st). split; [done|]. apply tombstone_same_stamp.
  - split; [done|]. eexists. split; [|apply Hrefl]. cbn. apply sublist_filter.
  - split; [done|]. eexists. split; [|apply Hrefl]. cbn. apply sublist_filter.
  - unfold redactMemoryContent. rewrite redact_fold. cbn. split; [done|].
    exists (events st). split; [done|]. apply redact_events_same_stamp.
Qed.

Lemma stamp_ids l l' : Forall2 same_stamp l l' -> event_id <$> l' = event_id <$> l.
Proof. induction 1 as [|e e' l l' (H & _) _ IH]; [done|]. by rewrite !fmap_cons, IH, H. Qed.

Lemma sublist_ids (l l' : list EventLogEntry) : sublist l l' -> sublist (event_id <$> l) (event_id <$> l').
Proof. induction 1; cbn; by constructor. Qed.

Lemma log_op_ok op st : log_ok st ->
  log_ok (apply_log_op op st) /\
  (forall id, id ∈ seenIds st -> id ∈ seenIds (apply_log_op op st)) /\
  forall id, id ∈ seenIds st -> id ∈ ids (apply_log_op op st) -> id ∈ ids st.
Proof.
  intros [Hd Hs]. pose proof (op_effect op st) as H. destruct (pushes op st) as [e|].
  - destruct H as [He ->]. unfold ids, push in *. cbn [events seenIds] in *. rewrite fmap_app. cbn.
    split; [split|split].
    + unfold ids. cbn. rewrite fmap_app. apply NoDup_app. split; [done|]. split; [|apply NoDup_singleton].
      intros id Hid ->%list_elem_of_singleton. auto.
    + intros id. unfold ids. cbn. rewrite fmap_app, elem_of_app, js_add_elem. cbn.
      rewrite list_elem_of_singleton. naive_solver.
    + intros id Hid. apply js_add_elem. by right.
    + intros id Hid. rewrite elem_of_app, list_elem_of_singleton. by intros [?| ->].
  - destruct H as [Hseen (l & Hsub & Hst)]. pose proof (stamp_ids _ _ Hst) as Hids.
    apply sublist_ids in Hsub. unfold ids in *. rewrite Hids, Hseen.
    split; [split|split].
    + unfold ids. rewrite Hids. by eapply sublist_NoDup.
    + unfold ids. rewrite Hids, Hseen. intros id Hid. apply Hs.
      by eapply elem_of_sublist.
    + done.
    + intros id _ Hid. by eapply elem_of_sublist.
Qed.

Lemma run_log_ok ops st : log_ok st ->
  log_ok (run_log ops st) /\
  (forall id, id ∈ seenIds st -> id ∈ seenIds (run_log ops st)) /\
  forall id, id ∈ seenIds st -> id ∈ ids (run_log ops st) -> id ∈ ids st.
Proof.
  unfold run_log. revert st. induction ops as [|op ops IH]; intros st Hok; cbn [foldl]; [done|].
  destruct (log_op_ok op st Hok) as (H1 & H2 & H3).
  destruct (IH (apply_log_op op st) H1) as (H4 & H5 & H6). split; [done|]. split; auto.
Qed.

(** ** The clocks *)

Definition earlier (a b : EventLogEntry) : Prop :=
  motebit_id a = motebit_id b -> version_clock a < version_clock b.

(** Each motebit's clocks increase along the log. *)
Abbreviation clock_ordered := (StronglySorted earlier).

Lemma ssorted_sublist {A} (R : A -> A -> Prop) l l' :
  sublist l l' -> StronglySorted R l' -> StronglySorted R l.
Proof.
  induction 1 as [|x l l' Hs IH|x l l' Hs IH]; intros H; [done|..]; inversion H as [|y k H1 H2]; subst.
  - constructor; [auto|]. eapply Forall_forall. intros y Hy. eapply Forall_forall; [exact H2|].
    by eapply elem_of_sublist.
  - auto.
Qed.

Lemma ssorted_snoc {A} (R : A -> A -> Prop) l x :
  StronglySorted R l -> Forall (fun y => R y x) l -> StronglySorted R (l ++ [x]).
Proof.
  induction 1 as [|y l H IH Hy]; intros Hx; cbn; [by repeat constructor|].
  apply Forall_cons in Hx as [Hyx Hx]. constructor; [auto|]. apply Forall_app. by split; [|constructor].
Qed.

Lemma earlier_stamp a a' b b' : same_stamp a a' -> same_stamp b b' -> earlier a b -> earlier a' b'.
Proof. unfold same_stamp, earlier. intros (_ & H1 & _ & <-) (_ & H3 & _ & <-) H Hm. apply H. congruence. Qed.

Lemma ordered_stamp l l' : Forall2 same_stamp l l' -> clock_ordered l -> clock_ordered l'.
Proof.
  induction 1 as [|e e' l l' He Hl IH]; intros H; inversion H as [|x k H1 H2]; subst; constructor; [auto|].
  apply Forall_forall. intros b' Hb'. apply list_elem_of_lookup in Hb' as [i Hi].
  destruct (Forall2_lookup_r _ _ _ _ _ Hl Hi) as (b & Hb & Hs).
  apply (earlier_stamp e e' b b' He Hs). eapply Forall_forall; [exact H2|]. by eapply list_elem_of_lookup_2.
Qed.

Lemma max_clock_ge l e : e ∈ l -> version_clock e <= max_clock l.
Proof.
  destruct l as [|e0 l]; [by intros ?%elem_of_nil|]. cbn. intros [->|H]%elem_of_cons.
  - apply zmax_from_base.
  - apply zmax_from_ge. by apply list_elem_of_fmap_2.
Qed.

(** Written by this process: every event got its clock from [appendWithClock]. *)
Definition local_op (op : log_op) : Prop := match op with Append _ => False | _ => True end.

Lemma local_ordered op st :
  local_op op -> clock_ordered (events st) -> clock_ordered (events (apply_log_op op st)).
Proof.
  intros Hl Hc. pose proof (op_effect op st) as H. destruct (pushes op st) as [e|] eqn:E.
  - destruct H as [_ ->]. cbn. apply ssorted_snoc; [done|]. apply Forall_forall. intros b Hb Hm.
    destruct op as [|e0| | | |]; try done. cbn in E. case_match; [done|]. injection E as <-.
    cbn [set_clock motebit_id version_clock] in *.
    assert (b ∈ mote_events (motebit_id e0) (events st)) as Hin by by apply list_elem_of_filter.
    pose proof (max_clock_ge _ _ Hin). destruct (mote_events _ _);
      [by apply elem_of_nil in Hin|]. unfold max_clock in *. lia.
  - destruct H as [_ (l & Hsub & Hst)]. eapply ordered_stamp; [exact Hst|].
    by eapply ssorted_sublist.
Qed.

Lemma run_local_ordered ops st :
  Forall local_op ops -> clock_ordered (events st) -> clock_ordered (events (run_log ops st)).
Proof.
  unfold run_log. intros Hops. revert st. induction Hops as [|op ops Hop Hops IH]; intros st Hc; [done|].
  cbn [foldl]. apply IH. by apply local_ordered.
Qed.

Lemma js_sort_sorted_id {A} (le : A -> A -> bool) l :
  StronglySorted (fun x y => le x y = true) l -> js_sort le l = l.
Proof.
  induction 1 as [|x l H IH Hx]; [done|]. unfold js_sort in *. cbn [foldr]. rewrite IH.
  destruct l as [|y l]; [done|]. cbn. apply Forall_cons in Hx as [-> _]. done.
Qed.

(** ** Redaction *)

Lemma redacted_payload_get k fields :
  js_field k (redacted_payload fields) =
  if decide (k = "redacted_reason"%string) then JString "deleted"
  else if decide (k = "redacted"%string) then JBoolean true
  else if decide (k = "content"%string) then JString "[REDACTED]"
  else js_field k fields.
Proof. unfold js_field, redacted_payload. rewrite !jm_get_set. by repeat case_decide. Qed.

(** A redacted event is not redacted again. *)
Lemma redact_event_done mid nid e : redactable mid nid (redact_event mid nid e) = None.
Proof.
  unfold redact_event. destruct (redactable mid nid e) as [fields|] eqn:E; [|done].
  unfold redactable. cbn [set_payload motebit_id event_type payload].
  rewrite (redacted_payload_get "content"), (redacted_payload_get "redacted_reason").
  cbn [decide]. repeat (case_match; try done).
Qed.

(** A memory-formation event of the node, in clear. *)
Definition forms_node (mid nodeId : string) (e : EventLogEntry) : option (jsmap string json) :=
  match payload e with
  | JObject fields =>
      if bool_decide (motebit_id e = mid) && bool_decide (event_type e = MemoryFormed)
         && negb (is_true (js_field "_encrypted" fields))
         && is_string nodeId (js_field "node_id" fields)
      then Some fields else None
  | _ => None
  end.

Lemma forms_node_redactable mid nid e :
  redactable mid nid e = None <->
  match forms_node mid nid e with
  | Some fields => js_field "content" fields = JString "[REDACTED]" /\
                   js_field "redacted_reason" fields = JString "deleted"
  | None => True
  end.
Proof.
  unfold redactable, forms_node. destruct (bool_decide (motebit_id e = mid)); cbn; [|by destruct (payload e)].
  destruct (bool_decide (event_type e = MemoryFormed)); cbn; [|by destruct (payload e)].
  destruct (payload e) as [| | | | | |fields]; try done.
  destruct (is_true _); cbn; [done|]. destruct (is_string nid _); cbn; [|done].
  rewrite <- !is_string_spec. destruct (is_string "[REDACTED]" _), (is_string "deleted" _); cbn; naive_solver.
Qed.

Lemma redactable_forms mid nid e fields :
  redactable mid nid e = Some fields -> forms_node mid nid e = Some fields.
Proof.
  unfold redactable, forms_node.
  destruct (bool_decide (motebit_id e = mid)); cbn; [|done].
  destruct (bool_decide (event_type e = MemoryFormed)); cbn; [|done].
  destruct (payload e) as [| | | | | |fields']; try done.
  destruct (is_true _); cbn; [done|]. destruct (is_string nid _); cbn; [|done].
  by destruct (is_string _ _ && is_string _ _).
Qed.
