(* ===== verification/EventStore.v ===== *)
(** * The event store ([packages/event-log/src/index.ts])

    [EventStore]: the validating front of a storage adapter whose optional
    methods may be missing.  The adapter is a record of operations over its own
    state; [in_memory] is the one of [EventLog].  Signing a horizon certificate
    is a parameter. *)

From S2P Require Import Prelude JsMap Json EventLog.
Local Open Scope Z_scope.
Local Open Scope motebit_scope.

Record EventStoreAdapter (W : Type) := {
  ad_append : EventLogEntry -> call W event_error unit;
  ad_appendWithClock : option (EventLogEntry -> call W event_error Z);
  ad_query : EventFilter -> call W event_error (list EventLogEntry);
  ad_getLatestClock : string -> call W event_error Z;
  ad_tombstone : string -> string -> call W event_error unit;
  ad_compact : option (string -> Z -> call W event_error Z);
  ad_truncateBeforeHorizon : option (string -> Z -> call W event_error Z);
  ad_redactMemoryContent : option (string -> string -> call W event_error Z);
  ad_countEvents : option (string -> call W event_error Z);
}.
Arguments ad_append {W}.
Arguments ad_appendWithClock {W}.
Arguments ad_query {W}.
Arguments ad_getLatestClock {W}.
Arguments ad_tombstone {W}.
Arguments ad_compact {W}.
Arguments ad_truncateBeforeHorizon {W}.
Arguments ad_redactMemoryContent {W}.
Arguments ad_countEvents {W}.

Inductive HorizonSubject :=
| SubjectMotebit (motebit_id : string)
| SubjectOperator (operator_id : string).

(** The certificate body that is signed. *)
Record HorizonCertBody := {
  subject : HorizonSubject;
  store_id : string;
  horizon_ts : Z;
  issued_at : Z;
}.

Section event_store.
Context {W : Type} (adapter : EventStoreAdapter W).

Definition validated {A} (entry : EventLogEntry) (k : call W event_error A) : call W event_error A :=
  if bool_decide (event_id entry = EmptyString) then call_throw EmptyEventId else
  if bool_decide (motebit_id entry = EmptyString) then call_throw EmptyMotebitId else k.

Definition append (entry : EventLogEntry) : call W event_error unit :=
  validated entry (ad_append adapter entry).

Definition query (flt : EventFilter) : call W event_error (list EventLogEntry) := ad_query adapter flt.

Definition getLatestClock (mid : string) : call W event_error Z := ad_getLatestClock adapter mid.

Definition tombstone (eid mid : string) : call W event_error unit := ad_tombstone adapter eid mid.

(** [{ supported, changed }] *)
Definition redactMemoryEvents (mid nodeId : string) : call W event_error (bool * Z) :=
  match ad_redactMemoryContent adapter with
  | None => call_ret (false, 0)
  | Some redact => let! changed := redact mid nodeId in call_ret (true, changed)
  end.

Definition appendWithClock (entry : EventLogEntry) : call W event_error Z :=
  validated entry
    match ad_appendWithClock adapter with
    | Some awc => awc entry
    | None =>
        let! clock := ad_getLatestClock adapter (motebit_id entry) in
        ad_append adapter (set_clock (clock + 1) entry) ;! call_ret (clock + 1)
    end.

(** [a.version_clock - b.version_clock <= 0] *)
Definition clock_le (a b : EventLogEntry) : bool := bool_decide (version_clock a <= version_clock b).

(** [for (const event of sorted) await handler(event)] *)
Fixpoint for_each (handler : EventLogEntry -> call W event_error unit) (l : list EventLogEntry)
    : call W event_error unit :=
  match l with
  | [] => call_ret tt
  | e :: l => handler e ;! for_each handler l
  end.

Definition by_motebit (mid : string) : EventFilter := {|
  f_motebit_id := Some mid; f_event_types := None; f_after_timestamp := None;
  f_before_timestamp := None; f_after_version_clock := None; f_limit := None |}.

Definition replay (mid : string) (handler : EventLogEntry -> call W event_error unit)
    : call W event_error unit :=
  let! events := ad_query adapter (by_motebit mid) in
  for_each handler (js_sort clock_le events).

Definition compact (mid : string) (beforeClock : Z) : call W event_error Z :=
  match ad_compact adapter with None => call_ret 0 | Some f => f mid beforeClock end.

Definition countEvents (mid : string) : call W event_error Z :=
  match ad_countEvents adapter with None => call_ret (-1) | Some f => f mid end.

(** The operator-wide loop. *)
Fixpoint truncate_all (truncate : string -> Z -> call W event_error Z) (horizonTs : Z)
    (mids : list string) (truncatedCount : Z) : call W event_error Z :=
  match mids with
  | [] => call_ret truncatedCount
  | mid :: mids =>
      let! n := truncate mid horizonTs in
      truncate_all truncate horizonTs mids (truncatedCount + n)
  end.

Definition advanceHorizon {Cert} (sign : HorizonCertBody -> result event_error Cert)
    (storeId : string) (horizonTs : Z) (subj : HorizonSubject)
    (motebitIdsForOperator : option (list string)) (now : Z) : call W event_error (Cert * Z) :=
  match ad_truncateBeforeHorizon adapter with
  | None => call_throw HorizonUnsupported
  | Some truncate =>
      let! cert := fun w => (sign {| subject := subj; store_id := storeId;
                                     horizon_ts := horizonTs; issued_at := now |}, w) in
      let! truncatedCount :=
        match subj with
        | SubjectMotebit mid => truncate mid horizonTs
        | SubjectOperator _ =>
            match motebitIdsForOperator with
            | None => call_throw OperatorIdsRequired
            | Some mids => truncate_all truncate horizonTs mids 0
            end
        end in
      call_ret (cert, truncatedCount)
  end.
End event_store.

(** [new EventStore(new InMemoryEventStore())] *)
Definition in_memory : EventStoreAdapter InMemoryEventStore := {|
  ad_append := EventLog.append;
  ad_appendWithClock := Some EventLog.appendWithClock;
  ad_query := EventLog.query;
  ad_getLatestClock := EventLog.getLatestClock;
  ad_tombstone := EventLog.tombstone;
  ad_compact := Some EventLog.compact;
  ad_truncateBeforeHorizon := Some truncateBeforeHorizon;
  ad_redactMemoryContent := Some redactMemoryContent;
  ad_countEvents := Some EventLog.countEvents |}.

(** The subject's events older than the horizon. *)
Definition covered (subj : HorizonSubject) (mids : option (list string)) (mid : string) : Prop :=
  match subj with
  | SubjectMotebit m => mid = m
  | SubjectOperator _ => mid ∈ default [] mids
  end.

#[export] Instance covered_dec subj mids mid : Decision (covered subj mids mid).
Proof. destruct subj; cbn; apply _. Defined.

Lemma removed_sum (l l' l'' : list EventLogEntry) :
  removed_count l l' + removed_count l' l'' = removed_count l l''.
Proof. unfold removed_count. lia. Qed.

Lemma truncate_all_spec mids t n st :
  let kept := filter (fun e => motebit_id e ∉ mids \/ timestamp e >= t) (events st) in
  truncate_all truncateBeforeHorizon t mids n st
  = (Ok (n + removed_count (events st) kept), set_events kept st).
Proof.
  revert n st. induction mids as [|mid mids IH]; intros n [es seen]; cbn [truncate_all events].
  - assert (filter (fun e => motebit_id e ∉ @nil string \/ timestamp e >= t) es = es) as E.
    { rewrite (list_filter_iff _ (fun _ => True)) by (intros e; split; [done|]; left; apply not_elem_of_nil).
      induction es as [|e es IH]; [done|]. rewrite filter_cons, decide_True by done. by rewrite IH. }
    cbv zeta. rewrite E. unfold call_ret, set_events, removed_count. cbn. by rewrite Z.sub_diag, Z.add_0_r.
  - assert (filter (fun e => motebit_id e ∉ mids \/ timestamp e >= t)
      (filter (fun e => motebit_id e <> mid \/ timestamp e >= t) es)
      = filter (fun e => motebit_id e ∉ mid :: mids \/ timestamp e >= t) es) as E.
    { rewrite list_filter_filter. apply list_filter_iff. intros e. rewrite not_elem_of_cons. tauto. }
    unfold call_bind, truncateBeforeHorizon at 1. cbn [events set_events]. rewrite IH.
    cbn [set_events events seenIds]. rewrite E. unfold set_events. cbn [seenIds].
    rewrite <- Z.add_assoc. by rewrite removed_sum.
Qed.

(** * Properties *)

Lemma clock_le_sorted l : StronglySorted (fun a b => clock_le a b = true) (js_sort clock_le l).
Proof.
  apply js_sort_sorted; unfold clock_le.
  - intros x y. rewrite !bool_decide_eq_true. lia.
  - intros x y z. rewrite !bool_decide_eq_true. lia.
Qed.

(** One motebit's part of a clock-ordered log is already sorted. *)
Lemma mote_events_sorted mid l :
  StronglySorted earlier l -> js_sort clock_le (mote_events mid l) = mote_events mid l.
Proof.
  intros H. apply js_sort_sorted_id. unfold mote_events.
  induction H as [|e l H IH He]; [constructor|]. rewrite filter_cons. case_decide as Em; [|done].
  constructor; [done|]. apply Forall_forall. intros b [Hb Hin]%list_elem_of_filter.
  apply bool_decide_eq_true. rewrite Forall_forall in He. specialize (He b Hin). unfold earlier in He.
  assert (version_clock e < version_clock b) by (apply He; congruence). lia.
Qed.

(** C35: an event enters the log at most once, ever: whatever is appended,
    assigned a clock, tombstoned, redacted, compacted or truncated, event ids
    stay distinct, and an id that was seen and erased never comes back. *)
Theorem erased_events_stay_erased ops1 ops2 id :
  let st1 := run_log ops1 new_store in
  let st2 := run_log ops2 st1 in
  NoDup (ids st2) /\
  (id ∈ ids st1 -> id ∈ seenIds st2) /\
  (id ∈ seenIds st1 -> ~ (id ∈ ids st1) -> ~ (id ∈ ids st2)).
Proof.
  intros st1 st2. destruct (run_log_ok ops1 new_store new_store_ok) as (Hok1 & _ & _).
  destruct (run_log_ok ops2 st1 Hok1) as (Hok2 & Hseen & Hback). fold st1 in Hok1. fold st2 in Hok2, Hseen, Hback.
  split; [apply Hok2|]. split.
  - intros Hid. apply Hseen. by apply (lo_seen _ Hok1).
  - intros Hs Hn Hid. apply Hn. by apply Hback.
Qed.

(** [replay] hands over exactly the motebit's events, each once, in the
    order they were appended, when this process assigned their clocks. *)
Theorem replay_in_append_order ops mid handler :
  Forall local_op ops ->
  let st := run_log ops new_store in
  replay in_memory mid handler st = for_each handler (mote_events mid (events st)) st.
Proof.
  intros Hops st. unfold replay, call_bind, in_memory. cbn [ad_query].
  unfold EventLog.query, run_filter, by_motebit, when_set. cbn -[js_sort for_each].
  fold (mote_events mid (events st)). rewrite mote_events_sorted; [done|].
  apply run_local_ordered; [done|constructor].
Qed.

(** Advancing the horizon signs first and then erases exactly what the
    certificate covers: on success the certificate is the signature of the body
    with this horizon, the events left are those of other motebits or at least as
    young as the horizon, and the count is what was erased; a failed signature or
    a missing operator list erases nothing. *)
Theorem advanceHorizon_erases_covered {Cert} (sign : HorizonCertBody -> result event_error Cert)
    sid t subj mids now st :
  match advanceHorizon in_memory sign sid t subj mids now st with
  | (Ok (cert, n), st') =>
      sign {| subject := subj; store_id := sid; horizon_ts := t; issued_at := now |} = Ok cert /\
      events st' = filter (fun e => ~ covered subj mids (motebit_id e) \/ timestamp e >= t) (events st) /\
      n = removed_count (events st) (events st') /\ seenIds st' = seenIds st
  | (Throw e, st') => st' = st
  end.
Proof.
  unfold advanceHorizon. cbn [in_memory ad_truncateBeforeHorizon]. unfold call_bind.
  destruct (sign _) as [cert|e] eqn:Hs; [|done]. destruct subj as [mid|oid].
  - unfold truncateBeforeHorizon, call_ret. cbn [events set_events seenIds]. split; [done|].
    split; [by apply list_filter_iff|by split].
  - destruct mids as [mids|]; [|done]. rewrite truncate_all_spec. unfold call_ret.
    cbn [events set_events seenIds]. split; [done|]. split; [by apply list_filter_iff|by split].
Qed.

(** Redaction reaches every clear copy of the node's content and nothing
    else: it rewrites exactly the motebit's unencrypted formation events of the
    node that still hold content, counts them, leaves every one of that node's
    payloads saying redacted, and a second call changes nothing. *)
Theorem redaction_reaches_every_copy mid nid st :
  let '(r, st') := redactMemoryEvents in_memory mid nid st in
  r = Ok (true, Z.of_nat (length (filter (fun e => redacts mid nid e = true) (events st)))) /\
  Forall2 (fun e e' =>
    match forms_node mid nid e with
    | None => e' = e
    | Some fields => exists p, e' = set_payload p e /\
        exists fields', p = JObject fields' /\
          js_field "content" fields' = JString "[REDACTED]" /\
          forall k, k <> "content" -> k <> "redacted" -> k <> "redacted_reason" ->
            js_field k fields' = js_field k fields
    end)%string (events st) (events st') /\
  redactMemoryEvents in_memory mid nid st' = (Ok (true, 0), st').
Proof.
  unfold redactMemoryEvents. cbn [in_memory ad_redactMemoryContent].
  unfold redactMemoryContent, call_bind, call_ret. rewrite redact_fold. cbn [app Z.add].
  split; [done|]. cbn [set_events events]. split.
  - rewrite Forall2_fmap_r. apply Forall_Forall2_diag, Forall_forall. intros e _.
    unfold redact_event. destruct (redactable mid nid e) as [fields|] eqn:E.
    + rewrite (redactable_forms _ _ _ _ E). exists (JObject (redacted_payload fields)).
      split; [by rewrite E|]. exists (redacted_payload fields). split; [done|].
      rewrite redacted_payload_get. split; [done|]. intros k H1 H2 H3.
      rewrite redacted_payload_get. by rewrite !decide_False.
    + pose proof E as E0. apply forms_node_redactable in E. destruct (forms_node mid nid e) as [fields|] eqn:F; [|cbn; by rewrite E0].
      assert (payload e = JObject fields) as Hp.
      { unfold forms_node in F. destruct (payload e); try done. case_match; [|done]. by simplify_eq. }
      exists (payload e). split; [rewrite E0; by destruct e|]. exists fields. split; [done|]. by destruct E.
  - rewrite redact_fold. cbn [app Z.add]. unfold set_events. cbn [events seenIds].
    assert (forall l, (redact_event mid nid <$> (redact_event mid nid <$> l)) = redact_event mid nid <$> l /\
      filter (fun e => redacts mid nid e = true) (redact_event mid nid <$> l) = []) as H.
    { induction l as [|e l [IH1 IH2]]; [done|]. rewrite !fmap_cons, filter_cons, IH1, IH2.
      unfold redacts, redact_event at 1. rewrite redact_event_done. by rewrite decide_False. }
    destruct (H (events st)) as [-> ->]. done.
Qed.

(** Erasing a motebit's log forgets where its clock was, and its ids are then
    not appendable: after the only event [e] of a motebit falls before a horizon,
    appending it again with a clock throws on the missing array entry, and the
    motebit's next event gets clock 1, the clock [e] had. *)
Theorem truncation_forgets_clock e e' :
  event_id e <> EmptyString -> motebit_id e <> EmptyString ->
  event_id e' <> EmptyString -> event_id e' <> event_id e -> motebit_id e' = motebit_id e ->
  let st := run_log [AppendWithClock e; Truncate (motebit_id e) (timestamp e + 1)] new_store in
  (appendWithClock in_memory e new_store).1 = Ok 1 /\
  (appendWithClock in_memory e st).1 = Throw TypeError /\
  (appendWithClock in_memory e' st).1 = Ok 1.
Proof.
  intros H1 H2 H3 H4 H5 st.
  assert (st = {| events := []; seenIds := [event_id e] |}) as ->.
  { unfold st, run_log. cbn [foldl apply_log_op].
    assert ((EventLog.appendWithClock e new_store).2
      = {| events := [set_clock 1 e]; seenIds := [event_id e] |}) as -> by reflexivity.
    unfold truncateBeforeHorizon, set_events. cbn [events seenIds snd]. f_equal.
    rewrite filter_cons, decide_False; [done|]. cbn. intros [?|?]; [done|lia]. }
  unfold appendWithClock, validated. rewrite !bool_decide_eq_false_2 by (try done; congruence).
  cbn [in_memory ad_appendWithClock]. unfold EventLog.appendWithClock, js_has. cbn [seenIds events new_store].
  split; [done|]. rewrite bool_decide_eq_true_2 by (by left). split; [done|].
  rewrite bool_decide_eq_false_2; [done|]. by intros ?%list_elem_of_singleton.
Qed.

(** ** Witnesses *)

Definition demo_event (id : string) (t : Z) (p : json) : EventLogEntry := {|
  event_id := id; motebit_id := "m1"; device_id := None; timestamp := t;
  event_type := MemoryFormed; payload := p; version_clock := 0; tombstoned := false |}%string.

Definition demo_log : list log_op :=
  [AppendWithClock (demo_event "e1" 10 JNull); AppendWithClock (demo_event "e2" 20 JNull);
   Tombstone "e1" "m1"; AppendWithClock (demo_event "e3" 30 JNull); Compact "m1" 1]%string.

Lemma erased_events_stay_erased_witness :
  ids (run_log [AppendWithClock (demo_event "e1" 10 JNull)] (run_log demo_log new_store))
  = ["e2"; "e3"]%string /\
  ~ ("e1"%string ∈ ids (run_log [AppendWithClock (demo_event "e1" 10 JNull)] (run_log demo_log new_store))).
Proof.
  split; [vm_compute; reflexivity|].
  apply (erased_events_stay_erased demo_log [AppendWithClock (demo_event "e1" 10 JNull)] "e1").
  - vm_compute. repeat constructor.
  - apply (bool_decide_unpack _). vm_compute. exact I.
Defined.

Lemma replay_in_append_order_witness :
  Forall local_op demo_log /\
  (replay in_memory "m1" (fun e => EventLog.tombstone (event_id e) "m1") (run_log demo_log new_store)).1
  = Ok tt.
Proof.
  assert (Forall local_op demo_log) as H by (repeat constructor). split; [exact H|].
  rewrite (replay_in_append_order demo_log "m1" (fun e => EventLog.tombstone (event_id e) "m1") H).
  vm_compute. reflexivity.
Defined.

Lemma truncation_forgets_clock_witness :
  (appendWithClock in_memory (demo_event "e1" 10 JNull)
    (run_log [AppendWithClock (demo_event "e1" 10 JNull); Truncate "m1" 11] new_store)).1 = Throw TypeError.
Proof.
  exact (proj1 (proj2 (truncation_forgets_clock (demo_event "e1" 10 JNull) (demo_event "e2" 20 JNull)
    ltac:(discriminate) ltac:(discriminate) ltac:(discriminate) ltac:(discriminate) eq_refl))).
Defined.
