(* ===== verification/ConflictResolver.v ===== *)
(** * Sync conflict resolution ([packages/sync-engine/src/conflict-resolver.ts])

    The last-writer-wins resolver, the append-only merge of conversations and the
    bounded tracker of conflict events.  [localeCompare] is a parameter: the
    collation of the host. *)

From S2P Require Import Prelude JsMap JsString.
Local Open Scope Z_scope.

Inductive ConflictStrategy := local_wins | remote_wins | merge.

Record Versioned := {
  version : Z;
  timestamp : Z;
  device_id : string;
}.

#[export] Instance Versioned_eq_dec : EqDecision Versioned.
Proof. solve_decision. Defined.

(** [resolved] is the value, with its [Versioned] fields when they were not
    stripped. *)
Record ConflictResult (T : Type) := {
  resolved : T * option Versioned;
  strategy : ConflictStrategy;
  conflicted : bool;
}.
Arguments resolved {T}.
Arguments strategy {T}.
Arguments conflicted {T}.

(** ** Last writer wins *)

Inductive side := Local | Remote.

Definition pickWinner (local remote : Versioned) : side :=
  if negb (bool_decide (version local = version remote)) then
    if bool_decide (version local > version remote) then Local else Remote
  else if negb (bool_decide (timestamp local = timestamp remote)) then
    if bool_decide (timestamp local > timestamp remote) then Local else Remote
  else if str_geb (device_id local) (device_id remote) then Local else Remote.

Section lww.
Context {T : Type}.

Definition lww_resolve (local remote : T * Versioned) : ConflictResult T :=
  if bool_decide (version local.2 = version remote.2)
     && bool_decide (timestamp local.2 = timestamp remote.2)
     && bool_decide (device_id local.2 = device_id remote.2)
  then {| resolved := (local.1, Some local.2); strategy := local_wins; conflicted := false |}
  else
    let conflict := bool_decide (version local.2 = version remote.2)
                    && negb (bool_decide (device_id local.2 = device_id remote.2)) in
    let winner := pickWinner local.2 remote.2 in
    {| resolved := (match winner with Local => local.1 | Remote => remote.1 end, None);
       strategy := match winner with Local => local_wins | Remote => remote_wins end;
       conflicted := conflict |}.
End lww.

(** ** Conversations *)

Record SyncConversation := {
  conversation_id : string;
  conv_motebit_id : string;
  started_at : Z;
  last_active_at : Z;
  title : option string;
  summary : option string;
  message_count : Z;
}.

Record SyncConversationMessage := {
  message_id : string;
  msg_conversation_id : string;
  msg_motebit_id : string;
  role : string;
  content : string;
  tool_calls : option string;
  tool_call_id : option string;
  created_at : Z;
  token_estimate : Z;
  sensitivity : option string;
}.

Record ConversationWithMessages := {
  conversation : SyncConversation;
  messages : list SyncConversationMessage;
}.

Definition set_message_count (n : Z) (c : SyncConversation) : SyncConversation := {|
  conversation_id := conversation_id c; conv_motebit_id := conv_motebit_id c;
  started_at := started_at c; last_active_at := last_active_at c; title := title c;
  summary := summary c; message_count := n |}.

Section append_only.
Context (localeCompare : string -> string -> Z).

(** The comparator is not positive. *)
Definition message_le (a b : SyncConversationMessage) : bool :=
  if negb (bool_decide (created_at a = created_at b)) then bool_decide (created_at a - created_at b <= 0)
  else bool_decide (localeCompare (message_id a) (message_id b) <= 0).

Definition message_map (local remote : list SyncConversationMessage)
    : jsmap string SyncConversationMessage :=
  foldl (fun m msg => if jm_has (message_id msg) m then m else jm_set (message_id msg) msg m)
    (foldl (fun m msg => jm_set (message_id msg) msg m) [] local) remote.

Definition merge_messages (local remote : list SyncConversationMessage) : list SyncConversationMessage :=
  js_sort message_le (jm_values (message_map local remote)).

(** [xs.some((m) => !ids.has(m.message_id))] *)
Definition some_missing (xs ys : list SyncConversationMessage) : bool :=
  existsb (fun m => negb (js_has (message_id m) (js_set_of (message_id <$> ys)))) xs.

(** The conversation, with the [Versioned] fields the metadata result carries. *)
Definition merge_resolve (local remote : ConversationWithMessages * Versioned)
    : ConflictResult (list SyncConversationMessage * SyncConversation) :=
  let metadataResult := lww_resolve (conversation local.1, local.2) (conversation remote.1, remote.2) in
  let mergedMessages := merge_messages (messages local.1) (messages remote.1) in
  let mergedConversation :=
    set_message_count (Z.of_nat (length mergedMessages)) (resolved metadataResult).1 in
  let localOnly := some_missing (messages local.1) (messages remote.1) in
  let remoteOnly := some_missing (messages remote.1) (messages local.1) in
  let isMerge := localOnly && remoteOnly in
  {| resolved := ((mergedMessages, mergedConversation), (resolved metadataResult).2);
     strategy := if isMerge then merge else strategy metadataResult;
     conflicted := isMerge || conflicted metadataResult |}.
End append_only.

(** ** The tracker *)

Record ConflictEvent := {
  conflict_id : string;
  data_type : string;
  ev_strategy : ConflictStrategy;
  ev_conflicted : bool;
  resolved_at : Z;
  local_version : Z;
  remote_version : Z;
  local_device_id : string;
  remote_device_id : string;
}.

Record ConflictTracker := {
  events : list ConflictEvent;
  maxEvents : Z;
}.

Definition new_tracker (max : option Z) : ConflictTracker :=
  {| events := []; maxEvents := default 100 max |}.

Definition stamp (id : string) (now : Z) (e : ConflictEvent) : ConflictEvent := {|
  conflict_id := id; data_type := data_type e; ev_strategy := ev_strategy e;
  ev_conflicted := ev_conflicted e; resolved_at := now; local_version := local_version e;
  remote_version := remote_version e; local_device_id := local_device_id e;
  remote_device_id := remote_device_id e |}.

(** The recorded event, the tracker, and what is logged. *)
Definition record (uuid : string) (now : Z) (e : ConflictEvent) (t : ConflictTracker)
    : ConflictEvent * ConflictTracker * list ConflictEvent :=
  let full := stamp uuid now e in
  let pushed := events t ++ [full] in
  let kept := if decide (Z.of_nat (length pushed) > maxEvents t) then tail pushed else pushed in
  (full, {| events := kept; maxEvents := maxEvents t |}, if ev_conflicted full then [full] else []).

Definition getEvents (t : ConflictTracker) : list ConflictEvent := events t.
Definition getLastConflict (t : ConflictTracker) : option ConflictEvent := last (events t).
Definition clear (t : ConflictTracker) : ConflictTracker := {| events := []; maxEvents := maxEvents t |}.

(** ** What the merge map holds *)

Abbreviation msgs := (list SyncConversationMessage).

(** Messages are never edited: one id names one message. *)
Definition consistent (l : msgs) : Prop :=
  forall a b, a ∈ l -> b ∈ l -> message_id a = message_id b -> a = b.

Lemma consistent_sub l l' : (forall m, m ∈ l -> m ∈ l') -> consistent l' -> consistent l.
Proof. intros Hsub H a b Ha Hb. apply H; auto. Qed.

Definition holds (m : jsmap string SyncConversationMessage) (l : msgs) : Prop :=
  jm_wf m /\ forall k x, jm_get k m = Some x <-> x ∈ l /\ message_id x = k.

Lemma holds_set m l x :
  consistent (l ++ [x]) -> holds m l -> holds (jm_set (message_id x) x m) (l ++ [x]).
Proof.
  intros Hc [Hwf Hm]. split; [by apply jm_wf_set|]. intros k y. rewrite jm_get_set, elem_of_app.
  rewrite list_elem_of_singleton. destruct (decide (k = message_id x)) as [->|Hk].
  - split; [intros [= <-]; auto|]. intros [[Hy| ->] Hid]; [|done]. f_equal.
    apply Hc; [|..|done]; apply elem_of_app; [by right; left|by left].
  - rewrite Hm. naive_solver.
Qed.

Lemma holds_skip m l x :
  consistent (l ++ [x]) -> jm_has (message_id x) m = true -> holds m l -> holds m (l ++ [x]).
Proof.
  intros Hc Hh [Hwf Hm]. split; [done|]. intros k y. rewrite Hm, elem_of_app, list_elem_of_singleton.
  split; [naive_solver|]. intros [[Hy| ->] Hid]; [done|]. split; [|done].
  unfold jm_has in Hh. destruct (jm_get (message_id x) m) as [y|] eqn:E; [|done].
  apply Hm in E as [Hy Hidy]. assert (y = x) as <-; [|done].
  apply Hc; [| |done]; apply elem_of_app; [by left|by right; left].
Qed.

Lemma holds_fold (step : jsmap string SyncConversationMessage -> SyncConversationMessage -> _) m l l' :
  (forall m l x, consistent (l ++ [x]) -> holds m l -> holds (step m x) (l ++ [x])) ->
  consistent (l ++ l') -> holds m l -> holds (foldl step m l') (l ++ l').
Proof.
  intros Hstep. revert m l. induction l' as [|x l' IH]; intros m l Hc Hm; cbn [foldl].
  - by rewrite app_nil_r.
  - rewrite cons_middle, app_assoc in Hc |- *. apply IH; [done|]. apply Hstep; [|done].
    eapply consistent_sub; [|exact Hc]. intros y. rewrite !elem_of_app. tauto.
Qed.

Lemma message_map_holds l r : consistent (l ++ r) -> holds (message_map l r) (l ++ r).
Proof.
  intros Hc. unfold message_map. apply holds_fold; [|done|].
  - intros m l0 x Hcx Hm. destruct (jm_has (message_id x) m) eqn:E; [by apply holds_skip|by apply holds_set].
  - apply (holds_fold _ [] []); [apply holds_set| |].
    + eapply consistent_sub; [|exact Hc]. set_solver.
    + split; [apply jm_wf_empty|]. intros k x. cbn. rewrite elem_of_nil. naive_solver.
Qed.

Lemma holds_values m l : holds m l -> NoDup (jm_values m) /\ forall x, x ∈ jm_values m <-> x ∈ l.
Proof.
  intros [Hwf Hm]. split.
  - assert (jm_keys m = message_id <$> jm_values m) as E.
    { unfold jm_keys, jm_values. rewrite <- list_fmap_compose. apply list_fmap_ext. intros i [k x] Hi.
      cbn. apply list_elem_of_lookup_2 in Hi. apply jm_elem_get in Hi; [|done]. by apply Hm in Hi as [_ <-]. }
    unfold jm_wf in Hwf. rewrite E in Hwf. by eapply NoDup_fmap_1.
  - intros x. unfold jm_values. rewrite list_elem_of_fmap. split.
    + intros ([k y] & -> & Hi). apply jm_elem_get in Hi; [|done]. by apply Hm in Hi as [? _].
    + intros Hx. exists (message_id x, x). split; [done|]. apply jm_get_elem. by apply Hm.
Qed.

(** ** The merge is determined by the set of messages *)

(** What the collation is relied on for: a total order on ids. *)
Record collation (localeCompare : string -> string -> Z) : Prop := {
  lc_total a b : localeCompare a b <= 0 \/ localeCompare b a <= 0;
  lc_trans a b c : localeCompare a b <= 0 -> localeCompare b c <= 0 -> localeCompare a c <= 0;
  lc_antisym a b : localeCompare a b <= 0 -> localeCompare b a <= 0 -> a = b;
}.

Section merging.
Context (lc : string -> string -> Z) (Hlc : collation lc).

Abbreviation sorted := (StronglySorted (fun a b => message_le lc a b = true)).

Lemma message_le_spec a b :
  message_le lc a b = true <->
  created_at a < created_at b \/ (created_at a = created_at b /\ lc (message_id a) (message_id b) <= 0).
Proof.
  unfold message_le. destruct (decide (created_at a = created_at b)) as [E|E].
  - rewrite bool_decide_eq_true_2 by done. cbn. rewrite bool_decide_eq_true. lia.
  - rewrite bool_decide_eq_false_2 by done. cbn. rewrite bool_decide_eq_true. lia.
Qed.

Lemma message_le_total a b : message_le lc a b = true \/ message_le lc b a = true.
Proof.
  rewrite !message_le_spec. pose proof (lc_total _ Hlc (message_id a) (message_id b)). lia.
Qed.

Lemma message_le_trans a b c :
  message_le lc a b = true -> message_le lc b c = true -> message_le lc a c = true.
Proof.
  rewrite !message_le_spec. pose proof (lc_trans _ Hlc (message_id a) (message_id b) (message_id c)). lia.
Qed.

Lemma merge_spec l r : consistent (l ++ r) ->
  sorted (merge_messages lc l r) /\ NoDup (merge_messages lc l r) /\
  forall m, m ∈ merge_messages lc l r <-> m ∈ l \/ m ∈ r.
Proof.
  intros Hc. destruct (holds_values _ _ (message_map_holds l r Hc)) as [Hnd Hin]. unfold merge_messages.
  split; [apply js_sort_sorted; [apply message_le_total|apply message_le_trans]|]. split.
  - by rewrite js_sort_perm.
  - intros m. rewrite js_sort_elem, Hin. apply elem_of_app.
Qed.

Lemma sorted_unique l1 l2 :
  consistent l1 -> sorted l1 -> sorted l2 -> NoDup l1 -> NoDup l2 ->
  (forall m, m ∈ l1 <-> m ∈ l2) -> l1 = l2.
Proof.
  intros Hc H1 H2 N1 N2 Hm. eapply sorted_perm_unique; [|exact H1|exact H2|by apply NoDup_Permutation].
  intros a b Ha Hb Hab Hba. apply Hc; [done|done|]. apply message_le_spec in Hab, Hba.
  apply (lc_antisym _ Hlc); lia.
Qed.

Lemma merge_eq l r l' r' :
  consistent (l ++ r) -> (forall m, m ∈ l ++ r <-> m ∈ l' ++ r') ->
  merge_messages lc l r = merge_messages lc l' r'.
Proof.
  intros Hc Hm.
  assert (consistent (l' ++ r')) as Hc' by (eapply consistent_sub; [|exact Hc]; intros m; by rewrite Hm).
  destruct (merge_spec l r Hc) as (S1 & N1 & E1), (merge_spec l' r' Hc') as (S2 & N2 & E2).
  apply sorted_unique; try done.
  - eapply consistent_sub; [|exact Hc]. intros m. by rewrite E1, elem_of_app.
  - intros m. by rewrite E1, E2, <- !elem_of_app.
Qed.
End merging.

(** ** The winner *)

Lemma str_geb_false a b : str_geb a b = false -> str_geb b a = true.
Proof. intros H. destruct (str_geb_total a b); congruence. Qed.

Definition other (s : side) : side := match s with Local => Remote | Remote => Local end.

Lemma pickWinner_mirror a b : a <> b -> pickWinner b a = other (pickWinner a b).
Proof.
  intros Hne. destruct a as [va ta da], b as [vb tb db]. unfold pickWinner. cbn.
  destruct (decide (va = vb)) as [->|Hv].
  - rewrite (bool_decide_eq_true_2 (vb = vb)) by done. cbn. destruct (decide (ta = tb)) as [->|Ht].
    + rewrite (bool_decide_eq_true_2 (tb = tb)) by done. cbn.
      destruct (str_geb da db) eqn:E1, (str_geb db da) eqn:E2; try done.
      * exfalso. apply Hne. f_equal. by apply str_geb_antisym.
      * apply str_geb_false in E1. congruence.
    + rewrite (bool_decide_eq_false_2 (ta = tb)), (bool_decide_eq_false_2 (tb = ta)) by congruence. cbn.
      repeat case_bool_decide; cbn; lia || done.
  - rewrite (bool_decide_eq_false_2 (va = vb)), (bool_decide_eq_false_2 (vb = va)) by congruence. cbn.
    repeat case_bool_decide; cbn; lia || done.
Qed.

Lemma same_version_spec (a b : Versioned) :
  bool_decide (version a = version b) && bool_decide (timestamp a = timestamp b)
  && bool_decide (device_id a = device_id b) = bool_decide (a = b).
Proof.
  destruct a as [va ta da], b as [vb tb db]. cbn. apply eq_true_iff_eq.
  rewrite !andb_true_iff, !bool_decide_eq_true. split; [by intros [[-> ->] ->]|by intros [= -> -> ->]].
Qed.

Lemma ssorted_impl {A} (R R' : A -> A -> Prop) l :
  (forall x y, R x y -> R' x y) -> StronglySorted R l -> StronglySorted R' l.
Proof.
  intros HR. induction 1 as [|x l H IH Hx]; constructor; [done|]. eapply Forall_impl; [exact Hx|]. auto.
Qed.

Lemma lww_mirror {T} (a b : T * Versioned) :
  (a.2 = b.2 -> a.1 = b.1) ->
  resolved (lww_resolve a b) = resolved (lww_resolve b a) /\
  conflicted (lww_resolve a b) = conflicted (lww_resolve b a) /\
  (a.2 <> b.2 -> strategy (lww_resolve b a) =
     match strategy (lww_resolve a b) with local_wins => remote_wins | _ => local_wins end).
Proof.
  intros Hsame. unfold lww_resolve. rewrite !same_version_spec.
  destruct (decide (a.2 = b.2)) as [E|E].
  - rewrite (bool_decide_eq_true_2 (a.2 = b.2)), (bool_decide_eq_true_2 (b.2 = a.2)) by done. cbn.
    by rewrite Hsame, E by done.
  - rewrite (bool_decide_eq_false_2 (a.2 = b.2)), (bool_decide_eq_false_2 (b.2 = a.2)) by congruence.
    cbn -[pickWinner].
    rewrite (pickWinner_mirror a.2 b.2) by done. split; [by destruct (pickWinner a.2 b.2)|].
    split; [|by destruct (pickWinner a.2 b.2)].
    assert (forall (P Q : Prop) `{!Decision P, !Decision Q}, (P <-> Q) -> bool_decide P = bool_decide Q) as Hext
      by (intros; by apply bool_decide_ext).
    f_equal; [apply Hext|f_equal; apply Hext]; split; by intros ->.
Qed.

(** * Properties *)

(** Merging message histories is a grow-only set: when one id names one
    message, the merge is commutative, associative and idempotent, keeps every
    message of both sides exactly once, and lists them by creation time. *)
Theorem merge_is_a_join lc a b c :
  collation lc -> consistent (a ++ b ++ c) ->
  let merge := merge_messages lc in
  merge a b = merge b a /\ merge (merge a b) c = merge a (merge b c) /\
  merge a (merge a b) = merge a b /\ NoDup (merge a b) /\
  (forall m, m ∈ merge a b <-> m ∈ a \/ m ∈ b) /\
  StronglySorted (fun x y => created_at x <= created_at y) (merge a b).
Proof.
  intros Hlc Hc merge.
  assert (forall l, (forall m, m ∈ l -> m ∈ a ++ b ++ c) -> consistent l) as Hsub
    by (intros l Hl; exact (consistent_sub _ _ Hl Hc)).
  assert (forall l r, (forall m, m ∈ l ++ r -> m ∈ a ++ b ++ c) ->
    NoDup (merge l r) /\ forall m, m ∈ merge l r <-> m ∈ l \/ m ∈ r) as Hm
    by (intros l r Hl; by apply (merge_spec lc Hlc l r (Hsub _ Hl))).
  destruct (Hm a b ltac:(set_solver)) as [Nab Eab].
  destruct (Hm b c ltac:(set_solver)) as [_ Ebc].
  assert (forall l r l' r', (forall m, m ∈ l ++ r -> m ∈ a ++ b ++ c) ->
    (forall m, m ∈ l ++ r <-> m ∈ l' ++ r') -> merge l r = merge l' r') as Heq
    by (intros l r l' r' Hl; apply merge_eq; [done|by apply Hsub]).
  split; [apply Heq; set_solver|].
  split; [apply Heq; intros m; rewrite !elem_of_app, ?Eab, ?Ebc; tauto|].
  split; [apply Heq; intros m; rewrite !elem_of_app, ?Eab; tauto|].
  split; [done|]. split; [done|].
  destruct (merge_spec lc Hlc a b ltac:(apply Hsub; set_solver)) as [S _].
  eapply ssorted_impl; [|exact S]. intros x y H%message_le_spec. lia.
Qed.


Definition record_all (l : list (string * Z * ConflictEvent)) (t : ConflictTracker) : ConflictTracker :=
  foldl (fun t e => (record e.1.1 e.1.2 e.2 t).1.2) t l.

Lemma tail_drop {A} n (l : list A) : tail (drop n l) = drop (S n) l.
Proof. revert l. induction n as [|n IH]; intros [|x l]; try done. cbn. by rewrite IH. Qed.

Lemma record_all_events l max :
  0 <= max ->
  getEvents (record_all l (new_tracker (Some max)))
  = drop (length l - Z.to_nat max) ((fun e => stamp e.1.1 e.1.2 e.2) <$> l) /\
  maxEvents (record_all l (new_tracker (Some max))) = max.
Proof.
  intros Hmax. induction l as [|e l [IH1 IH2]] using rev_ind; [done|].
  unfold record_all in *. rewrite foldl_app, fmap_app. cbn [foldl].
  set (t0 := foldl _ _ l) in *. unfold record, getEvents in *. cbn [fst snd events maxEvents].
  split; [|done]. rewrite IH1, IH2, !length_app, length_drop, length_fmap. cbn [length fmap list_fmap].
  set (all := _ <$> l).
  assert (length all = length l) as Hall by apply length_fmap.
  assert (drop (length l - Z.to_nat max) all ++ [stamp e.1.1 e.1.2 e.2]
    = drop (length l - Z.to_nat max) (all ++ [stamp e.1.1 e.1.2 e.2])) as ->.
  { rewrite drop_app_le; [done|lia]. }
  case_decide as E.
  - rewrite tail_drop. f_equal. lia.
  - f_equal. lia.
Qed.

(** The tracker holds the latest [maxEvents] conflicts, in the order they were
    recorded, however many were; the last one is the most recent. *)
Theorem tracker_keeps_latest l max :
  0 <= max ->
  let t := record_all l (new_tracker (Some max)) in
  let all := (fun e => stamp e.1.1 e.1.2 e.2) <$> l in
  getEvents t = drop (length l - Z.to_nat max) all /\
  getLastConflict t = (if decide (max = 0) then None else last all).
Proof.
  intros Hmax t all. destruct (record_all_events l max Hmax) as [He _]. fold t all in He.
  split; [done|]. unfold getLastConflict, getEvents in *. rewrite He.
  assert (length all = length l) as Hall by apply length_fmap. case_decide as E.
  - rewrite drop_ge; [done|]. lia.
  - destruct l as [|e l _] using rev_ind; [done|]. unfold all. rewrite length_app, fmap_app.
    cbn [length fmap list_fmap]. rewrite drop_app_le by (rewrite length_fmap; lia). by rewrite !last_snoc.
Qed.

(** ** Witnesses *)

(** A collation: code points, through an injective numbering. *)
Definition demo_compare (a b : string) : Z := Z.pos (encode a) - Z.pos (encode b).

Lemma demo_collation : collation demo_compare.
Proof.
  split; unfold demo_compare; [lia|lia|]. intros a b H1 H2. apply (inj encode).
  assert (Z.pos (encode a) = Z.pos (encode b)) as E by lia. by injection E.
Qed.

Definition demo_message (id : string) (at_ : Z) : SyncConversationMessage := {|
  message_id := id; msg_conversation_id := "c"; msg_motebit_id := "m"; role := "user"; content := id;
  tool_calls := None; tool_call_id := None; created_at := at_; token_estimate := 1;
  sensitivity := None |}%string.

Definition demo_conversation (title : string) : SyncConversation := {|
  conversation_id := "c"; conv_motebit_id := "m"; started_at := 0; last_active_at := 9;
  title := Some title; summary := None; message_count := 2 |}%string.

Definition demo_side (title dev : string) (ids : msgs) : ConversationWithMessages * Versioned :=
  ({| conversation := demo_conversation title; messages := ids |},
   {| version := 3; timestamp := 50; device_id := dev |}).

Definition demo_local := demo_side "notes" "phone" [demo_message "a" 1; demo_message "c" 3]%string.
Definition demo_remote := demo_side "draft" "laptop" [demo_message "b" 2; demo_message "a" 1]%string.

Lemma consistent_by_ids (l : msgs) :
  Forall (fun a => Forall (fun b => message_id a = message_id b -> a = b) l) l -> consistent l.
Proof.
  intros H a b Ha Hb. rewrite Forall_forall in H. specialize (H a Ha). rewrite Forall_forall in H. auto.
Qed.

Lemma demo_consistent :
  consistent ([demo_message "a" 1; demo_message "c" 3]%string ++ [demo_message "b" 2; demo_message "a" 1]%string).
Proof. apply consistent_by_ids. repeat constructor; cbn; congruence. Qed.

Lemma merge_is_a_join_witness :
  merge_messages demo_compare [demo_message "a" 1; demo_message "c" 3]%string
    [demo_message "b" 2; demo_message "a" 1]%string
  = merge_messages demo_compare [demo_message "b" 2; demo_message "a" 1]%string
      [demo_message "a" 1; demo_message "c" 3]%string.
Proof.
  apply (merge_is_a_join demo_compare [demo_message "a" 1; demo_message "c" 3]%string
    [demo_message "b" 2; demo_message "a" 1]%string [] demo_collation).
  rewrite app_nil_r. exact demo_consistent.
Defined.


Definition demo_conflict : ConflictEvent := {|
  conflict_id := ""; data_type := "plan"; ev_strategy := local_wins; ev_conflicted := true;
  resolved_at := 0; local_version := 1; remote_version := 1; local_device_id := "a";
  remote_device_id := "b" |}%string.

Lemma tracker_keeps_latest_witness :
  0 <= 1 /\
  getEvents (record_all [("x", 1, demo_conflict); ("y", 2, demo_conflict)]%string (new_tracker (Some 1)))
  = [stamp "y" 2 demo_conflict].
Proof.
  split; [lia|].
  exact (proj1 (tracker_keeps_latest [("x", 1, demo_conflict); ("y", 2, demo_conflict)]%string 1 ltac:(lia))).
Defined.
