(* ===== verification/Canonical.v ===== *)
(** * Canonical JSON ([packages/policy/src/audit-chain.ts])

    [canonicalJson], the text the audit chain hashes, and its unique
    readability: two values have the same text exactly when they have the same
    normal form, [undefined] read as [null] and keys sorted. *)

From Stdlib Require Import Ascii.
From stdpp Require Import pretty.
From S2P Require Import Prelude JsMap JsString Json.
Local Open Scope string_scope.

(** ** [JSON.stringify] of strings *)

Definition u_escape (c : ascii) : string := "\u" +:+ padStart 4 "0"%char (toString16 (N_of_ascii c)).

Definition escape_char (c : ascii) : string :=
  match N_of_ascii c with
  | 8 => "\b" | 9 => "\t" | 10 => "\n" | 12 => "\f" | 13 => "\r"
  | 34 => String "\" (String c "") | 92 => "\\"
  | n => if N.ltb n 32 then u_escape c else String c ""
  end%N.

Fixpoint escape (s : string) : string :=
  match s with
  | EmptyString => EmptyString
  | String c s => escape_char c +:+ escape s
  end.

Definition quote_char : ascii := ascii_of_N 34.

(** [JSON.stringify(s)] *)
Definition stringify (s : string) : string :=
  String quote_char (escape s +:+ String quote_char EmptyString).

(** [parts.join(sep)] *)
Fixpoint join (sep : string) (parts : list string) : string :=
  match parts with
  | [] => EmptyString
  | p :: ps => match ps with [] => p | _ => p +:+ sep +:+ join sep ps end
  end.

(** [Object.keys(obj).sort()]: by code units. *)
Definition key_le {V} (a b : string * V) : bool := str_geb b.1 a.1.

Fixpoint canonicalJson (obj : json) : string :=
  match obj with
  | JUndefined | JNull => "null"
  | JBoolean true => "true"
  | JBoolean false => "false"
  | JNumber z => pretty z
  | JString s => stringify s
  | JArray l => "[" +:+ join "," (canonicalJson <$> l) +:+ "]"
  | JObject fields =>
      let entries := js_sort key_le ((fun e => (e.1, canonicalJson e.2)) <$> fields) in
      "{" +:+ join "," ((fun e => stringify e.1 +:+ ":" +:+ e.2) <$> entries) +:+ "}"
  end.

(** The normal form. *)
Fixpoint canon (obj : json) : json :=
  match obj with
  | JUndefined => JNull
  | JArray l => JArray (canon <$> l)
  | JObject fields => JObject (js_sort key_le ((fun e => (e.1, canon e.2)) <$> fields))
  | j => j
  end.

#[local] Arguments String.append : simpl nomatch.

(** ** Reading a text back *)

Lemma app_assoc_str (a b c : string) : (a +:+ b) +:+ c = a +:+ (b +:+ c).
Proof. induction a as [|x a IH]; cbn; [done|]. by rewrite IH. Qed.

(** The escape of one character is read back, and never starts with a quote. *)
Lemma escape_char_read c c' s s' :
  escape_char c +:+ s = escape_char c' +:+ s' -> c = c' /\ s = s'.
Proof.
  set (read := fun t : string =>
    match t with
    | String "\" (String "u" (String h3 (String h2 (String h1 (String h0 r))))) =>
        Some (ascii_of_N (parse16 0 (String h1 (String h0 ""))), r)
    | String "\" (String "b" r) => Some (ascii_of_N 8, r)
    | String "\" (String "t" r) => Some (ascii_of_N 9, r)
    | String "\" (String "n" r) => Some (ascii_of_N 10, r)
    | String "\" (String "f" r) => Some (ascii_of_N 12, r)
    | String "\" (String "r" r) => Some (ascii_of_N 13, r)
    | String "\" (String x r) => Some (x, r)
    | String x r => Some (x, r)
    | EmptyString => None
    end).
  assert (forall c s, read (escape_char c +:+ s) = Some (c, s)) as H.
  { intros [[] [] [] [] [] [] [] []] t; reflexivity. }
  intros E. apply (f_equal read) in E. rewrite !H in E. by injection E as -> ->.
Qed.

Lemma escape_char_quote c s s' : escape_char c +:+ s <> String quote_char s'.
Proof. destruct c as [[] [] [] [] [] [] [] []]; discriminate. Qed.

Lemma stringify_read a b s t : stringify a +:+ s = stringify b +:+ t -> a = b /\ s = t.
Proof.
  unfold stringify. cbn. intros [= E]. rewrite !app_assoc_str in E. cbn in E.
  revert b E. induction a as [|c a IH]; intros [|c' b] E; cbn in E.
  - by injection E.
  - rewrite app_assoc_str in E. symmetry in E. by apply escape_char_quote in E.
  - rewrite app_assoc_str in E. by apply escape_char_quote in E.
  - rewrite !app_assoc_str in E. apply escape_char_read in E as [-> E].
    destruct (IH b E) as [-> ->]. done.
Qed.

(** ** Numbers *)

Definition num_char (c : ascii) : bool :=
  (Ascii.eqb c "-" || (N.leb 48 (N_of_ascii c) && N.leb (N_of_ascii c) 57))%char.

Fixpoint all_num (s : string) : bool :=
  match s with EmptyString => true | String c s => num_char c && all_num s end.

(** The text does not go on with a digit. *)
Definition delim (s : string) : Prop :=
  match s with EmptyString => True | String c _ => num_char c = false end.

Lemma pretty_N_char_num x : num_char (pretty_N_char x) = true.
Proof. unfold pretty_N_char. by repeat case_match. Qed.

Lemma pretty_N_go_num x s : all_num s = true -> all_num (pretty_N_go x s) = true.
Proof.
  revert s. induction (N.lt_wf_0 x) as [x _ IH]; intros s Hs.
  assert (x = 0 \/ 0 < x)%N as [->|?] by lia; [by rewrite pretty_N_go_0|].
  rewrite pretty_N_go_step by done. apply IH; [by apply N.div_lt|]. cbn. by rewrite pretty_N_char_num.
Qed.

Lemma pretty_num (z : Z) : all_num (pretty z) = true.
Proof.
  unfold pretty, pretty_Z. destruct z as [|p|p]; [done|..]; unfold pretty, pretty_positive, pretty, pretty_N.
  - case_decide; [done|]. by apply pretty_N_go_num.
  - case_decide; [done|]. cbn. by apply pretty_N_go_num.
Qed.

Lemma num_read a b s t :
  all_num a = true -> all_num b = true -> delim s -> delim t -> a +:+ s = b +:+ t -> a = b /\ s = t.
Proof.
  revert b. induction a as [|c a IH]; intros [|c' b]; cbn; intros Ha Hb Hs Ht E.
  - done.
  - subst s. cbn in Hs. apply andb_true_iff in Hb as [Hb _]. congruence.
  - subst t. cbn in Ht. apply andb_true_iff in Ha as [Ha _]. congruence.
  - injection E as -> E. apply andb_true_iff in Ha as [_ Ha], Hb as [_ Hb].
    destruct (IH b Ha Hb Hs Ht E) as [-> ->]. done.
Qed.

Lemma pretty_head (z : Z) : exists c s, pretty z = String c s /\ num_char c = true.
Proof.
  destruct (pretty z) as [|c s] eqn:E.
  - exfalso. assert (pretty z = "") as E' by done. clear E. revert E'.
    destruct z as [|p|p]; [done| |done]. unfold pretty, pretty_Z, pretty, pretty_positive, pretty, pretty_N.
    case_decide; [done|]. rewrite pretty_N_go_step by lia. intros E.
    assert (forall x s, String.length s <= String.length (pretty_N_go x s))%nat as Hlen.
    { intros x. induction (N.lt_wf_0 x) as [x _ IH]; intros s.
      assert (x = 0 \/ 0 < x)%N as [->|?] by lia; [by rewrite pretty_N_go_0|].
      rewrite pretty_N_go_step by done. etrans; [|apply IH; by apply N.div_lt]. cbn. lia. }
    specialize (Hlen (N.pos p `div` 10)%N (String (pretty_N_char (N.pos p `mod` 10)) "")).
    rewrite E in Hlen. cbn in Hlen. lia.
  - exists c, s. split; [done|]. pose proof (pretty_num z) as H. rewrite E in H. cbn in H.
    by apply andb_true_iff in H as [? _].
Qed.

(** ** Lists of parts *)

Fixpoint tail_text (ps : list string) (close : string) : string :=
  match ps with
  | [] => close
  | p :: ps => "," +:+ (p +:+ tail_text ps close)
  end.

Lemma join_text p ps close : join "," (p :: ps) +:+ close = p +:+ tail_text ps close.
Proof.
  revert p. induction ps as [|q ps IH]; intros p; [done|].
  change (join "," (p :: q :: ps)) with (p +:+ "," +:+ join "," (q :: ps)).
  rewrite !app_assoc_str. f_equal. cbn [tail_text]. f_equal. apply IH.
Qed.

Section parts.
Context {A B : Type} (txt : A -> string) (cn : A -> B) (close : ascii).
Context (Hclose : num_char close = false) (Hcomma : close <> ","%char).
Context (Hhead : forall y s t, txt y +:+ s <> String close t).

Definition reads (x : A) : Prop :=
  forall y s t, txt x +:+ s = txt y +:+ t -> delim s -> delim t -> cn x = cn y /\ s = t.

Lemma tail_delim l s : delim (tail_text (txt <$> l) (String close s)).
Proof. by destruct l. Qed.

Lemma tail_read l l' s t :
  Forall reads l ->
  tail_text (txt <$> l) (String close s) = tail_text (txt <$> l') (String close t) ->
  cn <$> l = cn <$> l' /\ s = t.
Proof.
  intros H. revert l'. induction H as [|x l Hx Hl IH]; intros [|y l'] E; cbn in E.
  - by injection E.
  - by injection E as E1 _.
  - by injection E as E1 _.
  - injection E as E. destruct (Hx _ _ _ E) as [E1 E2]; [apply tail_delim..|].
    apply IH in E2 as [E2 ->]. rewrite !fmap_cons. by rewrite E1, E2.
Qed.

Lemma parts_read l l' s t :
  Forall reads l ->
  join "," (txt <$> l) +:+ String close s = join "," (txt <$> l') +:+ String close t ->
  cn <$> l = cn <$> l' /\ s = t.
Proof.
  intros H E. destruct l as [|x l], l' as [|y l'].
  - by injection E.
  - rewrite (fmap_cons txt y), join_text in E. symmetry in E. by apply Hhead in E.
  - rewrite (fmap_cons txt x), join_text in E. by apply Hhead in E.
  - rewrite !fmap_cons, !join_text in E. apply Forall_cons in H as [Hx Hl].
    destruct (Hx _ _ _ E) as [E1 E2]; [apply tail_delim..|].
    destruct (tail_read _ _ _ _ Hl E2) as [E2' ->]. rewrite !fmap_cons. by rewrite E1, E2'.
Qed.
End parts.

(** Sorting by key does not look at the values. *)
Lemma js_sort_map {A B} (leA : A -> A -> bool) (leB : B -> B -> bool) (f : A -> B) l :
  (forall x y, leB (f x) (f y) = leA x y) -> js_sort leB (f <$> l) = f <$> js_sort leA l.
Proof.
  intros Hf. unfold js_sort. induction l as [|x l IH]; [done|]. rewrite fmap_cons. cbn [foldr].
  rewrite IH. generalize (foldr (js_insert leA) [] l) as k. clear IH.
  induction k as [|y k IHk]; [done|]. rewrite fmap_cons. cbn. rewrite Hf.
  destruct (leA x y); [done|]. rewrite fmap_cons. by rewrite IHk.
Qed.

(** The value's text, by its first character. *)
Definition kind_char (c : ascii) : N := if num_char c then 0 else N_of_ascii c.
Definition kind (j : json) : N :=
  match j with
  | JUndefined | JNull => 110 | JBoolean true => 116 | JBoolean false => 102 | JNumber _ => 0
  | JString _ => 34 | JArray _ => 91 | JObject _ => 123
  end.

Lemma canonical_head j : exists c s, canonicalJson j = String c s /\ kind_char c = kind j.
Proof.
  destruct j as [| |[]|z| | |]; try (by eexists _, _).
  destruct (pretty_head z) as (c & s & E & Hc). exists c, s. split; [done|]. unfold kind_char. by rewrite Hc.
Qed.

Lemma canonical_kind a b s t : canonicalJson a +:+ s = canonicalJson b +:+ t -> kind a = kind b.
Proof.
  destruct (canonical_head a) as (c & r & -> & <-), (canonical_head b) as (c' & r' & -> & <-).
  by intros [= ->].
Qed.

Lemma canonical_close j s t : canonicalJson j +:+ s <> String "]" t.
Proof.
  destruct (canonical_head j) as (c & r & -> & Hk). intros [= -> _]. by destruct j as [| |[]| | | |].
Qed.

Definition entry_text (e : string * json) : string := stringify e.1 +:+ ":" +:+ canonicalJson e.2.
Definition entry_canon (e : string * json) : string * json := (e.1, canon e.2).

Lemma canonical_object fields :
  canonicalJson (JObject fields) = "{" +:+ join "," (entry_text <$> js_sort key_le fields) +:+ "}".
Proof.
  cbn [canonicalJson]. rewrite (js_sort_map key_le key_le (fun e => (e.1, canonicalJson e.2))) by done.
  by rewrite <- list_fmap_compose.
Qed.

Lemma canon_object fields : canon (JObject fields) = JObject (entry_canon <$> js_sort key_le fields).
Proof. cbn [canon]. by rewrite (js_sort_map key_le key_le (fun e => (e.1, canon e.2))). Qed.

Lemma canonical_read (a : json) : reads canonicalJson canon a.
Proof.
  induction a as [| |b|z|x|l IH|fields IH] using json_nested_ind; intros b' s t E Hs Ht;
    pose proof (canonical_kind _ _ _ _ E) as K.
  - destruct b' as [| |[]| | | |]; try discriminate K; cbn in E; injection E as ->; done.
  - destruct b' as [| |[]| | | |]; try discriminate K; cbn in E; injection E as ->; done.
  - destruct b, b' as [| |[]| | | |]; try discriminate K; cbn in E; injection E as ->; done.
  - destruct b' as [| |[]|z'| | |]; try discriminate K. cbn in E.
    destruct (num_read _ _ _ _ (pretty_num z) (pretty_num z') Hs Ht E) as [E' ->]. clear E. rename E' into E.
    apply (inj pretty) in E as ->. done.
  - destruct b' as [| |[]| |x'| |]; try discriminate K. cbn in E.
    change (stringify x +:+ s = stringify x' +:+ t) in E. by apply stringify_read in E as [-> ->].
  - destruct b' as [| |[]| | |l'|]; try discriminate K.
    cbn [canonicalJson canon] in *. rewrite !app_assoc_str in E. cbn in E. injection E as E.
    apply (parts_read canonicalJson canon "]"%char) in E as [-> ->]; try done. apply canonical_close.
  - destruct b' as [| |[]| | | |fields']; try discriminate K.
    rewrite !canonical_object in E. rewrite !canon_object. cbn in E. injection E as E.
    rewrite !app_assoc_str in E. cbn in E.
    apply (parts_read entry_text entry_canon "}"%char) in E as [-> ->]; try done.
    apply Forall_forall. intros [k j] Hin%js_sort_elem [k' j'] s' t' E' Hs' Ht'.
    unfold entry_text in E'. cbn [fst snd] in E'. rewrite !app_assoc_str in E'.
    apply stringify_read in E' as [-> E']. cbn in E'. injection E' as E'.
    rewrite Forall_forall in IH. specialize (IH _ Hin). cbn in IH.
    destruct (IH _ _ _ E' Hs' Ht') as [E2 ->]. unfold entry_canon. cbn. by rewrite E2.
Qed.

(** The text depends on the normal form only. *)
Lemma parts_text {A B} (txt : A -> string) (cn : A -> B) (l l' : list A) :
  Forall (fun x => forall y, cn x = cn y -> txt x = txt y) l ->
  cn <$> l = cn <$> l' -> txt <$> l = txt <$> l'.
Proof.
  intros H. revert l'. induction H as [|x l Hx Hl IH]; intros [|y l']; rewrite ?fmap_cons; try done.
  intros [= E1 E2]. by rewrite (Hx y E1), (IH l' E2).
Qed.

Lemma canon_text (a : json) : forall b, canon a = canon b -> canonicalJson a = canonicalJson b.
Proof.
  induction a as [| |b|z|x|l IH|fields IH] using json_nested_ind; intros b';
    [by destruct b'|by destruct b'|by destruct b' as [| |[]| | | |]; try done; intros [= ->]|
     by destruct b'; try done; intros [= ->]|by destruct b'; try done; intros [= ->]|..].
  - destruct b' as [| | | | |l'|]; try done. cbn. intros [= E]. f_equal. f_equal. f_equal.
    by apply (parts_text canonicalJson canon).
  - destruct b' as [| | | | | |fields']; try done. rewrite !canon_object, !canonical_object.
    intros [= E]. f_equal. f_equal. f_equal. apply (parts_text entry_text entry_canon); [|done].
    apply Forall_forall. intros [k j] Hin%js_sort_elem [k' j']. unfold entry_canon, entry_text. cbn.
    intros [= -> Ej]. rewrite Forall_forall in IH. pose proof (IH _ Hin j' Ej) as E2.
    cbn in E2. by rewrite E2.
Qed.

(** * Properties *)

(** The canonical text identifies the data: two payloads serialise to the same
    text exactly when they have the same normal form, that is when they agree up
    to key order and reading [undefined] as [null]; and no text is a proper
    prefix of another one followed by a delimiter, so nothing can be moved across
    a field boundary. *)
Theorem canonicalJson_identifies a b s t :
  (canonicalJson a = canonicalJson b <-> canon a = canon b) /\
  (delim s -> delim t -> canonicalJson a +:+ s = canonicalJson b +:+ t -> canon a = canon b /\ s = t).
Proof.
  split; [split|].
  - intros E. apply (canonical_read a b "" ""); [by rewrite E|done|done].
  - apply canon_text.
  - intros Hs Ht E. by apply (canonical_read a b s t).
Qed.
