(* ===== verification/AuditChain.v ===== *)
(** * The audit hash chain ([packages/policy/src/audit-chain.ts])

    Appending, verifying and anchoring a chain of audit entries.  SHA-256 is a
    parameter [sha256hex]; nothing is assumed of it, and the tamper-evidence
    theorem ends in a collision where it fails. *)

From S2P Require Import Prelude JsMap Json Canonical.
Local Open Scope Z_scope.

Definition GENESIS_HASH : string := "genesis".

Record AuditEntry := {
  entry_id : string;
  timestamp : Z;
  event_type : string;
  actor_id : string;
  data : json;
  previous_hash : string;
  hash : string;
}.

Inductive audit_error := EmptyEntryId.

(** [InMemoryAuditChainStore]: the entries, cloned on the way in and out. *)
Abbreviation audit_store := (list AuditEntry).

Definition append (entry : AuditEntry) (entries : audit_store) : audit_store := entries ++ [entry].

(** [entries.slice(start, end)] *)
Definition slice_index (len i : Z) : Z := if decide (i < 0) then Z.max (len + i) 0 else Z.min i len.
Definition js_slice {A} (start stop : Z) (l : list A) : list A :=
  let len := Z.of_nat (length l) in
  let a := slice_index len start in
  take (Z.to_nat (slice_index len stop - a)) (drop (Z.to_nat a) l).

Definition getEntries (from to : option Z) (entries : audit_store) : list AuditEntry :=
  js_slice (default 0 from) (default (Z.of_nat (length entries)) to) entries.

Definition getHead (entries : audit_store) : option AuditEntry := last entries.

Definition count (entries : audit_store) : Z := Z.of_nat (length entries).

Section chain.
Context (sha256hex : string -> string).
Implicit Types (entries : audit_store) (entry : AuditEntry).

(** The hashed object. *)
Definition hash_payload (previousHash : string) entry : json :=
  JObject [("previous_hash", JString previousHash); ("entry_id", JString (entry_id entry));
           ("timestamp", JNumber (timestamp entry)); ("event_type", JString (event_type entry));
           ("actor_id", JString (actor_id entry)); ("data", data entry)]%string.

Definition computeEntryHash (previousHash : string) entry : string :=
  sha256hex (canonicalJson (hash_payload previousHash entry)).

Definition getChainHead entries : string :=
  match getHead entries with Some head => hash head | None => GENESIS_HASH end.

Definition appendAuditEntry entry : call audit_store audit_error AuditEntry := fun entries =>
  if bool_decide (entry_id entry = EmptyString) then (Throw EmptyEntryId, entries) else
  let previousHash := match getHead entries with Some head => hash head | None => GENESIS_HASH end in
  let full := {| entry_id := entry_id entry; timestamp := timestamp entry;
                 event_type := event_type entry; actor_id := actor_id entry; data := data entry;
                 previous_hash := previousHash; hash := computeEntryHash previousHash entry |} in
  (Ok full, append full entries).

Inductive verification := Valid | Broken (brokenAt : Z).

(** The loop at index [i], the entry before being [prev]. *)
Fixpoint verify_from (startIndex i : Z) (prev : option AuditEntry) entries : verification :=
  match entries with
  | [] => Valid
  | entry :: rest =>
      let expectedPreviousHash :=
        if decide (i = 0 /\ startIndex = 0) then GENESIS_HASH
        else match prev with
             | None => previous_hash entry
             | Some p => hash p
             end in
      if negb (bool_decide (previous_hash entry = expectedPreviousHash)) then Broken (startIndex + i)
      else if negb (bool_decide (hash entry = computeEntryHash (previous_hash entry) entry))
      then Broken (startIndex + i)
      else verify_from startIndex (i + 1) (Some entry) rest
  end.

Definition verifyAuditChain entries (fromEntry toEntry : option Z) : verification :=
  let es := getEntries fromEntry toEntry entries in
  match es with
  | [] => Valid
  | _ => verify_from (default 0 fromEntry) 0 None es
  end.

(** ** Linked chains *)

(** Each entry names its predecessor's hash, and carries its own. *)
Fixpoint linked (prev : string) entries : Prop :=
  match entries with
  | [] => True
  | e :: rest => previous_hash e = prev /\ hash e = computeEntryHash prev e /\ linked (hash e) rest
  end.

Definition head_hash (prev : string) entries : string :=
  match last entries with Some e => hash e | None => prev end.

Lemma head_hash_app prev l1 l2 : head_hash prev (l1 ++ l2) = head_hash (head_hash prev l1) l2.
Proof.
  unfold head_hash. rewrite last_app. by destruct (last l2).
Qed.

Lemma linked_app prev l1 l2 :
  linked prev (l1 ++ l2) <-> linked prev l1 /\ linked (head_hash prev l1) l2.
Proof.
  revert prev. induction l1 as [|e l1 IH]; intros prev; cbn; [tauto|]. rewrite IH.
  change (e :: l1) with ([e] ++ l1). rewrite head_hash_app. cbn. tauto.
Qed.

(** What the loop accepts. *)
Lemma verify_from_linked s i p entries :
  0 < i ->
  verify_from s i (Some p) entries = Valid <-> linked (hash p) entries.
Proof.
  revert i p. induction entries as [|e rest IH]; intros i p Hi; cbn [verify_from linked]; [done|].
  rewrite decide_False by lia.
  destruct (decide (previous_hash e = hash p)) as [E|E].
  - rewrite bool_decide_eq_true_2 by done. cbn [negb]. rewrite E.
    destruct (decide (hash e = computeEntryHash (hash p) e)) as [F|F].
    + rewrite bool_decide_eq_true_2 by done. cbn [negb]. rewrite IH by lia. tauto.
    + rewrite bool_decide_eq_false_2 by done. cbn [negb]. by split; [|intros (_ & ? & _)].
  - rewrite bool_decide_eq_false_2 by done. cbn [negb]. by split; [|intros (? & _ & _)].
Qed.

Lemma verify_linked s entries :
  verify_from s 0 None entries = Valid <->
  match entries with
  | [] => True
  | e :: _ => linked (if decide (s = 0) then GENESIS_HASH else previous_hash e) entries
  end.
Proof.
  destruct entries as [|e rest]; cbn [verify_from linked]; [done|].
  set (prev := if decide (s = 0) then GENESIS_HASH else previous_hash e).
  assert ((if decide (0 = 0 /\ s = 0) then GENESIS_HASH else previous_hash e) = prev) as ->
    by (unfold prev; repeat case_decide; tauto || done).
  destruct (decide (previous_hash e = prev)) as [E|E].
  - rewrite bool_decide_eq_true_2 by done. cbn [negb]. rewrite E.
    destruct (decide (hash e = computeEntryHash prev e)) as [F|F].
    + rewrite bool_decide_eq_true_2 by done. cbn [negb]. rewrite verify_from_linked by lia. tauto.
    + rewrite bool_decide_eq_false_2 by done. cbn [negb]. by split; [|intros (_ & ? & _)].
  - rewrite bool_decide_eq_false_2 by done. cbn [negb]. by split; [|intros (? & _ & _)].
Qed.

Lemma js_slice_in {A} (start stop : Z) (l : list A) :
  0 <= start -> start <= stop -> stop <= Z.of_nat (length l) ->
  js_slice start stop l = take (Z.to_nat (stop - start)) (drop (Z.to_nat start) l).
Proof.
  intros H1 H2 H3. unfold js_slice, slice_index. rewrite !decide_False by lia.
  by rewrite !Z.min_l by lia.
Qed.

Lemma getEntries_all entries : getEntries None None entries = entries.
Proof.
  unfold getEntries. cbn. rewrite js_slice_in by lia. rewrite Z.sub_0_r, Nat2Z.id. cbn. by rewrite take_ge.
Qed.

Lemma verify_whole entries :
  verifyAuditChain entries None None = Valid <-> linked GENESIS_HASH entries.
Proof.
  unfold verifyAuditChain. rewrite getEntries_all. cbn [default].
  destruct entries as [|e rest]; [done|]. rewrite verify_linked. by rewrite decide_True.
Qed.

Lemma getChainHead_hash entries : getChainHead entries = head_hash GENESIS_HASH entries.
Proof. done. Qed.

(** ** Appending *)

Definition append_all (l : list AuditEntry) (entries : audit_store) : audit_store :=
  foldl (fun s e => (appendAuditEntry e s).2) entries l.

Lemma append_linked entry entries :
  linked GENESIS_HASH entries -> linked GENESIS_HASH (appendAuditEntry entry entries).2.
Proof.
  intros H. unfold appendAuditEntry. case_bool_decide; [done|]. cbn [snd]. unfold append.
  apply linked_app. by split; [|cbn].
Qed.

Lemma append_all_linked l entries :
  linked GENESIS_HASH entries -> linked GENESIS_HASH (append_all l entries).
Proof.
  unfold append_all. revert entries. induction l as [|e l IH]; intros entries H; cbn; [done|].
  apply IH. by apply append_linked.
Qed.
End chain.

Section verifying.
Context (sha256hex : string -> string).
Abbreviation linked := (linked sha256hex).
Abbreviation text p e := (canonicalJson (hash_payload p e)).

Lemma linked_segment l (a b : nat) :
  linked GENESIS_HASH l -> linked (head_hash GENESIS_HASH (take a l)) (take b (drop a l)).
Proof.
  intros H. rewrite <- (take_drop a l) in H. apply linked_app in H as [_ H].
  rewrite <- (take_drop b (drop a l)) in H. by apply linked_app in H as [H _].
Qed.

(** Any slice of a linked chain verifies. *)
Lemma verify_segment l from to :
  linked GENESIS_HASH l -> verifyAuditChain sha256hex l from to = Valid.
Proof.
  intros H. unfold verifyAuditChain, getEntries, js_slice.
  set (a := slice_index _ (default 0 from)). set (b := Z.to_nat _).
  pose proof (linked_segment l (Z.to_nat a) b H) as Hs.
  destruct (take b (drop (Z.to_nat a) l)) as [|e rest] eqn:E; [done|]. apply verify_linked.
  destruct (decide (default 0 from = 0)) as [F|F].
  - assert (a = 0) as Ha by (unfold a, slice_index; rewrite F, decide_False by lia; lia).
    rewrite Ha in Hs. exact Hs.
  - pose proof Hs as (Hp & _ & _). by rewrite Hp.
Qed.

(** Two entries with the same content, their data up to the normal form. *)
Definition same_entry (a b : AuditEntry) : Prop :=
  entry_id a = entry_id b /\ timestamp a = timestamp b /\ event_type a = event_type b /\
  actor_id a = actor_id b /\ canon (data a) = canon (data b) /\
  previous_hash a = previous_hash b /\ hash a = hash b.

Lemma hash_text_same p q a b :
  text p a = text q b ->
  p = q /\ entry_id a = entry_id b /\ timestamp a = timestamp b /\ event_type a = event_type b /\
  actor_id a = actor_id b /\ canon (data a) = canon (data b).
Proof.
  intros E. assert (canon (hash_payload p a) = canon (hash_payload q b)) as C.
  { apply (canonical_read (hash_payload p a) (hash_payload q b) "" ""); [by rewrite E|done|done]. }
  unfold hash_payload in C. rewrite !canon_object in C. vm_compute js_sort in C.
  unfold entry_canon in C. cbn [fmap list_fmap fst snd] in C. by injection C.
Qed.

Definition collision : Prop := exists x y, x <> y /\ sha256hex x = sha256hex y.
Definition forged_genesis : Prop := exists x, sha256hex x = GENESIS_HASH.

Lemma linked_last prev l e :
  linked prev (l ++ [e]) ->
  linked prev l /\ previous_hash e = head_hash prev l /\ hash e = sha256hex (text (head_hash prev l) e).
Proof. rewrite linked_app. cbn. unfold computeEntryHash. tauto. Qed.

Lemma head_hash_last prev l e : head_hash prev (l ++ [e]) = hash e.
Proof. unfold head_hash. by rewrite last_snoc. Qed.

Lemma same_head_same_chain c1 c2 :
  linked GENESIS_HASH c1 -> linked GENESIS_HASH c2 ->
  head_hash GENESIS_HASH c1 = head_hash GENESIS_HASH c2 ->
  Forall2 same_entry c1 c2 \/ collision \/ forged_genesis.
Proof.
  revert c2. induction c1 as [|e1 l1 IH] using rev_ind; intros c2 H1 H2 Hh.
  - destruct c2 as [|e2 l2 _] using rev_ind; [left; constructor|].
    right; right. apply linked_last in H2 as (_ & _ & He). rewrite head_hash_last in Hh.
    eexists. by rewrite <- He, <- Hh.
  - apply linked_last in H1 as (H1 & Hp1 & He1). rewrite head_hash_last in Hh.
    destruct c2 as [|e2 l2 _] using rev_ind; [right; right; eexists; by rewrite <- He1, Hh|].
    apply linked_last in H2 as (H2 & Hp2 & He2). rewrite head_hash_last in Hh.
    destruct (decide (text (head_hash GENESIS_HASH l1) e1 = text (head_hash GENESIS_HASH l2) e2)) as [E|E].
    + apply hash_text_same in E as (Ep & E1 & E2 & E3 & E4 & E5).
      destruct (IH l2 H1 H2 Ep) as [IHl|IHr]; [|by right]. left. apply Forall2_app; [done|].
      repeat constructor; congruence.
    + right; left. eexists _, _. split; [exact E|]. congruence.
Qed.

(** The loop stops at the first entry that breaks the link. *)
Lemma verify_from_broken p i l k :
  0 < i -> verify_from sha256hex 0 i (Some p) l = Broken k ->
  i <= k < i + Z.of_nat (length l) /\ linked (hash p) (take (Z.to_nat (k - i)) l) /\
  ~ linked (hash p) (take (S (Z.to_nat (k - i))) l).
Proof.
  revert p i. induction l as [|e l IH]; intros p i Hi; cbn [verify_from]; [done|].
  rewrite decide_False by lia.
  destruct (decide (previous_hash e = hash p)) as [E|E].
  - rewrite bool_decide_eq_true_2 by done. cbn [negb]. rewrite E.
    destruct (decide (hash e = computeEntryHash sha256hex (hash p) e)) as [F|F].
    + rewrite bool_decide_eq_true_2 by done. cbn [negb]. intros H.
      destruct (IH e (i + 1) ltac:(lia) H) as (H1 & H2 & H3). cbn [length]. split; [lia|].
      replace (Z.to_nat (k - i)) with (S (Z.to_nat (k - (i + 1)))) by lia. cbn. tauto.
    + rewrite bool_decide_eq_false_2 by done. cbn [negb length]. intros [= <-]. split; [lia|].
      replace (Z.to_nat (0 + i - i)) with 0%nat by lia. cbn. tauto.
  - rewrite bool_decide_eq_false_2 by done. cbn [negb length]. intros [= <-]. split; [lia|].
    replace (Z.to_nat (0 + i - i)) with 0%nat by lia. cbn. tauto.
Qed.

Lemma verify_broken l k :
  verifyAuditChain sha256hex l None None = Broken k ->
  0 <= k < Z.of_nat (length l) /\ linked GENESIS_HASH (take (Z.to_nat k) l) /\
  ~ linked GENESIS_HASH (take (S (Z.to_nat k)) l).
Proof.
  unfold verifyAuditChain. rewrite getEntries_all. cbn [default].
  destruct l as [|e l]; [done|]. cbn [verify_from]. rewrite (decide_True (P := 0 = 0 /\ _)) by done.
  destruct (decide (previous_hash e = GENESIS_HASH)) as [E|E].
  - rewrite bool_decide_eq_true_2 by done. cbn [negb]. rewrite E.
    destruct (decide (hash e = computeEntryHash sha256hex GENESIS_HASH e)) as [F|F].
    + rewrite bool_decide_eq_true_2 by done. cbn [negb]. intros H.
      destruct (verify_from_broken e 1 l k ltac:(lia) H) as (H1 & H2 & H3). cbn [length]. split; [lia|].
      replace (Z.to_nat k) with (S (Z.to_nat (k - 1))) by lia. cbn. tauto.
    + rewrite bool_decide_eq_false_2 by done. cbn [negb length]. intros [= <-]. split; [lia|].
      change (Z.to_nat (0 + 0)) with 0%nat. cbn. tauto.
  - rewrite bool_decide_eq_false_2 by done. cbn [negb length]. intros [= <-]. split; [lia|].
      change (Z.to_nat (0 + 0)) with 0%nat. cbn. tauto.
Qed.
End verifying.

(** * Properties *)


(** What was appended verifies, the whole chain and every part of it: after
    any sequence of appends, verification of any requested range succeeds, and
    each append with a nonempty id extends the chain by one entry whose hash is
    the new head. *)
Theorem appended_chain_verifies sha256hex l from to e :
  let chain := append_all sha256hex l [] in
  verifyAuditChain sha256hex chain from to = Valid /\
  match appendAuditEntry sha256hex e chain with
  | (Ok full, chain') => chain' = chain ++ [full] /\ getChainHead chain' = hash full /\
                         verifyAuditChain sha256hex chain' from to = Valid
  | (Throw EmptyEntryId, chain') => entry_id e = EmptyString /\ chain' = chain
  end.
Proof.
  intros chain. assert (linked sha256hex GENESIS_HASH chain) as H by by apply append_all_linked.
  split; [by apply verify_segment|].
  pose proof (append_linked sha256hex e chain H) as H'. unfold appendAuditEntry in *.
  case_bool_decide; [done|]. cbn [snd] in H'. split; [done|]. split; [|by apply verify_segment].
  rewrite getChainHead_hash. apply head_hash_last.
Qed.

(** Verification is exact: it accepts precisely the chains in which every entry
    names its predecessor's hash and carries its own, and otherwise names the
    first entry that breaks this, the entries before it being intact. *)
Theorem verification_finds_first_break sha256hex chain :
  match verifyAuditChain sha256hex chain None None with
  | Valid => linked sha256hex GENESIS_HASH chain
  | Broken k => 0 <= k < Z.of_nat (length chain) /\
                linked sha256hex GENESIS_HASH (take (Z.to_nat k) chain) /\
                ~ linked sha256hex GENESIS_HASH (take (S (Z.to_nat k)) chain)
  end.
Proof.
  destruct (verifyAuditChain sha256hex chain None None) as [|k] eqn:E.
  - by apply verify_whole.
  - by apply verify_broken.
Qed.

(** ** Witnesses *)

Definition demo_hash (s : string) : string := String.append "h:" s.

Definition demo_entry (id : string) (d : jsmap string json) : AuditEntry := {|
  entry_id := id; timestamp := 5; event_type := "tool"; actor_id := "agent"; data := JObject d;
  previous_hash := ""; hash := "" |}%string.

Definition demo_chain (d : jsmap string json) : audit_store :=
  append_all demo_hash [demo_entry "a" d; demo_entry "b" []]%string [].

