(* ===== verification/DepositDetector.v ===== *)
(** * The deposit detector ([packages/deposit-detector/src])

    One detection cycle over an injected store, RPC and credit callback: the
    confirmation horizon, the scan range from the stored cursor, the filter for
    known wallets, the deduplication and the cursor's advance.  An RPC call that
    throws answers [None]. *)

From Stdlib Require Import Ascii.
From stdpp Require Import pretty.
From S2P Require Import Prelude JsMap JsString.
Local Open Scope Z_scope.
Local Open Scope motebit_scope.

Record EvmTransferLog := {
  log_blockNumber : Z;
  log_txHash : string;
  log_logIndex : Z;
  fromTopic : string;
  toTopic : string;
  amountHex : string;
}.

Record DecodedTransfer := {
  dt_txHash : string;
  dt_logIndex : Z;
  dt_from : string;
  dt_to : string;
  dt_value : Z;
  dt_blockNumber : Z;
}.

Record DetectedDeposit := {
  dd_motebitId : string;
  amountOnchain : Z;
  dd_txHash : string;
  dd_logIndex : Z;
  fromAddress : string;
  dd_blockNumber : Z;
  dd_chain : string;
}.

Record KnownWallet := {
  agentId : string;
  address : string;
}.

Record DepositDetectorStore (W E : Type) := {
  getCursor : string -> call W E (option Z);
  setCursor : string -> Z -> Z -> call W E unit;
  getWallets : call W E (list KnownWallet);
  hasProcessedLog : string -> Z -> call W E bool;
}.
Arguments getCursor {W E}.
Arguments setCursor {W E}.
Arguments getWallets {W E}.
Arguments hasProcessedLog {W E}.

(** The answers of the RPC during a cycle: the head, and the logs of a range. *)
Record EvmRpcAdapter := {
  getBlockNumber : option Z;
  getTransferLogs : Z -> Z -> option (list EvmTransferLog);
}.

Record DetectDepositsConfig := {
  chain : string;
  maxBlocksPerCycle : Z;
  confirmations : Z;
}.

Definition is_hex (c : ascii) : bool :=
  let n := N_of_ascii c in
  ((N.leb 48 n && N.leb n 57) || (N.leb 97 n && N.leb n 102))%N.

Fixpoint all_hex (s : string) : bool :=
  match s with EmptyString => true | String c s => is_hex c && all_hex s end.

(** [BigInt(hex)] on a ["0x"]-prefixed literal, the documented form of the field;
    anything else is taken to throw. *)
Definition BigInt_hex (s : string) : option Z :=
  let digits := toLowerCase (slice_from 2 s) in
  if startsWith "0x" (toLowerCase s) && negb (bool_decide (digits = EmptyString)) && all_hex digits
  then Some (Z.of_N (parse16 0 digits)) else None.

(** [topics[1]] and [topics[2]] lose ["0x"] and 24 leading digits. *)
Definition topic_address (topic : string) : string :=
  String.append "0x" (toLowerCase (slice_from 26 topic)).

Definition decodeTransfer (log : EvmTransferLog) : option DecodedTransfer :=
  match BigInt_hex (amountHex log) with
  | None => None
  | Some value => Some {|
      dt_txHash := log_txHash log; dt_logIndex := log_logIndex log;
      dt_from := topic_address (fromTopic log); dt_to := topic_address (toTopic log);
      dt_value := value; dt_blockNumber := log_blockNumber log |}
  end.

(** Address in lower case to motebit; a later wallet replaces an earlier one. *)
Definition wallet_map (wallets : list KnownWallet) : jsmap string string :=
  foldl (fun m w => jm_set (toLowerCase (address w)) (agentId w) m) [] wallets.

Section detector.
Context {W E : Type} (bad_literal : E) (cfg : DetectDepositsConfig).
Context (store : DepositDetectorStore W E) (onDeposit : DetectedDeposit -> call W E unit).

Definition deposit_of (motebitId : string) (log : DecodedTransfer) : DetectedDeposit := {|
  dd_motebitId := motebitId; amountOnchain := dt_value log; dd_txHash := dt_txHash log;
  dd_logIndex := dt_logIndex log; fromAddress := dt_from log;
  dd_blockNumber := dt_blockNumber log; dd_chain := chain cfg |}.

(** The credit of one log: [None] when the log is not for an agent wallet. *)
Definition recipient (walletMap : jsmap string string) (log : DecodedTransfer) : option string :=
  match jm_get (dt_to log) walletMap with
  | Some id => if bool_decide (id = EmptyString) then None else Some id
  | None => None
  end.

(** [try { await onDeposit(...); detected++ } catch { warn }] *)
Definition try_deposit (d : DetectedDeposit) (detected : Z) : call W E Z := fun w =>
  match onDeposit d w with
  | (Ok _, w') => (Ok (detected + 1), w')
  | (Throw _, w') => (Ok detected, w')
  end.

Definition process_log (walletMap : jsmap string string) (raw : EvmTransferLog) (detected : Z)
    : call W E Z :=
  match decodeTransfer raw with
  | None => call_throw bad_literal
  | Some log =>
      match recipient walletMap log with
      | None => call_ret detected
      | Some motebitId =>
          let! processed := hasProcessedLog store (dt_txHash log) (dt_logIndex log) in
          if processed : bool then call_ret detected
          else if bool_decide (dt_value log <= 0) then call_ret detected
          else try_deposit (deposit_of motebitId log) detected
      end
  end.

Fixpoint process_logs (walletMap : jsmap string string) (rawLogs : list EvmTransferLog)
    (detected : Z) : call W E Z :=
  match rawLogs with
  | [] => call_ret detected
  | raw :: rawLogs =>
      let! detected := process_log walletMap raw detected in
      process_logs walletMap rawLogs detected
  end.

(** The end of the scan range that starts at [fromBlock]. *)
Definition scan_end (fromBlock safeBlock : Z) : Z :=
  if bool_decide (safeBlock - fromBlock > maxBlocksPerCycle cfg)
  then fromBlock + maxBlocksPerCycle cfg else safeBlock.

(** The cycle once the range is known: steps 3 to 5. *)
Definition scan (rpc : EvmRpcAdapter) (fromBlock toBlock now : Z) : call W E Z :=
  let! wallets := getWallets store in
  match wallets with
  | [] => setCursor store (chain cfg) toBlock now ;! call_ret 0
  | _ =>
      match getTransferLogs rpc fromBlock toBlock with
      | None => call_ret 0
      | Some rawLogs =>
          let! detected := process_logs (wallet_map wallets) rawLogs 0 in
          setCursor store (chain cfg) toBlock now ;!
          call_ret detected
      end
  end.

Definition detectDeposits (rpc : EvmRpcAdapter) (now : Z) : call W E Z :=
  match getBlockNumber rpc with
  | None => call_ret 0
  | Some currentBlock =>
      if bool_decide (currentBlock <= confirmations cfg) then call_ret 0 else
      let safeBlock := currentBlock - confirmations cfg in
      let! cursor := getCursor store (chain cfg) in
      let lastBlock := default safeBlock cursor in
      if bool_decide (lastBlock >= safeBlock) then call_ret 0 else
      let fromBlock := lastBlock + 1 in
      scan rpc fromBlock (scan_end fromBlock safeBlock) now
  end.
End detector.

(** ** The in-memory store ([store.ts]) *)

Record InMemoryDepositDetectorStore := {
  wallets : list KnownWallet;
  cursors : jsmap string Z;
  processedLogs : list string;
}.

(** [`${txHash}:${logIndex}`] *)
Definition log_key (txHash : string) (logIndex : Z) : string :=
  String.append txHash (String.append ":" (pretty logIndex)).

Definition new_detector_store (ws : list KnownWallet) (cs : jsmap string Z)
    : InMemoryDepositDetectorStore := {| wallets := ws; cursors := cs; processedLogs := [] |}.

Definition markProcessed (txHash : string) (logIndex : Z) (st : InMemoryDepositDetectorStore)
    : InMemoryDepositDetectorStore :=
  {| wallets := wallets st; cursors := cursors st;
     processedLogs := js_add (log_key txHash logIndex) (processedLogs st) |}.

Definition mem_detector_store {E} : DepositDetectorStore InMemoryDepositDetectorStore E := {|
  getCursor := fun chain st => (Ok (jm_get chain (cursors st)), st);
  setCursor := fun chain block _ st =>
    (Ok tt, {| wallets := wallets st; cursors := jm_set chain block (cursors st);
               processedLogs := processedLogs st |});
  getWallets := fun st => (Ok (wallets st), st);
  hasProcessedLog := fun tx i st => (Ok (js_has (log_key tx i) (processedLogs st)), st) |}.
