(* ===== verification/DepositRelay.v ===== *)
(** * Crediting deposits ([services/relay/src/deposit-detector.ts])

    The relay's store for the detector, over the database driver, and the
    [onDeposit] callback: credit and deduplication row in one transaction.  The
    database is the account tables of [SqlStore] and the detector's own. *)

From stdpp Require Import pretty.
From S2P Require Import Prelude JsMap JsString LedgerTypes Driver SqlStore SqlRefines.
From S2P Require Import Tables DepositDetector.
Local Open Scope Z_scope.
Local Open Scope motebit_scope.

Record deposit_row := {
  tx_hash : string;
  log_index : Z;
  agent_id : string;
  from_address : string;
  row_amount : Z;
  row_chain : string;
  block_number : Z;
  credited_at : Z;
}.

Record detector_tables := {
  relay_deposit_detector : jsmap string Z;
  relay_deposit_log : list deposit_row;
  relay_agent_wallets : list KnownWallet;
}.

Abbreviation detector_db := (prod relay_db detector_tables).

Definition same_log (a b : deposit_row) : bool :=
  bool_decide (tx_hash a = tx_hash b) && bool_decide (log_index a = log_index b).

(** [CREATE TABLE IF NOT EXISTS], on a database without them. *)
Definition createDepositDetectorTable (ws : list KnownWallet) (d : relay_db) : detector_db :=
  (d, {| relay_deposit_detector := []; relay_deposit_log := []; relay_agent_wallets := ws |}).

Definition USDC_ONCHAIN_TO_MICRO : Z := 1.

Section relay.
Context {W : Type} `{!DatabaseDriver detector_db ledger_error W}.
Abbreviation db_call := (call W ledger_error).

Definition select_tables {A} (q : detector_tables -> A) : db_call A :=
  run_sql (fun d : detector_db => Ok (q d.2, d)).

Definition SqliteDepositDetectorStore : DepositDetectorStore W ledger_error := {|
  getCursor := fun chain => select_tables (fun t => jm_get chain (relay_deposit_detector t));
  setCursor := fun chain block _ =>
    run_sql (fun d : detector_db =>
      Ok (tt, (d.1, {| relay_deposit_detector := jm_set chain block (relay_deposit_detector d.2);
                       relay_deposit_log := relay_deposit_log d.2;
                       relay_agent_wallets := relay_agent_wallets d.2 |})));
  getWallets := select_tables relay_agent_wallets;
  hasProcessedLog := fun txHash logIndex =>
    select_tables (fun t => existsb (fun r => bool_decide (tx_hash r = txHash) &&
                                              bool_decide (log_index r = logIndex))
                              (relay_deposit_log t)) |}.

Definition insert_deposit (row : deposit_row) : db_call unit :=
  run_sql (fun d : detector_db =>
    match insert_row same_log row (relay_deposit_log d.2) with
    | Ok rows => Ok (tt, (d.1, {| relay_deposit_detector := relay_deposit_detector d.2;
                                  relay_deposit_log := rows;
                                  relay_agent_wallets := relay_agent_wallets d.2 |}))
    | Throw e => Throw e
    end).

Definition deposit_reference (txHash : string) (logIndex : Z) : string :=
  String.append "onchain-" (String.append txHash (String.append "-" (pretty logIndex))).

Definition deposit_description (d : DetectedDeposit) : string :=
  String.append "USDC deposit from " (String.append (fromAddress d) (String.append " on "
    (String.append (dd_chain d) (String.append " (block "
      (String.append (pretty (dd_blockNumber d)) ")"))))).

Definition row_of (d : DetectedDeposit) (now : Z) : deposit_row := {|
  tx_hash := dd_txHash d; log_index := dd_logIndex d; agent_id := dd_motebitId d;
  from_address := fromAddress d; row_amount := amountOnchain d; row_chain := dd_chain d;
  block_number := dd_blockNumber d; credited_at := now |}.

(** [buildCreditOnDepositCallback]; [uuid] is the transaction id [credit] draws. *)
Definition onDeposit (uuid : DetectedDeposit -> string) (now : Z) (d : DetectedDeposit) : db_call unit :=
  let microAmount := amountOnchain d * USDC_ONCHAIN_TO_MICRO in
  if bool_decide (microAmount <= 0) then call_ret tt else
  run_transaction (Db := detector_db) (
    credit (dd_motebitId d) (JInt microAmount) deposit
      (Some (deposit_reference (dd_txHash d) (dd_logIndex d))) (Some (deposit_description d)) None
      (uuid d) now ;!
    insert_deposit (row_of d now)).

(** One tick of the loop. *)
Definition relay_detect (bad_literal : ledger_error) (cfg : DetectDepositsConfig) (rpc : EvmRpcAdapter)
    (uuid : DetectedDeposit -> string) (now : Z) : db_call Z :=
  detectDeposits bad_literal cfg SqliteDepositDetectorStore (onDeposit uuid now) rpc now.
End relay.

(** ** The credit, inside the larger database *)

(** A transaction id that is taken makes the credit throw. *)
Lemma credit_ok_fresh id a ty ref desc uuid now d b d' :
  NoDup (va_motebit_id <$> relay_accounts d) ->
  (credit id (JInt a) ty ref desc None uuid now : call relay_db ledger_error Z) d = (Ok b, d') ->
  moved id a [txn_values uuid id ty a (sql_balance id d + a) ref desc now None] d d'.
Proof.
  intros Hnd H. destruct (decide (fresh_uuid uuid d)) as [Hf|Hf].
  { destruct (credit_pure id a ty ref desc None uuid now d Hnd Hf) as (d1 & E & Hm). congruence. }
  exfalso. unfold credit in H. cbn [assertMicroUnits check] in H.
  destruct (getOrCreate_pure id now d Hnd) as (row & d1 & H1 & Hm1 & Hrow & _).
  destruct (update_balance_pure id a None now row d1) as [[_ (d2 & H2 & Hm2)]|[[] _]];
    [apply Hm1|done|].
  rewrite pure_transaction in H. unfold all_or_nothing in H.
  rewrite (call_bind_run _ _ _ _ _ H1), (call_bind_run _ _ _ _ _ H2),
    (call_bind_run _ _ _ _ _ (select_balance_pure id d2)) in H.
  unfold call_bind at 1, insert_transaction, run_sql in H. cbn in H. unfold stmt_fn in H.
  assert (relay_transactions d2 = relay_transactions d) as Et
    by (rewrite (moved_tables _ _ _ _ Hm2); apply (moved_tables _ _ _ _ Hm1)).
  unfold insert_row in H. rewrite Et in H.
  destruct (existsb _ (relay_transactions d)) eqn:E; [done|]. apply Hf. unfold fresh_uuid.
  apply Forall_forall. intros r Hr Heq. apply not_true_iff_false in E. apply E.
  apply existsb_exists. exists r. split; [by apply list_elem_of_In|]. apply bool_decide_eq_true_2. cbn. congruence.
Qed.

(** ** The invariant *)

Definition log_id (r : deposit_row) : string * Z := (tx_hash r, log_index r).

(** A ledger row is the credit of a logged deposit. *)
Definition credit_of (row : txn_row) (r : deposit_row) : Prop :=
  tx_motebit_id (txn row) = agent_id r /\ tx_type (txn row) = deposit /\
  tx_amount (txn row) = row_amount r /\
  reference_id (txn row) = Some (deposit_reference (tx_hash r) (log_index r)).

Record credited (d0 : relay_db) (d : detector_db) : Prop := {
  cr_accounts : NoDup (va_motebit_id <$> relay_accounts d.1);
  cr_once : NoDup (log_id <$> relay_deposit_log d.2);
  cr_positive : Forall (fun r => 0 < row_amount r) (relay_deposit_log d.2);
  cr_balance : forall id, sql_balance id d.1 = sql_balance id d0 +
    zsum row_amount (filter (fun r => agent_id r = id) (relay_deposit_log d.2));
  cr_ledger : exists rows, relay_transactions d.1 = relay_transactions d0 ++ rows /\
    Forall2 credit_of rows (relay_deposit_log d.2);
}.

Lemma credited_start ws d : NoDup (va_motebit_id <$> relay_accounts d) ->
  credited d (createDepositDetectorTable ws d).
Proof.
  intros H. split; cbn; [done|apply NoDup_nil_2|constructor|intros id; lia|].
  exists []. by rewrite app_nil_r.
Qed.

(** The invariant reads the accounts, the ledger and the log only. *)
Lemma credited_tables d0 d t t' :
  relay_deposit_log t' = relay_deposit_log t -> credited d0 (d, t) -> credited d0 (d, t').
Proof. intros E [H1 H2 H3 H4 H5]. cbn in *. split; cbn; rewrite ?E; done. Qed.

Lemma same_log_spec a b : same_log a b = true <-> log_id a = log_id b.
Proof.
  unfold same_log, log_id. rewrite andb_true_iff, !bool_decide_eq_true.
  split; [by intros [-> ->]|by intros [= -> ->]].
Qed.

Lemma onDeposit_pure d0 uuid now dep d :
  credited d0 d ->
  match (onDeposit uuid now dep : call detector_db ledger_error unit) d with
  | (Ok _, d') => credited d0 d'
  | (Throw _, d') => d' = d
  end.
Proof.
  destruct d as [d t]. intros Hc. unfold onDeposit. case_bool_decide as Hpos; [done|].
  unfold USDC_ONCHAIN_TO_MICRO in *. rewrite Z.mul_1_r in *. cbn [run_transaction PureDriver].
  unfold all_or_nothing, call_bind. rewrite lifts_credit.
  destruct ((credit _ _ _ _ _ _ _ _ : call relay_db ledger_error Z) d) as [[b|e] d'] eqn:E; [|done].
  destruct Hc as [H1 H2 H3 H4 H5]. cbn [fst snd] in *.
  apply credit_ok_fresh in E as [Hb Ha [rows Hrest]]; [|done].
  unfold insert_deposit, insert_row. cbn. unfold stmt_fn. cbn.
  destruct (existsb _ (relay_deposit_log t)) eqn:Ex; [done|].
  set (r := row_of dep now) in *.
  assert (log_id r ∉ log_id <$> relay_deposit_log t) as Hnew.
  { intros (r' & Er & Hr')%list_elem_of_fmap. apply not_true_iff_false in Ex. apply Ex.
    apply existsb_exists. exists r'. split; [by apply list_elem_of_In|]. by apply same_log_spec. }
  split; cbn.
  - done.
  - rewrite fmap_app. apply NoDup_app. split; [done|]. split; [|apply NoDup_singleton].
    intros k Hk ->%list_elem_of_singleton. done.
  - apply Forall_app. split; [done|]. constructor; [cbn; lia|constructor].
  - intros id. rewrite Hb, H4, filter_app, zsum_app, filter_cons, filter_nil. cbn [agent_id r row_of].
    destruct (decide (id = dd_motebitId dep)) as [->|Hid].
    + rewrite decide_True by done. cbn. lia.
    + rewrite decide_False by congruence. cbn. lia.
  - destruct H5 as (rs & Et & Hf). exists (rs ++ [txn_values (uuid dep) (dd_motebitId dep) deposit
      (amountOnchain dep) (sql_balance (dd_motebitId dep) d + amountOnchain dep)
      (Some (deposit_reference (dd_txHash dep) (dd_logIndex dep))) (Some (deposit_description dep)) now None]).
    split; [rewrite Hrest; cbn; by rewrite Et, app_assoc|]. apply Forall2_app; [done|]. by repeat constructor.
Qed.

(** ** Over a real session, with faults anywhere *)

Section keeps.
Context {Db E : Type} (driver_error : E) (I : Db -> Prop).

(** The call keeps the boundaries and [I] of the database, whatever fails. *)
Definition keeps {A} (m : call (session Db) E A) : Prop :=
  bracketed m /\ forall s, session_ok s -> I (db s) -> I (db (m s).2).

Lemma keeps_ret {A} (a : A) : keeps (call_ret a).
Proof. split; [apply bracketed_ret|done]. Qed.

Lemma keeps_throw {A} (e : E) : keeps (call_throw (A := A) e).
Proof. split; [apply bracketed_throw|done]. Qed.

Lemma keeps_bind {A B} (m : call (session Db) E A) (k : A -> call (session Db) E B) :
  keeps m -> (forall a, keeps (k a)) -> keeps (call_bind m k).
Proof.
  intros [Hb Hm] Hk. split; [apply bracketed_bind; [done|apply Hk]|]. intros s Hs HI.
  pose proof (bracketed_session_ok m s Hb Hs) as Hs1. specialize (Hm s Hs HI).
  unfold call_bind. destruct (m s) as [[a|e] s1]; [by apply Hk|done].
Qed.

Lemma keeps_statement {A} (f : Db -> result E (A * Db)) :
  (forall d, I d -> match f d with Ok (_, d') => I d' | Throw _ => True end) ->
  keeps (statement driver_error f).
Proof.
  intros Hf. split; [apply bracketed_statement|]. intros s Hs HI. unfold statement.
  match goal with |- context [guarded _ ?k s] => destruct (guarded_cases driver_error k s) as [[fs ->]|[fs ->]] end;
    [done|]. cbn. specialize (Hf (db s) HI). by destruct (f (db s)) as [[a d]|e].
Qed.

Lemma keeps_transaction {A} (fn : call (session Db) E A) f :
  denotes fn f ->
  (forall d, I d -> match f d with (Ok _, d') => I d' | (Throw _, _) => True end) ->
  keeps (transaction driver_error fn).
Proof.
  intros Hd Hf. pose proof (dn_bracketed _ _ Hd) as Hb. split; [by apply bracketed_transaction|].
  intros s Hs HI. pose proof (atomic_transaction driver_error fn Hb s Hs) as Hat.
  pose proof (dn_ok _ _ (denotes_transaction driver_error fn f Hd) s) as Hok.
  destruct (transaction driver_error fn s) as [[a|e] s']; cbn; [|by rewrite Hat].
  specialize (Hok a s' Hs eq_refl). specialize (Hf (db s) HI). unfold all_or_nothing in Hok.
  destruct (f (db s)) as [[b|e] d']; [|done]. injection Hok as _ ->. done.
Qed.

(** Swallowing an error keeps what the call kept. *)
Lemma keeps_recover {A B} (m : call (session Db) E A) (h : result E A -> B) :
  keeps m -> keeps (fun s => let '(r, s') := m s in (Ok (h r), s')).
Proof.
  intros [Hb Hm]. split.
  - intros s Hs. specialize (Hb s Hs). by destruct (m s).
  - intros s Hs HI. specialize (Hm s Hs HI). by destruct (m s).
Qed.
End keeps.

Section sessions.
Context (driver_error bad_literal : ledger_error) (I : detector_db -> Prop).
#[local] Instance relay_driver : DatabaseDriver detector_db ledger_error (session detector_db) :=
  SqlJsDriver driver_error.

Abbreviation kept := (keeps (Db := detector_db) (E := ledger_error) I).
Abbreviation on_session m := (m : call (session detector_db) ledger_error _).

Lemma onDeposit_denotes uuid now dep :
  denotes (on_session (onDeposit uuid now dep)) (onDeposit uuid now dep).
Proof.
  unfold onDeposit. case_bool_decide; [apply denotes_ret|]. cbn [run_transaction relay_driver].
  unfold credit, insert_deposit, getOrCreateAccount. cbn [assertMicroUnits check].
  cbn [run_transaction run_sql AccountTables relay_driver SqlJsDriver PureDriver].
  denotes_auto.
Qed.

(** What a successful credit keeps, the credit keeps whatever fails. *)
Lemma onDeposit_keeps uuid now dep :
  (forall d, I d -> match (onDeposit uuid now dep : call detector_db ledger_error unit) d with
                    | (Ok _, d') => I d' | (Throw _, _) => True end) ->
  kept (on_session (onDeposit uuid now dep)).
Proof.
  intros HI. pose proof (onDeposit_denotes uuid now dep) as Hd.
  split; [apply (dn_bracketed _ _ Hd)|]. intros s Hs Hdb. specialize (HI (db s) Hdb).
  assert (atomic (on_session (onDeposit uuid now dep))) as Hat.
  { unfold onDeposit. case_bool_decide; [apply atomic_ret|]. apply atomic_transaction.
    unfold credit, insert_deposit, getOrCreateAccount. cbn [assertMicroUnits check].
    cbn [run_transaction run_sql AccountTables relay_driver SqlJsDriver]. bracketed_auto. }
  specialize (Hat s Hs). pose proof (dn_ok _ _ Hd s) as Hok.
  destruct (on_session (onDeposit uuid now dep) s) as [[[]|e] s']; cbn; [|by rewrite Hat].
  by rewrite (Hok tt s' Hs eq_refl) in HI.
Qed.

Lemma select_keeps {A} (q : detector_tables -> A) : kept (on_session (select_tables q)).
Proof. apply keeps_statement. by intros d Hd. Qed.

Context (uuid : DetectedDeposit -> string) (now : Z).
Context (callback_keeps : forall dep, kept (on_session (onDeposit uuid now dep))).

Lemma process_log_keeps cfg wm raw n :
  kept (process_log bad_literal cfg SqliteDepositDetectorStore
    (onDeposit (W := session detector_db) uuid now) wm raw n).
Proof.
  unfold process_log. destruct (decodeTransfer raw) as [log|]; [|apply keeps_throw].
  destruct (recipient wm log) as [mid|]; [|apply keeps_ret].
  apply keeps_bind; [apply select_keeps|]. intros []; [apply keeps_ret|].
  case_bool_decide; [apply keeps_ret|]. unfold try_deposit.
  destruct (keeps_recover I (on_session (onDeposit uuid now (deposit_of cfg mid log)))
    (fun r => match r with Ok _ => n + 1 | Throw _ => n end) (callback_keeps _)) as [Rb Rk].
  split.
  - intros s Hs. specialize (Rb s Hs). cbv beta in Rb. destruct (on_session (onDeposit _ _ _) s) as [[u|e] s1]; exact Rb.
  - intros s Hs HI. specialize (Rk s Hs HI). cbv beta in Rk. destruct (on_session (onDeposit _ _ _) s) as [[u|e] s1]; exact Rk.
Qed.

Lemma process_logs_keeps cfg wm raws n :
  kept (process_logs bad_literal cfg SqliteDepositDetectorStore
    (onDeposit (W := session detector_db) uuid now) wm raws n).
Proof.
  revert n. induction raws as [|raw raws IH]; intros n; [apply keeps_ret|]. cbn [process_logs].
  apply keeps_bind; [apply process_log_keeps|done].
Qed.

Lemma scan_keeps cfg rpc fromBlock toBlock :
  kept (on_session (setCursor SqliteDepositDetectorStore (chain cfg) toBlock now)) ->
  kept (scan bad_literal cfg SqliteDepositDetectorStore
    (onDeposit (W := session detector_db) uuid now) rpc fromBlock toBlock now).
Proof.
  intros Hset. apply keeps_bind; [apply select_keeps|]. intros [|w ws].
  - apply keeps_bind; [done|]. intros ?. apply keeps_ret.
  - destruct (getTransferLogs rpc _ _) as [raws|]; [|apply keeps_ret].
    apply keeps_bind; [apply process_logs_keeps|]. intros n.
    apply keeps_bind; [done|]. intros ?. apply keeps_ret.
Qed.

(** A whole cycle, when the cursor's writes keep [I] too. *)
Lemma relay_detect_keeps cfg rpc :
  (forall to_, kept (on_session (setCursor SqliteDepositDetectorStore (chain cfg) to_ now))) ->
  kept (on_session (relay_detect bad_literal cfg rpc uuid now)).
Proof.
  intros Hset. unfold relay_detect, detectDeposits. destruct (getBlockNumber rpc) as [cb|]; [|apply keeps_ret].
  case_bool_decide; [apply keeps_ret|]. cbv zeta. apply keeps_bind; [apply select_keeps|].
  intros cursor. case_bool_decide; [apply keeps_ret|]. apply scan_keeps, Hset.
Qed.
End sessions.

(** ** Cycles *)

(** A tick: its chain's configuration, the RPC's answers, the ids drawn, the time. *)
Record cycle := {
  cycle_cfg : DetectDepositsConfig;
  cycle_rpc : EvmRpcAdapter;
  cycle_uuid : DetectedDeposit -> string;
  cycle_now : Z;
}.

Section ticks.
Context (driver_error bad_literal : ledger_error).
#[local] Existing Instance relay_driver.
Local Instance session_driver : DatabaseDriver detector_db ledger_error (session detector_db) :=
  relay_driver driver_error.

(** A cycle over a session, as the interval runs it: a throw ends in the log. *)
Definition tick (c : cycle) (s : session detector_db) : session detector_db :=
  (relay_detect bad_literal (cycle_cfg c) (cycle_rpc c) (cycle_uuid c) (cycle_now c) s).2.

(** The cycle awaits each callback: those of another cycle may come between. *)
Inductive detector_step :=
  | Tick (c : cycle)
  | Overlapping (uuid : DetectedDeposit -> string) (now : Z) (d : DetectedDeposit).

Definition run_step (s : session detector_db) (st : detector_step) : session detector_db :=
  match st with
  | Tick c => tick c s
  | Overlapping uuid now d => (onDeposit uuid now d s).2
  end.
End ticks.

(** ** The cursor *)

Definition cursor_of (ch : string) (s : session detector_db) : option Z :=
  jm_get ch (relay_deposit_detector (db s).2).

Lemma onDeposit_cursors uuid now dep d c :
  relay_deposit_detector d.2 = c ->
  match (onDeposit uuid now dep : call detector_db ledger_error unit) d with
  | (Ok _, d') => relay_deposit_detector d'.2 = c
  | (Throw _, _) => True
  end.
Proof.
  destruct d as [d t]. intros Hc. unfold onDeposit. case_bool_decide; [done|].
  cbn [run_transaction PureDriver]. unfold all_or_nothing, call_bind. rewrite lifts_credit.
  destruct ((credit _ _ _ _ _ _ _ _ : call relay_db ledger_error Z) d) as [[b|e] d']; [|done].
  unfold insert_deposit, insert_row. cbn. unfold stmt_fn. cbn. by destruct (existsb _ _).
Qed.

(** The cursors move as a scan of [cfg]'s chain allows, or not at all. *)
Definition scanned (cfg : DetectDepositsConfig) (rpc : EvmRpcAdapter) (before after : jsmap string Z)
    : Prop :=
  after = before \/
  exists lastBlock currentBlock toBlock,
    jm_get (chain cfg) before = Some lastBlock /\ getBlockNumber rpc = Some currentBlock /\
    after = jm_set (chain cfg) toBlock before /\
    lastBlock < toBlock <= currentBlock - confirmations cfg /\
    toBlock <= lastBlock + maxBlocksPerCycle cfg + 1.

Lemma scan_end_bounds cfg last safe :
  0 <= maxBlocksPerCycle cfg -> last < safe ->
  last < scan_end cfg (last + 1) safe <= safe /\
  scan_end cfg (last + 1) safe <= last + maxBlocksPerCycle cfg + 1.
Proof. intros Hm Hl. unfold scan_end. case_bool_decide; lia. Qed.

(** A cycle that reads the cursor: a throw, or the rest with what it read. *)
Lemma cursor_read {B} driver_error ch (s : session detector_db) :
  exists fs, (forall k : option Z -> call (session detector_db) ledger_error B,
      call_bind (getCursor (SqliteDepositDetectorStore (DatabaseDriver0 := relay_driver driver_error)) ch) k s
        = (Throw driver_error, set_faults fs s)) \/
    (forall k : option Z -> call (session detector_db) ledger_error B,
      call_bind (getCursor (SqliteDepositDetectorStore (DatabaseDriver0 := relay_driver driver_error)) ch) k s
        = k (cursor_of ch s) (set_faults fs s)).
Proof.
  unfold call_bind. cbn [getCursor SqliteDepositDetectorStore]. unfold select_tables.
  cbn [run_sql relay_driver SqlJsDriver]. unfold statement.
  match goal with |- context [guarded ?e ?k s] => destruct (guarded_cases e k s) as [[fs ->]|[fs ->]] end;
    exists fs; [by left|by right].
Qed.

(** ** Properties *)

Section properties.
Context (driver_error bad_literal : ledger_error).
Abbreviation run := (run_step driver_error bad_literal).

Lemma run_step_keeps d0 st s :
  session_ok s -> credited d0 (db s) -> session_ok (run s st) /\ credited d0 (db (run s st)).
Proof.
  intros Hs Hc.
  assert (forall uuid now dep, keeps (credited d0)
    (onDeposit (DatabaseDriver0 := relay_driver driver_error) uuid now dep)) as Hcb.
  { intros uuid now dep. apply onDeposit_keeps. intros d Hd.
    pose proof (onDeposit_pure d0 uuid now dep d Hd) as Hp. by destruct (onDeposit _ _ _ _) as [[]]. }
  assert (forall (m : call (session detector_db) ledger_error Z), keeps (credited d0) m ->
    session_ok (m s).2 /\ credited d0 (db (m s).2)) as Hk.
  { intros m [Hb Hm]. split; [by apply bracketed_session_ok|by apply Hm]. }
  destruct st as [c|uuid now dep].
  - apply Hk, relay_detect_keeps; [done|]. intros to_. apply keeps_statement. intros [d t] Hd.
    by apply (credited_tables d0 d t).
  - destruct (Hcb uuid now dep) as [Hb Hm]. split; [by apply bracketed_session_ok|by apply Hm].
Qed.

(** C22: a deposit is credited once.  Start with the detector's tables created
    over any account tables; run any sequence of detection cycles, for any
    chains, with any answers of the RPC, and of callbacks of overlapping cycles,
    with a throw possible at every statement.  Then no log is recorded twice,
    only positive amounts are, every balance is the starting balance plus the
    logged amounts of that agent, and the new ledger rows are the credits of the
    log's rows, one each. *)
Theorem deposits_credited_once d0 ws steps (s : session detector_db) :
  NoDup (va_motebit_id <$> relay_accounts d0) -> session_ok s ->
  db s = createDepositDetectorTable ws d0 ->
  credited d0 (db (foldl run s steps)).
Proof.
  intros Hnd Hs E. assert (credited d0 (db s)) as Hc by (rewrite E; by apply credited_start).
  clear E. revert s Hs Hc. induction steps as [|st steps IH]; intros s Hs Hc; [done|].
  cbn. destruct (run_step_keeps d0 st s Hs Hc). by apply IH.
Qed.

(** The cursor is safe.  A cycle, with throws possible at every statement,
    leaves the other chains' cursors alone; it moves its own only forward, only
    from a cursor that was there, at most to [currentBlock - confirmations] and by
    at most [maxBlocksPerCycle + 1] blocks; and no answer of the RPC for a range
    that starts at or below the cursor makes any difference: a block is not
    looked at again once the cursor has passed it, also when a credit in it
    failed. *)
Theorem cursor_moves_safely c (s : session detector_db) :
  session_ok s -> 0 <= maxBlocksPerCycle (cycle_cfg c) ->
  scanned (cycle_cfg c) (cycle_rpc c) (relay_deposit_detector (db s).2)
    (relay_deposit_detector (db (tick driver_error bad_literal c s)).2) /\
  forall logs,
    (forall lastBlock from_ to_, cursor_of (chain (cycle_cfg c)) s = Some lastBlock ->
       lastBlock < from_ -> logs from_ to_ = getTransferLogs (cycle_rpc c) from_ to_) ->
    tick driver_error bad_literal
      {| cycle_cfg := cycle_cfg c;
         cycle_rpc := {| getBlockNumber := getBlockNumber (cycle_rpc c); getTransferLogs := logs |};
         cycle_uuid := cycle_uuid c; cycle_now := cycle_now c |} s
    = tick driver_error bad_literal c s.
Proof.
  destruct c as [cfg rpc uuid now]. unfold tick, cursor_of. cbn [cycle_cfg cycle_rpc cycle_uuid cycle_now].
  intros Hs Hmax. unfold relay_detect, detectDeposits. cbn [getBlockNumber].
  destruct (getBlockNumber rpc) as [cb|] eqn:Hcb; [|split; [by left|done]].
  case_bool_decide; [split; [by left|done]|]. cbv zeta.
  destruct (cursor_read (B := Z) driver_error (chain cfg) s) as [fs [E|E]]; rewrite E;
    [split; [by left|intros logs Hlogs; by rewrite E]|].
  set (c := relay_deposit_detector (db s).2).
  assert (cursor_of (chain cfg) s = jm_get (chain cfg) c) as Hc by done.
  destruct (jm_get (chain cfg) c) as [last|] eqn:Hlast; rewrite Hc; cbn [from_option id].
  - case_bool_decide as Hl.
    { split; [by left|]. intros logs Hlogs. rewrite E, Hc. cbn [from_option id]. by rewrite bool_decide_eq_true_2. }
    destruct (scan_end_bounds cfg last (cb - confirmations cfg)) as [Hb1 Hb2]; [done|lia|].
    set (to_ := scan_end _ _ _) in *. split.
    + assert (keeps (fun d => scanned cfg rpc c (relay_deposit_detector d.2))
        (scan bad_literal cfg (SqliteDepositDetectorStore (DatabaseDriver0 := relay_driver driver_error))
           (onDeposit (DatabaseDriver0 := relay_driver driver_error) uuid now) rpc (last + 1) to_ now))
        as [_ Hk]; [|apply (Hk (set_faults fs s)); [done|by left]].
      apply scan_keeps.
      * intros dep. apply onDeposit_keeps. intros d Hd.
        pose proof (onDeposit_cursors uuid now dep d _ eq_refl) as Hp.
        destruct (onDeposit _ _ _ _) as [[]]; [|done]. by rewrite Hp.
      * apply keeps_statement. intros d Hd. cbn. right. exists last, cb, to_.
        split_and!; try done; try lia. destruct Hd as [->|(l & b & t & _ & _ & -> & _)]; [done|].
        by rewrite jm_set_set.
    + intros logs Hlogs. rewrite E, Hc. cbn [from_option id]. rewrite bool_decide_eq_false_2 by lia. unfold scan. cbn [getTransferLogs].
      fold to_. by rewrite (Hlogs last (last + 1) to_) by (done || lia).
  - rewrite bool_decide_eq_true_2 by lia. split; [by left|]. intros logs Hlogs. rewrite E, Hc.
    cbn [from_option id]. by rewrite bool_decide_eq_true_2 by lia.
Qed.

(** A new detector never starts.  While its chain has no cursor, no cycle of
    the chain writes anything, and none credits a deposit, whatever the RPC
    answers, however many cycles run. *)
Theorem fresh_detector_never_starts ch cs (s : session detector_db) :
  cursor_of ch s = None -> Forall (fun c => chain (cycle_cfg c) = ch) cs ->
  db (foldl (fun s c => tick driver_error bad_literal c s) s cs) = db s.
Proof.
  intros Hn Hcs. revert s Hn. induction Hcs as [|c cs Hc Hcs IH]; intros s Hn; [done|]. cbn.
  assert (db (tick driver_error bad_literal c s) = db s) as E; [|by rewrite IH; unfold cursor_of; rewrite E].
  subst ch. unfold tick, relay_detect, detectDeposits.
  destruct (getBlockNumber _) as [cb|]; [|done]. case_bool_decide; [done|]. cbv zeta.
  destruct (cursor_read (B := Z) driver_error (chain (cycle_cfg c)) s) as [fs [E|E]]; rewrite E; [done|].
  rewrite Hn. cbn. by rewrite bool_decide_eq_true_2 by lia.
Qed.
End properties.

(** ** Witnesses *)

Definition demo_wallet : KnownWallet :=
  {| agentId := "alice"; address := "0xABCDEF0000000000000000000000000000000001" |}.

Definition demo_log (tx amount : string) : EvmTransferLog := {|
  log_blockNumber := 105; log_txHash := tx; log_logIndex := 3;
  fromTopic := "0x0000000000000000000000001111111111111111111111111111111111111111";
  toTopic := "0x000000000000000000000000abcdef0000000000000000000000000000000001";
  amountHex := amount |}.

Definition demo_cfg : DetectDepositsConfig :=
  {| chain := "eip155:8453"; maxBlocksPerCycle := 1000; confirmations := 12 |}.

(** Every range answers the same three logs, the last of them worth nothing. *)
Definition demo_cycle (head : Z) (id : string) : cycle := {|
  cycle_cfg := demo_cfg;
  cycle_rpc := {| getBlockNumber := Some head;
                  getTransferLogs := fun _ _ => Some [demo_log "0xaa" "0x1F4"; demo_log "0xbb" "0x0a";
                                                      demo_log "0xcc" "0x0"] |};
  cycle_uuid := fun d => String.append id (dd_txHash d); cycle_now := 7 |}.

Definition demo_session (cs : jsmap string Z) (fs : list bool) : session detector_db := {|
  db := (createAccountTables, {| relay_deposit_detector := cs; relay_deposit_log := [];
                                 relay_agent_wallets := [demo_wallet] |});
  boundaries := []; txnDepth := 0; faults := fs |}.

Definition demo_deposit : DetectedDeposit := {|
  dd_motebitId := "alice"; amountOnchain := 500; dd_txHash := "0xaa"; dd_logIndex := 3;
  fromAddress := "0x1111111111111111111111111111111111111111"; dd_blockNumber := 105;
  dd_chain := "eip155:8453" |}.

(** A deposit whose callback runs three times, once into a fault, and a cycle of a
    chain that has no cursor. *)
Lemma deposits_credited_once_witness :
  let s := foldl (run_step Error_driver Error_driver) (demo_session [] [false; false; true])
    [Overlapping (fun _ => "t1"%string) 5 demo_deposit; Overlapping (fun _ => "t2"%string) 6 demo_deposit;
     Overlapping (fun _ => "t3"%string) 7 demo_deposit; Tick (demo_cycle 200 "u")] in
  sql_balance "alice" (db s).1 = 500 /\ length (relay_deposit_log (db s).2) = 1%nat /\
  credited createAccountTables (db s).
Proof.
  intros s. split; [vm_compute; reflexivity|]. split; [vm_compute; reflexivity|].
  apply (deposits_credited_once Error_driver Error_driver createAccountTables [demo_wallet]);
    [apply NoDup_nil_2|done|reflexivity].
Defined.

(** From block 99 with the head at 200 the cursor goes to 188; the credit of 500
    fails in the driver, and no answer for the old blocks brings it back. *)
Lemma cursor_moves_safely_witness :
  let s := demo_session [("eip155:8453"%string, 99)]
             (repeat false 5 ++ [true]) in
  let s' := tick Error_driver Error_driver (demo_cycle 200 "u") s in
  cursor_of "eip155:8453" s' = Some 188 /\ sql_balance "alice" (db s').1 = 10 /\
  scanned demo_cfg (cycle_rpc (demo_cycle 200 "u")) [("eip155:8453"%string, 99)]
    (relay_deposit_detector (db s').2) /\
  tick Error_driver Error_driver
    {| cycle_cfg := demo_cfg;
       cycle_rpc := {| getBlockNumber := Some 300;
                       getTransferLogs := fun from_ _ => if bool_decide (188 < from_) then Some [] else None |};
       cycle_uuid := cycle_uuid (demo_cycle 300 "v"); cycle_now := 8 |} s'
  = tick Error_driver Error_driver
      {| cycle_cfg := demo_cfg;
         cycle_rpc := {| getBlockNumber := Some 300; getTransferLogs := fun _ _ => Some [] |};
         cycle_uuid := cycle_uuid (demo_cycle 300 "v"); cycle_now := 8 |} s'.
Proof.
  intros s s'. assert (cursor_of "eip155:8453" s' = Some 188) as Hc by (vm_compute; reflexivity).
  assert (session_ok s') as Hs' by (vm_compute; done).
  split; [done|]. split; [vm_compute; reflexivity|].
  assert (session_ok s) as Hs by done.
  assert (tick Error_driver Error_driver (demo_cycle 200 "u") s = s') as E by reflexivity.
  clearbody s'. split.
  - destruct (cursor_moves_safely Error_driver Error_driver (demo_cycle 200 "u") s Hs) as [H _];
      [by vm_compute|]. rewrite E in H. exact H.
  - set (c := {| cycle_cfg := demo_cfg;
         cycle_rpc := {| getBlockNumber := Some 300; getTransferLogs := fun _ _ => Some [] |};
         cycle_uuid := cycle_uuid (demo_cycle 300 "v"); cycle_now := 8 |}).
    destruct (cursor_moves_safely Error_driver Error_driver c s') as [_ H]; [done|cbn; lia|].
    apply H. cbn [c cycle_cfg chain demo_cfg]. rewrite Hc. intros last from_ to_ [= <-] Hf.
    by rewrite bool_decide_eq_true_2.
Defined.

Lemma fresh_detector_never_starts_witness :
  db (foldl (fun s c => tick Error_driver Error_driver c s) (demo_session [] [])
        [demo_cycle 200 "u"; demo_cycle 5000 "v"]) = db (demo_session [] []).
Proof.
  apply (fresh_detector_never_starts Error_driver Error_driver "eip155:8453");
    [reflexivity|by repeat constructor].
Defined.
