(* ===== verification/Redaction.v ===== *)
(** * Redaction of synced events ([services/relay/src/redaction.ts])

    What the relay strips from an event's payload before it stores or serves it.
    [in] on a payload that is neither an object nor an array throws. *)

From S2P Require Import Prelude JsMap Json EventLog.
Local Open Scope Z_scope.

Definition SYNC_SAFE_SENSITIVITY : list string := ["none"; "personal"]%string.

Definition ConsolidationReceiptSigned : string := "consolidation_receipt_signed".
Definition MemoryAudit : string := "memory_audit".
Definition MemoryConsolidated : string := "memory_consolidated".

(** [payload.key]: the own properties of an object; the names used here are no
    properties of any other value. *)
Definition js_member (key : string) (payload : json) : json :=
  match payload with JObject fields => js_field key fields | _ => JUndefined end.

(** [key in payload] *)
Definition js_in (key : string) (payload : json) : result event_error bool :=
  match payload with
  | JObject fields => Ok (jm_has key fields)
  | JArray _ => Ok false
  | _ => Throw TypeError
  end.

(** [{ ...payload, k1: v1, ... }] *)
Definition spread (payload : json) (updates : jsmap string json) : json :=
  match payload with
  | JObject fields => JObject (foldl (fun m e => jm_set e.1 e.2 m) fields updates)
  | _ => JObject updates
  end.

(** [const { k1: _, ...rest } = payload] *)
Definition omit (payload : json) (keys : list string) : json :=
  match payload with
  | JObject fields => JObject (foldl (fun m k => jm_delete k m) fields keys)
  | _ => JObject []
  end.

(** [a ?? b] *)
Definition nullish_or (a b : json) : json :=
  match a with JUndefined | JNull => b | _ => a end.

Definition sync_safe (sensitivity : json) : bool :=
  match sensitivity with JString s => bool_decide (s ∈ SYNC_SAFE_SENSITIVITY) | _ => false end.

Definition redactMemoryFormedPayload (payload : json) : option json :=
  if is_true (js_member "_encrypted" payload) then None else
  if is_true (js_member "redacted" payload) then None else
  let sensitivity := nullish_or (js_member "sensitivity" payload) (JString "none") in
  if sync_safe sensitivity then None else
  Some (spread payload [("content", JString "[REDACTED]"); ("redacted", JBoolean true);
                        ("redacted_sensitivity", sensitivity)]%string).

Definition stripConsolidationManifest (payload : json) : result event_error (option json) :=
  has ← js_in "mutation_manifest" payload;
  if negb has then Ok None else Ok (Some (omit payload ["mutation_manifest"%string])).

Definition redactMemoryAuditPayload (payload : json) : result event_error (option json) :=
  if is_true (js_member "_encrypted" payload) then Ok None else
  if is_true (js_member "redacted" payload) then Ok None else
  turn ← js_in "turn_message" payload;
  patterns ← js_in "missed_patterns" payload;
  if negb turn && negb patterns then Ok None else
  Ok (Some (spread (omit payload ["turn_message"; "missed_patterns"]%string)
              [("redacted"%string, JBoolean true)])).

Definition redactMemoryConsolidatedPayload (payload : json) : result event_error (option json) :=
  if is_true (js_member "_encrypted" payload) then Ok None else
  if is_true (js_member "redacted" payload) then Ok None else
  has ← js_in "reason" payload;
  if negb has then Ok None else
  Ok (Some (spread payload [("reason", JString "[REDACTED]"); ("redacted", JBoolean true)]%string)).

(** [!payload] *)
Definition falsy (payload : json) : bool :=
  match payload with
  | JUndefined | JNull => true
  | JBoolean b => negb b
  | JNumber z => bool_decide (z = 0)
  | JString s => bool_decide (s = EmptyString)
  | JArray _ | JObject _ => false
  end.

Definition replaced (e : EventLogEntry) (p : option json) : EventLogEntry :=
  match p with Some payload => set_payload payload e | None => e end.

(** The body of the [map]. *)
Definition redact_entry (e : EventLogEntry) : result event_error EventLogEntry :=
  if falsy (payload e) then Ok e else
  if bool_decide (event_type e = MemoryFormed) then Ok (replaced e (redactMemoryFormedPayload (payload e))) else
  if bool_decide (event_type e = ConsolidationReceiptSigned) then
    p ← stripConsolidationManifest (payload e); Ok (replaced e p)
  else if bool_decide (event_type e = MemoryAudit) then
    p ← redactMemoryAuditPayload (payload e); Ok (replaced e p)
  else if bool_decide (event_type e = MemoryConsolidated) then
    p ← redactMemoryConsolidatedPayload (payload e); Ok (replaced e p)
  else Ok e.

Fixpoint redactSensitiveEvents (events : list EventLogEntry) : result event_error (list EventLogEntry) :=
  match events with
  | [] => Ok []
  | e :: events => e' ← redact_entry e; rest ← redactSensitiveEvents events; Ok (e' :: rest)
  end.

(** ** What is left *)

(** The marks the redactors take as "nothing to do". *)
Definition opaque (payload : json) : Prop :=
  js_member "_encrypted" payload = JBoolean true \/ js_member "redacted" payload = JBoolean true.

(** What the relay keeps of a payload that came as [p]. *)
Definition sealed (ty : string) (p p' : json) : Prop :=
  (ty = MemoryFormed ->
     sync_safe (nullish_or (js_member "sensitivity" p) (JString "none")) = true \/
     js_member "content" p' = JString "[REDACTED]") /\
  (ty = MemoryAudit ->
     js_member "turn_message" p' = JUndefined /\ js_member "missed_patterns" p' = JUndefined) /\
  (ty = MemoryConsolidated ->
     js_member "reason" p' = JUndefined \/ js_member "reason" p' = JString "[REDACTED]").

Lemma is_true_spec j : is_true j = true <-> j = JBoolean true.
Proof. destruct j as [| |[]| | | |]; naive_solver. Qed.

Lemma js_field_has k fields : jm_has k fields = false -> js_field k fields = JUndefined.
Proof. unfold jm_has, js_field. by destruct (jm_get k fields). Qed.

Lemma js_in_member k p : js_in k p = Ok false -> js_member k p = JUndefined.
Proof. destruct p; cbn; try done. intros [= H]. by apply js_field_has. Qed.

Lemma is_true_false_opaque p :
  is_true (js_member "_encrypted" p) = false -> is_true (js_member "redacted" p) = false -> ~ opaque p.
Proof. rewrite <- !not_true_iff_false, !is_true_spec. unfold opaque. tauto. Qed.

Lemma redactMemoryFormed_spec p :
  match redactMemoryFormedPayload p with
  | None => opaque p \/ sync_safe (nullish_or (js_member "sensitivity" p) (JString "none")) = true
  | Some p' => js_member "content" p' = JString "[REDACTED]" /\ redactMemoryFormedPayload p' = None
  end.
Proof.
  unfold redactMemoryFormedPayload at 1, opaque.
  destruct (is_true (js_member "_encrypted" p)) eqn:E1; [left; left; by apply is_true_spec|].
  destruct (is_true (js_member "redacted" p)) eqn:E2; [left; right; by apply is_true_spec|].
  destruct (sync_safe _) eqn:E3; [by right|].
  destruct p; try done. cbn [js_member spread foldl fst snd]. unfold js_field.
  rewrite !jm_get_set. split; [by repeat case_decide|].
  unfold redactMemoryFormedPayload. cbn [js_member]. unfold js_field. rewrite !jm_get_set.
  cbn [js_member] in E1. unfold js_field in E1. repeat case_decide; try done. by rewrite E1.
Qed.

Lemma redactMemoryAudit_spec p r :
  redactMemoryAuditPayload p = Ok r ->
  match r with
  | None => opaque p \/ (js_member "turn_message" p = JUndefined /\ js_member "missed_patterns" p = JUndefined)
  | Some p' => js_member "turn_message" p' = JUndefined /\ js_member "missed_patterns" p' = JUndefined /\
               redactMemoryAuditPayload p' = Ok None
  end.
Proof.
  unfold redactMemoryAuditPayload at 1, opaque.
  destruct (is_true (js_member "_encrypted" p)) eqn:E1; [intros [= <-]; left; left; by apply is_true_spec|].
  destruct (is_true (js_member "redacted" p)) eqn:E2; [intros [= <-]; left; right; by apply is_true_spec|].
  unfold mbind, result_mbind. rewrite result_bind_ok. intros (turn & H1 & H).
  rewrite result_bind_ok in H. destruct H as (pat & H2 & H).
  destruct turn, pat; cbn in H; injection H as <-;
    try (right; split; by apply js_in_member).
  all: destruct p; try done; cbn [omit foldl spread fst snd js_member]; unfold js_field;
    rewrite !jm_get_set, !jm_get_delete; repeat case_decide; try done;
    split_and!; [done|done|]; unfold redactMemoryAuditPayload; cbn [js_member]; unfold js_field;
    rewrite !jm_get_set; repeat case_decide; try done; by case_match.
Qed.

Lemma redactMemoryConsolidated_spec p r :
  redactMemoryConsolidatedPayload p = Ok r ->
  match r with
  | None => opaque p \/ js_member "reason" p = JUndefined
  | Some p' => js_member "reason" p' = JString "[REDACTED]" /\ redactMemoryConsolidatedPayload p' = Ok None
  end.
Proof.
  unfold redactMemoryConsolidatedPayload at 1, opaque.
  destruct (is_true (js_member "_encrypted" p)) eqn:E1; [intros [= <-]; left; left; by apply is_true_spec|].
  destruct (is_true (js_member "redacted" p)) eqn:E2; [intros [= <-]; left; right; by apply is_true_spec|].
  unfold mbind, result_mbind. rewrite result_bind_ok. intros (has & H1 & H).
  destruct has; cbn in H; injection H as <-; [|right; by apply js_in_member].
  destruct p; try done. cbn [spread foldl fst snd js_member]. unfold js_field. rewrite !jm_get_set.
  split; [by repeat case_decide|]. unfold redactMemoryConsolidatedPayload. cbn [js_member]. unfold js_field.
  rewrite !jm_get_set. repeat case_decide; try done. by case_match.
Qed.

Lemma stripManifest_spec p r :
  stripConsolidationManifest p = Ok r ->
  match r with
  | None => js_in "mutation_manifest" p = Ok false
  | Some p' => js_in "mutation_manifest" p' = Ok false
  end.
Proof.
  unfold stripConsolidationManifest, mbind, result_mbind. rewrite result_bind_ok.
  intros (has & H1 & H). destruct has; cbn in H; injection H as <-; [|done].
  destruct p; try done. cbn [omit foldl js_in]. unfold jm_has. by rewrite jm_get_delete_eq.
Qed.

Lemma spread_truthy p ups : falsy (spread p ups) = false.
Proof. by destruct p. Qed.
Lemma omit_truthy p keys : falsy (omit p keys) = false.
Proof. by destruct p. Qed.

(** An entry keeps everything but its payload. *)
Lemma redact_entry_payload e e' :
  redact_entry e = Ok e' -> exists p', e' = set_payload p' e.
Proof.
  assert (e = set_payload (payload e) e) as Hid by (by destruct e).
  assert (forall o, exists p', replaced e o = set_payload p' e) as Hr
    by (intros [p|]; cbn; eauto).
  unfold redact_entry, mbind, result_mbind. intros H.
  repeat case_match; try (injection H as <-; eauto);
    apply result_bind_ok in H as (p & _ & [= <-]); apply Hr.
Qed.

Lemma event_types_distinct :
  MemoryFormed <> ConsolidationReceiptSigned /\ MemoryFormed <> MemoryAudit /\
  MemoryFormed <> MemoryConsolidated /\ ConsolidationReceiptSigned <> MemoryAudit /\
  ConsolidationReceiptSigned <> MemoryConsolidated /\ MemoryAudit <> MemoryConsolidated.
Proof. by vm_compute. Qed.

(** What the relay stores and serves is redacted.  The redaction of an event
    changes its payload only and is stable under a second pass.  Unless the payload
    came marked as encrypted or already redacted, a [memory_formed] of a
    sensitivity that may not be synced keeps no content, a [memory_audit] keeps no
    excerpt of the user's words, and a [memory_consolidated] no reason; a
    [consolidation_receipt_signed] never keeps its mutation manifest. *)
Theorem redaction_seals e e' :
  redact_entry e = Ok e' ->
  (exists p', e' = set_payload p' e) /\ redact_entry e' = Ok e' /\
  (falsy (payload e) = true \/ opaque (payload e) \/ sealed (event_type e) (payload e) (payload e')) /\
  (event_type e = ConsolidationReceiptSigned -> falsy (payload e) = false ->
     js_in "mutation_manifest" (payload e') = Ok false).
Proof.
  intros H. split; [by apply redact_entry_payload|]. pose proof H as H0. revert H.
  destruct event_types_distinct as (D1 & D2 & D3 & D4 & D5 & D6).
  unfold redact_entry at 1, mbind, result_mbind.
  destruct (falsy (payload e)) eqn:Ef; [intros [= <-]; split_and!; [done|by left|done]|].
  case_bool_decide as T1.
  { intros [= <-]. pose proof (redactMemoryFormed_spec (payload e)) as Hs. unfold sealed. rewrite T1.
    split_and!; [|right|done].
    - destruct (redactMemoryFormedPayload (payload e)) as [p'|] eqn:E; cbn [replaced]; [|done].
      unfold redact_entry. cbn [set_payload payload event_type]. case_match; [done|].
      rewrite bool_decide_eq_true_2 by done. by rewrite (proj2 Hs).
    - destruct (redactMemoryFormedPayload (payload e)) as [p'|]; cbn [replaced set_payload payload].
      + right. split_and!; [|done|done]. intros _. right. apply Hs.
      + destruct Hs as [Ho|Hs]; [by left|]. right. split_and!; [|done|done]. intros _. by left. }
  case_bool_decide as T2.
  { rewrite result_bind_ok. intros (r & E & [= <-]). pose proof (stripManifest_spec _ _ E) as Hs.
    unfold sealed. rewrite T2. split_and!; [|right; right; split_and!; done|].
    - destruct r as [p'|]; cbn [replaced]; [|done]. unfold redact_entry, mbind, result_mbind.
      cbn [set_payload payload event_type]. case_match; [done|].
      rewrite bool_decide_eq_false_2, bool_decide_eq_true_2 by congruence.
      unfold stripConsolidationManifest, mbind, result_mbind. by rewrite Hs.
    - intros _ _. by destruct r. }
  case_bool_decide as T3.
  { rewrite result_bind_ok. intros (r & E & [= <-]). pose proof (redactMemoryAudit_spec _ _ E) as Hs.
    unfold sealed. rewrite T3. split_and!; [|right|congruence].
    - destruct r as [p'|]; cbn [replaced]; [|done]. unfold redact_entry, mbind, result_mbind.
      cbn [set_payload payload event_type]. case_match; [done|].
      rewrite !(bool_decide_eq_false_2 (_ = _)) by congruence. rewrite bool_decide_eq_true_2 by done.
      destruct Hs as (_ & _ & ->). done.
    - destruct r as [p'|]; cbn [replaced set_payload payload].
      + right. split_and!; [done| |done]. intros _. tauto.
      + destruct Hs as [Ho|Hs]; [by left|]. right. split_and!; done. }
  case_bool_decide as T4; [|intros [= <-]; split_and!; [done|right; right; split_and!; done|done]].
  rewrite result_bind_ok. intros (r & E & [= <-]). pose proof (redactMemoryConsolidated_spec _ _ E) as Hs.
  unfold sealed. rewrite T4. split_and!; [|right|congruence].
  - destruct r as [p'|]; cbn [replaced]; [|done]. unfold redact_entry, mbind, result_mbind.
    cbn [set_payload payload event_type]. case_match; [done|].
    rewrite !(bool_decide_eq_false_2 (_ = _)) by congruence. rewrite bool_decide_eq_true_2 by done.
    by rewrite (proj2 Hs).
  - destruct r as [p'|]; cbn [replaced set_payload payload].
    + right. split_and!; [done|done|]. intros _. right. tauto.
    + destruct Hs as [Ho|Hs]; [by left|]. right. split_and!; [done|done|]. intros _. by left.
Qed.

Definition demo_memory (fields : jsmap string json) : EventLogEntry := {|
  event_id := "e1"; motebit_id := "m"; device_id := None; timestamp := 5; event_type := MemoryFormed;
  payload := JObject fields; version_clock := 1; tombstoned := false |}.

Definition demo_secret : EventLogEntry :=
  demo_memory [("node_id", JString "n"); ("content", JString "diagnosis"); ("sensitivity", JString "medical")]%string.

Lemma redaction_seals_witness :
  let e' := set_payload (JObject [("node_id", JString "n"); ("content", JString "[REDACTED]");
    ("sensitivity", JString "medical"); ("redacted", JBoolean true);
    ("redacted_sensitivity", JString "medical")]%string) demo_secret in
  redact_entry demo_secret = Ok e' /\ redact_entry e' = Ok e'.
Proof.
  assert (redact_entry demo_secret = Ok (set_payload (JObject [("node_id", JString "n");
    ("content", JString "[REDACTED]"); ("sensitivity", JString "medical"); ("redacted", JBoolean true);
    ("redacted_sensitivity", JString "medical")]%string) demo_secret)) as H by (vm_compute; reflexivity).
  split; [exact H|]. apply (redaction_seals _ _ H).
Defined.

(** The sender's own [redacted: true] is taken at its word: the content of any
    sensitivity goes through. *)
Lemma redacted_flag_trusted fields :
  js_field "redacted" fields = JBoolean true ->
  redact_entry (demo_memory fields) = Ok (demo_memory fields).
Proof.
  intros Hr. unfold redact_entry, redactMemoryFormedPayload. cbn [demo_memory payload event_type falsy js_member].
  rewrite bool_decide_eq_true_2 by done. rewrite Hr. by case_match.
Qed.
