(* ===== verification/EventSeq.v ===== *)
(** * The relay's ingest sequence ([services/relay/src/event-seq.ts])

    The [events] table of the relay with the two tables and the two triggers of
    migration 46, the statements that write it, and the paged read by sequence
    number.  A payload column holds the value its JSON text denotes. *)

From S2P Require Import Prelude JsMap Json EventLog Redaction.
Local Open Scope Z_scope.

(** A row of [events]. *)
Record event_row := {
  row_event_id : string;
  row_motebit_id : string;
  row_device_id : option string;
  row_event_type : string;
  row_payload : json;
  row_version_clock : Z;
  row_timestamp : Z;
  row_tombstoned : Z;
  relay_ingress_redacted : option Z;
}.

Record seq_row := {
  sq_motebit_id : string;
  sq_seq : Z;
  sq_event_id : string;
}.

Record sync_db := {
  event_rows : list event_row;
  relay_event_seq : list seq_row;
  relay_event_seq_counter : jsmap string Z;
}.

Definition set_event_rows (rows : list event_row) (d : sync_db) : sync_db := {|
  event_rows := rows; relay_event_seq := relay_event_seq d;
  relay_event_seq_counter := relay_event_seq_counter d |}.

Definition last_seq (mid : string) (d : sync_db) : Z := default 0 (jm_get mid (relay_event_seq_counter d)).

(** [PRIMARY KEY (motebit_id, seq)] and [event_id UNIQUE] *)
Definition same_seq (a b : seq_row) : bool :=
  (bool_decide (sq_motebit_id a = sq_motebit_id b) && bool_decide (sq_seq a = sq_seq b))
  || bool_decide (sq_event_id a = sq_event_id b).

(** Trigger [relay_event_seq_stamp].  Its [OR REPLACE] runs under the conflict
    policy of the outer [INSERT OR IGNORE]. *)
Definition stamp (mid eid : string) (d : sync_db) : sync_db :=
  let seq := last_seq mid d + 1 in
  let row := {| sq_motebit_id := mid; sq_seq := seq; sq_event_id := eid |} in
  {| event_rows := event_rows d;
     relay_event_seq := if existsb (same_seq row) (relay_event_seq d) then relay_event_seq d
                        else relay_event_seq d ++ [row];
     relay_event_seq_counter := jm_set mid seq (relay_event_seq_counter d) |}.

Definition has_event (eid : string) (d : sync_db) : bool :=
  existsb (fun r => bool_decide (row_event_id r = eid)) (event_rows d).

(** [INSERT OR IGNORE INTO events ...] *)
Definition insert_event (row : event_row) (d : sync_db) : sync_db :=
  if has_event (row_event_id row) d then d
  else stamp (row_motebit_id row) (row_event_id row) (set_event_rows (event_rows d ++ [row]) d).

(** [DELETE FROM events WHERE cond], with trigger [relay_event_seq_unstamp]. *)
Definition delete_events (cond : event_row -> bool) (d : sync_db) : sync_db :=
  let gone := row_event_id <$> List.filter cond (event_rows d) in
  {| event_rows := List.filter (fun r => negb (cond r)) (event_rows d);
     relay_event_seq := filter (fun s => sq_event_id s ∉ gone) (relay_event_seq d);
     relay_event_seq_counter := relay_event_seq_counter d |}.

Definition row_of_entry (entry : EventLogEntry) (ingressRedacted : option Z) : event_row := {|
  row_event_id := event_id entry; row_motebit_id := motebit_id entry; row_device_id := device_id entry;
  row_event_type := event_type entry; row_payload := payload entry;
  row_version_clock := version_clock entry; row_timestamp := timestamp entry;
  row_tombstoned := if tombstoned entry then 1 else 0; relay_ingress_redacted := ingressRedacted |}.

(** [SqliteEventStore] of the persistence package: the writes. *)
Definition sqlite_append (entry : EventLogEntry) (d : sync_db) : sync_db :=
  insert_event (row_of_entry entry None) d.

Definition sqlite_compact (mid : string) (beforeClock : Z) : sync_db -> sync_db :=
  delete_events (fun r => bool_decide (row_motebit_id r = mid) && bool_decide (row_version_clock r <= beforeClock)).

Definition sqlite_truncateBeforeHorizon (mid : string) (horizonTs : Z) : sync_db -> sync_db :=
  delete_events (fun r => bool_decide (row_motebit_id r = mid) && bool_decide (row_timestamp r < horizonTs)).

Definition tombstone_row (r : event_row) : event_row := {|
  row_event_id := row_event_id r; row_motebit_id := row_motebit_id r; row_device_id := row_device_id r;
  row_event_type := row_event_type r; row_payload := row_payload r;
  row_version_clock := row_version_clock r; row_timestamp := row_timestamp r; row_tombstoned := 1;
  relay_ingress_redacted := relay_ingress_redacted r |}.

Definition sqlite_tombstone (eid mid : string) (d : sync_db) : sync_db :=
  set_event_rows ((fun r => if bool_decide (row_event_id r = eid) && bool_decide (row_motebit_id r = mid)
                            then tombstone_row r else r) <$> event_rows d) d.

(** The write of the sync doors; the owner is the identity the request is bound to. *)
Definition appendBoundEvent (owner : string) (entry : EventLogEntry) (ingressRedacted : bool) (d : sync_db)
    : result event_error (bool * sync_db) :=
  if negb (bool_decide (motebit_id entry = owner)) then Ok (false, d) else
  if bool_decide (event_id entry = EmptyString) then Throw EmptyEventId else
  if bool_decide (motebit_id entry = EmptyString) then Throw EmptyMotebitId else
  Ok (true, insert_event (row_of_entry entry (Some (if ingressRedacted then 1 else 0))) d).

(** ** The read *)

Definition EVENT_SEQ_PAGE_MAX : Z := 1000.

Record SequencedEvent := {
  se_event : EventLogEntry;
  se_seq : Z;
}.

Record SeqPullBody := {
  body_motebit_id : string;
  body_events : list SequencedEvent;
  after_seq : Z;
  next_seq : Z;
  has_more : bool;
  latest_seq : Z;
}.

Record ServedRow := {
  served_row : Z * event_row;
  stored : EventLogEntry;
  served : EventLogEntry;
}.

Definition rowToEvent (row : event_row) : EventLogEntry := {|
  event_id := row_event_id row; motebit_id := row_motebit_id row; device_id := row_device_id row;
  timestamp := row_timestamp row; event_type := row_event_type row; payload := row_payload row;
  version_clock := row_version_clock row; tombstoned := bool_decide (row_tombstoned row = 1) |}.

(** [relay_event_seq s JOIN events e ON e.event_id = s.event_id WHERE ...] *)
Definition page_row (mid : string) (afterSeq : Z) (d : sync_db) (s : seq_row) : option (Z * event_row) :=
  if bool_decide (sq_motebit_id s = mid) && bool_decide (sq_seq s > afterSeq) then
    e ← List.find (fun r => bool_decide (row_event_id r = sq_event_id s)) (event_rows d);
    if bool_decide (row_motebit_id e = mid) then Some (sq_seq s, e) else None
  else None.

Definition seq_le (a b : Z * event_row) : bool := bool_decide (a.1 <= b.1).

(** The whole join, in [ORDER BY s.seq ASC]. *)
Definition rows_after (mid : string) (afterSeq : Z) (d : sync_db) : list (Z * event_row) :=
  js_sort seq_le (omap (page_row mid afterSeq d) (relay_event_seq d)).

(** The loop over the page: each row's entry, redacted. *)
Fixpoint serve (pageRows : list (Z * event_row))
    : result event_error (list SequencedEvent * list ServedRow) :=
  match pageRows with
  | [] => Ok ([], [])
  | row :: pageRows =>
      let stored := rowToEvent row.2 in
      redacted ← redactSensitiveEvents [stored];
      rest ← serve pageRows;
      Ok (((fun event => {| se_event := event; se_seq := row.1 |}) <$> redacted) ++ rest.1,
          ((fun event => {| served_row := row; stored := stored; served := event |}) <$> redacted) ++ rest.2)
  end.

Definition readEventsAfterSeq (mid : string) (afterSeq : Z) (limit : option Z) (d : sync_db)
    : result event_error (SeqPullBody * list ServedRow) :=
  let pageSize := Z.max 1 (Z.min (default EVENT_SEQ_PAGE_MAX limit) EVENT_SEQ_PAGE_MAX) in
  let rows := take (Z.to_nat (pageSize + 1)) (rows_after mid afterSeq d) in
  let latest := last_seq mid d in
  let hasMore := bool_decide (Z.of_nat (length rows) > pageSize) in
  let pageRows := if hasMore then take (Z.to_nat pageSize) rows else rows in
  es ← serve pageRows;
  let nextSeq := match last pageRows with Some r => r.1 | None => afterSeq end in
  Ok ({| body_motebit_id := mid; body_events := es.1; after_seq := afterSeq; next_seq := nextSeq;
         has_more := hasMore; latest_seq := latest |}, es.2).

(** ** Migration 46 *)

(** [ROW_NUMBER() OVER (PARTITION BY motebit_id ORDER BY rowid)] *)
Fixpoint backfill (before rows : list event_row) : list seq_row :=
  match rows with
  | [] => []
  | r :: rows =>
      {| sq_motebit_id := row_motebit_id r;
         sq_seq := 1 + Z.of_nat (length (filter (fun r' => row_motebit_id r' = row_motebit_id r) before));
         sq_event_id := row_event_id r |} :: backfill (before ++ [r]) rows
  end.

(** [SELECT motebit_id, MAX(seq) ... GROUP BY motebit_id] *)
Definition max_seq (mid : string) (seqs : list seq_row) : Z :=
  zmax_from 0 (sq_seq <$> filter (fun s => sq_motebit_id s = mid) seqs).

Definition migrate_event_seq (rows : list event_row) : sync_db :=
  let seqs := backfill [] rows in
  {| event_rows := rows; relay_event_seq := seqs;
     relay_event_seq_counter := (fun mid => (mid, max_seq mid seqs)) <$> js_set_of (sq_motebit_id <$> seqs) |}.

(** ** Writers *)

Inductive relay_op :=
| RelayAppend (entry : EventLogEntry) (ingressRedacted : option Z)
| RelayPush (owner : string) (entry : EventLogEntry) (ingressRedacted : bool)
| RelayCompact (mid : string) (beforeClock : Z)
| RelayTruncate (mid : string) (horizonTs : Z)
| RelayTombstone (eid mid : string).

Definition run_relay_op (d : sync_db) (op : relay_op) : sync_db :=
  match op with
  | RelayAppend entry flag => insert_event (row_of_entry entry flag) d
  | RelayPush owner entry flag =>
      match appendBoundEvent owner entry flag d with Ok (_, d') => d' | Throw _ => d end
  | RelayCompact mid c => sqlite_compact mid c d
  | RelayTruncate mid t => sqlite_truncateBeforeHorizon mid t d
  | RelayTombstone eid mid => sqlite_tombstone eid mid d
  end.

Definition run_relay (ops : list relay_op) (d : sync_db) : sync_db := foldl run_relay_op d ops.

(** ** The invariant *)

Definition seq_key (s : seq_row) : string * Z := (sq_motebit_id s, sq_seq s).

Definition stamps (s : seq_row) (r : event_row) : Prop :=
  row_event_id r = sq_event_id s /\ row_motebit_id r = sq_motebit_id s.

Record seq_ok (d : sync_db) : Prop := {
  so_events : NoDup (row_event_id <$> event_rows d);
  so_ids : NoDup (sq_event_id <$> relay_event_seq d);
  so_keys : NoDup (seq_key <$> relay_event_seq d);
  so_bound : forall s, s ∈ relay_event_seq d -> 0 < sq_seq s <= last_seq (sq_motebit_id s) d;
  so_counter : forall mid, 0 <= last_seq mid d;
  so_event : forall s, s ∈ relay_event_seq d -> exists r, r ∈ event_rows d /\ stamps s r;
  so_stamped : forall r, r ∈ event_rows d -> exists s, s ∈ relay_event_seq d /\ stamps s r;
}.

(** Between two states of the relay: no number at or below the old counter is
    given to another event. *)
Definition later (d d' : sync_db) : Prop := forall mid,
  last_seq mid d <= last_seq mid d' /\
  forall s, s ∈ relay_event_seq d' -> sq_motebit_id s = mid -> sq_seq s <= last_seq mid d ->
    s ∈ relay_event_seq d.

#[export] Instance later_preorder : PreOrder later.
Proof.
  split; [intros d mid; split; [lia|auto]|].
  intros d1 d2 d3 H1 H2 mid. destruct (H1 mid) as [L1 E1], (H2 mid) as [L2 E2].
  split; [lia|]. intros s Hs Hm Hle. apply E1; [apply E2|..]; auto; lia.
Qed.

Lemma last_seq_stamp mid mid' eid d :
  last_seq mid (stamp mid' eid d) = if decide (mid = mid') then last_seq mid' d + 1 else last_seq mid d.
Proof. unfold last_seq, stamp. cbn. rewrite jm_get_set. by case_decide. Qed.

Lemma stamp_fresh mid eid d :
  (forall s, s ∈ relay_event_seq d -> sq_motebit_id s = mid -> sq_seq s <= last_seq mid d) ->
  eid ∉ sq_event_id <$> relay_event_seq d ->
  relay_event_seq (stamp mid eid d)
  = relay_event_seq d ++ [{| sq_motebit_id := mid; sq_seq := last_seq mid d + 1; sq_event_id := eid |}].
Proof.
  intros Hb Hn. unfold stamp. cbn [relay_event_seq]. destruct (existsb _ _) eqn:E; [|done]. exfalso.
  apply existsb_exists in E as (s & Hs%list_elem_of_In & E). unfold same_seq in E. cbn in E.
  rewrite orb_true_iff, andb_true_iff, !bool_decide_eq_true in E.
  destruct E as [[Hm Hq]|He]; [specialize (Hb s Hs (eq_sym Hm)); lia|].
  apply Hn. apply list_elem_of_fmap. eauto.
Qed.

Lemma has_event_spec eid d : has_event eid d = true <-> eid ∈ row_event_id <$> event_rows d.
Proof.
  unfold has_event. rewrite existsb_exists, list_elem_of_fmap. split.
  - intros (r & Hr%list_elem_of_In & E%bool_decide_eq_true). eauto.
  - intros (r & -> & Hr). exists r. split; [by apply list_elem_of_In|]. by apply bool_decide_eq_true_2.
Qed.

Lemma seq_id_has_event d s : seq_ok d -> s ∈ relay_event_seq d -> sq_event_id s ∈ row_event_id <$> event_rows d.
Proof. intros Hok Hs. destruct (so_event d Hok s Hs) as (r & Hr & E & _). apply list_elem_of_fmap. eauto. Qed.

Lemma insert_event_ok row d : seq_ok d -> seq_ok (insert_event row d) /\ later d (insert_event row d).
Proof.
  intros Hok. unfold insert_event. destruct (has_event (row_event_id row) d) eqn:Hn; [done|].
  apply not_true_iff_false in Hn. rewrite has_event_spec in Hn.
  set (d1 := set_event_rows (event_rows d ++ [row]) d).
  assert (row_event_id row ∉ sq_event_id <$> relay_event_seq d) as Hn'.
  { intros (s & E & Hs)%list_elem_of_fmap. apply Hn. rewrite E. by apply seq_id_has_event. }
  assert (forall s, s ∈ relay_event_seq d -> sq_motebit_id s = row_motebit_id row ->
    sq_seq s <= last_seq (row_motebit_id row) d) as Hb.
  { intros s Hs <-. apply (so_bound d Hok s Hs). }
  pose proof (stamp_fresh (row_motebit_id row) (row_event_id row) d1 Hb Hn') as E.
  set (s0 := {| sq_motebit_id := _; sq_seq := last_seq (row_motebit_id row) d1 + 1; sq_event_id := _ |}) in E.
  assert (forall mid, last_seq mid (stamp (row_motebit_id row) (row_event_id row) d1)
    = if decide (mid = row_motebit_id row) then last_seq mid d + 1 else last_seq mid d) as Hl.
  { intros mid. rewrite last_seq_stamp. by case_decide; subst. }
  destruct Hok as [O1 O2 O3 O4 O5 O6 O7]. split; [split|].
  - cbn. rewrite fmap_app. apply NoDup_app. split_and!; [done| |apply NoDup_singleton].
    intros x Hx ->%list_elem_of_singleton. done.
  - rewrite E, fmap_app. apply NoDup_app. split_and!; [done| |apply NoDup_singleton].
    intros x Hx ->%list_elem_of_singleton. done.
  - rewrite E, fmap_app. apply NoDup_app. split_and!; [done| |apply NoDup_singleton].
    intros x Hx ->%list_elem_of_singleton. apply list_elem_of_fmap in Hx as (s & [= Em Eq] & Hs).
    specialize (Hb s Hs (eq_sym Em)). unfold last_seq in *. cbn in Eq. lia.
  - intros s. rewrite E, elem_of_app, list_elem_of_singleton, Hl. intros [Hs| ->].
    + specialize (O4 s Hs). case_decide; lia.
    + cbn. rewrite decide_True by done. specialize (O5 (row_motebit_id row)). unfold last_seq in *. cbn. lia.
  - intros mid. rewrite Hl. specialize (O5 mid). case_decide; lia.
  - intros s. rewrite E, elem_of_app, list_elem_of_singleton. intros [Hs| ->].
    + destruct (O6 s Hs) as (r & Hr & Hrs). exists r. split; [cbn; set_solver|done].
    + exists row. split; [cbn; set_solver|done].
  - intros r Hr. cbn in Hr. rewrite E. apply elem_of_app in Hr as [Hr| ->%list_elem_of_singleton].
    + destruct (O7 r Hr) as (s & Hs & Hrs). exists s. split; [set_solver|done].
    + exists s0. split; [set_solver|done].
  - intros mid. rewrite Hl. split; [case_decide; lia|]. intros s. rewrite E, elem_of_app, list_elem_of_singleton.
    intros [Hs| ->]; [done|]. cbn. intros <-. unfold last_seq. cbn. lia.
Qed.

Lemma NoDup_fmap_sub {A B} (f : A -> B) (l l' : list A) :
  l' `sublist_of` l -> NoDup (f <$> l) -> NoDup (f <$> l').
Proof. intros Hs Hn. eapply sublist_NoDup; [exact Hn|]. by apply fmap_sublist. Qed.

Lemma List_filter_sublist {A} (f : A -> bool) l : List.filter f l `sublist_of` l.
Proof. induction l as [|x l IH]; cbn; [constructor|]. destruct (f x); by constructor. Qed.

Lemma filter_sublist_of {A} (P : A -> Prop) `{!forall x, Decision (P x)} l : filter P l `sublist_of` l.
Proof. induction l as [|x l IH]; [constructor|]. rewrite filter_cons. case_decide; by constructor. Qed.

Lemma NoDup_fmap_eq {A B} (f : A -> B) l x y : NoDup (f <$> l) -> x ∈ l -> y ∈ l -> f x = f y -> x = y.
Proof.
  induction l as [|z l IH]; intros Hn Hx Hy E; [set_solver|]. apply NoDup_cons in Hn as [Hz Hn].
  apply elem_of_cons in Hx, Hy. destruct Hx as [->|Hx], Hy as [->|Hy]; auto.
  - exfalso. apply Hz. rewrite E. by apply list_elem_of_fmap_2.
  - exfalso. apply Hz. rewrite <- E. by apply list_elem_of_fmap_2.
Qed.

Lemma delete_events_ok cond d : seq_ok d -> seq_ok (delete_events cond d) /\ later d (delete_events cond d).
Proof.
  intros [O1 O2 O3 O4 O5 O6 O7]. set (gone := row_event_id <$> List.filter cond (event_rows d)).
  assert (forall r, r ∈ event_rows d -> (cond r = true <-> row_event_id r ∈ gone)) as Hg.
  { intros r Hr. unfold gone. rewrite list_elem_of_fmap. split.
    - intros Hc. exists r. split; [done|]. apply list_elem_of_In, filter_In. by rewrite <- list_elem_of_In.
    - intros (r' & E & [Hr' Hc]%list_elem_of_In%filter_In). apply list_elem_of_In in Hr'.
      by rewrite (NoDup_fmap_eq _ _ _ _ O1 Hr Hr' E). }
  assert (forall s, (s ∈ relay_event_seq (delete_events cond d) <->
    (sq_event_id s ∉ gone) /\ s ∈ relay_event_seq d)) as Hs
    by (intros s; cbn [delete_events relay_event_seq]; by rewrite list_elem_of_filter).
  assert (forall r, (r ∈ event_rows (delete_events cond d) <-> r ∈ event_rows d /\ cond r = false)) as Hr.
  { intros r. cbn. rewrite !list_elem_of_In, filter_In, negb_true_iff. done. }
  split; [split|].
  - eapply NoDup_fmap_sub; [apply List_filter_sublist|done].
  - eapply NoDup_fmap_sub; [apply filter_sublist_of|done].
  - eapply NoDup_fmap_sub; [apply filter_sublist_of|done].
  - intros s [_ H]%Hs. by apply O4.
  - done.
  - intros s [Hn H]%Hs. destruct (O6 s H) as (r & Hin & E & Em). exists r. split; [|done].
    apply Hr. split; [done|]. apply not_true_iff_false. rewrite Hg, E by done. done.
  - intros r [Hin Hc]%Hr. destruct (O7 r Hin) as (s & H & E & Em). exists s. split; [|done].
    apply Hs. split; [|done]. rewrite <- E, <- Hg by done. congruence.
  - intros mid. split; [done|]. intros s [_ H]%Hs. done.
Qed.

Lemma tombstone_row_ok eid mid d : seq_ok d -> seq_ok (sqlite_tombstone eid mid d) /\ later d (sqlite_tombstone eid mid d).
Proof.
  intros [O1 O2 O3 O4 O5 O6 O7]. set (f := fun r => if bool_decide (row_event_id r = eid) &&
    bool_decide (row_motebit_id r = mid) then tombstone_row r else r).
  assert (forall r, row_event_id (f r) = row_event_id r /\ row_motebit_id (f r) = row_motebit_id r) as Hf
    by (intros r; unfold f; by case_match).
  split; [split; cbn|intros m; split; [done|by intros s]]; try done.
  - rewrite <- list_fmap_compose. erewrite list_fmap_ext; [exact O1|]. intros i r _. apply Hf.
  - intros s Hs. destruct (O6 s Hs) as (r & Hr & E & Em). exists (f r). split; [by apply list_elem_of_fmap_2|].
    split; [by rewrite (proj1 (Hf r))|by rewrite (proj2 (Hf r))].
  - intros r (r0 & -> & Hr0)%list_elem_of_fmap. destruct (O7 r0 Hr0) as (s & Hs & E & Em). exists s.
    split; [done|]. destruct (Hf r0) as [F1 F2]. split; [etrans; [exact F1|done]|etrans; [exact F2|done]].
Qed.

Lemma run_relay_op_ok d op : seq_ok d -> seq_ok (run_relay_op d op) /\ later d (run_relay_op d op).
Proof.
  intros Hok. destruct op; cbn [run_relay_op].
  - by apply insert_event_ok.
  - unfold appendBoundEvent. destruct (negb _); [done|]. do 2 (case_bool_decide; [done|]).
    by apply insert_event_ok.
  - by apply delete_events_ok.
  - by apply delete_events_ok.
  - by apply tombstone_row_ok.
Qed.

Lemma run_relay_ok ops d : seq_ok d -> seq_ok (run_relay ops d) /\ later d (run_relay ops d).
Proof.
  revert d. induction ops as [|op ops IH]; intros d Hok; [done|]. cbn.
  destruct (run_relay_op_ok d op Hok) as [H1 L1]. destruct (IH _ H1) as [H2 L2].
  split; [done|]. by transitivity (run_relay_op d op).
Qed.

Lemma backfill_events before rows : sq_event_id <$> backfill before rows = row_event_id <$> rows.
Proof. revert before. induction rows as [|r rows IH]; intros before; cbn; [done|]. by rewrite IH. Qed.

Lemma backfill_stamps before rows : Forall2 stamps (backfill before rows) rows.
Proof. revert before. induction rows as [|r rows IH]; intros before; cbn; by repeat constructor. Qed.

Abbreviation numbered before mid := (Z.of_nat (length (filter (fun r => row_motebit_id r = mid) before))).

(** The numbers of one identity are above those given before, and distinct. *)
Lemma backfill_above before rows s :
  s ∈ backfill before rows -> numbered before (sq_motebit_id s) < sq_seq s.
Proof.
  revert before. induction rows as [|r rows IH]; intros before Hs; [set_solver|].
  cbn in Hs. apply elem_of_cons in Hs as [->|Hs]; [cbn; lia|].
  specialize (IH _ Hs). rewrite filter_app, length_app in IH. lia.
Qed.

Lemma backfill_keys before rows : NoDup (seq_key <$> backfill before rows).
Proof.
  revert before. induction rows as [|r rows IH]; intros before; cbn; [constructor|].
  apply NoDup_cons. split; [|apply IH]. intros (s & [= Em Eq] & Hs)%list_elem_of_fmap.
  pose proof (backfill_above _ _ _ Hs) as Ha. rewrite <- Em, filter_app, length_app, filter_cons, filter_nil in Ha.
  rewrite decide_True in Ha by done. cbn in Ha. lia.
Qed.

Lemma max_seq_ge s seqs : s ∈ seqs -> sq_seq s <= max_seq (sq_motebit_id s) seqs.
Proof.
  intros Hs. apply zmax_from_ge, list_elem_of_fmap. exists s. split; [done|]. by apply list_elem_of_filter.
Qed.

Lemma jm_get_tabulate (f : string -> Z) ks k :
  jm_get k ((fun k => (k, f k)) <$> ks) = if decide (k ∈ ks) then Some (f k) else None.
Proof.
  induction ks as [|k' ks IH]; [done|]. cbn. rewrite IH. repeat case_decide; set_solver.
Qed.

Lemma migrate_event_seq_ok rows : NoDup (row_event_id <$> rows) -> seq_ok (migrate_event_seq rows).
Proof.
  intros Hn. pose proof (backfill_stamps [] rows) as Hst.
  assert (forall mid, last_seq mid (migrate_event_seq rows)
    = if decide (mid ∈ sq_motebit_id <$> backfill [] rows) then max_seq mid (backfill [] rows) else 0) as Hl.
  { intros mid. unfold last_seq, migrate_event_seq. cbn [relay_event_seq_counter].
    rewrite jm_get_tabulate. destruct (decide (mid ∈ js_set_of _)) as [H|H]; rewrite js_set_of_elem in H;
      case_decide; done. }
  split.
  - done.
  - cbn. by rewrite backfill_events.
  - apply backfill_keys.
  - intros s Hs. rewrite Hl, decide_True by (by apply list_elem_of_fmap_2).
    pose proof (backfill_above _ _ _ Hs). split; [lia|]. by apply max_seq_ge.
  - intros mid. rewrite Hl. case_decide; [apply zmax_from_base|done].
  - intros s Hs. cbn in Hs. apply list_elem_of_lookup in Hs as [i Hi].
    destruct (Forall2_lookup_l _ _ _ _ _ Hst Hi) as (r & Hr & H). exists r. split; [|done].
    by apply list_elem_of_lookup_2 with i.
  - intros r Hr. cbn in Hr. apply list_elem_of_lookup in Hr as [i Hi].
    destruct (Forall2_lookup_r _ _ _ _ _ Hst Hi) as (s & Hs & H). exists s. split; [|done].
    by apply list_elem_of_lookup_2 with i.
Qed.

(** ** The page *)

Abbreviation before_seq := (fun a b : Z * event_row => a.1 < b.1).

Lemma page_row_spec mid c d s q e :
  page_row mid c d s = Some (q, e) ->
  sq_motebit_id s = mid /\ c < sq_seq s /\ q = sq_seq s /\ e ∈ event_rows d /\ stamps s e.
Proof.
  unfold page_row. destruct (_ && _) eqn:E; [|done]. apply andb_true_iff in E as [E1%bool_decide_eq_true E2%bool_decide_eq_true].
  destruct (List.find _ _) as [r|] eqn:Ef; cbn; [|done]. case_bool_decide as Em; [|done]. intros [= <- <-].
  apply find_some in Ef as [Hr Eid%bool_decide_eq_true]. split_and!; try done; [lia|by apply list_elem_of_In|].
  split; congruence.
Qed.

Lemma page_row_of d s : seq_ok d -> s ∈ relay_event_seq d -> forall c, c < sq_seq s ->
  exists e, page_row (sq_motebit_id s) c d s = Some (sq_seq s, e).
Proof.
  intros Hok Hs c Hc. destruct (so_event d Hok s Hs) as (r & Hr & Eid & Em). unfold page_row.
  rewrite bool_decide_eq_true_2 by done. rewrite bool_decide_eq_true_2 by lia. cbn [andb].
  destruct (List.find _ _) as [r'|] eqn:Ef.
  - apply find_some in Ef as [Hr'%list_elem_of_In Eid'%bool_decide_eq_true].
    assert (r' = r) as -> by (apply (NoDup_fmap_eq _ _ _ _ (so_events d Hok)); congruence).
    cbn. rewrite bool_decide_eq_true_2 by done. eauto.
  - exfalso. eapply find_none in Ef; [|by apply list_elem_of_In]. cbv beta in Ef.
    rewrite bool_decide_eq_true_2 in Ef by done. done.
Qed.

Lemma rows_after_elem mid c d q e :
  seq_ok d -> ((q, e) ∈ rows_after mid c d <->
    exists s, s ∈ relay_event_seq d /\ sq_motebit_id s = mid /\ c < sq_seq s /\ q = sq_seq s /\
              e ∈ event_rows d /\ stamps s e).
Proof.
  intros Hok. unfold rows_after. rewrite js_sort_elem, list_elem_of_omap. split.
  - intros (s & Hs & H). exists s. split; [done|]. by apply page_row_spec in H.
  - intros (s & Hs & <- & Hc & -> & He & Hst). exists s. split; [done|].
    destruct (page_row_of d s Hok Hs c Hc) as [e' E]. rewrite E. f_equal. f_equal.
    apply page_row_spec in E as (_ & _ & _ & He' & Hst').
    apply (NoDup_fmap_eq _ _ _ _ (so_events d Hok) He' He). destruct Hst, Hst'. congruence.
Qed.

Lemma page_keys mid c d l : NoDup (seq_key <$> l) -> NoDup ((omap (page_row mid c d) l).*1).
Proof.
  induction l as [|s l IH]; intros Hk; [constructor|].
  rewrite fmap_cons in Hk. apply NoDup_cons in Hk as [Hs Hk]. cbn.
  destruct (page_row mid c d s) as [[q e]|] eqn:E; [|by apply IH].
  rewrite fmap_cons. apply NoDup_cons. split; [|by apply IH].
  apply page_row_spec in E as (<- & _ & -> & _).
  intros ([q' e'] & Eq & (s' & Hs' & H)%list_elem_of_omap)%list_elem_of_fmap. cbn in Eq. subst q'.
  apply page_row_spec in H as (Em & _ & Eq & _). apply Hs, list_elem_of_fmap. exists s'.
  split; [|done]. unfold seq_key. congruence.
Qed.

Lemma seq_le_total a b : seq_le a b = true \/ seq_le b a = true.
Proof. unfold seq_le. rewrite !bool_decide_eq_true. lia. Qed.
Lemma seq_le_trans a b c : seq_le a b = true -> seq_le b c = true -> seq_le a c = true.
Proof. unfold seq_le. rewrite !bool_decide_eq_true. lia. Qed.

Lemma rows_after_sorted mid c d : seq_ok d -> StronglySorted before_seq (rows_after mid c d).
Proof.
  intros Hok. pose proof (js_sort_sorted seq_le seq_le_total seq_le_trans
    (omap (page_row mid c d) (relay_event_seq d))) as Hs. fold (rows_after mid c d) in Hs.
  assert (NoDup ((rows_after mid c d).*1)) as Hn.
  { unfold rows_after. rewrite js_sort_perm. apply page_keys, so_keys, Hok. }
  induction Hs as [|x l Hs IH Hx]; [constructor|]. rewrite fmap_cons in Hn. apply NoDup_cons in Hn as [Hni Hn].
  constructor; [by apply IH|]. rewrite Forall_forall in *. intros y Hy. specialize (Hx y Hy).
  unfold seq_le in Hx. rewrite bool_decide_eq_true in Hx.
  assert (x.1 <> y.1) by (intros E; apply Hni; rewrite E; by apply list_elem_of_fmap_2). lia.
Qed.

(** The first [k] rows hold every row up to the last of them. *)
Lemma take_up_to k (l : list (Z * event_row)) r x :
  StronglySorted before_seq l -> last (take k l) = Some r -> x ∈ l -> x.1 <= r.1 -> x ∈ take k l.
Proof.
  intros Hs Hl Hx Hle. rewrite <- (take_drop k l) in Hx. apply elem_of_app in Hx as [Hx|Hx]; [done|].
  apply last_Some in Hl as [l' Hl]. rewrite <- (take_drop k l), Hl in Hs.
  assert (r.1 < x.1); [|lia]. apply StronglySorted_app in Hs as (H & _ & _).
  apply (H r x); [set_solver|done].
Qed.

Lemma take_last_above k (l : list (Z * event_row)) r x :
  StronglySorted before_seq l -> last (take k l) = Some r -> x ∈ take k l -> x.1 <= r.1.
Proof.
  intros Hs Hl Hx. apply last_Some in Hl as [l' Hl]. rewrite <- (take_drop k l), Hl in Hs.
  rewrite Hl in Hx. apply StronglySorted_app in Hs as (_ & Hs & _). apply StronglySorted_app in Hs as (H & _ & _).
  apply elem_of_app in Hx as [Hx| ->%list_elem_of_singleton]; [|lia].
  assert (x.1 < r.1); [apply (H x r); set_solver|lia].
Qed.

Definition serves (s : seq_row) (e : SequencedEvent) : Prop :=
  se_seq e = sq_seq s /\ event_id (se_event e) = sq_event_id s /\ motebit_id (se_event e) = sq_motebit_id s.

(** A page answered for the cursor [c]. *)
Record page_ok (mid : string) (c : Z) (d : sync_db) (body : SeqPullBody) : Prop := {
  pg_latest : latest_seq body = last_seq mid d;
  pg_forward : c <= next_seq body;
  pg_bounded : next_seq body = c \/ next_seq body <= last_seq mid d;
  pg_all : forall s, s ∈ relay_event_seq d -> sq_motebit_id s = mid -> c < sq_seq s <= next_seq body ->
    exists e, e ∈ body_events body /\ serves s e;
  pg_only : forall e, e ∈ body_events body -> exists s, s ∈ relay_event_seq d /\ sq_motebit_id s = mid /\
    c < sq_seq s <= next_seq body /\ serves s e;
  pg_done : has_more body = false -> forall s, s ∈ relay_event_seq d -> sq_motebit_id s = mid ->
    sq_seq s <= Z.max c (next_seq body);
  pg_progress : has_more body = true -> c < next_seq body;
}.

Definition row_served (row : Z * event_row) (e : SequencedEvent) : Prop :=
  se_seq e = row.1 /\ event_id (se_event e) = row_event_id row.2 /\
  motebit_id (se_event e) = row_motebit_id row.2.

Lemma serve_spec rows es : serve rows = Ok es -> Forall2 row_served rows es.1.
Proof.
  revert es. induction rows as [|row rows IH]; intros es; cbn [serve]; [intros [= <-]; constructor|].
  unfold mbind, result_mbind. rewrite result_bind_ok. intros (red & Hr & H).
  apply result_bind_ok in H as (rest & Hs & [= <-]). cbn [redactSensitiveEvents] in Hr.
  unfold mbind, result_mbind in Hr. apply result_bind_ok in Hr as (e' & He & [= <-]).
  apply redact_entry_payload in He as (p & ->). cbn. constructor; [done|by apply IH].
Qed.

Lemma readEventsAfterSeq_page mid c limit d body sv :
  seq_ok d -> readEventsAfterSeq mid c limit d = Ok (body, sv) -> page_ok mid c d body.
Proof.
  intros Hok. unfold readEventsAfterSeq.
  set (n := Z.max 1 (Z.min (default EVENT_SEQ_PAGE_MAX limit) EVENT_SEQ_PAGE_MAX)).
  assert (1 <= n) as Hn by (unfold n; lia). clearbody n.
  set (rows := rows_after mid c d). cbv zeta. unfold mbind, result_mbind. rewrite result_bind_ok.
  intros (es & Hes & [= <- _]). apply serve_spec in Hes.
  pose proof (rows_after_sorted mid c d Hok) as Hsort. fold rows in Hsort.
  assert (exists k, (if bool_decide (Z.of_nat (length (take (Z.to_nat (n + 1)) rows)) > n)
                     then take (Z.to_nat n) (take (Z.to_nat (n + 1)) rows)
                     else take (Z.to_nat (n + 1)) rows) = take k rows /\
    (bool_decide (Z.of_nat (length (take (Z.to_nat (n + 1)) rows)) > n) = false -> take k rows = rows) /\
    (bool_decide (Z.of_nat (length (take (Z.to_nat (n + 1)) rows)) > n) = true ->
       (k <> 0)%nat /\ rows <> []))
    as (k & Ek & Hfull & Hmore).
  { case_bool_decide as Hm; rewrite length_take in Hm.
    - exists (Z.to_nat n). rewrite take_take, Nat.min_l by lia. split_and!; [done|done|].
      intros _. split; [lia|]. intros E. rewrite E in Hm. cbn in Hm. lia.
    - exists (Z.to_nat (n + 1)). split_and!; [done| |done]. intros _. apply take_ge. lia. }
  set (hm := bool_decide _) in *. rewrite Ek in *. clearbody hm. clear Ek n Hn.
  assert (forall q e, (q, e) ∈ take k rows -> (q, e) ∈ rows) as Hsub.
  { intros q e H. rewrite <- (take_drop k rows). set_solver. }
  assert (forall q e, (q, e) ∈ rows -> c < q <= last_seq mid d) as Hb.
  { intros q e (s & Hs & <- & Hc & -> & _)%rows_after_elem; [|done]. pose proof (so_bound d Hok s Hs). lia. }
  set (next := match last (take k rows) with Some r => r.1 | None => c end).
  assert (next = c /\ take k rows = [] \/ exists r, last (take k rows) = Some r /\ next = r.1 /\ r ∈ rows) as Hnext.
  { unfold next. destruct (last (take k rows)) as [[q e]|] eqn:El; [right|left; split; [done|by apply last_None]].
    exists (q, e). split_and!; [done|done|]. apply Hsub. by apply last_Some_elem_of. }
  clearbody next. split; cbn [latest_seq next_seq body_events has_more].
  - done.
  - destruct Hnext as [[-> _]|([q e] & _ & -> & Hr)]; [lia|]. apply Hb in Hr. cbn. lia.
  - destruct Hnext as [[-> _]|([q e] & _ & -> & Hr)]; [by left|]. right. apply Hb in Hr. cbn. lia.
  - intros s Hs <- [Hc Hle]. destruct Hnext as [[-> _]|([q e] & El & -> & Hr)]; [lia|].
    destruct (page_row_of d s Hok Hs c Hc) as [e' E].
    assert ((sq_seq s, e') ∈ take k rows) as Hin.
    { apply (take_up_to k rows (q, e)); [done|done| |done]. apply page_row_spec in E as (? & ? & ? & ? & ?).
      apply rows_after_elem; [done|]. exists s. done. }
    apply list_elem_of_lookup in Hin as [i Hi].
    destruct (Forall2_lookup_l _ _ _ _ _ Hes Hi) as (se & Hse & Hq & Hid & Hm).
    exists se. split; [by apply list_elem_of_lookup_2 with i|].
    apply page_row_spec in E as (_ & _ & _ & _ & Eid & Em). split_and!; [done|by rewrite Hid|by rewrite Hm].
  - intros se Hse. apply list_elem_of_lookup in Hse as [i Hi].
    destruct (Forall2_lookup_r _ _ _ _ _ Hes Hi) as ([q e] & Hr & Hq & Hid & Hm).
    apply list_elem_of_lookup_2 in Hr. pose proof (Hsub _ _ Hr) as Hin.
    apply rows_after_elem in Hin as (s & Hs & Em & Hc & -> & He & Eid & Em'); [|done].
    exists s. split; [done|]. split; [done|]. split.
    + split; [done|]. destruct Hnext as [[_ E0]|(r & El & -> & _)]; [rewrite E0 in Hr; set_solver|].
      apply (take_last_above _ _ _ _ Hsort El Hr).
    + cbn [fst snd] in *. split_and!; [done|by rewrite Hid|by rewrite Hm].
  - intros Hd s Hs <-. destruct (decide (sq_seq s <= c)); [lia|].
    destruct (page_row_of d s Hok Hs c ltac:(lia)) as [e E].
    assert ((sq_seq s, e) ∈ take k rows) as Hin.
    { rewrite (Hfull Hd). apply page_row_spec in E as (? & ? & ? & ? & ?). apply rows_after_elem; [done|]. by exists s. }
    destruct Hnext as [[_ E0]|(r & El & -> & _)]; [rewrite E0 in Hin; set_solver|].
    pose proof (take_last_above _ _ _ _ Hsort El Hin). cbn in *. lia.
  - intros Hm. destruct (Hmore Hm) as [Hk Hne].
    destruct Hnext as [[_ E0]|([q e] & _ & -> & Hr)]; [|apply Hb in Hr; cbn; lia].
    destruct rows; [done|]. by destruct k.
Qed.

(** ** Properties *)

(** C27: a sequence number means one event for ever.  From a backfilled table, after
    any writes of any writers, every event row has exactly one number, distinct
    within its identity and at most the identity's counter; and whatever is written
    or deleted afterwards, the counter never goes back and no number at or below it
    is given to an event that did not have it. *)
Theorem seq_never_reissued rows ops ops' :
  NoDup (row_event_id <$> rows) ->
  let d := run_relay ops (migrate_event_seq rows) in
  seq_ok d /\ later d (run_relay ops' d).
Proof.
  intros Hn d. assert (seq_ok d) as Hok by (apply run_relay_ok, migrate_event_seq_ok, Hn).
  split; [done|]. by apply run_relay_ok.
Qed.

(** A page misses nothing.  On any reachable table, a page read after cursor
    [c] holds exactly the identity's events numbered above [c] up to its [next_seq],
    each with its number; [next_seq] is never below [c] nor above the counter
    otherwise, moves when there is more, and when there is no more no event of the
    identity lies beyond it. *)
Theorem page_misses_nothing rows ops mid c limit body sv :
  NoDup (row_event_id <$> rows) ->
  readEventsAfterSeq mid c limit (run_relay ops (migrate_event_seq rows)) = Ok (body, sv) ->
  page_ok mid c (run_relay ops (migrate_event_seq rows)) body.
Proof.
  intros Hn H. eapply readEventsAfterSeq_page; [|exact H]. by apply run_relay_ok, migrate_event_seq_ok.
Qed.

Definition demo_entry (id owner : string) (clock : Z) : EventLogEntry := {|
  event_id := id; motebit_id := owner; device_id := None; timestamp := clock; event_type := "goal_created";
  payload := JObject []; version_clock := clock; tombstoned := false |}.

Definition demo_table : list event_row :=
  [row_of_entry (demo_entry "e1" "m" 1) None; row_of_entry (demo_entry "x1" "other" 1) None;
   row_of_entry (demo_entry "e2" "m" 2) None].

(** The top event is deleted and pushed again: it takes a new number. *)
Lemma seq_never_reissued_witness :
  let d := run_relay [RelayPush "m" (demo_entry "e3" "m" 2) false] (migrate_event_seq demo_table) in
  let d' := run_relay [RelayCompact "m" 2; RelayPush "m" (demo_entry "e3" "m" 2) false] d in
  (sq_seq <$> relay_event_seq d) = [1; 1; 2; 3] /\ (sq_seq <$> relay_event_seq d') = [1; 4] /\
  seq_ok d /\ later d d'.
Proof.
  intros d d'. split; [vm_compute; reflexivity|]. split; [vm_compute; reflexivity|].
  apply (seq_never_reissued demo_table [RelayPush "m" (demo_entry "e3" "m" 2) false]
    [RelayCompact "m" 2; RelayPush "m" (demo_entry "e3" "m" 2) false]).
  apply NoDup_ListNoDup. repeat constructor; set_solver.
Defined.

Lemma page_misses_nothing_witness :
  exists body sv, readEventsAfterSeq "m" 0 (Some 1) (run_relay [] (migrate_event_seq demo_table)) = Ok (body, sv) /\
    next_seq body = 1 /\ has_more body = true /\ page_ok "m" 0 (run_relay [] (migrate_event_seq demo_table)) body.
Proof.
  eexists _, _. split; [vm_compute; reflexivity|]. split; [reflexivity|]. split; [reflexivity|].
  eapply (page_misses_nothing demo_table [] "m" 0 (Some 1));
    [apply NoDup_ListNoDup; repeat constructor; set_solver|vm_compute; reflexivity].
Defined.
