(* ===== verification/SeqCursor.v ===== *)
(** * Pulling by the relay's sequence ([packages/sync-engine/src/seq-cursor.ts])

    [pullBySeq]: page by page, dedup, decode, append, then advance the cursor.
    The source, the local store and the cursor store are records of operations
    over one world, each of which may throw; [classifyEventPayload] is an
    argument.  The page loop takes fuel. *)

From S2P Require Import Prelude JsMap JsString Json EventLog.
Local Open Scope Z_scope.
Local Open Scope motebit_scope.

Record SeqPullEntry := {
  seq : Z;
  event : EventLogEntry;
}.

Inductive SeqPullResult :=
| SeqPage (entries : list SeqPullEntry) (nextSeq : Z) (hasMore : bool) (latestSeq : Z)
| ClockPage (events : list EventLogEntry).

Record SkippedSyncEvent := {
  skipped_event_id : string;
  skipped_seq : option Z;
  detail : string;
}.

Inductive pull_mode := ModeSeq | ModeClock.

Record SeqPullOutcome := {
  mode : pull_mode;
  out_fresh : list EventLogEntry;
  out_skipped : list SkippedSyncEvent;
  out_encryptedOnRawPath : Z;
}.

Inductive EventPayloadForm := E2E | Plaintext | Malformed.

Definition MAX_SEQ_PAGES_PER_PULL : Z := 100.
Definition SKIPPED_SYNC_EVENTS_KEPT : nat := Z.to_nat 1000.
Definition RELAY_HELD_KEPT : nat := Z.to_nat 50000.

(** ** The stores *)

Record SeqPullSource (W E : Type) := {
  seqCursorKey : string;
  pullAfterSeq : Z -> Z -> call W E SeqPullResult;
  decodeEvent : option (EventLogEntry -> call W E EventLogEntry);
}.
Arguments seqCursorKey {W E}.
Arguments pullAfterSeq {W E}.
Arguments decodeEvent {W E}.

(** The methods of [EventStoreAdapter] and [HeldEventIdLookup] the pull uses. *)
Record LocalStore (W E : Type) := {
  ls_append : EventLogEntry -> call W E unit;
  ls_query : EventFilter -> call W E (list EventLogEntry);
  getHeldEventIds : option (list string -> call W E (list string));
}.
Arguments ls_append {W E}.
Arguments ls_query {W E}.
Arguments getHeldEventIds {W E}.

Record SyncSeqCursorStore (W E : Type) := {
  getSyncSeqCursor : string -> call W E (option Z);
  setSyncSeqCursor : string -> Z -> call W E unit;
  recordSkippedSyncEvent : option (string -> SkippedSyncEvent -> call W E unit);
}.
Arguments getSyncSeqCursor {W E}.
Arguments setSyncSeqCursor {W E}.
Arguments recordSkippedSyncEvent {W E}.

(** [InMemorySyncSeqCursorStore] *)
Record InMemorySyncSeqCursorStore := {
  cursors : jsmap string Z;
  skipped_rows : list (string * SkippedSyncEvent);
  totals : jsmap string Z;
}.

Definition new_cursor_store : InMemorySyncSeqCursorStore :=
  {| cursors := []; skipped_rows := []; totals := [] |}.

Definition mem_setSyncSeqCursor (key : string) (seq : Z) (st : InMemorySyncSeqCursorStore)
    : InMemorySyncSeqCursorStore :=
  {| cursors := jm_set key seq (cursors st); skipped_rows := skipped_rows st; totals := totals st |}.

Definition mem_listSyncSeqCursorKeys (pre : string) (st : InMemorySyncSeqCursorStore) : list string :=
  List.filter (startsWith pre) (jm_keys (cursors st)).

(** The splices: the first [n] rows of [key] go. *)
Fixpoint prune (key : string) (n : nat) (rows : list (string * SkippedSyncEvent))
    : list (string * SkippedSyncEvent) :=
  match n, rows with
  | O, _ => rows
  | S _, [] => []
  | S n', row :: rows => if bool_decide (row.1 = key) then prune key n' rows else row :: prune key n rows
  end.

Definition mem_recordSkippedSyncEvent (key : string) (skipped : SkippedSyncEvent)
    (st : InMemorySyncSeqCursorStore) : InMemorySyncSeqCursorStore :=
  if existsb (fun s => bool_decide (s.1 = key) &&
                       bool_decide (skipped_event_id s.2 = skipped_event_id skipped)) (skipped_rows st)
  then st else
  let rows := skipped_rows st ++ [(key, skipped)] in
  let mine := filter (fun s => s.1 = key) rows in
  {| cursors := cursors st;
     skipped_rows := prune key (length mine - SKIPPED_SYNC_EVENTS_KEPT) rows;
     totals := jm_set key (default 0 (jm_get key (totals st)) + 1) (totals st) |}.

Definition mem_countSkippedSyncEvents (key : string) (st : InMemorySyncSeqCursorStore) : Z :=
  default 0 (jm_get key (totals st)).

(** ** What the relay was seen to hold *)

(** [relayHeld.get(localStore)]: per relay stream, event id to clock. *)
Abbreviation relay_held := (jsmap string (jsmap string Z)).

Fixpoint relayStreamOfKey_from (fuel : nat) (key : string) : string :=
  match fuel with
  | O => key
  | S fuel => if startsWith "e2e:" key || startsWith "raw:" key
              then relayStreamOfKey_from fuel (slice_from 4 key) else key
  end.
Definition relayStreamOfKey (key : string) : string := relayStreamOfKey_from (String.length key) key.

Definition noteRelayHolds (relayStream : string) (events : list EventLogEntry) (perRelay : relay_held)
    : relay_held :=
  let held := default [] (jm_get relayStream perRelay) in
  let held := foldl (fun h e => jm_set (event_id e) (version_clock e) (jm_delete (event_id e) h)) held events in
  jm_set relayStream (drop (length held - RELAY_HELD_KEPT) held) perRelay.

Definition relayHolds (relayStream eventId : string) (perRelay : relay_held) : bool :=
  match jm_get relayStream perRelay with Some held => jm_has eventId held | None => false end.

(** ** The pull *)

(** The accumulators of [pullBySeq]. *)
Record pull_state := {
  cursor : Z;
  fresh : list EventLogEntry;
  skipped : list SkippedSyncEvent;
  encryptedOnRawPath : Z;
  resetOnce : bool;
}.

Definition set_cursor (c : Z) (st : pull_state) : pull_state := {|
  cursor := c; fresh := fresh st; skipped := skipped st;
  encryptedOnRawPath := encryptedOnRawPath st; resetOnce := resetOnce st |}.
Definition start_over (st : pull_state) : pull_state := {|
  cursor := 0; fresh := fresh st; skipped := skipped st;
  encryptedOnRawPath := encryptedOnRawPath st; resetOnce := true |}.
Definition push_fresh (e : EventLogEntry) (st : pull_state) : pull_state := {|
  cursor := cursor st; fresh := fresh st ++ [e]; skipped := skipped st;
  encryptedOnRawPath := encryptedOnRawPath st; resetOnce := resetOnce st |}.
Definition push_skipped (s : SkippedSyncEvent) (st : pull_state) : pull_state := {|
  cursor := cursor st; fresh := fresh st; skipped := skipped st ++ [s];
  encryptedOnRawPath := encryptedOnRawPath st; resetOnce := resetOnce st |}.
Definition count_encrypted (st : pull_state) : pull_state := {|
  cursor := cursor st; fresh := fresh st; skipped := skipped st;
  encryptedOnRawPath := encryptedOnRawPath st + 1; resetOnce := resetOnce st |}.

Definition outcome (m : pull_mode) (st : pull_state) : SeqPullOutcome := {|
  mode := m; out_fresh := fresh st; out_skipped := skipped st;
  out_encryptedOnRawPath := encryptedOnRawPath st |}.

(** A call on the stores, beside the record of what the relay holds. *)
Definition lift {W E A} (m : call W E A) : call (relay_held * W) E A := fun hw =>
  let '(r, w) := m hw.2 in (r, (hw.1, w)).

Section pull.
Context {W E : Type} (message : E -> string) (classifyEventPayload : json -> EventPayloadForm).
Context (source : SeqPullSource W E) (localStore : LocalStore W E) (cursorStore : SyncSeqCursorStore W E).
Context (motebitId : string) (fallbackAfterClock : Z).
Context (onSkipped : SkippedSyncEvent -> call W E unit) (onPage : list EventLogEntry -> call W E unit).

Definition after_clock_filter (clock : Z) : EventFilter := {|
  f_motebit_id := Some motebitId; f_event_types := None; f_after_timestamp := None;
  f_before_timestamp := None; f_after_version_clock := Some clock; f_limit := None |}.

(** The loop of [filterUnseen], [held] growing as it goes. *)
Fixpoint fresh_of (held : list string) (events : list EventLogEntry) : list EventLogEntry :=
  match events with
  | [] => []
  | e :: events => if js_has (event_id e) held then fresh_of held events
                   else e :: fresh_of (js_add (event_id e) held) events
  end.

Definition filterUnseen (events : list EventLogEntry) : call W E (list EventLogEntry) :=
  match filter (fun e => motebit_id e = motebitId) events with
  | [] => call_ret []
  | (e0 :: rest) as mine =>
      let! held :=
        match getHeldEventIds localStore with
        | Some lookup => lookup (event_id <$> mine)
        | None =>
            let minClock := foldl Z.min (version_clock e0) (version_clock <$> rest) in
            let! local := ls_query localStore (after_clock_filter (minClock - 1)) in
            call_ret (js_set_of (event_id <$> local))
        end in
      call_ret (fresh_of held mine)
  end.

Definition skip (s : SkippedSyncEvent) (st : pull_state) : call W E pull_state :=
  match recordSkippedSyncEvent cursorStore with
  | Some record => record (seqCursorKey source) s
  | None => call_ret tt
  end ;!
  onSkipped s ;!
  call_ret (push_skipped s st).

(** [try { entry = await source.decodeEvent(transport) } catch ...] *)
Definition try_decode (decode : EventLogEntry -> call W E EventLogEntry) (transport : EventLogEntry)
    : call W E (EventLogEntry + string) := fun w =>
  match decode transport w with
  | (Ok entry, w') => (Ok (inl entry), w')
  | (Throw err, w') => (Ok (inr (message err)), w')
  end.

Definition apply_one (seqOf : string -> option Z) (transport : EventLogEntry) (st : pull_state)
    : call W E pull_state :=
  let append_entry entry := ls_append localStore entry ;! call_ret (push_fresh entry st) in
  match decodeEvent source with
  | Some decode =>
      let! decoded := try_decode decode transport in
      match decoded with
      | inl entry => append_entry entry
      | inr why => skip {| skipped_event_id := event_id transport; skipped_seq := seqOf (event_id transport);
                           detail := why |} st
      end
  | None =>
      match classifyEventPayload (payload transport) with
      | Plaintext => append_entry transport
      | _ => call_ret (count_encrypted st)
      end
  end.

(** [apply] *)
Fixpoint apply_events (seqOf : string -> option Z) (unseen : list EventLogEntry) (st : pull_state)
    : call W E pull_state :=
  match unseen with
  | [] => call_ret st
  | transport :: unseen =>
      let! st := apply_one seqOf transport st in
      apply_events seqOf unseen st
  end.

(** [new Map(entries.map(...))] *)
Definition seq_map (entries : list SeqPullEntry) : jsmap string Z :=
  foldl (fun m x => jm_set (event_id (event x)) (seq x) m) [] entries.

(** Advance the cursor, after the page was processed. *)
Definition advance (nextSeq : Z) (st : pull_state) : call W E pull_state :=
  if bool_decide (nextSeq > cursor st) then
    setSyncSeqCursor cursorStore (seqCursorKey source) nextSeq ;! call_ret (set_cursor nextSeq st)
  else if resetOnce st && bool_decide (nextSeq = 0) then
    setSyncSeqCursor cursorStore (seqCursorKey source) 0 ;! call_ret st
  else call_ret st.

(** A page of the sequence: steps 1 to 4. *)
Definition process_page (entries : list SeqPullEntry) (nextSeq : Z) (st : pull_state) : call W E pull_state :=
  let seqs := seq_map entries in
  let! unseen := filterUnseen (event <$> entries) in
  let before := length (fresh st) in
  let! st := apply_events (fun id => jm_get id seqs) unseen st in
  onPage (drop before (fresh st)) ;!
  advance nextSeq st.

Definition process_clock (events : list EventLogEntry) (st : pull_state) : call W E pull_state :=
  let! unseen := filterUnseen events in
  let! st := apply_events (fun _ => None) unseen st in
  onPage (fresh st) ;!
  call_ret st.

Definition note_page (res : SeqPullResult) : call (relay_held * W) E unit := fun hw =>
  let events := match res with ClockPage events => events | SeqPage entries _ _ _ => event <$> entries end in
  (Ok tt, (noteRelayHolds (relayStreamOfKey (seqCursorKey source))
             (filter (fun e => motebit_id e = motebitId) events) hw.1, hw.2)).

(** The [for] loop; each step of fuel is one request. *)
Fixpoint pull_pages (fuel : nat) (maxPages page : Z) (st : pull_state)
    : call (relay_held * W) E (option SeqPullOutcome) :=
  match fuel with
  | O => call_ret None
  | S fuel =>
      if bool_decide (maxPages <= page) then call_ret (Some (outcome ModeSeq st)) else
      let! res := lift (pullAfterSeq source (cursor st) fallbackAfterClock) in
      note_page res ;!
      match res with
      | ClockPage events =>
          let! st := lift (process_clock events st) in
          call_ret (Some (outcome ModeClock st))
      | SeqPage entries nextSeq hasMore latestSeq =>
          if bool_decide (latestSeq < cursor st) && negb (resetOnce st)
          then pull_pages fuel maxPages page (start_over st)
          else
            let! st := lift (process_page entries nextSeq st) in
            if negb hasMore then call_ret (Some (outcome ModeSeq st))
            else pull_pages fuel maxPages (page + 1) st
      end
  end.

Definition initial_pull_state (c : Z) : pull_state := {|
  cursor := c; fresh := []; skipped := []; encryptedOnRawPath := 0; resetOnce := false |}.

(** One request per page, one more for the restart, and the last test. *)
Definition pull_fuel (maxPages : Z) : nat := S (S (Z.to_nat maxPages)).

Definition pullBySeq (maxPages : option Z) : call (relay_held * W) E (option SeqPullOutcome) :=
  let! stored := lift (getSyncSeqCursor cursorStore (seqCursorKey source)) in
  let maxPages := default MAX_SEQ_PAGES_PER_PULL maxPages in
  pull_pages (pull_fuel maxPages) maxPages 0 (initial_pull_state (default 0 stored)).
End pull.

(** ** Termination *)

Section termination.
Context {W E : Type} (message : E -> string) (classify : json -> EventPayloadForm).
Context (source : SeqPullSource W E) (localStore : LocalStore W E) (cursorStore : SyncSeqCursorStore W E).
Context (motebitId : string) (fallback : Z).
Context (onSkipped : SkippedSyncEvent -> call W E unit) (onPage : list EventLogEntry -> call W E unit).
Abbreviation pages := (pull_pages message classify source localStore cursorStore motebitId fallback onSkipped onPage).

(** The requests the loop can still make: the pages left, and the restart. *)
Definition requests_left (maxPages page : Z) (st : pull_state) : nat :=
  Z.to_nat (maxPages - page) + if resetOnce st then 0 else 1.

(** Work on a page leaves the loop's own variables alone. *)
Definition keeps_reset (m : call W E pull_state) (st : pull_state) : Prop :=
  forall w st' w', m w = (Ok st', w') -> resetOnce st' = resetOnce st.

Lemma keeps_reset_bind {A} (m : call W E A) k st :
  (forall a, keeps_reset (k a) st) -> keeps_reset (call_bind m k) st.
Proof. intros Hk w st' w' (a & w1 & _ & H)%call_bind_ok. by apply Hk in H. Qed.

Lemma keeps_reset_ret st st' : resetOnce st' = resetOnce st -> keeps_reset (call_ret st') st.
Proof. intros E1 w st1 w' [= <- _]. done. Qed.

Lemma apply_one_reset seqOf t st :
  keeps_reset (apply_one message classify source localStore cursorStore onSkipped seqOf t st) st.
Proof.
  unfold apply_one, skip. destruct (decodeEvent source).
  - apply keeps_reset_bind. intros [entry|why].
    + apply keeps_reset_bind. intros []. by apply keeps_reset_ret.
    + do 2 (apply keeps_reset_bind; intros []). by apply keeps_reset_ret.
  - destruct (classify _); try by apply keeps_reset_ret.
    apply keeps_reset_bind. intros []. by apply keeps_reset_ret.
Qed.

Lemma apply_events_reset seqOf l st :
  keeps_reset (apply_events message classify source localStore cursorStore onSkipped seqOf l st) st.
Proof.
  revert st. induction l as [|t l IH]; intros st; [by apply keeps_reset_ret|]. cbn.
  intros w st' w' (st1 & w1 & H1 & H2)%call_bind_ok. apply IH in H2. apply apply_one_reset in H1. congruence.
Qed.

Lemma process_page_reset entries next st :
  keeps_reset (process_page message classify source localStore cursorStore motebitId onSkipped onPage
    entries next st) st.
Proof.
  unfold process_page. apply keeps_reset_bind. intros unseen w st' w' (st1 & w1 & H1 & H2)%call_bind_ok.
  apply apply_events_reset in H1. rewrite <- H1. revert H2. apply keeps_reset_bind. intros [].
  unfold advance. repeat case_match; try (by apply keeps_reset_ret);
    apply keeps_reset_bind; intros []; by apply keeps_reset_ret.
Qed.

(** The call does not run out of fuel, and agrees with the one that has more. *)
Definition fuel_enough {A} (m m' : call (relay_held * W) E (option A)) : Prop :=
  forall w, (m w).1 <> Ok None /\ m' w = m w.

Lemma fuel_enough_ret {A} (a : A) : fuel_enough (call_ret (Some a)) (call_ret (Some a)).
Proof. done. Qed.

Lemma fuel_enough_bind {A B} (m : call (relay_held * W) E A) (k k' : A -> call _ E (option B)) :
  (forall a w w', m w = (Ok a, w') -> (k a w').1 <> Ok None /\ k' a w' = k a w') ->
  fuel_enough (call_bind m k) (call_bind m k').
Proof.
  intros Hk w. unfold call_bind. destruct (m w) as [[a|e] w'] eqn:E1; [|done]. by apply (Hk a w w').
Qed.

Lemma pull_pages_fuel fuel extra maxPages page st :
  (requests_left maxPages page st < fuel)%nat ->
  fuel_enough (pages fuel maxPages page st) (pages (fuel + extra) maxPages page st).
Proof.
  revert page st. induction fuel as [|fuel IH]; intros page st Hf; [lia|]. cbn [pull_pages Nat.add].
  case_bool_decide as Hp; [apply fuel_enough_ret|].
  apply fuel_enough_bind. intros res _ hw _. revert hw. apply fuel_enough_bind. intros _ _ hw _. revert hw.
  destruct res as [entries next more latest|events].
  - destruct (_ && _) eqn:Hreset.
    + apply IH. apply andb_true_iff in Hreset as [_ Hr%negb_true_iff]. unfold requests_left in *.
      rewrite Hr in Hf. cbn [start_over resetOnce]. lia.
    + apply fuel_enough_bind. intros st1 hw hw1 Ep. unfold lift in Ep.
      destruct (process_page _ _ _ _ _ _ _ _ entries next st hw.2) as [r w1] eqn:Ep'. injection Ep as -> <-.
      apply process_page_reset in Ep'. destruct more; cbn [negb]; [|apply fuel_enough_ret].
      apply IH. unfold requests_left in *. rewrite Ep'. lia.
  - apply fuel_enough_bind. intros st1 _ hw _. apply fuel_enough_ret.
Qed.

End termination.
