(* ===== verification/SyncDelivery.v ===== *)
(** * Delivery: the relay's sequence and the client's cursor together

    What a pull needs of the stores and of the relay ([PullLaws]), and what it
    then guarantees: it never moves the stored cursor past an event that it has
    neither stored nor recorded, whatever other writers do meanwhile and
    whichever call fails. *)

From S2P Require Import Prelude JsMap JsString Json EventLog Redaction EventSeq SeqCursor.
Local Open Scope Z_scope.
Local Open Scope motebit_scope.

Section laws.
Context {W E : Type} (source : SeqPullSource W E) (localStore : LocalStore W E).
Context (cursorStore : SyncSeqCursorStore W E) (motebitId : string).
Context (onSkipped : SkippedSyncEvent -> call W E unit) (onPage : list EventLogEntry -> call W E unit).

(** What the laws speak of: the relay's tables, the ids the local store has ever
    held, the ids recorded as skipped, the stored cursor, and an invariant. *)
Class SyncWorld := {
  relay : W -> sync_db;
  held : W -> string -> Prop;
  noted : W -> string -> Prop;
  stored_cursor : W -> Z;
  world_ok : W -> Prop;
  world_ok_seq : forall w, world_ok w -> seq_ok (relay w);
}.
Context {SW : SyncWorld}.

(** What any call may do to the world while others write to the relay. *)
Record step (w w' : W) : Prop := {
  step_ok : world_ok w -> world_ok w';
  step_relay : later (relay w) (relay w');
  step_held : forall id, held w id -> held w' id;
  step_noted : forall id, noted w id -> noted w' id;
}.

#[export] Instance step_preorder : PreOrder step.
Proof.
  split; [intros w; split; done|]. intros w1 w2 w3 [A1 A2 A3 A4] [B1 B2 B3 B4]. split; auto.
  by transitivity (relay w2).
Qed.

Abbreviation any := (fun _ : W => True).

(** A call that leaves the cursor: from a world with [P], whatever the result, and
    with [Q] of its value when it returns. *)
Definition spec {A} (P : W -> Prop) (m : call W E A) (Q : A -> W -> Prop) : Prop := forall w r w',
  world_ok w -> P w -> m w = (r, w') ->
  step w w' /\ stored_cursor w' = stored_cursor w /\ forall a, r = Ok a -> Q a w'.

(** The page is the relay's answer, at the time of the answer. *)
Definition answers (c : Z) (res : SeqPullResult) (w : W) : Prop := exists limit body sv,
  readEventsAfterSeq motebitId c limit (relay w) = Ok (body, sv) /\
  res = SeqPage ((fun e => {| seq := se_seq e; event := se_event e |}) <$> body_events body)
          (next_seq body) (has_more body) (latest_seq body).

Record PullLaws := {
  law_get : forall w r w', world_ok w -> getSyncSeqCursor cursorStore (seqCursorKey source) w = (r, w') ->
    step w w' /\ stored_cursor w' = stored_cursor w /\
    forall o, r = Ok o -> default 0 o = stored_cursor w;
  law_set : forall c w r w', world_ok w -> setSyncSeqCursor cursorStore (seqCursorKey source) c w = (r, w') ->
    step w w' /\ (stored_cursor w' = c \/ stored_cursor w' = stored_cursor w) /\
    (r = Ok tt -> stored_cursor w' = c);
  law_record : exists record, recordSkippedSyncEvent cursorStore = Some record /\
    forall s, spec any (record (seqCursorKey source) s) (fun _ w' => noted w' (skipped_event_id s));
  law_append : forall e, spec any (ls_append localStore e) (fun _ w' => held w' (event_id e));
  law_query : forall flt, spec any (ls_query localStore flt) (fun l w' => forall e, e ∈ l -> held w' (event_id e));
  law_lookup : forall lookup, getHeldEventIds localStore = Some lookup ->
    forall ids, spec any (lookup ids) (fun l w' => forall id, id ∈ l -> held w' id);
  law_decode : exists decode, decodeEvent source = Some decode /\
    forall e, spec any (decode e) (fun e' _ => event_id e' = event_id e);
  law_pull : forall c fallback, spec any (pullAfterSeq source c fallback) (answers c);
  law_skipped : forall s, spec any (onSkipped s) (fun _ _ => True);
  law_page : forall es, spec any (onPage es) (fun _ _ => True);
}.

(** An event the device need not see again. *)
Definition passed (w : W) (id : string) : Prop := held w id \/ noted w id.

(** Everything of the relay's stream up to [c] was passed. *)
Record caught_up (c : Z) (w : W) : Prop := {
  cu_ok : world_ok w;
  cu_bound : 0 <= c <= last_seq motebitId (relay w);
  cu_passed : forall s, s ∈ relay_event_seq (relay w) -> sq_motebit_id s = motebitId ->
    sq_seq s <= c -> passed w (sq_event_id s);
}.

Definition sync_inv (w : W) : Prop := caught_up (stored_cursor w) w.

Lemma passed_step w w' id : step w w' -> passed w id -> passed w' id.
Proof. intros [_ _ H1 H2] [H|H]; [left|right]; auto. Qed.

(** A number at or below the cursor still means the event it meant. *)
Lemma caught_up_step c w w' : step w w' -> caught_up c w -> caught_up c w'.
Proof.
  intros Hs [H1 H2 H3]. destruct (step_relay _ _ Hs motebitId) as [Hl He]. split.
  - by apply (step_ok _ _ Hs).
  - lia.
  - intros s Hin Hm Hc. eapply passed_step; [done|]. apply H3; [|done|done]. apply He; [done|done|lia].
Qed.

Lemma caught_up_zero w : world_ok w -> caught_up 0 w.
Proof.
  intros Hw. pose proof (world_ok_seq w Hw) as Hok. split; [done| |].
  - split; [done|]. apply (so_counter _ Hok).
  - intros s Hs Hm Hle. pose proof (so_bound _ Hok s Hs). lia.
Qed.

(** ** Rules *)

Lemma spec_ret {A} P (a : A) (Q : A -> W -> Prop) : (forall w, P w -> Q a w) -> spec P (call_ret a) Q.
Proof. intros H w r w' Hw Hp [= <- <-]. split_and!; [done|done|]. intros a' [= <-]. auto. Qed.

Lemma spec_bind {A B} P (m : call W E A) (k : A -> call W E B) Q R :
  spec P m Q -> (forall a, spec (Q a) (k a) R) -> spec P (call_bind m k) R.
Proof.
  intros Hm Hk w r w' Hw Hp. unfold call_bind. destruct (m w) as [[a|e] w1] eqn:E1.
  - destruct (Hm w _ w1 Hw Hp E1) as (Hs1 & Hc1 & HQ). intros E2.
    destruct (Hk a w1 r w' (step_ok _ _ Hs1 Hw) (HQ a eq_refl) E2) as (Hs2 & Hc2 & HR).
    split_and!; [by transitivity w1|congruence|done].
  - intros [= <- <-]. destruct (Hm w _ w1 Hw Hp E1) as (Hs1 & Hc1 & _). done.
Qed.

(** What survives any step holds after the call, too. *)
Lemma spec_frame {A} (F : W -> Prop) (m : call W E A) Q :
  (forall w w', step w w' -> F w -> F w') -> spec any m Q -> spec F m (fun a w => Q a w /\ F w).
Proof.
  intros HF Hm w r w' Hw Hf E1. destruct (Hm w r w' Hw I E1) as (Hs & Hc & HQ).
  split_and!; [done|done|]. intros a Ha. split; [by apply HQ|by eapply HF].
Qed.

Lemma spec_post {A} P (m : call W E A) (Q Q' : A -> W -> Prop) :
  (forall a w, Q' a w -> Q a w) -> spec P m Q' -> spec P m Q.
Proof. intros HQ Hm w r w' Hw Hp E1. destruct (Hm w r w' Hw Hp E1) as (? & ? & H). eauto 10. Qed.

Lemma spec_pre {A} (P P' : W -> Prop) (m : call W E A) Q :
  (forall w, P w -> P' w) -> spec P' m Q -> spec P m Q.
Proof. intros HP Hm w r w' Hw Hp. by apply Hm; [|apply HP]. Qed.

(** ** The steps of a page *)

Context (message : E -> string) (classify : json -> EventPayloadForm) (laws : PullLaws).
Lemma fresh_of_covers hd es e :
  e ∈ es -> event_id e ∈ hd \/ event_id e ∈ event_id <$> fresh_of hd es.
Proof.
  revert hd. induction es as [|e' es IH]; intros hd He; [set_solver|]. cbn.
  apply elem_of_cons in He as [->|He]; case_match eqn:Hh; unfold js_has in Hh.
  - left. by apply bool_decide_eq_true in Hh.
  - right. rewrite fmap_cons. by left.
  - by apply IH.
  - destruct (IH (js_add (event_id e') hd) He) as [H|H].
    + apply js_add_elem in H as [->|H]; [right; rewrite fmap_cons; by left|by left].
    + right. rewrite fmap_cons. by right.
Qed.

(** The post-condition of the dedup: what is dropped is held. *)
Definition dedup_post (es l : list EventLogEntry) (w : W) : Prop := forall e,
  e ∈ es -> motebit_id e = motebitId -> held w (event_id e) \/ event_id e ∈ event_id <$> l.

Lemma filterUnseen_spec es : spec any (filterUnseen localStore motebitId es) (dedup_post es).
Proof.
  unfold filterUnseen. destruct (filter _ es) as [|e0 rest] eqn:Em.
  { apply spec_ret. intros w _ e He Hm. exfalso.
    assert (e ∈ filter (fun e => motebit_id e = motebitId) es) as H by (by apply list_elem_of_filter).
    rewrite Em in H. set_solver. }
  apply (spec_bind _ _ _ (fun hd w => forall id, id ∈ hd -> held w id)).
  - destruct (getHeldEventIds localStore) as [lookup|] eqn:El; [by apply (law_lookup laws)|].
    eapply spec_bind; [apply (law_query laws)|]. intros l. apply spec_ret. intros w Hl id Hid.
    apply js_set_of_elem, list_elem_of_fmap in Hid as (e & -> & He). auto.
  - intros hd. apply spec_ret. intros w Hh e He Hm.
    assert (e ∈ e0 :: rest) as Hin by (rewrite <- Em; by apply list_elem_of_filter).
    destruct (fresh_of_covers hd _ _ Hin) as [H|H]; [left; auto|by right].
Qed.

Lemma apply_one_spec seqOf t st :
  spec any (apply_one message classify source localStore cursorStore onSkipped seqOf t st)
    (fun st' w => passed w (event_id t) /\ cursor st' = cursor st).
Proof.
  unfold apply_one. destruct (law_decode laws) as (decode & -> & Hd).
  apply (spec_bind _ _ _ (fun d w => match d with inl e => event_id e = event_id t | inr _ => True end)).
  { intros w r w' Hw _. unfold try_decode. destruct (decode t w) as [r1 w1] eqn:E1.
    destruct (Hd t w r1 w1 Hw I E1) as (Hs1 & Hc1 & HQ).
    destruct r1 as [e|e]; intros [= <- <-]; (split_and!; [done|done|]); intros a [= <-]; [|done].
    by apply HQ. }
  intros [entry|why].
  - intros w r w' Hw Hid.
    assert (spec any (ls_append localStore entry ;! call_ret (push_fresh entry st))
      (fun st' w => passed w (event_id entry) /\ cursor st' = cursor st)) as Hs.
    { eapply spec_bind; [apply (law_append laws)|]. intros u. apply spec_ret.
      intros w1 Hw1. split; [by left|done]. }
    rewrite <- Hid. by apply Hs.
  - unfold skip. destruct (law_record laws) as (record & -> & Hr).
    eapply spec_bind; [apply Hr|]. intros u. cbv beta.
    eapply (spec_bind _ _ _ (fun _ w => noted w (event_id t))).
    + eapply spec_post; [|apply spec_frame; [intros w w' Hs; apply (step_noted _ _ Hs)|apply (law_skipped laws)]].
      by intros _ w [_ H].
    + intros _. apply spec_ret. intros w H. split; [by right|done].
Qed.

Lemma apply_events_spec seqOf l st :
  spec any (apply_events message classify source localStore cursorStore onSkipped seqOf l st)
    (fun st' w => (forall t, t ∈ l -> passed w (event_id t)) /\ cursor st' = cursor st).
Proof.
  revert st. induction l as [|t l IH]; intros st; cbn [apply_events].
  { apply spec_ret. intros w _. split; [set_solver|done]. }
  eapply spec_bind; [apply apply_one_spec|]. intros st1. cbv beta.
  eapply spec_post; [|apply spec_frame; [|apply IH]].
  - intros st2 w [[H1 H2] [H3 H4]]. split; [|congruence]. intros t' [->|H]%elem_of_cons; auto.
  - intros w w' Hs [H1 H2]. split; [by eapply passed_step|done].
Qed.

(** The page [entries] holds every event of the stream from [c] to [next]. *)
Record gap (c next : Z) (entries : list SeqPullEntry) (w : W) : Prop := {
  gap_forward : c <= next;
  gap_bound : next = c \/ next <= last_seq motebitId (relay w);
  gap_all : forall s, s ∈ relay_event_seq (relay w) -> sq_motebit_id s = motebitId ->
    c < sq_seq s <= next -> exists e, e ∈ event <$> entries /\ event_id e = sq_event_id s /\
                                      motebit_id e = motebitId;
}.

Lemma gap_step c next entries w w' : step w w' -> gap c next entries w -> gap c next entries w'.
Proof.
  intros Hs [H1 H2 H3]. destruct (step_relay _ _ Hs motebitId) as [Hl He]. split; [done|lia|].
  intros s Hin Hm Hc. apply H3; [|done|done]. apply He; [done|done|lia].
Qed.

Lemma answers_gap c res w :
  seq_ok (relay w) -> answers c res w ->
  exists entries next more latest, res = SeqPage entries next more latest /\ gap c next entries w /\
    latest = last_seq motebitId (relay w) /\ (more = true -> c < next) /\
    (more = false -> forall s, s ∈ relay_event_seq (relay w) -> sq_motebit_id s = motebitId ->
       sq_seq s <= next).
Proof.
  intros Hok (limit & body & sv & Hr & ->). apply readEventsAfterSeq_page in Hr as [P1 P2 P3 P4 _ P6 P7]; [|done].
  do 4 eexists. split; [done|]. split_and!; [split; [done|done|]|done|done|].
  - intros s Hs Hm Hc. destruct (P4 s Hs Hm Hc) as (e & He & _ & Hid & Hmid). exists (se_event e).
    split_and!; [|done|congruence]. rewrite <- list_fmap_compose. apply list_elem_of_fmap. by exists e.
  - intros Hm s Hs Hmid. specialize (P6 Hm s Hs Hmid). lia.
Qed.

(** [process_page] up to the move of the cursor. *)
Definition prepare_page (entries : list SeqPullEntry) (st : pull_state) : call W E pull_state :=
  let! unseen := filterUnseen localStore motebitId (event <$> entries) in
  let! st' := apply_events message classify source localStore cursorStore onSkipped
                (fun id => jm_get id (seq_map entries)) unseen st in
  onPage (drop (length (fresh st)) (fresh st')) ;! call_ret st'.

Lemma process_page_eq entries next st w :
  process_page message classify source localStore cursorStore motebitId onSkipped onPage entries next st w
  = call_bind (prepare_page entries st) (advance source cursorStore next) w.
Proof.
  unfold process_page, prepare_page, call_bind. destruct (filterUnseen _ _ _ w) as [[unseen|e] w1]; [|done].
  destruct (apply_events _ _ _ _ _ _ _ unseen st w1) as [[st1|e] w2]; [|done].
  by destruct (onPage _ w2) as [[u|e] w3].
Qed.

(** After it, the whole page was passed. *)
Lemma prepare_page_spec entries next st :
  spec (fun w => caught_up (cursor st) w /\ gap (cursor st) next entries w) (prepare_page entries st)
    (fun st' w => cursor st' = cursor st /\ caught_up (cursor st) w /\ caught_up next w).
Proof.
  unfold prepare_page.
  set (F := fun w => caught_up (cursor st) w /\ gap (cursor st) next entries w).
  assert (forall w w', step w w' -> F w -> F w') as HF.
  { intros w w' Hs [H1 H2]. split; [by eapply caught_up_step|by eapply gap_step]. }
  eapply spec_bind; [apply (spec_frame F _ _ HF (filterUnseen_spec (event <$> entries)))|].
  intros unseen. cbv beta.
  set (F2 := fun w => dedup_post (event <$> entries) unseen w /\ F w).
  assert (forall w w', step w w' -> F2 w -> F2 w') as HF2.
  { intros w w' Hs [H1 H2]. split; [|by eapply HF]. intros e He Hm.
    destruct (H1 e He Hm) as [H|H]; [left; by apply (step_held _ _ Hs)|by right]. }
  eapply spec_bind; [apply (spec_frame F2 _ _ HF2 (apply_events_spec _ unseen st))|].
  intros st1. cbv beta.
  set (F3 := fun w => cursor st1 = cursor st /\ caught_up (cursor st) w /\ caught_up next w).
  eapply (spec_bind _ _ _ (fun _ w => F3 w)); [|intros u; by apply spec_ret].
  eapply spec_pre; [|eapply spec_post; [|apply (spec_frame F3); [|apply (law_page laws)]]].
  - intros w [[Hap Hc] [Hd [Hcu [G1 G2 G3]]]]. split_and!; [done|done|]. split.
    + apply Hcu.
    + destruct Hcu as [_ Hb _]. lia.
    + intros s Hs Hm Hle. destruct (decide (sq_seq s <= cursor st)); [by apply Hcu|].
      destruct (G3 s Hs Hm) as (e & He & <- & Hme); [lia|].
      destruct (Hd e He Hme) as [H|H]; [by left|]. apply list_elem_of_fmap in H as (t & -> & Ht). auto.
  - by intros u w [_ H].
  - intros w w' Hs (H1 & H2 & H3). split_and!; [done|by eapply caught_up_step|by eapply caught_up_step].
Qed.

(** The move itself. *)
Lemma advance_spec next st w r w' :
  sync_inv w -> caught_up (cursor st) w -> caught_up next w ->
  advance source cursorStore next st w = (r, w') ->
  sync_inv w' /\ step w w' /\ forall st', r = Ok st' -> caught_up (cursor st') w'.
Proof.
  intros Hi Hc Hn.
  assert (forall c st' r' w1, caught_up c w -> caught_up (cursor st') w ->
    call_bind (setSyncSeqCursor cursorStore (seqCursorKey source) c) (fun _ => call_ret st') w = (r', w1) ->
    sync_inv w1 /\ step w w1 /\ forall st2, r' = Ok st2 -> caught_up (cursor st2) w1) as Hset.
  { intros c st' r' w1 Hcc Hcs. unfold call_bind.
    destruct (setSyncSeqCursor _ _ c w) as [r0 w2] eqn:E1.
    destruct (law_set laws c w r0 w2 (cu_ok _ _ Hi) E1) as (Hs & Hst & _).
    pose proof (caught_up_step _ _ _ Hs Hcc) as Hcc'. pose proof (caught_up_step _ _ _ Hs Hcs) as Hcs'.
    assert (sync_inv w2) as Hi2.
    { unfold sync_inv. destruct Hst as [->| ->]; [done|]. by apply (caught_up_step _ w w2). }
    destruct r0; intros [= <- <-]; (split_and!; [done|done|]); [by intros st2 [= <-]|done]. }
  unfold advance. case_bool_decide; [by apply Hset|]. destruct (_ && _).
  - apply Hset; [by apply caught_up_zero, (cu_ok _ _ Hc)|done].
  - intros [= <- <-]. split_and!; [done|done|]. by intros st' [= <-].
Qed.

Abbreviation pages := (pull_pages message classify source localStore cursorStore motebitId).

Lemma lift_run {A} (m : call W E A) hw r hw' : lift m hw = (r, hw') -> m hw.2 = (r, hw'.2).
Proof. unfold lift. destruct (m hw.2) as [r1 w1] eqn:E1. by intros [= <- <-]. Qed.

(** Every round of the loop keeps the invariant. *)
Lemma pull_pages_safe fallback fuel maxPages page st hw r hw' :
  sync_inv hw.2 -> caught_up (cursor st) hw.2 ->
  pages fallback onSkipped onPage fuel maxPages page st hw = (r, hw') ->
  sync_inv hw'.2 /\ step hw.2 hw'.2.
Proof.
  revert page st hw r hw'. induction fuel as [|fuel IH]; intros page st hw r hw' Hi Hc; cbn [pull_pages].
  { by intros [= <- <-]. }
  case_bool_decide; [by intros [= <- <-]|]. unfold call_bind at 1.
  destruct (lift _ hw) as [[res|e] hw1] eqn:E1; apply lift_run in E1;
    destruct (law_pull laws _ _ _ _ _ (cu_ok _ _ Hi) I E1) as (Hs1 & Hc1 & Ha);
    (assert (sync_inv hw1.2) as Hi1 by (unfold sync_inv; rewrite Hc1; by eapply caught_up_step)).
  2: by intros [= <- <-].
  specialize (Ha res eq_refl). pose proof (caught_up_step _ _ _ Hs1 Hc) as Hcu1.
  unfold call_bind at 1, note_page. set (hw2 := (noteRelayHolds _ _ _, hw1.2)).
  assert (hw1.2 = hw2.2) as Ew by done. rewrite Ew in *. clearbody hw2. clear Ew E1.
  destruct (answers_gap _ _ _ (world_ok_seq _ (cu_ok _ _ Hi1)) Ha) as (entries & next & more & latest & -> & Hg & _).
  destruct (_ && _).
  { assert (caught_up (cursor (start_over st)) hw2.2) as Hz by apply caught_up_zero, (cu_ok _ _ Hi1).
    intros Hrun. destruct (IH _ _ _ _ _ Hi1 Hz Hrun) as [Hi' Hs'].
    split; [done|by transitivity hw2.2]. }
  unfold call_bind at 1. destruct (lift _ hw2) as [rp hw3] eqn:E2. apply lift_run in E2.
  rewrite process_page_eq in E2. unfold call_bind in E2.
  destruct (prepare_page entries st hw2.2) as [rq w3] eqn:E3.
  destruct (prepare_page_spec entries next st _ _ _ (cu_ok _ _ Hi1) (conj Hcu1 Hg) E3) as (Hs3 & Hc3 & HQ).
  assert (sync_inv w3) as Hi3 by (unfold sync_inv; rewrite Hc3; by eapply caught_up_step).
  destruct rq as [st1|e]; [|injection E2 as <- Ew; intros [= <- <-]; rewrite <- Ew; split; [done|by transitivity hw2.2]].
  destruct (HQ st1 eq_refl) as (Hcs & Hcu & Hcn). rewrite <- Hcs in Hcu.
  destruct (advance_spec next st1 w3 rp hw3.2 Hi3 Hcu Hcn E2) as (Hi4 & Hs4 & HQ4).
  assert (step hw.2 hw3.2) as Hs by (transitivity hw2.2; [done|by transitivity w3]).
  destruct rp as [st2|e]; [|by intros [= <- <-]]. destruct more; cbn [negb]; [|by intros [= <- <-]].
  intros Hrun. destruct (IH _ _ _ _ _ Hi4 (HQ4 st2 eq_refl) Hrun) as [Hi' Hs']. split; [done|by transitivity hw3.2].
Qed.

Lemma pullBySeq_safe fallback maxPages hw r hw' :
  sync_inv hw.2 ->
  pullBySeq message classify source localStore cursorStore motebitId fallback onSkipped onPage maxPages hw = (r, hw') ->
  sync_inv hw'.2 /\ step hw.2 hw'.2.
Proof.
  intros Hi. unfold pullBySeq, call_bind. destruct (lift _ hw) as [r0 hw1] eqn:E1. apply lift_run in E1.
  destruct (law_get laws _ _ _ (cu_ok _ _ Hi) E1) as (Hs & Hc & Ho).
  assert (sync_inv hw1.2) as Hi1 by (unfold sync_inv; rewrite Hc; by eapply caught_up_step).
  destruct r0 as [o|e]; [|by intros [= <- <-]]. intros Hrun.
  assert (caught_up (cursor (initial_pull_state (default 0 o))) hw1.2) as Hcu
    by (cbn; rewrite (Ho o eq_refl), <- Hc; exact Hi1).
  destruct (pull_pages_safe _ _ _ _ _ _ _ _ Hi1 Hcu Hrun) as [Hi' Hs']. split; [done|by transitivity hw1.2].
Qed.

(** ** A quiet pull completes

    No other writer, no fault (a failed decryption apart): the pull reaches the
    end of the stream. *)

Context (quiet : W -> Prop).

Definition settles {A} (m : call W E A) : Prop := forall w, world_ok w -> quiet w ->
  exists a w', m w = (Ok a, w') /\ world_ok w' /\ quiet w' /\ relay w' = relay w.

Record QuietLaws := {
  quiet_get : settles (getSyncSeqCursor cursorStore (seqCursorKey source));
  quiet_set : forall c, settles (setSyncSeqCursor cursorStore (seqCursorKey source) c);
  quiet_record : forall record, recordSkippedSyncEvent cursorStore = Some record ->
    forall key s, settles (record key s);
  quiet_append : forall e, settles (ls_append localStore e);
  quiet_query : forall flt, settles (ls_query localStore flt);
  quiet_lookup : forall lookup, getHeldEventIds localStore = Some lookup -> forall ids, settles (lookup ids);
  quiet_decode : forall decode, decodeEvent source = Some decode -> forall e, settles (try_decode message decode e);
  quiet_pull : forall c fallback, settles (pullAfterSeq source c fallback);
  quiet_skipped : forall s, settles (onSkipped s);
  quiet_page : forall es, settles (onPage es);
}.

Lemma settles_ret {A} (a : A) : settles (call_ret a).
Proof. intros w Hw Hq. by exists a, w. Qed.

Lemma settles_bind {A B} (m : call W E A) (k : A -> call W E B) :
  settles m -> (forall a, settles (k a)) -> settles (call_bind m k).
Proof.
  intros Hm Hk w Hw Hq. destruct (Hm w Hw Hq) as (a & w1 & E1 & Hw1 & Hq1 & Er1).
  destruct (Hk a w1 Hw1 Hq1) as (b & w2 & E2 & Hw2 & Hq2 & Er2). exists b, w2.
  unfold call_bind. rewrite E1. split_and!; [done|done|done|congruence].
Qed.

Create HintDb settles.
#[local] Hint Resolve settles_ret quiet_append quiet_query quiet_skipped quiet_page quiet_set : settles.

Lemma prepare_page_settles (q : QuietLaws) entries st : settles (prepare_page entries st).
Proof.
  unfold prepare_page, filterUnseen. apply settles_bind.
  - destruct (filter _ _) as [|e0 rest]; [apply settles_ret|]. apply settles_bind; [|auto with settles].
    destruct (getHeldEventIds localStore) as [lookup|] eqn:El; [by apply (quiet_lookup q)|].
    apply settles_bind; auto with settles.
  - intros unseen. apply settles_bind.
    + generalize st. induction unseen as [|t l IH]; intros st0; cbn [apply_events]; [apply settles_ret|].
      apply settles_bind; [|intros st1; apply IH]. unfold apply_one, skip.
      destruct (law_decode laws) as (decode & Ed & _). rewrite Ed.
      apply settles_bind; [by apply (quiet_decode q)|]. intros [entry|why].
      * apply settles_bind; auto with settles.
      * destruct (recordSkippedSyncEvent cursorStore) as [record|] eqn:Er.
        -- apply settles_bind; [by apply (quiet_record q)|]. intros u. apply settles_bind; auto with settles.
        -- apply settles_bind; [auto with settles|]. intros u. apply settles_bind; auto with settles.
    + intros st1. apply settles_bind; auto with settles.
Qed.

(** The stored cursor is the loop's, until a restart has processed a page. *)
Definition cursor_saved (st : pull_state) (w : W) : Prop :=
  stored_cursor w = cursor st \/ (resetOnce st = true /\ cursor st = 0).

Lemma advance_settles (q : QuietLaws) next st w :
  world_ok w -> quiet w -> cursor_saved st w -> 0 <= cursor st <= next ->
  exists w', advance source cursorStore next st w = (Ok (set_cursor next st), w') /\
    world_ok w' /\ quiet w' /\ relay w' = relay w /\ step w w' /\ stored_cursor w' = next.
Proof.
  intros Hw Hq Hj Hle.
  assert (forall c, exists w', setSyncSeqCursor cursorStore (seqCursorKey source) c w = (Ok tt, w') /\
    world_ok w' /\ quiet w' /\ relay w' = relay w /\ step w w' /\ stored_cursor w' = c) as Hset.
  { intros c. destruct (quiet_set q c w Hw Hq) as ([] & w' & E1 & ? & ? & ?). exists w'.
    destruct (law_set laws c w _ w' Hw E1) as (Hs & _ & Hc). split_and!; try done. by apply Hc. }
  unfold advance. case_bool_decide as Hn.
  { destruct (Hset next) as (w' & E1 & H). exists w'. unfold call_bind. rewrite E1. done. }
  assert (next = cursor st) as -> by lia. assert (set_cursor (cursor st) st = st) as -> by (by destruct st).
  destruct (resetOnce st && _) eqn:Eb.
  - apply andb_true_iff in Eb as [_ E0%bool_decide_eq_true]. rewrite E0.
    destruct (Hset 0) as (w' & E1 & H). exists w'. unfold call_bind. rewrite E1. done.
  - exists w. split_and!; try done. destruct Hj as [Hj|[Hr H0]]; [done|].
    rewrite Hr, bool_decide_eq_true_2 in Eb by done. done.
Qed.

Lemma prepare_page_reset entries st : keeps_reset (prepare_page entries st) st.
Proof.
  unfold prepare_page. apply keeps_reset_bind. intros unseen w st' w' (st1 & w1 & H1 & H2)%call_bind_ok.
  apply apply_events_reset in H1. rewrite <- H1. revert H2. apply keeps_reset_bind. intros []. by apply keeps_reset_ret.
Qed.

Lemma pull_pages_completes (q : QuietLaws) fallback fuel maxPages page st hw :
  world_ok hw.2 -> quiet hw.2 -> caught_up (cursor st) hw.2 -> cursor_saved st hw.2 ->
  0 <= page <= cursor st -> last_seq motebitId (relay hw.2) < maxPages ->
  (requests_left maxPages page st < fuel)%nat ->
  exists st' hw', pages fallback onSkipped onPage fuel maxPages page st hw = (Ok (Some (outcome ModeSeq st')), hw') /\
    relay hw'.2 = relay hw.2 /\ sync_inv hw'.2 /\
    forall s, s ∈ relay_event_seq (relay hw'.2) -> sq_motebit_id s = motebitId ->
      sq_seq s <= stored_cursor hw'.2.
Proof.
  revert page st hw. induction fuel as [|fuel IH]; intros page st hw Hw Hq Hc Hj Hp Hm Hf; [lia|].
  pose proof (cu_bound _ _ Hc) as Hb. cbn [pull_pages]. rewrite bool_decide_eq_false_2 by lia.
  destruct (quiet_pull q (cursor st) fallback _ Hw Hq) as (res & w1 & E1 & Hw1 & Hq1 & Er1).
  destruct (law_pull laws _ _ _ _ _ Hw I E1) as (Hs1 & Hst1 & Ha). specialize (Ha res eq_refl).
  pose proof (caught_up_step _ _ _ Hs1 Hc) as Hc1.
  destruct (answers_gap _ _ _ (world_ok_seq _ Hw1) Ha) as (entries & next & more & latest & -> & Hg & Hl & Hmore & Hdone).
  unfold call_bind at 1, lift at 1. rewrite E1. unfold call_bind at 1, note_page. cbn [fst snd].
  rewrite bool_decide_eq_false_2 by (rewrite Hl, Er1; lia). cbn [andb].
  set (h2 := noteRelayHolds _ _ _). clearbody h2.
  unfold call_bind at 1, lift at 1. cbn [fst snd]. rewrite process_page_eq. unfold call_bind at 1.
  destruct (prepare_page_settles q entries st w1 Hw1 Hq1) as (st1 & w2 & E2 & Hw2 & Hq2 & Er2). rewrite E2.
  destruct (prepare_page_spec entries next st _ _ _ Hw1 (conj Hc1 Hg) E2) as (Hs2 & Hst2 & HQ).
  destruct (HQ st1 eq_refl) as (Hcs & _ & Hcn).
  pose proof (prepare_page_reset entries st w1 st1 w2 E2) as Hr1. destruct Hg as [Hgf _ _].
  destruct (advance_settles q next st1 w2 Hw2 Hq2) as (w3 & E3 & Hw3 & Hq3 & Er3 & Hs3 & Hst3).
  { destruct Hj as [Hj|[Hr0 H0]]; [left; congruence|right; split; congruence]. }
  { rewrite Hcs. lia. }
  pose proof (caught_up_step _ _ _ Hs3 Hcn) as Hcn3. rewrite E3.
  assert (relay w3 = relay hw.2) as Er by congruence. assert (relay w3 = relay w1) as Er' by congruence.
  destruct more; cbn [negb].
  - destruct (IH (page + 1) (set_cursor next st1) (h2, w3)) as (st' & hw' & Hrun & Hr' & Hi' & Hall); cbn [fst snd set_cursor cursor];
      [done|done|done|by left|specialize (Hmore eq_refl); lia|by rewrite Er|
       unfold requests_left in *; cbn [resetOnce set_cursor]; rewrite Hr1; lia|].
    exists st', hw'. split; [exact Hrun|]. split; [|done]. cbn in Hr'. congruence.
  - exists (set_cursor next st1), (h2, w3). split; [done|]. cbn [fst snd]. split_and!; [done| |].
    + unfold sync_inv. by rewrite Hst3.
    + intros s Hs Hmid. rewrite Hst3. apply (Hdone eq_refl); [by rewrite <- Er'|done].
Qed.

(** Also from a cursor that is ahead of the relay's sequence: the pull starts over. *)
Lemma pullBySeq_completes (q : QuietLaws) fallback maxPages hw :
  world_ok hw.2 -> quiet hw.2 ->
  sync_inv hw.2 \/ last_seq motebitId (relay hw.2) < stored_cursor hw.2 ->
  last_seq motebitId (relay hw.2) < maxPages ->
  exists st' hw', pullBySeq message classify source localStore cursorStore motebitId fallback onSkipped onPage
    (Some maxPages) hw = (Ok (Some (outcome ModeSeq st')), hw') /\
    relay hw'.2 = relay hw.2 /\ sync_inv hw'.2 /\
    forall s, s ∈ relay_event_seq (relay hw'.2) -> sq_motebit_id s = motebitId ->
      sq_seq s <= stored_cursor hw'.2.
Proof.
  intros Hw Hq Hi Hm. unfold pullBySeq, call_bind, lift.
  destruct (quiet_get q _ Hw Hq) as (o & w1 & E1 & Hw1 & Hq1 & Er1). rewrite E1.
  destruct (law_get laws _ _ _ Hw E1) as (Hs1 & Hst1 & Ho). specialize (Ho o eq_refl).
  cbn [from_option id]. rewrite Ho.
  destruct (decide (last_seq motebitId (relay hw.2) < stored_cursor hw.2)) as [Hlt|Hge].
  - pose proof (so_counter _ (world_ok_seq _ Hw) motebitId) as Hpos.
    unfold pull_fuel. remember (S (Z.to_nat maxPages)) as n eqn:En. cbn [pull_pages].
    rewrite bool_decide_eq_false_2 by lia.
    destruct (quiet_pull q (stored_cursor hw.2) fallback w1 Hw1 Hq1) as (res & w2 & E2 & Hw2 & Hq2 & Er2).
    destruct (law_pull laws _ _ _ _ _ Hw1 I E2) as (_ & _ & Ha). specialize (Ha res eq_refl).
    destruct (answers_gap _ _ _ (world_ok_seq _ Hw2) Ha) as (entries & next & more & latest & -> & _ & Hl & _).
    unfold call_bind at 1, lift at 1. cbn [initial_pull_state cursor fst snd]. rewrite E2.
    unfold call_bind at 1, note_page. cbn [fst snd].
    rewrite bool_decide_eq_true_2 by (rewrite Hl, Er2, Er1; lia). cbn [negb resetOnce initial_pull_state andb].
    assert (relay w2 = relay hw.2) as Er by congruence. set (h2 := noteRelayHolds _ _ _). clearbody h2.
    edestruct (pull_pages_completes q fallback n maxPages 0
      (start_over (initial_pull_state (stored_cursor hw.2))) (h2, w2))
      as (st' & hw' & Hrun & Hr' & Hrest); cycle -1.
    { exists st', hw'. split; [exact Hrun|]. split; [|exact Hrest]. rewrite Hr'. exact Er. }
    all: cbn [fst snd]; try done; try lia.
    + by apply caught_up_zero.
    + by right.
    + by rewrite Er.
    + rewrite En. unfold requests_left, start_over, initial_pull_state. cbn. lia.
  - destruct Hi as [Hi|Hi]; [|lia].
    edestruct (pull_pages_completes q fallback (pull_fuel maxPages) maxPages 0 (initial_pull_state (stored_cursor hw.2)) (hw.1, w1))
      as (st' & hw' & Hrun & Hr' & Hrest); cycle -1.
    { exists st', hw'. split; [exact Hrun|]. split; [|exact Hrest]. rewrite Hr'. exact Er1. }
    all: cbn [fst snd]; try done.
    + by apply (caught_up_step _ hw.2).
    + by left.
    + destruct (cu_bound _ _ Hi). cbn. lia.
    + by rewrite Er1.
    + unfold requests_left, pull_fuel, initial_pull_state. cbn. lia.
Qed.
End laws.
