(* ===== verification/SyncDevice.v ===== *)
(** * A device that syncs with the relay

    [pullBySeq] on the in-memory event log and the in-memory cursor store,
    against the relay's tables: other writers act before each request, and any
    call may fail.  [open] is the decryption of a payload. *)

From S2P Require Import Prelude JsMap JsString Json EventLog Redaction EventSeq SeqCursor SyncDelivery.
Local Open Scope Z_scope.
Local Open Scope motebit_scope.

Inductive sync_error :=
| LogError (e : event_error)
| ServerError (e : event_error)
| NetworkError
| DecryptError (why : string).

(** [history] is a ghost: the ids of the recorded skips, also the pruned ones.
    [script] is what others write before each request, [limits] the page sizes
    the transport asks for, [faults] the environment's choice per call. *)
Record device := {
  dv_relay : sync_db;
  script : list (list relay_op);
  limits : list (option Z);
  dv_faults : list bool;
  dv_log : InMemoryEventStore;
  dv_cursors : InMemorySyncSeqCursorStore;
  history : list string;
}.

Definition set_dv_relay d s l (w : device) : device := {|
  dv_relay := d; script := s; limits := l; dv_faults := dv_faults w;
  dv_log := dv_log w; dv_cursors := dv_cursors w; history := history w |}.
Definition set_dv_faults fs (w : device) : device := {|
  dv_relay := dv_relay w; script := script w; limits := limits w; dv_faults := fs;
  dv_log := dv_log w; dv_cursors := dv_cursors w; history := history w |}.
Definition set_dv_log lg (w : device) : device := {|
  dv_relay := dv_relay w; script := script w; limits := limits w; dv_faults := dv_faults w;
  dv_log := lg; dv_cursors := dv_cursors w; history := history w |}.
Definition set_dv_cursors cs hs (w : device) : device := {|
  dv_relay := dv_relay w; script := script w; limits := limits w; dv_faults := dv_faults w;
  dv_log := dv_log w; dv_cursors := cs; history := hs |}.

Definition may_fail {A} (m : call device sync_error A) : call device sync_error A := fun w =>
  match dv_faults w with
  | true :: fs => (Throw NetworkError, set_dv_faults fs w)
  | false :: fs => m (set_dv_faults fs w)
  | [] => m w
  end.

(** A call on the log. *)
Definition on_log {A} (m : log_call A) : call device sync_error A := may_fail (fun w =>
  match m (dv_log w) with
  | (Ok a, lg) => (Ok a, set_dv_log lg w)
  | (Throw e, lg) => (Throw (LogError e), set_dv_log lg w)
  end).

Definition device_log : LocalStore device sync_error := {|
  ls_append := fun e => on_log (EventLog.append e);
  ls_query := fun flt => on_log (EventLog.query flt);
  getHeldEventIds := None |}.

Definition device_cursors : SyncSeqCursorStore device sync_error := {|
  getSyncSeqCursor := fun key => may_fail (fun w => (Ok (jm_get key (cursors (dv_cursors w))), w));
  setSyncSeqCursor := fun key c => may_fail (fun w =>
    (Ok tt, set_dv_cursors (mem_setSyncSeqCursor key c (dv_cursors w)) (history w) w));
  recordSkippedSyncEvent := Some (fun key s => may_fail (fun w =>
    (Ok tt, set_dv_cursors (mem_recordSkippedSyncEvent key s (dv_cursors w))
              (skipped_event_id s :: history w) w))) |}.

Lemma slice_limit_elem {A} n (l : list A) x : x ∈ slice_limit n l -> x ∈ l.
Proof.
  unfold slice_limit. case_decide; apply subseteq_take.
Qed.

(** A query answers events of the log. *)
Lemma run_filter_elem flt l e : e ∈ run_filter flt l -> e ∈ l.
Proof.
  unfold run_filter, when_set. destruct flt as [[] [] [] [] [] []]; cbn; rewrite ?list_elem_of_filter;
    try (intros H%slice_limit_elem; revert H; rewrite ?list_elem_of_filter); tauto.
Qed.

Section device.
Context (key mid : string) (open : json -> result string json).

(** The relay's answer, as the transport hands it back. *)
Definition page_result (body : SeqPullBody) : SeqPullResult :=
  SeqPage ((fun e => {| seq := se_seq e; event := se_event e |}) <$> body_events body)
    (next_seq body) (has_more body) (latest_seq body).

Definition ask_relay (c : Z) : call device sync_error SeqPullResult := fun w =>
  let d := run_relay (default [] (head (script w))) (dv_relay w) in
  let w' := set_dv_relay d (tail (script w)) (tail (limits w)) w in
  match readEventsAfterSeq mid c (default None (head (limits w))) d with
  | Ok (body, _) => (Ok (page_result body), w')
  | Throw e => (Throw (ServerError e), w')
  end.

Definition decrypt (e : EventLogEntry) : call device sync_error EventLogEntry := fun w =>
  match open (payload e) with
  | Ok p => (Ok (set_payload p e), w)
  | Throw why => (Throw (DecryptError why), w)
  end.

Definition device_source : SeqPullSource device sync_error := {|
  seqCursorKey := key;
  pullAfterSeq := fun c _ => may_fail (ask_relay c);
  decodeEvent := Some decrypt |}.

#[export] Instance device_world : SyncWorld (W := device) := {
  relay := dv_relay;
  held w id := id ∈ seenIds (dv_log w);
  noted w id := id ∈ history w;
  stored_cursor w := default 0 (jm_get key (cursors (dv_cursors w)));
  world_ok w := seq_ok (dv_relay w) /\ log_ok (dv_log w);
  world_ok_seq w Hw := proj1 Hw;
}.

Abbreviation spec_ok := (spec (E := sync_error)).

Lemma may_fail_spec {A} (m : call device sync_error A) Q : spec_ok (fun _ => True) m Q ->
  spec_ok (fun _ => True) (may_fail m) Q.
Proof.
  intros Hm w r w' Hw _. unfold may_fail. destruct (dv_faults w) as [|[] fs]; [by apply Hm| |].
  - intros [= <- <-]. split_and!; [by split|done|done].
  - intros E1. destruct (Hm (set_dv_faults fs w) r w' Hw I E1) as ([H1 H2 H3 H4] & H5 & H6). split_and!; [by split|done|done].
Qed.

(** A log call that keeps the invariant and the ids seen. *)
Lemma on_log_spec {A} (m : log_call A) (Q : A -> device -> Prop) :
  (forall w r lg, log_ok (dv_log w) -> m (dv_log w) = (r, lg) ->
     log_ok lg /\ (forall id, id ∈ seenIds (dv_log w) -> id ∈ seenIds lg) /\
     forall a, r = Ok a -> Q a (set_dv_log lg w)) ->
  spec_ok (fun _ => True) (on_log m) Q.
Proof.
  intros Hm. apply may_fail_spec. intros w r w' [Hw1 Hw2] _. destruct (m (dv_log w)) as [r1 lg] eqn:E1.
  destruct (Hm w r1 lg Hw2 E1) as (H1 & H2 & H3).
  destruct r1; intros [= <- <-]; (split_and!; [by split|done|]); [|done]. intros a' [= <-]. by apply H3.
Qed.

Lemma device_laws (onPage : list EventLogEntry -> call device sync_error unit) :
  (forall es, spec_ok (fun _ => True) (onPage es) (fun _ _ => True)) ->
  PullLaws device_source device_log device_cursors mid (fun _ => call_ret tt) onPage.
Proof.
  intros Hpage. split.
  - intros w r w' Hw. cbn. unfold may_fail. destruct (dv_faults w) as [|[] fs]; intros [= <- <-];
      (split_and!; [by split|done|]); intros o [=]; subst; done.
  - intros c w r w' Hw. cbn. unfold may_fail. destruct (dv_faults w) as [|[] fs]; intros [= <- <-];
      (split_and!; [by split| |]); cbn; rewrite ?jm_get_set_eq; auto; done.
  - eexists. split; [done|]. intros s. apply may_fail_spec. intros w r w' Hw _ [= <- <-].
    split_and!; [split; try done; cbn; set_solver| |intros; cbn; set_solver].
    cbn. unfold mem_recordSkippedSyncEvent. by case_match.
  - intros e. apply on_log_spec. intros w r lg Hok. unfold EventLog.append, js_has. case_bool_decide as Hs.
    + intros [= <- <-]. split_and!; try done.
    + intros [= <- <-]. destruct Hok as [H1 H2]. split_and!; [split| |]; cbn.
      * unfold ids in *. cbn. rewrite fmap_app. apply NoDup_app. split_and!; [done| |apply NoDup_singleton].
        intros x Hx ->%list_elem_of_singleton. by apply Hs, H2.
      * intros id. unfold ids. cbn. rewrite fmap_app, elem_of_app, js_add_elem. cbn.
        rewrite list_elem_of_singleton. intros [Hid| ->]; [right; by apply H2|by left].
      * intros id Hid. apply js_add_elem. by right.
      * intros u _. apply js_add_elem. by left.
  - intros flt. apply on_log_spec. intros w r lg Hok [= <- <-]. split_and!; [done|done|].
    intros l [= <-] e He. cbn. apply (lo_seen _ Hok). apply list_elem_of_fmap. exists e. split; [done|].
    by apply run_filter_elem in He.
  - done.
  - eexists. split; [done|]. intros e w r w' Hw _. unfold decrypt. destruct (open (payload e)); intros [= <- <-];
      (split_and!; [by split|done|]); [|done]. by intros e' [= <-].
  - intros c fallback. apply may_fail_spec. intros w r w' [Hw1 Hw2] _. unfold ask_relay.
    destruct (run_relay_ok (default [] (head (script w))) (dv_relay w) Hw1) as [Hok Hl].
    destruct (readEventsAfterSeq _ _ _ _) as [[body sv]|e] eqn:Er; intros [= <- <-];
      (split_and!; [by split|done|]); [|done]. intros res [= <-]. by exists (default None (head (limits w))), body, sv.
  - intros s w r w' Hw _ [= <- <-]. split_and!; [by split|done|done].
  - done.
Qed.

(** ** Runs *)

Definition message (e : sync_error) : string :=
  match e with DecryptError why => why | _ => "sync error" end.

(** A classification is consulted on a raw path only. *)
Definition device_pull (fallback : Z) (maxPages : option Z)
    : call (relay_held * device) sync_error (option SeqPullOutcome) :=
  pullBySeq message (fun _ => Malformed) device_source device_log device_cursors mid fallback
    (fun _ => call_ret tt) (fun _ => call_ret tt) maxPages.

(** What happens to a device: its pulls, writes of others to the relay, and its
    own writes to, and compactions of, its log. *)
Inductive device_action :=
| Pull (fallback : Z) (maxPages : option Z)
| Others (op : relay_op)
| Local (op : log_op).

Definition run_action (hw : relay_held * device) (a : device_action) : relay_held * device :=
  match a with
  | Pull fallback maxPages => (device_pull fallback maxPages hw).2
  | Others op => (hw.1, set_dv_relay (run_relay_op (dv_relay hw.2) op) (script hw.2) (limits hw.2) hw.2)
  | Local op => (hw.1, set_dv_log (apply_log_op op (dv_log hw.2)) hw.2)
  end.

Abbreviation inv := (sync_inv (W := device) mid).

Lemma page_spec (es : list EventLogEntry) : spec_ok (fun _ => True) (call_ret tt : call device sync_error unit)
  (fun _ _ => True).
Proof. by apply spec_ret. Qed.

Lemma run_action_inv hw a : inv hw.2 -> inv (run_action hw a).2.
Proof.
  intros Hi. destruct a as [fallback maxPages|op|op]; cbn [run_action].
  - destruct (device_pull fallback maxPages hw) as [r hw'] eqn:E1.
    apply (pullBySeq_safe _ _ _ _ _ _ _ _ (device_laws _ page_spec) _ _ _ _ _ Hi E1).
  - destruct (run_relay_op_ok (dv_relay hw.2) op (world_ok_seq _ (cu_ok _ _ _ Hi))) as [Hok Hl].
    apply (caught_up_step _ _ hw.2); [|exact Hi]. split; try done. intros [_ H]. by split.
  - destruct (log_op_ok op (dv_log hw.2) (proj2 (cu_ok _ _ _ Hi))) as [Hok Hseen].
    apply (caught_up_step _ _ hw.2); [|exact Hi]. split; try done.
    + intros [H _]. by split.
    + apply Hseen.
Qed.

Lemma run_actions_inv acts hw : inv hw.2 -> inv (foldl run_action hw acts).2.
Proof.
  revert hw. induction acts as [|a acts IH]; intros hw Hi; [done|]. cbn. by apply IH, run_action_inv.
Qed.

(** ** A quiet relay *)

Definition quiet_device (w : device) : Prop :=
  dv_faults w = [] /\ script w = [] /\
  Forall (fun r => is_ok (redact_entry (rowToEvent r)) = true) (event_rows (dv_relay w)).

Lemma serve_ok rows : (forall r, r ∈ rows -> is_ok (redact_entry (rowToEvent r.2)) = true) ->
  is_ok (serve rows) = true.
Proof.
  induction rows as [|r rows IH]; intros H; [done|]. cbn. unfold mbind, result_mbind.
  specialize (IH (fun r' Hr' => H r' (list_elem_of_further _ _ _ Hr'))). specialize (H r ltac:(by left)).
  destruct (redact_entry _); [|done]. cbn. by destruct (serve rows).
Qed.

Lemma read_ok c limit (d : sync_db) :
  seq_ok d -> Forall (fun r => is_ok (redact_entry (rowToEvent r)) = true) (event_rows d) ->
  is_ok (readEventsAfterSeq mid c limit d) = true.
Proof.
  intros Hok Hall. rewrite Forall_forall in Hall. unfold readEventsAfterSeq. cbv zeta.
  unfold mbind, result_mbind.
  match goal with |- context [serve ?rows] => assert (is_ok (serve rows) = true) as H end.
  { apply serve_ok. intros [q e] Hr. apply Hall. cbn.
    assert ((q, e) ∈ rows_after mid c d) as H.
    { case_bool_decide; [apply subseteq_take in Hr|]; by apply subseteq_take in Hr. }
    apply rows_after_elem in H; [|done]. by destruct H as (s & _ & _ & _ & _ & He & _). }
  by destruct (serve _).
Qed.

Abbreviation settles_quiet := (settles (E := sync_error) quiet_device).

Lemma may_fail_settles {A} (m : call device sync_error A) : settles_quiet m -> settles_quiet (may_fail m).
Proof. intros Hm w Hw Hq. unfold may_fail. rewrite (proj1 Hq). by apply Hm. Qed.

Lemma device_quiet (onPage : list EventLogEntry -> call device sync_error unit) :
  (forall es, settles_quiet (onPage es)) ->
  QuietLaws device_source device_log device_cursors (fun _ => call_ret tt) onPage message quiet_device.
Proof.
  intros Hpage. split.
  - apply may_fail_settles. intros w Hw Hq. by eexists _, w.
  - intros c. apply may_fail_settles. intros w Hw Hq. eexists _, _. split; [reflexivity|]. done.
  - intros record [= <-] k s. apply may_fail_settles. intros w Hw Hq. eexists _, _. split; [reflexivity|]. done.
  - intros e. apply may_fail_settles. intros w [Hw1 Hw2] Hq.
    destruct (log_op_ok (Append e) (dv_log w) Hw2) as [Hok _]. cbn in Hok.
    destruct (EventLog.append e (dv_log w)) as [[[]|er] lg] eqn:E1.
    + exists tt, (set_dv_log lg w). by split_and!.
    + exfalso. unfold EventLog.append in E1. by case_match.
  - intros flt. apply may_fail_settles. intros w Hw Hq. eexists _, w. split; [|done].
    cbn. by destruct w.
  - done.
  - intros decode [= <-] e w Hw Hq. unfold try_decode, decrypt. destruct (open (payload e)); eexists _, w; by split.
  - intros c fallback. apply may_fail_settles. intros w [Hw1 Hw2] (Hq1 & Hq2 & Hq3). unfold ask_relay.
    rewrite Hq2. cbn [head default from_option run_relay foldl].
    pose proof (read_ok c (default None (head (limits w))) (dv_relay w) Hw1 Hq3) as Hr.
    destruct (readEventsAfterSeq _ _ _ _) as [[body sv]|e]; [|done].
    eexists _, _. split; [reflexivity|]. by split_and!.
  - intros s w Hw Hq. by eexists _, w.
  - done.
Qed.

(** ** Properties *)

Definition new_device (rows : list event_row) s l fs : device := {|
  dv_relay := migrate_event_seq rows; script := s; limits := l; dv_faults := fs; dv_log := new_store;
  dv_cursors := new_cursor_store; history := [] |}.

(** What the device has of the relay's stream. *)
Definition received (w : device) (s : seq_row) : Prop :=
  sq_event_id s ∈ seenIds (dv_log w) \/ sq_event_id s ∈ history w.

Definition device_cursor (w : device) : Z := default 0 (jm_get key (cursors (dv_cursors w))).

Lemma new_device_inv rows s l fs : NoDup (row_event_id <$> rows) -> inv (new_device rows s l fs).
Proof.
  intros Hn. apply (caught_up_zero _ (new_device rows s l fs)). split; [|apply new_store_ok].
  by apply migrate_event_seq_ok.
Qed.

(** C18: the cursor never passes an event that was not received.  Start with a
    relay whose sequence was just backfilled over any events and a device with
    nothing; let the device pull, write and compact its log, and others push to the
    relay, compact and truncate it, in any order, also between two requests of one
    pull, with any call of the device failing at any point and any payloads that
    cannot be decrypted.  Then every event of the identity that the relay still
    holds at or below the device's stored cursor is one the device appended to its
    log or recorded as skipped, and the cursor is a number the relay has given. *)
Theorem sync_loses_nothing rows s l fs acts :
  NoDup (row_event_id <$> rows) ->
  let w := (foldl run_action ([], new_device rows s l fs) acts).2 in
  (forall row, row ∈ relay_event_seq (dv_relay w) -> sq_motebit_id row = mid ->
     sq_seq row <= device_cursor w -> received w row) /\
  0 <= device_cursor w <= last_seq mid (dv_relay w).
Proof.
  intros Hn w. assert (inv w) as [_ Hb Hp] by (by apply run_actions_inv, new_device_inv). done.
Qed.

(** A pull delivers everything.  When nothing fails during the pull (decryption
    apart), no one writes to the relay meanwhile and the page limit exceeds the
    relay's counter, the pull returns having received every event of the identity
    that the relay holds, with the cursor at or above all their numbers; also from a
    cursor ahead of the relay's counter, which a restored relay database leaves. *)
Theorem pull_delivers_everything (hw : relay_held * device) fallback maxPages :
  quiet_device hw.2 -> seq_ok (dv_relay hw.2) -> log_ok (dv_log hw.2) ->
  inv hw.2 \/ last_seq mid (dv_relay hw.2) < device_cursor hw.2 ->
  last_seq mid (dv_relay hw.2) < maxPages ->
  exists o hw', device_pull fallback (Some maxPages) hw = (Ok (Some o), hw') /\ mode o = ModeSeq /\
    dv_relay hw'.2 = dv_relay hw.2 /\
    forall row, row ∈ relay_event_seq (dv_relay hw'.2) -> sq_motebit_id row = mid ->
      sq_seq row <= device_cursor hw'.2 <= last_seq mid (dv_relay hw'.2) /\ received hw'.2 row.
Proof.
  intros Hq Hok Hlog Hi Hm.
  destruct (pullBySeq_completes _ _ _ _ _ _ message (fun _ => Malformed) (device_laws _ page_spec)
    quiet_device (device_quiet _ (fun _ => settles_ret _ tt)) fallback maxPages hw (conj Hok Hlog) Hq Hi Hm)
    as (st' & hw' & E1 & Er & Hi' & Hall).
  exists (outcome ModeSeq st'), hw'. split_and!; [exact E1|done|exact Er|]. intros row Hrow Hmid.
  specialize (Hall row Hrow Hmid). destruct Hi' as [_ Hb Hp]. split; [|by apply Hp].
  split; [done|]. apply Hb.
Qed.
End device.

(** ** Witnesses *)

Definition demo_event (id owner : string) (clock : Z) (p : json) : EventLogEntry := {|
  event_id := id; motebit_id := owner; device_id := Some "phone"%string; timestamp := clock;
  event_type := "goal_created"; payload := p; version_clock := clock; tombstoned := false |}.

(** A payload that is a string was sealed with a lost key. *)
Definition demo_open (p : json) : result string json :=
  match p with JString _ => Throw "unknown key version"%string | _ => Ok p end.

Definition demo_rows : list event_row :=
  [row_of_entry (demo_event "e1" "m" 1 (JObject [])) None; row_of_entry (demo_event "x1" "other" 1 (JObject [])) None;
   row_of_entry (demo_event "e2" "m" 1 (JString "sealed")) None].

(** One event a page; while the second page is asked for, a sibling pushes two
    events and the relay compacts the first; the append of ["e3"] fails once. *)
Definition demo_device : device := new_device demo_rows
  [[]; [RelayPush "m" (demo_event "e3" "m" 1 (JObject [])) false; RelayCompact "other" 5;
        RelayPush "m" (demo_event "e4" "m" 2 (JObject [])) true]]
  [Some 1; Some 1; Some 1; Some 1; Some 1] (repeat false 11 ++ [true]).

Definition demo_run (acts : list device_action) : device :=
  (foldl (run_action "e2e:r#m" "m" demo_open) ([], demo_device) acts).2.

Lemma sync_loses_nothing_witness :
  let w1 := demo_run [Pull 0 None] in
  let w2 := demo_run [Pull 0 None; Local (Compact "m" 1); Others (RelayPush "m" (demo_event "e5" "m" 1 (JObject [])) false);
                      Pull 0 None] in
  device_cursor "e2e:r#m" w1 = 2 /\ history w1 = ["e2"%string] /\ seenIds (dv_log w1) = ["e1"%string] /\
  device_cursor "e2e:r#m" w2 = 5 /\ seenIds (dv_log w2) = ["e1"; "e3"; "e4"; "e5"]%string /\
  (forall row, row ∈ relay_event_seq (dv_relay w2) -> sq_motebit_id row = "m"%string ->
     sq_seq row <= device_cursor "e2e:r#m" w2 -> received w2 row).
Proof.
  intros w1 w2. split; [vm_compute; reflexivity|]. split; [vm_compute; reflexivity|].
  split; [vm_compute; reflexivity|]. split; [vm_compute; reflexivity|]. split; [vm_compute; reflexivity|].
  apply sync_loses_nothing. apply NoDup_ListNoDup. repeat constructor; set_solver.
Defined.

(** A device whose cursor is ahead of a restored relay's counter. *)
Definition demo_restored : device :=
  set_dv_cursors (mem_setSyncSeqCursor "e2e:r#m" 40 new_cursor_store) [] (new_device demo_rows [] [Some 1] []).

Lemma pull_delivers_everything_witness :
  exists o hw', device_pull "e2e:r#m" "m" demo_open 0 (Some 3) ([], demo_restored) = (Ok (Some o), hw') /\
    mode o = ModeSeq /\ dv_relay hw'.2 = dv_relay demo_restored /\
    forall row, row ∈ relay_event_seq (dv_relay hw'.2) -> sq_motebit_id row = "m"%string ->
      sq_seq row <= device_cursor "e2e:r#m" hw'.2 <= last_seq "m" (dv_relay hw'.2) /\ received hw'.2 row.
Proof.
  apply (pull_delivers_everything "e2e:r#m" "m" demo_open ([], demo_restored) 0 3).
  - split; [done|]. split; [done|]. by repeat constructor.
  - apply migrate_event_seq_ok. apply NoDup_ListNoDup. repeat constructor; set_solver.
  - apply new_store_ok.
  - right. vm_compute. reflexivity.
  - vm_compute. reflexivity.
Defined.
