(* ===== verification/Merkle.v ===== *)
(** * Merkle trees ([packages/encryption/src/merkle.ts], [packages/crypto/src/merkle.ts])

    The builder, the proofs and the two verifiers, over any hash function: the
    hash is an argument.  Bytes are integers, [fromHex] and [toHex] as written,
    also on text that is no hexadecimal. *)

From Stdlib Require Import Ascii String.
From S2P Require Import Prelude JsMap JsString.
Local Open Scope Z_scope.
Local Open Scope list_scope.

(** ** Bytes and hexadecimal *)

Abbreviation bytes := (list Z).

Definition hex_digit_value (c : ascii) : option Z :=
  let n := Z.of_N (N_of_ascii c) in
  if (48 <=? n) && (n <=? 57) then Some (n - 48) else
  if (97 <=? n) && (n <=? 102) then Some (n - 87) else
  if (65 <=? n) && (n <=? 70) then Some (n - 55) else None.

Definition is_space (c : ascii) : bool :=
  let n := Z.of_N (N_of_ascii c) in ((9 <=? n) && (n <=? 13)) || (n =? 32).

(** [parseInt(ac, 16)] of two characters, [NaN] as [0], stored in a [Uint8Array]:
    white space is skipped, a sign is read, then digits as far as they go. *)
Definition parse_byte (a c : ascii) : Z :=
  match hex_digit_value a, hex_digit_value c with
  | Some x, Some y => 16 * x + y
  | Some x, None => x
  | None, Some y =>
      if is_space a || bool_decide (a = "+"%char) then y
      else if bool_decide (a = "-"%char) then (- y) mod 256 else 0
  | None, None => 0
  end.

(** A last odd character is written past the end of the array. *)
Fixpoint fromHex (hex : string) : bytes :=
  match hex with
  | String a (String c hex) => parse_byte a c :: fromHex hex
  | _ => []
  end.

(** [b.toString(16).padStart(2, "0")] *)
Definition byte_hex (b : Z) : string := padStart 2 "0" (toString16 (Z.to_N b)).

Fixpoint toHex (b : bytes) : string :=
  match b with
  | [] => EmptyString
  | x :: b => String.append (byte_hex x) (toHex b)
  end.

(** ** Versions *)

Definition plain_v1 : string := "merkle-sha256-plain-v1".
Definition rfc6962_v2 : string := "merkle-sha256-rfc6962-v2".

Inductive merkle_error :=
| UnsupportedVersion (v : string)
| EmptyLeafSet
| LeafIndexOutOfRange.

Definition NODE_TAG_V2 : bytes := [1].
Definition LEAF_TAG_V2 : bytes := [0].

(** The tag to prepend; [null] prepends nothing. *)
Definition nodeTagFor (version : string) : result merkle_error (option bytes) :=
  if bool_decide (version = plain_v1) then Ok None else
  if bool_decide (version = rfc6962_v2) then Ok (Some NODE_TAG_V2) else
  Throw (UnsupportedVersion version).

Definition resolveTreeHashVersion (raw : option string) : option string :=
  match raw with
  | None => Some plain_v1
  | Some v => if bool_decide (v = plain_v1) || bool_decide (v = rfc6962_v2) then Some v else None
  end.

Record MerkleTree := {
  root : string;
  leaves : list string;
  layers : list (list string);
}.

Record MerkleProof := {
  leaf : string;
  index : Z;
  siblings : list string;
  layerSizes : list Z;
}.

Section merkle.
Context (sha256 : bytes -> bytes).

Definition combine (nodeTag : option bytes) (lhs rhs : bytes) : bytes :=
  sha256 (match nodeTag with Some tag => tag ++ lhs ++ rhs | None => lhs ++ rhs end).

Definition hashLeaf (entry : bytes) (treeHashVersion : string) : result merkle_error string :=
  if bool_decide (treeHashVersion = plain_v1) then Ok (toHex (sha256 entry)) else
  if bool_decide (treeHashVersion = rfc6962_v2) then Ok (toHex (sha256 (LEAF_TAG_V2 ++ entry))) else
  Throw (UnsupportedVersion treeHashVersion).

(** One pass of the [for] loop. *)
Fixpoint next_layer (nodeTag : option bytes) (current : list string) : list string :=
  match current with
  | a :: b :: current => toHex (combine nodeTag (fromHex a) (fromHex b)) :: next_layer nodeTag current
  | current => current
  end.

(** The [while] loop: the layers above [current]. *)
Fixpoint build_layers (fuel : nat) (nodeTag : option bytes) (current : list string) : list (list string) :=
  match fuel with
  | O => []
  | S fuel =>
      if (length current <=? 1)%nat then [] else
      let next := next_layer nodeTag current in next :: build_layers fuel nodeTag next
  end.

Definition buildMerkleTree (leaves : list string) (treeHashVersion : string) : result merkle_error MerkleTree :=
  if bool_decide (leaves = []) then Throw EmptyLeafSet else
  nodeTag ← nodeTagFor treeHashVersion;
  let layers := leaves :: build_layers (length leaves) nodeTag leaves in
  Ok {| root := default EmptyString (head (default [] (last layers))); leaves := leaves; layers := layers |}.

Definition sibling_of (idx : Z) : Z := if Z.even idx then idx + 1 else idx - 1.

(** The loop of [getMerkleProof], from the layer [idx] points into: the siblings
    and the sizes it pushes. *)
Fixpoint walk_up (layers : list (list string)) (idx : Z) : list string * list Z :=
  match layers with
  | level :: ((_ :: _) as above) =>
      let '(sibs, sizes) := walk_up above (idx / 2) in
      let siblingIdx := sibling_of idx in
      (if (0 <=? siblingIdx) && (siblingIdx <? Z.of_nat (length level))
       then default EmptyString (level !! Z.to_nat siblingIdx) :: sibs else sibs,
       Z.of_nat (length level) :: sizes)
  | _ => ([], [])
  end.

Definition getMerkleProof (tree : MerkleTree) (leafIndex : Z) : result merkle_error MerkleProof :=
  if (leafIndex <? 0) || (Z.of_nat (length (leaves tree)) <=? leafIndex) then Throw LeafIndexOutOfRange else
  let '(sibs, sizes) := walk_up (layers tree) leafIndex in
  Ok {| leaf := default EmptyString (leaves tree !! Z.to_nat leafIndex); index := leafIndex;
        siblings := sibs; layerSizes := sizes |}.

(** The loop of the verifiers; [None] when the siblings run out. *)
Fixpoint climb (nodeTag : option bytes) (current : bytes) (idx : Z) (siblings : list string)
    (layerSizes : list Z) : option bytes :=
  match layerSizes with
  | [] => Some current
  | layerSize :: layerSizes =>
      let siblingPos := sibling_of idx in
      if (0 <=? siblingPos) && (siblingPos <? layerSize) then
        match siblings with
        | [] => None
        | sibling :: siblings =>
            let siblingBytes := fromHex sibling in
            let lhs := if Z.even idx then current else siblingBytes in
            let rhs := if Z.even idx then siblingBytes else current in
            climb nodeTag (combine nodeTag lhs rhs) (idx / 2) siblings layerSizes
        end
      else climb nodeTag current (idx / 2) siblings layerSizes
  end.

(** [@motebit/crypto]'s verifier. *)
Definition verifyMerkleInclusion (leaf : string) (index : Z) (siblings : list string) (layerSizes : list Z)
    (expectedRoot treeHashVersion : string) : bool :=
  if negb (bool_decide (treeHashVersion = plain_v1)) && negb (bool_decide (treeHashVersion = rfc6962_v2))
  then false else
  let nodeTag := if bool_decide (treeHashVersion = rfc6962_v2) then Some NODE_TAG_V2 else None in
  match climb nodeTag (fromHex leaf) index siblings layerSizes with
  | Some current => bool_decide (toHex current = expectedRoot)
  | None => false
  end.

(** [@motebit/encryption]'s, on a proof. *)
Definition verifyMerkleProof (proof : MerkleProof) (expectedRoot treeHashVersion : string) : bool :=
  if negb (bool_decide (treeHashVersion = plain_v1)) && negb (bool_decide (treeHashVersion = rfc6962_v2))
  then false else
  let nodeTag := if bool_decide (treeHashVersion = rfc6962_v2) then Some NODE_TAG_V2 else None in
  match climb nodeTag (fromHex (leaf proof)) (index proof) (siblings proof) (layerSizes proof) with
  | Some current => bool_decide (toHex current = expectedRoot)
  | None => false
  end.
End merkle.

(** ** Hexadecimal, there and back *)

#[local] Arguments String.append : simpl nomatch.

Definition valid_bytes (b : bytes) : Prop := Forall (fun x => 0 <= x < 256) b.

(** Text that [toHex] writes. *)
Definition canonical_hex (s : string) : Prop := toHex (fromHex s) = s.

Lemma byte_hex_table : forallb (fun n => let x := Z.of_nat n in
  match byte_hex x with
  | String a (String c EmptyString) => parse_byte a c =? x
  | _ => false
  end) (seq 0 256) = true.
Proof. vm_compute. reflexivity. Qed.

Lemma byte_hex_parse x : 0 <= x < 256 ->
  exists a c, byte_hex x = String a (String c EmptyString) /\ parse_byte a c = x.
Proof.
  intros Hx. pose proof (proj1 (forallb_forall _ _) byte_hex_table (Z.to_nat x)) as H.
  specialize (H ltac:(apply in_seq; lia)). cbv beta zeta in H. rewrite Z2Nat.id in H by lia.
  destruct (byte_hex x) as [|a [|c [|]]]; try done. exists a, c. split; [done|]. by apply Z.eqb_eq.
Qed.

Lemma fromHex_toHex b : valid_bytes b -> fromHex (toHex b) = b.
Proof.
  induction 1 as [|x b Hx Hb IH]; [done|]. cbn [toHex].
  destruct (byte_hex_parse x Hx) as (a & c & -> & E). cbn -[parse_byte]. by rewrite E, IH.
Qed.

Lemma toHex_inj b b' : valid_bytes b -> valid_bytes b' -> toHex b = toHex b' -> b = b'.
Proof. intros H H' E. by rewrite <- (fromHex_toHex b H), <- (fromHex_toHex b' H'), E. Qed.

Lemma parse_byte_valid a c : 0 <= parse_byte a c < 256.
Proof.
  unfold parse_byte, hex_digit_value. cbv zeta.
  repeat (case_match; simplify_eq/=); rewrite ?andb_true_iff, ?Z.leb_le in *; try lia;
    try apply Z.mod_pos_bound; lia.
Qed.

Lemma fromHex_valid_len n s : (String.length s <= n)%nat -> valid_bytes (fromHex s).
Proof.
  revert s. induction n as [|n IH]; intros [|a [|c s]] Hn; cbn in *; try lia; try constructor.
  - apply parse_byte_valid.
  - apply IH. lia.
Qed.

Lemma fromHex_valid s : valid_bytes (fromHex s).
Proof. by apply (fromHex_valid_len (String.length s)). Qed.

Lemma toHex_canonical b : valid_bytes b -> canonical_hex (toHex b).
Proof. intros H. unfold canonical_hex. by rewrite fromHex_toHex. Qed.

(** ** Layers *)

Section theory.
Context (sha256 : bytes -> bytes).
Context (sha256_valid : forall b, valid_bytes (sha256 b)) (sha256_length : forall b, length (sha256 b) = 32%nat).

Lemma list_pairs_ind {A} (P : list A -> Prop) :
  P [] -> (forall a, P [a]) -> (forall a b l, P l -> P (a :: b :: l)) -> forall l, P l.
Proof.
  intros H0 H1 H2 l. enough (P l /\ forall a, P (a :: l)) as [H _] by exact H.
  induction l as [|a l [IH1 IH2]]; [by split|]. split; [apply IH2|]. intros b. by apply H2.
Qed.

Lemma next_layer_length tag l : (2 * length (next_layer sha256 tag l) <= length l + 1 /\
  length l <= 2 * length (next_layer sha256 tag l))%nat.
Proof. induction l as [|a|a b l IH] using list_pairs_ind; cbn; lia. Qed.

(** Entry [i] above is made of the entries [2i] and [2i + 1], or promoted. *)
Lemma next_layer_lookup tag l i s :
  next_layer sha256 tag l !! i = Some s ->
  (exists a b, l !! (2 * i)%nat = Some a /\ l !! S (2 * i) = Some b /\
     s = toHex (combine sha256 tag (fromHex a) (fromHex b))) \/
  (l !! (2 * i)%nat = Some s /\ length l = S (2 * i)).
Proof.
  revert i. induction l as [|a|a b l IH] using list_pairs_ind; intros i; cbn [next_layer].
  - done.
  - destruct i; [|done]. intros [= ->]. by right.
  - destruct i as [|i]; cbn.
    + intros [= <-]. left. eauto.
    + intros H. replace (i + S (i + 0))%nat with (S (2 * i)) by lia. cbn.
      destruct (IH i H) as [(x & y & E1 & E2 & E3)|[E1 E2]]; [left; eauto|right; split; [done|lia]].
Qed.

Lemma next_layer_canonical tag l :
  Forall canonical_hex l -> Forall canonical_hex (next_layer sha256 tag l).
Proof.
  induction l as [|a|a b l IH] using list_pairs_ind; intros H; cbn; try done.
  inversion H as [|? ? _ H']. inversion H' as [|? ? _ H'']. constructor; [|by apply IH].
  apply toHex_canonical, sha256_valid.
Qed.

Lemma div2_cases (idx : nat) : exists k,
  (idx = (2 * k)%nat /\ Z.even (Z.of_nat idx) = true /\ Z.of_nat idx / 2 = Z.of_nat k) \/
  (idx = S (2 * k) /\ Z.even (Z.of_nat idx) = false /\ Z.of_nat idx / 2 = Z.of_nat k).
Proof.
  exists (idx / 2)%nat. pose proof (Nat.div_mod idx 2 ltac:(lia)) as Hd.
  pose proof (Nat.mod_upper_bound idx 2 ltac:(lia)) as Hm. set (k := (idx / 2)%nat) in *. clearbody k.
  destruct (decide (idx mod 2 = 0)%nat) as [E|E]; [left|right]; (split; [lia|]).
  - replace (Z.of_nat idx) with (2 * Z.of_nat k) by lia. split; [by rewrite Z.even_mul|].
    rewrite Z.mul_comm. by apply Z.div_mul.
  - replace (Z.of_nat idx) with (1 + Z.of_nat k * 2) by lia. split; [|by rewrite Z.div_add].
    by rewrite Z.mul_comm, Z.even_add_mul_2.
Qed.

Lemma walk_up_cons level next rest idx :
  walk_up (level :: next :: rest) idx =
  let '(sibs, sizes) := walk_up (next :: rest) (idx / 2) in
  (if (0 <=? sibling_of idx) && (sibling_of idx <? Z.of_nat (length level))
   then default EmptyString (level !! Z.to_nat (sibling_of idx)) :: sibs else sibs,
   Z.of_nat (length level) :: sizes).
Proof. done. Qed.

(** The proof of [getMerkleProof] climbs to the top entry. *)
Lemma climb_walk tag fuel level idx s :
  Forall canonical_hex level -> level !! idx = Some s -> (length level <= fuel)%nat ->
  exists top, last (level :: build_layers sha256 fuel tag level) = Some [top] /\ canonical_hex top /\
    let '(sibs, sizes) := walk_up (level :: build_layers sha256 fuel tag level) (Z.of_nat idx) in
    climb sha256 tag (fromHex s) (Z.of_nat idx) sibs sizes = Some (fromHex top).
Proof.
  revert level idx s. induction fuel as [|fuel IH]; intros level idx s Hc Hs Hf.
  { destruct level; [done|cbn in Hf; lia]. }
  cbn [build_layers]. destruct (Nat.leb_spec (length level) 1) as [H1|H1].
  { destruct level as [|x [|y level]]; [done| |cbn in H1; lia]. destruct idx; [|done].
    injection Hs as ->. exists s. split_and!; [done|by inversion Hc|done]. }
  set (above := next_layer sha256 tag level). cbv zeta.
  pose proof (next_layer_length tag level) as Hlen. fold above in Hlen.
  apply lookup_lt_Some in Hs as Hlt.
  destruct (div2_cases idx) as (k & Hk).
  assert (k < length above)%nat as Hka by (destruct Hk as [(-> & _)|(-> & _)]; lia).
  destruct (lookup_lt_is_Some_2 above k Hka) as [s' Hs'].
  destruct (IH above k s') as (top & Hlast & Htop & Hclimb);
    [by apply next_layer_canonical|done|lia|].
  exists top. split; [by rewrite last_cons, Hlast|]. split; [done|].
  rewrite walk_up_cons. assert (Z.of_nat idx / 2 = Z.of_nat k) as -> by (destruct Hk as [(_ & _ & ->)|(_ & _ & ->)]; done).
  destruct (walk_up (above :: build_layers sha256 fuel tag above) (Z.of_nat k)) as [sibs sizes] eqn:Ew.
  cbn [climb]. unfold sibling_of.
  destruct (next_layer_lookup tag level k s' Hs') as [(a & b & Ha & Hb & ->)|[Ha Hl]].
  - destruct Hk as [(-> & Hev & Hdiv)|(-> & Hev & Hdiv)]; rewrite Hev, Hdiv.
    + rewrite Ha in Hs. injection Hs as ->. apply lookup_lt_Some in Hb as Hbl.
      rewrite (proj2 (Z.leb_le _ _)) by lia. rewrite (proj2 (Z.ltb_lt _ _)) by lia. cbn [andb].
      replace (Z.to_nat (Z.of_nat (2 * k) + 1)) with (S (2 * k)) by lia. rewrite Hb. cbn [default from_option id].
      rewrite <- Hclimb. unfold combine. by rewrite fromHex_toHex by apply sha256_valid.
    + rewrite Hb in Hs. injection Hs as ->. apply lookup_lt_Some in Ha as Hal.
      rewrite (proj2 (Z.leb_le _ _)) by lia. rewrite (proj2 (Z.ltb_lt _ _)) by lia. cbn [andb].
      replace (Z.to_nat (Z.of_nat (S (2 * k)) - 1)) with (2 * k)%nat by lia. rewrite Ha. cbn [default from_option id].
      rewrite <- Hclimb. unfold combine. by rewrite fromHex_toHex by apply sha256_valid.
  - destruct Hk as [(-> & Hev & Hdiv)|(-> & _ & _)]; [|lia]. rewrite Hev, Hdiv.
    rewrite Ha in Hs. injection Hs as ->. rewrite (proj2 (Z.ltb_ge _ _)) by lia. by rewrite andb_false_r.
Qed.

(** ** Honest trees under v2 *)

(** The tree over entries, odd nodes promoted. *)
Inductive tree :=
| TLeaf (entry : bytes)
| TNode (l r : tree).

Fixpoint value (t : tree) : bytes :=
  match t with
  | TLeaf e => sha256 (LEAF_TAG_V2 ++ e)
  | TNode l r => sha256 (NODE_TAG_V2 ++ value l ++ value r)
  end.

Fixpoint entries (t : tree) : list bytes :=
  match t with
  | TLeaf e => [e]
  | TNode l r => entries l ++ entries r
  end.

Definition encodes (s : string) (t : tree) : Prop := s = toHex (value t).

Lemma value_valid t : valid_bytes (value t).
Proof. destruct t; apply sha256_valid. Qed.
Lemma value_length t : length (value t) = 32%nat.
Proof. destruct t; apply sha256_length. Qed.

Lemma next_layer_encodes l : forall ts, Forall2 encodes l ts ->
  exists ts', Forall2 encodes (next_layer sha256 (Some NODE_TAG_V2) l) ts' /\
              concat (entries <$> ts') = concat (entries <$> ts).
Proof.
  induction l as [|a|a b l IH] using list_pairs_ind; intros ts H; cbn [next_layer].
  - inversion H. by exists [].
  - by exists ts.
  - apply Forall2_cons_inv_l in H as (ta & ts1 & Ea & H & ->).
    apply Forall2_cons_inv_l in H as (tb & ts2 & Eb & H & ->).
    destruct (IH ts2 H) as (ts' & H' & Hc). exists (TNode ta tb :: ts'). split.
    + constructor; [|done]. unfold encodes in *. subst. unfold combine. cbn [value].
      by rewrite !fromHex_toHex by apply value_valid.
    + cbn. rewrite Hc. by rewrite app_assoc.
Qed.

Lemma build_layers_encodes fuel level ts :
  Forall2 encodes level ts -> level <> [] -> (length level <= fuel)%nat ->
  exists top t, last (level :: build_layers sha256 fuel (Some NODE_TAG_V2) level) = Some [top] /\
    encodes top t /\ entries t = concat (entries <$> ts).
Proof.
  revert level ts. induction fuel as [|fuel IH]; intros level ts H Hne Hf.
  { destruct level; [done|cbn in Hf; lia]. }
  cbn [build_layers]. destruct (Nat.leb_spec (length level) 1) as [H1|H1].
  { destruct level as [|x [|y level]]; [done| |cbn in H1; lia].
    apply Forall2_cons_inv_l in H as (t & ts1 & E & H & ->). apply Forall2_nil_inv_l in H as ->.
    exists x, t. split_and!; [done|done|]. cbn. by rewrite app_nil_r. }
  cbv zeta. destruct (next_layer_encodes level ts H) as (ts' & H' & Hc).
  pose proof (next_layer_length (Some NODE_TAG_V2) level) as Hlen.
  destruct (IH _ ts' H') as (top & t & Hl & He & Hen); [|lia|].
  { intros E. rewrite E in Hlen. cbn in Hlen. lia. }
  exists top, t. split_and!; [|done|congruence]. by rewrite last_cons, Hl.
Qed.

(** ** What a verifier's climb can reach *)

(** One step: the side the climbing hash is on, and the sibling. *)
Definition hash_step (c : bytes) (st : bool * bytes) : bytes :=
  sha256 (NODE_TAG_V2 ++ (if st.1 then c ++ st.2 else st.2 ++ c)).

Lemma climb_path c idx sibs sizes fin :
  climb sha256 (Some NODE_TAG_V2) c idx sibs sizes = Some fin ->
  exists path, fin = foldl hash_step c path.
Proof.
  revert c idx sibs. induction sizes as [|size sizes IH]; intros c idx sibs; cbn [climb].
  { intros [= <-]. by exists []. }
  destruct (_ && _); [|apply IH]. destruct sibs as [|s sibs]; [done|].
  intros (path & ->)%IH. exists ((Z.even idx, fromHex s) :: path). cbn. f_equal.
  unfold hash_step, combine. by destruct (Z.even idx).
Qed.

Lemma foldl_hash_length c path : length c = 32%nat -> length (foldl hash_step c path) = 32%nat.
Proof.
  intros Hc. destruct path as [|st path' _] using rev_ind; [done|].
  rewrite foldl_app. cbn. apply sha256_length.
Qed.

Definition collision : Prop := exists x y, x <> y /\ sha256 x = sha256 y.

(** A path from an entry's leaf hash to the value of a tree starts in the tree. *)
Lemma path_in_tree e path t :
  foldl hash_step (sha256 (LEAF_TAG_V2 ++ e)) path = value t -> e ∈ entries t \/ collision.
Proof.
  revert t. induction path as [|st path IH] using rev_ind; intros t.
  - cbn [foldl]. destruct t as [e'|l r]; cbn [value entries]; intros E.
    + destruct (decide (LEAF_TAG_V2 ++ e = LEAF_TAG_V2 ++ e')) as [Eq|Ne]; [|right; by eexists _, _; split; [exact Ne|]].
      apply app_inv_head in Eq as ->. left. by apply list_elem_of_singleton.
    + right. eexists _, _. split; [|exact E]. done.
  - rewrite foldl_app. set (c := foldl hash_step _ path). cbn [foldl]. unfold hash_step.
    assert (length c = 32%nat) as Hlen by apply foldl_hash_length, sha256_length.
    destruct t as [e'|l r]; cbn [value entries]; intros E.
    + right. eexists _, _. split; [|exact E]. done.
    + destruct (decide (NODE_TAG_V2 ++ (if st.1 then c ++ st.2 else st.2 ++ c) = NODE_TAG_V2 ++ value l ++ value r))
        as [Eq|Ne]; [|right; by eexists _, _; split; [exact Ne|]].
      apply app_inv_head in Eq. destruct (st.1).
      * apply app_inj_1 in Eq as [Eq _]; [|by rewrite value_length].
        destruct (IH l Eq) as [H|H]; [left; set_solver|by right].
      * apply app_inj_2 in Eq as [_ Eq]; [|by rewrite value_length].
        destruct (IH r Eq) as [H|H]; [left; set_solver|by right].
Qed.

(** ** Trees that were built *)

Lemma build_ok leaves version :
  leaves <> [] -> version = plain_v1 \/ version = rfc6962_v2 ->
  let tag := if bool_decide (version = rfc6962_v2) then Some NODE_TAG_V2 else None in
  let layers := leaves :: build_layers sha256 (length leaves) tag leaves in
  buildMerkleTree sha256 leaves version
  = Ok {| root := default EmptyString (head (default [] (last layers))); leaves := leaves; layers := layers |}.
Proof.
  intros Hne Hv. cbv zeta. unfold buildMerkleTree, nodeTagFor. rewrite bool_decide_eq_false_2 by done.
  by destruct Hv as [-> | ->].
Qed.

Lemma build_root ls version t :
  ls <> [] -> version = plain_v1 \/ version = rfc6962_v2 -> buildMerkleTree sha256 ls version = Ok t ->
  root t = default EmptyString (head (default [] (last (ls :: build_layers sha256 (length ls)
    (if bool_decide (version = rfc6962_v2) then Some NODE_TAG_V2 else None) ls)))).
Proof. intros Hne Hv. rewrite build_ok by done. by intros [= <-]. Qed.

Lemma verify_climb leaf idx sibs sizes expected version fin :
  version = plain_v1 \/ version = rfc6962_v2 ->
  climb sha256 (if bool_decide (version = rfc6962_v2) then Some NODE_TAG_V2 else None) (fromHex leaf) idx sibs sizes
    = Some fin -> toHex fin = expected ->
  verifyMerkleInclusion sha256 leaf idx sibs sizes expected version = true.
Proof.
  intros Hv Hc He. unfold verifyMerkleInclusion. cbv zeta. rewrite Hc, (bool_decide_eq_true_2 (toHex fin = expected)) by done.
  by destruct Hv as [-> | ->].
Qed.

(** Every leaf has a proof, and it verifies.  For any hash function to bytes, a
    tree is built over any non-empty list of hexadecimal leaves under either
    version; the proof of each of its leaves names that leaf, and both verifiers
    accept it against the root.  An index outside the leaves is refused. *)
Theorem proofs_verify ls version :
  ls <> [] -> Forall canonical_hex ls -> version = plain_v1 \/ version = rfc6962_v2 ->
  exists t, buildMerkleTree sha256 ls version = Ok t /\
    (forall i s, ls !! i = Some s -> exists p, getMerkleProof t (Z.of_nat i) = Ok p /\ leaf p = s /\
       verifyMerkleProof sha256 p (root t) version = true /\
       verifyMerkleInclusion sha256 s (index p) (siblings p) (layerSizes p) (root t) version = true) /\
    (forall i, i < 0 \/ Z.of_nat (length ls) <= i -> getMerkleProof t i = Throw LeafIndexOutOfRange).
Proof.
  intros Hne Hc Hv. eexists. split; [by apply build_ok|]. split.
  - intros i s Hs. apply lookup_lt_Some in Hs as Hlt. unfold getMerkleProof. cbn [leaves layers root].
    rewrite (proj2 (Z.ltb_ge _ _)), (proj2 (Z.leb_gt _ _)) by lia. cbn [orb].
    set (tag := if bool_decide (version = rfc6962_v2) then _ else _).
    destruct (climb_walk tag (length ls) ls i s Hc Hs (le_n _)) as (top & Hlast & Htop & Hclimb).
    destruct (walk_up _ _) as [sibs sizes]. eexists. split; [reflexivity|]. cbn [leaf index siblings layerSizes].
    rewrite Nat2Z.id, Hs, Hlast. cbn [default from_option id head].
    assert (verifyMerkleInclusion sha256 s (Z.of_nat i) sibs sizes top version = true) as Hver
      by (by apply (verify_climb _ _ _ _ _ _ (fromHex top))).
    split_and!; [done|exact Hver|exact Hver].
  - intros i Hi. unfold getMerkleProof. cbn [leaves]. destruct (Z.ltb_spec i 0); [done|].
    rewrite (proj2 (Z.leb_le _ _)) by lia. done.
Qed.

End theory.

(** ** Witnesses *)

(** A hash to 32 bytes that can be computed here. *)
Definition demo_hash (b : bytes) : bytes :=
  replicate 30 7 ++ [foldl (fun h x => (h * 31 + x) mod 256) 17 b; Z.of_nat (length b) mod 256].

Lemma demo_hash_valid b : valid_bytes (demo_hash b).
Proof.
  unfold demo_hash. apply Forall_app. split; [apply Forall_replicate; lia|].
  assert (forall h, 0 <= h < 256 -> 0 <= foldl (fun h x => (h * 31 + x) mod 256) h b < 256) as H.
  { induction b as [|x b IH]; intros h Hh; [done|]. cbn. apply IH, Z.mod_pos_bound. lia. }
  repeat constructor; try (apply H; lia); apply Z.mod_pos_bound; lia.
Qed.

Lemma demo_hash_length b : length (demo_hash b) = 32%nat.
Proof. reflexivity. Qed.

Lemma proofs_verify_witness :
  exists t, buildMerkleTree demo_hash ["0a"; "ff"; "10"]%string rfc6962_v2 = Ok t /\
    exists p, getMerkleProof t 2 = Ok p /\ length (siblings p) = 1%nat /\ layerSizes p = [3; 2] /\
      verifyMerkleInclusion demo_hash "10" (index p) (siblings p) (layerSizes p) (root t) rfc6962_v2 = true /\
      verifyMerkleInclusion demo_hash "11" (index p) (siblings p) (layerSizes p) (root t) rfc6962_v2 = false.
Proof.
  destruct (proofs_verify demo_hash demo_hash_valid ["0a"; "ff"; "10"]%string rfc6962_v2)
    as (t & Ht & Hp & _); [done|by repeat constructor|by right|].
  exists t. split; [exact Ht|]. destruct (Hp 2%nat "10"%string eq_refl) as (p & E & _ & _ & Hv).
  exists p. split; [exact E|]. vm_compute in Ht. injection Ht as <-. vm_compute in E. injection E as <-.
  split; [reflexivity|]. split; [reflexivity|]. split; [exact Hv|]. vm_compute. reflexivity.
Defined.

