(* ===== verification/Election.v ===== *)
(** * The runtime-host election ([packages/runtime-host/src/election.ts])

    Processes that run [electRuntimeHost] concurrently over one file system: a
    step is one platform operation, as [transport.ts] states it, and the schedule
    and the crashes are arbitrary.  A process is its pid and its program counter.
    The socket path is a unix socket; a file is written in one step. *)

From S2P Require Import Prelude.
Local Open Scope nat_scope.

(** What the process does after the [finally] block. *)
Inductive after_release := BecomeCoordinator | NextAttempt.

Inductive pc :=
| ProbeSocket (attempt : nat)
| AttachClient (attempt : nat)
| ReadLockfile (attempt : nat)
| ProbeLockPid (attempt lockPid : nat)
| MkdirMutex (attempt i : nat)
| WriteMutexPid (attempt : nat)
| ReadMutexPid (attempt i : nat)
| ProbeHolder (attempt i holderPid : nat)
| RemoveStaleMutex (attempt i : nat)
| ReprobeSocket (attempt : nat)
| UnlinkSocket (attempt : nat)
| BindSocket (attempt : nat)
| WriteLockfile (attempt : nat)
| ReleaseMutex (attempt : nat) (k : after_release)
| Coordinator
| Frontend
| ElectionFailed
| Crashed.

(** [mutexDir]: the takeover directory and its pid file; [socketFile]: who bound
    the path last; [lockfile]: the pid it names. *)
Record host := {
  pcs : nat -> pc;
  mutexDir : option (option nat);
  socketFile : option nat;
  lockfile : option nat;
}.

Definition set_pc (p : nat) (c : pc) (s : host) : host := {|
  pcs := fun q => if decide (q = p) then c else pcs s q; mutexDir := mutexDir s;
  socketFile := socketFile s; lockfile := lockfile s |}.
Definition set_mutex m (s : host) : host := {|
  pcs := pcs s; mutexDir := m; socketFile := socketFile s; lockfile := lockfile s |}.
Definition set_socket o (s : host) : host := {|
  pcs := pcs s; mutexDir := mutexDir s; socketFile := o; lockfile := lockfile s |}.
Definition set_lockfile l (s : host) : host := {|
  pcs := pcs s; mutexDir := mutexDir s; socketFile := socketFile s; lockfile := l |}.

Definition alive (s : host) (p : nat) : bool := match pcs s p with Crashed => false | _ => true end.

(** Has bound a listener, wherever its path now leads. *)
Definition listens (c : pc) : bool :=
  match c with WriteLockfile _ | ReleaseMutex _ BecomeCoordinator | Coordinator => true | _ => false end.

(** [platform.connect]: a listener is bound to the path. *)
Definition socket_live (s : host) : bool :=
  match socketFile s with Some p => listens (pcs s p) | None => false end.

Inductive attach_answer := Attached | Refused | Unreachable.

Section election.
Context (maxAttempts : nat).

(** The next iteration of the [for] loop. *)
Definition next_attempt (attempt : nat) : pc :=
  if decide (attempt < maxAttempts) then ProbeSocket (S attempt) else ElectionFailed.

(** [i += 1] in [acquireTakeoverMutex]; [false] after the second round. *)
Definition next_try (attempt i : nat) : pc :=
  if decide (S i < 2) then MkdirMutex attempt (S i) else next_attempt attempt.

(** One operation of process [p]; [ans] is what the coordinator answers to an
    attach. *)
Definition step (p : nat) (ans : attach_answer) (s : host) : host :=
  match pcs s p with
  | ProbeSocket a => set_pc p (if socket_live s then AttachClient a else ReadLockfile a) s
  | AttachClient a =>
      set_pc p match ans with Attached => Frontend | Refused => ElectionFailed | Unreachable => ReadLockfile a end s
  | ReadLockfile a =>
      set_pc p match lockfile s with Some l => ProbeLockPid a l | None => MkdirMutex a 0 end s
  | ProbeLockPid a l =>
      set_pc p (if alive s l && bool_decide (a < maxAttempts) then next_attempt a else MkdirMutex a 0) s
  | MkdirMutex a i =>
      match mutexDir s with
      | None => set_pc p (WriteMutexPid a) (set_mutex (Some None) s)
      | Some _ => set_pc p (ReadMutexPid a i) s
      end
  | WriteMutexPid a => set_pc p (ReprobeSocket a) (set_mutex (Some (Some p)) s)
  | ReadMutexPid a i =>
      set_pc p match mutexDir s with Some (Some q) => ProbeHolder a i q | _ => next_attempt a end s
  | ProbeHolder a i q => set_pc p (if alive s q then next_attempt a else RemoveStaleMutex a i) s
  | RemoveStaleMutex a i => set_pc p (next_try a i) (set_mutex None s)
  | ReprobeSocket a => set_pc p (if socket_live s then ReleaseMutex a NextAttempt else UnlinkSocket a) s
  | UnlinkSocket a => set_pc p (BindSocket a) (set_socket None s)
  | BindSocket a =>
      match socketFile s with
      | None => set_pc p (WriteLockfile a) (set_socket (Some p) s)
      | Some _ => set_pc p (ReleaseMutex a NextAttempt) s
      end
  | WriteLockfile a => set_pc p (ReleaseMutex a BecomeCoordinator) (set_lockfile (Some p) s)
  | ReleaseMutex a k =>
      set_pc p match k with BecomeCoordinator => Coordinator | NextAttempt => next_attempt a end (set_mutex None s)
  | Coordinator | Frontend | ElectionFailed | Crashed => s
  end.

Inductive event := Step (p : nat) (ans : attach_answer) | Crash (p : nat).

Definition run_event (s : host) (e : event) : host :=
  match e with Step p ans => step p ans s | Crash p => set_pc p Crashed s end.

Definition run (evs : list event) (s : host) : host := foldl run_event s evs.

(** Everyone is about to start; a stale socket file and lockfile may be there. *)
Definition fresh_host (sock lock : option nat) : host :=
  {| pcs := fun _ => next_attempt 0; mutexDir := None; socketFile := sock; lockfile := lock |}.
End election.

(** ** Termination *)

(** The call has returned or thrown, or the process is gone. *)
Definition settled (c : pc) : bool :=
  match c with Coordinator | Frontend | ElectionFailed | Crashed => true | _ => false end.

(** How often [p] is scheduled. *)
Fixpoint turns (p : nat) (evs : list event) : nat :=
  match evs with
  | [] => 0
  | Step q _ :: evs => (if decide (q = p) then 1 else 0) + turns p evs
  | Crash _ :: evs => turns p evs
  end.

Section terminates.
Context (maxAttempts : nat).

Definition local_rank (c : pc) : nat :=
  match c with
  | ProbeSocket _ => 15 | AttachClient _ => 14 | ReadLockfile _ => 13 | ProbeLockPid _ _ => 12
  | MkdirMutex _ 0 => 11 | ReadMutexPid _ 0 => 10 | ProbeHolder _ 0 _ => 9 | RemoveStaleMutex _ 0 => 8
  | MkdirMutex _ _ => 7 | WriteMutexPid _ => 6 | ReprobeSocket _ => 5 | UnlinkSocket _ => 4
  | BindSocket _ => 3 | WriteLockfile _ => 2 | ReleaseMutex _ _ => 1
  | ReadMutexPid _ _ => 3 | ProbeHolder _ _ _ => 2 | RemoveStaleMutex _ _ => 1
  | Coordinator | Frontend | ElectionFailed | Crashed => 0
  end.

Definition attempt_of (c : pc) : nat :=
  match c with
  | ProbeSocket a | AttachClient a | ReadLockfile a | ProbeLockPid a _ | MkdirMutex a _ | WriteMutexPid a
  | ReadMutexPid a _ | ProbeHolder a _ _ | RemoveStaleMutex a _ | ReprobeSocket a | UnlinkSocket a
  | BindSocket a | WriteLockfile a | ReleaseMutex a _ => a
  | Coordinator | Frontend | ElectionFailed | Crashed => maxAttempts
  end.

Definition rank (c : pc) : nat := 16 * (maxAttempts - attempt_of c) + local_rank c.

Lemma pcs_set_pc p c s q : pcs (set_pc p c s) q = if decide (q = p) then c else pcs s q.
Proof. done. Qed.

Lemma next_attempt_rank a : rank (next_attempt maxAttempts a) < 16 * (maxAttempts - a) + 1.
Proof. unfold rank, next_attempt. case_decide; cbn [attempt_of local_rank]; lia. Qed.

Lemma step_other p q ans s : q <> p -> pcs (step maxAttempts p ans s) q = pcs s q.
Proof.
  intros Hq. unfold step.
  repeat case_match; subst; rewrite ?pcs_set_pc; cbn; rewrite ?decide_False by done; done.
Qed.

Lemma step_rank p ans s :
  settled (pcs s p) = false -> rank (pcs (step maxAttempts p ans s) p) < rank (pcs s p).
Proof.
  intros Hs. unfold step. destruct (pcs s p) as [a|a|a|a l|a i|a|a i|a i q|a i|a|a|a|a|a k| | | |] eqn:E;
    try done; pose proof (next_attempt_rank a) as Hn; unfold next_try;
    repeat (case_match || case_decide); subst; rewrite ?pcs_set_pc; cbn [pcs set_pc set_mutex set_socket set_lockfile];
    rewrite ?decide_True by done; unfold rank in *; cbn [attempt_of local_rank] in *; try (destruct i); lia.
Qed.

Lemma settled_stays p e s : settled (pcs s p) = true -> settled (pcs (run_event maxAttempts s e) p) = true.
Proof.
  intros Hs. destruct e as [q ans|q]; cbn [run_event].
  - destruct (decide (p = q)) as [->|Hq]; [|by rewrite step_other].
    unfold step. by destruct (pcs s q) eqn:E; rewrite ?E.
  - rewrite pcs_set_pc. by case_decide.
Qed.

Lemma settled_rank c : settled c = true -> rank c = 0.
Proof. unfold rank. destruct c; try done; intros _; cbn [attempt_of local_rank]; lia. Qed.

Lemma enough_turns p evs s :
  rank (pcs s p) <= turns p evs -> settled (pcs (run maxAttempts evs s) p) = true.
Proof.
  revert s. induction evs as [|e evs IH]; intros s; cbn [turns run foldl].
  { unfold rank. intros H. destruct (pcs s p) eqn:E; cbn [settled local_rank turns] in *; try done;
      exfalso; repeat case_match; lia. }
  fold (run maxAttempts evs (run_event maxAttempts s e)). intros H.
  destruct (settled (pcs s p)) eqn:Es.
  { apply IH. pose proof (settled_stays p e s Es) as Hs.
    rewrite (settled_rank _ Hs). lia. }
  apply IH. destruct e as [q ans|q]; cbn [run_event].
  - case_decide; [subst q|by rewrite step_other by done].
    pose proof (step_rank p ans s Es). lia.
  - rewrite pcs_set_pc. case_decide; [|done]. unfold rank. cbn. lia.
Qed.

Lemma fresh_rank sock lock p : rank (pcs (fresh_host maxAttempts sock lock) p) <= 16 * maxAttempts.
Proof. pose proof (next_attempt_rank 0). cbn [pcs fresh_host]. lia. Qed.
End terminates.

(** ** Exclusion *)

(** Between a successful [acquireTakeoverMutex] and the end of [finally]. *)
Definition holds (c : pc) : bool :=
  match c with
  | WriteMutexPid _ | ReprobeSocket _ | UnlinkSocket _ | BindSocket _ | WriteLockfile _ | ReleaseMutex _ _ => true
  | _ => false
  end.

(** Has met neither a listener nor a holder of the mutex. *)
Definition unopposed (c : pc) : bool :=
  match c with ProbeSocket _ | ReadLockfile _ | ProbeLockPid _ _ | MkdirMutex _ _ => true | _ => false end.

Definition never_without_crash (c : pc) : bool :=
  match c with Crashed | RemoveStaleMutex _ _ => true | _ => false end.

Definition no_crash (evs : list event) : Prop := Forall (fun e => exists p ans, e = Step p ans) evs.

Record exclusive (s : host) : Prop := {
  ex_holder : forall p q, holds (pcs s p) = true -> holds (pcs s q) = true -> p = q;
  ex_mutex : forall p, holds (pcs s p) = true -> mutexDir s <> None;
  ex_held : mutexDir s <> None -> exists p, holds (pcs s p) = true;
  ex_socket : forall p, listens (pcs s p) = true -> socketFile s = Some p;
  ex_unlink : forall p a, pcs s p = UnlinkSocket a -> forall q, listens (pcs s q) = false;
  ex_bind : forall p a, pcs s p = BindSocket a -> socketFile s = None;
  ex_crash : forall p, never_without_crash (pcs s p) = false;
  ex_yield : forall p a, pcs s p = ReleaseMutex a NextAttempt -> exists q, listens (pcs s q) = true;
  ex_somebody : (exists q, listens (pcs s q) || holds (pcs s q) = true) \/
                forall p, unopposed (pcs s p) = true;
}.

Section exclusion.
Context (maxAttempts : nat).

Lemma next_attempt_cases a :
  next_attempt maxAttempts a = ElectionFailed \/ next_attempt maxAttempts a = ProbeSocket (S a).
Proof. unfold next_attempt. case_decide; auto. Qed.

Lemma socket_live_spec s : exclusive s ->
  socket_live s = true <-> exists q, listens (pcs s q) = true.
Proof.
  intros I. unfold socket_live. split.
  - destruct (socketFile s) as [q|]; [by exists q|done].
  - intros [q Hq]. by rewrite (ex_socket s I q Hq).
Qed.

(** Process [p] is at [c'] now and the rest is as before, for every other one. *)
Ltac others p :=
  repeat match goal with
  | H : context [decide (?x = p)] |- _ => destruct (decide (x = p)); [subst x|]
  | |- context [decide (?x = p)] => destruct (decide (x = p)); [subst x|]
  end.

Lemma neutral p c' s :
  exclusive s -> holds (pcs s p) = false -> listens (pcs s p) = false ->
  holds c' = false -> listens c' = false -> never_without_crash c' = false ->
  unopposed c' = true \/ (exists q, listens (pcs s q) || holds (pcs s q) = true) ->
  exclusive (set_pc p c' s).
Proof.
  intros I Hh Hl Hh' Hl' Hc' Hn.
  assert (forall q, listens (pcs (set_pc p c' s) q) = listens (pcs s q)) as El.
  { intros q. cbn. others p; congruence. }
  assert (forall q, holds (pcs (set_pc p c' s) q) = holds (pcs s q)) as Eh.
  { intros q. cbn. others p; congruence. }
  split.
  - intros q r. rewrite !Eh. apply (ex_holder s I).
  - intros q. rewrite Eh. apply (ex_mutex s I).
  - intros H. destruct (ex_held s I H) as [q Hq]. exists q. by rewrite Eh.
  - intros q. rewrite El. apply (ex_socket s I).
  - intros q a Hq r. rewrite El. cbn in Hq. others p; [by subst|]. by eapply (ex_unlink s I).
  - intros q a Hq. cbn in Hq. others p; [by subst|]. by eapply (ex_bind s I).
  - intros q. cbn. others p; [done|]. by apply (ex_crash s I).
  - intros q a Hq. cbn in Hq. others p; [by subst|].
    destruct (ex_yield s I q a Hq) as [r Hr]. exists r. by rewrite El.
  - destruct Hn as [Hn|[q Hq]]; [|left; exists q; by rewrite El, Eh].
    destruct (ex_somebody s I) as [[q Hq]|Hall]; [left; exists q; by rewrite El, Eh|].
    right. intros q. cbn. others p; done.
Qed.

Lemma holder_opposed s p : exclusive s -> holds (pcs s p) = true -> forall q, q <> p -> holds (pcs s q) = false.
Proof. intros I Hp q Hq. apply not_true_is_false. intros H. apply Hq. by apply (ex_holder s I). Qed.

Lemma unopposed_quiet c : unopposed c = true -> holds c = false /\ listens c = false.
Proof. by destruct c. Qed.

(** The holder's own moves inside the critical section. *)
Lemma holder_moves p c' m s sock :
  exclusive s -> holds (pcs s p) = true ->
  holds c' = true -> m <> None ->
  sock = socketFile s \/ (forall q, listens (pcs s q) = false) ->
  (listens c' = true -> sock = Some p) -> (listens (pcs s p) = true -> listens c' = true) ->
  (forall a, c' = UnlinkSocket a -> forall q, listens (pcs s q) = false) ->
  (forall a, c' = BindSocket a -> sock = None) ->
  (forall a, c' = ReleaseMutex a NextAttempt -> exists q, listens (pcs s q) = true) ->
  forall lock, exclusive {| pcs := pcs (set_pc p c' s); mutexDir := m; socketFile := sock; lockfile := lock |}.
Proof.
  intros I Hp Hh' Hm Hs Hb Hkeep Hu Hbind Hrel lock.
  pose proof (holder_opposed s p I Hp) as Ho.
  split; cbn.
  - intros q r Hq Hr. others p; try done; rewrite ?Ho in * by done; done.
  - intros q _. done.
  - intros _. exists p. by rewrite decide_True.
  - intros q Hq. others p; [by apply Hb|].
    destruct Hs as [->|Hs]; [by apply (ex_socket s I)|by rewrite Hs in Hq].
  - intros q a Hq r. others p.
    + by subst.
    + by eapply Hu.
    + exfalso. specialize (Ho q ltac:(done)). by rewrite Hq in Ho.
    + exfalso. specialize (Ho q ltac:(done)). by rewrite Hq in Ho.
  - intros q a Hq. others p; [by eapply Hbind|]. specialize (Ho q ltac:(done)). by rewrite Hq in Ho.
  - intros q. others p; [by destruct c'|by apply (ex_crash s I)].
  - intros q a Hq. others p; [|specialize (Ho q ltac:(done)); by rewrite Hq in Ho].
    destruct (Hrel a Hq) as [r Hr]. exists r. others p; [by apply Hkeep|done].
  - left. exists p. rewrite decide_True by done. rewrite Hh'. apply orb_true_r.
Qed.

(** [releaseTakeoverMutex] in [finally]. *)
Lemma release_moves p c' s :
  exclusive s -> holds (pcs s p) = true -> holds c' = false -> never_without_crash c' = false ->
  listens c' = listens (pcs s p) -> (exists q, listens (pcs s q) = true) ->
  exclusive (set_pc p c' (set_mutex None s)).
Proof.
  intros I Hp Hh' Hc' Hl [l Hlis].
  pose proof (holder_opposed s p I Hp) as Ho.
  assert (forall q, listens (pcs (set_pc p c' (set_mutex None s)) q) = listens (pcs s q)) as El.
  { intros q. cbn. others p; congruence. }
  assert (forall q, holds (pcs (set_pc p c' (set_mutex None s)) q) = false) as Eh.
  { intros q. cbn. others p; [done|by apply Ho]. }
  split.
  - intros q r. by rewrite Eh.
  - intros q. by rewrite Eh.
  - done.
  - intros q. rewrite El. apply (ex_socket s I).
  - intros q a Hq. specialize (Eh q). by rewrite Hq in Eh.
  - intros q a Hq. specialize (Eh q). by rewrite Hq in Eh.
  - intros q. cbn. others p; [done|]. by apply (ex_crash s I).
  - intros q a Hq. specialize (Eh q). by rewrite Hq in Eh.
  - left. exists l. by rewrite El, Hlis.
Qed.

(** [mkdir] answers [created]. *)
Lemma mkdir_moves p a s :
  exclusive s -> mutexDir s = None -> unopposed (pcs s p) = true ->
  exclusive (set_pc p (WriteMutexPid a) (set_mutex (Some None) s)).
Proof.
  intros I Hm Hu. destruct (unopposed_quiet _ Hu) as [Hh Hl].
  assert (forall q, holds (pcs s q) = false) as Hn.
  { intros q. apply not_true_is_false. intros Hq. by apply (ex_mutex s I q). }
  assert (forall q, listens (pcs (set_pc p (WriteMutexPid a) (set_mutex (Some None) s)) q) = listens (pcs s q)) as El.
  { intros q. cbn. others p; [by rewrite Hl|done]. }
  split.
  - intros q r. cbn. others p; try done; by rewrite Hn.
  - done.
  - intros _. exists p. cbn. by rewrite decide_True.
  - intros q. rewrite El. apply (ex_socket s I).
  - intros q b. cbn. others p; [done|]. intros Hq. specialize (Hn q). by rewrite Hq in Hn.
  - intros q b. cbn. others p; [done|]. intros Hq. specialize (Hn q). by rewrite Hq in Hn.
  - intros q. cbn. others p; [done|]. by apply (ex_crash s I).
  - intros q b. cbn. others p; [done|]. intros Hq. specialize (Hn q). by rewrite Hq in Hn.
  - left. exists p. cbn. by rewrite decide_True.
Qed.

Lemma step_exclusive p ans s : exclusive s -> exclusive (step maxAttempts p ans s).
Proof.
  intros I. unfold step.
  assert (forall c', holds (pcs s p) = false -> listens (pcs s p) = false ->
            holds c' = false -> listens c' = false -> never_without_crash c' = false ->
            unopposed c' = true \/ (exists q, listens (pcs s q) || holds (pcs s q) = true) ->
            exclusive (set_pc p c' s)) as N by (intros; by apply neutral).
  assert (unopposed (pcs s p) = false -> exists q, listens (pcs s q) || holds (pcs s q) = true) as S.
  { intros H. destruct (ex_somebody s I) as [|Hall]; [done|by rewrite Hall in H]. }
  pose proof (ex_crash s I) as Hc. pose proof (socket_live_spec s I) as SL.
  destruct (pcs s p) as [a|a|a|a l|a i|a|a i|a i q|a i|a|a|a|a|a k| | | |] eqn:E; try done.
  - destruct (socket_live s); apply N; auto. right. destruct (proj1 SL eq_refl) as [q Hq].
    exists q. by rewrite Hq.
  - destruct ans; apply N; auto.
  - destruct (lockfile s); apply N; auto.
  - destruct (alive s l); cbn [andb]; [|apply N; auto].
    case_bool_decide; [|apply N; auto]. unfold next_attempt. rewrite decide_True by done. apply N; auto.
  - destruct (mutexDir s) as [m|] eqn:Em; [|by apply mkdir_moves; rewrite ?E].
    apply N; auto. right. destruct (ex_held s I) as [q Hq]; [by rewrite Em|].
    exists q. rewrite Hq. apply orb_true_r.
  - by apply (holder_moves p _ (Some (Some p)) s (socketFile s)); rewrite ?E; auto.
  - destruct (mutexDir s) as [[q|]|]; [apply N; auto| |]; destruct (next_attempt_cases a) as [-> | ->]; apply N; auto.
  - unfold alive. specialize (Hc q). destruct (pcs s q); try done;
      destruct (next_attempt_cases a) as [-> | ->]; apply N; auto.
  - exfalso. specialize (Hc p). by rewrite E in Hc.
  - destruct (socket_live s) eqn:El.
    + apply (holder_moves p (ReleaseMutex a NextAttempt) (mutexDir s) s (socketFile s));
        rewrite ?E; auto; try done; [apply (ex_mutex s I p); by rewrite E|]. intros _ _. by apply SL.
    + apply (holder_moves p (UnlinkSocket a) (mutexDir s) s (socketFile s));
        rewrite ?E; auto; try done; [apply (ex_mutex s I p); by rewrite E|]. intros _ _ q.
      apply not_true_is_false. intros Hq. enough (false = true) by done. apply SL. by exists q.
  - apply (holder_moves p (BindSocket a) (mutexDir s) s None);
      rewrite ?E; auto; try done; [apply (ex_mutex s I p); by rewrite E|].
    right. by apply (ex_unlink s I p a).
  - rewrite (ex_bind s I p a E).
    apply (holder_moves p (WriteLockfile a) (mutexDir s) s (Some p));
      rewrite ?E; auto; try done; [apply (ex_mutex s I p); by rewrite E|].
    right. intros q. apply not_true_is_false. intros Hq. apply (ex_socket s I) in Hq.
    by rewrite (ex_bind s I p a E) in Hq.
  - apply (holder_moves p (ReleaseMutex a BecomeCoordinator) (mutexDir s) s (socketFile s));
      rewrite ?E; auto; try done; [apply (ex_mutex s I p); by rewrite E|].
    intros _. apply (ex_socket s I). by rewrite E.
  - destruct k.
    + apply release_moves; rewrite ?E; try done. exists p. by rewrite E.
    + destruct (ex_yield s I p a E) as [q Hq].
      destruct (next_attempt_cases a) as [-> | ->]; apply release_moves; rewrite ?E; try done; by exists q.
Qed.

Lemma run_exclusive evs s : no_crash evs -> exclusive s -> exclusive (run maxAttempts evs s).
Proof.
  intros H. revert s. induction H as [|e evs (p & ans & ->) _ IH]; intros s I; [done|].
  apply IH. by apply step_exclusive.
Qed.

Lemma fresh_exclusive sock lock : 1 <= maxAttempts -> exclusive (fresh_host maxAttempts sock lock).
Proof.
  intros H. unfold fresh_host, next_attempt. rewrite decide_True by lia.
  split; cbn; try done. by right.
Qed.
End exclusion.

(** ** After a crash *)

(** Nobody holds the mutex or will ever remove it, and its pid file is missing. *)
Definition wedged (s : host) : Prop :=
  mutexDir s = Some None /\
  forall p, holds (pcs s p) = false /\ listens (pcs s p) = false /\
    match pcs s p with RemoveStaleMutex _ _ | ProbeHolder _ _ _ => False | _ => True end.

Lemma wedged_step maxAttempts s e : wedged s -> wedged (run_event maxAttempts s e).
Proof.
  intros [Hm Hp].
  assert (forall p c, holds c = false -> listens c = false ->
            match c with RemoveStaleMutex _ _ | ProbeHolder _ _ _ => False | _ => True end ->
            wedged (set_pc p c s)) as K.
  { intros p c H1 H2 H3. split; [done|]. intros q. cbn. case_decide; [done|apply Hp]. }
  destruct e as [p ans|p]; cbn [run_event]; [|by apply K].
  unfold step. pose proof (Hp p) as (H1 & H2 & H3).
  destruct (pcs s p) as [a|a|a|a l|a i|a|a i|a i q|a i|a|a|a|a|a k| | | |] eqn:E; try done;
    rewrite ?Hm; try (by apply K; [case_match..|]);
    unfold next_attempt; repeat case_match; try case_decide; by apply K.
Qed.

Lemma wedged_run maxAttempts evs s : wedged s -> wedged (run maxAttempts evs s).
Proof.
  revert s. induction evs as [|e evs IH]; intros s H; [done|]. apply IH. by apply wedged_step.
Qed.

(** Turns of one process, told that it is attached. *)
Definition go (p n : nat) : list event := replicate n (Step p Attached).

(** Process 9 dies between [mkdirExclusive] and the write of its pid. *)
Definition torn_start : list event := go 9 3 ++ [Crash 9].
(** Process 9 dies holding the mutex. *)
Definition crashed_holder : list event := go 9 4 ++ [Crash 9].
(** 0 and 1 both find the holder dead; 0 recovers the mutex up to its last probe,
    1 then removes 0's mutex and does the same. *)
Definition recovery_race : list event := go 0 5 ++ go 1 5 ++ go 0 4 ++ go 1 4 ++ go 0 4 ++ go 1 4.

(** ** Properties *)


(** The election ends.  Whatever the other processes and the files do, crashes
    included, a process that has had sixteen turns per attempt has returned, thrown
    or died. *)
Theorem election_terminates maxAttempts evs sock lock p :
  16 * maxAttempts <= turns p evs ->
  settled (pcs (run maxAttempts evs (fresh_host maxAttempts sock lock)) p) = true.
Proof.
  intros H. apply enough_turns. pose proof (fresh_rank maxAttempts sock lock p). lia.
Qed.

(** A torn mutex wedges the election.  If the first process dies between the
    creation of the takeover directory and the write of its pid, no process ever
    becomes coordinator on this host again: [acquireTakeoverMutex] reads no pid and
    treats the holder as alive, and nothing removes the directory. *)
Theorem torn_mutex_wedges maxAttempts evs p :
  pcs (run maxAttempts (torn_start ++ evs) (fresh_host maxAttempts None None)) p <> Coordinator.
Proof.
  unfold run at 1. rewrite foldl_app. change (foldl (run_event maxAttempts)) with (fun s l => run maxAttempts l s).
  cbv beta. destruct maxAttempts as [|m].
  - assert (forall evs s, (forall q, settled (pcs s q) = true /\ pcs s q <> Coordinator) ->
              pcs (run 0 evs s) p <> Coordinator) as K.
    { clear. intros evs. induction evs as [|e evs IH]; intros s Hs; [apply Hs|]. apply IH. intros q.
      split; [apply settled_stays, Hs|]. destruct e as [r ans|r]; cbn [run_event].
      - destruct (Hs r) as [H1 H2]. unfold step. destruct (pcs s r) eqn:E; try done; apply Hs.
      - cbn. case_decide; [done|apply Hs]. }
    apply K. intros q. cbn. by case_decide.
  - assert (wedged (run (S m) evs (run (S m) torn_start (fresh_host (S m) None None)))) as [_ H].
    { apply wedged_run. split; [done|]. intros q.
      unfold run, torn_start. cbn [go replicate app foldl run_event]. rewrite pcs_set_pc.
      case_decide; [done|]. by rewrite !step_other by done. }
    destruct (H p) as (_ & Hl & _). intros E. by rewrite E in Hl.
Qed.

(** The recovery of a dead holder's mutex is not exclusive.  After a process has
    died holding the mutex, two processes that both found it dead become coordinator
    both: the second [removeDir] takes away the mutex of the first, and its unlink
    the first one's live socket. *)
Theorem recovery_elects_two :
  let s := run 4 (crashed_holder ++ recovery_race) (fresh_host 4 None None) in
  pcs s 0 = Coordinator /\ pcs s 1 = Coordinator /\ socketFile s = Some 1.
Proof. vm_compute. done. Qed.

(** ** Witnesses *)


Lemma election_terminates_witness :
  settled (pcs (run 1 (go 3 16 ++ go 2 1) (fresh_host 1 None None)) 3) = true.
Proof. apply (election_terminates 1 (go 3 16 ++ go 2 1) None None 3). vm_compute. lia. Defined.
