(* ===== verification/TaskTypes.v ===== *)
(** * Tasks of the relay: data

    The queue entry and its parts ([services/relay/src/tasks.ts], [task-claim.ts],
    [task-answer.ts], [packages/protocol/src/index.ts]), and the executor pin
    ([task-pin.ts]).  Fields that no modelled code reads are kept together, as the
    text they serialise to. *)

From Stdlib Require Import String.
From S2P Require Import Prelude JsMap JsString.
Local Open Scope Z_scope.

Inductive AgentTaskStatus :=
| Pending
| Claimed
| Running
| Completed
| Failed
| Denied
| Expired.

#[export] Instance AgentTaskStatus_eq : EqDecision AgentTaskStatus.
Proof. solve_decision. Defined.

Record AgentTask := {
  at_task_id : string;
  at_motebit_id : string;
  prompt : string;
  submitted_at : Z;
  at_submitted_by : option string;
  status : AgentTaskStatus;
  claimed_by : option string;
  required_capabilities : option (list string);
}.

#[export] Instance AgentTask_eq : EqDecision AgentTask.
Proof. solve_decision. Defined.

(** [rc_rest]: what the modelled code does not read, the result included. *)
Record ExecutionReceipt := {
  rc_task_id : string;
  relay_task_id : option string;
  rc_motebit_id : string;
  rc_device_id : option string;
  rc_status : string;
  signature : string;
  result_hash : string;
  rc_rest : string;
}.

#[export] Instance ExecutionReceipt_eq : EqDecision ExecutionReceipt.
Proof. solve_decision. Defined.

(** The door a receipt arrived by. *)
Inductive AnswerDoor :=
| result_post
| mcp_forward
| sub_receipt (parentTaskId : string)
| federation_result (viaPeer : string) (peerKey : option string).

#[export] Instance AnswerDoor_eq : EqDecision AnswerDoor.
Proof. solve_decision. Defined.

Inductive TaskGrantPresenter := ws | by_mcp_forward | submitter.

#[export] Instance TaskGrantPresenter_eq : EqDecision TaskGrantPresenter.
Proof. solve_decision. Defined.

Inductive TaskUndeterminedReason := claimer_lost | forward_unanswered | unanswered_at_expiry.

#[export] Instance TaskUndeterminedReason_eq : EqDecision TaskUndeterminedReason.
Proof. solve_decision. Defined.

Record TaskClaimLease := {
  presenter : option TaskGrantPresenter;
  device_id : string;
  device_verified : bool;
  device_generated : bool;
  authenticated_did : option string;
  expires_at : option Z;
  undetermined_at : option Z;
  undetermined_reason : option TaskUndeterminedReason;
}.

#[export] Instance TaskClaimLease_eq : EqDecision TaskClaimLease.
Proof. solve_decision. Defined.

Inductive settlement_mode_of := relay_mode | p2p_mode.

#[export] Instance settlement_mode_of_eq : EqDecision settlement_mode_of.
Proof. solve_decision. Defined.

(** [te_rest]: prices, payment hashes and proofs; [grant_id] is not stored. *)
Record TaskQueueEntry := {
  task : AgentTask;
  receipt : option ExecutionReceipt;
  expiresAt : Z;
  te_submitted_by : option string;
  origin_relay : option string;
  settled : option bool;
  settling : option string;
  settle_via : option AnswerDoor;
  answer_version : option Z;
  settlement_mode : option settlement_mode_of;
  target_agent : option string;
  pinned_executor : option string;
  planned_peer : option string;
  claim_lease : option TaskClaimLease;
  expired_unclaimed : option Z;
  te_rest : string;
}.

(** ** Field updates *)

Definition set_status (st : AgentTaskStatus) (by_ : option string) (e : TaskQueueEntry) : TaskQueueEntry := {|
  task := {| at_task_id := at_task_id (task e); at_motebit_id := at_motebit_id (task e);
             prompt := prompt (task e); submitted_at := submitted_at (task e);
             at_submitted_by := at_submitted_by (task e); status := st; claimed_by := by_;
             required_capabilities := required_capabilities (task e) |};
  receipt := receipt e; expiresAt := expiresAt e; te_submitted_by := te_submitted_by e;
  origin_relay := origin_relay e; settled := settled e; settling := settling e;
  settle_via := settle_via e; answer_version := answer_version e;
  settlement_mode := settlement_mode e; target_agent := target_agent e;
  pinned_executor := pinned_executor e; planned_peer := planned_peer e;
  claim_lease := claim_lease e; expired_unclaimed := expired_unclaimed e; te_rest := te_rest e |}.

Definition set_lease (l : option TaskClaimLease) (e : TaskQueueEntry) : TaskQueueEntry := {|
  task := task e; receipt := receipt e; expiresAt := expiresAt e; te_submitted_by := te_submitted_by e;
  origin_relay := origin_relay e; settled := settled e; settling := settling e;
  settle_via := settle_via e; answer_version := answer_version e;
  settlement_mode := settlement_mode e; target_agent := target_agent e;
  pinned_executor := pinned_executor e; planned_peer := planned_peer e;
  claim_lease := l; expired_unclaimed := expired_unclaimed e; te_rest := te_rest e |}.

Definition set_expired (since until : Z) (e : TaskQueueEntry) : TaskQueueEntry := {|
  task := task e; receipt := receipt e; expiresAt := until; te_submitted_by := te_submitted_by e;
  origin_relay := origin_relay e; settled := settled e; settling := settling e;
  settle_via := settle_via e; answer_version := answer_version e;
  settlement_mode := settlement_mode e; target_agent := target_agent e;
  pinned_executor := pinned_executor e; planned_peer := planned_peer e;
  claim_lease := claim_lease e; expired_unclaimed := Some since; te_rest := te_rest e |}.

Definition set_planned_peer (p : option string) (e : TaskQueueEntry) : TaskQueueEntry := {|
  task := task e; receipt := receipt e; expiresAt := expiresAt e; te_submitted_by := te_submitted_by e;
  origin_relay := origin_relay e; settled := settled e; settling := settling e;
  settle_via := settle_via e; answer_version := answer_version e;
  settlement_mode := settlement_mode e; target_agent := target_agent e;
  pinned_executor := pinned_executor e; planned_peer := p;
  claim_lease := claim_lease e; expired_unclaimed := expired_unclaimed e; te_rest := te_rest e |}.

(** The answer fields: receipt, status, expiry and settlement claim. *)
Definition set_answer (r : option ExecutionReceipt) (st : AgentTaskStatus) (until : Z)
    (claim : option string) (via : option AnswerDoor) (done : option bool) (e : TaskQueueEntry)
    : TaskQueueEntry :=
  let e' := set_status st (claimed_by (task e)) e in {|
  task := task e'; receipt := r; expiresAt := until; te_submitted_by := te_submitted_by e;
  origin_relay := origin_relay e; settled := done; settling := claim;
  settle_via := via; answer_version := answer_version e;
  settlement_mode := settlement_mode e; target_agent := target_agent e;
  pinned_executor := pinned_executor e; planned_peer := planned_peer e;
  claim_lease := claim_lease e; expired_unclaimed := expired_unclaimed e; te_rest := te_rest e |}.

Definition set_version (v : option Z) (e : TaskQueueEntry) : TaskQueueEntry := {|
  task := task e; receipt := receipt e; expiresAt := expiresAt e; te_submitted_by := te_submitted_by e;
  origin_relay := origin_relay e; settled := settled e; settling := settling e;
  settle_via := settle_via e; answer_version := v;
  settlement_mode := settlement_mode e; target_agent := target_agent e;
  pinned_executor := pinned_executor e; planned_peer := planned_peer e;
  claim_lease := claim_lease e; expired_unclaimed := expired_unclaimed e; te_rest := te_rest e |}.

(** ** The executor pin ([task-pin.ts]) *)

(** [s != null && s !== ""] *)
Definition nonempty (s : option string) : option string :=
  match s with Some EmptyString => None | _ => s end.

Record PinInput := {
  pi_submitter : option string;
  submitterIsIdentity : bool;
  p2p : bool;
  routedTo : string;
  pathAgentId : string;
  explicitTarget : option string;
}.

Definition taskPinOf (input : PinInput) : option string :=
  if p2p input then Some (routedTo input) else
  match explicitTarget input with
  | Some _ => Some (routedTo input)
  | None =>
      match pi_submitter input with
      | Some s =>
          if submitterIsIdentity input && negb (bool_decide (s = pathAgentId input))
          then Some (routedTo input) else None
      | None => None
      end
  end.

Definition pinOf (e : TaskQueueEntry) : option string := nonempty (pinned_executor e).

Definition executorAllowed (pin : option string) (executorId : string) : bool :=
  match pin with None => true | Some p => bool_decide (executorId = p) end.

Definition candidatesUnderPin {T} (pin : option string) (candidates : list T) (idOf : T -> string) : list T :=
  match pin with
  | None => candidates
  | Some p => filter (fun c => idOf c = p) candidates
  end.

Definition pinRefusesAnswer (e : TaskQueueEntry) (signer : string) : bool :=
  negb (executorAllowed (pinOf e) signer).
Definition pinRefusesSettlement (e : TaskQueueEntry) (payee : string) : bool :=
  negb (executorAllowed (pinOf e) payee).
Definition pinRefusesClaim (e : TaskQueueEntry) (claimant : string) : bool :=
  negb (executorAllowed (pinOf e) claimant).

(** ** The payee of a P2P task ([p2p-payee.ts]) *)

Definition p2pPayeeOf (e : TaskQueueEntry) : string :=
  default (at_motebit_id (task e)) (nonempty (target_agent e)).

Definition receiptDischargesP2p (e : TaskQueueEntry) (signerId : string) : bool :=
  bool_decide (signerId = p2pPayeeOf e).
