(* ===== verification/TaskQueue.v ===== *)
(** * The task queue ([services/relay/src/task-queue.ts])

    [TaskQueue] over its tables: the queue, the archived answers, and the two
    settlement tables with the triggers that guard all four.  A trigger that raises
    makes the statement throw, having changed nothing.  The answer capability is
    the privacy of [writeAnswer] to [TaskAnswer]; the allocation markers are not
    modelled. *)

From Stdlib Require Import String.
From S2P Require Import Prelude JsMap JsString TaskTypes.
Local Open Scope Z_scope.
Local Open Scope motebit_scope.

(** A row of [relay_task_queue]: its JSON and receipt columns, and its version. *)
Record queue_row := {
  row_entry : TaskQueueEntry;
  row_version : Z;
}.

(** A row of [relay_task_answers], by [task_id]. *)
Record answer_row := {
  executor_id : string;
  ar_status : string;
  ar_receipt : ExecutionReceipt;
  ar_settling : option string;
  ar_settled : bool;
  ar_version : Z;
  answered_at : Z;
}.

(** What both settlement tables hold that the guards read. *)
Record SettlementNaming := {
  sn_task_id : string;
  receipt_signature : option string;
  receipt_hash : string;
}.

#[export] Instance SettlementNaming_eq : EqDecision SettlementNaming.
Proof. solve_decision. Defined.

Record task_db := {
  relay_task_queue : jsmap string queue_row;
  relay_task_answers : jsmap string answer_row;
  relay_settlements : list SettlementNaming;
  relay_federation_settlements : list SettlementNaming;
}.

Inductive queue_error :=
| AnswerWriteRefused (taskId : string)
| RaiseAbort.

Abbreviation queue_call := (call task_db queue_error).

Definition set_rows (rows : jsmap string queue_row) (d : task_db) : task_db := {|
  relay_task_queue := rows; relay_task_answers := relay_task_answers d;
  relay_settlements := relay_settlements d;
  relay_federation_settlements := relay_federation_settlements d |}.

Definition set_answers (answers : jsmap string answer_row) (d : task_db) : task_db := {|
  relay_task_queue := relay_task_queue d; relay_task_answers := answers;
  relay_settlements := relay_settlements d;
  relay_federation_settlements := relay_federation_settlements d |}.

(** ** Predicates the SQL shares with the code *)

Definition TERMINAL (st : AgentTaskStatus) : bool :=
  match st with Completed | Failed | Denied => true | _ => false end.

(** [answerOf]: the strings it compares, as the values they serialise. *)
Definition answerOf (e : TaskQueueEntry)
    : option ExecutionReceipt * option AgentTaskStatus * option string * option bool :=
  (receipt e, if TERMINAL (status (task e)) then Some (status (task e)) else None, settling e, settled e).

(** [COALESCE(settled, 0) = 0] *)
Definition not_settled (e : TaskQueueEntry) : bool := negb (default false (settled e)).

Definition UNSETTLED_CLAIM_IN_QUEUE (e : TaskQueueEntry) : bool :=
  bool_decide (is_Some (settling e)) && not_settled e.

Definition UNSETTLED_CLAIM_IN_ARCHIVE (a : answer_row) : bool :=
  bool_decide (is_Some (ar_settling a)) && negb (ar_settled a).

Definition heldGrant (e : TaskQueueEntry) : bool :=
  bool_decide (status (task e) = Claimed) && bool_decide (receipt e = None).

Definition unmarkedPending (e : TaskQueueEntry) : bool :=
  bool_decide (status (task e) = Pending) && bool_decide (receipt e = None) &&
  bool_decide (expired_unclaimed e = None).

Definition holdsUnsettledClaim (taskId : string) (d : task_db) : bool :=
  match jm_get taskId (relay_task_queue d) with
  | Some row => UNSETTLED_CLAIM_IN_QUEUE (row_entry row)
  | None => false
  end ||
  match jm_get taskId (relay_task_answers d) with
  | Some a => UNSETTLED_CLAIM_IN_ARCHIVE a
  | None => false
  end.

(** Every settlement row, in either table, that names the task. *)
Definition settlementRowsFor (taskId : string) (d : task_db) : list SettlementNaming :=
  filter (fun s => sn_task_id s = taskId) (relay_settlements d) ++
  filter (fun s => sn_task_id s = taskId) (relay_federation_settlements d).

(** ** Triggers *)

(** [relay_task_queue_answer_update_guard] raises. *)
Definition answer_update_guard (new old : queue_row) : bool :=
  let n := row_entry new in let o := row_entry old in
  (row_version new <? row_version old) || (row_version old + 1 <? row_version new) ||
  ((row_version new =? row_version old) &&
   (negb (bool_decide (receipt n = receipt o)) ||
    (negb (bool_decide (status (task n) = status (task o))) &&
     (TERMINAL (status (task n)) || TERMINAL (status (task o)))) ||
    negb (bool_decide (settled n = settled o)) ||
    negb (bool_decide (settling n = settling o)))).

(** [relay_task_queue_answer_insert_guard] raises. *)
Definition answer_insert_guard (taskId : string) (new : queue_row) (d : task_db) : bool :=
  let n := row_entry new in
  bool_decide (is_Some (jm_get taskId (relay_task_queue d))) ||
  bool_decide (is_Some (receipt n)) || negb (row_version new =? 0) ||
  TERMINAL (status (task n)) || bool_decide (is_Some (settled n)) || bool_decide (is_Some (settling n)).

(** [namesOther(sig)]: a row of the task names a receipt other than [sig]. *)
Definition namesOther (taskId : string) (sig : option string) (d : task_db) : bool :=
  existsb (fun s => match receipt_signature s with
                    | Some t => negb (bool_decide (Some t = sig))
                    | None => false
                    end) (settlementRowsFor taskId d).

(** [relay_task_queue_settled_frozen_guard] raises. *)
Definition settled_frozen_guard (taskId : string) (new old : queue_row) (d : task_db) : bool :=
  let n := row_entry new in let o := row_entry old in
  (negb (bool_decide (receipt n = receipt o)) &&
   ((bool_decide (is_Some (receipt o)) && negb (bool_decide (settlementRowsFor taskId d = []))) ||
    namesOther taskId (signature <$> receipt n) d)) ||
  (negb (bool_decide (settling n = settling o)) && namesOther taskId (settling n) d).

(** [known] and [claimed] of [installSettlementGuards]. *)
Definition task_known (taskId : string) (d : task_db) : bool :=
  bool_decide (is_Some (jm_get taskId (relay_task_queue d))) ||
  bool_decide (is_Some (jm_get taskId (relay_task_answers d))).

Definition claimed_for (taskId : string) (sig : option string) (d : task_db) : bool :=
  match sig with
  | None => false
  | Some sig =>
      match jm_get taskId (relay_task_queue d) with
      | Some row => bool_decide (settling (row_entry row) = Some sig)
      | None => match jm_get taskId (relay_task_answers d) with
                | Some a => bool_decide (ar_settling a = Some sig)
                | None => false
                end
      end
  end.

(** The two triggers on each settlement table raise. *)
Definition settlement_guard (s : SettlementNaming) (d : task_db) : bool :=
  negb (bool_decide (sn_task_id s = EmptyString)) &&
  (negb (bool_decide (settlementRowsFor (sn_task_id s) d = [])) ||
   (task_known (sn_task_id s) d && negb (claimed_for (sn_task_id s) (receipt_signature s) d))).

Inductive SETTLEMENT_TABLE := in_relay_settlements | in_federation_settlements.

(** An [INSERT] of any settlement writer. *)
Definition insert_settlement (table : SETTLEMENT_TABLE) (s : SettlementNaming) : queue_call unit := fun d =>
  if settlement_guard s d then (Throw RaiseAbort, d) else
  (Ok tt, match table with
          | in_relay_settlements =>
              {| relay_task_queue := relay_task_queue d; relay_task_answers := relay_task_answers d;
                 relay_settlements := relay_settlements d ++ [s];
                 relay_federation_settlements := relay_federation_settlements d |}
          | in_federation_settlements =>
              {| relay_task_queue := relay_task_queue d; relay_task_answers := relay_task_answers d;
                 relay_settlements := relay_settlements d;
                 relay_federation_settlements := relay_federation_settlements d ++ [s] |}
          end).

(** ** The queue's operations *)

Definition rowToEntry (row : queue_row) : TaskQueueEntry :=
  set_version (Some (row_version row)) (row_entry row).

Definition get (taskId : string) (d : task_db) : option TaskQueueEntry :=
  rowToEntry <$> jm_get taskId (relay_task_queue d).

(** [writeRow]: the compare-and-set on the version; [false] when it moved on. *)
Definition writeRow (taskId : string) (entry : TaskQueueEntry) (version expectedVersion : Z)
    : queue_call bool := fun d =>
  match jm_get taskId (relay_task_queue d) with
  | None => (Ok false, d)
  | Some old =>
      if negb (row_version old =? expectedVersion) then (Ok false, d) else
      let new := {| row_entry := entry; row_version := version |} in
      if answer_update_guard new old || settled_frozen_guard taskId new old d then (Throw RaiseAbort, d) else
      (Ok true, set_rows (jm_set taskId new (relay_task_queue d)) d)
  end.

Definition insert_row (taskId : string) (entry : TaskQueueEntry) : queue_call unit := fun d =>
  let new := {| row_entry := entry; row_version := 0 |} in
  if answer_insert_guard taskId new d then (Throw RaiseAbort, d) else
  (Ok tt, set_rows (jm_set taskId new (relay_task_queue d)) d).

(** [Map.set] *)
Definition set (taskId : string) (entry : TaskQueueEntry) : queue_call unit := fun d =>
  match jm_get taskId (relay_task_queue d) with
  | None =>
      if negb (default 0 (answer_version entry) =? 0) then (Throw (AnswerWriteRefused taskId), d) else
      if bool_decide (is_Some (receipt entry)) || TERMINAL (status (task entry)) ||
         bool_decide (is_Some (settling entry)) || bool_decide (is_Some (settled entry))
      then (Throw (AnswerWriteRefused taskId), d) else
      insert_row taskId entry d
  | Some row =>
      let stored := rowToEntry row in
      if negb (default 0 (answer_version entry) =? row_version row)
      then (Throw (AnswerWriteRefused taskId), d) else
      if negb (bool_decide (answerOf entry = answerOf stored))
      then (Throw (AnswerWriteRefused taskId), d) else
      (writeRow taskId entry (row_version row) (row_version row) ;! call_ret tt) d
  end.

(** [stmtArchiveAnswer]: an upsert that never goes back a version. *)
Definition archive_answer (taskId : string) (a : answer_row) (d : task_db) : task_db :=
  match jm_get taskId (relay_task_answers d) with
  | Some old =>
      if ar_version old <? ar_version a then set_answers (jm_set taskId a (relay_task_answers d)) d else d
  | None => set_answers (jm_set taskId a (relay_task_answers d)) d
  end.

Definition archived (e : TaskQueueEntry) (r : ExecutionReceipt) (version now : Z) : answer_row := {|
  executor_id := rc_motebit_id r; ar_status := rc_status r; ar_receipt := r;
  ar_settling := settling e; ar_settled := default false (settled e);
  ar_version := version; answered_at := now |}.

(** [writeAnswer], inside its savepoint; [null] when the entry is gone or moved on. *)
Definition writeAnswer (taskId : string) (expectedVersion : Z) (mutate : TaskQueueEntry -> TaskQueueEntry)
    (now : Z) : queue_call (option TaskQueueEntry) := fun d =>
  match get taskId d with
  | None => (Ok None, d)
  | Some stored =>
      if negb (bool_decide (answer_version stored = Some expectedVersion)) then (Ok None, d) else
      let current := set_version (Some (expectedVersion + 1)) (mutate stored) in
      match writeRow taskId current (expectedVersion + 1) expectedVersion d with
      | (Throw e, _) => (Throw e, d)
      | (Ok false, _) => (Ok None, d)
      | (Ok true, d') =>
          (Ok (Some current),
           match receipt current with
           | Some r => archive_answer taskId (archived current r (expectedVersion + 1) now) d'
           | None => d'
           end)
      end
  end.

(** [cleanup]: deletes what is expired and held by nothing. *)
Definition cleanable (now : Z) (e : TaskQueueEntry) : bool :=
  (expiresAt e <? now) && negb (UNSETTLED_CLAIM_IN_QUEUE e) && negb (heldGrant e) && negb (unmarkedPending e).

Definition cleanup (now : Z) (d : task_db) : task_db :=
  set_rows (filter (fun kv => cleanable now (row_entry kv.2) = false) (relay_task_queue d)) d.

Definition unansweredPastExpiry (now : Z) (d : task_db) : list string :=
  jm_keys (filter (fun kv => let e := row_entry kv.2 in
             expiresAt e < now /\ receipt e = None /\
             (status (task e) = Pending \/ status (task e) = Claimed)) (relay_task_queue d)).

Definition evictable (e : TaskQueueEntry) : bool :=
  negb (UNSETTLED_CLAIM_IN_QUEUE e) && negb (heldGrant e).

Definition expires_before (a b : string * queue_row) : Prop := expiresAt (row_entry a.2) <= expiresAt (row_entry b.2).
#[export] Instance expires_before_dec : RelDecision expires_before.
Proof. intros a b. unfold expires_before. apply _. Defined.

(** [evict]: the oldest unheld rows, down to [maxSize] where they suffice. *)
Definition evict (maxSize : nat) (d : task_db) : task_db :=
  let toEvict := (length (relay_task_queue d) - maxSize)%nat in
  let oldest := take toEvict (merge_sort expires_before
                  (filter (fun kv => evictable (row_entry kv.2) = true) (relay_task_queue d))) in
  set_rows (filter (fun kv => kv.1 ∉ jm_keys oldest) (relay_task_queue d)) d.

Definition countBySubmitter (submitterId : string) (d : task_db) : nat :=
  length (filter (fun kv => let e := row_entry kv.2 in
            te_submitted_by e = Some submitterId /\
            (status (task e) = Pending \/ status (task e) = Claimed)) (relay_task_queue d)).
