(* ===== verification/TaskClaims.v ===== *)
(** * Task grants ([services/relay/src/task-claim.ts])

    [TaskClaims]: who a task is granted to.  Its state is the queue and the set of
    leased task ids; a method is one synchronous turn, and every write goes through
    the queue's [set].  Logger events are not modelled. *)

From Stdlib Require Import String.
From S2P Require Import Prelude JsMap JsString TaskTypes TaskQueue.
Local Open Scope Z_scope.
Local Open Scope motebit_scope.

Definition TASK_CLAIM_LEASE_MS : Z := 30000.
Definition EXPIRED_VISIBLE_MS : Z := 24 * 60 * 60 * 1000.

Inductive ClaimVerdict :=
| Granted (lease_ms : option Z)
| NotGranted (reason : string).

(** What a claiming socket says of itself. *)
Record ClaimingPeer := {
  deviceId : string;
  deviceIdVerified : bool;
  capabilities : option (list string);
  authenticatedDid : option string;
  deviceIdDeclared : option bool;
}.

Record TaskClaims := {
  taskQueue : task_db;
  leased : list string;
}.

Abbreviation claims_call := (call TaskClaims queue_error).

Definition queue_set (taskId : string) (entry : TaskQueueEntry) : claims_call unit := fun s =>
  match set taskId entry (taskQueue s) with
  | (Ok tt, d) => (Ok tt, {| taskQueue := d; leased := leased s |})
  | (Throw e, d) => (Throw e, {| taskQueue := d; leased := leased s |})
  end.

Definition queue_get (taskId : string) : claims_call (option TaskQueueEntry) := fun s =>
  (Ok (get taskId (taskQueue s)), s).

Definition leased_add (taskId : string) : claims_call unit := fun s =>
  (Ok tt, {| taskQueue := taskQueue s; leased := js_add taskId (leased s) |}).
Definition leased_delete (taskId : string) : claims_call unit := fun s =>
  (Ok tt, {| taskQueue := taskQueue s; leased := filter (fun t => t <> taskId) (leased s) |}).

(** The constructor: the leases the durable queue holds are adopted again. *)
Definition new_claims (d : task_db) : TaskClaims := {|
  taskQueue := d;
  leased := js_set_of (jm_keys (filter (fun kv =>
    status (task (row_entry kv.2)) = Claimed /\
    is_Some (claim_lease (row_entry kv.2) ≫= expires_at)) (relay_task_queue d))) |}.

Section claims.
Context (leaseMs : Z).

Definition has_capabilities (entry : TaskQueueEntry) (peer : ClaimingPeer) : bool :=
  match default [] (required_capabilities (task entry)), capabilities peer with
  | [], _ | _, None => true
  | required, Some caps => forallb (fun c => bool_decide (c ∈ caps)) required
  end.

(** The lease of a body's grant. *)
Definition ws_lease (peer : ClaimingPeer) (lease : bool) (now : Z) : TaskClaimLease := {|
  presenter := Some ws; device_id := deviceId peer; device_verified := deviceIdVerified peer;
  device_generated := bool_decide (deviceIdDeclared peer = Some false);
  authenticated_did := match authenticatedDid peer with
                       | Some did => if bool_decide (did = deviceId peer) then None else Some did
                       | None => None
                       end;
  expires_at := if lease then Some (now + leaseMs) else None;
  undetermined_at := None; undetermined_reason := None |}.

Definition claim (taskId motebitId : string) (peer : ClaimingPeer) (lease : bool) (now : Z)
    : claims_call ClaimVerdict :=
  let! entry := queue_get taskId in
  match entry with
  | None => call_ret (NotGranted "Task not found")
  | Some entry =>
      if negb (bool_decide (at_motebit_id (task entry) = motebitId))
      then call_ret (NotGranted "Task not found") else
      if pinRefusesClaim entry motebitId then call_ret (NotGranted "not_pinned_executor") else
      if negb (bool_decide (status (task entry) = Pending)) || bool_decide (is_Some (receipt entry))
      then call_ret (NotGranted "already_claimed") else
      if bool_decide (is_Some (expired_unclaimed entry)) then call_ret (NotGranted "expired") else
      if negb (has_capabilities entry peer)
      then call_ret (NotGranted "Device lacks required capabilities") else
      queue_set taskId (set_lease (Some (ws_lease peer lease now))
                          (set_status Claimed (Some (deviceId peer)) entry)) ;!
      if lease then leased_add taskId ;! call_ret (Granted (Some leaseMs))
      else call_ret (Granted None)
  end.

(** [{ ...held, expires_at }] with [undetermined_at] left out. *)
Definition renewed (now : Z) (l : TaskClaimLease) : TaskClaimLease := {|
  presenter := presenter l; device_id := device_id l; device_verified := device_verified l;
  device_generated := device_generated l; authenticated_did := authenticated_did l;
  expires_at := Some (now + leaseMs); undetermined_at := None;
  undetermined_reason := undetermined_reason l |}.

Definition renew (taskId motebitId devId : string) (now : Z) : claims_call bool :=
  let! entry := queue_get taskId in
  match entry with
  | None => call_ret false
  | Some entry =>
      match claim_lease entry with
      | None => call_ret false
      | Some lease =>
          if negb (bool_decide (at_motebit_id (task entry) = motebitId)) ||
             negb (bool_decide (status (task entry) = Claimed)) ||
             bool_decide (expires_at lease = None) ||
             negb (bool_decide (device_id lease = devId))
          then call_ret false else
          queue_set taskId (set_lease (Some (renewed now lease)) entry) ;!
          leased_add taskId ;!
          call_ret true
      end
  end.

(** A grant without a lease: no expiry, nothing proven. *)
Definition bare_lease (p : TaskGrantPresenter) (id : string) : TaskClaimLease := {|
  presenter := Some p; device_id := id; device_verified := false; device_generated := false;
  authenticated_did := None; expires_at := None; undetermined_at := None;
  undetermined_reason := None |}.

Definition mcp_id (workerId : string) : string := String.append "mcp:" workerId.

Definition grantForward (taskId workerId : string) : claims_call bool :=
  let! entry := queue_get taskId in
  match entry with
  | None => call_ret false
  | Some entry =>
      if negb (bool_decide (status (task entry) = Pending)) || bool_decide (is_Some (receipt entry)) ||
         bool_decide (is_Some (expired_unclaimed entry)) then call_ret false else
      if pinRefusesClaim entry workerId then call_ret false else
      queue_set taskId (set_lease (Some (bare_lease by_mcp_forward (mcp_id workerId)))
                          (set_status Claimed (Some (mcp_id workerId)) entry)) ;!
      call_ret true
  end.

Definition mark_undetermined (now : Z) (why : TaskUndeterminedReason) (l : TaskClaimLease) : TaskClaimLease := {|
  presenter := presenter l; device_id := device_id l; device_verified := device_verified l;
  device_generated := device_generated l; authenticated_did := authenticated_did l;
  expires_at := expires_at l; undetermined_at := Some now; undetermined_reason := Some why |}.

(** [called]: the request that can run the task was sent. *)
Definition forwardEnded (taskId : string) (called : bool) (now : Z) : claims_call (option TaskQueueEntry) :=
  let! entry := queue_get taskId in
  match entry with
  | None => call_ret None
  | Some entry =>
      match claim_lease entry with
      | None => call_ret None
      | Some lease =>
          if bool_decide (is_Some (receipt entry)) || negb (bool_decide (status (task entry) = Claimed)) ||
             negb (bool_decide (presenter lease = Some by_mcp_forward)) then call_ret None else
          if negb called then
            let released := set_lease None (set_status Pending None entry) in
            queue_set taskId released ;! call_ret (Some released)
          else if bool_decide (undetermined_at lease = None) then
            queue_set taskId (set_lease (Some (mark_undetermined now forward_unanswered lease)) entry) ;!
            call_ret None
          else call_ret None
      end
  end.

Definition holdsUnresolvedGrant (taskId : string) : claims_call bool :=
  let! entry := queue_get taskId in
  call_ret match entry with
           | Some entry => bool_decide (receipt entry = None) && bool_decide (status (task entry) = Claimed)
           | None => false
           end.

(** The lease an expired grant is marked on; the claim itself when it has none. *)
Definition lapsed_lease (now : Z) (entry : TaskQueueEntry) : TaskClaimLease :=
  match claim_lease entry with
  | Some lease =>
      mark_undetermined now (if bool_decide (is_Some (expires_at lease)) then claimer_lost
                             else unanswered_at_expiry) lease
  | None => {| presenter := None; device_id := default "unknown"%string (claimed_by (task entry));
               device_verified := false; device_generated := false; authenticated_did := None;
               expires_at := None; undetermined_at := Some now;
               undetermined_reason := Some unanswered_at_expiry |}
  end.

(** [lease?.expires_at != null && lease.expires_at > now] *)
Definition lease_live (now : Z) (entry : TaskQueueEntry) : bool :=
  match claim_lease entry ≫= expires_at with Some t => now <? t | None => false end.

(** The body of [expire]'s loop; whether it changed the entry. *)
Definition expire_one (now : Z) (taskId : string) : claims_call bool :=
  let! entry := queue_get taskId in
  match entry with
  | None => call_ret false
  | Some entry =>
      if bool_decide (is_Some (receipt entry)) || (now <=? expiresAt entry) then call_ret false else
      if bool_decide (status (task entry) = Pending) then
        if bool_decide (is_Some (expired_unclaimed entry)) then call_ret false else
        queue_set taskId (set_expired now (now + EXPIRED_VISIBLE_MS) entry) ;! call_ret true
      else if negb (bool_decide (status (task entry) = Claimed)) then call_ret false else
      if bool_decide (is_Some (claim_lease entry ≫= undetermined_at)) then call_ret false else
      if lease_live now entry then call_ret false else
      queue_set taskId (set_lease (Some (lapsed_lease now entry)) entry) ;! call_ret true
  end.

(** A [for] loop over ids, collecting those its body changed. *)
Fixpoint each_changed (body : string -> claims_call bool) (ids : list string) : claims_call (list string) :=
  match ids with
  | [] => call_ret []
  | taskId :: ids =>
      let! changed := body taskId in
      let! rest := each_changed body ids in
      call_ret (if changed then taskId :: rest else rest)
  end.

Definition expire (now : Z) : claims_call (list string) := fun s =>
  each_changed (expire_one now) (unansweredPastExpiry now (taskQueue s)) s.

(** The body of [sweep]'s loop; whether the task was marked. *)
Definition sweep_one (now : Z) (taskId : string) : claims_call bool :=
  let! entry := queue_get taskId in
  match entry with
  | None => leased_delete taskId ;! call_ret false
  | Some entry =>
      match claim_lease entry with
      | None => leased_delete taskId ;! call_ret false
      | Some lease =>
          match expires_at lease with
          | None => leased_delete taskId ;! call_ret false
          | Some t =>
              if bool_decide (is_Some (receipt entry)) || negb (bool_decide (status (task entry) = Claimed)) ||
                 bool_decide (is_Some (undetermined_at lease))
              then leased_delete taskId ;! call_ret false else
              if now <? t then call_ret false else
              leased_delete taskId ;!
              queue_set taskId (set_lease (Some (mark_undetermined now claimer_lost lease)) entry) ;!
              call_ret true
          end
      end
  end.

Definition sweep (now : Z) : claims_call (list string) := fun s => each_changed (sweep_one now) (leased s) s.
End claims.

(** ** What the delegator's poll and the answer door read *)

(** The reason and since when. *)
Definition undeterminedOf (entry : TaskQueueEntry) : option (TaskUndeterminedReason * Z) :=
  match claim_lease entry ≫= undetermined_at with
  | None => None
  | Some since =>
      if bool_decide (is_Some (receipt entry)) then None else
      Some (default claimer_lost (claim_lease entry ≫= undetermined_reason), since)
  end.

Definition expiredOf (entry : TaskQueueEntry) : option Z :=
  match expired_unclaimed entry with
  | None => None
  | Some since => if bool_decide (is_Some (receipt entry)) then None else Some since
  end.

Definition submitter_id (s : option string) : string := String.append "submitter:" (default "operator"%string s).

Definition grantToSubmitter (entry : TaskQueueEntry) (submitter : option string) : TaskQueueEntry :=
  set_lease (Some (bare_lease TaskTypes.submitter (submitter_id submitter)))
    (set_status Claimed (Some (submitter_id submitter)) entry).

Definition claimNamesAnswerer (entry : TaskQueueEntry) : bool :=
  match claim_lease entry with
  | None => false
  | Some lease => bool_decide (presenter lease = None) || bool_decide (presenter lease = Some ws)
  end.

Definition claimBindsSignedAnswerer (entry : TaskQueueEntry) : bool :=
  claimNamesAnswerer entry &&
  negb match claim_lease entry with Some lease => device_generated lease | None => false end.

Definition claimRefusesAnswer (entry : TaskQueueEntry) (did : option string) : bool :=
  match claim_lease entry, did with
  | Some lease, Some did =>
      if negb (claimNamesAnswerer entry) then false else
      negb (bool_decide (did = device_id lease)) && negb (bool_decide (Some did = authenticated_did lease))
  | _, _ => false
  end.
