(* ===== verification/TaskAnswer.v ===== *)
(** * A task's answer and its settlement ([services/relay/src/task-answer.ts])

    [answerTask] and [admitReceipt], cut where they await: what is checked before
    the signature is verified ([answer_checks]), what is decided and written after
    it in one turn ([answer_write]), and the two ends of the settlement step.  The
    routing record and the signature's verification are parameters; the archive of
    receipt trees is not modelled. *)

From Stdlib Require Import String.
From S2P Require Import Prelude JsMap JsString TaskTypes TaskQueue TaskClaims.
Local Open Scope Z_scope.
Local Open Scope motebit_scope.

Inductive AnswerRefusal :=
| gone
| not_bound
| not_payee
| not_pinned_executor
| not_routed
| no_key
| bad_signature
| answered
| claimed_by_other.

(** [{ did }]: the presenting token's device, absent under the master token. *)
Abbreviation AnswerPresenter := (option string).

Inductive AnswerVerdict :=
| Took (entry : TaskQueueEntry) (first replaced repeat : bool)
| Refused (refusal : AnswerRefusal) (answer : option ExecutionReceipt).

(** [receiptRelayTaskId] of [task-routing.ts]. *)
Definition receiptRelayTaskId (r : ExecutionReceipt) : string :=
  default (rc_task_id r) (nonempty (relay_task_id r)).

Definition answeringDid (current : TaskQueueEntry) (presenter : AnswerPresenter) (r : ExecutionReceipt)
    : option string :=
  match presenter with
  | Some did => Some did
  | None =>
      if negb (claimBindsSignedAnswerer current) then None else
      Some (default EmptyString (rc_device_id r))
  end.

Definition statusOf (r : ExecutionReceipt) : AgentTaskStatus :=
  if bool_decide (rc_status r = "completed"%string) then Completed else
  if bool_decide (rc_status r = "denied"%string) then Denied else Failed.

Definition rowNames (row : SettlementNaming) (r : ExecutionReceipt) : bool :=
  match receipt_signature row with
  | Some sig => bool_decide (sig = signature r)
  | None =>
      negb (bool_decide (receipt_hash row = EmptyString)) &&
      (bool_decide (receipt_hash row = result_hash r) || bool_decide (receipt_hash row = signature r))
  end.

Definition answerFrozen (d : task_db) (entry : TaskQueueEntry) (taskId : string) : bool :=
  if bool_decide (settled entry = Some true) || bool_decide (is_Some (nonempty (settling entry))) then true
  else negb (bool_decide (settlementRowsFor taskId d = [])).

Inductive answer_rule := RuleTake | RuleReplace | RuleRepeat | RuleAnswered.

Definition answerRule (prior : option ExecutionReceipt) (frozen : bool) (incoming : ExecutionReceipt)
    : answer_rule :=
  match prior with
  | Some p =>
      if bool_decide (signature p = signature incoming) && bool_decide (rc_motebit_id p = rc_motebit_id incoming)
      then RuleRepeat else
      if frozen then RuleAnswered else
      if negb (bool_decide (rc_status p = "completed"%string)) && bool_decide (rc_status incoming = "completed"%string)
      then RuleReplace else RuleAnswered
  | None => if frozen then RuleAnswered else RuleTake
  end.

Section answer.
(** [isRoutedExecutor] at the door's origin, on the entry read. *)
Context (routed : TaskQueueEntry -> ExecutionReceipt -> AnswerDoor -> bool).
(** Key resolution and Ed25519 verification: a refusal, or the key. *)
Context (verify : ExecutionReceipt -> AnswerDoor -> AnswerRefusal + string).

Definition verifySignature (r : ExecutionReceipt) (door : AnswerDoor) : AnswerRefusal + string :=
  if bool_decide (signature r = EmptyString) then inl bad_signature else verify r door.

(** Steps 1 to 4 of [answerTask]: the refusal, if any. *)
Definition answer_checks (taskId : string) (r : ExecutionReceipt) (door : AnswerDoor) (d : task_db)
    : option AnswerRefusal :=
  match get taskId d with
  | None => Some gone
  | Some entry =>
      if negb (bool_decide (receiptRelayTaskId r = taskId)) then Some not_bound else
      if bool_decide (settlement_mode entry = Some p2p_mode) && negb (receiptDischargesP2p entry (rc_motebit_id r))
      then Some not_payee else
      if pinRefusesAnswer entry (rc_motebit_id r) then Some not_pinned_executor else
      if negb (routed entry r door) then Some not_routed else
      match verifySignature r door with
      | inl refusal => Some refusal
      | inr _ => None
      end
  end.
End answer.

(** The mutations [answerTask] writes. *)
Definition take_answer (r : ExecutionReceipt) (door : AnswerDoor) (until : Z) (e : TaskQueueEntry) : TaskQueueEntry :=
  set_answer (Some r) (statusOf r) (Z.max (expiresAt e) until) (Some (signature r)) (Some door) (settled e) e.
Definition adopt_answer (r : ExecutionReceipt) (door : AnswerDoor) (until : Z) (e : TaskQueueEntry) : TaskQueueEntry :=
  set_answer (Some r) (statusOf r) (Z.max (expiresAt e) until) (Some (signature r)) (Some door) (Some true) e.
Definition claim_answer (sig : string) (door : AnswerDoor) (e : TaskQueueEntry) : TaskQueueEntry :=
  set_answer (receipt e) (status (task e)) (expiresAt e) (Some sig) (Some door) (settled e) e.
Definition mark_settled (sig : string) (e : TaskQueueEntry) : TaskQueueEntry :=
  set_answer (receipt e) (status (task e)) (expiresAt e) (Some sig) (settle_via e) (Some true) e.

(** Step 5 of [answerTask], with the read it starts from.  [presenter]: present on
    a result POST. *)
Definition answer_write (taskId : string) (r : ExecutionReceipt) (door : AnswerDoor) (retainMs : Z)
    (presenter : option AnswerPresenter) (now : Z) : queue_call AnswerVerdict := fun d =>
  match get taskId d with
  | None => (Ok (Refused gone None), d)
  | Some current =>
      if match presenter with
         | Some p => claimRefusesAnswer current (answeringDid current p r)
         | None => false
         end then (Ok (Refused claimed_by_other None), d) else
      let version := default 0 (answer_version current) in
      let rows := settlementRowsFor taskId d in
      if bool_decide (receipt current = None) && negb (bool_decide (rows = [])) then
        if negb (forallb (fun row => rowNames row r) rows &&
                 (bool_decide (settling current = None) || bool_decide (settling current = Some (signature r))))
        then (Ok (Refused answered None), d) else
        (let! adopted := writeAnswer taskId version (adopt_answer r door (now + retainMs)) now in
         match adopted with
         | None => call_ret (Refused answered None)
         | Some e => call_ret (Took e true false false)
         end) d
      else
      match answerRule (receipt current) (answerFrozen d current taskId) r with
      | RuleAnswered => (Ok (Refused answered (receipt current)), d)
      | RuleRepeat =>
          if negb (bool_decide (settled current = Some true)) && bool_decide (settling current = None) then
            (let! e := writeAnswer taskId version (claim_answer (signature r) door) now in
             call_ret (Took (default current e) false false true)) d
          else (Ok (Took current false false true), d)
      | (RuleTake | RuleReplace) as rule =>
          (let! written := writeAnswer taskId version (take_answer r door (now + retainMs)) now in
           match written with
           | None => call_ret (Refused answered None)
           | Some e => call_ret (Took e match rule with RuleTake => true | _ => false end
                                        match rule with RuleReplace => true | _ => false end false)
           end) d
      end
  end.

Definition claimStoredAnswer (taskId : string) (door : AnswerDoor) (now : Z)
    : queue_call (option TaskQueueEntry) := fun d =>
  match get taskId d with
  | None => (Ok None, d)
  | Some current =>
      match receipt current with
      | None => (Ok None, d)
      | Some r =>
          if bool_decide (is_Some (nonempty (settling current))) then (Ok (Some current), d) else
          (let! claimed := writeAnswer taskId (default 0 (answer_version current))
                             (claim_answer (signature r) door) now in
           match claimed with
           | Some e => call_ret (Some e)
           | None => fun d => (Ok (get taskId d), d)
           end) d
      end
  end.

Definition markTaskSettled (taskId receiptSignature : string) (now : Z) : queue_call unit := fun d =>
  match get taskId d with
  | None => (Ok tt, d)
  | Some current =>
      if bool_decide (settled current = Some true) then (Ok tt, d) else
      if negb (bool_decide (settling current = Some receiptSignature)) then (Ok tt, d) else
      (writeAnswer taskId (default 0 (answer_version current)) (mark_settled receiptSignature) now ;!
       call_ret tt) d
  end.

(** Where [admitReceipt] goes once the entry took the receipt. *)
Inductive admission :=
| AlreadySettled
| UnclaimedAnswer
| NotPinnedExecutor
| Duplicate
| ToSettle (answer : ExecutionReceipt).

(** [admitReceipt] from the verdict to its settlement step; [entry] is the verdict's. *)
Definition admit_taken (taskId : string) (entry : TaskQueueEntry) (now : Z) : queue_call admission := fun d =>
  match receipt entry with
  | None => (Ok UnclaimedAnswer, d)
  | Some answer =>
      if bool_decide (settled entry = Some true) then (Ok AlreadySettled, d) else
      if negb (bool_decide (settling entry = Some (signature answer))) then (Ok UnclaimedAnswer, d) else
      if pinRefusesSettlement entry (rc_motebit_id answer) then (Ok NotPinnedExecutor, d) else
      if negb (bool_decide (settlementRowsFor taskId d = []))
      then (markTaskSettled taskId (signature answer) now ;! call_ret Duplicate) d
      else (Ok (ToSettle answer), d)
  end.

(** After the settlement step: [done], that its decision is complete. *)
Definition admit_settled (taskId : string) (answer : ExecutionReceipt) (done : bool) (now : Z) : queue_call unit :=
  if done then markTaskSettled taskId (signature answer) now else call_ret tt.
