(* ===== verification/TaskRelay.v ===== *)
(** * The relay's tasks as one system

    The queue, the grants and the answer door together ([TaskQueue], [TaskClaims],
    [TaskAnswer]): an event is one synchronous turn of the relay, and turns come in
    any order.  A call that awaits leaves a continuation, resumed by a later event
    or lost in a restart.  The history records admissions, grants and releases. *)

From Stdlib Require Import String.
From S2P Require Import Prelude JsMap JsString TaskTypes TaskQueue TaskClaims TaskAnswer.
Local Open Scope Z_scope.
Local Open Scope motebit_scope.

(** A suspended [admitReceipt]: after the signature's verification, after
    [answerTask], in its settlement step. *)
Inductive turn :=
| Verified (taskId : string) (r : ExecutionReceipt) (door : AnswerDoor) (retainMs : Z)
    (presenter : option AnswerPresenter)
| Taken (taskId : string) (entry : TaskQueueEntry)
| Settling (taskId : string) (answer : ExecutionReceipt).

Inductive happening :=
| TaskAdmitted (taskId : string) (entry : TaskQueueEntry)
| GrantedTo (taskId : string) (p : TaskGrantPresenter)
| Released (taskId : string).

(** [forwards]: MCP forwards that hold a grant and have not ended. *)
Record relay := {
  claims : TaskClaims;
  forwards : list string;
  turns : list turn;
  history : list happening;
}.

Fixpoint remove_first (x : string) (l : list string) : list string :=
  match l with
  | [] => []
  | y :: l => if decide (x = y) then l else y :: remove_first x l
  end.

Definition db (s : relay) : task_db := taskQueue (claims s).

Definition fresh_relay : relay := {|
  claims := new_claims {| relay_task_queue := []; relay_task_answers := [];
                          relay_settlements := []; relay_federation_settlements := [] |};
  forwards := []; turns := []; history := [] |}.

Definition set_claims (c : TaskClaims) (s : relay) : relay := {|
  claims := c; forwards := forwards s; turns := turns s; history := history s |}.
Definition set_db (d : task_db) (s : relay) : relay :=
  set_claims {| taskQueue := d; leased := leased (claims s) |} s.
Definition happen (h : happening) (s : relay) : relay := {|
  claims := claims s; forwards := forwards s; turns := turns s; history := history s ++ [h] |}.
Definition set_forwards (f : list string) (s : relay) : relay := {|
  claims := claims s; forwards := f; turns := turns s; history := history s |}.
Definition set_turns (t : list turn) (s : relay) : relay := {|
  claims := claims s; forwards := forwards s; turns := t; history := history s |}.

(** What a submission or a peer's forward says of the task it admits. *)
Record admission_terms := {
  ad_motebit_id : string;
  ad_prompt : string;
  ad_submitted_by : option string;
  ad_task_submitted_by : option string;
  ad_required_capabilities : option (list string);
  ad_origin_relay : option string;
  ad_settlement_mode : option settlement_mode_of;
  ad_target_agent : option string;
  ad_pinned_executor : option string;
  ad_planned_peer : option string;
  ad_rest : string;
}.

(** The entry both admission doors queue. *)
Definition queued_entry (taskId : string) (a : admission_terms) (now ttl : Z) : TaskQueueEntry := {|
  task := {| at_task_id := taskId; at_motebit_id := ad_motebit_id a; prompt := ad_prompt a;
             submitted_at := now; at_submitted_by := ad_task_submitted_by a; status := Pending;
             claimed_by := None; required_capabilities := ad_required_capabilities a |};
  receipt := None; expiresAt := now + ttl; te_submitted_by := ad_submitted_by a;
  origin_relay := ad_origin_relay a; settled := None; settling := None; settle_via := None;
  answer_version := None; settlement_mode := ad_settlement_mode a;
  target_agent := ad_target_agent a; pinned_executor := ad_pinned_executor a;
  planned_peer := ad_planned_peer a; claim_lease := None; expired_unclaimed := None;
  te_rest := ad_rest a |}.

Definition admitted_before (taskId : string) (s : relay) : bool :=
  existsb (fun h => match h with TaskAdmitted t _ => bool_decide (t = taskId) | _ => false end) (history s).

Section relay.
Context (leaseMs : Z).
Context (routed : TaskQueueEntry -> ExecutionReceipt -> AnswerDoor -> bool).
Context (verify : ExecutionReceipt -> AnswerDoor -> AnswerRefusal + string).

Inductive event :=
| Admit (taskId : string) (a : admission_terms) (now ttl : Z) (submitterPresents : bool)
| Claim (taskId motebitId : string) (peer : ClaimingPeer) (lease : bool) (now : Z)
| Renew (taskId motebitId devId : string) (now : Z)
| GrantForward (taskId workerId : string)
| ForwardEnded (taskId : string) (called : bool) (now : Z)
| Expire (now : Z)
| Sweep (now : Z)
| Cleanup (now : Z)
| Evict (maxSize : nat)
| ReceiptIn (taskId : string) (r : ExecutionReceipt) (door : AnswerDoor) (retainMs : Z)
    (presenter : option AnswerPresenter)
| Resume (i : nat) (done : bool) (now : Z)
| ClaimStored (taskId : string) (door : AnswerDoor) (now : Z)
| SettlementRow (table : SETTLEMENT_TABLE) (row : SettlementNaming)
| PlannedPeerRefused (taskId : string)
| Restart.

(** A method of [TaskClaims]; [k] sees its answer. *)
Definition on_claims {A} (m : claims_call A) (k : A -> relay -> relay) (s : relay) : relay :=
  match m (claims s) with
  | (Ok a, c) => k a (set_claims c s)
  | (Throw _, c) => set_claims c s
  end.

Definition on_queue {A} (m : queue_call A) (k : A -> relay -> relay) (s : relay) : relay :=
  match m (db s) with
  | (Ok a, d) => k a (set_db d s)
  | (Throw _, d) => set_db d s
  end.

Definition nothing {A} (_ : A) (s : relay) : relay := s.

Definition add_turn (t : turn) (s : relay) : relay := set_turns (turns s ++ [t]) s.

(** What a suspended call does next. *)
Definition resume (t : turn) (done : bool) (now : Z) : relay -> relay :=
  match t with
  | Verified taskId r door retainMs presenter =>
      on_queue (answer_write taskId r door retainMs presenter now)
        (fun v => match v with Took entry _ _ _ => add_turn (Taken taskId entry) | Refused _ _ => id end)
  | Taken taskId entry =>
      on_queue (admit_taken taskId entry now)
        (fun a => match a with ToSettle answer => add_turn (Settling taskId answer) | _ => id end)
  | Settling taskId answer => on_queue (admit_settled taskId answer done now) nothing
  end.

(** [tasks.ts]: the peer refused the forward, so no result can come from it. *)
Definition planned_peer_refused (taskId : string) : queue_call unit := fun d =>
  match get taskId d with
  | Some e => if bool_decide (is_Some (planned_peer e)) then set taskId (set_planned_peer None e) d else (Ok tt, d)
  | None => (Ok tt, d)
  end.

(** A task id is minted by the relay, and a peer's is refused when it was used:
    an id is admitted once. *)
Definition admit_task (taskId : string) (a : admission_terms) (now ttl : Z) (submitterPresents : bool) (s : relay)
    : relay :=
  if admitted_before taskId s then s else
  let e := queued_entry taskId a now ttl in
  let queued := if submitterPresents then grantToSubmitter e (ad_submitted_by a) else e in
  on_queue (set taskId queued)
    (fun _ s => let s := happen (TaskAdmitted taskId e) s in
                if submitterPresents then happen (GrantedTo taskId submitter) s else s) s.

Definition run_event (s : relay) (ev : event) : relay :=
  match ev with
  | Admit taskId a now ttl submitterPresents => admit_task taskId a now ttl submitterPresents s
  | Claim taskId motebitId peer lease now =>
      on_claims (claim leaseMs taskId motebitId peer lease now)
        (fun v => match v with Granted _ => happen (GrantedTo taskId ws) | NotGranted _ => id end) s
  | Renew taskId motebitId devId now => on_claims (renew leaseMs taskId motebitId devId now) nothing s
  | GrantForward taskId workerId =>
      on_claims (grantForward taskId workerId)
        (fun ok s => if ok : bool then happen (GrantedTo taskId by_mcp_forward) (set_forwards (taskId :: forwards s) s)
                     else s) s
  | ForwardEnded taskId called now =>
      if bool_decide (taskId ∈ forwards s) then
        let s := set_forwards (remove_first taskId (forwards s)) s in
        on_claims (forwardEnded taskId called now) nothing (if called then s else happen (Released taskId) s)
      else s
  | Expire now => on_claims (expire now) nothing s
  | Sweep now => on_claims (sweep now) nothing s
  | Cleanup now => set_db (cleanup now (db s)) s
  | Evict maxSize => set_db (evict maxSize (db s)) s
  | ReceiptIn taskId r door retainMs presenter =>
      match answer_checks routed verify taskId r door (db s) with
      | None => add_turn (Verified taskId r door retainMs presenter) s
      | Some _ => s
      end
  | Resume i done now =>
      match turns s !! i with
      | Some t => resume t done now (set_turns (delete i (turns s)) s)
      | None => s
      end
  | ClaimStored taskId door now => on_queue (claimStoredAnswer taskId door now) nothing s
  | SettlementRow table row => on_queue (insert_settlement table row) nothing s
  | PlannedPeerRefused taskId => on_queue (planned_peer_refused taskId) nothing s
  | Restart => {| claims := new_claims (db s); forwards := []; turns := []; history := history s |}
  end.

Definition run (evs : list event) (s : relay) : relay := foldl run_event s evs.
End relay.
