(* ===== verification/TaskLaws.v ===== *)
(** * What each turn does to one task

    The view of a task is its queue entry and its archived answer.  [evolves] is
    what a turn that grants nothing may do to it; [view_ok] is the invariant of the
    answer, and every write of [TaskQueue] is computed under it. *)

From Stdlib Require Import String.
From S2P Require Import Prelude JsMap JsString TaskTypes TaskQueue TaskClaims TaskAnswer.
Local Open Scope Z_scope.
Local Open Scope motebit_scope.

Abbreviation task_view := (option TaskQueueEntry * option answer_row)%type.

Definition answer_for (taskId : string) (d : task_db) : option answer_row :=
  jm_get taskId (relay_task_answers d).

Definition view (taskId : string) (d : task_db) : task_view := (get taskId d, answer_for taskId d).

(** What admission fixed. *)
Definition same_terms (e e' : TaskQueueEntry) : Prop :=
  at_motebit_id (task e') = at_motebit_id (task e) /\ pinned_executor e' = pinned_executor e /\
  target_agent e' = target_agent e /\ settlement_mode e' = settlement_mode e.

(** A write that leaves the answer alone. *)
Definition touched (e e' : TaskQueueEntry) : Prop :=
  same_terms e e' /\ receipt e' = receipt e /\ settling e' = settling e /\ settled e' = settled e /\
  answer_version e' = answer_version e.

(** The grant is the same one, maybe with another lease. *)
Definition same_grant (e e' : TaskQueueEntry) : Prop :=
  status (task e') = status (task e) /\
  forall l, claim_lease e = Some l -> exists l', claim_lease e' = Some l' /\ presenter l' = presenter l.

Inductive evolves : task_view -> task_view -> Prop :=
| ev_same v : evolves v v
| ev_touch e e' a : touched e e' -> same_grant e e' -> evolves (Some e, a) (Some e', a)
| ev_answer e e' r v now :
    same_terms e e' -> receipt e = None -> answer_version e = Some v ->
    receipt e' = Some r -> settling e' = Some (signature r) -> settled e' = None \/ settled e' = Some true ->
    status (task e') = statusOf r -> answer_version e' = Some (v + 1) -> signature r <> EmptyString ->
    evolves (Some e, None) (Some e', Some (archived e' r (v + 1) now))
| ev_settle e e' r v now now' :
    same_terms e e' -> receipt e = Some r -> receipt e' = Some r -> settling e' = settling e ->
    settled e' = Some true -> status (task e') = status (task e) ->
    answer_version e = Some v -> answer_version e' = Some (v + 1) ->
    evolves (Some e, Some (archived e r v now)) (Some e', Some (archived e' r (v + 1) now'))
| ev_gone e a : heldGrant e = false -> UNSETTLED_CLAIM_IN_QUEUE e = false -> evolves (Some e, a) (None, a)
| ev_trans v1 v2 v3 : evolves v1 v2 -> evolves v2 v3 -> evolves v1 v3.

(** The task's answer, live and archived, is one. *)
Definition view_ok (v : task_view) : Prop :=
  match v with
  | (Some e, a) =>
      match receipt e with
      | Some r => settling e = Some (signature r) /\ signature r <> EmptyString /\
                  (settled e = None \/ settled e = Some true) /\ status (task e) = statusOf r /\
                  exists v now, answer_version e = Some v /\ a = Some (archived e r v now)
      | None => settling e = None /\ settled e = None /\ a = None /\ answer_version e = Some 0 /\
                (status (task e) = Pending \/ status (task e) = Claimed /\ is_Some (claim_lease e))
      end
  | (None, Some a) => ar_settled a = true /\ ar_settling a = Some (signature (ar_receipt a))
  | (None, None) => True
  end.

Lemma same_terms_refl e : same_terms e e.
Proof. done. Qed.
Lemma same_terms_trans e1 e2 e3 : same_terms e1 e2 -> same_terms e2 e3 -> same_terms e1 e3.
Proof. unfold same_terms. intros (?&?&?&?) (?&?&?&?). repeat split; congruence. Qed.

#[export] Hint Resolve same_terms_refl : motebit.

Lemma statusOf_terminal r : TERMINAL (statusOf r) = true.
Proof. unfold statusOf. by repeat case_bool_decide. Qed.

Lemma evolves_ok v v' : evolves v v' -> view_ok v -> view_ok v'.
Proof.
  induction 1 as [v|e e' a (_ & Er & Es & Ed & Ev) (Est & El)|e e' r v now _ Er Ev Er' Es' Ed' Est' Ev' Hsig
                 |e e' r v now now' _ Er Er' Es Ed Est Ev Ev'|e a Hh Hu|v1 v2 v3 _ IH1 _ IH2]; intros H; auto.
  - cbn in *. rewrite Er. destruct (receipt e) as [r|] eqn:E.
    + destruct H as (H1 & H2 & H3 & H4 & v & now & H5 & ->). rewrite Es, Ed, Est, Ev.
      split_and!; auto. exists v, now. split; [done|]. unfold archived. by rewrite Es, Ed.
    + destruct H as (H1 & H2 & H3 & H4 & H5). rewrite Es, Ed, Est, Ev. split_and!; auto.
      destruct H5 as [H5|[H5 [l Hl]]]; [by left|right; split; [done|]].
      destruct (El l Hl) as (l' & -> & _). by eexists.
  - cbn. rewrite Er'. split_and!; auto. by exists (v + 1), now.
  - cbn in *. rewrite Er in H. rewrite Er', Es, Ed, Est. destruct H as (H1 & H2 & H3 & H4 & _).
    split_and!; auto. by exists (v + 1), now'.
  - cbn in *. destruct (receipt e) as [r|] eqn:E.
    + destruct H as (H1 & H2 & H3 & H4 & v & now & H5 & ->). unfold UNSETTLED_CLAIM_IN_QUEUE, not_settled in Hu.
      rewrite H1 in Hu. cbn in *. rewrite H1. split; [|done]. by destruct (default false (settled e)).
    + by destruct H as (_ & _ & -> & _).
Qed.

(** ** Reads after writes *)

Definition update (taskId : string) (e : TaskQueueEntry) (d : task_db) : task_db :=
  set_rows (jm_set taskId {| row_entry := e; row_version := default 0 (answer_version e) |} (relay_task_queue d)) d.

Lemma set_version_id e v : answer_version e = Some v -> set_version (Some v) e = e.
Proof. destruct e; cbn. by intros ->. Qed.

Lemma get_version taskId d e : get taskId d = Some e -> exists v, answer_version e = Some v.
Proof. unfold get. destruct (jm_get _ _); [|done]. intros [= <-]. by eexists. Qed.

Lemma view_update taskId e d t :
  is_Some (answer_version e) ->
  view t (update taskId e d) = if decide (t = taskId) then (Some e, answer_for t d) else view t d.
Proof.
  intros [v Hv]. unfold view, get, update, answer_for. cbn. rewrite jm_get_set.
  case_decide; [|done]. unfold rowToEntry. cbn. rewrite Hv. cbn. by rewrite set_version_id.
Qed.

(** A copy with the same answer is written. *)
Lemma set_update taskId e e' d :
  get taskId d = Some e -> answer_version e' = answer_version e -> answerOf e' = answerOf e ->
  set taskId e' d = (Ok tt, update taskId e' d).
Proof.
  unfold get, set, update. destruct (jm_get taskId (relay_task_queue d)) as [row|] eqn:Eg; [|done].
  cbn. intros [= <-] Ev Ea. rewrite Ev. cbn [answer_version rowToEntry set_version default from_option id].
  rewrite Z.eqb_refl. cbn [negb]. rewrite bool_decide_true by done. cbn [negb].
  unfold call_bind, writeRow. rewrite Eg, Z.eqb_refl. cbn [negb].
  injection Ea as Er Es Esg Esd. cbn in Er, Es, Esg, Esd.
  assert (negb (bool_decide (status (task e') = status (task (row_entry row)))) &&
          (TERMINAL (status (task e')) || TERMINAL (status (task (row_entry row)))) = false) as X.
  { case_bool_decide as E; [done|]. cbn [negb andb]. revert Es.
    destruct (TERMINAL (status (task e'))), (TERMINAL (status (task (row_entry row)))); cbn; congruence. }
  assert (answer_update_guard {| row_entry := e'; row_version := row_version row |} row = false) as ->.
  { unfold answer_update_guard. cbn [row_entry row_version]. rewrite X, Er, Esd, Esg.
    rewrite !bool_decide_true by done.
    rewrite Z.ltb_irrefl, Z.eqb_refl. by rewrite (proj2 (Z.ltb_ge _ _)) by lia. }
  assert (settled_frozen_guard taskId {| row_entry := e'; row_version := row_version row |} row d = false) as ->.
  { unfold settled_frozen_guard. cbn [row_entry]. rewrite Er, Esg.
    by rewrite (bool_decide_true (_ = receipt _)), (bool_decide_true (_ = settling _)) by done. }
  done.
Qed.

(** [writeAnswer] steps the version, under the guards. *)
Lemma writeAnswer_update taskId e v mutate now d :
  get taskId d = Some e -> answer_version e = Some v ->
  let e' := set_version (Some (v + 1)) (mutate e) in
  settled_frozen_guard taskId {| row_entry := e'; row_version := v + 1 |}
    {| row_entry := e; row_version := v |} d = false ->
  writeAnswer taskId v mutate now d =
  (Ok (Some e'), match receipt e' with
                 | Some r => archive_answer taskId (archived e' r (v + 1) now) (update taskId e' d)
                 | None => update taskId e' d
                 end).
Proof.
  intros Hg Hv e' Hf. unfold writeAnswer. rewrite Hg, Hv. rewrite bool_decide_true by done. cbn [negb].
  fold e'. unfold get in Hg. destruct (jm_get taskId (relay_task_queue d)) as [row|] eqn:Eg; [|done].
  cbn in Hg. injection Hg as <-. cbn in Hv. injection Hv as Hv.
  unfold writeRow. rewrite Eg, Hv, Z.eqb_refl. cbn [negb].
  assert (answer_update_guard {| row_entry := e'; row_version := v + 1 |} row = false) as ->.
  { unfold answer_update_guard. cbn [row_version]. rewrite Hv.
    rewrite (proj2 (Z.ltb_ge _ _)) by lia. rewrite (proj2 (Z.ltb_ge (v + 1) (v + 1))) by lia.
    by rewrite (proj2 (Z.eqb_neq _ _)) by lia. }
  assert (settled_frozen_guard taskId {| row_entry := e'; row_version := v + 1 |} row d = false) as ->.
  { rewrite <- Hf. done. }
  done.
Qed.

(** Nothing but the rows named for the task reaches the guards. *)
Lemma settlementRowsFor_update taskId t e d : settlementRowsFor t (update taskId e d) = settlementRowsFor t d.
Proof. done. Qed.

Lemma rows_archive_answer t taskId a d : settlementRowsFor t (archive_answer taskId a d) = settlementRowsFor t d.
Proof. unfold archive_answer. by repeat case_match. Qed.

Lemma view_archive_answer t taskId a d :
  (forall old, answer_for taskId d = Some old -> ar_version old < ar_version a) ->
  view t (archive_answer taskId a d) = if decide (t = taskId) then (get t d, Some a) else view t d.
Proof.
  intros H. unfold archive_answer. unfold answer_for in H.
  assert (match jm_get taskId (relay_task_answers d) with
          | Some old => if ar_version old <? ar_version a
                        then set_answers (jm_set taskId a (relay_task_answers d)) d else d
          | None => set_answers (jm_set taskId a (relay_task_answers d)) d
          end = set_answers (jm_set taskId a (relay_task_answers d)) d) as ->.
  { destruct (jm_get taskId (relay_task_answers d)) as [old|]; [|done].
    by rewrite (proj2 (Z.ltb_lt _ _)) by (by apply H). }
  unfold view, get, answer_for. cbn. rewrite jm_get_set. case_decide; [by subst|done].
Qed.

Lemma namesOther_ok taskId sig d :
  (forall s, s ∈ settlementRowsFor taskId d -> match receipt_signature s with Some t => Some t = sig | None => True end) ->
  namesOther taskId sig d = false.
Proof.
  intros H. unfold namesOther. apply not_true_is_false. intros E. apply existsb_exists in E as (s & Hs & E).
  apply list_elem_of_In in Hs. specialize (H s Hs). destruct (receipt_signature s); [|done].
  by rewrite bool_decide_true in E.
Qed.

(** ** Turns that grant nothing *)

(** The answered receipt. *)
Definition answered_with (taskId : string) (d : task_db) : option ExecutionReceipt :=
  ar_receipt <$> answer_for taskId d.

(** No task is granted, released, admitted, answered or paid. *)
Definition quiet (d d' : task_db) : Prop :=
  (forall t, evolves (view t d) (view t d')) /\
  (forall t, settlementRowsFor t d' = settlementRowsFor t d) /\
  (jm_wf (relay_task_queue d) -> jm_wf (relay_task_queue d')) /\
  forall t, answered_with t d' = answered_with t d.

Lemma quiet_refl d : quiet d d.
Proof. split; [intros t; apply ev_same|done]. Qed.

Lemma quiet_trans d1 d2 d3 : quiet d1 d2 -> quiet d2 d3 -> quiet d1 d3.
Proof.
  intros (H1 & R1 & W1 & A1) (H2 & R2 & W2 & A2).
  split_and!; [|intros t; by rewrite R2|auto|intros t; by rewrite A2].
  intros t. by eapply ev_trans.
Qed.

#[export] Hint Resolve quiet_refl : motebit.

Lemma touched_answerOf e e' : touched e e' -> status (task e') = status (task e) -> answerOf e' = answerOf e.
Proof. intros (_ & Er & Es & Ed & _) Est. unfold answerOf. by rewrite Er, Es, Ed, Est. Qed.

Lemma touch_quiet taskId e e' d :
  get taskId d = Some e -> touched e e' -> same_grant e e' -> quiet d (update taskId e' d).
Proof.
  intros Hg Ht Hs. split_and!; [|done|apply jm_wf_set|done]. intros t.
  rewrite view_update.
  - case_decide; [subst|apply ev_same]. unfold view at 1. rewrite Hg. by apply ev_touch.
  - destruct Ht as (_ & _ & _ & _ & ->). apply get_version in Hg as [v ->]. by eexists.
Qed.

Definition with_queue (d : task_db) (c : TaskClaims) : TaskClaims := {| taskQueue := d; leased := leased c |}.

Lemma queue_set_update taskId e e' c :
  get taskId (taskQueue c) = Some e -> answer_version e' = answer_version e -> answerOf e' = answerOf e ->
  queue_set taskId e' c = (Ok tt, with_queue (update taskId e' (taskQueue c)) c).
Proof. intros Hg Hv Ha. unfold queue_set. by rewrite (set_update taskId e e'). Qed.

(** A turn of [TaskClaims] that never throws and is quiet. *)
Definition quiet_call {A} (m : claims_call A) : Prop :=
  forall c, exists a c', m c = (Ok a, c') /\ quiet (taskQueue c) (taskQueue c').

Lemma quiet_ret {A} (a : A) : quiet_call (call_ret a).
Proof. intros c. exists a, c. split; [done|apply quiet_refl]. Qed.

Lemma quiet_bind {A B} (m : claims_call A) (k : A -> claims_call B) :
  quiet_call m -> (forall a, quiet_call (k a)) -> quiet_call (call_bind m k).
Proof.
  intros Hm Hk c. destruct (Hm c) as (a & c1 & E1 & Q1). destruct (Hk a c1) as (b & c2 & E2 & Q2).
  exists b, c2. unfold call_bind. rewrite E1, E2. split; [done|by eapply quiet_trans].
Qed.

Lemma quiet_leased_add taskId : quiet_call (leased_add taskId).
Proof. intros c. eexists _, _. split; [done|apply quiet_refl]. Qed.

Lemma quiet_leased_delete taskId : quiet_call (leased_delete taskId).
Proof. intros c. eexists _, _. split; [done|apply quiet_refl]. Qed.

#[export] Hint Resolve quiet_ret quiet_bind quiet_leased_add quiet_leased_delete : motebit.

(** A read of an entry and what is done with it in the same turn. *)
Lemma quiet_on_entry {A} taskId (k : option TaskQueueEntry -> claims_call A) :
  (forall c, let o := get taskId (taskQueue c) in
     exists a c', k o c = (Ok a, c') /\ quiet (taskQueue c) (taskQueue c')) ->
  quiet_call (call_bind (queue_get taskId) k).
Proof. intros H c. exact (H c). Qed.

(** The write of an entry read in this turn. *)
Lemma quiet_set {A} taskId e e' (k : claims_call A) c :
  get taskId (taskQueue c) = Some e -> touched e e' -> same_grant e e' -> quiet_call k ->
  exists a c', (queue_set taskId e' ;! k) c = (Ok a, c') /\ quiet (taskQueue c) (taskQueue c').
Proof.
  intros Hg Ht Hs Hk. unfold call_bind.
  rewrite (queue_set_update taskId e e' c Hg) by (try apply touched_answerOf; try apply Ht; try apply Hs; done).
  destruct (Hk (with_queue (update taskId e' (taskQueue c)) c)) as (a & c' & E & Q).
  exists a, c'. split; [done|]. eapply quiet_trans; [|exact Q]. by apply (touch_quiet taskId e).
Qed.

Lemma quiet_here {A} (m : claims_call A) c :
  quiet_call m -> exists a c', m c = (Ok a, c') /\ quiet (taskQueue c) (taskQueue c').
Proof. intros H. apply H. Qed.

Ltac quiet_now := apply quiet_here; repeat (apply quiet_bind; intros); auto with motebit.

Lemma renew_quiet leaseMs taskId motebitId devId now : quiet_call (renew leaseMs taskId motebitId devId now).
Proof.
  apply quiet_on_entry. intros c. cbv zeta. destruct (get taskId (taskQueue c)) as [e|] eqn:Hg; [|quiet_now].
  destruct (claim_lease e) as [l|] eqn:El; [|quiet_now]. destruct (_ || _); [quiet_now|].
  apply (quiet_set taskId e); auto with motebit; [done|].
  split; [done|]. intros l' Hl. exists (renewed leaseMs now l). split; [done|]. by simplify_eq.
Qed.

Lemma expire_one_quiet now taskId : quiet_call (expire_one now taskId).
Proof.
  apply quiet_on_entry. intros c. cbv zeta. destruct (get taskId (taskQueue c)) as [e|] eqn:Hg; [|quiet_now].
  destruct (_ || _); [quiet_now|]. case_bool_decide.
  - case_bool_decide; [quiet_now|]. apply (quiet_set taskId e); auto with motebit; [done|].
    split; [done|]. intros l Hl. by exists l.
  - destruct (negb _); [quiet_now|]. case_bool_decide; [quiet_now|]. destruct (lease_live _ _); [quiet_now|].
    apply (quiet_set taskId e); auto with motebit; [done|]. split; [done|]. intros l Hl.
    eexists. split; [done|]. unfold lapsed_lease. by rewrite Hl.
Qed.

Lemma sweep_one_quiet now taskId : quiet_call (sweep_one now taskId).
Proof.
  apply quiet_on_entry. intros c. cbv zeta. destruct (get taskId (taskQueue c)) as [e|] eqn:Hg; [|quiet_now].
  destruct (claim_lease e) as [l|] eqn:El; [|quiet_now]. destruct (expires_at l) as [t|]; [|quiet_now].
  destruct (_ || _); [quiet_now|]. destruct (now <? t); [quiet_now|].
  set (c1 := {| taskQueue := taskQueue c; leased := filter (fun t => t <> taskId) (leased c) |}).
  change (exists a c', (queue_set taskId (set_lease (Some (mark_undetermined now claimer_lost l)) e) ;! call_ret true)
            c1 = (Ok a, c') /\ quiet (taskQueue c1) (taskQueue c')).
  apply (quiet_set taskId e); auto with motebit; [done|]. split; [done|]. intros l' Hl.
  eexists. split; [done|]. by simplify_eq.
Qed.

Lemma each_changed_quiet body ids : (forall t, quiet_call (body t)) -> quiet_call (each_changed body ids).
Proof. intros H. induction ids; cbn [each_changed]; auto with motebit. Qed.

Lemma expire_quiet now : quiet_call (expire now).
Proof. intros c. apply (each_changed_quiet (expire_one now)). apply expire_one_quiet. Qed.

Lemma sweep_quiet now : quiet_call (sweep now).
Proof. intros c. apply (each_changed_quiet (sweep_one now)). apply sweep_one_quiet. Qed.

(** ** Deletions *)

Lemma filter_quiet (P : string * queue_row -> Prop) {Dec : forall e, Decision (P e)} d :
  jm_wf (relay_task_queue d) ->
  (forall k row, jm_get k (relay_task_queue d) = Some row -> ~ P (k, row) ->
     evictable (row_entry row) = true) ->
  quiet d (set_rows (filter P (relay_task_queue d)) d).
Proof.
  intros Hw H. split_and!; [|done|apply jm_wf_filter|done]. intros t. unfold view, get, answer_for. cbn.
  rewrite jm_get_filter by done. destruct (jm_get t (relay_task_queue d)) as [row|] eqn:E; [|apply ev_same].
  case_decide as D; [apply ev_same|]. cbn. specialize (H t row E D). unfold evictable in H.
  apply andb_true_iff in H as [H1%negb_true_iff H2%negb_true_iff]. by apply ev_gone.
Qed.

Lemma cleanup_quiet now d : jm_wf (relay_task_queue d) -> quiet d (cleanup now d).
Proof.
  intros Hw. apply filter_quiet; [done|]. intros k row _ Hk. cbn in Hk. apply not_false_is_true in Hk.
  unfold cleanable in Hk. unfold evictable. rewrite !andb_true_iff in Hk. destruct Hk as (((_ & ->) & ->) & _). done.
Qed.

Lemma evict_quiet maxSize d : jm_wf (relay_task_queue d) -> quiet d (evict maxSize d).
Proof.
  intros Hw. unfold evict. cbv zeta. set (oldest := take _ _). apply filter_quiet; [done|].
  intros k row Hr Hk. cbn in Hk. destruct (decide (k ∈ jm_keys oldest)) as [Hin|]; [|done].
  apply list_elem_of_fmap in Hin as [[k2 row2] [-> Hin]]. cbn in *.
  apply (subseteq_take) in Hin. rewrite merge_sort_Permutation in Hin.
  apply list_elem_of_filter in Hin as [Hev Hin]. cbn in Hev.
  apply (jm_elem_get _ _ _ Hw) in Hin. by simplify_eq.
Qed.

(** ** Grants *)

(** The task is granted to [p]. *)
Definition granted_to (taskId : string) (p : TaskGrantPresenter) (d d' : task_db) : Prop :=
  exists e e' l, get taskId d = Some e /\ receipt e = None /\ status (task e) = Pending /\
    expired_unclaimed e = None /\ d' = update taskId e' d /\ touched e e' /\
    status (task e') = Claimed /\ claim_lease e' = Some l /\ presenter l = Some p.

Lemma grant_set {A} taskId e l by_ (k : claims_call A) c :
  get taskId (taskQueue c) = Some e -> status (task e) = Pending ->
  (queue_set taskId (set_lease (Some l) (set_status Claimed by_ e)) ;! k) c =
  k (with_queue (update taskId (set_lease (Some l) (set_status Claimed by_ e)) (taskQueue c)) c).
Proof.
  intros Hg Hs. unfold call_bind. rewrite (queue_set_update taskId e); [done|done|done|].
  unfold answerOf. cbn. by rewrite Hs.
Qed.

Lemma bind_get {A} taskId (k : option TaskQueueEntry -> claims_call A) c :
  call_bind (queue_get taskId) k c = k (get taskId (taskQueue c)) c.
Proof. done. Qed.

Lemma claim_spec leaseMs taskId motebitId peer lease now c :
  (exists why, claim leaseMs taskId motebitId peer lease now c = (Ok (NotGranted why), c)) \/
  exists ms c', claim leaseMs taskId motebitId peer lease now c = (Ok (Granted ms), c') /\
    granted_to taskId ws (taskQueue c) (taskQueue c').
Proof.
  unfold claim. rewrite !bind_get. destruct (get taskId (taskQueue c)) as [e|] eqn:Hg; [|left; by eexists].
  destruct (negb _); [left; by eexists|]. destruct (pinRefusesClaim e motebitId); [left; by eexists|].
  destruct (negb (bool_decide (status (task e) = Pending)) || _) eqn:Ep; [left; by eexists|].
  apply orb_false_iff in Ep as [Ep Er]. apply negb_false_iff, bool_decide_eq_true in Ep.
  apply bool_decide_eq_false in Er. apply eq_None_not_Some in Er.
  case_bool_decide as Ex; [left; by eexists|]. apply eq_None_not_Some in Ex.
  destruct (negb _); [left; by eexists|]. right.
  rewrite (grant_set taskId e) by done.
  destruct lease; eexists _, _; (split; [reflexivity|]); cbn [taskQueue with_queue];
    eexists e, _, _; split_and!; done.
Qed.

Lemma grantForward_spec taskId workerId c :
  grantForward taskId workerId c = (Ok false, c) \/
  exists c', grantForward taskId workerId c = (Ok true, c') /\
    granted_to taskId by_mcp_forward (taskQueue c) (taskQueue c').
Proof.
  unfold grantForward. rewrite !bind_get.
  destruct (get taskId (taskQueue c)) as [e|] eqn:Hg; [|by left].
  destruct (negb (bool_decide (status (task e) = Pending)) || _ || _) eqn:Ep; [by left|].
  apply orb_false_iff in Ep as [[Ep Er]%orb_false_iff Ex]. apply negb_false_iff, bool_decide_eq_true in Ep.
  apply bool_decide_eq_false in Er, Ex. apply eq_None_not_Some in Er, Ex.
  destruct (pinRefusesClaim e workerId); [by left|]. right.
  rewrite (grant_set taskId e) by done.
  eexists. split; [reflexivity|]. cbn [taskQueue with_queue]. eexists e, _, _; split_and!; done.
Qed.

(** The forward's grant is given back: the task is pending again. *)
Definition given_back (taskId : string) (d d' : task_db) : Prop :=
  exists e l e', get taskId d = Some e /\ receipt e = None /\ status (task e) = Claimed /\
    claim_lease e = Some l /\ presenter l = Some by_mcp_forward /\ d' = update taskId e' d /\
    touched e e' /\ status (task e') = Pending.

Lemma forwardEnded_spec taskId called now c :
  exists a c', forwardEnded taskId called now c = (Ok a, c') /\
    ((called = false /\ given_back taskId (taskQueue c) (taskQueue c')) \/
     quiet (taskQueue c) (taskQueue c') /\
     (called = false -> c' = c /\ forall e l, get taskId (taskQueue c) = Some e -> receipt e = None ->
        status (task e) = Claimed -> claim_lease e = Some l -> presenter l <> Some by_mcp_forward)).
Proof.
  unfold forwardEnded. rewrite bind_get.
  destruct (get taskId (taskQueue c)) as [e|] eqn:Hg.
  2: { eexists _, _. split; [done|]. right. split; [apply quiet_refl|]. by intros _. }
  destruct (claim_lease e) as [l|] eqn:El.
  2: { eexists _, _. split; [done|]. right. split; [apply quiet_refl|]. intros _. split; [done|]. congruence. }
  destruct (_ || _) eqn:Ep.
  { eexists _, _. split; [done|]. right. split; [apply quiet_refl|]. intros _. split; [done|].
    intros e' l' [= <-] Er Es ? Hp. simplify_eq. rewrite Er, Es, Hp in Ep. by vm_compute in Ep. }
  apply orb_false_iff in Ep as [[Er Es]%orb_false_iff Ef].
  apply negb_false_iff, bool_decide_eq_true in Es, Ef. apply bool_decide_eq_false in Er.
  apply eq_None_not_Some in Er. destruct called; cbn [negb].
  - assert (exists (a : option TaskQueueEntry) c', (if bool_decide (undetermined_at l = None)
              then queue_set taskId (set_lease (Some (mark_undetermined now forward_unanswered l)) e) ;! call_ret None
              else call_ret None) c = (Ok a, c') /\ quiet (taskQueue c) (taskQueue c')) as (a & c' & E & Q).
    { case_bool_decide; [|apply quiet_here; auto with motebit].
      apply (quiet_set taskId e); auto with motebit; [done|]. split; [done|]. intros l' Hl.
      eexists. split; [done|]. by simplify_eq. }
    exists a, c'. split; [exact E|]. by right.
  - unfold call_bind. rewrite (queue_set_update taskId e); [|done|done|].
    2: { unfold answerOf. cbn. by rewrite Es. }
    eexists _, _. split; [reflexivity|]. left. split; [done|]. cbn [taskQueue with_queue].
    eexists e, l, _. split_and!; done.
Qed.

(** ** Answers *)

(** The database after an answer of [taskId] is written. *)
Definition write_both (taskId : string) (e : TaskQueueEntry) (r : ExecutionReceipt) (v now : Z) (d : task_db) : task_db :=
  archive_answer taskId (archived e r v now) (update taskId e d).

Lemma view_write_both t taskId e r v now d :
  answer_version e = Some v ->
  (forall old, answer_for taskId d = Some old -> ar_version old < v) ->
  view t (write_both taskId e r v now d) =
  if decide (t = taskId) then (Some e, Some (archived e r v now)) else view t d.
Proof.
  intros Hv Ho. unfold write_both. rewrite view_archive_answer by done.
  assert (is_Some (answer_version e)) as Hs by (rewrite Hv; by eexists).
  pose proof (view_update taskId e d t Hs) as E. case_decide; [|done].
  unfold view in E. by injection E as ->.
Qed.

Lemma write_both_frame taskId e r v now d :
  (forall t, settlementRowsFor t (write_both taskId e r v now d) = settlementRowsFor t d) /\
  (jm_wf (relay_task_queue d) -> jm_wf (relay_task_queue (write_both taskId e r v now d))).
Proof.
  split; [intros t; unfold write_both; by rewrite rows_archive_answer|]. intros Hw. unfold write_both, archive_answer.
  repeat case_match; cbn; by apply jm_wf_set.
Qed.

(** The task takes the answer [r], the one its settlement rows name. *)
Definition answers (taskId : string) (r : ExecutionReceipt) (d d' : task_db) : Prop :=
  (forall t, evolves (view t d) (view t d')) /\
  (forall t, settlementRowsFor t d' = settlementRowsFor t d) /\
  (jm_wf (relay_task_queue d) -> jm_wf (relay_task_queue d')) /\
  (forall t, t <> taskId -> answered_with t d' = answered_with t d) /\
  answered_with taskId d = None /\ answered_with taskId d' = Some r /\
  forall row, row ∈ settlementRowsFor taskId d -> rowNames row r = true.

Lemma write_answers taskId e e' r v now d :
  view_ok (view taskId d) -> get taskId d = Some e -> receipt e = None -> answer_version e = Some v ->
  same_terms e e' -> receipt e' = Some r -> settling e' = Some (signature r) ->
  settled e' = None \/ settled e' = Some true -> status (task e') = statusOf r ->
  answer_version e' = Some (v + 1) -> signature r <> EmptyString ->
  (forall row, row ∈ settlementRowsFor taskId d -> rowNames row r = true) ->
  answers taskId r d (write_both taskId e' r (v + 1) now d).
Proof.
  intros Hok Hg Er Ev Ht Er' Es' Ed' Est' Ev' Hsig Hrows.
  assert (answer_for taskId d = None) as Ha.
  { unfold view in Hok. rewrite Hg in Hok. cbn in Hok. rewrite Er in Hok. by destruct Hok as (_ & _ & ? & _). }
  assert (forall old, answer_for taskId d = Some old -> ar_version old < v + 1) as Ho by (intros old; congruence).
  pose proof (write_both_frame taskId e' r (v + 1) now d) as [F1 F2].
  pose proof (fun t => view_write_both t taskId e' r (v + 1) now d Ev' Ho) as V.
  assert (forall t, answer_for t (write_both taskId e' r (v + 1) now d) =
            if decide (t = taskId) then Some (archived e' r (v + 1) now) else answer_for t d) as A.
  { intros t. specialize (V t). unfold view in V. case_decide; by injection V. }
  split_and!; auto.
  - intros t. rewrite V. case_decide; [subst|apply ev_same].
    unfold view. rewrite Hg, Ha. by eapply ev_answer.
  - intros t Hne. unfold answered_with. rewrite A. by rewrite decide_False.
  - unfold answered_with. by rewrite Ha.
  - unfold answered_with. rewrite A. by rewrite decide_True.
Qed.

Lemma frozen_guard_rows taskId new old d :
  (receipt (row_entry old) = None \/ receipt (row_entry new) = receipt (row_entry old)) ->
  (receipt (row_entry new) = receipt (row_entry old) \/
   namesOther taskId (signature <$> receipt (row_entry new)) d = false) ->
  (settling (row_entry new) = settling (row_entry old) \/ namesOther taskId (settling (row_entry new)) d = false) ->
  settled_frozen_guard taskId new old d = false.
Proof.
  intros H1 H2 H3. unfold settled_frozen_guard. apply orb_false_iff. split.
  - apply andb_false_iff. destruct H2 as [H2|H2]; [left; by rewrite H2, bool_decide_true|].
    destruct H1 as [H1|H1]; [right|left; by rewrite H1, bool_decide_true].
    rewrite H1, H2. rewrite bool_decide_false; [done|]. by intros [? ?].
  - apply andb_false_iff. destruct H3 as [H3|H3]; [left; by rewrite H3, bool_decide_true|by right].
Qed.

Lemma markTaskSettled_quiet taskId sig now d :
  view_ok (view taskId d) -> exists d', markTaskSettled taskId sig now d = (Ok tt, d') /\ quiet d d'.
Proof.
  intros Hok. unfold markTaskSettled. unfold view in Hok.
  destruct (get taskId d) as [e|] eqn:Hg; [|by exists d; auto with motebit].
  case_bool_decide as Ed; [by exists d; auto with motebit|].
  case_bool_decide as Es; cbn [negb]; [|by exists d; auto with motebit].
  cbn in Hok. destruct (receipt e) as [r|] eqn:Er; [|by destruct Hok as (? & _); congruence].
  destruct Hok as (H1 & H2 & H3 & H4 & v & t & Ev & Ea).
  rewrite Ev. cbn [default from_option id].
  unfold call_bind. rewrite (writeAnswer_update taskId e v _ _ _ Hg Ev).
  2: { apply frozen_guard_rows; [by right|by left|by left]. }
  cbn [receipt set_version mark_settled set_answer]. rewrite Er.
  set (e' := set_version (Some (v + 1)) (mark_settled sig e)).
  fold (write_both taskId e' r (v + 1) now d).
  eexists. split; [reflexivity|].
  assert (forall old, answer_for taskId d = Some old -> ar_version old < v + 1) as Ho.
  { intros old Hold. rewrite Ea in Hold. simplify_eq. cbn. lia. }
  pose proof (write_both_frame taskId e' r (v + 1) now d) as [F1 F2].
  pose proof (fun t => view_write_both t taskId e' r (v + 1) now d eq_refl Ho) as V.
  split_and!; auto.
  - intros t'. rewrite V. case_decide; [subst|apply ev_same].
    unfold view. rewrite Hg, Ea. by eapply ev_settle.
  - intros t'. specialize (V t'). unfold view in V. unfold answered_with.
    destruct (decide (t' = taskId)) as [->|]; injection V as _ ->; [by rewrite Ea|done].
Qed.

Lemma answer_write_spec taskId r door retainMs pres now d :
  view_ok (view taskId d) -> signature r <> EmptyString ->
  exists v d', answer_write taskId r door retainMs pres now d = (Ok v, d') /\
    (quiet d d' \/ answers taskId r d d').
Proof.
  intros Hok Hsig. unfold answer_write.
  destruct (get taskId d) as [e|] eqn:Hg; [|eexists _, d; split; [done|left; apply quiet_refl]].
  destruct (match pres with Some p => _ | None => false end); [eexists _, d; split; [done|left; apply quiet_refl]|].
  pose proof Hok as Hok'. unfold view in Hok'. rewrite Hg in Hok'. cbn in Hok'.
  destruct (receipt e) as [r0|] eqn:Er.
  - (* answered: frozen *)
    destruct Hok' as (Hs & Hs' & _). rewrite bool_decide_false by done. cbn [andb].
    assert (answerFrozen d e taskId = true) as Hf.
    { unfold answerFrozen. rewrite Hs. rewrite (bool_decide_true (is_Some _)); [by rewrite orb_true_r|].
      cbn. destruct (signature r0); [done|by eexists]. }
    rewrite Hf. unfold answerRule. destruct (_ && _).
    + rewrite (bool_decide_false (settling e = None)) by (by rewrite Hs). rewrite andb_false_r.
      eexists _, d; split; [done|left; apply quiet_refl].
    + eexists _, d; split; [done|left; apply quiet_refl].
  - destruct Hok' as (Hs & Hd & Ha & Ev & _). rewrite Ev. cbn [default from_option id].
    rewrite bool_decide_true by done. cbn [andb].
    assert (forall u mutate, mutate = take_answer r door u \/ mutate = adopt_answer r door u ->
              (forall row, row ∈ settlementRowsFor taskId d -> rowNames row r = true) ->
              exists e', writeAnswer taskId 0 mutate now d = (Ok (Some e'), write_both taskId e' r (0 + 1) now d) /\
                answers taskId r d (write_both taskId e' r (0 + 1) now d)) as K.
    { intros u mutate Hm Hrows.
      assert (namesOther taskId (Some (signature r)) d = false) as Hno.
      { apply namesOther_ok. intros row Hrow. apply Hrows in Hrow. unfold rowNames in Hrow.
        destruct (receipt_signature row); [|done]. apply bool_decide_eq_true in Hrow. by subst. }
      rewrite (writeAnswer_update taskId e 0 _ _ _ Hg Ev).
      2: { apply frozen_guard_rows; [by left|right|right]; by destruct Hm as [-> | ->]. }
      assert (receipt (set_version (Some (0 + 1)) (mutate e)) = Some r) as -> by (by destruct Hm as [-> | ->]).
      eexists. split; [reflexivity|].
      apply (write_answers taskId e); try done; destruct Hm as [-> | ->]; try done; cbn; auto. }
    case_bool_decide as En; cbn [negb].
    + 
      assert (answerFrozen d e taskId = false) as ->.
      { unfold answerFrozen. rewrite Hs, Hd, En. by vm_compute. }
      unfold answerRule. unfold call_bind.
      destruct (K (now + retainMs) (take_answer r door (now + retainMs))) as (e' & E & A); [by left| |].
      { rewrite En. intros row Hrow. by apply elem_of_nil in Hrow. }
      rewrite E. eexists _, _. split; [reflexivity|by right].
    + destruct (negb _) eqn:Ead; [eexists _, d; split; [done|left; apply quiet_refl]|].
      apply negb_false_iff, andb_true_iff in Ead as [Ead _].
      assert (forall row, row ∈ settlementRowsFor taskId d -> rowNames row r = true) as Hrows.
      { intros row Hrow. apply list_elem_of_In in Hrow. by apply (proj1 (forallb_forall _ _) Ead). }
      unfold call_bind.
      destruct (K (now + retainMs) (adopt_answer r door (now + retainMs))) as (e' & E & A); [by right|done|].
      rewrite E. eexists _, _. split; [reflexivity|by right].
Qed.

Lemma claimStoredAnswer_quiet taskId door now d :
  view_ok (view taskId d) -> exists a, claimStoredAnswer taskId door now d = (Ok a, d).
Proof.
  intros Hok. unfold claimStoredAnswer. unfold view in Hok.
  destruct (get taskId d) as [e|]; [|by eexists]. cbn in Hok. destruct (receipt e) as [r|]; [|by eexists].
  destruct Hok as (Hs & Hs' & _). rewrite Hs. rewrite bool_decide_true; [by eexists|].
  cbn. destruct (signature r); [done|by eexists].
Qed.

Lemma admit_taken_quiet taskId entry now d :
  view_ok (view taskId d) -> exists a d', admit_taken taskId entry now d = (Ok a, d') /\ quiet d d'.
Proof.
  intros Hok. unfold admit_taken. destruct (receipt entry) as [r|]; [|eexists _, d; by auto with motebit].
  case_bool_decide; [eexists _, d; by auto with motebit|].
  destruct (negb _); [eexists _, d; by auto with motebit|].
  destruct (pinRefusesSettlement _ _); [eexists _, d; by auto with motebit|].
  destruct (negb _); [|eexists _, d; by auto with motebit].
  destruct (markTaskSettled_quiet taskId (signature r) now d Hok) as (d' & E & Q).
  unfold call_bind. rewrite E. by eexists _, d'.
Qed.

Lemma admit_settled_quiet taskId answer done_ now d :
  view_ok (view taskId d) -> exists d', admit_settled taskId answer done_ now d = (Ok tt, d') /\ quiet d d'.
Proof.
  intros Hok. unfold admit_settled. destruct done_; [by apply markTaskSettled_quiet|].
  eexists. split; [done|apply quiet_refl].
Qed.
