(* ===== verification/TaskSystem.v ===== *)
(** * One execution, one answer, one settlement

    The invariant of the relay's tasks over every order of turns ([TaskRelay]), and
    the laws that [task-claim.ts] and [task-answer.ts] state. *)

From Stdlib Require Import String.
From S2P Require Import Prelude JsMap JsString TaskTypes TaskQueue TaskClaims TaskAnswer TaskRelay TaskLaws.
Local Open Scope Z_scope.

(** ** Counting the history *)

Definition is_body_grant (t : string) (h : happening) : bool :=
  match h with GrantedTo t' by_mcp_forward => false | GrantedTo t' _ => bool_decide (t' = t) | _ => false end.
Definition is_forward_grant (t : string) (h : happening) : bool :=
  match h with GrantedTo t' by_mcp_forward => bool_decide (t' = t) | _ => false end.
Definition is_release (t : string) (h : happening) : bool :=
  match h with Released t' => bool_decide (t' = t) | _ => false end.

Fixpoint count (f : happening -> bool) (h : list happening) : nat :=
  match h with
  | [] => 0
  | x :: h => (if f x then 1 else 0) + count f h
  end.

(** Grants to a body or to the submitter; to the relay's own forward; forwards
    that ended with nothing sent. *)
Definition body_grants (t : string) : list happening -> nat := count (is_body_grant t).
Definition forward_grants (t : string) : list happening -> nat := count (is_forward_grant t).
Definition releases (t : string) : list happening -> nat := count (is_release t).

(** How many presenters may have run the task. *)
Definition may_have_run (t : string) (h : list happening) : nat :=
  body_grants t h + forward_grants t h - releases t h.

Lemma count_app f h1 h2 : count f (h1 ++ h2) = (count f h1 + count f h2)%nat.
Proof. induction h1 as [|x h1 IH]; cbn; [done|]. rewrite IH. lia. Qed.

(** ** The invariant *)

Section system.
Context (leaseMs : Z).
Context (routed : TaskQueueEntry -> ExecutionReceipt -> AnswerDoor -> bool).
Context (verify : ExecutionReceipt -> AnswerDoor -> AnswerRefusal + string).

(** The receipt may answer the task, by the terms of its admission. *)
Definition authorised (t : string) (r : ExecutionReceipt) (h : list happening) : Prop :=
  receiptRelayTaskId r = t /\
  exists e0 door key, TaskAdmitted t e0 ∈ h /\
    executorAllowed (pinOf e0) (rc_motebit_id r) = true /\
    (settlement_mode e0 = Some p2p_mode -> rc_motebit_id r = p2pPayeeOf e0) /\
    (exists e, same_terms e0 e /\ routed e r door = true) /\ verify r door = inr key.

Record grants_ok (t : string) (d : task_db) (fw : list string) (h : list happening) : Prop := {
  g_le : (body_grants t h + forward_grants t h <= S (releases t h))%nat;
  g_rel : (releases t h + (if bool_decide (t ∈ fw) then 1 else 0) <= forward_grants t h)%nat;
  g_fw : t ∈ fw -> (body_grants t h + forward_grants t h = S (releases t h))%nat;
  g_free : forall e, get t d = Some e -> receipt e = None -> status (task e) = Pending ->
    (body_grants t h + forward_grants t h = releases t h)%nat;
  g_held : forall e, get t d = Some e -> receipt e = None -> status (task e) = Claimed ->
    (body_grants t h + forward_grants t h = S (releases t h))%nat /\
    (t ∈ fw -> exists l, claim_lease e = Some l /\ presenter l = Some by_mcp_forward);
  g_gone : get t d = None -> answer_for t d = None ->
    (body_grants t h + forward_grants t h = releases t h)%nat;
}.

Definition known_id (t : string) (h : list happening) : Prop := exists e, TaskAdmitted t e ∈ h.

Record relay_ok (d : task_db) (fw : list string) (ts : list turn) (h : list happening) : Prop := {
  ro_wf : jm_wf (relay_task_queue d);
  ro_view : forall t, view_ok (view t d);
  ro_rows : forall t, t <> EmptyString -> (length (settlementRowsFor t d) <= 1)%nat;
  ro_named : forall t r row, t <> EmptyString -> answered_with t d = Some r ->
    row ∈ settlementRowsFor t d -> rowNames row r = true;
  ro_new : forall t, ~ known_id t h -> get t d = None /\ answer_for t d = None;
  ro_terms : forall t e, get t d = Some e -> exists e0, TaskAdmitted t e0 ∈ h /\ same_terms e0 e;
  ro_auth : forall t r, answered_with t d = Some r -> authorised t r h;
  ro_turns : forall t r door ret p, Verified t r door ret p ∈ ts -> authorised t r h /\ signature r <> EmptyString;
  ro_fw : NoDup fw;
  ro_grants : forall t, grants_ok t d fw h;
}.

Lemma authorised_mono t r h h' : authorised t r h -> authorised t r (h ++ h').
Proof.
  intros (E & e0 & door & key & Hin & R). split; [done|]. exists e0, door, key.
  split; [by apply elem_of_app; left|done].
Qed.

(** ** Evolving views *)

Lemma evolves_terms v v' e' : evolves v v' -> v'.1 = Some e' -> exists e, v.1 = Some e /\ same_terms e e'.
Proof.
  intros H. revert e'. induction H as [v|e e1 a Ht _|e e1 r v now Ht|e e1 r v now now' Ht|e a|v1 v2 v3 _ IH1 _ IH2];
    intros e'; cbn; try done.
  - intros Hv. by exists e'.
  - intros [= <-]. exists e. by destruct Ht.
  - intros [= <-]. by exists e.
  - intros [= <-]. by exists e.
  - intros H3. destruct (IH2 e' H3) as (e2 & H2 & T2). destruct (IH1 e2 H2) as (e1 & H1 & T1).
    exists e1. split; [done|by eapply same_terms_trans].
Qed.

(** An unanswered entry keeps its grant. *)
Lemma evolves_grant v v' : evolves v v' -> view_ok v ->
  (forall e', v'.1 = Some e' -> receipt e' = None ->
     exists e, v.1 = Some e /\ receipt e = None /\ same_grant e e') /\
  (v'.1 = None -> v'.2 = None ->
     (v.1 = None /\ v.2 = None) \/ exists e, v.1 = Some e /\ receipt e = None /\ status (task e) = Pending).
Proof.
  intros H. induction H as [v|e e1 a Ht Hg|e e1 r v now|e e1 r v now now'|e a Hh Hu|v1 v2 v3 H12 IH1 H23 IH2]; intros Hok.
  - split; [|by left]. intros e' E Er. exists e'. split_and!; [done|done|]. split; [done|]. eauto.
  - split; [|done]. intros e' [= <-] Er. exists e. split_and!; [done| |done].
    destruct Ht as (_ & Hr & _). congruence.
  - split; [|done]. intros e' [= <-] Er. congruence.
  - split; [|done]. intros e' [= <-] Er. congruence.
  - split; [done|]. cbn. intros _ ->. right. exists e. split; [done|]. cbn in Hok.
    destruct (receipt e) as [r|] eqn:Er; [by destruct Hok as (_ & _ & _ & _ & ? & ? & _ & ?)|].
    split; [done|]. destruct Hok as (_ & _ & _ & _ & [?|[Hc _]]); [done|].
    unfold heldGrant in Hh. by rewrite Hc, Er in Hh.
  - specialize (IH1 Hok). specialize (IH2 (evolves_ok _ _ H12 Hok)).
    destruct IH1 as [A1 B1], IH2 as [A2 B2]. split.
    + intros e3 E3 R3. destruct (A2 e3 E3 R3) as (e2 & E2 & R2 & S2 & L2).
      destruct (A1 e2 E2 R2) as (e1 & E1 & R1 & S1 & L1). exists e1. split_and!; [done|done|].
      split; [congruence|]. intros l Hl. destruct (L1 l Hl) as (l2 & Hl2 & P2).
      destruct (L2 l2 Hl2) as (l3 & Hl3 & P3). exists l3. split; congruence.
    + intros E3 F3. destruct (B2 E3 F3) as [[E2 F2]|(e2 & E2 & R2 & S2)]; [by apply B1|].
      destruct (A1 e2 E2 R2) as (e1 & E1 & R1 & S1 & _). right. exists e1. split_and!; congruence.
Qed.

Lemma grants_evolve t d d' fw h :
  evolves (view t d) (view t d') -> view_ok (view t d) -> grants_ok t d fw h -> grants_ok t d' fw h.
Proof.
  intros He Hok G. destruct (evolves_grant _ _ He Hok) as [A B]. unfold view in A, B. cbn in A, B.
  split; try apply G.
  - intros e' E R S. destruct (A e' E R) as (e & E0 & R0 & S0 & _). apply (g_free t d fw h G e); congruence.
  - intros e' E R S. destruct (A e' E R) as (e & E0 & R0 & S0 & L0).
    destruct (g_held t d fw h G e) as [G1 G2]; [done|done|congruence|]. split; [done|].
    intros Hin. destruct (G2 Hin) as (l & Hl & Hp). destruct (L0 l Hl) as (l' & Hl' & Hp'). exists l'. split; congruence.
  - intros E F. destruct (B E F) as [[E0 F0]|(e & E0 & R0 & S0)]; [by apply (g_gone t d fw h G)|].
    by apply (g_free t d fw h G e).
Qed.

(** ** Turns preserve it *)

Lemma ok_quiet d d' fw ts h : quiet d d' -> relay_ok d fw ts h -> relay_ok d' fw ts h.
Proof.
  intros (He & Hr & Hw & Ha) I.
  assert (forall t, view_ok (view t d')) as Hv by (intros t; eapply evolves_ok; [apply He|apply I]).
  split; try apply I; auto.
  - apply Hw, I.
  - intros t Ht. rewrite Hr. by apply I.
  - intros t r row Ht. rewrite Ha, Hr. by apply I.
  - intros t Ht. destruct (ro_new _ _ _ _ I t Ht) as [E F]. specialize (He t). specialize (Ha t).
    assert (answer_for t d' = None) as F'.
    { unfold answered_with in Ha. rewrite F in Ha. by destruct (answer_for t d'). }
    split; [|done]. destruct (get t d') as [e'|] eqn:E'; [|done].
    destruct (evolves_terms _ _ e' He) as (e & Ee & _); [by unfold view; rewrite E'|].
    unfold view in Ee. cbn in Ee. congruence.
  - intros t e' E'. destruct (evolves_terms _ _ e' (He t)) as (e & Ee & Ht); [by unfold view; rewrite E'|].
    destruct (ro_terms _ _ _ _ I t e Ee) as (e0 & Hin & Ht0). exists e0. split; [done|by eapply same_terms_trans].
  - intros t r. rewrite Ha. by apply I.
  - intros t. apply (grants_evolve t d); [apply He|apply I|apply I].
Qed.

Lemma ok_answers t r d d' fw ts h :
  answers t r d d' -> authorised t r h -> relay_ok d fw ts h -> relay_ok d' fw ts h.
Proof.
  intros (He & Hr & Hw & Ho & Hn & Hs & Hrows) Hau I.
  assert (forall t', view_ok (view t' d')) as Hv by (intros t'; eapply evolves_ok; [apply He|apply I]).
  assert (forall t' r', answered_with t' d' = Some r' -> t' = t /\ r' = r \/ answered_with t' d = Some r') as Ha.
  { intros t' r' H. destruct (decide (t' = t)) as [->|Hne]; [left; split; congruence|right].
    by rewrite <- Ho. }
  split; try apply I; auto.
  - apply Hw, I.
  - intros t' Ht. rewrite Hr. by apply I.
  - intros t' r' row Ht H. rewrite Hr. destruct (Ha t' r' H) as [[-> ->]|H']; [apply Hrows|by apply I].
  - intros t' Ht. destruct (ro_new _ _ _ _ I t' Ht) as [E F]. specialize (He t').
    assert (get t' d' = None) as E'.
    { destruct (get t' d') as [e'|] eqn:E'; [|done].
      destruct (evolves_terms _ _ e' He) as (e & Ee & _); [by unfold view; rewrite E'|].
      unfold view in Ee. cbn in Ee. congruence. }
    split; [done|]. destruct (answer_for t' d') as [a|] eqn:Ea; [|done].
    destruct (Ha t' (ar_receipt a)) as [[-> _]|H']; [by unfold answered_with; rewrite Ea| |].
    + destruct Hau as (_ & e0 & _ & _ & Hin & _). destruct Ht. by exists e0.
    + unfold answered_with in H'. by rewrite F in H'.
  - intros t' e' E'. destruct (evolves_terms _ _ e' (He t')) as (e & Ee & Ht); [by unfold view; rewrite E'|].
    destruct (ro_terms _ _ _ _ I t' e Ee) as (e0 & Hin & Ht0). exists e0. split; [done|by eapply same_terms_trans].
  - intros t' r' H. destruct (Ha t' r' H) as [[-> ->]|H']; [done|by apply I].
  - intros t'. apply (grants_evolve t' d); [apply He|apply I|apply I].
Qed.

(** A grant or a release: one unanswered entry changes hands. *)
Lemma ok_hands t e e' d fw fw' ts h x :
  relay_ok d fw ts h -> get t d = Some e -> receipt e = None -> touched e e' ->
  status (task e') = Pending \/ status (task e') = Claimed /\ is_Some (claim_lease e') ->
  NoDup fw' -> (forall t', grants_ok t' (update t e' d) fw' (h ++ [x])) ->
  relay_ok (update t e' d) fw' ts (h ++ [x]).
Proof.
  intros I Hg Hr Ht Hs Hfw G. destruct Ht as (Htm & Er & Es & Ed & Ev).
  assert (is_Some (answer_version e')) as Hv by (rewrite Ev; destruct (get_version _ _ _ Hg) as [? ->]; by eexists).
  pose proof (fun t' => view_update t e' d t' Hv) as V.
  assert (forall t', answered_with t' (update t e' d) = answered_with t' d) as A by done.
  assert (forall t', get t' (update t e' d) = if decide (t' = t) then Some e' else get t' d) as Gt.
  { intros t'. specialize (V t'). unfold view in V. case_decide; by injection V. }
  pose proof (ro_view _ _ _ _ I t) as Hok. unfold view in Hok. rewrite Hg in Hok. cbn in Hok. rewrite Hr in Hok.
  destruct Hok as (H1 & H2 & H3 & H4 & _).
  split; auto.
  - apply jm_wf_set, I.
  - intros t'. rewrite V. case_decide; [subst|by apply I]. cbn. rewrite Er, Hr, Es, Ed, Ev. by split_and!.
  - intros t' Hne. by apply (ro_rows _ _ _ _ I).
  - intros t' r row Hne. rewrite A. by apply (ro_named _ _ _ _ I).
  - intros t' Hn. assert (~ known_id t' h) as Hn'.
    { intros [e0 Hin]. apply Hn. exists e0. apply elem_of_app. by left. }
    destruct (ro_new _ _ _ _ I t' Hn') as [E F]. split; [|done]. rewrite Gt. case_decide; [congruence|done].
  - intros t' e1. rewrite Gt. case_decide; [intros [= <-]; subst|]; intros.
    + destruct (ro_terms _ _ _ _ I t e Hg) as (e0 & Hin & Ht0). exists e0.
      split; [apply elem_of_app; by left|by eapply same_terms_trans].
    + destruct (ro_terms _ _ _ _ I t' e1) as (e0 & Hin & Ht0); [done|]. exists e0.
      split; [apply elem_of_app; by left|done].
  - intros t' r. rewrite A. intros H. by apply authorised_mono, (ro_auth _ _ _ _ I).
  - intros t' r door ret p Hin. destruct (ro_turns _ _ _ _ I t' r door ret p Hin). split; [by apply authorised_mono|done].
Qed.

Lemma get_update t e' d t' :
  is_Some (answer_version e') -> get t' (update t e' d) = if decide (t' = t) then Some e' else get t' d.
Proof. intros Hv. pose proof (view_update t e' d t' Hv) as V. unfold view in V. case_decide; by injection V. Qed.

(** Another task's event. *)
Lemma grants_other t t' e' d fw fw' h x :
  t' <> t -> is_Some (answer_version e') -> (t' ∈ fw' <-> t' ∈ fw) ->
  is_body_grant t' x = false -> is_forward_grant t' x = false -> is_release t' x = false ->
  grants_ok t' d fw h -> grants_ok t' (update t e' d) fw' (h ++ [x]).
Proof.
  intros Hne Hv Hfw H1 H2 H3 G.
  assert (get t' (update t e' d) = get t' d) as E by (rewrite get_update by done; by rewrite decide_False).
  assert (body_grants t' (h ++ [x]) = body_grants t' h) as C1.
  { unfold body_grants. rewrite count_app. cbn. rewrite H1. lia. }
  assert (forward_grants t' (h ++ [x]) = forward_grants t' h) as C2.
  { unfold forward_grants. rewrite count_app. cbn. rewrite H2. lia. }
  assert (releases t' (h ++ [x]) = releases t' h) as C3.
  { unfold releases. rewrite count_app. cbn. rewrite H3. lia. }
  split; rewrite ?C1, ?C2, ?C3, ?E; try setoid_rewrite Hfw; try apply G.
  rewrite (bool_decide_ext _ _ Hfw). apply G.
Qed.

Lemma count_last f h x : count f (h ++ [x]) = (count f h + (if f x then 1 else 0))%nat.
Proof. rewrite count_app. cbn. lia. Qed.

Lemma ok_granted t p d d' fw ts h :
  granted_to t p d d' -> p <> submitter -> relay_ok d fw ts h ->
  relay_ok d' (if decide (p = by_mcp_forward) then t :: fw else fw) ts (h ++ [GrantedTo t p]).
Proof.
  intros (e & e' & l & Hg & Hr & Hs & Hx & -> & Ht & Hs' & Hl & Hp) Hne I.
  assert (is_Some (answer_version e')) as Hv.
  { destruct Ht as (_ & _ & _ & _ & ->). destruct (get_version _ _ _ Hg) as [? ->]. by eexists. }
  pose proof (ro_grants _ _ _ _ I t) as G. pose proof (g_free _ _ _ _ G e Hg Hr Hs) as Gf.
  assert (t ∉ fw) as Hnfw by (intros Hin; pose proof (g_fw _ _ _ _ G Hin); lia).
  apply (ok_hands t e e' d fw); [exact I|exact Hg|exact Hr|exact Ht| | |].
  - right. split; [done|]. rewrite Hl. by eexists.
  - case_decide; [|apply I]. apply NoDup_cons. split; [done|apply I].
  - intros t'. destruct (decide (t' = t)) as [->|Hne'].
    2: { apply (grants_other _ _ _ _ fw); auto; try (cbn; destruct p; by rewrite ?bool_decide_false by congruence); [|apply I].
         case_decide; [|done]. set_solver. }
    pose proof (g_rel _ _ _ _ G) as Grel. rewrite bool_decide_false in Grel by done.
    assert ((body_grants t (h ++ [GrantedTo t p]) + forward_grants t (h ++ [GrantedTo t p]) =
             S (body_grants t h + forward_grants t h))%nat) as C1.
    { unfold body_grants, forward_grants. rewrite !count_last. cbn.
      destruct p; rewrite bool_decide_true by done; lia. }
    assert (releases t (h ++ [GrantedTo t p]) = releases t h) as C2.
    { unfold releases. rewrite count_last. cbn. lia. }
    split; rewrite ?C2.
    + lia.
    + unfold forward_grants. rewrite count_last. fold (forward_grants t h). cbn. case_decide as D.
      * subst p. rewrite !bool_decide_true by (done || by left). lia.
      * rewrite bool_decide_false by done. lia.
    + intros _. lia.
    + intros e1 E. rewrite get_update, decide_True in E by done. simplify_eq. intros _ ?. congruence.
    + intros e1 E. rewrite get_update, decide_True in E by done. simplify_eq. intros _ _. split; [lia|].
      case_decide as D; [|done]. subst p. intros _. by exists l.
    + intros E. by rewrite get_update, decide_True in E.
Qed.

Lemma remove_first_elem x y l : NoDup l -> y ∈ remove_first x l <-> y ∈ l /\ y <> x.
Proof.
  induction 1 as [|z l Hz Hl IH]; cbn; [set_solver|]. case_decide; [subst; set_solver|].
  rewrite !elem_of_cons, IH. naive_solver.
Qed.

Lemma remove_first_nodup x l : NoDup l -> NoDup (remove_first x l).
Proof.
  induction 1 as [|z l Hz Hl IH]; cbn; [constructor|]. case_decide; [done|].
  apply NoDup_cons. split; [|done]. rewrite remove_first_elem by done. tauto.
Qed.

(** The history of a release. *)
Lemma grants_released t d d' fw h :
  grants_ok t d fw h -> t ∈ fw -> NoDup fw ->
  (forall e, get t d' = Some e -> receipt e = None -> status (task e) <> Claimed) ->
  grants_ok t d' (remove_first t fw) (h ++ [Released t]).
Proof.
  intros G Hin Hnd Hh. pose proof (g_fw _ _ _ _ G Hin) as Gf. pose proof (g_rel _ _ _ _ G) as Gr.
  rewrite bool_decide_true in Gr by done.
  assert (body_grants t (h ++ [Released t]) = body_grants t h) as C1.
  { unfold body_grants. rewrite count_last. cbn. lia. }
  assert (forward_grants t (h ++ [Released t]) = forward_grants t h) as C2.
  { unfold forward_grants. rewrite count_last. cbn. lia. }
  assert (releases t (h ++ [Released t]) = S (releases t h)) as C3.
  { unfold releases. rewrite count_last. cbn. rewrite bool_decide_true by done. lia. }
  assert (t ∉ remove_first t fw) as Hout by (rewrite remove_first_elem by done; tauto).
  split; rewrite ?C1, ?C2, ?C3; try lia.
  - rewrite bool_decide_false by done. lia.
  - done.
  - intros e E R S. exfalso. by apply (Hh e).
Qed.

(** A forward of [t] ended. *)
Lemma grants_other_end t t' d fw h x :
  t' <> t -> NoDup fw -> is_body_grant t' x = false -> is_forward_grant t' x = false -> is_release t' x = false ->
  grants_ok t' d fw h -> grants_ok t' d (remove_first t fw) (h ++ [x]).
Proof.
  intros Hne Hnd H1 H2 H3 G.
  assert (t' ∈ remove_first t fw <-> t' ∈ fw) as Hfw by (rewrite remove_first_elem by done; naive_solver).
  assert (body_grants t' (h ++ [x]) = body_grants t' h) as C1.
  { unfold body_grants. rewrite count_last, H1. lia. }
  assert (forward_grants t' (h ++ [x]) = forward_grants t' h) as C2.
  { unfold forward_grants. rewrite count_last, H2. lia. }
  assert (releases t' (h ++ [x]) = releases t' h) as C3.
  { unfold releases. rewrite count_last, H3. lia. }
  split; rewrite ?C1, ?C2, ?C3; try setoid_rewrite Hfw; try apply G.
  rewrite (bool_decide_ext _ _ Hfw). apply G.
Qed.

Lemma ok_given_back t d d' fw ts h :
  given_back t d d' -> t ∈ fw -> relay_ok d fw ts h ->
  relay_ok d' (remove_first t fw) ts (h ++ [Released t]).
Proof.
  intros (e & l & e' & Hg & Hr & Hs & Hl & Hp & -> & Ht & Hs') Hin I.
  assert (is_Some (answer_version e')) as Hv.
  { destruct Ht as (_ & _ & _ & _ & ->). destruct (get_version _ _ _ Hg) as [? ->]. by eexists. }
  apply (ok_hands t e e' d fw); [exact I|exact Hg|exact Hr|exact Ht|by left|apply remove_first_nodup, I|].
  intros t'. destruct (decide (t' = t)) as [->|Hne].
  - apply (grants_released t d); [apply I|done|apply I|].
    intros e1 E. rewrite get_update, decide_True in E by done. simplify_eq. intros _. congruence.
  - apply (grants_other _ _ _ _ fw); auto; [|cbn; by rewrite bool_decide_false|apply I].
    rewrite remove_first_elem by apply I. naive_solver.
Qed.

(** What does not touch the database. *)
Lemma ok_book d fw fw' ts ts' h h' :
  relay_ok d fw ts h -> NoDup fw' -> (forall t, grants_ok t d fw' h') ->
  (forall t e, TaskAdmitted t e ∈ h <-> TaskAdmitted t e ∈ h') ->
  (forall t r door ret p, Verified t r door ret p ∈ ts' -> Verified t r door ret p ∈ ts \/
     authorised t r h' /\ signature r <> EmptyString) ->
  relay_ok d fw' ts' h'.
Proof.
  intros I Hfw G Ha Ht.
  assert (forall t r, authorised t r h -> authorised t r h') as Hau.
  { intros t r (E & e0 & door & key & Hin & R). split; [done|]. exists e0, door, key. by rewrite <- Ha. }
  split; try apply I; auto.
  - intros t Hn. apply (ro_new _ _ _ _ I). intros [e He]. apply Hn. exists e. by apply Ha.
  - intros t e E. destruct (ro_terms _ _ _ _ I t e E) as (e0 & Hin & T). exists e0. by rewrite <- Ha.
  - intros t r E. by apply Hau, (ro_auth _ _ _ _ I).
  - intros t r door ret p Hin. destruct (Ht t r door ret p Hin) as [Hin'|]; [|done].
    destruct (ro_turns _ _ _ _ I t r door ret p Hin'). auto.
Qed.

Lemma ok_turns d fw ts ts' h :
  relay_ok d fw ts h ->
  (forall t r door ret p, Verified t r door ret p ∈ ts' -> Verified t r door ret p ∈ ts \/
     authorised t r h /\ signature r <> EmptyString) ->
  relay_ok d fw ts' h.
Proof. intros I H. apply (ok_book d fw fw ts ts' h h); auto; apply I. Qed.

(** Fewer forwards are under way. *)
Lemma ok_fewer d fw fw' ts ts' h :
  relay_ok d fw ts h -> NoDup fw' -> (forall t, t ∈ fw' -> t ∈ fw) -> (forall x, x ∈ ts' -> x ∈ ts) ->
  relay_ok d fw' ts' h.
Proof.
  intros I Hnd Hsub Hts. apply (ok_book d fw _ ts _ h h); auto. intros t'.
  pose proof (ro_grants _ _ _ _ I t') as G. split; try apply G; auto.
  - pose proof (g_rel _ _ _ _ G). repeat case_bool_decide; try lia. exfalso. auto.
  - intros Hin. apply (g_fw _ _ _ _ G). auto.
  - intros e E R S. destruct (g_held _ _ _ _ G e E R S) as [G1 G2]. auto.
Qed.

Lemma ok_ended_unheld t d fw ts h :
  relay_ok d fw ts h -> t ∈ fw ->
  (forall e l, get t d = Some e -> receipt e = None -> status (task e) = Claimed -> claim_lease e = Some l ->
     presenter l <> Some by_mcp_forward) ->
  relay_ok d (remove_first t fw) ts (h ++ [Released t]).
Proof.
  intros I Hin Hun. apply (ok_book d fw _ ts ts h); auto.
  - apply remove_first_nodup, I.
  - intros t'. destruct (decide (t' = t)) as [->|Hne].
    + apply (grants_released t d); [apply I|done|apply I|]. intros e E R S.
      destruct (g_held _ _ _ _ (ro_grants _ _ _ _ I t) e E R S) as [_ G]. destruct (G Hin) as (l & Hl & Hp).
      by apply (Hun e l).
    + apply grants_other_end; auto; [apply I|cbn; by rewrite bool_decide_false|apply I].
  - intros t' e. rewrite elem_of_app, list_elem_of_singleton. naive_solver.
Qed.

(** A settlement writer's insert. *)
Lemma ok_row table row d fw ts h :
  relay_ok d fw ts h -> relay_ok (insert_settlement table row d).2 fw ts h.
Proof.
  intros I. unfold insert_settlement. destruct (settlement_guard row d) eqn:Hg; [done|]. cbn [snd].
  set (d' := match table with in_relay_settlements => _ | in_federation_settlements => _ end).
  assert (relay_task_queue d' = relay_task_queue d /\ relay_task_answers d' = relay_task_answers d) as [Eq Ea]
    by (by destruct table).
  assert (forall t, get t d' = get t d) as Gt by (intros t; unfold get; by rewrite Eq).
  assert (forall t, answer_for t d' = answer_for t d) as At by (intros t; unfold answer_for; by rewrite Ea).
  assert (forall t, settlementRowsFor t d' ≡ₚ
            settlementRowsFor t d ++ (if decide (sn_task_id row = t) then [row] else [])) as Rt.
  { intros t. unfold settlementRowsFor. subst d'. destruct table; cbn [relay_settlements relay_federation_settlements];
      rewrite filter_app, filter_cons, filter_nil; case_decide; rewrite ?app_nil_r; auto; by solve_Permutation. }
  split; try apply I.
  - rewrite Eq. apply I.
  - intros t. unfold view. rewrite Gt, At. apply I.
  - intros t Hne. rewrite Rt. case_decide as E; [|rewrite app_nil_r; by apply I]. subst t.
    unfold settlement_guard in Hg. rewrite bool_decide_false in Hg by done. cbn in Hg.
    apply orb_false_iff in Hg as [Hg _]. apply negb_false_iff, bool_decide_eq_true in Hg. by rewrite Hg.
  - intros t r row' Hne Hr. rewrite Rt. unfold answered_with in Hr. rewrite At in Hr.
    intros [Hin|Hin]%elem_of_app; [by apply (ro_named _ _ _ _ I t r row')|].
    case_decide as E; [|by apply elem_of_nil in Hin]. apply list_elem_of_singleton in Hin as ->. subst t.
    unfold settlement_guard in Hg. rewrite bool_decide_false in Hg by done. cbn in Hg.
    apply orb_false_iff in Hg as [_ Hg].
    assert (task_known (sn_task_id row) d = true) as Hk.
    { unfold task_known, answer_for in *. destruct (jm_get _ (relay_task_answers d)); [|done].
      rewrite (bool_decide_true (is_Some (Some _))) by (by eexists). apply orb_true_r. }
    rewrite Hk in Hg. cbn in Hg. apply negb_false_iff in Hg. unfold claimed_for in Hg.
    unfold rowNames. destruct (receipt_signature row) as [sig|]; [|done].
    pose proof (ro_view _ _ _ _ I (sn_task_id row)) as Hv. unfold view, get, answer_for in *.
    destruct (jm_get (sn_task_id row) (relay_task_answers d)) as [a|] eqn:Eans; [|done]. cbn in Hr. simplify_eq.
    destruct (jm_get (sn_task_id row) (relay_task_queue d)) as [q|] eqn:Equ; cbn in Hv.
    + destruct (receipt (row_entry q)) as [r0|]; [|by destruct Hv as (_ & _ & ? & _)].
      destruct Hv as (Hs & _ & _ & _ & v & t & _ & [= ->]). cbn in *.
      apply bool_decide_eq_true in Hg. apply bool_decide_eq_true. congruence.
    + destruct Hv as [_ Hs]. apply bool_decide_eq_true in Hg. apply bool_decide_eq_true. congruence.
  - intros t. rewrite Gt, At. apply I.
  - intros t e. rewrite Gt. apply I.
  - intros t r. unfold answered_with. rewrite At. apply I.
  - intros t. pose proof (ro_grants _ _ _ _ I t) as G. split; rewrite ?Gt, ?At; apply G.
Qed.

(** An admission. *)
Lemma ok_admitted t e e' d fw ts h h' :
  relay_ok d fw ts h -> ~ known_id t h -> same_terms e e' -> receipt e' = None -> settling e' = None -> settled e' = None ->
  (status (task e') = Pending /\ h' = h ++ [TaskAdmitted t e] \/
   status (task e') = Claimed /\ is_Some (claim_lease e') /\ h' = h ++ [TaskAdmitted t e; GrantedTo t submitter]) ->
  relay_ok (set_rows (jm_set t {| row_entry := e'; row_version := 0 |} (relay_task_queue d)) d) fw ts h'.
Proof.
  intros I Hn Htm Hr Hs Hd Hcase. destruct (ro_new _ _ _ _ I t Hn) as [E F].
  set (d' := set_rows _ d).
  assert (forall t', get t' d' = if decide (t' = t) then Some (set_version (Some 0) e') else get t' d) as Gt.
  { intros t'. unfold get, d'. cbn. rewrite jm_get_set. by case_decide. }
  assert (forall t', answer_for t' d' = answer_for t' d) as At by done.
  assert (forall x, x ∈ h -> x ∈ h') as Hh.
  { intros x Hx. destruct Hcase as [[_ ->]|(_ & _ & ->)]; apply elem_of_app; by left. }
  assert (TaskAdmitted t e ∈ h') as Hin by (destruct Hcase as [[_ ->]|(_ & _ & ->)]; set_solver).
  assert (forall t' r, authorised t' r h -> authorised t' r h') as Hau.
  { intros t' r (Eb & e0 & door & key & Hx & R). split; [done|]. exists e0, door, key. auto. }
  pose proof (ro_grants _ _ _ _ I t) as G. pose proof (g_gone _ _ _ _ G E F) as Gg.
  assert (t ∉ fw) as Hfw by (intros Hx; pose proof (g_fw _ _ _ _ G Hx); lia).
  pose proof (g_rel _ _ _ _ G) as Gr. rewrite bool_decide_false in Gr by done.
  assert (forall t', t' <> t -> body_grants t' h' = body_grants t' h /\ forward_grants t' h' = forward_grants t' h /\
            releases t' h' = releases t' h) as C.
  { intros t' Hne. unfold body_grants, forward_grants, releases.
    destruct Hcase as [[_ ->]|(_ & _ & ->)]; rewrite !count_app; cbn; rewrite ?bool_decide_false by congruence; cbn; lia. }
  assert (forward_grants t h' = forward_grants t h /\ releases t h' = releases t h /\
          body_grants t h' = (if decide (status (task e') = Claimed) then S (body_grants t h) else body_grants t h)) as (C1 & C2 & C3).
  { unfold body_grants, forward_grants, releases.
    destruct Hcase as [[Es ->]|(Es & _ & ->)]; rewrite !count_app; [rewrite decide_False by congruence|rewrite decide_True by done];
      cbn; rewrite ?bool_decide_true by done; cbn; lia. }
  split; auto.
  - apply jm_wf_set, I.
  - intros t'. unfold view. rewrite Gt, At. destruct (decide (t' = t)) as [->|]; [|apply I].
    cbn. rewrite Hr, Hs, Hd, F. split_and!; auto. destruct Hcase as [[? _]|(? & ? & _)]; auto.
  - intros t' Hne. by apply (ro_rows _ _ _ _ I).
  - intros t' r row Hne. by apply (ro_named _ _ _ _ I).
  - intros t' Hn'. rewrite Gt, At. destruct (decide (t' = t)) as [->|]; [destruct Hn'; by exists e|].
    apply (ro_new _ _ _ _ I). intros [e1 H1]. apply Hn'. exists e1. auto.
  - intros t' e1. rewrite Gt. destruct (decide (t' = t)) as [->|]; [intros [= <-]; exists e; split; [done|]|].
    + unfold same_terms in *. by cbn.
    + intros E1. destruct (ro_terms _ _ _ _ I t' e1 E1) as (e0 & Hx & T). exists e0. auto.
  - intros t' r Hx. by apply Hau, (ro_auth _ _ _ _ I).
  - intros t' r door ret p Hx. destruct (ro_turns _ _ _ _ I t' r door ret p Hx). auto.
  - apply I.
  - intros t'. destruct (decide (t' = t)) as [->|Hne].
    + assert (get t d' = Some (set_version (Some 0) e')) as Gt' by (by rewrite Gt, decide_True).
      split; rewrite ?C1, ?C2, ?C3, ?Gt'; rewrite ?bool_decide_false by done; try done; try lia.
      * destruct (decide (status _ = _)); lia.
      * intros e1 [= <-] _ Hst. cbn in Hst. rewrite decide_False by congruence. lia.
      * intros e1 [= <-] _ Hst. cbn in Hst. rewrite decide_True by done. split; [lia|done].
    + pose proof (ro_grants _ _ _ _ I t') as G'. destruct (C t' Hne) as (D1 & D2 & D3).
      assert (get t' d' = get t' d) as Gt' by (by rewrite Gt, decide_False).
      split; rewrite ?D1, ?D2, ?D3, ?Gt', ?At; apply G'.
Qed.

(** ** Every turn *)

Definition sys_ok (s : relay) : Prop := relay_ok (db s) (forwards s) (turns s) (history s).

Lemma sys_claims_quiet {A} (m : claims_call A) s :
  quiet_call m -> sys_ok s -> sys_ok (on_claims m nothing s).
Proof.
  intros Q I. destruct (Q (claims s)) as (a & c & E & Hq). unfold on_claims. rewrite E.
  unfold sys_ok. cbn. by apply (ok_quiet (db s)).
Qed.

Lemma admitted_before_spec t s : admitted_before t s = true <-> known_id t (history s).
Proof.
  unfold admitted_before. rewrite existsb_exists. split.
  - intros ([t' e| |] & Hin & E); try done. apply bool_decide_eq_true in E as ->. exists e. by apply list_elem_of_In.
  - intros [e Hin]. exists (TaskAdmitted t e). split; [by apply list_elem_of_In|]. by apply bool_decide_eq_true_2.
Qed.

Lemma sys_admit t a now ttl sp s : sys_ok s -> sys_ok (admit_task t a now ttl sp s).
Proof.
  intros I. unfold admit_task. destruct (admitted_before t s) eqn:Hb; [done|].
  assert (~ known_id t (history s)) as Hn by (intros H; apply admitted_before_spec in H; congruence).
  destruct (ro_new _ _ _ _ I t Hn) as [E _]. cbv zeta.
  set (e := queued_entry t a now ttl). set (q := if sp then grantToSubmitter e (ad_submitted_by a) else e).
  assert (set t q (db s) = (Ok tt, set_rows (jm_set t {| row_entry := q; row_version := 0 |} (relay_task_queue (db s))) (db s))) as Es.
  { unfold get in E. unfold set. destruct (jm_get t (relay_task_queue (db s))) eqn:Ej; [done|].
    unfold insert_row, answer_insert_guard. rewrite Ej. subst q. by destruct sp. }
  unfold on_queue. rewrite Es. unfold sys_ok.
  destruct sp; cbn [q db claims set_db set_claims happen taskQueue forwards turns history];
    [rewrite <- app_assoc|];
    apply (ok_admitted t e _ _ _ _ (history s)); try done.
  - right. split; [done|]. split; [by eexists|done].
  - by left.
Qed.

Lemma sys_receipt t r door ret p s :
  sys_ok s -> sys_ok (run_event leaseMs routed verify s (ReceiptIn t r door ret p)).
Proof.
  intros I. cbn. destruct (answer_checks routed verify t r door (db s)) as [?|] eqn:Hc; [done|].
  apply (ok_turns _ _ (turns s)); [exact I|]. cbn. intros t' r' door' ret' p' [Hin|Hin]%elem_of_app; [by left|right].
  apply list_elem_of_singleton in Hin. injection Hin as -> -> -> -> ->.
  unfold answer_checks in Hc. destruct (get t (db s)) as [e|] eqn:Hg; [|done].
  destruct (ro_terms _ _ _ _ I t e Hg) as (e0 & Hin & Ht).
  case_bool_decide as Eb; [cbn [negb] in Hc|done].
  destruct (bool_decide (settlement_mode e = Some p2p_mode) && _) eqn:Ep; [done|].
  destruct (pinRefusesAnswer e (rc_motebit_id r)) eqn:Epin; [done|].
  destruct (routed e r door) eqn:Er; [cbn [negb] in Hc|done].
  unfold verifySignature in Hc. case_bool_decide as Es; [done|].
  destruct (verify r door) as [|key] eqn:Ev; [done|]. destruct Ht as (T1 & T2 & T3 & T4).
  split; [|done]. split; [done|]. exists e0, door, key. split_and!; [done| | |by exists e|done].
  - unfold pinRefusesAnswer, pinOf in *. rewrite T2 in Epin. by apply negb_false_iff in Epin.
  - intros Hm. rewrite T4, Hm in Ep. rewrite bool_decide_true in Ep by done. cbn in Ep.
    apply negb_false_iff in Ep. unfold receiptDischargesP2p, p2pPayeeOf in *. rewrite T1, T3 in Ep.
    by apply bool_decide_eq_true in Ep.
Qed.

Lemma sys_resume i done_ now s : sys_ok s -> sys_ok (run_event leaseMs routed verify s (Resume i done_ now)).
Proof.
  intros I. cbn. destruct (turns s !! i) as [x|] eqn:Hi; [|done].
  set (s1 := set_turns (delete i (turns s)) s).
  assert (sys_ok s1) as I1.
  { apply (ok_turns _ _ (turns s)); [exact I|]. intros t r door ret p Hin. left. exact (list_elem_of_delete_inv _ i _ Hin). }
  destruct x as [t r door ret p|t e|t r]; cbn [resume]; unfold on_queue.
  - destruct (ro_turns _ _ _ _ I t r door ret p) as [Hau Hsig]; [by eapply list_elem_of_lookup_2|].
    destruct (answer_write_spec t r door ret p now (db s1)) as (v & d' & E & H); [apply I1|done|].
    rewrite E. assert (sys_ok (set_db d' s1)) as I2.
    { destruct H as [Q|A]; [by apply (ok_quiet (db s1))|by apply (ok_answers t r (db s1))]. }
    destruct v as [e' f g b|]; [|done]. apply (ok_turns _ _ (turns (set_db d' s1))); [exact I2|].
    cbn. intros t' r' door' ret' p' [Hin|Hin]%elem_of_app; [by left|by apply list_elem_of_singleton in Hin].
  - destruct (admit_taken_quiet t e now (db s1)) as (a & d' & E & Q); [apply I1|]. rewrite E.
    assert (sys_ok (set_db d' s1)) as I2 by (by apply (ok_quiet (db s1))).
    destruct a; try done. apply (ok_turns _ _ (turns (set_db d' s1))); [exact I2|].
    cbn. intros t' r' door' ret' p' [Hin|Hin]%elem_of_app; [by left|by apply list_elem_of_singleton in Hin].
  - destruct (admit_settled_quiet t r done_ now (db s1)) as (d' & E & Q); [apply I1|]. rewrite E.
    by apply (ok_quiet (db s1)).
Qed.

Lemma sys_planned_peer_refused t s :
  sys_ok s -> sys_ok (run_event leaseMs routed verify s (PlannedPeerRefused t)).
Proof.
  intros I. cbn. unfold on_queue, planned_peer_refused. destruct (get t (db s)) as [e|] eqn:Hg; [|exact I].
  case_bool_decide; [|exact I]. rewrite (set_update t e) by done.
  apply (ok_quiet (db s)); [|exact I]. apply (touch_quiet t e); [done|done|]. split; [done|]. eauto.
Qed.

Lemma sys_forward_ended t called now s :
  sys_ok s -> sys_ok (run_event leaseMs routed verify s (ForwardEnded t called now)).
Proof.
  intros I. cbn. case_bool_decide as Hin; [|done].
  destruct (forwardEnded_spec t called now (claims s)) as (a & c & E & H).
  assert (NoDup (forwards s)) as Hnd by apply I.
  assert (forall x, x ∈ remove_first t (forwards s) -> x ∈ forwards s) as Hsub.
  { intros x. rewrite remove_first_elem by done. tauto. }
  unfold on_claims. destruct called; cbn [claims happen set_forwards]; rewrite E; unfold sys_ok; cbn.
  - destruct H as [[? _]|[Q _]]; [done|]. apply (ok_quiet (db s)); [done|].
    apply (ok_fewer _ (forwards s) _ (turns s)); auto. by apply remove_first_nodup.
  - destruct H as [[_ G]|[Q H]]; [by apply (ok_given_back t (db s))|].
    destruct (H eq_refl) as [-> Hun]. by apply ok_ended_unheld.
Qed.

Theorem run_event_ok s ev : sys_ok s -> sys_ok (run_event leaseMs routed verify s ev).
Proof.
  intros I. destruct ev as [t a now ttl sp|t mid peer lease now|t mid dev now|t w|t called now|now|now|now|n
                           |t r door ret p|i done_ now|t door now|table row|t|].
  - by apply sys_admit.
  - cbn. unfold on_claims. destruct (claim_spec leaseMs t mid peer lease now (claims s)) as [[why E]|(ms & c & E & G)];
      rewrite E; [exact I|]. apply (ok_granted t ws (db s)); done.
  - apply sys_claims_quiet; [apply renew_quiet|done].
  - cbn. unfold on_claims. destruct (grantForward_spec t w (claims s)) as [E|(c & E & G)]; rewrite E; [exact I|].
    by apply (ok_granted t by_mcp_forward (db s)).
  - by apply sys_forward_ended.
  - apply sys_claims_quiet; [apply expire_quiet|done].
  - apply sys_claims_quiet; [apply sweep_quiet|done].
  - apply (ok_quiet (db s)); [|exact I]. apply cleanup_quiet, I.
  - apply (ok_quiet (db s)); [|exact I]. apply evict_quiet, I.
  - by apply sys_receipt.
  - by apply sys_resume.
  - cbn. unfold on_queue. destruct (claimStoredAnswer_quiet t door now (db s)) as [a E]; [apply I|].
    rewrite E. apply I.
  - cbn. unfold on_queue. pose proof (ok_row table row (db s) (forwards s) (turns s) (history s) I) as H.
    by destruct (insert_settlement table row (db s)) as [[u|e] d].
  - by apply sys_planned_peer_refused.
  - apply (ok_fewer _ (forwards s) _ (turns s)); [exact I|constructor|set_solver|set_solver].
Qed.

Lemma fresh_ok : sys_ok fresh_relay.
Proof.
  split; cbn; try done; try constructor; try done; try set_solver.
Qed.

Lemma run_ok evs s : sys_ok s -> sys_ok (run leaseMs routed verify evs s).
Proof. revert s. induction evs as [|ev evs IH]; intros s I; [done|]. apply IH. by apply run_event_ok. Qed.

Lemma reachable_ok evs : sys_ok (run leaseMs routed verify evs fresh_relay).
Proof. apply run_ok, fresh_ok. Qed.

(** ** What is never taken back *)

Definition grows (d d' : task_db) : Prop :=
  (forall t r, answered_with t d = Some r -> answered_with t d' = Some r) /\
  (forall t row, row ∈ settlementRowsFor t d -> row ∈ settlementRowsFor t d').

Lemma task_grows_refl d : grows d d.
Proof. by split. Qed.

Lemma task_grows_trans d1 d2 d3 : grows d1 d2 -> grows d2 d3 -> grows d1 d3.
Proof. intros [A1 R1] [A2 R2]. split; auto. Qed.

Lemma quiet_grows d d' : quiet d d' -> grows d d'.
Proof. intros (_ & Hr & _ & Ha). split; intros t ?; [by rewrite Ha|by rewrite Hr]. Qed.

Lemma answers_grows t r d d' : answers t r d d' -> grows d d'.
Proof.
  intros (_ & Hr & _ & Ho & Hn & _). split; [|intros t' ?; by rewrite Hr].
  intros t' r' H. destruct (decide (t' = t)) as [->|Hne]; [congruence|by rewrite Ho].
Qed.

Lemma set_grows t e d : grows d (set t e d).2.
Proof.
  unfold set, call_bind, insert_row, writeRow. repeat (case_match; simplify_eq/=); split; done.
Qed.

Lemma granted_grows t p d d' : granted_to t p d d' -> grows d d'.
Proof. intros (e & e' & l & _ & _ & _ & _ & -> & _). exact (task_grows_refl d). Qed.

Lemma row_grows table row d : grows d (insert_settlement table row d).2.
Proof.
  unfold insert_settlement. destruct (settlement_guard row d); [apply task_grows_refl|]. split.
  - intros t r. by destruct table.
  - intros t x. unfold settlementRowsFor.
    destruct table; cbn; rewrite filter_app, !elem_of_app; naive_solver.
Qed.

Lemma resume_grows x done_ now s1 s2 :
  sys_ok s1 -> (forall t r door ret p, x = Verified t r door ret p -> signature r <> EmptyString) ->
  s2 = resume x done_ now s1 -> grows (db s1) (db s2).
Proof.
  intros I Hsig ->. destruct x as [t r door ret p|t e|t r]; cbn [resume]; unfold on_queue.
  - destruct (answer_write_spec t r door ret p now (db s1)) as (v & d' & E & H); [apply I|by eapply Hsig|].
    rewrite E. assert (grows (db s1) d') by (destruct H; [by apply quiet_grows|by eapply answers_grows]).
    by destruct v.
  - destruct (admit_taken_quiet t e now (db s1)) as (a & d' & E & Q); [apply I|]. rewrite E.
    apply quiet_grows in Q. by destruct a.
  - destruct (admit_settled_quiet t r done_ now (db s1)) as (d' & E & Q); [apply I|]. rewrite E.
    by apply quiet_grows in Q.
Qed.

Lemma claims_grows {A} (m : claims_call A) s : quiet_call m -> grows (db s) (db (on_claims m nothing s)).
Proof. intros Q. destruct (Q (claims s)) as (a & c & E & Hq). unfold on_claims. rewrite E. by apply quiet_grows. Qed.

Lemma run_event_grows s ev : sys_ok s -> grows (db s) (db (run_event leaseMs routed verify s ev)).
Proof.
  intros I. destruct ev as [t a now ttl sp|t mid peer lease now|t mid dev now|t w|t called now|now|now|now|n
                           |t r door ret p|i done_ now|t door now|table row|t|]; cbn [run_event].
  - unfold admit_task. destruct (admitted_before t s); [apply task_grows_refl|]. cbv zeta. unfold on_queue.
    set (q := if sp then _ else _). pose proof (set_grows t q (db s)) as G.
    destruct (set t q (db s)) as [[u|e] d]; [by destruct sp|done].
  - unfold on_claims. destruct (claim_spec leaseMs t mid peer lease now (claims s)) as [[why E]|(ms & c & E & G)];
      rewrite E; [apply task_grows_refl|by apply (granted_grows t ws)].
  - apply claims_grows, renew_quiet.
  - unfold on_claims. destruct (grantForward_spec t w (claims s)) as [E|(c & E & G)]; rewrite E; [apply task_grows_refl|].
    by apply (granted_grows t by_mcp_forward).
  - case_bool_decide as Hin; [|apply task_grows_refl]. unfold on_claims.
    destruct (forwardEnded_spec t called now (claims s)) as (a & c & E & H).
    assert (grows (db s) (taskQueue c)) as G.
    { destruct H as [[_ (e & l & e' & _ & _ & _ & _ & _ & -> & _)]|[Q _]]; [exact (task_grows_refl (db s))|by apply quiet_grows]. }
    by destruct called; cbn [claims happen set_forwards]; rewrite E.
  - apply claims_grows, expire_quiet.
  - apply claims_grows, sweep_quiet.
  - apply quiet_grows, cleanup_quiet, I.
  - apply quiet_grows, evict_quiet, I.
  - destruct (answer_checks _ _ _ _ _ _); apply task_grows_refl.
  - destruct (turns s !! i) as [x|] eqn:Hi; [|apply task_grows_refl].
    apply (resume_grows x done_ now (set_turns (delete i (turns s)) s)); [| |done].
    + apply (ok_turns _ _ (turns s)); [exact I|]. intros t r door ret p Hin. left. exact (list_elem_of_delete_inv _ i _ Hin).
    + intros t r door ret p ->. eapply (ro_turns _ _ _ _ I). by eapply list_elem_of_lookup_2.
  - unfold on_queue. destruct (claimStoredAnswer_quiet t door now (db s)) as [a E]; [apply I|]. rewrite E. apply task_grows_refl.
  - unfold on_queue. pose proof (row_grows table row (db s)) as G.
    by destruct (insert_settlement table row (db s)) as [[u|e] d].
  - unfold on_queue, planned_peer_refused. destruct (get t (db s)) as [e|]; [|apply task_grows_refl].
    case_bool_decide; [|apply task_grows_refl]. pose proof (set_grows t (set_planned_peer None e) (db s)) as G.
    by destruct (set t _ (db s)) as [[u|er] d].
  - apply task_grows_refl.
Qed.

Lemma run_grows evs s : sys_ok s -> grows (db s) (db (run leaseMs routed verify evs s)).
Proof.
  revert s. induction evs as [|ev evs IH]; intros s I; [apply task_grows_refl|].
  eapply task_grows_trans; [by apply (run_event_grows s ev)|]. apply IH. by apply run_event_ok.
Qed.

Lemma run_app evs evs' s : run leaseMs routed verify (evs ++ evs') s = run leaseMs routed verify evs' (run leaseMs routed verify evs s).
Proof. unfold run. by rewrite foldl_app. Qed.
End system.

(** ** Properties *)



(** C31: only an authorised receipt answers.  The answer of a task names that task,
    is signed by the executor its admission pinned, if any, and by the worker it was
    paid to when it is a P2P task, came by a door on a recorded route, and its
    signature was verified there; also when claims, renewals and other writes of the
    entry came between those checks and the write. *)
Theorem only_authorised_answers leaseMs routed verify evs t r :
  let s := run leaseMs routed verify evs fresh_relay in
  answered_with t (db s) = Some r -> authorised routed verify t r (history s).
Proof. intros s H. by apply (ro_auth _ _ _ _ _ _ (reachable_ok leaseMs routed verify evs)). Qed.


(** ** Witnesses *)

Definition demo_terms : admission_terms := {|
  ad_motebit_id := "m"; ad_prompt := "p"; ad_submitted_by := Some "s"%string; ad_task_submitted_by := Some "s"%string;
  ad_required_capabilities := None; ad_origin_relay := None; ad_settlement_mode := Some relay_mode;
  ad_target_agent := None; ad_pinned_executor := Some "m"%string; ad_planned_peer := None; ad_rest := "" |}.
Definition demo_peer : ClaimingPeer := {|
  deviceId := "d"; deviceIdVerified := true; capabilities := None; authenticatedDid := Some "d"%string;
  deviceIdDeclared := Some true |}.
Definition demo_receipt : ExecutionReceipt := {|
  rc_task_id := "t"; relay_task_id := None; rc_motebit_id := "m"; rc_device_id := Some "d"%string;
  rc_status := "completed"; signature := "sig"; result_hash := "h"; rc_rest := "" |}.

(** Claimed, its lease renewed while the answer is being verified, answered. *)
Definition demo_answer : list event := [
  Admit "t" demo_terms 0 10 false; Claim "t" "m" demo_peer true 1;
  ReceiptIn "t" demo_receipt result_post 1000 (Some (Some "d"%string));
  Renew "t" "m" "d" 2; Resume 0 true 3].
(** Its settlement step, a settlement row, and a sweep. *)
Definition demo_settle : list event := [
  Resume 0 true 4;
  SettlementRow in_relay_settlements {| sn_task_id := "t"; receipt_signature := Some "sig"%string; receipt_hash := "h" |};
  Resume 0 true 5; Expire 100000; Cleanup 100000000].

Definition demo_run : list event -> relay -> relay := run 30000 (fun _ _ _ => true) (fun _ _ => inr "key"%string).


Lemma only_authorised_answers_witness :
  authorised (fun _ _ _ => true) (fun _ _ => inr "key"%string) "t" demo_receipt
    (history (demo_run demo_answer fresh_relay)).
Proof. apply only_authorised_answers with (leaseMs := 30000). vm_compute. reflexivity. Defined.
