(* ===== verification/TaskExpiry.v ===== *)
(** * Expiry of tasks

    The life-cycle pass of the relay ([index.ts], [sweepTaskLifecycle]): [expire] of
    [task-claim.ts], then [cleanup] of the queue; what it does to each entry, and that
    no task is deleted silently. *)

From Stdlib Require Import String.
From S2P Require Import Prelude JsMap JsString TaskTypes TaskQueue TaskClaims TaskAnswer TaskRelay TaskLaws TaskSystem.
Local Open Scope Z_scope.


(** The entry after [expire]'s loop body. *)
Definition expire_entry (now : Z) (e : TaskQueueEntry) : TaskQueueEntry :=
  if bool_decide (is_Some (receipt e)) || (now <=? expiresAt e) then e else
  if bool_decide (status (task e) = Pending) then
    if bool_decide (is_Some (expired_unclaimed e)) then e else set_expired now (now + EXPIRED_VISIBLE_MS) e
  else if negb (bool_decide (status (task e) = Claimed)) then e else
  if bool_decide (is_Some (claim_lease e ≫= undetermined_at)) then e else
  if lease_live now e then e else set_lease (Some (lapsed_lease now e)) e.

Lemma expire_one_entry now x c :
  exists b c', expire_one now x c = (Ok b, c') /\
    forall t, get t (taskQueue c') =
              if decide (t = x) then expire_entry now <$> get t (taskQueue c) else get t (taskQueue c).
Proof.
  unfold expire_one. rewrite bind_get.
  assert (forall e', match get x (taskQueue c) with Some e => e' = e | None => False end ->
            expire_entry now e' = e' ->
            forall t, get t (taskQueue c) = if decide (t = x) then expire_entry now <$> get t (taskQueue c) else get t (taskQueue c)) as K.
  { intros e' He Hid t. case_decide; [subst t|done]. destruct (get x (taskQueue c)); [|done]. subst. cbn. by rewrite Hid. }
  assert (forall e e' (b : bool), get x (taskQueue c) = Some e -> expire_entry now e = e' ->
            answer_version e' = answer_version e -> answerOf e' = answerOf e ->
            exists (b' : bool) c', call_bind (queue_set x e') (fun _ => call_ret b) c = (Ok b', c') /\
              forall t, get t (taskQueue c') =
                if decide (t = x) then expire_entry now <$> get t (taskQueue c) else get t (taskQueue c)) as W.
  { intros e e' b Hg He Hv Ha. unfold call_bind. rewrite (queue_set_update x e) by done.
    eexists _, _. split; [done|]. intros t. cbn [taskQueue with_queue]. rewrite get_update.
    - case_decide; [subst t|done]. rewrite Hg. cbn. by rewrite He.
    - rewrite Hv. destruct (get_version _ _ _ Hg) as [? ->]. by eexists. }
  destruct (get x (taskQueue c)) as [e|] eqn:Hg.
  2: { eexists _, _. split; [done|]. intros t. case_decide; [subst t; by rewrite Hg|done]. }
  unfold expire_entry in K, W |- *. specialize (K e eq_refl). specialize (W e).
  destruct (bool_decide (is_Some (receipt e)) || _); [eexists _, c; split; [done|by apply K]|].
  destruct (bool_decide (status (task e) = Pending)).
  { destruct (bool_decide (is_Some (expired_unclaimed e))); [eexists _, c; split; [done|by apply K]|]. by apply W. }
  destruct (negb (bool_decide (status (task e) = Claimed))); [eexists _, c; split; [done|by apply K]|].
  destruct (bool_decide (is_Some (claim_lease e ≫= undetermined_at))); [eexists _, c; split; [done|by apply K]|].
  destruct (lease_live now e); [eexists _, c; split; [done|by apply K]|]. by apply W.
Qed.

Lemma expire_entry_pending now e :
  receipt e = None -> expiresAt e < now -> status (task e) = Pending ->
  expire_entry now e = if bool_decide (is_Some (expired_unclaimed e)) then e
                       else set_expired now (now + EXPIRED_VISIBLE_MS) e.
Proof. intros Hr Ht Hs. unfold expire_entry. rewrite Hr, Hs. by rewrite (proj2 (Z.leb_gt _ _) Ht). Qed.

Lemma expire_entry_claimed now e :
  receipt e = None -> expiresAt e < now -> status (task e) = Claimed ->
  expire_entry now e = if bool_decide (is_Some (claim_lease e ≫= undetermined_at)) then e
                       else if lease_live now e then e else set_lease (Some (lapsed_lease now e)) e.
Proof. intros Hr Ht Hs. unfold expire_entry. rewrite Hr, Hs. by rewrite (proj2 (Z.leb_gt _ _) Ht). Qed.

(** What the loop body does to an entry. *)
Lemma expire_entry_cases now e :
  expire_entry now e = e \/
  (receipt e = None /\ expiresAt e < now /\ status (task e) = Pending /\ expired_unclaimed e = None /\
   expire_entry now e = set_expired now (now + EXPIRED_VISIBLE_MS) e) \/
  (receipt e = None /\ expiresAt e < now /\ status (task e) = Claimed /\
   expire_entry now e = set_lease (Some (lapsed_lease now e)) e).
Proof.
  unfold expire_entry. destruct (bool_decide (is_Some (receipt e)) || (now <=? expiresAt e)) eqn:E0; [by left|].
  apply orb_false_iff in E0 as [E0 E1]. apply bool_decide_eq_false, eq_None_not_Some in E0. apply Z.leb_gt in E1.
  case_bool_decide as Ep.
  { case_bool_decide as Ex; [by left|]. apply eq_None_not_Some in Ex. right. left. done. }
  case_bool_decide as Ec; cbn [negb]; [|by left].
  case_bool_decide; [by left|]. destruct (lease_live now e); [by left|]. by right; right.
Qed.

Lemma expire_entry_idem now e : expire_entry now (expire_entry now e) = expire_entry now e.
Proof.
  destruct (expire_entry_cases now e) as [E|[(Hr & Ht & Hs & Hx & E)|(Hr & Ht & Hs & E)]]; rewrite E; [done| |].
  - unfold expire_entry. cbn. rewrite (proj2 (Z.leb_le _ _)) by (unfold EXPIRED_VISIBLE_MS; lia).
    by rewrite orb_true_r.
  - rewrite expire_entry_claimed by done. rewrite bool_decide_true; [done|]. cbn. unfold lapsed_lease.
    by destruct (claim_lease e); eexists.
Qed.

Lemma each_expired_get now ids c :
  exists l c', each_changed (expire_one now) ids c = (Ok l, c') /\
    forall t, get t (taskQueue c') =
              if decide (t ∈ ids) then expire_entry now <$> get t (taskQueue c) else get t (taskQueue c).
Proof.
  revert c. induction ids as [|x ids IH]; intros c; [by exists [], c|].
  cbn [each_changed]. destruct (expire_one_entry now x c) as (b & c1 & E1 & G1).
  destruct (IH c1) as (l & c2 & E2 & G2). unfold call_bind. rewrite E1, E2.
  eexists _, _. split; [reflexivity|]. intros t. rewrite G2, G1.
  destruct (decide (t ∈ x :: ids)) as [Hin|Hin].
  - apply elem_of_cons in Hin. repeat case_decide; try done; [|naive_solver].
    destruct (get t (taskQueue c)) as [e|]; [|done]. cbn. by rewrite expire_entry_idem.
  - apply not_elem_of_cons in Hin as [H1 H2]. by rewrite !decide_False.
Qed.

(** [expire] does its body to every entry. *)
Lemma expire_get now c t :
  jm_wf (relay_task_queue (taskQueue c)) ->
  exists l c', expire now c = (Ok l, c') /\ get t (taskQueue c') = expire_entry now <$> get t (taskQueue c).
Proof.
  intros Hw. unfold expire. destruct (each_expired_get now (unansweredPastExpiry now (taskQueue c)) c) as (l & c' & E & G).
  exists l, c'. split; [done|]. rewrite G. case_decide as D; [done|].
  unfold get. destruct (jm_get t (relay_task_queue (taskQueue c))) as [row|] eqn:Er; [|done]. cbn. f_equal.
  set (e := rowToEntry row). unfold expire_entry.
  destruct (bool_decide (is_Some (receipt e)) || (now <=? expiresAt e)) eqn:E0; [done|].
  apply orb_false_iff in E0 as [E0 E1]. apply bool_decide_eq_false in E0. apply eq_None_not_Some in E0.
  apply Z.leb_gt in E1.
  assert (status (task e) <> Pending /\ status (task e) <> Claimed) as [Np Nc].
  { split; intros Es; apply D; unfold unansweredPastExpiry, jm_keys; apply list_elem_of_fmap; exists (t, row);
      (split; [done|]); apply list_elem_of_filter; (split; [|by apply jm_get_elem]); cbn in *; auto. }
  rewrite (bool_decide_false (status (task e) = Pending)) by done.
  by rewrite (bool_decide_false (status (task e) = Claimed)) by done.
Qed.

Lemma cleanup_get now t d :
  jm_wf (relay_task_queue d) ->
  get t (cleanup now d) = e ← get t d; if cleanable now e then None else Some e.
Proof.
  intros Hw. unfold get, cleanup. cbn. rewrite jm_get_filter by done.
  destruct (jm_get t (relay_task_queue d)) as [row|]; [|done]. cbn.
  change (cleanable now (rowToEntry row)) with (cleanable now (row_entry row)).
  case_decide as D; [by rewrite D|]. by destruct (cleanable now (row_entry row)).
Qed.

(** The pass on an unanswered entry: deleted, or kept and marked. *)
Definition kept_visible (now : Z) (e e' : TaskQueueEntry) : Prop :=
  receipt e' = None /\
  (expiresAt e < now -> (is_Some (expiredOf e') /\ now <= expiresAt e') \/ is_Some (undeterminedOf e') \/
                        lease_live now e' = true).

Lemma cleanable_claimed now e :
  receipt e = None -> status (task e) = Claimed -> cleanable now e = false.
Proof. intros H1 H2. unfold cleanable, heldGrant. rewrite H1, H2. by rewrite !bool_decide_true, andb_false_r by done. Qed.

Lemma pass_pending now e :
  receipt e = None -> settling e = None -> status (task e) = Pending ->
  (is_Some (expired_unclaimed e) /\ expiresAt e < now /\ cleanable now (expire_entry now e) = true) \/
  (cleanable now (expire_entry now e) = false /\ kept_visible now e (expire_entry now e)).
Proof.
  intros Hr Hset Hs. destruct (decide (expiresAt e < now)) as [Ht|Ht].
  - rewrite expire_entry_pending by done. case_bool_decide as Ex.
    + left. split_and!; [done|done|]. unfold cleanable, UNSETTLED_CLAIM_IN_QUEUE, heldGrant, unmarkedPending.
      rewrite Hr, Hset, Hs, (proj2 (Z.ltb_lt _ _) Ht). cbn. destruct Ex as [x ->]. done.
    + right. split.
      * unfold cleanable. cbn. by rewrite (proj2 (Z.ltb_ge _ _)) by (unfold EXPIRED_VISIBLE_MS; lia).
      * split; [done|]. intros _. left. split; [|cbn; unfold EXPIRED_VISIBLE_MS; lia].
        unfold expiredOf. cbn. rewrite Hr. by eexists.
  - right. assert (expire_entry now e = e) as ->.
    { unfold expire_entry. rewrite (proj2 (Z.leb_le _ _)) by lia. by rewrite orb_true_r. }
    split; [|by split]. unfold cleanable. by rewrite (proj2 (Z.ltb_ge _ _)) by lia.
Qed.

Lemma pass_claimed now e :
  receipt e = None -> status (task e) = Claimed ->
  cleanable now (expire_entry now e) = false /\ kept_visible now e (expire_entry now e).
Proof.
  intros Hr Hs. destruct (decide (expiresAt e < now)) as [Ht|Ht].
  - rewrite expire_entry_claimed by done. case_bool_decide as Eu; [|destruct (lease_live now e) eqn:El].
    + split; [by apply cleanable_claimed|]. split; [done|]. intros _. right. left.
      unfold undeterminedOf. destruct Eu as [u ->]. rewrite Hr. by eexists.
    + split; [by apply cleanable_claimed|]. split; [done|]. intros _. by right; right.
    + split; [by apply cleanable_claimed|]. split; [done|]. intros _. right. left.
      unfold undeterminedOf. cbn. rewrite Hr. unfold lapsed_lease. by destruct (claim_lease e); eexists.
  - assert (expire_entry now e = e) as ->.
    { unfold expire_entry. rewrite (proj2 (Z.leb_le _ _)) by lia. by rewrite orb_true_r. }
    split; [by apply cleanable_claimed|]. split; [done|]. lia.
Qed.

Lemma lifecycle_get leaseMs routed verify s now t e :
  sys_ok routed verify s -> get t (db s) = Some e ->
  get t (db (run leaseMs routed verify [Expire now; Cleanup now] s)) =
  if cleanable now (expire_entry now e) then None else Some (expire_entry now e).
Proof.
  intros I Hg. destruct (expire_get now (claims s) t (ro_wf _ _ _ _ _ _ I)) as (l & c' & Ex & Gx).
  destruct (expire_quiet now (claims s)) as (l2 & c2 & E2 & (_ & _ & W & _)). rewrite Ex in E2. injection E2 as _ <-.
  unfold run. cbn [foldl].
  assert (run_event leaseMs routed verify s (Expire now) = set_claims c' s) as ->.
  { cbn [run_event]. unfold on_claims. by rewrite Ex. }
  change (db (run_event _ _ _ _ _)) with (cleanup now (taskQueue c')).
  rewrite cleanup_get by apply W, I. change (get t (taskQueue (claims s))) with (get t (db s)) in Gx.
  by rewrite Gx, Hg.
Qed.

(** No task vanishes unanswered.  After the life-cycle pass at [now], an
    unanswered task is still there and, if its time had passed, says so: it reads as
    expired and stays readable, or as undetermined, or its lease is alive.  The pass
    deletes an unanswered task only when it had expired visibly before, without
    any grant, and that time is over too. *)
Theorem expiry_is_visible leaseMs routed verify evs now t e :
  let s := run leaseMs routed verify evs fresh_relay in
  let d' := db (run leaseMs routed verify [Expire now; Cleanup now] s) in
  get t (db s) = Some e -> receipt e = None ->
  (is_Some (expired_unclaimed e) /\ status (task e) = Pending /\ expiresAt e < now /\ get t d' = None) \/
  exists e', get t d' = Some e' /\ kept_visible now e e'.
Proof.
  intros s d' Hg Hr. pose proof (reachable_ok leaseMs routed verify evs) as I.
  pose proof (ro_view _ _ _ _ _ _ I t) as Hv. fold s in Hv. unfold view in Hv. rewrite Hg in Hv. cbn in Hv.
  rewrite Hr in Hv. destruct Hv as (Hset & _ & _ & _ & Hst).
  subst d'. rewrite (lifecycle_get _ _ _ _ _ _ e) by done.
  destruct Hst as [Hs|[Hs _]].
  - destruct (pass_pending now e Hr Hset Hs) as [(Hx & Ht & ->)|(-> & K)]; [by left|right; eauto].
  - destruct (pass_claimed now e Hr Hs) as [-> K]. right. eauto.
Qed.

Lemma expiry_is_visible_witness :
  let d := db (demo_run [Expire 100; Cleanup 100] (demo_run [Admit "t" demo_terms 0 10 false] fresh_relay)) in
  exists e, get "t" d = Some e /\ expiredOf e = Some 100.
Proof.
  set (s := demo_run [Admit "t" demo_terms 0 10 false] fresh_relay).
  set (e := set_version (Some 0) (queued_entry "t" demo_terms 0 10)).
  destruct (expiry_is_visible 30000 (fun _ _ _ => true) (fun _ _ => inr "key"%string)
              [Admit "t" demo_terms 0 10 false] 100 "t" e) as [([x Hx] & _)|(e' & Hg & _)];
    [vm_compute; reflexivity|reflexivity|discriminate Hx|].
  exists e'. split; [exact Hg|]. vm_compute in Hg. injection Hg as <-. reflexivity.
Defined.
