(* ===== verification/Idempotency.v ===== *)
(** * Idempotency claims of the relay ([services/relay/src/idempotency.ts])

    The two tables and every statement over them: the claim an [Idempotency-Key]
    takes and the task it admits, and the claim of a payment proof.  A response body
    is the JSON value its text serialises. *)

From Stdlib Require Import String.
From S2P Require Import Prelude JsMap Json.
Local Open Scope Z_scope.
Local Open Scope motebit_scope.

Definition IDEMPOTENCY_TTL_MS : Z := 24 * 60 * 60 * 1000.

Inductive claim_status := processing | completed.

#[export] Instance claim_status_eq : EqDecision claim_status.
Proof. solve_decision. Defined.

(** A row of [relay_idempotency_keys]; the key and the motebit are its index. *)
Record IdempotencyRecord := {
  ir_status : claim_status;
  response_status : option Z;
  response_body : option json;
  created_at : Z;
  completed_at : option Z;
  ir_task_id : option string;
}.

(** A row of [relay_p2p_proof_claims], by [tx_hash]. *)
Record P2pProofClaim := {
  pc_task_id : string;
  pc_submitted_by : string;
  submitter_verified : bool;
  claimed_at : Z;
}.

(** [(idempotency_key, motebit_id)] *)
Abbreviation claim_key := (string * string)%type.

Record idem_db := {
  relay_idempotency_keys : gmap claim_key IdempotencyRecord;
  relay_p2p_proof_claims : gmap string P2pProofClaim;
}.

Inductive idem_error :=
| ClaimNotUnbound (key taskId : string)
| ProofClaimUnreadable (txHash taskId : string).

Abbreviation idem_call := (call idem_db idem_error).

Inductive IdempotencyCheckResult :=
| Proceed
| Replay (status : Z) (body : json)
| Conflict (taskId : option string).

Definition set_keys (keys : gmap claim_key IdempotencyRecord) (d : idem_db) : idem_db := {|
  relay_idempotency_keys := keys; relay_p2p_proof_claims := relay_p2p_proof_claims d |}.

Definition set_proofs (proofs : gmap string P2pProofClaim) (d : idem_db) : idem_db := {|
  relay_idempotency_keys := relay_idempotency_keys d; relay_p2p_proof_claims := proofs |}.

(** ** Keys *)

(** The row [INSERT OR IGNORE] writes. *)
Definition fresh_claim (now : Z) : IdempotencyRecord := {|
  ir_status := processing; response_status := None; response_body := None;
  created_at := now; completed_at := None; ir_task_id := None |}.

(** What the [SELECT] of an ignored insert decides. *)
Definition existing_claim (r : IdempotencyRecord) : IdempotencyCheckResult :=
  match ir_status r, response_status r, response_body r with
  | completed, Some status, Some body => Replay status body
  | _, _, _ => Conflict (ir_task_id r)
  end.

Definition checkIdempotency (key motebitId : string) (now : Z) : idem_call IdempotencyCheckResult := fun d =>
  match relay_idempotency_keys d !! (key, motebitId) with
  | None => (Ok Proceed, set_keys (<[(key, motebitId) := fresh_claim now]> (relay_idempotency_keys d)) d)
  | Some existing => (Ok (existing_claim existing), d)
  end.

Definition idempotencyClaimExists (key motebitId : string) (d : idem_db) : bool :=
  bool_decide (is_Some (relay_idempotency_keys d !! (key, motebitId))).

(** [UPDATE ... SET status = 'completed', response_status, response_body, completed_at] *)
Definition with_response (status : Z) (body : json) (now : Z) (r : IdempotencyRecord) : IdempotencyRecord := {|
  ir_status := completed; response_status := Some status; response_body := Some body;
  created_at := created_at r; completed_at := Some now; ir_task_id := ir_task_id r |}.

Definition completeIdempotency (key motebitId : string) (responseStatus : Z) (responseBody : json) (now : Z)
    : idem_call unit := fun d =>
  (Ok tt, set_keys (alter (with_response responseStatus responseBody now) (key, motebitId)
                      (relay_idempotency_keys d)) d).

(** [status = 'processing' AND task_id IS NULL] *)
Definition unbound (r : IdempotencyRecord) : bool :=
  bool_decide (ir_status r = processing) && bool_decide (ir_task_id r = None).

Definition with_task (taskId : string) (r : IdempotencyRecord) : IdempotencyRecord := {|
  ir_status := ir_status r; response_status := response_status r; response_body := response_body r;
  created_at := created_at r; completed_at := completed_at r; ir_task_id := Some taskId |}.

Definition bindIdempotencyClaimToTask (key motebitId taskId : string) : idem_call unit := fun d =>
  match relay_idempotency_keys d !! (key, motebitId) with
  | Some r =>
      if unbound r
      then (Ok tt, set_keys (<[(key, motebitId) := with_task taskId r]> (relay_idempotency_keys d)) d)
      else (Throw (ClaimNotUnbound key taskId), d)
  | None => (Throw (ClaimNotUnbound key taskId), d)
  end.

Definition recordAdmittedOutcome (key motebitId taskId : string) (responseStatus : Z) (responseBody : json)
    (now : Z) : idem_call bool := fun d =>
  match relay_idempotency_keys d !! (key, motebitId) with
  | Some r =>
      if bool_decide (ir_task_id r = Some taskId) && bool_decide (ir_status r = processing)
      then (Ok true, set_keys (<[(key, motebitId) := with_response responseStatus responseBody now r]>
                                 (relay_idempotency_keys d)) d)
      else (Ok false, d)
  | None => (Ok false, d)
  end.

Definition releaseIdempotency (key motebitId : string) (d : idem_db) : idem_db :=
  match relay_idempotency_keys d !! (key, motebitId) with
  | Some r => if unbound r then set_keys (delete (key, motebitId) (relay_idempotency_keys d)) d else d
  | None => d
  end.

(** [created_at < ?], the cutoff 24 hours ago. *)
Definition kept_since (now : Z) (r : IdempotencyRecord) : Prop := now - IDEMPOTENCY_TTL_MS <= created_at r.

#[export] Instance kept_since_dec now r : Decision (kept_since now r).
Proof. unfold kept_since. apply _. Defined.

Definition cleanupIdempotencyKeys (now : Z) (d : idem_db) : idem_db :=
  set_keys (filter (fun kr => kept_since now kr.2) (relay_idempotency_keys d)) d.

(** ** Payment proofs *)

Definition p2pProofKey (txHash : string) : string := txHash.

Definition findP2pProofClaim (txHash : string) (d : idem_db) : option P2pProofClaim :=
  relay_p2p_proof_claims d !! p2pProofKey txHash.

Inductive proof_binding :=
| Bound
| BoundElsewhere (existing : P2pProofClaim).

Definition bindP2pProofToTask (txHash taskId submittedBy : string) (submitterVerified : bool) (now : Z)
    : idem_call proof_binding := fun d =>
  let key := p2pProofKey txHash in
  match relay_p2p_proof_claims d !! key with
  | None => (Ok Bound, set_proofs (<[key := {| pc_task_id := taskId; pc_submitted_by := submittedBy;
                                               submitter_verified := submitterVerified;
                                               claimed_at := now |}]> (relay_p2p_proof_claims d)) d)
  | Some _ =>
      match findP2pProofClaim key d with
      | None => (Throw (ProofClaimUnreadable key taskId), d)
      | Some existing =>
          if bool_decide (pc_task_id existing = taskId) then (Ok Bound, d)
          else (Ok (BoundElsewhere existing), d)
      end
  end.

(** ** What each statement does to a key's row *)

Section rows.
Context (km : claim_key).

Abbreviation row d := (relay_idempotency_keys d !! km).

(** Inserting an absent row is the only change of a check. *)
Lemma check_row k m now d a d' : checkIdempotency k m now d = (a, d') ->
  row d' = match row d with Some r => Some r | None => if decide (km = (k, m)) then Some (fresh_claim now) else None end /\
  relay_p2p_proof_claims d' = relay_p2p_proof_claims d.
Proof.
  unfold checkIdempotency. destruct (relay_idempotency_keys d !! (k, m)) eqn:E; intros [= <- <-]; cbn.
  - split; [|done]. destruct (decide (km = (k, m))) as [->|]; [by rewrite E|]. by destruct (row d).
  - split; [|done]. destruct (decide (km = (k, m))) as [->|].
    + by rewrite lookup_insert_eq, E.
    + rewrite lookup_insert_ne by done. by destruct (row d).
Qed.

Lemma complete_row k m st body now d :
  row (completeIdempotency k m st body now d).2 =
    (if decide (km = (k, m)) then with_response st body now <$> row d else row d).
Proof.
  cbn. case_decide as E; [subst; by rewrite lookup_alter_eq|by rewrite lookup_alter_ne].
Qed.

Lemma bind_row k m t d d' : bindIdempotencyClaimToTask k m t d = (Ok tt, d') ->
  exists r, relay_idempotency_keys d !! (k, m) = Some r /\ unbound r = true /\
    row d' = (if decide (km = (k, m)) then Some (with_task t r) else row d) /\
    relay_p2p_proof_claims d' = relay_p2p_proof_claims d.
Proof.
  unfold bindIdempotencyClaimToTask. destruct (relay_idempotency_keys d !! (k, m)) as [r|] eqn:E; [|done].
  destruct (unbound r) eqn:Hu; [|done]. intros [= <-]. exists r. split_and!; try done. cbn.
  destruct (decide (km = (k, m))) as [->|]; [by rewrite lookup_insert_eq|by rewrite lookup_insert_ne].
Qed.

Lemma record_row k m t st body now d ok d' : recordAdmittedOutcome k m t st body now d = (Ok ok, d') ->
  relay_p2p_proof_claims d' = relay_p2p_proof_claims d /\
  if ok then exists r, relay_idempotency_keys d !! (k, m) = Some r /\ ir_task_id r = Some t /\ ir_status r = processing /\
    row d' = (if decide (km = (k, m)) then Some (with_response st body now r) else row d)
  else d' = d /\ forall r, relay_idempotency_keys d !! (k, m) = Some r -> ~ (ir_task_id r = Some t /\ ir_status r = processing).
Proof.
  unfold recordAdmittedOutcome. destruct (relay_idempotency_keys d !! (k, m)) as [r|] eqn:E.
  - destruct (bool_decide (ir_task_id r = Some t) && bool_decide (ir_status r = processing)) eqn:Hb; intros [= <- <-].
    + apply andb_true_iff in Hb as [Ht%bool_decide_eq_true Hp%bool_decide_eq_true].
      split; [done|]. exists r. split_and!; try done. cbn.
      destruct (decide (km = (k, m))) as [->|]; [by rewrite lookup_insert_eq|by rewrite lookup_insert_ne].
    + split; [done|]. split; [done|]. intros ? [= <-] [Ht Hp].
      by rewrite !bool_decide_eq_true_2 in Hb.
  - by intros [= <- <-].
Qed.

(** A row that is not unbound stays. *)
Lemma release_row k m d :
  row (releaseIdempotency k m d) =
    match row d with Some r => if decide (km = (k, m)) then (if unbound r then None else Some r) else Some r | None => None end /\
  relay_p2p_proof_claims (releaseIdempotency k m d) = relay_p2p_proof_claims d.
Proof.
  unfold releaseIdempotency. destruct (relay_idempotency_keys d !! (k, m)) as [r|] eqn:E.
  - destruct (unbound r) eqn:Hu; cbn; (split; [|done]).
    + destruct (decide (km = (k, m))) as [->|]; [by rewrite lookup_delete_eq, E, Hu|].
      rewrite lookup_delete_ne by done. by destruct (row d).
    + destruct (decide (km = (k, m))) as [->|]; [by rewrite E, Hu|]. by destruct (row d).
  - split; [|done]. destruct (row d) eqn:E2; [|done]. destruct (decide (km = (k, m))) as [->|]; [congruence|done].
Qed.

Lemma cleanup_row now d : row (cleanupIdempotencyKeys now d) =
  match row d with Some r => if decide (kept_since now r) then Some r else None | None => None end.
Proof.
  cbn. destruct (row d) as [r|] eqn:E.
  - destruct (decide (kept_since now r)) as [Hk|Hk].
    + by apply map_lookup_filter_Some.
    + apply map_lookup_filter_None. right. intros r' E'. by simplify_eq.
  - apply map_lookup_filter_None. by left.
Qed.
End rows.

Lemma check_free k m now d : relay_idempotency_keys d !! (k, m) = None ->
  checkIdempotency k m now d = (Ok Proceed, set_keys (<[(k, m) := fresh_claim now]> (relay_idempotency_keys d)) d).
Proof. unfold checkIdempotency. by intros ->. Qed.

(** Binding a proof binds it to the task asked for, or says whose it is. *)
Lemma bind_proof_spec tx t sb v now d a d' : bindP2pProofToTask tx t sb v now d = (a, d') ->
  relay_idempotency_keys d' = relay_idempotency_keys d /\
  match a with
  | Ok Bound => (exists c, relay_p2p_proof_claims d' !! tx = Some c /\ pc_task_id c = t) /\
                (forall tx' c, relay_p2p_proof_claims d !! tx' = Some c -> relay_p2p_proof_claims d' !! tx' = Some c) /\
                (forall tx', tx' <> tx -> relay_p2p_proof_claims d' !! tx' = relay_p2p_proof_claims d !! tx')
  | Ok (BoundElsewhere c) => d' = d /\ relay_p2p_proof_claims d !! tx = Some c /\ pc_task_id c <> t
  | Throw _ => False
  end.
Proof.
  unfold bindP2pProofToTask, findP2pProofClaim, p2pProofKey.
  destruct (relay_p2p_proof_claims d !! tx) as [c|] eqn:E.
  - case_bool_decide as Hc; intros [= <- <-]; split; try done. split; [by exists c|]. done.
  - intros [= <- <-]. split; [done|]. cbn. split_and!.
    + eexists. by rewrite lookup_insert_eq.
    + intros tx' c Hc. by rewrite lookup_insert_ne by congruence.
    + intros tx' Hne. by rewrite lookup_insert_ne.
Qed.
