(* ===== verification/Submission.v ===== *)
(** * Task submissions ([services/relay/src/tasks.ts], [federation-callbacks.ts])

    The two doors that admit a task, beside everything else the relay does with
    tasks ([TaskRelay]).  A request is a handler that stops wherever it awaits; an
    event is one synchronous turn, and turns come in any order.  A crash loses the
    requests and keeps the tables.  The log records what was admitted, swept and
    answered. *)

From Stdlib Require Import String.
From S2P Require Import Prelude JsMap JsString Json TaskTypes TaskQueue TaskClaims TaskAnswer TaskRelay Idempotency.
Local Open Scope Z_scope.
Local Open Scope motebit_scope.

Inductive admission_error :=
| FundingRefusal
| KeyError (e : idem_error)
| P2pProofAlreadyAdmittedError (existing : P2pProofClaim)
| QueueError (e : queue_error).

(** Where a request of [POST /agent/:motebitId/task] stands: it owns its claim and
    is before admission; past it; its handler threw; its response is rendered, and
    the admission-outcome middleware comes next; answered. *)
Inductive phase :=
| Preparing
| Running
| Thrown
| Responding (status : Z) (body : option json)
| Responded (status : Z) (body : option json).

(** [rq_claim]: the stamp [idempotencyClaim]; [rq_admitted]: the stamp
    [ADMITTED_TASK_KEY].  A body is [None] when its text is not JSON. *)
Record request := {
  rq_key : string;
  rq_motebit : string;
  rq_claim : bool;
  rq_admitted : option string;
  rq_phase : phase;
}.

Inductive occurrence :=
| KeyAdmitted (km : claim_key) (taskId : string) (created : Z)
| ProofAdmitted (txHash taskId : string)
| Swept (now : Z)
| Answered (km : claim_key) (taskId : string) (status : Z) (body : json).

Definition to_phase (p : phase) (r : request) : request := {|
  rq_key := rq_key r; rq_motebit := rq_motebit r; rq_claim := rq_claim r; rq_admitted := rq_admitted r;
  rq_phase := p |}.
Definition rq_km (r : request) : claim_key := (rq_key r, rq_motebit r).

Definition claimed (key motebitId : string) : request := {|
  rq_key := key; rq_motebit := motebitId; rq_claim := true; rq_admitted := None; rq_phase := Preparing |}.
Definition admitted (taskId : string) (r : request) : request := {|
  rq_key := rq_key r; rq_motebit := rq_motebit r; rq_claim := rq_claim r; rq_admitted := Some taskId;
  rq_phase := Running |}.

(** [recordAdmissionOutcome]: the body it records, with the admitted task in it. *)
Definition outcome_body (taskId : string) (status : Z) (body : option json) : json :=
  let fields := match body with
                | Some (JObject fields) => fields
                | _ => [("error"%string, JString "Task admission did not complete");
                        ("status"%string, JNumber status)]
                end in
  JObject (jm_set "task_id"%string (JString taskId) fields).

(** The 201 body; [rest] is its status, routing choice and dispatch token. *)
Definition responseBody (taskId : string) (rest : jsmap string json) : json :=
  JObject (("task_id"%string, JString taskId) :: rest).

(** The 409 of a key whose task has no recorded outcome yet. *)
Definition conflict_body (taskId : string) : json :=
  JObject [("error"%string, JString "A request with this idempotency key already admitted a task");
           ("code"%string, JString "TASK_CONFLICT"); ("status"%string, JNumber 409);
           ("task_id"%string, JString taskId)].

(** A request that owns no claim. *)
Definition unclaimed (key motebitId : string) (p : phase) : request := {|
  rq_key := key; rq_motebit := motebitId; rq_claim := false; rq_admitted := None; rq_phase := p |}.

Definition DISPATCH_TOKEN_REMINT_MARGIN_MS : Z := 60000.

(** The body a replay sends: a dispatch token that is expiring is minted again for
    the same task and worker, unless the task is gone or has ended. *)
Section dispatch_token.
Context (parseTokenPayloadUnsafe : string -> option (option string * option Z)).
Context (mintTaskDispatchToken : string -> string -> string -> Z -> string).

Definition refreshDispatchTokenOnReplay (replayed : json) (now : Z) (d : task_db) : json :=
  match replayed with
  | JObject fields =>
      match js_field "dispatch_token"%string fields, js_field "task_id"%string fields with
      | JString token, JString taskId =>
          match parseTokenPayloadUnsafe token with
          | Some (Some mid, Some exp) =>
              if DISPATCH_TOKEN_REMINT_MARGIN_MS <? exp - now then replayed else
              match get taskId d with
              | None => replayed
              | Some entry =>
                  if bool_decide (is_Some (receipt entry)) || TERMINAL (status (task entry)) then replayed else
                  JObject (jm_set "dispatch_token"%string
                             (JString (mintTaskDispatchToken mid taskId (prompt (task entry)) now)) fields)
              end
          | _ => replayed
          end
      | _, _ => replayed
      end
  | _ => replayed
  end.
End dispatch_token.

Section submission.
(** The money the relay keeps, and the hold a submission takes: refused or taken. *)
Context {M : Type} (funding : string -> M -> option M).
Context (parseTokenPayloadUnsafe : string -> option (option string * option Z)).
Context (mintTaskDispatchToken : string -> string -> string -> Z -> string).
Context (leaseMs : Z).
Context (routed : TaskQueueEntry -> ExecutionReceipt -> AnswerDoor -> bool).
Context (verify : ExecutionReceipt -> AnswerDoor -> AnswerRefusal + string).

(** The relay's database, and the routes and grants it keeps beside it. *)
Record tables := {
  idem : idem_db;
  tasks : relay;
  money : M;
}.

Record relay_state := {
  store : tables;
  requests : list request;
  log : list occurrence;
}.

Abbreviation admission_call := (call tables admission_error).

Definition set_idem (d : idem_db) (w : tables) : tables := {| idem := d; tasks := tasks w; money := money w |}.
Definition set_tasks (s : relay) (w : tables) : tables := {| idem := idem w; tasks := s; money := money w |}.
Definition set_money (m : M) (w : tables) : tables := {| idem := idem w; tasks := tasks w; money := m |}.

Definition on_idem {A} (m : idem_call A) : admission_call A := fun w =>
  match m (idem w) with
  | (Ok a, d) => (Ok a, set_idem d w)
  | (Throw e, d) => (Throw (KeyError e), set_idem d w)
  end.

(** [fundingWrites?.()] *)
Definition fundingWrites (funded : bool) (taskId : string) : admission_call unit := fun w =>
  if funded then match funding taskId (money w) with
                 | Some m => (Ok tt, set_money m w)
                 | None => (Throw FundingRefusal, w)
                 end
  else (Ok tt, w).

(** [taskQueue.set] of a new task, granted to its submitter when it presents. *)
Definition enqueue (taskId : string) (a : admission_terms) (now ttl : Z) (submitterPresents : bool)
    : admission_call unit := fun w =>
  let e := queued_entry taskId a now ttl in
  match set taskId (if submitterPresents then grantToSubmitter e (ad_submitted_by a) else e) (db (tasks w)) with
  | (Ok _, _) => (Ok tt, set_tasks (admit_task taskId a now ttl submitterPresents (tasks w)) w)
  | (Throw e, _) => (Throw (QueueError e), w)
  end.

(** [BEGIN] ... [COMMIT], and [ROLLBACK] when the body throws. *)
Definition transaction {A} (body : admission_call A) : admission_call A := fun w =>
  match body w with
  | (Ok a, w') => (Ok a, w')
  | (Throw e, _) => (Throw e, w)
  end.

Definition bind_proof (proof : option string) (taskId submittedBy : string) (verified : bool) (now : Z)
    : admission_call unit :=
  match proof with
  | None => call_ret tt
  | Some txHash =>
      let! binding := on_idem (bindP2pProofToTask txHash taskId submittedBy verified now) in
      match binding with
      | Bound => call_ret tt
      | BoundElsewhere existing => call_throw (P2pProofAlreadyAdmittedError existing)
      end
  end.

Record submission := {
  sb_taskId : string;
  sb_terms : admission_terms;
  sb_proof : option string;
  sb_verified : bool;
  sb_funded : bool;
  sb_presents : bool;
  sb_ttl : Z;
}.

Definition submitter_of (x : submission) : string := default EmptyString (ad_submitted_by (sb_terms x)).

(** The admission transaction of a submission. *)
Definition admission (key motebitId : string) (x : submission) (now : Z) : admission_call unit :=
  transaction (
    fundingWrites (sb_funded x) (sb_taskId x) ;!
    on_idem (bindIdempotencyClaimToTask key motebitId (sb_taskId x)) ;!
    bind_proof (sb_proof x) (sb_taskId x) (submitter_of x) (sb_verified x) now ;!
    enqueue (sb_taskId x) (sb_terms x) now (sb_ttl x) (sb_presents x)).

(** [onTaskForwarded], past its checks: a peer's task, its submitter unproven. *)
Definition forwarded (x : submission) (now : Z) : admission_call unit :=
  transaction (
    bind_proof (sb_proof x) (sb_taskId x) (submitter_of x) false now ;!
    enqueue (sb_taskId x) (sb_terms x) now (sb_ttl x) false).

(** ** Turns *)

Definition set_requests (rs : list request) (s : relay_state) : relay_state := {|
  store := store s; requests := rs; log := log s |}.
Definition set_store (w : tables) (s : relay_state) : relay_state := {|
  store := w; requests := requests s; log := log s |}.
Definition note (os : list occurrence) (s : relay_state) : relay_state := {|
  store := store s; requests := requests s; log := log s ++ os |}.
Definition on_keys (f : idem_db -> idem_db) (s : relay_state) : relay_state :=
  set_store (set_idem (f (idem (store s))) (store s)) s.

Definition put_request (i : nat) (r : request) (s : relay_state) : relay_state :=
  set_requests (<[i := r]> (requests s)) s.

Definition created_of (km : claim_key) (w : tables) : Z :=
  match relay_idempotency_keys (idem w) !! km with Some r => created_at r | None => 0 end.

Definition proof_admitted (x : submission) : list occurrence :=
  match sb_proof x with Some tx => [ProofAdmitted tx (sb_taskId x)] | None => [] end.

(** A new request: the one that takes the claim goes on, any other is answered from
    the claim that stands. *)
Definition arrive (key motebitId : string) (now : Z) (s : relay_state) : relay_state :=
  let add r := set_requests (requests s ++ [r]) s in
  match checkIdempotency key motebitId now (idem (store s)) with
  | (Ok Proceed, d) => set_requests (requests s ++ [claimed key motebitId]) (set_store (set_idem d (store s)) s)
  | (Ok (Replay status body), _) =>
      add (unclaimed key motebitId (Responding status (Some
             (refreshDispatchTokenOnReplay parseTokenPayloadUnsafe mintTaskDispatchToken body now
                (db (tasks (store s)))))))
  | (Ok (Conflict (Some taskId)), _) => add (unclaimed key motebitId (Responding 409 (Some (conflict_body taskId))))
  | (Ok (Conflict None), _) => add (unclaimed key motebitId Thrown)
  | (Throw _, _) => s
  end.

(** Before admission: a proof that funds another task, or any other refusal. *)
Definition early_proof_check (txHash : string) (r : request) (s : relay_state) : request :=
  match findP2pProofClaim txHash (idem (store s)) with
  | Some _ => to_phase Thrown r
  | None => r
  end.

Definition admit_submission (i : nat) (r : request) (x : submission) (now : Z) (s : relay_state) : relay_state :=
  match admission (rq_key r) (rq_motebit r) x now (store s) with
  | (Ok _, w) =>
      note (KeyAdmitted (rq_km r) (sb_taskId x) (created_of (rq_km r) (store s)) :: proof_admitted x)
        (put_request i (admitted (sb_taskId x) r) (set_store w s))
  | (Throw _, w) => put_request i (to_phase Thrown r) (set_store w s)
  end.

(** [app.onError]: the claim this request owns is released, best effort. *)
Definition error_boundary (i : nat) (r : request) (status : Z) (body : option json) (released : bool)
    (s : relay_state) : relay_state :=
  put_request i (to_phase (Responding status body) r)
    (if rq_claim r && released then on_keys (releaseIdempotency (rq_key r) (rq_motebit r)) s else s).

(** [completeIdempotency] and the 201. *)
Definition finish (i : nat) (r : request) (taskId : string) (rest : jsmap string json) (now : Z)
    (s : relay_state) : relay_state :=
  let body := responseBody taskId rest in
  put_request i (to_phase (Responding 201 (Some body)) r)
    (on_keys (fun d => (completeIdempotency (rq_key r) (rq_motebit r) 201 body now d).2) s).

(** The middleware after the handler: [wrote] is whether its statement ran. *)
Definition outcome (i : nat) (r : request) (status : Z) (body : option json) (wrote : bool) (now : Z)
    (s : relay_state) : relay_state :=
  match rq_admitted r with
  | None => put_request i (to_phase (Responded status body) r) s
  | Some taskId =>
      let recorded := outcome_body taskId status body in
      if negb wrote then put_request i (to_phase (Responded status body) r) s else
      match recordAdmittedOutcome (rq_key r) (rq_motebit r) taskId status recorded now (idem (store s)) with
      | (Ok true, d) =>
          note [Answered (rq_km r) taskId status recorded]
            (put_request i (to_phase (Responded status (Some recorded)) r) (set_store (set_idem d (store s)) s))
      | (Ok false, _) | (Throw _, _) =>
          note (match body with Some b => [Answered (rq_km r) taskId status b] | None => [] end)
            (put_request i (to_phase (Responded status body) r) s)
      end
  end.

Inductive sub_event :=
| Arrive (key motebitId : string) (now : Z)
| EarlyProofCheck (i : nat) (txHash : string)
| Refuse (i : nat)
| AdmitSubmission (i : nat) (x : submission) (now : Z)
| FailRunning (i : nat)
| ErrorBoundary (i : nat) (status : Z) (body : option json) (released : bool)
| Finish (i : nat) (rest : jsmap string json) (now : Z)
| Outcome (i : nat) (wrote : bool) (now : Z)
| Forwarded (x : submission) (now : Z)
| SweepKeys (now : Z)
| OnTasks (ev : event)
| Crash.

(** A turn of the relay's tasks that admits nothing and is no restart. *)
Definition later_turn (ev : event) : bool :=
  match ev with Admit _ _ _ _ _ | Restart => false | _ => true end.

Definition step (s : relay_state) (ev : sub_event) : relay_state :=
  match ev with
  | Arrive key motebitId now => arrive key motebitId now s
  | EarlyProofCheck i txHash =>
      match requests s !! i with
      | Some r => match rq_phase r with
                  | Preparing => put_request i (early_proof_check txHash r s) s
                  | _ => s
                  end
      | None => s
      end
  | Refuse i =>
      match requests s !! i with
      | Some r => match rq_phase r with Preparing => put_request i (to_phase Thrown r) s | _ => s end
      | None => s
      end
  | AdmitSubmission i x now =>
      if admitted_before (sb_taskId x) (tasks (store s)) then s else
      match requests s !! i with
      | Some r => match rq_phase r with Preparing => admit_submission i r x now s | _ => s end
      | None => s
      end
  | FailRunning i =>
      match requests s !! i with
      | Some r => match rq_phase r with Running => put_request i (to_phase Thrown r) s | _ => s end
      | None => s
      end
  | ErrorBoundary i status body released =>
      match requests s !! i with
      | Some r => match rq_phase r with Thrown => error_boundary i r status body released s | _ => s end
      | None => s
      end
  | Finish i rest now =>
      match requests s !! i with
      | Some r => match rq_phase r, rq_admitted r with
                  | Running, Some taskId => finish i r taskId rest now s
                  | _, _ => s
                  end
      | None => s
      end
  | Outcome i wrote now =>
      match requests s !! i with
      | Some r => match rq_phase r with
                  | Responding status body => outcome i r status body wrote now s
                  | _ => s
                  end
      | None => s
      end
  | Forwarded x now =>
      if admitted_before (sb_taskId x) (tasks (store s)) then s else
      match forwarded x now (store s) with
      | (Ok _, w) => note (proof_admitted x) (set_store w s)
      | (Throw _, w) => set_store w s
      end
  | SweepKeys now => note [Swept now] (on_keys (cleanupIdempotencyKeys now) s)
  | OnTasks ev =>
      if later_turn ev then set_store (set_tasks (run_event leaseMs routed verify (tasks (store s)) ev) (store s)) s
      else s
  | Crash => set_requests [] (set_store (set_tasks (run_event leaseMs routed verify (tasks (store s)) Restart) (store s)) s)
  end.

Definition run_steps (evs : list sub_event) (s : relay_state) : relay_state := foldl step s evs.

Definition fresh_state (m : M) : relay_state := {|
  store := {| idem := {| relay_idempotency_keys := ∅; relay_p2p_proof_claims := ∅ |};
              tasks := fresh_relay; money := m |};
  requests := []; log := [] |}.
End submission.
