(* ===== verification/SubmissionLaws.v ===== *)
(** * What a key and a payment admit

    The invariants of [Submission] over every order of turns: the log says what the
    claim tables hold, and the responses recorded under a key name its task. *)

From Stdlib Require Import String.
From S2P Require Import Prelude JsMap JsString Json TaskTypes TaskQueue TaskClaims TaskAnswer TaskRelay TaskLaws.
From S2P Require Import TaskSystem Idempotency Submission.
Local Open Scope Z_scope.

(** ** Reading the log *)

(** The task a key holds after these occurrences, and when its claim was made. *)
Definition held_after (km : claim_key) (h : option (string * Z)) (o : occurrence) : option (string * Z) :=
  match o with
  | KeyAdmitted km' t c => if decide (km' = km) then Some (t, c) else h
  | Swept now => match h with
                 | Some (t, c) => if decide (now - IDEMPOTENCY_TTL_MS <= c) then h else None
                 | None => None
                 end
  | _ => h
  end.
Definition held (km : claim_key) (l : list occurrence) : option (string * Z) := foldl (held_after km) None l.

(** The key admitted no task but [t]. *)
Definition only (km : claim_key) (t : string) (l : list occurrence) : Prop :=
  forall t' c, KeyAdmitted km t' c ∈ l -> t' = t.

(** The task a response body names. *)
Definition body_task (b : json) : option string :=
  match b with
  | JObject fields => match jm_get "task_id"%string fields with Some (JString t) => Some t | _ => None end
  | _ => None
  end.

(** Occurrences that say nothing of the key's claim. *)
Definition aside (km : claim_key) (os : list occurrence) : Prop :=
  forall o, o ∈ os -> match o with KeyAdmitted km' _ _ => km' <> km | Swept _ => False | _ => True end.

Lemma held_snoc km l o : held km (l ++ [o]) = held_after km (held km l) o.
Proof. unfold held. by rewrite foldl_app. Qed.

Lemma held_aside km l os : aside km os -> held km (l ++ os) = held km l.
Proof.
  unfold held. rewrite foldl_app. generalize (foldl (held_after km) None l) as h.
  induction os as [|o os IH]; intros h Ha; cbn; [done|].
  rewrite IH by (intros o' Ho; apply Ha; by right).
  pose proof (Ha o ltac:(by left)) as Ho. destruct o; cbn; try done. by rewrite decide_False.
Qed.

(** Held, and no sweep past it since. *)
Lemma held_kept km t c h1 h2 : (forall n, Swept n ∈ h2 -> n - IDEMPOTENCY_TTL_MS <= c) ->
  (forall t' c', KeyAdmitted km t' c' ∉ h2) -> held km (h1 ++ KeyAdmitted km t c :: h2) = Some (t, c).
Proof.
  unfold held. rewrite foldl_app. cbn. rewrite decide_True by done.
  induction h2 as [|o h2 IH]; intros Hs Ha; cbn; [done|].
  assert (held_after km (Some (t, c)) o = Some (t, c)) as ->.
  { destruct o as [km' t' c'| | n|]; cbn; try done.
    - rewrite decide_False; [done|]. intros ->. apply (Ha t' c'). by left.
    - rewrite decide_True; [done|]. apply Hs. by left. }
  apply IH; [intros n Hn; apply Hs; by right|]. intros t' c' Hin. apply (Ha t' c'). by right.
Qed.

(** ** A key's row and the log *)

Definition bound_of (o : option IdempotencyRecord) : option (string * Z) :=
  match o with
  | Some r => match ir_task_id r with Some t => Some (t, created_at r) | None => None end
  | None => None
  end.

(** How a turn moves the row of one key. *)
Inductive row_moves (km : claim_key) : option IdempotencyRecord -> list occurrence ->
    option IdempotencyRecord -> list occurrence -> Prop :=
| rm_same o l os : aside km os -> row_moves km o l o (l ++ os)
| rm_fresh now l : row_moves km None l (Some (fresh_claim now)) l
| rm_response st b now r l os : aside km os -> row_moves km (Some r) l (Some (with_response st b now r)) (l ++ os)
| rm_bind r t l os : unbound r = true -> aside km os ->
    row_moves km (Some r) l (Some (with_task t r)) (l ++ KeyAdmitted km t (created_at r) :: os)
| rm_release r l : unbound r = true -> row_moves km (Some r) l None l
| rm_sweep o now l :
    row_moves km o l
      (match o with Some r => if decide (kept_since now r) then Some r else None | None => None end) (l ++ [Swept now]).

Record key_ok (km : claim_key) (o : option IdempotencyRecord) (l : list occurrence) : Prop := {
  k_held : held km l = bound_of o;
  k_once : forall h1 t c h2, l = h1 ++ KeyAdmitted km t c :: h2 -> held km h1 = None;
}.

Lemma unbound_task r : unbound r = true -> ir_task_id r = None /\ ir_status r = processing.
Proof. unfold unbound. intros [H1%bool_decide_eq_true H2%bool_decide_eq_true]%andb_true_iff. done. Qed.

(** Where an admission of the key stands in a log that grew. *)
Lemma split_aside km l os h1 t c h2 : aside km os -> l ++ os = h1 ++ KeyAdmitted km t c :: h2 ->
  exists h2', l = h1 ++ KeyAdmitted km t c :: h2'.
Proof.
  intros Ha E. apply app_eq_app in E as (k & [[-> E]|[-> E]]).
  - destruct k as [|x k]; cbn in E.
    + exfalso. apply (Ha (KeyAdmitted km t c)); [rewrite <- E; by left|done].
    + injection E as -> ->. by exists k.
  - exfalso. apply (Ha (KeyAdmitted km t c)); [rewrite E; apply elem_of_app; right; by left|done].
Qed.

Lemma sweep_aside km now l h1 t c h2 : l ++ [Swept now] = h1 ++ KeyAdmitted km t c :: h2 ->
  exists h2', l = h1 ++ KeyAdmitted km t c :: h2'.
Proof.
  intros E. destruct h2 as [|x h2 _] using rev_ind.
  - apply app_inj_tail in E as [_ E]. done.
  - exists h2. rewrite app_comm_cons, app_assoc in E. by apply app_inj_tail in E as [-> _].
Qed.

Lemma row_moves_ok km o l o' l' : row_moves km o l o' l' -> key_ok km o l -> key_ok km o' l'.
Proof.
  intros Hm [Hh Ho]. destruct Hm as [o l os Ha|now l|st b now r l os Ha|r t l os Hu Ha|r l Hu|o now l].
  - split; [by rewrite held_aside|]. intros h1 t c h2 E. destruct (split_aside km l os h1 t c h2 Ha E). by eapply Ho.
  - split; [by rewrite Hh|done].
  - split; [by rewrite held_aside, Hh|].
    intros h1 t c h2 E. destruct (split_aside km l os h1 t c h2 Ha E). by eapply Ho.
  - destruct (unbound_task r Hu) as [Ht _]. split.
    + rewrite cons_middle, app_assoc, held_aside, held_snoc by done. cbn. by rewrite decide_True.
    + intros h1 t' c h2 E. rewrite cons_middle, app_assoc in E. destruct (split_aside _ _ _ _ _ _ _ Ha E) as [h2' E'].
      destruct h2' as [|x h2' _] using rev_ind.
      * apply app_inj_tail in E' as [<- _]. rewrite Hh. cbn. by rewrite Ht.
      * rewrite app_comm_cons, app_assoc in E'. apply app_inj_tail in E' as [E' _]. by eapply Ho.
  - split; [|done]. rewrite Hh. cbn. by rewrite (proj1 (unbound_task r Hu)).
  - split.
    + rewrite held_snoc, Hh. destruct o as [r|]; cbn; [|done]. unfold kept_since.
      destruct (ir_task_id r) as [t|] eqn:Ht; cbn; repeat case_decide; cbn; try done; by rewrite Ht.
    + intros h1 t c h2 E. destruct (sweep_aside _ _ _ _ _ _ _ E). by eapply Ho.
Qed.

(** ** The history of the tasks only grows *)

Definition later_history (s s' : relay) : Prop := exists h, history s' = history s ++ h.

#[export] Instance later_history_preorder : PreOrder later_history.
Proof.
  split.
  - intros s. exists []. by rewrite app_nil_r.
  - intros s1 s2 s3 [h E] [h' E']. exists (h ++ h'). by rewrite E', E, app_assoc.
Qed.

Lemma same_history s s' : history s' = history s -> later_history s s'.
Proof. intros E. exists []. by rewrite app_nil_r. Qed.

Lemma happen_later h s : later_history s (happen h s).
Proof. by exists [h]. Qed.

Lemma on_claims_later {A} (m : claims_call A) k s :
  (forall a s', history s' = history s -> later_history s (k a s')) -> later_history s (on_claims m k s).
Proof. intros H. unfold on_claims. destruct (m (claims s)) as [[a|e] c]; [by apply H|by apply same_history]. Qed.

Lemma on_queue_later {A} (m : queue_call A) k s :
  (forall a s', history s' = history s -> later_history s (k a s')) -> later_history s (on_queue m k s).
Proof. intros H. unfold on_queue. destruct (m (db s)) as [[a|e] d]; [by apply H|by apply same_history]. Qed.

Lemma happen_same h s s' : history s' = history s -> later_history s (happen h s').
Proof. intros E. exists [h]. cbn. by rewrite E. Qed.

Lemma admit_task_later t a now ttl p s : later_history s (admit_task t a now ttl p s).
Proof.
  unfold admit_task. destruct (admitted_before t s); [done|]. apply on_queue_later. intros _ s' E.
  destruct p; [|by apply happen_same]. transitivity (happen (TaskAdmitted t (queued_entry t a now ttl)) s').
  - by apply happen_same.
  - apply happen_later.
Qed.

Lemma run_event_later leaseMs routed verify s ev : later_history s (run_event leaseMs routed verify s ev).
Proof.
  destruct ev; cbn; try (by apply same_history);
    try (apply on_claims_later; intros a s' E); try (apply on_queue_later; intros a s' E);
    try (by apply same_history).
  - apply admit_task_later.
  - destruct a; [by apply happen_same|by apply same_history].
  - destruct a; [by apply happen_same|by apply same_history].
  - case_bool_decide; [|done]. set (s1 := if called then _ else _). transitivity s1.
    + unfold s1. destruct called; [by apply same_history|by apply happen_same].
    + apply on_claims_later. intros a s' E. by apply same_history.
  - destruct (answer_checks _ _ _ _ _ _); by apply same_history.
  - destruct (turns s !! i) as [x|]; [|done]. transitivity (set_turns (delete i (turns s)) s); [by apply same_history|].
    destruct x; cbn; apply on_queue_later; intros a s' E; destruct a; by apply same_history.
Qed.

(** ** Each turn *)

Section laws.
Context {M : Type} (funding : string -> M -> option M).
Context (parse : string -> option (option string * option Z)) (mint : string -> string -> string -> Z -> string).
Context (leaseMs : Z).
Context (routed : TaskQueueEntry -> ExecutionReceipt -> AnswerDoor -> bool).
Context (verify : ExecutionReceipt -> AnswerDoor -> AnswerRefusal + string).

Abbreviation step := (step funding parse mint leaseMs routed verify).
Abbreviation run_steps := (run_steps funding parse mint leaseMs routed verify).
Abbreviation keys w := (relay_idempotency_keys (idem w)).
Abbreviation proofs w := (relay_p2p_proof_claims (idem w)).

(** What binding a proof does to the tables. *)
Definition proof_bound (x : submission) (w w' : @tables M) : Prop :=
  match sb_proof x with
  | None => proofs w' = proofs w
  | Some tx => (exists c, proofs w' !! tx = Some c /\ pc_task_id c = sb_taskId x) /\
               (forall tx' c, proofs w !! tx' = Some c -> proofs w' !! tx' = Some c) /\
               (forall tx', tx' <> tx -> proofs w' !! tx' = proofs w !! tx')
  end.

Lemma bind_proof_ok x v now (w w' : @tables M) :
  bind_proof (sb_proof x) (sb_taskId x) (submitter_of x) v now w = (Ok tt, w') ->
  keys w' = keys w /\ tasks w' = tasks w /\ proof_bound x w w'.
Proof.
  unfold bind_proof, proof_bound. destruct (sb_proof x) as [tx|]; [|by intros [= ->]].
  intros (b & w1 & H1 & H2)%call_bind_ok. unfold on_idem in H1.
  destruct (bindP2pProofToTask tx (sb_taskId x) (submitter_of x) v now (idem w)) as [a d] eqn:E.
  destruct (bind_proof_spec _ _ _ _ _ _ _ _ E) as [Ek Ha].
  destruct a as [[|c]|e]; simplify_eq/=.
  injection H2 as <-. destruct Ha as (? & ? & ?). split_and!; done.
Qed.

Lemma queue_set_ok t a now ttl p (w w' : @tables M) : enqueue t a now ttl p w = (Ok tt, w') ->
  idem w' = idem w /\ tasks w' = admit_task t a now ttl p (tasks w) /\ admitted_before t (tasks w') = true.
Proof.
  unfold enqueue. destruct (set t _ _) as [[u|e] d] eqn:E; [|done]. intros [= <-]. split_and!; [done|done|]. cbn.
  unfold admit_task. destruct (admitted_before t (tasks w)) eqn:Hb; [done|]. unfold on_queue. rewrite E.
  unfold admitted_before. destruct p; cbn; rewrite ?existsb_app; cbn; rewrite bool_decide_true by done;
    by rewrite ?orb_true_r.
Qed.

Lemma transaction_throw {A} (body : call tables admission_error A) (w w' : @tables M) e :
  transaction body w = (Throw e, w') -> w' = w.
Proof. unfold transaction. destruct (body w) as [[a|e'] w1]; intros [= -> ->]. done. Qed.

Lemma transaction_ok {A} (body : call tables admission_error A) (w w' : @tables M) a :
  transaction body w = (Ok a, w') -> body w = (Ok a, w').
Proof. unfold transaction. destruct (body w) as [[a'|e'] w1]; intros [= -> ->]. done. Qed.

Lemma admission_ok k m x now (w w' : @tables M) : admission funding k m x now w = (Ok tt, w') ->
  exists r, keys w !! (k, m) = Some r /\ unbound r = true /\
    keys w' = <[(k, m) := with_task (sb_taskId x) r]> (keys w) /\ proof_bound x w w' /\
    tasks w' = admit_task (sb_taskId x) (sb_terms x) now (sb_ttl x) (sb_presents x) (tasks w) /\
    admitted_before (sb_taskId x) (tasks w') = true.
Proof.
  intros H%transaction_ok. apply call_bind_ok in H as (u1 & w1 & H1 & H).
  apply call_bind_ok in H as (u2 & w2 & H2 & H). apply call_bind_ok in H as (u3 & w3 & H3 & H).
  assert (idem w1 = idem w /\ tasks w1 = tasks w) as [E1 T1].
  { unfold fundingWrites in H1. destruct (sb_funded x); [|by injection H1 as _ <-].
    destruct (funding (sb_taskId x) (money w)); [|done]. by injection H1 as _ <-. }
  unfold on_idem in H2. destruct (bindIdempotencyClaimToTask k m (sb_taskId x) (idem w1)) as [[[]|e] d] eqn:Eb; [|done].
  injection H2 as _ <-. unfold bindIdempotencyClaimToTask in Eb. rewrite E1 in Eb.
  destruct (keys w !! (k, m)) as [r|] eqn:Er; [|done]. destruct (unbound r) eqn:Hu; [|done]. injection Eb as <-.
  destruct u3. destruct (bind_proof_ok x _ _ _ _ H3) as (K3 & T3 & P3). destruct (queue_set_ok _ _ _ _ _ _ _ H) as (E4 & T4 & A4).
  exists r. cbn in *. rewrite T4 in A4 |- *. rewrite E4, K3. rewrite T3, T1 in *. split_and!; try done.
  unfold proof_bound in *. cbn in P3. by rewrite E4.
Qed.

Lemma forwarded_ok x now (w w' : @tables M) : forwarded x now w = (Ok tt, w') ->
  keys w' = keys w /\ proof_bound x w w' /\
  tasks w' = admit_task (sb_taskId x) (sb_terms x) now (sb_ttl x) false (tasks w) /\
  admitted_before (sb_taskId x) (tasks w') = true.
Proof.
  intros H%transaction_ok. apply call_bind_ok in H as (u3 & w3 & H3 & H).
  destruct u3. destruct (bind_proof_ok x _ _ _ _ H3) as (K3 & T3 & P3). destruct (queue_set_ok _ _ _ _ _ _ _ H) as (E4 & T4 & A4).
  rewrite T4 in A4 |- *. rewrite E4, K3. rewrite T3 in *. split_and!; try done. unfold proof_bound in *. by rewrite E4.
Qed.

Lemma aside_nil km : aside km [].
Proof. by intros o ?%elem_of_nil. Qed.

Lemma aside_proof km x : aside km (proof_admitted x).
Proof. unfold proof_admitted. destruct (sb_proof x); intros o Ho; [by apply list_elem_of_singleton in Ho as ->|by apply elem_of_nil in Ho]. Qed.

Lemma row_unmoved km o l : row_moves km o l o l.
Proof. rewrite <- (app_nil_r l) at 2. apply rm_same, aside_nil. Qed.

Lemma row_responds km st b now o l : row_moves km o l (with_response st b now <$> o) l.
Proof.
  destruct o as [r|]; cbn; [|apply row_unmoved]. rewrite <- (app_nil_r l) at 2. apply rm_response, aside_nil.
Qed.

Lemma aside_answered km km' t st b : aside km [Answered km' t st b].
Proof. by intros o ->%list_elem_of_singleton. Qed.

Lemma arrive_row k m now s km : let s' := arrive (M := M) parse mint k m now s in
  row_moves km (keys (store s) !! km) (log s) (keys (store s') !! km) (log s').
Proof.
  intros s'. unfold s', arrive.
  destruct (checkIdempotency k m now (idem (store s))) as [[[| |[t|]]|] d] eqn:E; try apply row_unmoved.
  destruct (check_row km _ _ _ _ _ _ E) as [Er _]. cbn. rewrite Er.
  destruct (keys (store s) !! km); [apply row_unmoved|]. case_decide; [apply rm_fresh|apply row_unmoved].
Qed.

Lemma admit_row i r x now s km : let s' := admit_submission (M := M) funding i r x now s in
  row_moves km (keys (store s) !! km) (log s) (keys (store s') !! km) (log s').
Proof.
  intros s'. unfold s', admit_submission.
  destruct (admission funding (rq_key r) (rq_motebit r) x now (store s)) as [[[]|e] w] eqn:E.
  - destruct (admission_ok _ _ _ _ _ _ E) as (row & Er & Hu & Ek & _). cbn. rewrite Ek.
    unfold created_of, rq_km. rewrite Er. destruct (decide (km = (rq_key r, rq_motebit r))) as [->|Hne].
    + rewrite lookup_insert_eq, Er. apply rm_bind; [done|apply aside_proof].
    + rewrite lookup_insert_ne by done. apply rm_same.
      intros o [->|Ho]%elem_of_cons; [by apply not_eq_sym|by apply (aside_proof km x)].
  - apply transaction_throw in E as ->. apply row_unmoved.
Qed.

Lemma boundary_row i r st b rel s km : let s' := error_boundary (M := M) i r st b rel s in
  row_moves km (keys (store s) !! km) (log s) (keys (store s') !! km) (log s').
Proof.
  intros s'. unfold s', error_boundary. destruct (rq_claim r && rel); [|apply row_unmoved]. cbn.
  rewrite (proj1 (release_row km _ _ _)). destruct (keys (store s) !! km) as [row|]; [|apply row_unmoved].
  case_decide; [|apply row_unmoved]. destruct (unbound row) eqn:Hu; [by apply rm_release|apply row_unmoved].
Qed.

Lemma finish_row i r t rest now s km : let s' := finish (M := M) i r t rest now s in
  row_moves km (keys (store s) !! km) (log s) (keys (store s') !! km) (log s').
Proof.
  intros s'. unfold s', finish. cbn -[completeIdempotency]. rewrite complete_row.
  case_decide; [apply row_responds|apply row_unmoved].
Qed.

Lemma outcome_row i r st b wrote now s km : let s' := outcome (M := M) i r st b wrote now s in
  row_moves km (keys (store s) !! km) (log s) (keys (store s') !! km) (log s').
Proof.
  intros s'. unfold s', outcome. destruct (rq_admitted r) as [t|]; [|apply row_unmoved].
  destruct (negb wrote); [apply row_unmoved|].
  destruct (recordAdmittedOutcome _ _ t st _ now _) as [[[|]|e] d] eqn:E.
  - destruct (record_row km _ _ _ _ _ _ _ _ _ E) as (_ & row & Er & _ & _ & Ed). cbn. rewrite Ed.
    case_decide as Ek.
    + subst km. unfold rq_km. rewrite Er. apply rm_response, aside_answered.
    + apply rm_same, aside_answered.
  - cbn. apply rm_same. destruct b; [apply aside_answered|apply aside_nil].
  - cbn. apply rm_same. destruct b; [apply aside_answered|apply aside_nil].
Qed.

Lemma step_row s ev km :
  row_moves km (keys (store s) !! km) (log s) (keys (store (step s ev)) !! km) (log (step s ev)).
Proof.
  destruct ev as [k m now|i tx|i|i x now|i|i st b rel|i rest now|i wrote now|x now|now|ev|]; cbn -[completeIdempotency];
    try (destruct (admitted_before _ _); [apply row_unmoved|]);
    try (destruct (requests s !! i) as [r|]; [|apply row_unmoved]; destruct (rq_phase r); try apply row_unmoved).
  - apply arrive_row.
  - apply admit_row.
  - apply boundary_row.
  - destruct (rq_admitted r); [apply finish_row|apply row_unmoved].
  - apply outcome_row.
  - destruct (forwarded x now (store s)) as [[[]|e] w] eqn:E.
    + destruct (forwarded_ok _ _ _ _ E) as (Ek & _). cbn. rewrite Ek. apply rm_same, aside_proof.
    + apply transaction_throw in E as ->. apply row_unmoved.
  - pose proof (cleanup_row km now (idem (store s))) as E. cbn in E. rewrite E. apply rm_sweep.
  - destruct (later_turn ev); apply row_unmoved.
  - apply row_unmoved.
Qed.

(** ** What the log says was admitted *)

Record adm_ok (T : relay) (P : gmap string P2pProofClaim) (l : list occurrence) : Prop := {
  a_run : exists evs, T = run leaseMs routed verify evs fresh_relay;
  a_keys : forall km t c, KeyAdmitted km t c ∈ l -> admitted_before t T = true;
  a_proofs : forall tx t, (exists c, P !! tx = Some c /\ pc_task_id c = t) <-> ProofAdmitted tx t ∈ l;
  a_paid : forall tx t, ProofAdmitted tx t ∈ l -> admitted_before t T = true;
}.

Definition admits_nothing (os : list occurrence) : Prop :=
  forall o, o ∈ os -> match o with KeyAdmitted _ _ _ | ProofAdmitted _ _ => False | _ => True end.

Lemma admitted_later t s s' : later_history s s' -> admitted_before t s = true -> admitted_before t s' = true.
Proof. intros [h E]. unfold admitted_before. rewrite E, existsb_app. by intros ->. Qed.

Lemma run_later evs s : later_history s (run leaseMs routed verify evs s).
Proof.
  revert s. induction evs as [|ev evs IH]; intros s; [done|]. etransitivity; [apply run_event_later|apply IH].
Qed.

Lemma adm_quiet evs T P l os : admits_nothing os -> adm_ok T P l ->
  adm_ok (run leaseMs routed verify evs T) P (l ++ os).
Proof.
  intros Hos [[evs0 ->] Hk Hp Hd]. set (T := run leaseMs routed verify evs0 fresh_relay) in *.
  assert (forall o, match o with KeyAdmitted _ _ _ | ProofAdmitted _ _ => True | _ => False end ->
                    o ∈ l ++ os <-> o ∈ l) as Hin.
  { intros o Ho. rewrite elem_of_app. split; [|by left]. intros [?|Hi]; [done|]. pose proof (Hos o Hi). by destruct o. }
  split.
  - exists (evs0 ++ evs). by rewrite run_app.
  - intros km t c Ha. apply Hin in Ha; [|done]. eapply admitted_later; [apply run_later|by eapply Hk].
  - intros tx t. rewrite Hin by done. apply Hp.
  - intros tx t Ha. apply Hin in Ha; [|done]. eapply admitted_later; [apply run_later|by eapply Hd].
Qed.

Lemma adm_still T P l os : admits_nothing os -> adm_ok T P l -> adm_ok T P (l ++ os).
Proof. apply (adm_quiet []). Qed.

Lemma adm_still_nil T P l : adm_ok T P l -> adm_ok T P (l ++ []).
Proof. apply adm_still. by intros o ?%elem_of_nil. Qed.

(** Either door's transaction. *)
Lemma adm_admits x pr now w w' l os :
  adm_ok (tasks w) (proofs w) l -> proof_bound x w w' -> admitted_before (sb_taskId x) (tasks w) = false ->
  tasks w' = admit_task (sb_taskId x) (sb_terms x) now (sb_ttl x) pr (tasks w) ->
  admitted_before (sb_taskId x) (tasks w') = true ->
  (os = [] \/ exists km c, os = [KeyAdmitted km (sb_taskId x) c]) ->
  adm_ok (tasks w') (proofs w') (l ++ os ++ proof_admitted x).
Proof.
  intros [[evs Ht] Hk Hp Hd] Hb Hn HT' Ha Hos.
  assert (later_history (tasks w) (tasks w')) as Hl by (rewrite HT'; apply admit_task_later).
  split.
  - exists (evs ++ [Admit (sb_taskId x) (sb_terms x) now (sb_ttl x) pr]). rewrite run_app, <- Ht. done.
  - intros km t c. rewrite !elem_of_app. intros [Hi|[Hi|Hi]].
    + eapply admitted_later; [done|by eapply Hk].
    + destruct Hos as [->|(km' & c' & ->)]; [by apply elem_of_nil in Hi|].
      by apply list_elem_of_singleton in Hi as [= -> -> ->].
    + by destruct (aside_proof km x _ Hi).
  - intros tx t. rewrite !elem_of_app.
    assert (ProofAdmitted tx t ∉ os) as Hni.
    { destruct Hos as [->|(km' & c' & ->)]; [by intros ?%elem_of_nil|by intros [=]%list_elem_of_singleton]. }
    unfold proof_bound, proof_admitted in *. destruct (sb_proof x) as [tx'|].
    + destruct Hb as ((c' & Hc' & Htc') & Hkeep & Hother). rewrite list_elem_of_singleton, <- Hp.
      destruct (decide (tx = tx')) as [->|Hne].
      * split; [intros (c & Hc & <-); right; right; congruence|]. intros [(c & Hc & <-)|[?|[= ->]]]; [|done|by eauto].
        exists c. by auto.
      * rewrite Hother by done. naive_solver.
    + rewrite Hb, Hp. split; [by left|]. intros [?|[?|?%elem_of_nil]]; done.
  - intros tx t. rewrite !elem_of_app. intros [Hi|[Hi|Hi]].
    + eapply admitted_later; [done|by eapply Hd].
    + destruct Hos as [->|(km' & c' & ->)]; [by apply elem_of_nil in Hi|by apply list_elem_of_singleton in Hi].
    + unfold proof_admitted in Hi. destruct (sb_proof x); [|by apply elem_of_nil in Hi].
      by apply list_elem_of_singleton in Hi as [= -> ->].
Qed.

Definition adm (s : @relay_state M) : Prop := adm_ok (tasks (store s)) (proofs (store s)) (log s).

Lemma adm_same s s' os : admits_nothing os -> tasks (store s') = tasks (store s) ->
  proofs (store s') = proofs (store s) -> log s' = log s ++ os -> adm s -> adm s'.
Proof. unfold adm. intros Ho -> -> ->. by apply adm_still. Qed.

Lemma nothing_nil : admits_nothing [].
Proof. by intros o ?%elem_of_nil. Qed.

Lemma nothing_answered km t st b : admits_nothing [Answered km t st b].
Proof. by intros o ->%list_elem_of_singleton. Qed.

Lemma adm_unlogged s s' : tasks (store s') = tasks (store s) -> proofs (store s') = proofs (store s) ->
  log s' = log s -> adm s -> adm s'.
Proof. intros ???. apply (adm_same s s' []); [apply nothing_nil|done|done|by rewrite app_nil_r]. Qed.

Lemma adm_outcome i r st b wrote now s : adm s -> adm (outcome (M := M) i r st b wrote now s).
Proof.
  intros I. unfold outcome. destruct (rq_admitted r) as [t|]; [|exact I]. destruct (negb wrote); [exact I|].
  destruct (recordAdmittedOutcome _ _ t st _ now _) as [[[|]|e] d] eqn:E.
  - apply (adm_same s _ _ (nothing_answered (rq_km r) t st (outcome_body t st b))); try done. cbn.
    by destruct (record_row (rq_km r) _ _ _ _ _ _ _ _ _ E).
  - destruct b as [b|]; [by apply (adm_same s _ _ (nothing_answered (rq_km r) t st b))|].
    by apply (adm_same s _ _ nothing_nil).
  - destruct b as [b|]; [by apply (adm_same s _ _ (nothing_answered (rq_km r) t st b))|].
    by apply (adm_same s _ _ nothing_nil).
Qed.

Lemma step_adm s ev : adm s -> adm (step s ev).
Proof.
  intros I.
  destruct ev as [k m now|i tx|i|i x now|i|i st b rel|i rest now|i wrote now|x now|now|ev|]; cbn -[completeIdempotency run_event];
    try (destruct (admitted_before _ _) eqn:Hn; [exact I|]);
    try (destruct (requests s !! i) as [r|]; [|exact I]; destruct (rq_phase r); try exact I).
  - unfold arrive. destruct (checkIdempotency k m now (idem (store s))) as [[[| |[t|]]|] d] eqn:E; try exact I.
    apply (adm_unlogged s); try done. by destruct (check_row (k, m) _ _ _ _ _ _ E).
  - unfold admit_submission. destruct (admission funding _ _ x now (store s)) as [[[]|e] w] eqn:E.
    + destruct (admission_ok _ _ _ _ _ _ E) as (row & _ & _ & _ & Hb & HT & Ha).
      unfold adm. cbn. rewrite (cons_middle _ (log s) (proof_admitted x)).
      eapply (adm_admits x _ now (store s) w); try done. right. by eauto.
    + by apply transaction_throw in E as ->.
  - unfold error_boundary. destruct (rq_claim r && rel); [|exact I]. apply (adm_unlogged s); try done.
    by destruct (release_row (rq_km r) (rq_key r) (rq_motebit r) (idem (store s))).
  - destruct (rq_admitted r); [|exact I]. by apply (adm_unlogged s).
  - by apply adm_outcome.
  - destruct (forwarded x now (store s)) as [[[]|e] w] eqn:E.
    + destruct (forwarded_ok _ _ _ _ E) as (_ & Hb & HT & Ha).
      unfold adm. cbn. apply (adm_admits x false now (store s) w (log s) []); try done. by left.
    + by apply transaction_throw in E as ->.
  - apply (adm_same s _ [Swept now]); try done. by intros o ->%list_elem_of_singleton.
  - destruct (later_turn ev); [|exact I]. unfold adm. cbn. rewrite <- (app_nil_r (log s)).
    apply (adm_quiet [ev]); [apply nothing_nil|exact I].
  - unfold adm. cbn. rewrite <- (app_nil_r (log s)). apply (adm_quiet [Restart]); [apply nothing_nil|exact I].
Qed.

Lemma fresh_adm m : adm (fresh_state m).
Proof.
  split; cbn.
  - by exists [].
  - by intros km t c ?%elem_of_nil.
  - intros tx t. rewrite elem_of_nil. split; [|done]. intros (c & Hc & _). by rewrite lookup_empty in Hc.
  - by intros tx t ?%elem_of_nil.
Qed.

(** ** Every reachable state *)

Lemma run_adm evs s : adm s -> adm (run_steps evs s).
Proof. revert s. induction evs as [|ev evs IH]; intros s I; [done|]. apply IH. by apply step_adm. Qed.

Lemma run_key km evs s : key_ok km (keys (store s) !! km) (log s) ->
  key_ok km (keys (store (run_steps evs s)) !! km) (log (run_steps evs s)).
Proof.
  revert s. induction evs as [|ev evs IH]; intros s I; [done|]. apply IH.
  eapply row_moves_ok; [by apply step_row|done].
Qed.

Lemma fresh_key km m : key_ok km (keys (store (fresh_state (M := M) m)) !! km) [].
Proof. split; [done|]. by intros [|??] ????. Qed.

Lemma reachable_adm evs m : adm (run_steps evs (fresh_state m)).
Proof. apply run_adm, fresh_adm. Qed.

Lemma reachable_key km evs m : let s := run_steps evs (fresh_state m) in key_ok km (keys (store s) !! km) (log s).
Proof. apply run_key, fresh_key. Qed.
End laws.
