(* ===== verification/SubmissionSystem.v ===== *)
(** * One key, one task; one payment, one execution

    The responses recorded under a key, over every order of turns, and the laws that
    [idempotency.ts] states. *)

From Stdlib Require Import String.
From S2P Require Import Prelude JsMap JsString Json TaskTypes TaskQueue TaskClaims TaskAnswer TaskRelay TaskLaws.
From S2P Require Import TaskSystem Idempotency Submission SubmissionLaws.
Local Open Scope Z_scope.

Implicit Types (K : gmap claim_key IdempotencyRecord) (rs : list request).

(** ** The invariant *)

(** The key holds the task, and has admitted no other. *)
Definition owns (l : list occurrence) (km : claim_key) (t : string) : Prop :=
  (exists c, held km l = Some (t, c)) /\ only km t l.

Definition row_open (o : option IdempotencyRecord) : Prop := exists r, o = Some r /\ ir_status r = processing.
Definition row_says (o : option IdempotencyRecord) (st : Z) (b : json) : Prop :=
  exists r, o = Some r /\ existing_claim r = Replay st b.

(** What the row of an owned key holds while its request goes on. *)
Definition phase_ok (o : option IdempotencyRecord) (p : phase) : Prop :=
  match p with
  | Running | Thrown => row_open o
  | Responding st b => row_open o \/ exists b', b = Some b' /\ row_says o st b'
  | Preparing | Responded _ _ => True
  end.

Definition responded (p : phase) : Prop := match p with Responded _ _ => True | _ => False end.

Record resp_ok (K : gmap claim_key IdempotencyRecord) (rs : list request) (l : list occurrence) : Prop := {
  c_adm : forall i r t, rs !! i = Some r -> rq_admitted r = Some t ->
    (exists c, KeyAdmitted (rq_km r) t c ∈ l) /\ rq_phase r <> Preparing;
  c_uniq : forall i j r r' t, rs !! i = Some r -> rs !! j = Some r' ->
    rq_admitted r = Some t -> rq_admitted r' = Some t -> i = j;
  c_phase : forall i r t, rs !! i = Some r -> rq_admitted r = Some t -> owns l (rq_km r) t ->
    phase_ok (K !! rq_km r) (rq_phase r);
  c_ans : forall km t st b, Answered km t st b ∈ l ->
    (exists c, KeyAdmitted km t c ∈ l) /\
    (forall i r, rs !! i = Some r -> rq_admitted r = Some t -> responded (rq_phase r)) /\
    (owns l km t -> row_says (K !! km) st b);
  c_names : forall km st b, row_says (K !! km) st b ->
    exists t c, KeyAdmitted km t c ∈ l /\ body_task b = Some t;
}.

(** ** Turns that write no response and admit nothing *)

Definition silent (os : list occurrence) : Prop :=
  forall o, o ∈ os -> match o with KeyAdmitted _ _ _ | Answered _ _ _ _ => False | _ => True end.

Lemma silent_in os l o : silent os -> match o with KeyAdmitted _ _ _ | Answered _ _ _ _ => True | _ => False end ->
  o ∈ l ++ os <-> o ∈ l.
Proof. intros Hs Ho. rewrite elem_of_app. split; [|by left]. intros [?|Hi]; [done|]. pose proof (Hs o Hi). by destruct o. Qed.

Definition calm_rows (K K' : gmap claim_key IdempotencyRecord) : Prop :=
  forall km, K' !! km = K !! km \/ (exists now, K' !! km = Some (fresh_claim now)) \/ K' !! km = None.

(** Every admitted request stays, and what its phase asks of the row is no more. *)
Definition follows (rs rs' : list request) : Prop :=
  forall i r' t, rs' !! i = Some r' -> rq_admitted r' = Some t ->
    exists r, rs !! i = Some r /\ rq_admitted r = Some t /\ rq_km r = rq_km r' /\ rq_phase r' <> Preparing /\
      (responded (rq_phase r) -> responded (rq_phase r')) /\ (forall o, phase_ok o (rq_phase r) -> phase_ok o (rq_phase r')).

Lemma owned_row K km t l : key_ok km (K !! km) l -> owns l km t -> exists r, K !! km = Some r /\ ir_task_id r = Some t.
Proof.
  intros [Hh _] [[c Hc] _]. rewrite Hh in Hc. unfold bound_of in Hc. destruct (K !! km) as [r|]; [|done].
  exists r. split; [done|]. destruct (ir_task_id r); by simplify_eq.
Qed.

Lemma calm_owned K K' l os km t :
  key_ok km (K !! km) l -> key_ok km (K' !! km) (l ++ os) -> calm_rows K K' -> silent os ->
  owns (l ++ os) km t -> owns l km t /\ K' !! km = K !! km.
Proof.
  intros H H' Hc Hs Ho. destruct (owned_row K' km t _ H' Ho) as (r & Er & Ht).
  assert (K' !! km = K !! km) as E.
  { destruct (Hc km) as [?|[[now E]|E]]; [done| |congruence]. rewrite E in Er. by injection Er as <-. }
  split; [|done]. destruct Ho as [[c Hh] Hon]. split.
  - exists c. by rewrite (k_held _ _ _ H), <- E, <- (k_held _ _ _ H').
  - intros t' c' Hi. apply (Hon t' c'). by apply silent_in.
Qed.

Lemma says_bound K' K km st b : calm_rows K K' -> row_says (K' !! km) st b -> row_says (K !! km) st b.
Proof.
  intros Hc (r & Er & Hs). destruct (Hc km) as [E|[[now E]|E]]; rewrite E in Er; [by exists r| |done].
  by injection Er as <-.
Qed.

Lemma resp_calm K K' rs rs' l os :
  (forall km, key_ok km (K !! km) l) -> (forall km, key_ok km (K' !! km) (l ++ os)) ->
  calm_rows K K' -> silent os -> follows rs rs' -> resp_ok K rs l -> resp_ok K' rs' (l ++ os).
Proof.
  intros HK HK' Hc Hs Hf [Ha Hu Hp Hn Hm]. split.
  - intros i r' t Hi Ht. destruct (Hf i r' t Hi Ht) as (r & Er & Ert & Ekm & Hpre & _). split; [|done].
    destruct (Ha i r t Er Ert) as [[c Hin] _]. exists c. rewrite <- Ekm. by apply silent_in.
  - intros i j r1 r2 t Hi Hj H1 H2. destruct (Hf i r1 t Hi H1) as (r1' & E1 & A1 & _).
    destruct (Hf j r2 t Hj H2) as (r2' & E2 & A2 & _). by eapply Hu.
  - intros i r' t Hi Ht Ho. destruct (Hf i r' t Hi Ht) as (r & Er & Ert & Ekm & _ & _ & Hph). apply Hph.
    rewrite <- Ekm in Ho |- *. destruct (calm_owned K K' l os _ t (HK _) (HK' _) Hc Hs Ho) as [Ho' ->].
    by eapply Hp.
  - intros km t st b Hi. apply silent_in in Hi; [|done|done]. destruct (Hn km t st b Hi) as ([c Hin] & Hr & Ho).
    split_and!.
    + exists c. by apply silent_in.
    + intros i r' Er' At'. destruct (Hf i r' t Er' At') as (r & Er & Ert & _ & _ & Hre & _). apply Hre. by eapply Hr.
    + intros Hown. destruct (calm_owned K K' l os km t (HK _) (HK' _) Hc Hs Hown) as [Ho' ->]. by apply Ho.
  - intros km st b Hr. destruct (Hm km st b (says_bound _ _ _ _ _ Hc Hr)) as (t & c & Hin & Hb).
    exists t, c. split; [|done]. by apply silent_in.
Qed.

(** ** Turns that write a response *)

Lemma owns_unique l km t t' c : owns l km t -> KeyAdmitted km t' c ∈ l -> t' = t.
Proof. intros [_ Hon]. apply Hon. Qed.

Lemma says_response o st b now : is_Some o -> row_says (with_response st b now <$> o) st b.
Proof. intros [r ->]. by eexists. Qed.

Lemma says_written o st b now st' b' : row_says (with_response st b now <$> o) st' b' -> st' = st /\ b' = b.
Proof. intros (r & Er & Hs). destruct o as [r0|]; [|done]. injection Er as <-. by injection Hs as <- <-. Qed.

(** Occurrences that only say who was answered. *)
Definition answers_only (os : list occurrence) : Prop :=
  forall o, o ∈ os -> match o with Answered _ _ _ _ => True | _ => False end.

Lemma answers_one km t st b : answers_only [Answered km t st b].
Proof. by intros o ->%list_elem_of_singleton. Qed.
Lemma answers_none : answers_only [].
Proof. by intros o ?%elem_of_nil. Qed.

Lemma answers_in os l km t c : answers_only os -> KeyAdmitted km t c ∈ l ++ os <-> KeyAdmitted km t c ∈ l.
Proof. intros Ha. rewrite elem_of_app. split; [|by left]. intros [?|Hi]; [done|]. by destruct (Ha _ Hi). Qed.

Lemma answers_owns os l km t : answers_only os -> owns (l ++ os) km t -> owns l km t.
Proof.
  intros Ha [[c Hh] Hon]. split.
  - exists c. rewrite <- Hh. symmetry. apply held_aside. intros o Ho. by specialize (Ha o Ho); destruct o.
  - intros t1 c1 H1. apply (Hon t1 c1). by apply answers_in.
Qed.

(** Who was admitted stays so when one request moves on. *)
Lemma moved_requests rs i r p j r' : rs !! i = Some r -> <[i := to_phase p r]> rs !! j = Some r' ->
  exists r0, rs !! j = Some r0 /\ rq_admitted r' = rq_admitted r0 /\ rq_km r' = rq_km r0 /\
    ((j = i /\ rq_phase r' = p) \/ (j <> i /\ r' = r0)).
Proof.
  intros Hi [(<- & <- & Hlt)|[Hne Hj]]%list_lookup_insert_Some.
  - exists r. split_and!; try done. by left.
  - exists r'. split_and!; try done. right. by split.
Qed.

(** The admitted request [i] writes its response, and goes on to [p]. *)
Section write.
Context (K K' : gmap claim_key IdempotencyRecord) (rs : list request) (l os : list occurrence).
Context (i : nat) (r : request) (t : string) (st : Z) (b : json) (now : Z) (p : phase).
Context (HK : forall km, key_ok km (K !! km) l).
Context (Hi : rs !! i = Some r) (Ht : rq_admitted r = Some t) (Hnr : ~ responded (rq_phase r)).
Context (Hk : K' !! rq_km r = with_response st b now <$> K !! rq_km r).
Context (Hoth : forall km, km <> rq_km r -> K' !! km = K !! km) (Hb : body_task b = Some t).
Context (Hp : p = Responding st (Some b) /\ os = [] \/
              (exists b', p = Responded st b') /\ os = [Answered (rq_km r) t st b]).
Context (I : resp_ok K rs l).

Lemma only_answers : answers_only os.
Proof. destruct Hp as [[_ ->]|[_ ->]]; [apply answers_none|apply answers_one]. Qed.

Lemma write_admitted : exists c, KeyAdmitted (rq_km r) t c ∈ l.
Proof. by destruct (c_adm _ _ _ I i r t Hi Ht). Qed.

(** The key is owned for this request's task, or not at all. *)
Lemma write_owner km t' : owns (l ++ os) km t' ->
  owns l km t' /\ (km = rq_km r /\ t' = t /\ row_says (K' !! km) st b \/ km <> rq_km r /\ K' !! km = K !! km).
Proof.
  intros Ho%(answers_owns _ _ _ _ only_answers). split; [done|].
  destruct (decide (km = rq_km r)) as [->|E]; [left|right; by split; [|apply Hoth]].
  destruct write_admitted as [c Hc]. split; [done|]. split; [symmetry; by eapply owns_unique|].
  rewrite Hk. apply says_response. destruct (owned_row K (rq_km r) t' l (HK _) Ho) as (row & -> & _). by eexists.
Qed.

Lemma write_phase j r' t' : <[i := to_phase p r]> rs !! j = Some r' -> rq_admitted r' = Some t' ->
  owns (l ++ os) (rq_km r') t' -> phase_ok (K' !! rq_km r') (rq_phase r').
Proof.
  intros Hj Ht' Ho. destruct (moved_requests _ _ _ _ _ _ Hi Hj) as (r0 & Hj0 & Ea & Ek & Hc).
  rewrite Ea in Ht'. destruct (write_owner _ _ Ho) as [Ho' Hcase].
  destruct Hc as [[-> Hph]|[Hne ->]].
  - rewrite Hph. destruct Hp as [[-> _]|[[b' ->] _]]; [|done]. right. exists b. split; [done|].
    rewrite Hi in Hj0. injection Hj0 as <-. by destruct Hcase as [(_ & _ & ?)|[? _]].
  - destruct Hcase as [(_ & -> & _)|[_ ->]].
    + exfalso. apply Hne. by eapply (c_uniq _ _ _ I).
    + by eapply (c_phase _ _ _ I).
Qed.

Lemma write_answered km t' st' b' : Answered km t' st' b' ∈ l ++ os ->
  (exists c, KeyAdmitted km t' c ∈ l ++ os) /\
  (forall j r', <[i := to_phase p r]> rs !! j = Some r' -> rq_admitted r' = Some t' -> responded (rq_phase r')) /\
  (owns (l ++ os) km t' -> row_says (K' !! km) st' b').
Proof.
  intros Hx. apply elem_of_app in Hx as [Hx|Hx].
  - destruct (c_ans _ _ _ I km t' st' b' Hx) as ([c Hc] & Hr & Ho). split_and!.
    + exists c. by apply answers_in; [apply only_answers|].
    + intros j r' Hj Ht'. destruct (moved_requests _ _ _ _ _ _ Hi Hj) as (r0 & Hj0 & Ea & _ & [[-> Hph]|[Hne ->]]).
      * rewrite Hi in Hj0. injection Hj0 as <-. destruct Hnr. apply (Hr i r); [done|]. by rewrite <- Ea.
      * by eapply Hr.
    + intros Hw. destruct (write_owner km t' Hw) as [Hw' [(-> & -> & _)|[_ ->]]]; [|by apply Ho].
      destruct Hnr. by apply (Hr i r).
  - destruct Hp as [[_ E]|[[b1 E1] E]]; rewrite E in Hx; [by apply elem_of_nil in Hx|].
    apply list_elem_of_singleton in Hx as [= -> -> -> ->]. split_and!.
    + destruct write_admitted as [c Hc]. exists c. by apply answers_in; [apply only_answers|].
    + intros j r' Hj Ht'. destruct (moved_requests _ _ _ _ _ _ Hi Hj) as (r0 & Hj0 & Ea & _ & [[-> Hph]|[Hne ->]]).
      * by rewrite Hph, E1.
      * exfalso. apply Hne. by eapply (c_uniq _ _ _ I).
    + intros Hw. by destruct (write_owner _ _ Hw) as [_ [(_ & _ & ?)|[? _]]].
Qed.

Lemma resp_write : resp_ok K' (<[i := to_phase p r]> rs) (l ++ os).
Proof.
  split.
  - intros j r' t' Hj Ht'. destruct (moved_requests _ _ _ _ _ _ Hi Hj) as (r0 & Hj0 & Ea & Ek & Hc).
    rewrite Ea in Ht'. destruct (c_adm _ _ _ I j r0 t' Hj0 Ht') as [[c Hin] Hpre]. split.
    + exists c. rewrite Ek. by apply answers_in; [apply only_answers|].
    + destruct Hc as [[-> ->]|[_ ->]]; [|done]. by destruct Hp as [[-> _]|[[b' ->] _]].
  - intros j j' r1 r2 t' Hj Hj' H1 H2. destruct (moved_requests _ _ _ _ _ _ Hi Hj) as (r1' & Hj1 & E1 & _).
    destruct (moved_requests _ _ _ _ _ _ Hi Hj') as (r2' & Hj2 & E2 & _).
    rewrite E1 in H1. rewrite E2 in H2. by eapply (c_uniq _ _ _ I).
  - exact write_phase.
  - exact write_answered.
  - intros km st' b' Hs. destruct (decide (km = rq_km r)) as [->|E].
    + rewrite Hk in Hs. apply says_written in Hs as [-> ->]. destruct write_admitted as [c Hc].
      exists t, c. split; [by apply answers_in; [apply only_answers|]|done].
    + rewrite Hoth in Hs by done. destruct (c_names _ _ _ I km st' b' Hs) as (t' & c & Hc & Hb'). exists t', c.
      split; [by apply answers_in; [apply only_answers|]|done].
Qed.
End write.

(** A request answered with what its row already says. *)
Lemma resp_answered K rs l i r t st b :
  (forall km, key_ok km (K !! km) l) -> rs !! i = Some r -> rq_admitted r = Some t -> rq_phase r = Responding st (Some b) ->
  (forall row, K !! rq_km r = Some row -> ~ (ir_task_id row = Some t /\ ir_status row = processing)) ->
  resp_ok K rs l -> resp_ok K (<[i := to_phase (Responded st (Some b)) r]> rs) (l ++ [Answered (rq_km r) t st b]).
Proof.
  intros HK Hi Ht Hph0 Hno I.
  assert (owns (l ++ [Answered (rq_km r) t st b]) (rq_km r) t -> row_says (K !! rq_km r) st b) as Hsays.
  { intros Hw%(answers_owns _ _ _ _ (answers_one _ _ _ _)). pose proof (c_phase _ _ _ I i r t Hi Ht Hw) as H0.
    rewrite Hph0 in H0. destruct H0 as [(row & Er & Hs)|(b' & [= <-] & Hs)]; [|done].
    destruct (owned_row K (rq_km r) t l (HK _) Hw) as (row' & Er' & Ht''). rewrite Er in Er'. injection Er' as <-.
    by destruct (Hno row Er). }
  assert (forall km t1 c1, KeyAdmitted km t1 c1 ∈ l ++ [Answered (rq_km r) t st b] <-> KeyAdmitted km t1 c1 ∈ l) as Hin
    by (intros; apply answers_in, answers_one).
  split.
  - intros j r' t' Hj Ht'. destruct (moved_requests _ _ _ _ _ _ Hi Hj) as (r0 & Hj0 & Ea & Ek & Hc).
    rewrite Ea in Ht'. destruct (c_adm _ _ _ I j r0 t' Hj0 Ht') as [[c Hx] Hpre]. rewrite Ek.
    split; [exists c; by apply Hin|]. by destruct Hc as [[-> ->]|[_ ->]].
  - intros j j' r1 r2 t' Hj Hj' H1 H2. destruct (moved_requests _ _ _ _ _ _ Hi Hj) as (r1' & Hj1 & E1 & _).
    destruct (moved_requests _ _ _ _ _ _ Hi Hj') as (r2' & Hj2 & E2 & _).
    rewrite E1 in H1. rewrite E2 in H2. by eapply (c_uniq _ _ _ I).
  - intros j r' t' Hj Ht' Ho%(answers_owns _ _ _ _ (answers_one _ _ _ _)).
    destruct (moved_requests _ _ _ _ _ _ Hi Hj) as (r0 & Hj0 & Ea & Ek & [[-> ->]|[_ ->]]); [done|].
    by eapply (c_phase _ _ _ I).
  - intros km t' st' b' Hx. apply elem_of_app in Hx as [Hx|Hx].
    + destruct (c_ans _ _ _ I km t' st' b' Hx) as ([c Hc] & Hr & Ho). split_and!; [exists c; by apply Hin| |].
      * intros j r' Hj Ht'. destruct (moved_requests _ _ _ _ _ _ Hi Hj) as (r0 & Hj0 & Ea & _ & [[-> Hph]|[Hne ->]]);
          [by rewrite Hph|by eapply Hr].
      * intros Hw%(answers_owns _ _ _ _ (answers_one _ _ _ _)). by apply Ho.
    + apply list_elem_of_singleton in Hx as [= -> -> -> ->]. destruct (c_adm _ _ _ I i r t Hi Ht) as [[c Hc] _].
      split_and!; [exists c; by apply Hin| |done].
      intros j r' Hj Ht'. destruct (moved_requests _ _ _ _ _ _ Hi Hj) as (r0 & Hj0 & Ea & _ & [[-> Hph]|[Hne ->]]);
        [by rewrite Hph|]. exfalso. apply Hne. by eapply (c_uniq _ _ _ I).
  - intros km st' b' Hs. destruct (c_names _ _ _ I km st' b' Hs) as (t' & c & Hc & ?). exists t', c. split; [by apply Hin|done].
Qed.

(** ** The turn that admits a task *)

Section admitting.
Context (K : gmap claim_key IdempotencyRecord) (rs : list request) (l os : list occurrence).
Context (i : nat) (r : request) (t : string) (c : Z) (row : IdempotencyRecord).
Context (HK : forall km, key_ok km (K !! km) l).
Context (Hi : rs !! i = Some r) (Hpre : rq_phase r = Preparing).
Context (Hrow : K !! rq_km r = Some row) (Hun : unbound row = true).
Context (Hnew : forall km c, KeyAdmitted km t c ∉ l) (Hos : forall km, aside km os) (Hsil : silent os).
Context (I : resp_ok K rs l).

Abbreviation K' := (<[rq_km r := with_task t row]> K).
Abbreviation l' := (l ++ KeyAdmitted (rq_km r) t c :: os).

Lemma admit_in km t' c' : KeyAdmitted km t' c' ∈ l' <-> KeyAdmitted km t' c' ∈ l \/ (km = rq_km r /\ t' = t /\ c' = c).
Proof.
  rewrite elem_of_app, elem_of_cons. split.
  - intros [?|[[= -> -> ->]|Hx]]; [by left|by right|]. by destruct (Hsil _ Hx).
  - intros [?|(-> & -> & ->)]; [by left|by right; left].
Qed.

Lemma admit_others j r' t' : rs !! j = Some r' -> rq_admitted r' = Some t' -> j <> i /\ t' <> t.
Proof.
  intros Hj Ht. destruct (c_adm _ _ _ I j r' t' Hj Ht) as [[c' Hc] Hp]. split; intros ->.
  - rewrite Hi in Hj. by injection Hj as <-.
  - by destruct (Hnew _ _ Hc).
Qed.

(** An older task owns another key, as before. *)
Lemma admit_owner km t' : t' <> t -> owns l' km t' -> owns l km t' /\ K' !! km = K !! km.
Proof.
  intros Hne [[c' Hh] Hon]. assert (km <> rq_km r) as Hk.
  { intros ->. apply Hne. symmetry. apply (Hon t c), admit_in. by right. }
  split; [|by rewrite lookup_insert_ne]. split.
  - exists c'. rewrite <- Hh. symmetry. apply held_aside.
    intros o [->|Ho]%elem_of_cons; [by apply not_eq_sym|by apply Hos].
  - intros t1 c1 H1. apply (Hon t1 c1), admit_in. by left.
Qed.

Lemma admitted_request j r' : <[i := admitted t r]> rs !! j = Some r' ->
  j = i /\ r' = admitted t r \/ rs !! j = Some r' /\ j <> i.
Proof. intros [(<- & <- & _)|[? ?]]%list_lookup_insert_Some; [by left|by right]. Qed.

Lemma resp_admit : resp_ok K' (<[i := admitted t r]> rs) l'.
Proof.
  split.
  - intros j r' t' [[-> ->]|[Hj _]]%admitted_request Ht.
    + cbn in Ht. injection Ht as <-. split; [|done]. exists c. apply admit_in. by right.
    + destruct (c_adm _ _ _ I j r' t' Hj Ht) as [[c' Hc] ?]. split; [exists c'; apply admit_in; by left|done].
  - intros j j' r1 r2 t' [[-> ->]|[Hj Hn]]%admitted_request [[-> ->]|[Hj' Hn']]%admitted_request H1 H2;
      [done| | |by eapply (c_uniq _ _ _ I)].
    + cbn in H1. injection H1 as <-. by destruct (admit_others _ _ _ Hj' H2).
    + cbn in H2. injection H2 as <-. by destruct (admit_others _ _ _ Hj H1).
  - intros j r' t' [[-> ->]|[Hj _]]%admitted_request Ht Ho.
    + change (rq_km (admitted t r)) with (rq_km r). rewrite lookup_insert_eq. exists (with_task t row).
      split; [done|]. exact (proj2 (unbound_task row Hun)).
    + destruct (admit_others j r' t' Hj Ht) as [_ Hne]. destruct (admit_owner _ _ Hne Ho) as [Ho' ->].
      by eapply (c_phase _ _ _ I).
  - intros km t' st b Hx. assert (Answered km t' st b ∈ l) as Hx'.
    { apply elem_of_app in Hx as [?|[?|Hx]%elem_of_cons]; [done|done|]. by destruct (Hsil _ Hx). }
    destruct (c_ans _ _ _ I km t' st b Hx') as ([c' Hc] & Hr & Ho).
    assert (t' <> t) as Hne by (intros ->; by destruct (Hnew _ _ Hc)). split_and!.
    + exists c'. apply admit_in. by left.
    + intros j r' [[-> ->]|[Hj _]]%admitted_request Ht; [|by eapply Hr]. cbn in Ht. by injection Ht as ->.
    + intros Hw. destruct (admit_owner _ _ Hne Hw) as [Hw' ->]. by apply Ho.
  - intros km st b Hs. destruct (decide (km = rq_km r)) as [->|E].
    + rewrite lookup_insert_eq in Hs. destruct Hs as (row' & [= <-] & Hs).
      unfold existing_claim in Hs. cbn in Hs. rewrite (proj2 (unbound_task row Hun)) in Hs. done.
    + rewrite lookup_insert_ne in Hs by done. destruct (c_names _ _ _ I km st b Hs) as (t' & c' & Hc & ?).
      exists t', c'. split; [apply admit_in; by left|done].
Qed.
End admitting.

(** ** Every turn *)

Lemma follows_refl K rs l : resp_ok K rs l -> follows rs rs.
Proof. intros I j r' t Hj Ht. exists r'. split_and!; try done. by eapply (c_adm _ _ _ I). Qed.

Lemma follows_move K rs l i r p : resp_ok K rs l -> rs !! i = Some r ->
  (forall t, rq_admitted r = Some t -> p <> Preparing /\ (responded (rq_phase r) -> responded p) /\
     (forall o, phase_ok o (rq_phase r) -> phase_ok o p)) ->
  follows rs (<[i := to_phase p r]> rs).
Proof.
  intros I Hi Hp j r' t Hj Ht. destruct (moved_requests _ _ _ _ _ _ Hi Hj) as (r0 & Hj0 & Ea & Ek & Hc).
  exists r0. rewrite <- Ea, <- Ek. split_and!; try done.
  - destruct Hc as [[-> ->]|[_ ->]]; [|by eapply (c_adm _ _ _ I); rewrite <- ?Ea].
    rewrite Hi in Hj0. injection Hj0 as <-. rewrite Ea in Ht. by destruct (Hp t Ht).
  - destruct Hc as [[-> ->]|[_ ->]]; [|done]. rewrite Hi in Hj0. injection Hj0 as <-. rewrite Ea in Ht. by destruct (Hp t Ht) as (_ & ? & _).
  - destruct Hc as [[-> ->]|[_ ->]]; [|done]. rewrite Hi in Hj0. injection Hj0 as <-. rewrite Ea in Ht. by destruct (Hp t Ht) as (_ & _ & ?).
Qed.

Lemma follows_join K rs l r : resp_ok K rs l -> rq_admitted r = None -> follows rs (rs ++ [r]).
Proof.
  intros I Hr j r' t Hj Ht. apply lookup_app_Some in Hj as [Hj|[_ Hj]].
  - exists r'. split_and!; try done. by eapply (c_adm _ _ _ I).
  - apply list_lookup_singleton_Some in Hj as [_ <-]. congruence.
Qed.

Lemma calm_same K : calm_rows K K.
Proof. intros km. by left. Qed.
Lemma silent_nil : silent [].
Proof. by intros o ?%elem_of_nil. Qed.
Lemma silent_proof x : silent (proof_admitted x).
Proof. unfold proof_admitted. destruct (sb_proof x); intros o Ho; [by apply list_elem_of_singleton in Ho as ->|by apply elem_of_nil in Ho]. Qed.

Section system.
Context {M : Type} (funding : string -> M -> option M).
Context (parse : string -> option (option string * option Z)) (mint : string -> string -> string -> Z -> string).
Context (leaseMs : Z).
Context (routed : TaskQueueEntry -> ExecutionReceipt -> AnswerDoor -> bool).
Context (verify : ExecutionReceipt -> AnswerDoor -> AnswerRefusal + string).

Abbreviation step := (step funding parse mint leaseMs routed verify).
Abbreviation run_steps := (run_steps funding parse mint leaseMs routed verify).
Abbreviation keys w := (relay_idempotency_keys (idem w)).

Definition keyed (s : @relay_state M) : Prop := forall km, key_ok km (keys (store s) !! km) (log s).
Definition resp (s : @relay_state M) : Prop := resp_ok (keys (store s)) (requests s) (log s).

Lemma calm_step s s' os : keyed s -> resp s -> keyed s' -> calm_rows (keys (store s)) (keys (store s')) ->
  log s' = log s ++ os -> silent os -> follows (requests s) (requests s') -> resp s'.
Proof.
  unfold keyed, resp. intros HK I HK' Hc E Hs Hf. rewrite E in *. by apply (resp_calm (keys (store s)) _ (requests s)).
Qed.

(** A request moves on, and nothing else. *)
Lemma move_step s i r p : keyed s -> resp s -> requests s !! i = Some r ->
  (forall t, rq_admitted r = Some t -> p <> Preparing /\ (responded (rq_phase r) -> responded p) /\
     (forall o, phase_ok o (rq_phase r) -> phase_ok o p)) ->
  resp (put_request i (to_phase p r) s).
Proof.
  intros HK I Hi Hp. apply (calm_step s _ []); try done.
  - apply calm_same.
  - cbn. by rewrite app_nil_r.
  - apply silent_nil.
  - by eapply follows_move.
Qed.

(** A request that owns no claim joins. *)
Lemma join_step s r : resp s -> keyed s -> rq_admitted r = None -> resp (set_requests (requests s ++ [r]) s).
Proof.
  intros I HK Hr. apply (calm_step s _ []); try done.
  - apply calm_same.
  - cbn. by rewrite app_nil_r.
  - apply silent_nil.
  - by apply (follows_join _ _ _ _ I).
Qed.

Lemma arrive_resp k m now s : keyed s -> resp s -> keyed (arrive parse mint k m now s) ->
  resp (arrive parse mint k m now s).
Proof.
  intros HK I. unfold arrive. destruct (checkIdempotency k m now (idem (store s))) as [[[| |[t|]]|] d] eqn:E;
    try (intros _; by apply join_step); [|done].
  intros HK'. apply (calm_step s _ []); try done.
  - intros km. destruct (check_row km _ _ _ _ _ _ E) as [Er _]. cbn. rewrite Er.
    destruct (keys (store s) !! km); [by left|]. case_decide; [right; left; by eexists|by left].
  - cbn. by rewrite app_nil_r.
  - apply silent_nil.
  - by apply (follows_join _ _ _ _ I).
Qed.

Lemma admit_resp i r x now s : adm leaseMs routed verify s -> keyed s -> resp s -> requests s !! i = Some r ->
  rq_phase r = Preparing -> admitted_before (sb_taskId x) (tasks (store s)) = false ->
  resp (admit_submission funding i r x now s).
Proof.
  intros A HK I Hi Hp Hn. unfold admit_submission.
  destruct (admission funding _ _ x now (store s)) as [[[]|e] w] eqn:E.
  - destruct (admission_ok _ _ _ _ _ _ _ E) as (row & Er & Hu & Ek & _). unfold resp. cbn. rewrite Ek.
    apply resp_admit; try done.
    + intros km c Hin. pose proof (a_keys _ _ _ _ _ _ A km _ c Hin). congruence.
    + intros km. apply aside_proof.
    + apply silent_proof.
  - apply transaction_throw in E as ->. apply (move_step s i r Thrown HK I Hi).
    intros t Ht. destruct (c_adm _ _ _ I i r t Hi Ht) as [_ []]. done.
Qed.

Lemma boundary_resp i r st b rel s : keyed s -> resp s -> requests s !! i = Some r -> rq_phase r = Thrown ->
  keyed (error_boundary i r st b rel s) -> resp (error_boundary i r st b rel s).
Proof.
  intros HK I Hi Hp HK'. apply (calm_step s _ []); try done.
  - unfold error_boundary. destruct (rq_claim r && rel); [|apply calm_same]. intros km. cbn.
    rewrite (proj1 (release_row km _ _ _)). destruct (keys (store s) !! km) as [row|]; [|by left].
    case_decide; [|by left]. destruct (unbound row); [by right; right|by left].
  - unfold error_boundary. destruct (rq_claim r && rel); by rewrite app_nil_r.
  - apply silent_nil.
  - assert (requests (error_boundary i r st b rel s) = <[i := to_phase (Responding st b) r]> (requests s)) as ->
      by (unfold error_boundary; by destruct (rq_claim r && rel)).
    eapply follows_move; [done|done|]. intros t Ht. rewrite Hp. split_and!; [done|done|]. intros o Ho. by left.
Qed.

Lemma finish_resp i r t rest now s : keyed s -> resp s -> requests s !! i = Some r -> rq_phase r = Running ->
  rq_admitted r = Some t -> resp (finish i r t rest now s).
Proof.
  intros HK I Hi Hp Ht. unfold resp. rewrite <- (app_nil_r (log _)).
  apply (resp_write (keys (store s)) _ (requests s) (log s) [] i r t 201 (responseBody t rest) now); try done.
  - rewrite Hp. exact id.
  - unfold finish. cbn -[completeIdempotency]. rewrite complete_row. by rewrite decide_True.
  - intros km Hne. unfold finish. cbn -[completeIdempotency]. rewrite complete_row. by rewrite decide_False.
  - by left.
Qed.

Lemma outcome_resp i r st b wrote now s : keyed s -> resp s -> requests s !! i = Some r ->
  rq_phase r = Responding st b -> resp (outcome i r st b wrote now s).
Proof.
  intros HK I Hi Hp. unfold outcome.
  assert (resp (put_request i (to_phase (Responded st b) r) s)) as Hquiet by (apply move_step; done).
  destruct (rq_admitted r) as [t|] eqn:Ht; [|done]. destruct (negb wrote); [done|].
  destruct (recordAdmittedOutcome _ _ t st _ now _) as [[[|]|e] d] eqn:E.
  - apply (resp_write (keys (store s)) _ (requests s) (log s) _ i r t st (outcome_body t st b) now); try done.
    + rewrite Hp. exact id.
    + destruct (record_row (rq_km r) _ _ _ _ _ _ _ _ _ E) as (_ & row & Er & _ & _ & Ed). cbn. rewrite Ed, decide_True by done.
      unfold rq_km. by rewrite Er.
    + intros km Hne. destruct (record_row km _ _ _ _ _ _ _ _ _ E) as (_ & row & _ & _ & _ & Ed). cbn. by rewrite Ed, decide_False.
    + cbn. by rewrite jm_get_set_eq.
    + right. split; [by eexists|done].
  - destruct (record_row (rq_km r) _ _ _ _ _ _ _ _ _ E) as (_ & -> & Hno).
    destruct b as [b|]; [|unfold resp; cbn; by rewrite app_nil_r]. by apply (resp_answered (keys (store s))).
  - exfalso. unfold recordAdmittedOutcome in E. repeat case_match; done.
Qed.

Lemma step_resp s ev : adm leaseMs routed verify s -> keyed s -> resp s -> resp (step s ev).
Proof.
  intros A HK I.
  assert (keyed (step s ev)) as HK' by (intros km; eapply row_moves_ok; [apply step_row|done]).
  revert HK'. destruct ev as [k m now|i tx|i|i x now|i|i st b rel|i rest now|i wrote now|x now|now|ev|]; cbn -[completeIdempotency run_event];
    try (destruct (admitted_before _ _) eqn:Hn; [done|]);
    try (destruct (requests s !! i) as [r|] eqn:Hi; [|done]; destruct (rq_phase r) eqn:Hp; try done).
  - by apply arrive_resp.
  - intros _. unfold early_proof_check. destruct (findP2pProofClaim tx _).
    + apply move_step; try done. intros t Ht. by destruct (c_adm _ _ _ I i r t Hi Ht) as [_ []].
    + apply (calm_step s _ []); try done; [apply calm_same|by rewrite app_nil_r|apply silent_nil|].
      cbn. rewrite list_insert_id by done. by eapply follows_refl.
  - intros _. apply move_step; try done. intros t Ht. by destruct (c_adm _ _ _ I i r t Hi Ht) as [_ []].
  - intros _. by apply admit_resp.
  - intros _. apply move_step; try done. intros t Ht. by rewrite Hp.
  - by apply boundary_resp.
  - intros _. destruct (rq_admitted r) as [t|] eqn:Ht; [by apply finish_resp|done].
  - intros _. by apply outcome_resp.
  - intros HK'. destruct (forwarded x now (store s)) as [[[]|e] w] eqn:E.
    + destruct (forwarded_ok _ _ _ _ E) as (Ek & _).
      apply (calm_step s _ (proof_admitted x)); try done.
      * intros km. left. cbn. by rewrite Ek.
      * apply silent_proof.
      * by eapply follows_refl.
    + by apply transaction_throw in E as ->.
  - intros HK'. apply (calm_step s _ [Swept now]); try done.
    + intros km. pose proof (cleanup_row km now (idem (store s))) as E. cbn in E. cbn. rewrite E.
      destruct (keys (store s) !! km) as [row|]; [|by left]. case_decide; [by left|by right; right].
    + by intros o ->%list_elem_of_singleton.
    + by eapply follows_refl.
  - destruct (later_turn ev); [|done]. intros _. exact I.
  - intros HK'. apply (calm_step s _ []); try done; [apply calm_same|by rewrite app_nil_r|apply silent_nil].
Qed.

Lemma fresh_resp m : resp (fresh_state m).
Proof.
  split; cbn; try done.
  - by intros km t st b ?%elem_of_nil.
  - intros km st b (r & Hr & _). by rewrite lookup_empty in Hr.
Qed.

Lemma run_resp evs s : adm leaseMs routed verify s -> keyed s -> resp s -> resp (run_steps evs s).
Proof.
  revert s. induction evs as [|ev evs IH]; intros s A HK I; [done|]. apply IH.
  - by apply step_adm.
  - intros km. eapply row_moves_ok; [apply step_row|done].
  - by apply step_resp.
Qed.

Lemma reachable_resp evs m : resp (run_steps evs (fresh_state m)).
Proof. apply run_resp; [apply fresh_adm|intros km; apply fresh_key|apply fresh_resp]. Qed.
End system.

(** From an admission to the next of the same key, a sweep removed the claim. *)
Lemma sweep_between km t c t2 c2 h3 h2 pre : held km pre = Some (t, c) ->
  (forall h1 t' c' hx, pre ++ h2 ++ KeyAdmitted km t2 c2 :: h3 = h1 ++ KeyAdmitted km t' c' :: hx -> held km h1 = None) ->
  exists now, Swept now ∈ h2 /\ c + IDEMPOTENCY_TTL_MS < now.
Proof.
  revert pre. induction h2 as [|o h2 IH]; intros pre Hh Ho.
  - specialize (Ho pre t2 c2 h3 eq_refl). congruence.
  - assert ((exists n, o = Swept n /\ c + IDEMPOTENCY_TTL_MS < n) \/ held km (pre ++ [o]) = Some (t, c)) as [(n & -> & Hn)|Hk].
    { rewrite held_snoc, Hh. destruct o as [km' t' c'|tx t'|n|km' t' st b]; cbn; try by right.
      - case_decide; [subst|by right]. specialize (Ho pre t' c' _ eq_refl). congruence.
      - case_decide; [by right|left; exists n; split; [done|lia]]. }
    + exists n. split; [by left|done].
    + destruct (IH (pre ++ [o]) Hk) as (n & Hin & Hn); [|exists n; split; [by right|done]].
      intros h1 t' c' hx E. apply (Ho h1 t' c' hx). rewrite <- E, <- !app_assoc. done.
Qed.

Lemma may_have_run_le routed verify d fw ts h t :
  relay_ok routed verify d fw ts h -> (may_have_run t h <= 1)%nat.
Proof.
  intros I. destruct (ro_grants _ _ _ _ _ _ I t) as [Gle Grel _ _ _ _]. unfold may_have_run. case_bool_decide; lia.
Qed.

(** A key that admitted one task, not swept since, owns it. *)
Lemma owned_since km o l h1 h2 t c : key_ok km o l -> l = h1 ++ KeyAdmitted km t c :: h2 ->
  (forall n, Swept n ∈ h2 -> n - IDEMPOTENCY_TTL_MS <= c) ->
  (forall t' c', KeyAdmitted km t' c' ∈ h1 ++ h2 -> t' = t) -> owns l km t.
Proof.
  intros Hk -> Hs Hon. split.
  - exists c. apply held_kept; [done|]. intros t' c' Hin. apply list_elem_of_split in Hin as (a & b & ->).
    destruct (sweep_between km t c t' c' b a (h1 ++ [KeyAdmitted km t c])) as (n & Hn & Hlt).
    + rewrite held_snoc. cbn. by rewrite decide_True.
    + intros h t1 c1 hx E'. eapply (k_once _ _ _ Hk h t1 c1 hx). rewrite <- E', <- app_assoc. done.
    + pose proof (Hs n ltac:(apply elem_of_app; by left)). lia.
  - intros t' c' Hin. rewrite elem_of_app, elem_of_cons in Hin. destruct Hin as [?|[[= -> _]|?]]; [|done|];
      apply (Hon t' c'); apply elem_of_app; auto.
Qed.

(** Renewing its token leaves the task a body names. *)
Lemma refresh_task parse mint b now d : body_task (refreshDispatchTokenOnReplay parse mint b now d) = body_task b.
Proof.
  unfold refreshDispatchTokenOnReplay. destruct b as [| | | | | |fields]; try done.
  destruct (js_field _ fields); try done. destruct (js_field _ fields); try done.
  repeat case_match; try done. cbn. by rewrite jm_get_set_ne.
Qed.

(** ** Theorems *)

Section theorems.
Context {M : Type} (funding : string -> M -> option M).
Context (parse : string -> option (option string * option Z)) (mint : string -> string -> string -> Z -> string).
Context (leaseMs : Z).
Context (routed : TaskQueueEntry -> ExecutionReceipt -> AnswerDoor -> bool).
Context (verify : ExecutionReceipt -> AnswerDoor -> AnswerRefusal + string).
Context (evs : list sub_event) (m : M).

Abbreviation final := (run_steps funding parse mint leaseMs routed verify evs (fresh_state m)).


(** C24: One [Idempotency-Key] admits at most one task while its claim lives.
    Whatever the order of requests, failures, releases and crashes, two admissions
    under one key of one motebit have between them a sweep that found the first one's
    claim more than 24 hours old. *)
Theorem one_task_per_key km t1 c1 t2 c2 h1 h2 h3 :
  log final = h1 ++ KeyAdmitted km t1 c1 :: h2 ++ KeyAdmitted km t2 c2 :: h3 ->
  exists now, Swept now ∈ h2 /\ c1 + IDEMPOTENCY_TTL_MS < now.
Proof.
  intros E. pose proof (reachable_key funding parse mint leaseMs routed verify km evs m) as Hk. cbv zeta in Hk. rewrite E in Hk.
  apply (sweep_between km t1 c1 t2 c2 h3 h2 (h1 ++ [KeyAdmitted km t1 c1])).
  - rewrite held_snoc. cbn. by rewrite decide_True.
  - intros h t' c' hx E'. eapply (k_once _ _ _ Hk h t' c' hx). rewrite <- E', <- app_assoc. done.
Qed.

(** C29: A retry finds the task its key admitted.  When the key admitted [t] and
    nothing else, and its claim was not swept since, a new request under the key claims
    nothing, admits nothing and changes no table: it is answered, and the answer names
    [t].  Once a request was answered for [t], it is that status and that body again,
    its dispatch token renewed where it was expiring. *)
Theorem retry_finds_its_task k mo t c h1 h2 now :
  log final = h1 ++ KeyAdmitted (k, mo) t c :: h2 ->
  (forall n, Swept n ∈ h2 -> n - IDEMPOTENCY_TTL_MS <= c) ->
  (forall t' c', KeyAdmitted (k, mo) t' c' ∈ h1 ++ h2 -> t' = t) ->
  exists st b,
    arrive parse mint k mo now final =
      set_requests (requests final ++ [unclaimed k mo (Responding st (Some b))]) final /\
    body_task b = Some t /\
    forall st' b', Answered (k, mo) t st' b' ∈ log final ->
      st = st' /\ b = refreshDispatchTokenOnReplay parse mint b' now (db (tasks (store final))).
Proof.
  intros E Hs Hon. pose proof (reachable_key funding parse mint leaseMs routed verify (k, mo) evs m) as Hk. cbv zeta in Hk.
  pose proof (reachable_resp funding parse mint leaseMs routed verify evs m) as R.
  assert (owns (log final) (k, mo) t) as Hown by (by eapply owned_since).
  destruct (owned_row _ _ _ _ Hk Hown) as (row & Er & Ht).
  assert (forall st' b', Answered (k, mo) t st' b' ∈ log final -> existing_claim row = Replay st' b') as Hans.
  { intros st' b' Hin. destruct (c_ans _ _ _ R _ _ _ _ Hin) as (_ & _ & Ho).
    destruct (Ho Hown) as (row' & Er' & Hrep). congruence. }
  unfold arrive, checkIdempotency. rewrite Er. destruct (existing_claim row) as [|st b|ot] eqn:Ex.
  - exfalso. unfold existing_claim in Ex. repeat case_match; done.
  - eexists st, _. split; [done|]. split; [|by intros st' b' [= <- <-]%Hans].
    rewrite refresh_task. destruct (c_names _ _ _ R (k, mo) st b) as (t' & c' & Hin & Hb); [by exists row|].
    by rewrite Hb, (proj2 Hown t' c' Hin).
  - assert (ot = Some t) as -> by (unfold existing_claim in Ex; repeat case_match; congruence).
    exists 409, (conflict_body t). split; [done|]. split; [done|]. intros st' b' Hin. by apply Hans in Hin.
Qed.
End theorems.

(** ** Witnesses *)

Definition demo_submission (t : string) : submission := {|
  sb_taskId := t; sb_terms := demo_terms; sb_proof := Some "tx"%string; sb_verified := true;
  sb_funded := true; sb_presents := true; sb_ttl := 600000 |}.
(** As above, without a payment proof. *)
Definition unpaid_submission (t : string) : submission := {|
  sb_taskId := t; sb_terms := demo_terms; sb_proof := None; sb_verified := true;
  sb_funded := false; sb_presents := false; sb_ttl := 600000 |}.

Abbreviation demo_steps evs :=
  (run_steps (fun _ n => Some (S n)) (fun _ => None) (fun _ _ _ _ => EmptyString) 30000 (fun _ _ _ => true) (fun _ _ => inr "key"%string) evs (fresh_state 0%nat)).

(** Admitted, failed afterwards; then the same proof under another key, and from a
    peer. *)
Definition demo_paid : list sub_event := [
  Arrive "k" "m" 0; AdmitSubmission 0 (demo_submission "t") 1; FailRunning 0;
  ErrorBoundary 0 502 None true; Outcome 0 true 2;
  Arrive "k2" "m" 3; AdmitSubmission 1 (demo_submission "t2") 4; Forwarded (demo_submission "t3") 5].

Lemma demo_paid_log : log (demo_steps demo_paid) =
  [KeyAdmitted ("k", "m")%string "t" 0; ProofAdmitted "tx" "t";
   Answered ("k", "m")%string "t" 502 (outcome_body "t" 502 None)].
Proof. vm_compute. reflexivity. Qed.

(** The key is swept after a day, and admits again. *)
Definition demo_swept : list sub_event := [
  Arrive "k" "m" 0; AdmitSubmission 0 (unpaid_submission "t") 1; Finish 0 [] 2; Outcome 0 true 3;
  SweepKeys 86400001; Arrive "k" "m" 86400002; AdmitSubmission 1 (unpaid_submission "t2") 86400003].


Lemma demo_swept_log : log (demo_steps demo_swept) =
  [KeyAdmitted ("k", "m")%string "t" 0; Answered ("k", "m")%string "t" 201 (responseBody "t" []); Swept 86400001;
   KeyAdmitted ("k", "m")%string "t2" 86400002].
Proof. vm_compute. reflexivity. Qed.

Lemma one_task_per_key_witness : exists now,
  Swept now ∈ [Answered ("k", "m")%string "t" 201 (responseBody "t" []); Swept 86400001] /\
  0 + IDEMPOTENCY_TTL_MS < now.
Proof.
  exact (one_task_per_key (fun _ n => Some (S n)) (fun _ => None) (fun _ _ _ _ => EmptyString) 30000 (fun _ _ _ => true) (fun _ _ => inr "key"%string)
    demo_swept 0%nat ("k", "m")%string "t" 0 "t2" 86400002 []
    [Answered ("k", "m")%string "t" 201 (responseBody "t" []); Swept 86400001] [] demo_swept_log).
Defined.

Lemma retry_finds_its_task_witness :
  exists b, rq_phase <$> requests (arrive (fun _ => None) (fun _ _ _ _ => EmptyString) "k" "m" 9 (demo_steps demo_paid)) !! 2%nat =
    Some (Responding 502 (Some b)) /\ body_task b = Some "t"%string.
Proof.
  destruct (retry_finds_its_task (fun _ n => Some (S n)) (fun _ => None) (fun _ _ _ _ => EmptyString) 30000
    (fun _ _ _ => true) (fun _ _ => inr "key"%string) demo_paid 0%nat "k" "m" "t" 0 []
    [ProofAdmitted "tx" "t"; Answered ("k", "m")%string "t" 502 (outcome_body "t" 502 None)] 9) as (st & b & E & Hb & Hans).
  - exact demo_paid_log.
  - intros n Hn. repeat (apply elem_of_cons in Hn as [Hn|Hn]; [discriminate Hn|]). by apply elem_of_nil in Hn.
  - intros t' c' Hn. repeat (apply elem_of_cons in Hn as [Hn|Hn]; [discriminate Hn|]). by apply elem_of_nil in Hn.
  - exists b. split; [|exact Hb]. destruct (Hans 502 (outcome_body "t" 502 None)) as [-> _].
    + rewrite demo_paid_log. do 2 (apply elem_of_cons; right). by apply list_elem_of_singleton.
    + rewrite E. vm_compute. reflexivity.
Defined.
