(* ===== verification/Escrow.v ===== *)
(** * The allocation escrow ([services/relay/src/allocation-escrow.ts])

    The one writer of allocation money and the one reading of what an allocation
    holds, over the tables of [SqlStore].  A settlement or forward row is passed as
    the row it becomes; its columns are those the insert allows.  The schema upgrade
    of rows written before the escrow is not modelled, the reading of such rows is. *)

From Stdlib Require Import String.
From S2P Require Import Prelude JsString LedgerTypes Driver SqlStore.
Local Open Scope Z_scope.
Local Open Scope motebit_scope.

(** ** Held: the one reading *)

(** [COALESCE(settlement_mode, 'relay') = 'relay'] *)
Definition relay_mode (s : settlement_row) : bool :=
  bool_decide (default "relay"%string (settlement_mode s) = "relay"%string).

Definition settlement_rows (d : relay_db) : list settlement_row := default [] (relay_settlements d).

(** [settlementId] is a relay settlement of the allocation. *)
Definition own_settlement (a settlementId : string) (d : relay_db) : bool :=
  existsb (fun s => bool_decide (st_settlement_id s = settlementId) && bool_decide (st_allocation_id s = a) &&
                    relay_mode s) (settlement_rows d).

(** A ledger row is the allocation's by its stamp, or, unstamped, by what its type
    references. *)
Definition held_txn (a : string) (d : relay_db) (t : txn_row) : bool :=
  match allocation_id t with
  | Some x => bool_decide (x = a)
  | None =>
      ((bool_decide (tx_type (txn t) = allocation_hold) || bool_decide (tx_type (txn t) = allocation_release)) &&
       bool_decide (reference_id (txn t) = Some a)) ||
      (bool_decide (tx_type (txn t) = settlement_credit) &&
       match reference_id (txn t) with Some sid => own_settlement a sid d | None => false end)
  end.

Definition journalled (sid : string) (d : relay_db) : bool :=
  existsb (fun j => bool_decide (fee_settlement_id j = sid)) (relay_allocation_fees d).

Definition held_fee_row (a : string) (d : relay_db) (s : settlement_row) : bool :=
  bool_decide (st_allocation_id s = a) && relay_mode s && negb (journalled (st_settlement_id s) d).

Definition find_allocation (a : string) (d : relay_db) : option allocation_row :=
  List.find (fun x => bool_decide (al_allocation_id x = a)) (relay_allocations d).

(** A forward is the allocation's by its stamp, or, unstamped and sent, by its task. *)
Definition held_forward (a : string) (d : relay_db) (f : forward_row) : bool :=
  (bool_decide (f_status f = fwd_pending) || bool_decide (f_status f = fwd_delivered)) &&
  match f_allocation_id f with
  | Some x => bool_decide (x = a)
  | None => bool_decide (is_Some (downstream_relay_id f)) &&
            bool_decide (Some (f_task_id f) = al_task_id <$> find_allocation a d)
  end.

Definition heldSql (a : string) (d : relay_db) : Z :=
  - select_sum (held_txn a d) (fun t => tx_amount (txn t)) (relay_transactions d)
  - select_sum (fun j => bool_decide (fee_allocation_id j = a)) fee_amount (relay_allocation_fees d)
  - select_sum (held_fee_row a d) platform_fee (settlement_rows d)
  - select_sum (held_forward a d) gross_amount (relay_federation_settlements d).

(** ** Parties *)

Definition is_hold (a : string) (t : txn_row) : bool :=
  bool_decide (tx_type (txn t) = allocation_hold) &&
  match allocation_id t with
  | Some x => bool_decide (x = a)
  | None => bool_decide (reference_id (txn t) = Some a)
  end.

(** [SELECT DISTINCT motebit_id]: who funded the escrow. *)
Definition hold_payers (a : string) (d : relay_db) : list string :=
  remove_dups ((fun t => tx_motebit_id (txn t)) <$> List.filter (is_hold a) (relay_transactions d)).

Definition hold_payer (a : string) (d : relay_db) : option string :=
  match hold_payers a d with [p] => Some p | _ => None end.

(** The payee the settlement's signed body names; its column when it names none. *)
Definition settlement_payee (a settlementId : string) (d : relay_db) : option string :=
  (fun s => default (st_motebit_id s) (record_motebit_id s)) <$>
  List.find (fun s => bool_decide (st_settlement_id s = settlementId) && bool_decide (st_allocation_id s = a) &&
                      relay_mode s) (settlement_rows d).

(** The rows [allocationPaid] groups by account. *)
Definition paid_row (a : string) (d : relay_db) (t : txn_row) : bool :=
  (bool_decide (tx_type (txn t) = settlement_credit) &&
   match reference_id (txn t) with Some sid => own_settlement a sid d | None => false end &&
   (bool_decide (allocation_id t = Some a) || bool_decide (allocation_id t = None))) ||
  (bool_decide (allocation_id t = Some a) && bool_decide (allocation_kind t = Some "dispute_clawback"%string)).

Definition paid_accounts (a : string) (d : relay_db) : list (string * Z) :=
  let rows := List.filter (paid_row a d) (relay_transactions d) in
  List.filter (fun p => 0 <? p.2)
    ((fun acc => (acc, select_sum (fun t => bool_decide (tx_motebit_id (txn t) = acc))
                         (fun t => tx_amount (txn t)) rows)) <$>
     remove_dups ((fun t => tx_motebit_id (txn t)) <$> rows)).

(** [allocationPaid(...).find((p) => p.account === party)?.amount ?? 0] *)
Definition paid_to (a party : string) (d : relay_db) : Z :=
  match List.find (fun p => bool_decide (p.1 = party)) (paid_accounts a d) with
  | Some p => p.2
  | None => 0
  end.

(** ** Movements *)

(** The kinds that refund the sole hold payer outside a dispute. *)
Inductive refund_kind := settlement_release | retry_exhaustion_refund | sweep_refund.
Inductive dispute_kind := dispute_clawback | dispute_worker | dispute_delegator.

Definition refund_text (k : refund_kind) : string :=
  match k with
  | settlement_release => "settlement_release"
  | retry_exhaustion_refund => "retry_exhaustion_refund"
  | sweep_refund => "sweep_refund"
  end.
Definition dispute_text (k : dispute_kind) : string :=
  match k with
  | dispute_clawback => "dispute_clawback"
  | dispute_worker => "dispute_worker"
  | dispute_delegator => "dispute_delegator"
  end.

Inductive AllocationMove :=
| Hold (allocationId : string) (amount : js_number) (party description : string)
| SettlementFee (allocationId : string) (amount : js_number) (settlement : settlement_row)
| SettlementCredit (allocationId : string) (amount : js_number) (party settlementId description : string)
| Refund (kind : refund_kind) (allocationId : string) (amount : js_number) (party description : string)
| FederatedForward (allocationId : string) (amount : js_number) (forward : forward_row)
| ForwardReturn (allocationId : string) (amount : js_number) (settlementId : string)
| DisputeMove (kind : dispute_kind) (allocationId : string) (amount : js_number) (party disputeId description : string).

Definition move_allocation (m : AllocationMove) : string :=
  match m with
  | Hold a _ _ _ | SettlementFee a _ _ | SettlementCredit a _ _ _ _ | Refund _ a _ _ _
  | FederatedForward a _ _ | ForwardReturn a _ _ | DisputeMove _ a _ _ _ _ => a
  end.

Definition move_amount (m : AllocationMove) : js_number :=
  match m with
  | Hold _ z _ _ | SettlementFee _ z _ | SettlementCredit _ z _ _ _ | Refund _ _ z _ _
  | FederatedForward _ z _ | ForwardReturn _ z _ | DisputeMove _ _ z _ _ _ => z
  end.

(** [Number.isSafeInteger(amount) && amount >= 0] *)
Definition safe_amount (amount : js_number) : result ledger_error Z :=
  match amount with
  | JInt z => if Number_isSafeInteger amount && (0 <=? z) then Ok z else Throw (AllocationMoneyRefused invalid_amount)
  | JNonInt => Throw (AllocationMoneyRefused invalid_amount)
  end.

(** The primary key and the unique indexes of [relay_settlements]. *)
Definition same_settlement (a b : settlement_row) : bool :=
  bool_decide (st_settlement_id a = st_settlement_id b) || bool_decide (st_allocation_id a = st_allocation_id b) ||
  (bool_decide (st_task_id a = st_task_id b) &&
   (bool_decide (st_motebit_id a = st_motebit_id b) ||
    (bool_decide (is_Some (settlement_mode a)) && bool_decide (settlement_mode a = settlement_mode b)))).
(** Those of [relay_federation_settlements], [relay_allocation_fees] and
    [relay_allocations]. *)
Definition same_forward (a b : forward_row) : bool :=
  bool_decide (f_settlement_id a = f_settlement_id b) ||
  (bool_decide (f_task_id a = f_task_id b) && bool_decide (upstream_relay_id a = upstream_relay_id b)).
Definition same_fee (a b : fee_row) : bool := bool_decide (fee_settlement_id a = fee_settlement_id b).
Definition same_allocation (a b : allocation_row) : bool :=
  bool_decide (al_allocation_id a = al_allocation_id b) || bool_decide (al_task_id a = al_task_id b).

Section escrow.
Context {W : Type} `{!DatabaseDriver relay_db ledger_error W}.
Abbreviation db_call := (call W ledger_error).

Definition refuse {A} (reason : AllocationMoneyRefusal) : db_call A := call_throw (AllocationMoneyRefused reason).

Definition allocationHeldRaw (a : string) : db_call Z := select (heldSql a).
Definition allocationHeld (a : string) : db_call Z :=
  let! raw := allocationHeldRaw a in call_ret (Z.max 0 raw).
Definition allocationHoldPayers (a : string) : db_call (list string) := select (hold_payers a).
Definition allocationHoldPayer (a : string) : db_call (option string) := select (hold_payer a).
Definition settlementPayee (a settlementId : string) : db_call (option string) := select (settlement_payee a settlementId).
Definition allocationPaid (a : string) : db_call (list (string * Z)) := select (paid_accounts a).
Definition allocationDisputeRows (a : string) : db_call nat :=
  select (fun d => length (List.filter (fun t => bool_decide (allocation_id t = Some a) &&
    (bool_decide (allocation_kind t = Some "dispute_clawback"%string) ||
     bool_decide (allocation_kind t = Some "dispute_worker"%string) ||
     bool_decide (allocation_kind t = Some "dispute_delegator"%string))) (relay_transactions d))).
Definition allocationReviewReason (a : string) : db_call (option string) :=
  select (fun d => find_allocation a d ≫= review_reason).

Definition insert_settlement_row (s : settlement_row) : db_call unit := run_sql (fun d =>
  match relay_settlements d with
  | None => Throw Error_driver
  | Some rows => match insert_row same_settlement s rows with
                 | Ok rows => Ok (tt, upd_settlements (fun _ => Some rows) d)
                 | Throw e => Throw e
                 end
  end).
Definition insert_forward_row (f : forward_row) : db_call unit := run_sql (fun d =>
  match insert_row same_forward f (relay_federation_settlements d) with
  | Ok rows => Ok (tt, upd_forwards (fun _ => rows) d)
  | Throw e => Throw e
  end).
Definition insert_fee_row (j : fee_row) : db_call unit := run_sql (fun d =>
  match insert_row same_fee j (relay_allocation_fees d) with
  | Ok rows => Ok (tt, upd_fees (fun _ => rows) d)
  | Throw e => Throw e
  end).

(** The settlement row, and its fee in the journal. *)
Definition insertSettlement (a : string) (amount : Z) (s : settlement_row) : db_call unit :=
  if negb (relay_mode s) then refuse not_a_party else
  insert_settlement_row s ;!
  if 0 <? amount
  then insert_fee_row {| fee_settlement_id := st_settlement_id s; fee_allocation_id := a; fee_amount := amount |}
  else call_ret tt.

Definition set_failed (f : forward_row) : forward_row := {|
  f_settlement_id := f_settlement_id f; f_task_id := f_task_id f; upstream_relay_id := upstream_relay_id f;
  downstream_relay_id := downstream_relay_id f; gross_amount := gross_amount f;
  f_allocation_id := f_allocation_id f; f_status := fwd_failed |}.
Definition set_delivered (f : forward_row) : forward_row := {|
  f_settlement_id := f_settlement_id f; f_task_id := f_task_id f; upstream_relay_id := upstream_relay_id f;
  downstream_relay_id := downstream_relay_id f; gross_amount := gross_amount f;
  f_allocation_id := f_allocation_id f; f_status := fwd_delivered |}.
(** The row a sent forward becomes. *)
Definition set_sent (a : string) (f : forward_row) : forward_row := {|
  f_settlement_id := f_settlement_id f; f_task_id := f_task_id f; upstream_relay_id := upstream_relay_id f;
  downstream_relay_id := downstream_relay_id f; gross_amount := gross_amount f;
  f_allocation_id := Some a; f_status := fwd_pending |}.

(** The row a received one becomes. *)
Definition set_received (f : forward_row) : forward_row := {|
  f_settlement_id := f_settlement_id f; f_task_id := f_task_id f; upstream_relay_id := upstream_relay_id f;
  downstream_relay_id := downstream_relay_id f; gross_amount := gross_amount f;
  f_allocation_id := None; f_status := fwd_delivered |}.

Definition stamp (a kind : string) : option AllocationStamp :=
  Some {| stamp_allocationId := a; stamp_kind := kind |}.

(** The delegator funds the escrow, from what it may spend. *)
Definition move_hold (a : string) (amount : Z) (party description uuid : string) (now : Z) : db_call unit :=
  if amount =? 0 then call_ret tt else
  let! after := debitSpendable party (JInt amount) allocation_hold (Some a) (Some description)
                  (stamp a "hold") uuid now in
  match after with Some _ => call_ret tt | None => refuse insufficient_balance end.

(** A forward that was never acknowledged fails; its gross is held again. *)
Definition move_forward_return (a : string) (amount : Z) (settlementId : string) : db_call unit :=
  let! fwd := select (fun d => List.find (fun f => bool_decide (f_settlement_id f = settlementId) &&
                                                   bool_decide (f_allocation_id f = Some a))
                                 (relay_federation_settlements d)) in
  match fwd with
  | None => refuse forward_not_pending
  | Some f =>
      if negb (bool_decide (f_status f = fwd_pending)) then refuse forward_not_pending else
      if negb (gross_amount f =? amount) then refuse invalid_amount else
      run_sql (fun d => Ok (tt, upd_forwards (update_rows (fun f =>
        bool_decide (f_settlement_id f = settlementId) && bool_decide (f_status f = fwd_pending)) set_failed) d))
  end.

Definition under_review_or {A} (alloc : allocation_row) (k : db_call A) : db_call A :=
  match review_reason alloc with Some _ => refuse under_review | None => k end.

(** A dispute takes back part of what the allocation's settlements paid. *)
Definition move_clawback (alloc : allocation_row) (a : string) (amount : Z) (party disputeId description uuid : string)
    (now : Z) : db_call unit :=
  under_review_or alloc (
  if amount =? 0 then call_ret tt else
  let! paid := select (paid_to a party) in
  if paid <? amount then refuse not_a_party else
  let! after := debit party (JInt amount) settlement_debit (Some disputeId) (Some description)
                  (stamp a "dispute_clawback") uuid now in
  match after with Some _ => call_ret tt | None => refuse insufficient_balance end).

(** The sole hold payer is paid back. *)
Definition pay_hold_payer (a : string) (amount : Z) (party : string) (type : TransactionType)
    (ref description kind uuid : string) (now : Z) : db_call unit :=
  if amount =? 0 then call_ret tt else
  let! payer := allocationHoldPayer a in
  match payer with
  | None => refuse unroutable
  | Some p => if negb (bool_decide (party = p)) then refuse not_a_party else
              credit party (JInt amount) type (Some ref) (Some description) (stamp a kind) uuid now ;! call_ret tt
  end.

(** What takes money out of the escrow, once it is known to hold it. *)
Definition move_out (alloc : allocation_row) (m : AllocationMove) (amount : Z) (uuid : string) (now : Z) : db_call unit :=
  match m with
  | SettlementFee a _ s =>
      if negb (bool_decide (st_allocation_id s = a)) then refuse not_a_party else
      if negb (platform_fee s =? amount) then refuse invalid_amount else
      insertSettlement a amount s
  | SettlementCredit a _ party settlementId description =>
      if amount =? 0 then call_ret tt else
      let! payee := settlementPayee a settlementId in
      if negb (bool_decide (payee = Some party)) then refuse not_a_party else
      credit party (JInt amount) settlement_credit (Some settlementId) (Some description)
        (stamp a "settlement_credit") uuid now ;! call_ret tt
  | FederatedForward a _ f =>
      if negb (gross_amount f =? amount) then refuse invalid_amount else
      if negb (bool_decide (is_Some (downstream_relay_id f))) then refuse not_a_party else
      insert_forward_row (set_sent a f)
  | DisputeMove dispute_worker a _ party disputeId description =>
      under_review_or alloc (
      if amount =? 0 then call_ret tt else
      if negb (bool_decide (party = al_motebit_id alloc)) then refuse not_a_party else
      credit party (JInt amount) settlement_credit (Some disputeId) (Some description)
        (stamp a "dispute_worker") uuid now ;! call_ret tt)
  | DisputeMove dispute_delegator a _ party disputeId description =>
      under_review_or alloc
        (pay_hold_payer a amount party settlement_credit disputeId description "dispute_delegator" uuid now)
  | Refund kind a _ party description =>
      pay_hold_payer a amount party allocation_release a description (refund_text kind) uuid now
  | Hold _ _ _ _ | ForwardReturn _ _ _ | DisputeMove dispute_clawback _ _ _ _ _ => call_ret tt
  end.

(** The chokepoint.  [frozen] is what [assertNotFrozen] reads. *)
Definition moveAllocationMoney (frozen : bool) (m : AllocationMove) (uuid : string) (now : Z) : db_call unit :=
  if frozen then call_throw EmergencyFrozenError else
  check (safe_amount (move_amount m)) (fun amount =>
  let! row := select (find_allocation (move_allocation m)) in
  match row with
  | None => match m with
            | SettlementFee a _ s => if amount =? 0 then insertSettlement a amount s else refuse no_allocation
            | _ => refuse no_allocation
            end
  | Some alloc =>
      match m with
      | Hold a _ party description => move_hold a amount party description uuid now
      | ForwardReturn a _ settlementId => move_forward_return a amount settlementId
      | DisputeMove dispute_clawback a _ party disputeId description =>
          move_clawback alloc a amount party disputeId description uuid now
      | _ =>
          let! held := allocationHeldRaw (move_allocation m) in
          if held <? amount then refuse exceeds_held else move_out alloc m amount uuid now
      end
  end).

(** ** The other writers of these tables *)

(** [openAllocation]: [INSERT OR IGNORE]. *)
Definition openAllocation (a taskId worker : string) (amountLocked createdAt : Z) : db_call unit := run_sql (fun d =>
  let row := {| al_allocation_id := a; al_task_id := taskId; al_motebit_id := worker; amount_locked := amountLocked;
                al_status := "locked"; al_created_at := createdAt; review_reason := None;
                claim_unrecoverable_at := None |} in
  Ok (tt, match insert_row same_allocation row (relay_allocations d) with
          | Ok rows => upd_allocations (fun _ => rows) d
          | Throw _ => d
          end)).

(** An audit row of a payment the relay never held: [INSERT OR IGNORE]. *)
Definition recordP2pSettlementAudit (s : settlement_row) : db_call bool :=
  if negb (bool_decide (settlement_mode s = Some "p2p"%string)) then call_throw Error_inbound_settlement else
  run_sql (fun d =>
    match relay_settlements d with
    | None => Throw Error_driver
    | Some rows => match insert_row same_settlement s rows with
                   | Ok rows => Ok (true, upd_settlements (fun _ => Some rows) d)
                   | Throw _ => Ok (false, d)
                   end
    end).

(** The final hop of a federated settlement: the received row, and the local
    worker's credit, once. *)
Definition recordInboundFederatedSettlement (f : forward_row) (worker : option string) (amount : Z)
    (description uuid : string) (now : Z) : db_call bool :=
  if bool_decide (is_Some (downstream_relay_id f)) then call_throw Error_inbound_settlement else
  let! local := select (fun d => existsb (fun x => bool_decide (al_task_id x = f_task_id f)) (relay_allocations d)) in
  if (local : bool) then call_throw Error_inbound_settlement else
  let! already := select (fun d => existsb (fun g => bool_decide (f_task_id g = f_task_id f) &&
                                                     bool_decide (upstream_relay_id g = upstream_relay_id f))
                                     (relay_federation_settlements d)) in
  if (already : bool) then call_ret false else
  let! inserted := run_sql (fun d => match insert_row same_forward (set_received f) (relay_federation_settlements d) with
                                     | Ok rows => Ok (true, upd_forwards (fun _ => rows) d)
                                     | Throw _ => Ok (false, d)
                                     end) in
  match worker with
  | Some w => if (inserted : bool) && (0 <? amount)
              then credit w (JInt amount) settlement_credit (Some (f_settlement_id f)) (Some description)
                     None uuid now ;! call_ret inserted
              else call_ret inserted
  | None => call_ret inserted
  end.

(** The forward's lifecycle. *)
Definition forwardOf (settlementId : string) : db_call (option forward_row) :=
  select (fun d => List.find (fun f => bool_decide (f_settlement_id f = settlementId) &&
                                       bool_decide (is_Some (downstream_relay_id f)))
                     (relay_federation_settlements d)).

Definition beginForwardSend (frozen : bool) (settlementId : string) : db_call bool :=
  if frozen then call_throw EmergencyFrozenError else
  let! f := forwardOf settlementId in
  call_ret (match f_status <$> f with Some fwd_delivered | Some fwd_failed => false | _ => true end).

Definition markForwardDelivered (settlementId : string) : db_call unit := run_sql (fun d =>
  Ok (tt, upd_forwards (update_rows (fun f =>
    bool_decide (f_settlement_id f = settlementId) && bool_decide (f_status f = fwd_pending)) set_delivered) d)).

(** [horizon.ts]: settlements past their retention are deleted. *)
Definition truncateSettlementsBeforeHorizon (horizon : Z) : db_call unit := run_sql (fun d =>
  Ok (tt, upd_settlements (fun o => List.filter (fun s => negb (settled_at s <? horizon)) <$> o) d)).
End escrow.

(** ** The guards *)

(** The triggers on the three tables: they abort an insert that overdraws. *)
Definition escrow_txn_guard (t : txn_row) (d : relay_db) : bool :=
  match allocation_id t with
  | Some a => (0 <? tx_amount (txn t)) && (heldSql a d <? 0)
  | None => false
  end.
Definition escrow_settlement_guard (s : settlement_row) (d : relay_db) : bool :=
  relay_mode s && (0 <? platform_fee s) && bool_decide (is_Some (find_allocation (st_allocation_id s) d)) &&
  (heldSql (st_allocation_id s) d <? 0).
Definition escrow_forward_guard (f : forward_row) (d : relay_db) : bool :=
  match f_allocation_id f with Some a => heldSql a d <? 0 | None => false end.
