(* ===== verification/EscrowLaws.v ===== *)
(** * What a movement does to the escrow

    The invariant of the escrow's tables, the reading of [held] it simplifies to, and
    the effect of each movement on what is held, on the balances and on the rows. *)

From Stdlib Require Import String.
From S2P Require Import Prelude JsMap JsString LedgerTypes Driver SqlStore SqlRefines Escrow.
Local Open Scope Z_scope.
Local Open Scope motebit_scope.

(** ** Sums *)

Lemma select_sum_alt {R} (cond : R -> bool) (f : R -> Z) rows :
  select_sum cond f rows = zsum (fun r => if cond r then f r else 0) rows.
Proof.
  unfold select_sum. induction rows as [|r rows IH]; [done|]. cbn.
  destruct (cond r); cbn; rewrite IH; lia.
Qed.

Lemma zsum_zero {A} (f : A -> Z) l : (forall a, a ∈ l -> f a = 0) -> zsum f l = 0.
Proof.
  intros H. induction l as [|a l IH]; [done|]. cbn. rewrite (H a) by (by left). rewrite IH; [done|].
  intros b Hb. apply H. by right.
Qed.

Lemma zsum_one {A} `{!EqDecision A} (x : A) v l : NoDup l -> x ∈ l -> zsum (fun y => if decide (y = x) then v else 0) l = v.
Proof.
  intros Hn Hx. induction l as [|y l IH]; [by apply elem_of_nil in Hx|].
  apply NoDup_cons in Hn as [Hy Hn]. cbn. apply elem_of_cons in Hx as [->|Hx].
  - rewrite decide_True by done. rewrite zsum_zero; [lia|]. intros z Hz. rewrite decide_False; [done|]. by intros ->.
  - rewrite decide_False by (by intros ->). rewrite IH by done. lia.
Qed.

(** ** The sum of the balances *)

Definition total_balance (d : relay_db) : Z := zsum va_balance (relay_accounts d).

Lemma bal_in_cons i r rows : bal_in i (r :: rows) = if decide (i = va_motebit_id r) then va_balance r else bal_in i rows.
Proof.
  unfold bal_in. cbn. case_bool_decide as H; case_decide as H'; congruence.
Qed.

Lemma bal_in_missing i rows : i ∉ (va_motebit_id <$> rows) -> bal_in i rows = 0.
Proof.
  induction rows as [|r rows IH]; [done|]. intros [Hn1 Hn2]%not_elem_of_cons. rewrite bal_in_cons, decide_False by done.
  by apply IH.
Qed.

Lemma total_over rows ids : NoDup (va_motebit_id <$> rows) -> NoDup ids -> (forall i, i ∈ (va_motebit_id <$> rows) -> i ∈ ids) ->
  zsum va_balance rows = zsum (fun i => bal_in i rows) ids.
Proof.
  intros Hn Hi. induction rows as [|r rows IH]; intros Hsub.
  - symmetry. apply zsum_zero. intros i _. reflexivity.
  - cbn in Hn. apply NoDup_cons in Hn as [Hr Hn]. cbn [zsum].
    rewrite IH; [|done|intros i Hin; apply Hsub; by right].
    rewrite (zsum_ext (fun i => bal_in i (r :: rows))
               (fun i => (if decide (i = va_motebit_id r) then va_balance r else 0) + bal_in i rows)).
    + rewrite zsum_add, zsum_one; [done|done|]. apply Hsub. by left.
    + intros i _. rewrite bal_in_cons. case_decide as E; [|lia]. rewrite E, bal_in_missing by done. lia.
Qed.

Lemma moved_total id a l d d' : NoDup (va_motebit_id <$> relay_accounts d) -> moved id a l d d' ->
  total_balance d' = total_balance d + a.
Proof.
  intros Hn Hm. pose proof (mv_accounts _ _ _ _ _ Hm) as Hn'. unfold total_balance.
  set (ids := remove_dups (id :: (va_motebit_id <$> relay_accounts d) ++ (va_motebit_id <$> relay_accounts d'))).
  assert (NoDup ids) as Hi by apply NoDup_remove_dups.
  rewrite (total_over _ ids Hn Hi), (total_over _ ids Hn' Hi).
  - rewrite (zsum_ext _ (fun i => bal_in i (relay_accounts d) + (if decide (i = id) then a else 0))).
    + rewrite zsum_add, zsum_one; [done|done|]. apply elem_of_remove_dups. by left.
    + intros i _. apply (mv_balance _ _ _ _ _ Hm).
  - intros i Hin. apply elem_of_remove_dups. right. apply elem_of_app. by right.
  - intros i Hin. apply elem_of_remove_dups. right. apply elem_of_app. by left.
Qed.

(** ** The invariant *)

(** No unstamped credit references the settlement. *)
Definition unreferenced (sid : string) (d : relay_db) : Prop :=
  forall t, t ∈ relay_transactions d -> allocation_id t = None -> tx_type (txn t) = settlement_credit ->
    reference_id (txn t) <> Some sid.

Record escrow_wf (d : relay_db) : Prop := {
  ew_accounts : NoDup (va_motebit_id <$> relay_accounts d);
  ew_allocations : NoDup (al_allocation_id <$> relay_allocations d);
  ew_forwards : NoDup (f_settlement_id <$> relay_federation_settlements d);
  ew_stamped : forall t, t ∈ relay_transactions d -> allocation_id t = None ->
    tx_type (txn t) <> allocation_hold /\ tx_type (txn t) <> allocation_release;
  ew_foreign : forall s, s ∈ settlement_rows d -> unreferenced (st_settlement_id s) d;
  ew_journal : forall s, s ∈ settlement_rows d -> relay_mode s = true -> platform_fee s = 0 \/ journalled (st_settlement_id s) d = true;
  ew_sent : forall f, f ∈ relay_federation_settlements d -> f_allocation_id f = None -> downstream_relay_id f = None;
}.

Definition escrow_ok (d : relay_db) : Prop := escrow_wf d /\ forall a, 0 <= heldSql a d.

(** What is held, read off the stamps alone. *)
Definition txn_of (a : string) (t : txn_row) : Z := if decide (allocation_id t = Some a) then tx_amount (txn t) else 0.
Definition fee_of (a : string) (j : fee_row) : Z := if decide (fee_allocation_id j = a) then fee_amount j else 0.
Definition forward_of (a : string) (f : forward_row) : Z :=
  if decide (f_allocation_id f = Some a /\ f_status f <> fwd_failed) then gross_amount f else 0.
Definition held_stamped (a : string) (d : relay_db) : Z :=
  - zsum (txn_of a) (relay_transactions d) - zsum (fee_of a) (relay_allocation_fees d)
  - zsum (forward_of a) (relay_federation_settlements d).

Lemma own_settlement_elem a sid d : own_settlement a sid d = true ->
  exists s, s ∈ settlement_rows d /\ st_settlement_id s = sid.
Proof.
  unfold own_settlement. intros (s & Hs & Hb)%existsb_exists. exists s. apply list_elem_of_In in Hs. split; [done|].
  by apply andb_true_iff in Hb as [[?%bool_decide_eq_true _]%andb_true_iff _].
Qed.

Lemma held_txn_stamped a d t : escrow_wf d -> t ∈ relay_transactions d ->
  (if held_txn a d t then tx_amount (txn t) else 0) = txn_of a t.
Proof.
  intros Hw Ht. unfold held_txn, txn_of. destruct (allocation_id t) as [x|] eqn:E.
  - case_bool_decide; case_decide; congruence.
  - rewrite (decide_False (P := None = Some a)) by done. destruct (ew_stamped d Hw t Ht E) as [H1 H2].
    rewrite !bool_decide_false by done. cbn. case_bool_decide as Hc; [|done]. cbn.
    destruct (reference_id (txn t)) as [sid|] eqn:Er; [|done].
    destruct (own_settlement a sid d) eqn:Ho; [|done]. apply own_settlement_elem in Ho as (s & Hs & <-).
    by destruct (ew_foreign d Hw s Hs t Ht E Hc).
Qed.

Lemma heldSql_stamped a d : escrow_wf d -> heldSql a d = held_stamped a d.
Proof.
  intros Hw. unfold heldSql, held_stamped. rewrite !select_sum_alt.
  rewrite (zsum_ext _ (txn_of a) (relay_transactions d)) by (intros; by apply held_txn_stamped).
  rewrite (zsum_ext _ (fee_of a) (relay_allocation_fees d))
    by (intros j _; unfold fee_of; case_bool_decide; case_decide; done).
  rewrite (zsum_zero _ (settlement_rows d)).
  2:{ intros s Hs. unfold held_fee_row. destruct (relay_mode s) eqn:Hm; [|by rewrite andb_false_r].
      destruct (ew_journal d Hw s Hs Hm) as [E|E]; rewrite E; [by destruct (_ && _)|by rewrite andb_false_r]. }
  rewrite (zsum_ext _ (forward_of a) (relay_federation_settlements d)).
  2:{ intros f Hf. unfold held_forward, forward_of. destruct (f_allocation_id f) as [x|] eqn:E.
      - destruct (f_status f); repeat case_bool_decide; repeat case_decide; naive_solver.
      - rewrite (ew_sent d Hw f Hf E). rewrite (bool_decide_false (is_Some None)) by (by intros [? ?]).
        rewrite andb_false_r, decide_False; [done|]. by intros [? _]. }
  lia.
Qed.

(** ** The tables a movement writes *)

Abbreviation run m := (m : call relay_db ledger_error _).

Lemma moved_held id z l d d' a : moved id z l d d' -> held_stamped a d' = held_stamped a d - zsum (txn_of a) l.
Proof. intros [_ _ [rows ->]]. unfold held_stamped. cbn. rewrite zsum_app. lia. Qed.

Lemma moved_rows id z l d d' : moved id z l d d' ->
  relay_transactions d' = relay_transactions d ++ l /\ relay_allocations d' = relay_allocations d /\
  relay_settlements d' = relay_settlements d /\ relay_federation_settlements d' = relay_federation_settlements d /\
  relay_allocation_fees d' = relay_allocation_fees d.
Proof. by intros [_ _ [rows ->]]. Qed.

(** Ledger rows that leave the escrow's reading of the others alone. *)
Definition own_rows (l : list txn_row) (d : relay_db) : Prop :=
  forall t, t ∈ l -> allocation_id t = None ->
    tx_type (txn t) <> allocation_hold /\ tx_type (txn t) <> allocation_release /\
    (tx_type (txn t) = settlement_credit -> forall s, s ∈ settlement_rows d -> reference_id (txn t) <> Some (st_settlement_id s)).

Lemma escrow_moved_wf id z l d d' : escrow_wf d -> moved id z l d d' -> own_rows l d -> escrow_wf d'.
Proof.
  intros Hw Hm Hl. destruct (moved_rows _ _ _ _ _ Hm) as (Et & Ea & Es & Ef & Ej).
  assert (settlement_rows d' = settlement_rows d) as Es' by (unfold settlement_rows; by rewrite Es).
  split; rewrite ?Et, ?Ea, ?Ef, ?Es'.
  - by eapply mv_accounts.
  - by apply Hw.
  - by apply Hw.
  - intros t [Ht|Ht]%elem_of_app Hn; [by apply (ew_stamped d Hw)|]. by destruct (Hl t Ht Hn) as (? & ? & _).
  - intros s Hs t Ht Hn Hc. rewrite Et in Ht. apply elem_of_app in Ht as [Ht|Ht]; [by apply (ew_foreign d Hw s Hs)|].
    destruct (Hl t Ht Hn) as (_ & _ & Hr). by apply Hr.
  - intros s Hs Hm'. unfold journalled. rewrite Ej. by apply (ew_journal d Hw).
  - by apply Hw.
Qed.

(** [clashes] decides a key's equality at least. *)
Lemma insert_row_inv {R} (clashes : R -> R -> bool) row rows rows' :
  insert_row clashes row rows = Ok rows' -> rows' = rows ++ [row] /\ forall r, r ∈ rows -> clashes row r = false.
Proof.
  unfold insert_row. destruct (existsb (clashes row) rows) eqn:E; [done|]. intros [= <-]. split; [done|].
  intros r Hr. apply not_true_iff_false. intros Hc. apply not_true_iff_false in E. apply E, existsb_exists.
  exists r. split; [by apply list_elem_of_In|done].
Qed.

Lemma nodup_insert {R} (key : R -> string) (clashes : R -> R -> bool) row rows :
  (forall r, clashes row r = false -> key r <> key row) -> (forall r, r ∈ rows -> clashes row r = false) ->
  NoDup (key <$> rows) -> NoDup (key <$> (rows ++ [row])).
Proof.
  intros Hk Hc Hn. rewrite fmap_app. apply NoDup_app. split; [done|]. split; [|apply NoDup_singleton].
  intros x (r & -> & Hr)%list_elem_of_fmap Hx%list_elem_of_singleton. by apply (Hk r); [apply Hc|].
Qed.

(** *** The settlement row and its fee *)

Lemma insert_settlement_inv s d d' : run (insert_settlement_row s) d = (Ok tt, d') ->
  exists rows, relay_settlements d = Some rows /\ d' = upd_settlements (fun _ => Some (rows ++ [s])) d.
Proof.
  unfold insert_settlement_row. cbn. unfold stmt_fn. destruct (relay_settlements d) as [rows|]; [|done].
  destruct (insert_row same_settlement s rows) as [rows'|e] eqn:E; [|done]. intros [= <-].
  apply insert_row_inv in E as [-> _]. by exists rows.
Qed.

Lemma insert_fee_inv j d d' : run (insert_fee_row j) d = (Ok tt, d') ->
  d' = upd_fees (fun l => l ++ [j]) d.
Proof.
  unfold insert_fee_row. cbn. unfold stmt_fn.
  destruct (insert_row same_fee j (relay_allocation_fees d)) as [rows'|e] eqn:E; [|done]. intros [= <-].
  apply insert_row_inv in E as [-> _]. done.
Qed.

(** A settlement whose fee is in the journal, or which has none. *)
Lemma settled_wf s rows fees d : escrow_wf d -> relay_settlements d = Some rows -> unreferenced (st_settlement_id s) d ->
  (platform_fee s = 0 \/ exists j, j ∈ fees /\ fee_settlement_id j = st_settlement_id s) ->
  escrow_wf (upd_fees (fun l => l ++ fees) (upd_settlements (fun _ => Some (rows ++ [s])) d)).
Proof.
  intros Hw Hr Hu Hj. destruct Hw as [H1 H2 H3 H4 H5 H6 H7]. unfold settlement_rows in H5, H6. rewrite Hr in H5, H6.
  split; try done.
  - intros s' [Hs| ->%list_elem_of_singleton]%elem_of_app; [by apply H5|done].
  - intros s' [Hs| ->%list_elem_of_singleton]%elem_of_app Hm; unfold journalled; cbn; rewrite existsb_app.
    + destruct (H6 s' Hs Hm) as [?|Hjn]; [by left|right]. unfold journalled in Hjn. by rewrite Hjn.
    + destruct Hj as [?|(j & Hin & E)]; [by left|right]. apply orb_true_iff. right. apply existsb_exists.
      exists j. split; [by apply list_elem_of_In|by apply bool_decide_eq_true_2].
Qed.

Lemma insertSettlement_effect a z s d d' : escrow_wf d -> unreferenced (st_settlement_id s) d -> platform_fee s = z -> 0 <= z ->
  run (insertSettlement a z s) d = (Ok tt, d') ->
  escrow_wf d' /\ (forall x, held_stamped x d' = held_stamped x d - (if decide (x = a) then z else 0)) /\
  relay_accounts d' = relay_accounts d /\ relay_transactions d' = relay_transactions d /\
  relay_allocations d' = relay_allocations d /\ relay_dispute_fund_actions d' = relay_dispute_fund_actions d /\
  relay_disputes d' = relay_disputes d.
Proof.
  intros Hw Hu Hp Hz. unfold insertSettlement, refuse. destruct (negb (relay_mode s)); [done|].
  intros ([] & d1 & H1 & H2)%call_bind_ok. apply insert_settlement_inv in H1 as (rows & Hr & ->).
  assert (exists fees, d' = upd_fees (fun l => l ++ fees) (upd_settlements (fun _ => Some (rows ++ [s])) d) /\
            (platform_fee s = 0 \/ exists j, j ∈ fees /\ fee_settlement_id j = st_settlement_id s) /\
            forall x, zsum (fee_of x) fees = if decide (x = a) then z else 0) as (fees & -> & Hj & Hf).
  { destruct (0 <? z) eqn:E.
    - apply insert_fee_inv in H2 as ->. eexists [_]. split; [reflexivity|]. split.
      + right. eexists. split; [by left|done].
      + intros x. cbn. unfold fee_of. cbn. repeat case_decide; try congruence; lia.
    - assert (z = 0) as -> by lia. injection H2 as <-. exists []. split; [|split; [by left|by intros; case_decide]].
      unfold upd_fees, upd_settlements. cbn. by rewrite app_nil_r. }
  split; [by apply settled_wf|]. split; [|done].
  intros x. unfold held_stamped. cbn. rewrite zsum_app, Hf. lia.
Qed.

(** *** Forwards *)

Lemma insert_forward_inv f d d' : run (insert_forward_row f) d = (Ok tt, d') ->
  (forall g, g ∈ relay_federation_settlements d -> same_forward f g = false) /\ d' = upd_forwards (fun l => l ++ [f]) d.
Proof.
  unfold insert_forward_row. cbn. unfold stmt_fn.
  destruct (insert_row same_forward f (relay_federation_settlements d)) as [rows'|e] eqn:E; [|done]. intros [= <-].
  by apply insert_row_inv in E as [-> ?].
Qed.

Lemma forward_inserted_wf f d : escrow_wf d -> (forall g, g ∈ relay_federation_settlements d -> same_forward f g = false) ->
  (f_allocation_id f = None -> downstream_relay_id f = None) -> escrow_wf (upd_forwards (fun l => l ++ [f]) d).
Proof.
  intros [H1 H2 H3 H4 H5 H6 H7] Hc Hs. split; try done.
  - cbn. apply (nodup_insert f_settlement_id same_forward); [|done|done].
    intros g Hg E. unfold same_forward in Hg. by rewrite (bool_decide_true (f_settlement_id f = _)) in Hg.
  - intros g [Hg| ->%list_elem_of_singleton]%elem_of_app; [by apply H7|done].
Qed.

Lemma forward_of_stamped x a f : f_allocation_id f = Some a -> f_status f <> fwd_failed ->
  forward_of x f = if decide (x = a) then gross_amount f else 0.
Proof. intros Ha Hs. unfold forward_of. rewrite Ha. repeat case_decide; destruct_and?; naive_solver. Qed.

Lemma forward_of_failed x f : f_status f = fwd_failed -> forward_of x f = 0.
Proof. intros Hs. unfold forward_of. rewrite decide_False; [done|]. by intros [_ []]. Qed.

(** Updating the one forward of a key changes a sum by that row's change. *)
Lemma update_forward_sum sid (g : forward_row -> forward_row) (h : forward_row -> Z) rows f :
  NoDup (f_settlement_id <$> rows) -> f ∈ rows -> f_settlement_id f = sid -> f_status f = fwd_pending ->
  zsum h (update_rows (fun f => bool_decide (f_settlement_id f = sid) && bool_decide (f_status f = fwd_pending)) g rows)
  = zsum h rows - h f + h (g f).
Proof.
  intros Hn Hf Hs Hp. induction rows as [|r rows IH]; [by apply elem_of_nil in Hf|].
  cbn in Hn. apply NoDup_cons in Hn as [Hr Hn]. cbn. apply elem_of_cons in Hf as [<-|Hf].
  - rewrite !bool_decide_true by done. cbn.
    assert (zsum h (update_rows (fun f => bool_decide (f_settlement_id f = sid) && bool_decide (f_status f = fwd_pending)) g rows)
            = zsum h rows) as E; [|unfold update_rows in E; rewrite E; lia].
    clear IH Hn. induction rows as [|r rows IH]; [done|]. cbn in Hr |- *. apply not_elem_of_cons in Hr as [Hr1 Hr2].
    rewrite (bool_decide_false (f_settlement_id r = sid)) by congruence. cbn. f_equal. by apply IH.
  - rewrite (bool_decide_false (f_settlement_id r = sid)).
    + cbn. unfold update_rows in IH. rewrite IH by done. lia.
    + intros E. apply Hr. rewrite E, <- Hs. by apply list_elem_of_fmap_2.
Qed.

(** A change of status alone. *)
Lemma update_forwards_wf cond g d : escrow_wf d ->
  (forall f, f_settlement_id (g f) = f_settlement_id f /\ f_allocation_id (g f) = f_allocation_id f /\
             downstream_relay_id (g f) = downstream_relay_id f) ->
  escrow_wf (upd_forwards (update_rows cond g) d).
Proof.
  intros [H1 H2 H3 H4 H5 H6 H7] Hg. split; try done.
  - cbn. assert (f_settlement_id <$> update_rows cond g (relay_federation_settlements d)
                 = f_settlement_id <$> relay_federation_settlements d) as ->; [|done].
    unfold update_rows. rewrite <- list_fmap_compose. apply list_fmap_ext. intros _ f _. cbn.
    destruct (cond f); [apply Hg|done].
  - cbn. intros f (f0 & -> & Hf)%list_elem_of_fmap. destruct (cond f0); [|by apply H7].
    destruct (Hg f0) as (_ & -> & ->). by apply H7.
Qed.

(** ** The effect of a movement *)

Definition amount_of (m : AllocationMove) : Z := match move_amount m with JInt z => z | JNonInt => 0 end.

(** What it adds to the escrow, to the accounts, and to what left the relay's
    custody: fees taken and forwards sent. *)
Definition held_change (m : AllocationMove) : Z :=
  match m with
  | Hold _ _ _ _ | ForwardReturn _ _ _ | DisputeMove dispute_clawback _ _ _ _ _ => amount_of m
  | _ => - amount_of m
  end.
Definition balance_change (m : AllocationMove) : Z :=
  match m with
  | Hold _ _ _ _ | DisputeMove dispute_clawback _ _ _ _ _ => - amount_of m
  | SettlementFee _ _ _ | FederatedForward _ _ _ | ForwardReturn _ _ _ => 0
  | _ => amount_of m
  end.
Definition left_custody (m : AllocationMove) : Z :=
  match m with
  | SettlementFee _ _ _ | FederatedForward _ _ _ => amount_of m
  | ForwardReturn _ _ _ => - amount_of m
  | _ => 0
  end.

Lemma changes_balance m : held_change m + balance_change m + left_custody m = 0.
Proof. destruct m as [| | | | | |[]]; unfold held_change, balance_change, left_custody, amount_of; cbn; lia. Qed.

(** Whom the movement may pay. *)
Definition entitled (m : AllocationMove) (i : string) (d : relay_db) : Prop :=
  match m with
  | SettlementCredit a _ _ sid _ => settlement_payee a sid d = Some i
  | Refund _ a _ _ _ | DisputeMove dispute_delegator a _ _ _ _ => hold_payer a d = Some i
  | DisputeMove dispute_worker a _ _ _ _ => al_motebit_id <$> find_allocation a d = Some i
  | _ => False
  end.

(** Whose account it moves. *)
Definition party_of (m : AllocationMove) : option string :=
  match m with
  | Hold _ _ p _ | SettlementCredit _ _ p _ _ | Refund _ _ _ p _ | DisputeMove _ _ _ p _ _ => Some p
  | SettlementFee _ _ _ | FederatedForward _ _ _ | ForwardReturn _ _ _ => None
  end.

Definition is_hold_move (m : AllocationMove) : bool := match m with Hold _ _ _ _ => true | _ => false end.

(** What the caller brings: a fresh ledger id, and a settlement id no foreign credit
    names, with no fee when the task has no allocation. *)
Definition move_fits (m : AllocationMove) (uuid : string) (d : relay_db) : Prop :=
  fresh_uuid uuid d /\
  match m with
  | SettlementFee a _ s => unreferenced (st_settlement_id s) d /\ (find_allocation a d = None -> platform_fee s = 0)
  | _ => True
  end.

Record effect (m : AllocationMove) (uuid : string) (d d' : relay_db) : Prop := {
  ef_wf : escrow_wf d';
  ef_held : forall x, held_stamped x d' = held_stamped x d + (if decide (x = move_allocation m) then held_change m else 0);
  ef_total : total_balance d' = total_balance d + balance_change m;
  ef_alloc : relay_allocations d' = relay_allocations d;
  ef_claims : relay_dispute_fund_actions d' = relay_dispute_fund_actions d;
  ef_disputes : relay_disputes d' = relay_disputes d;
  ef_rows : exists rows, relay_transactions d' = relay_transactions d ++ rows /\
    forall t, t ∈ rows -> is_Some (allocation_id t) /\ transaction_id (txn t) = uuid /\
      is_Some (party_of m) /\ (tx_type (txn t) = allocation_hold -> is_hold_move m = true);
  ef_balance : forall i, sql_balance i d' = sql_balance i d + (if decide (party_of m = Some i) then balance_change m else 0);
  ef_entitled : 0 < balance_change m -> exists i, party_of m = Some i /\ entitled m i d;
}.

Lemma noop_effect m uuid d : escrow_wf d -> amount_of m = 0 -> effect m uuid d d.
Proof.
  intros Hw Hz. split; try done.
  - intros x. unfold held_change. rewrite Hz. case_decide; [destruct m as [| | | | | |[]]|]; lia.
  - unfold balance_change. rewrite Hz. destruct m as [| | | | | |[]]; lia.
  - exists []. split; [by rewrite app_nil_r|]. by intros t ?%elem_of_nil.
  - intros i. unfold balance_change. rewrite Hz. case_decide; [destruct m as [| | | | | |[]]|]; lia.
  - unfold balance_change. rewrite Hz. destruct m as [| | | | | |[]]; lia.
Qed.

(** The movements that post one ledger row. *)
Lemma moved_effect m uuid p z t d d' : escrow_wf d -> moved p z [t] d d' -> party_of m = Some p ->
  allocation_id t = Some (move_allocation m) -> tx_amount (txn t) = z -> transaction_id (txn t) = uuid ->
  (tx_type (txn t) = allocation_hold -> is_hold_move m = true) ->
  held_change m = - z -> balance_change m = z -> (0 < z -> entitled m p d) -> effect m uuid d d'.
Proof.
  intros Hw Hm Hparty Ht Hz Hu Hty Hh Hb Hp. destruct (moved_rows _ _ _ _ _ Hm) as (Et & Ea & _). split.
  - apply (escrow_moved_wf _ _ _ _ _ Hw Hm). intros t' ->%list_elem_of_singleton E. congruence.
  - intros x. rewrite (moved_held _ _ _ _ _ x Hm). cbn. unfold txn_of. rewrite Ht, Hz.
    repeat case_decide; simplify_eq; lia.
  - rewrite (moved_total _ _ _ _ _ (ew_accounts _ Hw) Hm). lia.
  - done.
  - by destruct (mv_rest _ _ _ _ _ Hm) as [rows ->].
  - by destruct (mv_rest _ _ _ _ _ Hm) as [rows ->].
  - exists [t]. split; [done|]. intros t' ->%list_elem_of_singleton. split; [by eexists|done].
  - intros i. rewrite (mv_balance _ _ _ _ _ Hm), Hparty, Hb. repeat case_decide; congruence.
  - intros Hlt. exists p. split; [done|]. apply Hp. lia.
Qed.

(** The movements that touch no account. *)
Lemma untouched_balance m d d' : party_of m = None -> relay_accounts d' = relay_accounts d ->
  (forall i, sql_balance i d' = sql_balance i d + (if decide (party_of m = Some i) then balance_change m else 0)) /\
  (0 < balance_change m -> exists i, party_of m = Some i /\ entitled m i d).
Proof.
  intros Hm Ha. split.
  - intros i. unfold sql_balance, find_account. rewrite Ha, Hm. rewrite decide_False by done. lia.
  - destruct m as [| | | | | |[]]; try done; cbn; lia.
Qed.

(** ** Each movement *)

Section moves.
Context (uuid : string) (now : Z) (d : relay_db).
Context (Hw : escrow_wf d) (Hu : fresh_uuid uuid d).

Lemma credit_effect m p ty ref desc kind d' : party_of m = Some p -> ty <> allocation_hold ->
  amount_of m = balance_change m -> held_change m = - amount_of m -> entitled m p d ->
  run (credit p (JInt (amount_of m)) ty ref desc (stamp (move_allocation m) kind) uuid now ;! call_ret tt) d = (Ok tt, d') ->
  effect m uuid d d'.
Proof.
  intros Hparty Hty Hb Hh Hp (z & d1 & H1 & [= <-])%call_bind_ok.
  destruct (credit_pure p (amount_of m) ty ref desc (stamp (move_allocation m) kind) uuid now d (ew_accounts _ Hw) Hu)
    as (d2 & E & Hm). rewrite E in H1. injection H1 as _ <-. by eapply moved_effect.
Qed.

(** The debits, of the holder and of a party a dispute takes from. *)
Lemma debit_effect m p ty ref desc kind floor (k : call relay_db ledger_error (option Z)) d' : party_of m = Some p -> (ty = allocation_hold -> is_hold_move m = true) ->
  balance_change m = - amount_of m -> held_change m = amount_of m -> 0 <= amount_of m ->
  (sql_balance p d < floor /\ (exists d', k d = (Ok None, d') /\ moved p 0 [] d d') \/
   floor <= sql_balance p d /\ exists d', k d = (Ok (Some (sql_balance p d - amount_of m)), d') /\
     moved p (- amount_of m) [txn_values uuid p ty (- amount_of m) (sql_balance p d - amount_of m) ref desc now
                                (stamp (move_allocation m) kind)] d d') ->
  run (let! after := k in match after with Some _ => call_ret tt | None => refuse insufficient_balance end) d = (Ok tt, d') ->
  effect m uuid d d'.
Proof.
  intros Hparty Hty Hb Hh Hz [[_ (d1 & E & _)]|[_ (d1 & E & Hm)]]; rewrite (call_bind_run _ _ _ _ _ E); [done|].
  intros [= <-]. eapply moved_effect; try done; [lia|lia].
Qed.

Lemma hold_effect a z p desc d' : 0 <= z ->
  run (move_hold a z p desc uuid now) d = (Ok tt, d') -> effect (Hold a (JInt z) p desc) uuid d d'.
Proof.
  intros Hz. unfold move_hold. destruct (z =? 0) eqn:E.
  - intros [= <-]. apply noop_effect; [done|]. cbn. lia.
  - apply (debit_effect (Hold a (JInt z) p desc) p allocation_hold (Some a) (Some desc) "hold" (z + escrow_hold p now d)); try done.
    apply debitSpendable_pure; [apply Hw|done].
Qed.

Lemma clawback_effect alloc a z p disp desc d' : 0 <= z ->
  run (move_clawback alloc a z p disp desc uuid now) d = (Ok tt, d') ->
  effect (DisputeMove dispute_clawback a (JInt z) p disp desc) uuid d d'.
Proof.
  intros Hz. unfold move_clawback, under_review_or. destruct (review_reason alloc); [done|].
  destruct (z =? 0) eqn:E.
  - intros [= <-]. apply noop_effect; [done|]. cbn. lia.
  - intros (paid & d1 & [= <- <-] & H2)%call_bind_ok. destruct (paid_to a p d <? z); [done|]. revert H2.
    apply (debit_effect (DisputeMove dispute_clawback a (JInt z) p disp desc) p settlement_debit (Some disp) (Some desc)
             "dispute_clawback" z); try done.
    apply debit_pure; [apply Hw|done].
Qed.

Lemma pay_holder_effect m a ty ref desc kind p d' : move_allocation m = a -> party_of m = Some p -> ty <> allocation_hold ->
  amount_of m = balance_change m -> held_change m = - amount_of m -> (forall i, hold_payer a d = Some i -> entitled m i d) ->
  run (pay_hold_payer a (amount_of m) p ty ref desc kind uuid now) d = (Ok tt, d') -> effect m uuid d d'.
Proof.
  intros Ha Hparty Hty Hb Hh Hp. unfold pay_hold_payer. destruct (amount_of m =? 0) eqn:E.
  - intros [= <-]. apply noop_effect; [done|]. lia.
  - intros (payer & d1 & [= <- <-] & H2)%call_bind_ok. destruct (hold_payer a d) as [q|] eqn:Eq; [|done].
    destruct (negb (bool_decide (p = q))) eqn:En; [done|]. apply negb_false_iff, bool_decide_eq_true in En as ->.
    revert H2. rewrite <- Ha. apply credit_effect; [done|done|done|done|]. by apply Hp.
Qed.

Lemma forward_return_effect a z sid d' :
  run (move_forward_return a z sid) d = (Ok tt, d') -> effect (ForwardReturn a (JInt z) sid) uuid d d'.
Proof.
  unfold move_forward_return. intros (fwd & d1 & [= <- <-] & H2)%call_bind_ok.
  destruct (List.find _ _) as [f|] eqn:Ef; [|done].
  apply find_some in Ef as [Hin [Hs%bool_decide_eq_true Ha%bool_decide_eq_true]%andb_true_iff].
  apply list_elem_of_In in Hin. destruct (negb (bool_decide (f_status f = fwd_pending))) eqn:Ep; [done|].
  apply negb_false_iff, bool_decide_eq_true in Ep. destruct (negb (gross_amount f =? z)) eqn:Eg; [done|].
  apply negb_false_iff, Z.eqb_eq in Eg. cbn in H2. unfold stmt_fn in H2. injection H2 as <-.
  set (upd := upd_forwards _ d). split; try done.
  - apply update_forwards_wf; [done|]. by intros g.
  - intros x. unfold held_stamped, upd. cbn [relay_transactions relay_allocation_fees relay_federation_settlements upd_forwards].
    rewrite (update_forward_sum sid set_failed (forward_of x) _ f (ew_forwards _ Hw) Hin Hs Ep).
    rewrite (forward_of_stamped x a f) by (done || congruence). rewrite (forward_of_failed x (set_failed f)) by done.
    unfold held_change, amount_of. cbn. case_decide; lia.
  - change (total_balance upd) with (total_balance d). cbn. lia.
  - exists []. split; [by rewrite app_nil_r|]. by intros t ?%elem_of_nil.
  - by apply (untouched_balance _ d).
Qed.

Lemma fee_effect a z s d' : 0 <= z -> unreferenced (st_settlement_id s) d -> platform_fee s = z ->
  run (insertSettlement a z s) d = (Ok tt, d') -> effect (SettlementFee a (JInt z) s) uuid d d'.
Proof.
  intros Hz Hr Hp H. destruct (insertSettlement_effect a z s d d' Hw Hr Hp Hz H) as (Hw' & Hh & Ea & Et & El & Ec & Ed). split; try done.
  - intros x. rewrite Hh. unfold held_change, amount_of. cbn. case_decide; lia.
  - unfold total_balance. rewrite Ea. cbn. lia.
  - exists []. rewrite Et. split; [by rewrite app_nil_r|]. by intros t ?%elem_of_nil.
  - by apply (untouched_balance _ d).
Qed.

Lemma forward_effect a z f d' : gross_amount f = z -> is_Some (downstream_relay_id f) ->
  run (insert_forward_row (set_sent a f)) d = (Ok tt, d') -> effect (FederatedForward a (JInt z) f) uuid d d'.
Proof.
  intros Hg Hd H. apply insert_forward_inv in H as [Hc ->]. split; try done.
  - by apply forward_inserted_wf.
  - intros x. unfold held_stamped. cbn. rewrite zsum_app. cbn [zsum].
    rewrite (forward_of_stamped x a (set_sent a f)) by done. unfold held_change, amount_of. cbn. case_decide; lia.
  - change (total_balance (upd_forwards _ d)) with (total_balance d). cbn. lia.
  - exists []. split; [by rewrite app_nil_r|]. by intros t ?%elem_of_nil.
  - by apply (untouched_balance _ d).
Qed.
End moves.

(** ** The chokepoint *)

Lemma safe_amount_inv n z : safe_amount n = Ok z -> n = JInt z /\ 0 <= z.
Proof.
  unfold safe_amount. destruct n as [x|]; [|done]. destruct (Number_isSafeInteger (JInt x) && (0 <=? x)) eqn:E; [|done].
  intros [= <-]. apply andb_true_iff in E as [_ E]. split; [done|lia].
Qed.

Lemma move_out_effect alloc m z uuid now d d' : escrow_wf d -> move_fits m uuid d -> move_amount m = JInt z -> 0 <= z ->
  find_allocation (move_allocation m) d = Some alloc ->
  match m with Hold _ _ _ _ | ForwardReturn _ _ _ | DisputeMove dispute_clawback _ _ _ _ _ => False | _ => True end ->
  run (move_out alloc m z uuid now) d = (Ok tt, d') -> effect m uuid d d'.
Proof.
  intros Hw [Hu Hfit] Hm Hz Ha Hkind.
  destruct m as [|a n s|a n p sid desc|k a n p desc|a n f| |k a n p disp desc]; try done; cbn in Hm; subst n; cbn [move_out].
  - destruct (negb (bool_decide _)); [done|]. destruct (negb (platform_fee s =? z)) eqn:E; [done|].
    apply negb_false_iff, Z.eqb_eq in E. destruct Hfit. by apply fee_effect.
  - destruct (z =? 0) eqn:E; [intros [= <-]; apply noop_effect; [done|cbn; lia]|].
    intros (payee & d1 & [= <- <-] & H2)%call_bind_ok. destruct (negb (bool_decide (settlement_payee a sid d = Some p))) eqn:Ep; [done|].
    apply negb_false_iff, bool_decide_eq_true in Ep. revert H2.
    by apply (credit_effect uuid now d Hw Hu (SettlementCredit a (JInt z) p sid desc)).
  - by apply (pay_holder_effect uuid now d Hw Hu (Refund k a (JInt z) p desc)).
  - destruct (negb (gross_amount f =? z)) eqn:E; [done|]. apply negb_false_iff, Z.eqb_eq in E.
    destruct (negb (bool_decide (is_Some (downstream_relay_id f)))) eqn:Ed; [done|].
    apply negb_false_iff, bool_decide_eq_true in Ed. by apply forward_effect.
  - destruct k; [done| |]; unfold under_review_or; destruct (review_reason alloc); try done.
    + destruct (z =? 0) eqn:E; [intros [= <-]; apply noop_effect; [done|cbn; lia]|].
      destruct (negb (bool_decide (p = al_motebit_id alloc))) eqn:Ep; [done|].
      apply negb_false_iff, bool_decide_eq_true in Ep as ->.
      apply (credit_effect uuid now d Hw Hu (DisputeMove dispute_worker a (JInt z) (al_motebit_id alloc) disp desc)); try done.
      cbn in *. by rewrite Ha.
    + by apply (pay_holder_effect uuid now d Hw Hu (DisputeMove dispute_delegator a (JInt z) p disp desc)).
Qed.

Lemma move_effect frozen m uuid now d d' : escrow_wf d -> move_fits m uuid d ->
  run (moveAllocationMoney frozen m uuid now) d = (Ok tt, d') ->
  effect m uuid d d' /\ (0 <= held_change m \/ - held_change m <= heldSql (move_allocation m) d).
Proof.
  intros Hw Hfit. unfold moveAllocationMoney. destruct frozen; [done|].
  destruct (safe_amount (move_amount m)) as [z|e] eqn:Ez; cbn [check]; [|done].
  apply safe_amount_inv in Ez as [Em Hz]. intros (row & d1 & [= <- <-] & H)%call_bind_ok.
  assert (forall P : Prop, (0 <= held_change m -> P) -> (held_change m = - z -> P) -> P) as Hcase.
  { intros P H1 H2. unfold held_change, amount_of in *. rewrite Em in *. destruct m as [| | | | | |[]]; auto. }
  destruct (find_allocation (move_allocation m) d) as [alloc|] eqn:Ea.
  - destruct Hfit as [Hu Hfit].
    destruct m as [a n p desc|a n s|a n p sid desc|k a n p desc|a n f|a n sid|[] a n p disp desc]; cbn in Em; subst n;
      try (apply call_bind_ok in H as (held & d1 & [= <- <-] & H); cbn [move_allocation] in *;
           destruct (heldSql a d <? z) eqn:Eh; [done|]; split;
           [by eapply move_out_effect|right; cbn; lia]).
    + split; [by eapply hold_effect|left; done].
    + split; [by eapply forward_return_effect|left; done].
    + split; [by eapply clawback_effect|left; done].
  - destruct m as [|a n s| | | | |]; cbn in Em; subst; try done. destruct (z =? 0) eqn:E; [|done].
    assert (z = 0) as -> by lia. destruct Hfit as [_ [Hr Hp]]. specialize (Hp Ea). split; [by eapply fee_effect|by left].
Qed.

(** Held stays non-negative, and the triggers never fire. *)
Lemma escrow_move_ok frozen m uuid now d d' : escrow_ok d -> move_fits m uuid d ->
  run (moveAllocationMoney frozen m uuid now) d = (Ok tt, d') -> escrow_ok d'.
Proof.
  intros [Hw Hh] Hfit H. destruct (move_effect _ _ _ _ _ _ Hw Hfit H) as [E Hle]. split; [apply E|].
  intros a. rewrite heldSql_stamped by apply E. rewrite (ef_held _ _ _ _ E). specialize (Hh a) as Ha.
  rewrite heldSql_stamped in Ha, Hle by done. case_decide; [subst|]; lia.
Qed.
