(* ===== verification/EscrowCallers.v ===== *)
(** * Who moves allocation money

    The transactions that call the chokepoint of [Escrow]: the hold at admission and
    the settlement of a receipt and of a nested one (tasks.ts), the origin's forward
    and its acknowledgement (federation-callbacks.ts), the refund of a forward that
    is never delivered and the stale sweep (index.ts), and a dispute's fund action
    with its two finalizers (disputes.ts, dispute-fund-ledger.ts).  A hand-written
    [BEGIN] ... [COMMIT], with [ROLLBACK] in the [catch], is [run_transaction].  Each
    [crypto.randomUUID()] is an argument; log lines, credentials and the columns of
    the settlement row that no escrow reading uses are left out. *)

From Stdlib Require Import String.
From S2P Require Import Prelude Float64 JsMap JsString TaskTypes TaskQueue LedgerTypes Driver SqlStore Escrow.
Local Open Scope Z_scope.
Local Open Scope motebit_scope.

(** The settlement of a receipt, rounded to whole micro-units ([settleOnReceipt],
    [roundSettlementSplitMicro]). *)
Inductive settle_status := settle_completed | settle_partial | settle_refunded.

#[export] Instance settle_status_eq : EqDecision settle_status.
Proof. solve_decision. Defined.

Definition settle_text (st : settle_status) : string :=
  match st with settle_completed => "completed" | settle_partial => "partial" | settle_refunded => "refunded" end.

(** [sb_motebit_id]: the payee, the agent the receipt names. *)
Record settlement_body := {
  sb_settlement_id : string;
  sb_allocation_id : string;
  sb_motebit_id : string;
  sb_amount_settled : Z;
  sb_platform_fee : Z;
  sb_status : settle_status;
  sb_settled_at : Z;
}.

Definition of_task (taskId : string) (x : allocation_row) : bool := bool_decide (al_task_id x = taskId).
Definition of_id (a : string) (x : allocation_row) : bool := bool_decide (al_allocation_id x = a).
Definition in_status (st : string) (x : allocation_row) : bool := bool_decide (al_status x = st).

Definition with_status (st : string) (x : allocation_row) : allocation_row := {|
  al_allocation_id := al_allocation_id x; al_task_id := al_task_id x; al_motebit_id := al_motebit_id x;
  amount_locked := amount_locked x; al_status := st; al_created_at := al_created_at x;
  review_reason := review_reason x; claim_unrecoverable_at := claim_unrecoverable_at x |}.

(** [review_reason = COALESCE(review_reason, reason)] *)
Definition with_review (reason : string) (x : allocation_row) : allocation_row := {|
  al_allocation_id := al_allocation_id x; al_task_id := al_task_id x; al_motebit_id := al_motebit_id x;
  amount_locked := amount_locked x; al_status := al_status x; al_created_at := al_created_at x;
  review_reason := Some (default reason (review_reason x)); claim_unrecoverable_at := claim_unrecoverable_at x |}.

(** [dispute-fund-ledger.ts]: what the ledger says of one allocation. *)
Record AllocationLedgerPosition := {
  pos_taskId : option string;
  pos_delegator : option string;
  pos_worker : option string;
  pos_escrowRemaining : Z;
  pos_paid : list (string * Z);
  pos_priorDisputeRows : nat;
  pos_settled : bool;
  pos_reviewReason : option string;
}.

(** [Math.floor(n * ratio)] of whole micro-units, the ratio finite. *)
Definition floor_share (n : Z) (ratio : number) : Z := default 0 (floor_Z (js_mul (Number n) ratio)).

(** [!Number.isFinite(r) || r < 0 || r > 1] *)
Definition bad_ratio (r : number) : bool :=
  negb (Number_isFinite r) || js_ltb r (Number 0) || js_ltb (Number 1) r.

(** The primary key and the unique columns of [relay_dispute_fund_actions]. *)
Definition same_fund_action (a b : fund_action_row) : bool :=
  bool_decide (fa_allocation_id a = fa_allocation_id b) || bool_decide (fa_task_id a = fa_task_id b) ||
  bool_decide (fa_dispute_id a = fa_dispute_id b).
Definition same_refund_log (a b : refund_log_row) : bool := bool_decide (rl_refund_id a = rl_refund_id b).
Definition same_retry (a b : retry_row) : bool := bool_decide (rt_retry_id a = rt_retry_id b).

Definition with_refusal (r : option FundRefusalReason) (x : dispute_row) : dispute_row := {|
  d_dispute_id := d_dispute_id x; d_task_id := d_task_id x; d_allocation_id := d_allocation_id x;
  d_state := d_state x; d_amount_locked := d_amount_locked x; d_resolved_at := d_resolved_at x;
  d_appealed_at := d_appealed_at x; d_final_at := d_final_at x; fund_refusal := r |}.
Definition with_final (finalAt : Z) (x : dispute_row) : dispute_row := {|
  d_dispute_id := d_dispute_id x; d_task_id := d_task_id x; d_allocation_id := d_allocation_id x;
  d_state := "final"; d_amount_locked := d_amount_locked x; d_resolved_at := d_resolved_at x;
  d_appealed_at := d_appealed_at x; d_final_at := Some finalAt; fund_refusal := fund_refusal x |}.
Definition with_resolved (resolvedAt : Z) (x : dispute_row) : dispute_row := {|
  d_dispute_id := d_dispute_id x; d_task_id := d_task_id x; d_allocation_id := d_allocation_id x;
  d_state := d_state x; d_amount_locked := d_amount_locked x; d_resolved_at := Some resolvedAt;
  d_appealed_at := d_appealed_at x; d_final_at := d_final_at x; fund_refusal := fund_refusal x |}.

Definition APPEAL_WINDOW_MS : Z := 24 * 60 * 60 * 1000.

Section callers.
Context {W : Type} `{!DatabaseDriver relay_db ledger_error W}.
Abbreviation db_call := (call W ledger_error).
Context (frozen : bool) (now : Z).

(** [UPDATE relay_allocations SET f WHERE cond]: the rows it changed. *)
Definition update_allocations (cond : allocation_row -> bool) (f : allocation_row -> allocation_row) : db_call nat :=
  run_sql (fun d => Ok (changes cond (relay_allocations d), upd_allocations (update_rows cond f) d)).
Definition update_disputes (cond : dispute_row -> bool) (f : dispute_row -> dispute_row) : db_call nat :=
  run_sql (fun d => match relay_disputes d with
                    | None => Throw Error_driver
                    | Some rows => Ok (changes cond rows, upd_disputes (fun _ => Some (update_rows cond f rows)) d)
                    end).

(** ** Admission: the hold that funds the task *)

Definition fundingWrites (taskId motebitId delegatorId description : string) (amountLocked : Z) (uuid : string)
    : db_call unit :=
  let a := String.append "x402-" taskId in
  openAllocation a taskId motebitId amountLocked now ;!
  call_catch (moveAllocationMoney frozen (Hold a (JInt amountLocked) delegatorId description) uuid now)
    (fun err => match err with
                | AllocationMoneyRefused _ => call_throw InsufficientFundsError
                | _ => call_throw err
                end).

(** ** Settlement of an answer *)

Definition claim_locked (taskId : string) : db_call bool :=
  let! n := update_allocations (fun x => of_task taskId x && in_status "locked" x) (with_status "settled") in
  call_ret (0 <? Z.of_nat n).

(** The settlement row: the column names the path agent, the signed body the payee. *)
Definition settlement_insert (body : settlement_body) (taskId motebitId : string) : settlement_row := {|
  st_settlement_id := sb_settlement_id body; st_allocation_id := sb_allocation_id body;
  platform_fee := sb_platform_fee body; record_motebit_id := Some (sb_motebit_id body);
  st_motebit_id := motebitId; st_task_id := taskId; amount_settled := sb_amount_settled body;
  st_status := settle_text (sb_status body); settlement_mode := Some "relay"%string;
  settled_at := sb_settled_at body |}.

(** [releaseTo]: what is left returns to the hold payer. *)
Definition releaseTo (a : string) (amount : Z) (description uuid : string) : db_call unit :=
  let! payer := allocationHoldPayer a in
  moveAllocationMoney frozen (Refund settlement_release a (JInt amount) (default ""%string payer) description) uuid now.

(** The credits of a recorded settlement. *)
Definition distribute (body : settlement_body) (a worker taskId : string) (grossAmount heldRemaining : Z)
    (uuid1 uuid2 : string) : db_call unit :=
  match sb_status body with
  | settle_refunded =>
      call_when (0 <? heldRemaining) (releaseTo a heldRemaining (String.append "Refund for task " taskId) uuid2)
  | st =>
      call_when (0 <? sb_amount_settled body)
        (moveAllocationMoney frozen (SettlementCredit a (JInt (sb_amount_settled body)) worker
           (sb_settlement_id body) (String.append "Payment for task " taskId)) uuid1 now) ;!
      let grossSettled := sb_amount_settled body + sb_platform_fee body in
      let remainder := heldRemaining - grossSettled in
      call_when (bool_decide (st = settle_partial) && (0 <? remainder))
        (releaseTo a remainder (String.append "Partial release for task " taskId) uuid2) ;!
      call_when (bool_decide (st = settle_completed) && (grossAmount <? heldRemaining))
        (releaseTo a (heldRemaining - grossAmount)
           (String.append "Risk buffer surplus release for task " taskId) uuid2)
  end.

(** The settlement's transaction: whether a settlement was recorded.
    [settlementApplies] is [!isP2pTask && signedSettlement != null]. *)
Definition settleAnswer (settlementApplies : bool) (body : settlement_body) (taskId a motebitId worker : string)
    (grossAmount : Z) (uuid1 uuid2 : string) : db_call bool :=
  run_transaction (
    let! heldOnLedger := allocationHeld a in
    let fundedOnLedger := (grossAmount =? 0) || (0 <? heldOnLedger) in
    let! allocationClaimed := if settlementApplies && fundedOnLedger then claim_locked taskId else call_ret false in
    let heldRemaining := if (allocationClaimed : bool) then heldOnLedger else 0 in
    let settlementFunded := (grossAmount =? 0) || (allocationClaimed && (0 <? heldRemaining)) in
    call_when (settlementApplies && settlementFunded)
      (moveAllocationMoney frozen (SettlementFee a (JInt (sb_platform_fee body))
         (settlement_insert body taskId motebitId)) uuid1 now ;!
       distribute body a worker taskId grossAmount heldRemaining uuid1 uuid2) ;!
    call_ret settlementFunded).

(** A nested receipt, its task submitted in relay mode: whether it was recorded. *)
Definition settleSubAnswer (body : settlement_body) (subRelayTaskId subAgent : string) (uuid : string) : db_call bool :=
  let a := String.append "x402-" subRelayTaskId in
  call_catch (run_transaction (
    let! subHeldOnLedger := allocationHeld a in
    let! subClaimed := if 0 <? subHeldOnLedger then claim_locked subRelayTaskId else call_ret false in
    call_when subClaimed
      (moveAllocationMoney frozen (SettlementFee a (JInt (sb_platform_fee body))
         (settlement_insert body subRelayTaskId subAgent)) uuid now ;!
       call_when (0 <? sb_amount_settled body)
         (moveAllocationMoney frozen (SettlementCredit a (JInt (sb_amount_settled body)) subAgent
            (sb_settlement_id body) (String.append "Payment for sub-delegated task " subRelayTaskId)) uuid now)) ;!
    call_ret true)) (fun _ => call_ret false).

(** ** The origin's forward *)

Inductive forward_outcome := forward_queued | forward_refused.

(** Up to the first send: the forward and its retry row, or a refusal. *)
Definition forwardOriginSettlement (taskId relayMotebitId peerRelayId settlementId retryId : string)
    (grossAmount : Z) (uuid : string) : db_call forward_outcome :=
  let! alloc := select (fun d => List.find (of_task taskId) (relay_allocations d)) in
  match alloc with
  | None => call_ret forward_refused
  | Some alloc =>
      call_catch (run_transaction (
        moveAllocationMoney frozen (FederatedForward (al_allocation_id alloc) (JInt grossAmount) {|
          f_settlement_id := settlementId; f_task_id := taskId; upstream_relay_id := relayMotebitId;
          downstream_relay_id := Some peerRelayId; gross_amount := grossAmount; f_allocation_id := None;
          f_status := fwd_pending |}) uuid now ;!
        run_sql (fun d =>
          match insert_row same_retry {| rt_retry_id := retryId; rt_settlement_id := settlementId; rt_task_id := taskId;
                  rt_peer_relay_id := peerRelayId; rt_attempts := 0; rt_max_attempts := 8;
                  rt_next_retry_at := now + 5000; rt_status := "pending" |} (relay_settlement_retries d) with
          | Ok rows => Ok (tt, upd_retries (fun _ => rows) d)
          | Throw e => Throw e
          end) ;!
        call_ret forward_queued))
      (fun err => match err with AllocationMoneyRefused _ => call_ret forward_refused | _ => call_throw err end)
  end.

(** The peer's 2xx to the first send. *)
Definition acknowledgeForward (settlementId retryId : string) : db_call unit := run_transaction (
  run_sql (fun d => Ok (tt, upd_retries (List.filter (fun r =>
    negb (bool_decide (rt_retry_id r = retryId) && bool_decide (rt_status r = "pending"%string) &&
          (rt_attempts r =? 0)))) d)) ;!
  markForwardDelivered settlementId).

(** ** Refunds of a forward that is never delivered *)

Inductive refund_outcome := refunded | returned | skipped.

Definition flagForReview (a reason : string) : db_call nat := update_allocations (of_id a) (with_review reason).

Definition retire_locked (a : string) : db_call nat :=
  update_allocations (fun x => of_id a x && in_status "locked" x) (with_status "released").

(** [INSERT OR IGNORE] *)
Definition insert_refund_log (row : refund_log_row) : db_call unit := run_sql (fun d =>
  Ok (tt, match insert_row same_refund_log row (relay_refund_log d) with
          | Ok rows => upd_refund_log (fun _ => rows) d
          | Throw _ => d
          end)).

Definition refundExhaustedForward (tasks : task_db) (retry : retry_row) (refundId uuid : string) : db_call refund_outcome :=
  call_catch (run_transaction (
    let! alloc := select (fun d => List.find (of_task (rt_task_id retry)) (relay_allocations d)) in
    match alloc with
    | None => call_ret skipped
    | Some alloc =>
        let a := al_allocation_id alloc in
        let! fwd := forwardOf (rt_settlement_id retry) in
        let! isReturned := match fwd with
          | Some f => if bool_decide (f_status f = fwd_pending) && bool_decide (f_allocation_id f = Some a)
                      then moveAllocationMoney frozen (ForwardReturn a (JInt (gross_amount f)) (rt_settlement_id retry))
                             uuid now ;! call_ret true
                      else call_ret false
          | None => call_ret false
          end in
        let unpaid := if (isReturned : bool) then returned else skipped in
        let! held := allocationHeld a in
        let claimHeld := in_status "locked" alloc && bool_decide (is_Some (claim_unrecoverable_at alloc)) &&
                         holdsUnsettledClaim (rt_task_id retry) tasks in
        if in_status "disputed" alloc || claimHeld || (held <=? 0) then call_ret unpaid else
        let! payer := allocationHoldPayer a in
        match payer with
        | None => flagForReview a "unroutable_refund" ;! call_ret unpaid
        | Some p =>
            moveAllocationMoney frozen (Refund retry_exhaustion_refund a (JInt held) p
              (String.append "Retry exhaustion refund for task " (rt_task_id retry))) uuid now ;!
            retire_locked a ;!
            insert_refund_log {| rl_refund_id := refundId; rl_retry_id := rt_retry_id retry;
              rl_task_id := rt_task_id retry; rl_allocation_id := a; rl_delegator_id := p; rl_amount := held |} ;!
            call_ret refunded
        end
    end)) (fun _ => call_ret skipped).

(** ** The stale sweep *)

(** One stale allocation: how many rows it releases. *)
Definition releaseStale (tasks : task_db) (holdsUnresolvedGrant : string -> bool) (alloc : allocation_row) (uuid : string)
    : db_call nat :=
  let a := al_allocation_id alloc in
  if holdsUnresolvedGrant (al_task_id alloc) then flagForReview a "undetermined" ;! call_ret 0%nat else
  if holdsUnsettledClaim (al_task_id alloc) tasks then call_ret 0%nat else
  if bool_decide (is_Some (claim_unrecoverable_at alloc)) && holdsUnsettledClaim (al_task_id alloc) tasks
  then call_ret 0%nat else
  let! held := allocationHeld a in
  if 0 <? held then
    let! payer := allocationHoldPayer a in
    match payer with
    | None => flagForReview a "unroutable_refund" ;! call_ret 0%nat
    | Some p =>
        moveAllocationMoney frozen (Refund sweep_refund a (JInt held) p
          (String.append "Stale allocation release for task " (al_task_id alloc))) uuid now ;!
        retire_locked a
    end
  else retire_locked a.

Fixpoint releaseEach (tasks : task_db) (grant : string -> bool) (uuids : string -> string) (stale : list allocation_row)
    : db_call nat :=
  match stale with
  | [] => call_ret 0%nat
  | alloc :: rest =>
      let! n := releaseStale tasks grant alloc (uuids (al_allocation_id alloc)) in
      let! m := releaseEach tasks grant uuids rest in
      call_ret (n + m)%nat
  end.

Definition is_stale (cutoff : Z) (x : allocation_row) : bool := in_status "locked" x && (al_created_at x <? cutoff).

(** [uuids] draws one id per allocation. *)
Definition releaseStaleAllocations (horizonMs : Z) (tasks : task_db) (grant : string -> bool) (uuids : string -> string)
    : db_call nat :=
  call_catch (
    let! stale := select (fun d => List.filter (is_stale (now - horizonMs)) (relay_allocations d)) in
    match stale with
    | [] => call_ret 0%nat
    | _ => run_transaction (releaseEach tasks grant uuids stale)
    end) (fun _ => call_ret 0%nat).

(** ** A dispute's fund action *)

Definition allocationLedgerPosition (a : string) : db_call AllocationLedgerPosition :=
  let! alloc := select (find_allocation a) in
  let! settled := select (fun d => existsb (fun s => bool_decide (st_allocation_id s = a) && relay_mode s)
                                     (settlement_rows d)) in
  let! delegator := allocationHoldPayer a in
  let! remaining := allocationHeld a in
  let! paid := allocationPaid a in
  let! prior := allocationDisputeRows a in
  let! review := allocationReviewReason a in
  call_ret {| pos_taskId := al_task_id <$> alloc; pos_delegator := delegator; pos_worker := al_motebit_id <$> alloc;
              pos_escrowRemaining := remaining; pos_paid := paid; pos_priorDisputeRows := prior;
              pos_settled := settled; pos_reviewReason := review |}.

Definition recordFundRefusal (disputeId : string) (reason : option FundRefusalReason) : db_call nat :=
  update_disputes (fun x => bool_decide (d_dispute_id x = disputeId)) (with_refusal reason).

Definition closeDisputedAllocation (dispute : dispute_row) (closeAs : string) : db_call nat :=
  update_allocations (fun x => of_id (d_allocation_id dispute) x && in_status "disputed" x) (with_status closeAs).

(** [INSERT ... ON CONFLICT DO NOTHING]: whether a row was written. *)
Definition claimFundAction (row : fund_action_row) : db_call bool := run_sql (fun d =>
  match insert_row same_fund_action row (relay_dispute_fund_actions d) with
  | Ok rows => Ok (true, upd_fund_actions (fun _ => rows) d)
  | Throw _ => Ok (false, d)
  end).

(** A leg the chokepoint refuses rolls the whole finalize back. *)
Definition guarded_leg (amount : Z) (m : db_call unit) : db_call unit :=
  call_when (0 <? amount) (call_catch m (fun err =>
    match err with
    | AllocationMoneyRefused insufficient_balance => call_throw (FundActionRefused clawback_insufficient)
    | AllocationMoneyRefused under_review => call_throw (FundActionRefused under_operator_review)
    | AllocationMoneyRefused _ => call_throw (FundActionRefused unroutable_funds)
    | _ => call_throw err
    end)).

Definition leg_text (what fundAction disputeId : string) : string :=
  String.append what (String.append " (" (String.append fundAction (String.append "): " disputeId))).

Definition sole_recipient (paid : list (string * Z)) : option (string * Z) :=
  match paid with [p] => Some p | _ => None end.

Definition executeFundAction (dispute : dispute_row) (fundAction : string) (splitRatio : number)
    (uuid1 uuid2 uuid3 : string) : db_call unit :=
  if d_amount_locked dispute =? 0 then call_ret tt else
  let disputeId := d_dispute_id dispute in
  let a := d_allocation_id dispute in
  if bad_ratio splitRatio then call_throw Error_split_ratio else
  let! pos := allocationLedgerPosition a in
  let refuse reason := recordFundRefusal disputeId (Some reason) ;! call_ret tt in
  match pos_taskId pos with
  | None => refuse no_allocation_row
  | Some taskId =>
      if negb (bool_decide (taskId = d_task_id dispute)) then refuse task_mismatch else
      if bool_decide (is_Some (pos_reviewReason pos)) then refuse under_operator_review else
      let closeAs := if pos_settled pos then "settled"%string else "released"%string in
      if (0 <? Z.of_nat (pos_priorDisputeRows pos)) then closeDisputedAllocation dispute closeAs ;! call_ret tt else
      let recipient := sole_recipient (pos_paid pos) in
      let net := zsum snd (pos_paid pos) in
      let claw := net - floor_share net splitRatio in
      let escrowWorker := floor_share (pos_escrowRemaining pos) splitRatio in
      let escrowDelegator := pos_escrowRemaining pos - escrowWorker in
      let delegatorCredit := escrowDelegator + claw in
      let routable := ((claw =? 0) || bool_decide (is_Some recipient)) &&
                      ((delegatorCredit =? 0) || bool_decide (is_Some (pos_delegator pos))) &&
                      ((escrowWorker =? 0) || bool_decide (is_Some (pos_worker pos))) in
      if negb routable then refuse unroutable_funds else
      let! claimed := claimFundAction {| fa_allocation_id := a; fa_task_id := taskId; fa_dispute_id := disputeId;
        fa_fund_action := fundAction; fa_split_ratio := splitRatio;
        fa_regime := if 0 <? net then "post_settlement" else "pre_settlement";
        fa_worker_amount := escrowWorker - claw; fa_delegator_amount := delegatorCredit |} in
      if negb claimed then closeDisputedAllocation dispute closeAs ;! call_ret tt else
      guarded_leg claw (moveAllocationMoney frozen (DisputeMove dispute_clawback a (JInt claw)
        (default ""%string (fst <$> recipient)) disputeId (leg_text "Dispute claw-back" fundAction disputeId)) uuid1 now) ;!
      guarded_leg escrowWorker (moveAllocationMoney frozen (DisputeMove dispute_worker a (JInt escrowWorker)
        (default ""%string (pos_worker pos)) disputeId (leg_text "Dispute release" fundAction disputeId)) uuid2 now) ;!
      guarded_leg delegatorCredit (moveAllocationMoney frozen (DisputeMove dispute_delegator a (JInt delegatorCredit)
        (default ""%string (pos_delegator pos)) disputeId (leg_text "Dispute refund" fundAction disputeId)) uuid3 now) ;!
      closeDisputedAllocation dispute closeAs ;!
      recordFundRefusal disputeId None ;!
      call_ret tt
  end.

(** ** Finalizing a verdict *)

Definition getDispute (disputeId : string) : db_call (option dispute_row) := select (fun d =>
  List.find (fun x => bool_decide (d_dispute_id x = disputeId)) (default [] (relay_disputes d))).

Definition resolution_of (disputeId : string) (round : Z) : db_call (option resolution_row) := select (fun d =>
  List.find (fun r => bool_decide (rs_dispute_id r = disputeId) && (rs_round r =? round)) (relay_dispute_resolutions d)).

(** [UPDATE relay_disputes SET state = 'final' ... WHERE dispute_id = ? AND state = from] *)
Definition to_final (disputeId from : string) (f : dispute_row -> dispute_row) : db_call nat :=
  update_disputes (fun x => bool_decide (d_dispute_id x = disputeId) && bool_decide (d_state x = from))
    (fun x => with_final now (f x)).

(** The [catch] of both finalizers: a refused fund action is marked. *)
Definition finalize_failed (dispute : dispute_row) (err : ledger_error) : db_call dispute_row :=
  match err with
  | FundActionRefused reason =>
      recordFundRefusal (d_dispute_id dispute) (Some reason) ;! call_ret (with_refusal (Some reason) dispute)
  | _ => call_ret dispute
  end.

(** [INSERT OR REPLACE]: the row of the round takes the place of the one before. *)
Definition insertRound2 (row : resolution_row) : db_call unit := run_sql (fun d =>
  Ok (tt, upd_resolutions (fun rows => List.filter (fun r =>
    negb (bool_decide (rs_dispute_id r = rs_dispute_id row) && (rs_round r =? rs_round row))) rows ++ [row]) d)).

(** The round-2 verdict, once signed: [verdict] is the row it persists. *)
Definition commitRound2Verdict (dispute : dispute_row) (verdict : resolution_row) (uuid1 uuid2 uuid3 : string) : db_call unit :=
  let! lostRace := call_catch (run_transaction (
      let! moved := to_final (d_dispute_id dispute) "appealed" (with_resolved (rs_resolved_at verdict)) in
      if (0 <? Z.of_nat moved)
      then insertRound2 verdict ;!
           executeFundAction dispute (rs_fund_action verdict) (rs_split_ratio verdict) uuid1 uuid2 uuid3 ;!
           call_ret false
      else call_ret true))
    (fun err =>
      match err with
      | FundActionRefused reason =>
          insertRound2 verdict ;! recordFundRefusal (d_dispute_id dispute) (Some reason) ;! call_throw (HTTPException 500)
      | EmergencyFrozenError => insertRound2 verdict ;! call_throw EmergencyFrozenError
      | _ => call_throw (HTTPException 500)
      end) in
  if (lostRace : bool) then call_throw (HTTPException 409) else call_ret tt.

Definition tryFinalizePersistedRound2 (dispute : dispute_row) (uuid1 uuid2 uuid3 : string) : db_call dispute_row :=
  let! round2 := resolution_of (d_dispute_id dispute) 2 in
  match round2 with
  | None => call_ret dispute
  | Some r =>
      call_catch (
        run_transaction (
          let! moved := to_final (d_dispute_id dispute) "appealed" (with_resolved (rs_resolved_at r)) in
          call_when (0 <? Z.of_nat moved)
            (executeFundAction dispute (rs_fund_action r) (rs_split_ratio r) uuid1 uuid2 uuid3)) ;!
        let! refreshed := getDispute (d_dispute_id dispute) in
        call_ret (default dispute refreshed))
      (finalize_failed dispute)
  end.

Definition tryFinalizeIfWindowExpired (dispute : dispute_row) (retryRound2 : bool) (uuid1 uuid2 uuid3 : string)
    : db_call dispute_row :=
  if bool_decide (d_state dispute = "appealed"%string)
  then if retryRound2 then tryFinalizePersistedRound2 dispute uuid1 uuid2 uuid3 else call_ret dispute else
  if negb (bool_decide (d_state dispute = "resolved"%string)) then call_ret dispute else
  if bool_decide (is_Some (d_appealed_at dispute)) then call_ret dispute else
  match d_resolved_at dispute with
  | None => call_ret dispute
  | Some resolvedAt =>
      if now <=? resolvedAt + APPEAL_WINDOW_MS then call_ret dispute else
      let! resolution := resolution_of (d_dispute_id dispute) 1 in
      match resolution with
      | None => call_ret dispute
      | Some r =>
          call_catch (
            let! moved := run_transaction (
              let! moved := to_final (d_dispute_id dispute) "resolved" (fun x => x) in
              call_when (0 <? Z.of_nat moved)
                (executeFundAction dispute (rs_fund_action r) (rs_split_ratio r) uuid1 uuid2 uuid3) ;!
              call_ret moved) in
            if (0 <? Z.of_nat moved) then call_ret (with_final now dispute) else
            let! refreshed := getDispute (d_dispute_id dispute) in
            call_ret (default dispute refreshed))
          (finalize_failed dispute)
      end
  end.
End callers.
