(* ===== verification/Freeze.v ===== *)
(** * The emergency freeze ([services/relay/src/freeze.ts])

    [installFreezeMoneyGuards] puts a trigger on every money table: while the
    persisted row says frozen, a statement that moves money is aborted, whoever runs
    it.  Here the triggers are a database driver of their own: each statement runs
    as on the plain driver, and its change of the tables is then held against the
    guards.  Every store method of the library is written against the driver class,
    so it runs under the freeze as it stands.  [relay_x402_settlements] and
    [relay_deposit_detector] are not tables of [SqlStore]; an update that writes the
    values a row already has is not told from none, and of two reasons to refuse a
    statement the statement's own is reported. *)

From Stdlib Require Import String.
From S2P Require Import Prelude Float64 JsString TaskQueue LedgerTypes MemStore Driver SqlStore SqlRefines Escrow EscrowCallers.
Local Open Scope string_scope.
Local Open Scope Z_scope.
Local Open Scope motebit_scope.

#[export] Instance AccountTransaction_eq : EqDecision AccountTransaction.
Proof. solve_decision. Defined.
#[export] Instance txn_row_eq : EqDecision txn_row.
Proof. solve_decision. Defined.
#[export] Instance settlement_row_eq : EqDecision settlement_row.
Proof. solve_decision. Defined.
#[export] Instance forward_row_eq : EqDecision forward_row.
Proof. solve_decision. Defined.

(** ** The guards *)

Section diff.
Context {R : Type} (key : R -> string) (inserted deleted : R -> bool) (updated : R -> R -> bool).

Definition row_of (k : string) (rows : list R) : option R := List.find (fun r => bool_decide (key r = k)) rows.

(** Some row was inserted, updated or deleted in a way its guard refuses. *)
Definition refused_rows (rows rows' : list R) : bool :=
  existsb (fun r' => match row_of (key r') rows with Some r => updated r r' | None => inserted r' end) rows' ||
  existsb (fun r => match row_of (key r) rows' with Some _ => false | None => deleted r end) rows.
End diff.

(** [relay_accounts]: an empty account may be created. *)
Definition accounts_refused : list VirtualAccount -> list VirtualAccount -> bool :=
  refused_rows va_motebit_id (fun r => negb (va_balance r =? 0)) (fun _ => true)
    (fun old new => negb (va_balance new =? va_balance old)).

(** [relay_withdrawals]: no guard on its insert. *)
Definition withdrawals_refused : list withdrawal_row -> list withdrawal_row -> bool :=
  refused_rows (fun r => withdrawal_id (wd r)) (fun _ => false) (fun _ => true)
    (fun old new => bool_decide (w_status (wd old) = pending) && negb (bool_decide (w_status (wd new) = w_status (wd old)))).

Definition pending_refused : list pending_row -> list pending_row -> bool :=
  refused_rows (fun r => pr_pendingId (pw r)) (fun _ => true) (fun _ => true)
    (fun old new => bool_decide (pr_status (pw old) = q_pending) && negb (bool_decide (pr_status (pw new) = pr_status (pw old)))).

(** [FREEZE_RECORD_TRANSITIONS]: a peer's acknowledgement is a record. *)
Definition forward_recorded (old new : forward_row) : bool :=
  bool_decide (new = old) || (bool_decide (f_status old = fwd_pending) && bool_decide (new = set_delivered old)).
Definition forwards_refused : list forward_row -> list forward_row -> bool :=
  refused_rows f_settlement_id (fun _ => true) (fun _ => true) (fun old new => negb (forward_recorded old new)).

(** Every column of a settlement row that the model has is a money column. *)
Definition freeze_refuses (d d' : relay_db) : bool :=
  negb (bool_decide (relay_settlements d' = relay_settlements d)) ||
  forwards_refused (relay_federation_settlements d) (relay_federation_settlements d') ||
  negb (bool_decide (relay_transactions d' = relay_transactions d)) ||
  accounts_refused (relay_accounts d) (relay_accounts d') ||
  withdrawals_refused (relay_withdrawals d) (relay_withdrawals d') ||
  pending_refused (relay_pending_withdrawals d) (relay_pending_withdrawals d').

Definition guarded_sql (frozen : bool) {A} (f : relay_db -> result ledger_error (A * relay_db)) :
    relay_db -> result ledger_error (A * relay_db) :=
  if frozen then fun d =>
    match f d with
    | Ok (a, d') => if freeze_refuses d d' then Throw EmergencyFrozenError else Ok (a, d')
    | Throw e => Throw e
    end
  else f.

(** The relay's connection, its guards installed; [frozen] is what the row says. *)
Definition FreezeDriver (frozen : bool) : DatabaseDriver relay_db ledger_error relay_db := {|
  run_sql := fun A f => stmt_fn (guarded_sql frozen f);
  run_transaction := fun A fn => all_or_nothing fn;
|}.

(** [isEmergencyFrozenAbort] *)
Definition isEmergencyFrozenAbort (e : ledger_error) : bool :=
  match e with EmergencyFrozenError => true | _ => false end.

(** ** What a frozen relay keeps *)

Record money_kept (d d' : relay_db) : Prop := {
  mk_settlements : relay_settlements d' = relay_settlements d;
  mk_transactions : relay_transactions d' = relay_transactions d;
  mk_balance i : sql_balance i d' = sql_balance i d;
  mk_withdrawals k r : row_of (fun r => withdrawal_id (wd r)) k (relay_withdrawals d) = Some r ->
    exists r', row_of (fun r => withdrawal_id (wd r)) k (relay_withdrawals d') = Some r' /\
      (w_status (wd r) = pending -> w_status (wd r') = pending);
  mk_queue k : match row_of (fun r => pr_pendingId (pw r)) k (relay_pending_withdrawals d),
                     row_of (fun r => pr_pendingId (pw r)) k (relay_pending_withdrawals d') with
               | Some r, Some r' => pr_status (pw r) = q_pending -> pr_status (pw r') = q_pending
               | None, None => True
               | _, _ => False
               end;
  mk_forwards k : match row_of f_settlement_id k (relay_federation_settlements d),
                        row_of f_settlement_id k (relay_federation_settlements d') with
                  | Some f, Some f' => f' = f \/ (f_status f = fwd_pending /\ f' = set_delivered f)
                  | None, None => True
                  | _, _ => False
                  end;
}.

(** A diff that no guard refuses, by key. *)
Lemma row_of_elem {R} (key : R -> string) k rows r : row_of key k rows = Some r -> r ∈ rows /\ key r = k.
Proof. intros [Hi Hk]%find_some. apply list_elem_of_In in Hi. by apply bool_decide_eq_true in Hk. Qed.

Lemma refused_none {R} (key : R -> string) ins del upd (rows rows' : list R) k :
  refused_rows key ins del upd rows rows' = false ->
  match row_of key k rows, row_of key k rows' with
  | Some r, Some r' => upd r r' = false
  | None, Some r' => ins r' = false
  | Some r, None => del r = false
  | None, None => True
  end.
Proof.
  intros [H1 H2]%orb_false_iff. destruct (row_of key k rows') as [r'|] eqn:E'.
  - apply row_of_elem in E' as [Hi' <-]. apply not_true_iff_false in H1.
    destruct (row_of key (key r') rows) as [r|] eqn:E; apply not_true_iff_false; intros Hc; apply H1, existsb_exists;
      exists r'; (split; [by apply list_elem_of_In|]); by rewrite E.
  - destruct (row_of key k rows) as [r|] eqn:E; [|done]. apply row_of_elem in E as [Hi <-].
    apply not_true_iff_false in H2. apply not_true_iff_false. intros Hc. apply H2, existsb_exists.
    exists r. split; [by apply list_elem_of_In|]. by rewrite E'.
Qed.

Lemma allowed_keeps d d' : freeze_refuses d d' = false -> money_kept d d'.
Proof.
  unfold freeze_refuses. rewrite !orb_false_iff, !negb_false_iff, !bool_decide_eq_true.
  intros (((((Hs & Hf) & Ht) & Ha) & Hw) & Hp). split; [done|done| | | |].
  - intros i. pose proof (refused_none _ _ _ _ _ _ i Ha) as H. unfold sql_balance, find_account.
    unfold row_of in H. destruct (List.find _ (relay_accounts d)), (List.find _ (relay_accounts d')); try done.
    + apply negb_false_iff in H. lia.
    + apply negb_false_iff in H. lia.
  - intros k r Hr. pose proof (refused_none _ _ _ _ _ _ k Hw) as H. rewrite Hr in H.
    destruct (row_of _ k (relay_withdrawals d')) as [r'|]; [|done]. exists r'. split; [done|]. intros Hst.
    rewrite bool_decide_true in H by done. apply negb_false_iff, bool_decide_eq_true in H. congruence.
  - intros k. pose proof (refused_none _ _ _ _ _ _ k Hp) as H.
    destruct (row_of _ k (relay_pending_withdrawals d)) as [r|], (row_of _ k (relay_pending_withdrawals d')) as [r'|];
      try done. intros Hst. rewrite bool_decide_true in H by done. apply negb_false_iff, bool_decide_eq_true in H. congruence.
  - intros k. pose proof (refused_none _ _ _ _ _ _ k Hf) as H.
    destruct (row_of _ k (relay_federation_settlements d)) as [f|], (row_of _ k (relay_federation_settlements d')) as [f'|];
      try done. apply negb_false_iff, orb_true_iff in H as [H%bool_decide_eq_true|[H1 H2]%andb_true_iff]; [by left|].
    right. by apply bool_decide_eq_true in H1, H2.
Qed.

#[export] Instance money_kept_preorder : PreOrder money_kept.
Proof.
  split.
  - intros d. split; try done.
    + eauto.
    + intros k. by destruct (row_of _ k _).
    + intros k. destruct (row_of _ k _); [by left|done].
  - intros d1 d2 d3 [S1 T1 B1 W1 Q1 F1] [S2 T2 B2 W2 Q2 F2]. split; [congruence|congruence| | | |].
    + intros i. by rewrite B2.
    + intros k r Hr. destruct (W1 k r Hr) as (r1 & Hr1 & H1). destruct (W2 k r1 Hr1) as (r2 & Hr2 & H2).
      exists r2. split; [done|]. by intros ?%H1%H2.
    + intros k. specialize (Q1 k). specialize (Q2 k). do 3 case_match; try done. by intros ?%Q1%Q2.
    + intros k. specialize (F1 k). specialize (F2 k). do 3 case_match; try done.
      destruct F1 as [->|[F1 ->]]; [done|]. destruct F2 as [->|[F2 ->]]; [by right|done].
Qed.

(** ** Calls under the freeze *)

(** A call that leaves the money where it is, whether it returns or throws. *)
Abbreviation moves_nothing := (stays (E := ledger_error) money_kept).

Section frozen.
#[local] Instance frozen_driver : DatabaseDriver relay_db ledger_error relay_db := FreezeDriver true.

(** The triggers, one statement at a time. *)
Lemma nothing_sql {A} (f : relay_db -> result ledger_error (A * relay_db)) : moves_nothing (run_sql f).
Proof.
  intros d. cbn. unfold stmt_fn, guarded_sql. destruct (f d) as [[a d']|e]; [|done].
  destruct (freeze_refuses d d') eqn:E; [done|]. by apply allowed_keeps.
Qed.

Lemma nothing_transaction {A} (m : call relay_db ledger_error A) : moves_nothing m -> moves_nothing (run_transaction m).
Proof.
  intros Hm d. specialize (Hm d). cbn. unfold all_or_nothing. by destruct (m d) as [[a|e] d'].
Qed.
End frozen.

Create HintDb freeze.

(** Follows the structure of a store method, down to the methods the database knows. *)
Ltac nothing_auto :=
  repeat first
    [ progress intros | exact money_kept_preorder | solve [trivial with freeze]
    | apply stays_ret | apply stays_throw | apply nothing_sql | apply nothing_transaction
    | apply stays_bind | apply stays_catch
    | match goal with |- stays _ (match ?x with _ => _ end) => destruct x end ].

(** ** The callers *)

(** The calls of the library that move money, with every argument they take. *)
Inductive money_call :=
| money_ledger (op : ledger_op)
| money_queue_refund (pendingId : string)
| money_move (m : AllocationMove)
| money_admit (taskId worker delegatorId description : string) (amountLocked : Z)
| money_settle (applies : bool) (body : settlement_body) (taskId a motebitId worker : string) (gross : Z)
| money_nested (body : settlement_body) (taskId subAgent : string)
| money_forward (taskId relay peer settlementId retryId : string) (gross : Z)
| money_exhausted (tasks : task_db) (retry : retry_row) (refundId : string)
| money_sweep (horizonMs : Z) (tasks : task_db) (grant : string -> bool)
| money_finalize (dispute : dispute_row) (retryRound2 : bool)
| money_round2 (dispute : dispute_row) (verdict : resolution_row)
| money_audit (s : settlement_row)
| money_inbound (f : forward_row) (worker : option string) (amount : Z) (description : string)
| money_truncate (horizon : Z).

Section calls.
Context {W : Type} `{!DatabaseDriver relay_db ledger_error W}.
Context (first_layer : bool) (uuids : string -> string) (now : Z).
Abbreviation fr := first_layer.

Definition unit_of {A} (m : call W ledger_error A) : call W ledger_error unit := m ;! call_ret tt.

(** [first_layer] is what [assertNotFrozen] reads at the chokepoint; [uuids] draws the
    ids. *)
Definition run_money (c : money_call) : call W ledger_error unit :=
  match c with
  | money_ledger op => unit_of (sql_call op (uuids "") now)
  | money_queue_refund q => unit_of (refundPendingWithdrawal q now (uuids "") now)
  | money_move m => moveAllocationMoney fr m (uuids "") now
  | money_admit t w p desc z => run_transaction (fundingWrites fr now t w p desc z (uuids ""))
  | money_settle b body t a mb w g => unit_of (settleAnswer fr now b body t a mb w g (uuids "1") (uuids "2"))
  | money_nested body t sub => unit_of (settleSubAnswer fr now body t sub (uuids ""))
  | money_forward t relay peer sid rid g => unit_of (forwardOriginSettlement fr now t relay peer sid rid g (uuids ""))
  | money_exhausted tasks retry rid => unit_of (refundExhaustedForward fr now tasks retry rid (uuids ""))
  | money_sweep h tasks grant => unit_of (releaseStaleAllocations fr now h tasks grant uuids)
  | money_finalize x r2 => unit_of (tryFinalizeIfWindowExpired fr now x r2 (uuids "1") (uuids "2") (uuids "3"))
  | money_round2 x v => commitRound2Verdict fr now x v (uuids "1") (uuids "2") (uuids "3")
  | money_audit s => unit_of (recordP2pSettlementAudit s)
  | money_inbound f w z desc => unit_of (run_transaction (recordInboundFederatedSettlement f w z desc (uuids "") now))
  | money_truncate h => truncateSettlementsBeforeHorizon h
  end.
End calls.

Section frozen_calls.
#[local] Existing Instance frozen_driver.

Lemma ledger_moves_nothing op uuid now : moves_nothing (sql_call op uuid now).
Proof.
  destruct op; cbn [sql_call]; unfold answer; apply stays_bind; try (intros; apply stays_ret; exact _);
    unfold debitAndRecordWithdrawal, failWithdrawalAndRefund, debitAndEnqueuePending, credit, debit, debitSpendable,
      getUnwithdrawableHold, linkWithdrawalTransfer, claimWithdrawalForPayout, setWithdrawalSignature,
      setWithdrawalCompletion, noteWithdrawalPayoutUnresolved, update_withdrawal, check, hasTables, select; nothing_auto.
Qed.
#[local] Hint Resolve ledger_moves_nothing : freeze.

(** The chokepoint with its own check skipped. *)
Lemma move_moves_nothing fr m uuid now : moves_nothing (moveAllocationMoney fr m uuid now).
Proof.
  unfold moveAllocationMoney, move_hold, move_forward_return, move_clawback, move_out, pay_hold_payer, under_review_or,
    insertSettlement, insert_settlement_row, insert_fee_row, insert_forward_row, settlementPayee, allocationHoldPayer,
    allocationHeldRaw, refuse, debitSpendable, getUnwithdrawableHold, credit, debit, check, hasTables, select.
  nothing_auto.
Qed.
#[local] Hint Resolve move_moves_nothing : freeze.

Lemma fund_moves_nothing fr now x act ratio u1 u2 u3 : moves_nothing (executeFundAction fr now x act ratio u1 u2 u3).
Proof.
  unfold executeFundAction, allocationLedgerPosition, allocationHoldPayer, allocationHeld, allocationHeldRaw, allocationPaid,
    allocationDisputeRows, allocationReviewReason, recordFundRefusal, closeDisputedAllocation, claimFundAction,
    guarded_leg, call_when, update_disputes, update_allocations, select.
  nothing_auto.
Qed.
#[local] Hint Resolve fund_moves_nothing : freeze.

Lemma sweep_moves_nothing fr now tasks grant uuids stale : moves_nothing (releaseEach fr now tasks grant uuids stale).
Proof.
  induction stale as [|x rest IH]; cbn [releaseEach]; [apply stays_ret; exact _|].
  unfold releaseStale, flagForReview, retire_locked, allocationHeld, allocationHeldRaw, allocationHoldPayer,
    update_allocations, select. nothing_auto.
Qed.
#[local] Hint Resolve sweep_moves_nothing : freeze.

Lemma call_moves_nothing fr uuids now c : moves_nothing (run_money fr uuids now c).
Proof.
  destruct c; cbn [run_money]; unfold unit_of;
    unfold refundPendingWithdrawal, fundingWrites, settleAnswer, settleSubAnswer, distribute, releaseTo, claim_locked,
      forwardOriginSettlement, refundExhaustedForward, releaseStaleAllocations, tryFinalizeIfWindowExpired,
      tryFinalizePersistedRound2, finalize_failed, commitRound2Verdict, to_final, insertRound2, resolution_of, getDispute,
      recordFundRefusal, update_disputes, recordP2pSettlementAudit, recordInboundFederatedSettlement,
      truncateSettlementsBeforeHorizon, openAllocation, forwardOf, flagForReview, retire_locked, insert_refund_log,
      allocationHeld, allocationHeldRaw, allocationHoldPayer, update_allocations, credit, check, call_when, select;
    nothing_auto.
Qed.
End frozen_calls.

