(* ===== verification/Settlement.v ===== *)
(** * The price of a task and the settlement of its answer

    [packages/market/src/settlement.ts], [budget.ts], and the places where the
    relay's [tasks.ts] prices a submission, sizes its hold and rounds a settlement.
    The amounts are micro-units held in [number]s that need not be whole until the
    last rounding. *)

From Stdlib Require Import String.
From Stdlib Require Import Floats.SpecFloat.
From S2P Require Import Prelude JsMap Float64 LedgerTypes Money TaskTypes Escrow EscrowCallers.
Local Open Scope string_scope.
Local Open Scope Z_scope.

(** ** The states of an allocation *)

Inductive AllocationStatus := alloc_locked | alloc_settled | alloc_released | alloc_disputed.

#[export] Instance AllocationStatus_eq : EqDecision AllocationStatus.
Proof. solve_decision. Defined.

Definition VALID_TRANSITIONS : list (AllocationStatus * list AllocationStatus) := [
  (alloc_locked, [alloc_settled; alloc_released; alloc_disputed]);
  (alloc_disputed, [alloc_settled; alloc_released]);
  (alloc_settled, []);
  (alloc_released, [])].

Definition canTransitionAllocation (from to : AllocationStatus) : bool :=
  match List.find (fun p => bool_decide (p.1 = from)) VALID_TRANSITIONS with
  | Some (_, allowed) => bool_decide (to ∈ allowed)
  | None => false
  end.

(** ** Settlement *)

Record BudgetAllocation := {
  ba_allocation_id : string;
  ba_goal_id : string;
  ba_candidate : string;
  ba_amount_locked : number;
  ba_currency : string;
  ba_created_at : Z;
  ba_status : AllocationStatus;
}.

(** The literal [0.05], the number nearest to it. *)
Definition PLATFORM_FEE_RATE : number := js_div (Number 5) (Number 100).

(** A manifest: its hash and the status of each step. *)
Record GoalExecutionManifest := { content_hash : string; steps : list string }.

Record SettlementRecordBody := {
  srb_settlement_id : string;
  srb_allocation_id : string;
  srb_motebit_id : string;
  srb_receipt_hash : string;
  srb_ledger_hash : option string;
  srb_amount_settled : number;
  srb_platform_fee : number;
  srb_platform_fee_rate : number;
  srb_status : settle_status;
  srb_settled_at : Z;
}.

Definition microRound (n : number) : number := js_div (Math_round (js_mul n (Number MICRO))) (Number MICRO).

Definition computeGrossAmount (netUnitCost feeRate : number) : result money_error number :=
  if js_ltb feeRate (Number 0) || js_leb (Number 1) feeRate then Throw Error_fee_rate
  else Ok (js_div netUnitCost (js_sub (Number 1) feeRate)).

(** [!Number.isSafeInteger(x) && x > Number.MAX_SAFE_INTEGER] *)
Definition beyond_safe (x : number) : bool :=
  negb (LedgerTypes.Number_isSafeInteger (as_js_number x)) && js_ltb (Number MAX_SAFE_INTEGER) x.

Definition validateAllocation (allocation : BudgetAllocation) : result money_error unit :=
  if js_ltb (ba_amount_locked allocation) (Number 0) then Throw Error_negative_allocation
  else if beyond_safe (ba_amount_locked allocation) then Throw Error_unsafe_allocation
  else Ok tt.

Section settleOnReceipt.
Context (allocation : BudgetAllocation) (receipt : ExecutionReceipt) (ledger : option GoalExecutionManifest)
        (settlementId : string) (feeRate : number) (now : Z).

Definition settlement_record (status : settle_status) (net fee : number) : SettlementRecordBody := {|
  srb_settlement_id := settlementId; srb_allocation_id := ba_allocation_id allocation;
  srb_motebit_id := rc_motebit_id receipt; srb_receipt_hash := result_hash receipt;
  srb_ledger_hash := content_hash <$> ledger; srb_amount_settled := net; srb_platform_fee := fee;
  srb_platform_fee_rate := feeRate; srb_status := status; srb_settled_at := now |}.

(** The gross amount: the whole allocation, or the share of completed steps. *)
Definition settled_gross : result money_error (number * settle_status) :=
  let gross := ba_amount_locked allocation in
  match ledger with
  | None => Ok (gross, settle_completed)
  | Some ledger =>
      let total := Z.of_nat (List.length (steps ledger)) in
      let completed := Z.of_nat (List.length (filter (fun s => s = "completed") (steps ledger))) in
      if total =? 0 then Ok (gross, settle_completed)
      else if total <? completed then Throw Error_completed_exceeds_total
      else if (completed <? total) && (0 <? completed) then
        if beyond_safe (js_mul gross (Number completed)) then Throw Error_product_overflow
        else Ok (microRound (js_mul gross (js_div (Number completed) (Number total))), settle_partial)
      else Ok (gross, settle_completed)
  end.

Definition settleOnReceipt : result money_error SettlementRecordBody :=
  if js_ltb feeRate (Number 0) || js_ltb (Number 1) feeRate then Throw Error_fee_rate
  else
    result_bind (validateAllocation allocation) (fun _ =>
    if bool_decide (rc_status receipt = "failed" \/ rc_status receipt = "denied")
    then Ok (settlement_record settle_refunded (Number 0) (Number 0))
    else
      result_bind settled_gross (fun '(gross, status) =>
      let fee := microRound (js_mul gross feeRate) in
      let net := microRound (js_sub gross fee) in
      if js_ltb net (Number 0) then Throw Error_negative_net
      else Ok (settlement_record status net fee))).
End settleOnReceipt.

(** ** Batched withdrawals *)

Record BatchPolicy := { feeJustificationMultiplier : number; maxAgeMs : number; minAggregateMicro : number }.

Definition DEFAULT_BATCH_POLICY : BatchPolicy := {|
  feeJustificationMultiplier := Number 20;
  maxAgeMs := Number (24 * 60 * 60 * 1000);
  minAggregateMicro := Number 1000000 |}.

Definition shouldBatchSettle (aggregatedMicro perItemFeeMicro oldestAgeMs : number) (policy : BatchPolicy)
    : result money_error bool :=
  if js_ltb aggregatedMicro (Number 0) || js_ltb perItemFeeMicro (Number 0) || js_ltb oldestAgeMs (Number 0)
  then Throw Error_batch_inputs
  else Ok (if js_ltb aggregatedMicro (minAggregateMicro policy) then false
           else if js_leb (js_mul (feeJustificationMultiplier policy) perItemFeeMicro) aggregatedMicro then true
           else js_leb (maxAgeMs policy) oldestAgeMs).

(** ** Budgets *)

Record AllocationRequest := {
  ar_goal_id : string;
  ar_candidate : string;
  ar_estimated_cost : number;
  ar_currency : string;
  ar_risk_factor : option number;
}.

(** [Math.min] of two numbers: [NaN] when one is; the two zeros are not told apart. *)
Definition Math_min (a b : number) : number :=
  match a, b with
  | S754_nan, _ | _, S754_nan => S754_nan
  | _, _ => if js_ltb b a then b else a
  end.

(** The literal [0.2]. *)
Definition RISK_BUFFER : number := js_div (Number 2) (Number 10).

Definition allocateBudget (request : AllocationRequest) (available : number) (allocationId : string) (now : Z)
    : option BudgetAllocation :=
  let risk := default (Number 1) (ar_risk_factor request) in
  let lockAmount := js_mul (ar_estimated_cost request) (js_add (Number 1) (js_mul risk RISK_BUFFER)) in
  let capped := Math_min lockAmount available in
  if js_ltb capped (ar_estimated_cost request) then None
  else Some {| ba_allocation_id := allocationId; ba_goal_id := ar_goal_id request; ba_candidate := ar_candidate request;
               ba_amount_locked := capped; ba_currency := ar_currency request; ba_created_at := now;
               ba_status := alloc_locked |}.

Record CapabilityPrice := { cp_capability : string; unit_cost : number; cp_currency : string; cp_per : string }.

Definition estimateCost (pricing : list CapabilityPrice) (capabilities : list string) : number * string :=
  fold_left (fun '(amount, currency) cap =>
    match List.find (fun p => bool_decide (cp_capability p = cap)) pricing with
    | Some price => (js_add amount (unit_cost price), cp_currency price)
    | None => (amount, currency)
    end) capabilities (Number 0, "USD").

(** ** The relay's uses ([tasks.ts]) *)

(** A micro-unit column of a number that has been rounded. *)
Definition whole (x : number) : Z := match as_js_number x with JInt z => z | JNonInt => 0 end.

(** [priceSubmission]: the gross price of a listing, in micro-units. *)
Definition priceSubmission (unitCost platformFeeRate : number) : result money_error number :=
  if js_ltb (Number 0) unitCost
  then result_bind (computeGrossAmount unitCost platformFeeRate) (fun gross => Ok (toMicro gross))
  else Ok (Number 0).

(** The hold of a paid submission: what the allocation row locks, or no funding. *)
Definition holdAmount (taskId motebitId : string) (priceSnapshot spendable : number) (x402Credited : option number) (now : Z)
    : option number :=
  let request := {| ar_goal_id := taskId; ar_candidate := motebitId; ar_estimated_cost := priceSnapshot;
                    ar_currency := "USDC"; ar_risk_factor := Some (Number 1) |} in
  let available := match x402Credited with Some credited => Math_min spendable credited | None => spendable end in
  match allocateBudget request available (String.append "x402-" taskId) now with
  | None => None
  | Some allocation => Some (Math_round (ba_amount_locked allocation))
  end.

(** The settlement of an answer, its legs rounded.  Nothing reads the allocation's
    creation time. *)
Definition answerSettlement (taskId settlementId : string) (grossAmount : number) (allocationId : option string)
    (receipt : ExecutionReceipt) (platformFeeRate : number) (now : Z) : result money_error settlement_body :=
  let allocation := {| ba_allocation_id := default (String.append "x402-" taskId) allocationId; ba_goal_id := taskId;
                       ba_candidate := rc_motebit_id receipt; ba_amount_locked := grossAmount; ba_currency := "USDC";
                       ba_created_at := now; ba_status := alloc_settled |} in
  result_bind (settleOnReceipt allocation receipt None settlementId platformFeeRate now) (fun settlement =>
  let rounded := roundSettlementSplitMicro (srb_amount_settled settlement) (srb_platform_fee settlement) in
  Ok {| sb_settlement_id := srb_settlement_id settlement; sb_allocation_id := srb_allocation_id settlement;
        sb_motebit_id := srb_motebit_id settlement; sb_amount_settled := whole (netMicro rounded);
        sb_platform_fee := whole (feeMicro rounded); sb_status := srb_status settlement;
        sb_settled_at := srb_settled_at settlement |}).
