(* ===== verification/BatchWithdrawals.v ===== *)
(** * Batched withdrawals ([services/relay/src/batch-withdrawals.ts])

    The queue of payouts and the loop that fires them.  The statements on the tables
    are written against the database driver, so they run under the freeze guards of
    [Freeze].  A pass of the loop awaits its rail; it is cut there: what runs between
    two awaits is one call on a [process], its database and its set [firingHere], and
    a pass that awaits is a [suspended] value.  Within such a turn the clock is read
    as one value, the freeze stands as it is, and [mint] draws the id used for a
    queue row.  What a rail answers is an argument. *)

From Stdlib Require Import String.
From S2P Require Import Prelude Float64 JsString LedgerTypes Driver SqlStore AccountStore Withdrawals StoreLaws.
From S2P Require Import Settlement Escrow Freeze.
Local Open Scope string_scope.
Local Open Scope Z_scope.
Local Open Scope motebit_scope.

(** ** Rails *)

(** A rail as far as this module reads it: [withdraw] and [withdrawBatch] are its
    answers, [supportsWithdraw] and [supportsBatch] what the type guards
    [isWithdrawableRail] and [isBatchableRail] say.  The declared validity is a whole
    number of milliseconds. *)
Record rail := {
  rail_name : string;
  payoutManual : bool;
  payoutValidityMs : option Z;
  supportsWithdraw : bool;
  supportsBatch : bool;
}.

Definition isManualPayoutRail (r : rail) : bool := payoutManual r.
Definition payoutValidityMsOf (r : rail) : option Z :=
  match payoutValidityMs r with Some v => if 0 <? v then Some v else None | None => None end.

(** What a rail throws: [payoutNotSent] is its proof that nothing left. *)
Record rail_error := { payoutNotSent : bool; message : string }.

(** A proof: its reference and when the rail saw the payout confirmed. *)
Record WithdrawalResult := { proof_reference : option string; confirmedAt : option Z }.

(** Per item, by the key it was sent with. *)
Record BatchWithdrawalResult := { fired_items : list (string * WithdrawalResult); failed_items : list (string * string) }.

Definition UNDECLARED_PAYOUT_HORIZON_MS : Z := 24 * 60 * 60 * 1000.
Definition STALE_FIRING_MS : Z := 2 * 60 * 1000.

Record BatchWithdrawalConfig := {
  railFeeEstimates : string -> option number;
  policy : option BatchPolicy;
  railPolicyOverrides : string -> option (BatchPolicy -> BatchPolicy);
}.

Definition resolvePolicy (config : BatchWithdrawalConfig) (railName : string) : BatchPolicy :=
  let base := default DEFAULT_BATCH_POLICY (policy config) in
  match railPolicyOverrides config railName with Some override => override base | None => base end.

Definition resolveFeeEstimate (config : BatchWithdrawalConfig) (railName : string) : number :=
  default (Number 0) (railFeeEstimates config railName).

(** ** The queue's statements *)

Definition pid (r : pending_row) : string := pr_pendingId (pw r).
Definition pst (r : pending_row) : queue_status := pr_status (pw r).

Definition set_queue (st : queue_status) (error : option string) (at_ : Z) (r : pending_row) : pending_row := {|
  pw := with_queue_status st (pw r); last_attempt_at := Some at_; last_error := error;
  linked_withdrawal := linked_withdrawal r |}.

(** [WHERE pending_id = ? AND status = ?] *)
Definition row_in (id : string) (st : queue_status) (r : pending_row) : bool :=
  bool_decide (pid r = id) && bool_decide (pst r = st).

Inductive payout_outcome := not_sent | outcome_unknown.

(** A failure by the money rule. *)
Definition failureOutcome (r : option rail) (err : rail_error) : payout_outcome :=
  if match r with Some r => isManualPayoutRail r | None => false end then not_sent
  else if payoutNotSent err then not_sent else outcome_unknown.

Record FiredRecord := { fr_status : WithdrawalStatus; payoutReference : option string; payoutValidUntil : option Z }.

Definition firedRecordFor (r : rail) (result : WithdrawalResult) (now : Z) : FiredRecord :=
  if 0 <? default 0 (confirmedAt result)
  then {| fr_status := completed; payoutReference := proof_reference result; payoutValidUntil := None |}
  else if isManualPayoutRail r
  then {| fr_status := pending; payoutReference := None; payoutValidUntil := None |}
  else {| fr_status := processing; payoutReference := proof_reference result;
          payoutValidUntil := Some (now + default UNDECLARED_PAYOUT_HORIZON_MS (payoutValidityMsOf r)) |}.

(** The withdrawal a fired queue row becomes. *)
Definition fired_withdrawal (row : PendingRow) (fired : FiredRecord) (now : Z) (failureReason : option string)
    (withdrawalId : string) : withdrawal_row := {|
  wd := {|
    withdrawal_id := withdrawalId; w_motebit_id := pr_motebitId row; w_amount := pr_amountMicro row;
    w_currency := "USD"; destination := pr_destination row; w_status := fr_status fired;
    payout_reference := payoutReference fired; requested_at := pr_enqueuedAt row;
    completed_at := if bool_decide (fr_status fired = completed) then Some now else None;
    failure_reason := failureReason; relay_signature := None; relay_public_key := None;
    claimed_at := if bool_decide (fr_status fired = pending) then None else Some now;
    payout_valid_until := payoutValidUntil fired |};
  idempotency_key := pr_idempotencyKey row |}.

Section queue.
Context {W : Type} `{!DatabaseDriver relay_db ledger_error W}.
Abbreviation db_call := (call W ledger_error).

Record EnqueueParams := {
  ep_motebitId : string;
  ep_amountMicro : js_number;
  ep_destination : string;
  ep_rail : string;
  ep_source : sweep_source;
  ep_idempotencyKey : option string;
}.

(** [pendingUuid] and [uuid]: the queue row's id and its ledger row's. *)
Definition enqueuePendingWithdrawal (params : EnqueueParams) (pendingUuid uuid : string) (now : Z) : db_call (option string) :=
  check (assertPositiveMicro (ep_amountMicro params)) (fun amount =>
  let! wa := @computeWithdrawableAvailable W (sqliteAccountStoreFor now uuid) (ep_motebitId params) in
  if available wa <? amount then call_ret None else
  let! result := debitAndEnqueuePending {|
    ea_motebitId := ep_motebitId params; ea_amountMicro := ep_amountMicro params; ea_destination := ep_destination params;
    ea_rail := ep_rail params; ea_source := ep_source params; ea_idempotencyKey := ep_idempotencyKey params;
    ea_pendingId := None; ea_description := None |} pendingUuid uuid now in
  call_ret (fst <$> result)).

(** [UPDATE relay_pending_withdrawals SET f WHERE cond]: the rows it changed. *)
Definition update_queue (cond : pending_row -> bool) (f : pending_row -> pending_row) : db_call nat :=
  run_sql (fun d => Ok (changes cond (relay_pending_withdrawals d), upd_pending (update_rows cond f) d)).

Definition select_row (id : string) : db_call (option pending_row) :=
  select (fun d => List.find (fun r => bool_decide (pid r = id)) (relay_pending_withdrawals d)).

(** Row by row: a refused claim throws out of the pass. *)
Fixpoint claimForFiring (pendingIds : list string) (now : Z) : db_call (list PendingRow) :=
  match pendingIds with
  | [] => call_ret []
  | id :: rest =>
      let! info := update_queue (row_in id q_pending)
                     (fun r => set_queue q_firing (last_error r) now r) in
      let! row := if decide (info = 0%nat) then call_ret None else select_row id in
      let! claimed := claimForFiring rest now in
      call_ret (match row with Some r => pw r :: claimed | None => claimed end)
  end.

Definition settleOwedRefund (pendingId : string) (now : Z) (uuid : string) : db_call bool :=
  call_catch (refundPendingWithdrawal pendingId now uuid now)
    (fun err => if isEmergencyFrozenAbort err then call_ret false else call_throw err).

Definition refundNotSent (row : PendingRow) (reason : string) (now : Z) (uuid : string) : db_call unit :=
  let! info := update_queue (row_in (pr_pendingId row) q_firing) (set_queue q_refund_owed (Some reason) now) in
  if decide (info = 0%nat) then call_ret tt else
  settleOwedRefund (pr_pendingId row) now uuid ;! call_ret tt.

Definition recordFiredWithdrawal (row : PendingRow) (fired : FiredRecord) (now : Z) (failureReason : option string)
    (withdrawalId : string) : db_call string :=
  run_sql (fun d => match insert_row same_withdrawal (fired_withdrawal row fired now failureReason withdrawalId)
                            (relay_withdrawals d) with
                    | Ok rows => Ok (tt, upd_withdrawals (fun _ => rows) d)
                    | Throw e => Throw e
                    end) ;!
  call_ret withdrawalId.

Definition link_withdrawal (id withdrawalId : string) : db_call unit :=
  update_queue (fun r => bool_decide (pid r = id)) (fun r => {|
    pw := pw r; last_attempt_at := last_attempt_at r; last_error := last_error r;
    linked_withdrawal := Some withdrawalId |}) ;!
  call_ret tt.

Definition unresolved_note (row : PendingRow) (reason : string) : string :=
  String.append "unresolved payout: batched withdrawal " (String.append (pr_pendingId row)
    (String.append " failed (" (String.append reason
      "); the transfer may have been submitted — reconcile on chain before completing or failing"))).

Definition holdUnknown (r : option rail) (row : PendingRow) (reason : string) (now : Z) (uuid : string) : db_call (option string) :=
  run_transaction (
    let! info := update_queue (row_in (pr_pendingId row) q_firing) (set_queue q_unknown (Some reason) now) in
    if decide (info = 0%nat) then call_ret None else
    let! id := recordFiredWithdrawal row {|
      fr_status := processing; payoutReference := None;
      payoutValidUntil := Some (now + default UNDECLARED_PAYOUT_HORIZON_MS (r ≫= payoutValidityMsOf)) |}
      now (Some (unresolved_note row reason)) uuid in
    link_withdrawal (pr_pendingId row) id ;!
    call_ret (Some id)).

Definition markFailed (r : option rail) (row : PendingRow) (err : rail_error) (now : Z) (uuid : string) : db_call unit :=
  match failureOutcome r err with
  | not_sent => refundNotSent row (message err) now uuid
  | outcome_unknown => holdUnknown r row (message err) now uuid ;! call_ret tt
  end.

Definition markFired (row : PendingRow) (fired : FiredRecord) (now : Z) (uuid : string) : db_call (option string) :=
  run_transaction (
    let! info := update_queue (row_in (pr_pendingId row) q_firing) (fun r => set_queue q_fired (last_error r) now r) in
    if decide (info = 0%nat) then call_ret None else
    let! id := recordFiredWithdrawal row fired now None uuid in
    link_withdrawal (pr_pendingId row) id ;!
    call_ret (Some id)).

(** [ORDER BY enqueued_at ASC]; of equal times the table's order. *)
Definition queued_for (railName : string) : db_call (list PendingRow) :=
  select (fun d => js_sort (fun a b => bool_decide (pr_enqueuedAt a <= pr_enqueuedAt b))
    (List.filter (fun r => bool_decide (pr_rail r = railName) && bool_decide (pr_status r = q_pending))
       (pw <$> relay_pending_withdrawals d))).

Definition settleOwedRefunds (now : Z) (mint : string -> string) : db_call unit :=
  let! owed := select (fun d => pid <$> List.filter (fun r => bool_decide (pst r = q_refund_owed)) (relay_pending_withdrawals d)) in
  foldr (fun id k => settleOwedRefund id now (mint id) ;! k) (call_ret tt) owed.
End queue.

(** ** A pass of the loop *)

Record process := { p_db : relay_db; firingHere : gset string }.

(** Where a pass awaits its rail.  [rest] is what the serial loop has left; with
    [claimEach] each is claimed before its own send, else all were claimed at once and
    [claimed] is what the enclosing [finally] deletes. *)
Inductive awaiting :=
| awaits_payout (r : rail) (row : PendingRow) (rest : list PendingRow) (claimEach : bool) (claimed : list string)
| awaits_batch (r : rail) (rows : list PendingRow).

Inductive progress := awaits (w : awaiting) | rail_done.

(** A pass that awaits, with the rails it has not come to. *)
Record suspended := { sp_wait : awaiting; sp_rails : list rail }.

Inductive rail_answer :=
| answers_payout (a : result rail_error WithdrawalResult)
| answers_batch (a : result rail_error BatchWithdrawalResult).

(** What a turn reads: the freeze, the clock, the ids. *)
Record turn_input := { ti_frozen : bool; ti_now : Z; ti_mint : string -> string }.

Definition item_key (row : PendingRow) : string :=
  default (String.append "pending-" (pr_pendingId row)) (pr_idempotencyKey row).

Section loop.
Context (config : BatchWithdrawalConfig) (i : turn_input).
Abbreviation now := (ti_now i).
Abbreviation mint := (ti_mint i).
Abbreviation proc_call := (call process ledger_error).
#[local] Instance relay_driver : DatabaseDriver relay_db ledger_error relay_db := FreezeDriver (ti_frozen i).

Definition on_db {A} (m : call relay_db ledger_error A) : proc_call A := fun p =>
  let '(r, d) := m (p_db p) in (r, {| p_db := d; firingHere := firingHere p |}).
Definition here_add (ids : list string) : proc_call unit := fun p =>
  (Ok tt, {| p_db := p_db p; firingHere := firingHere p ∪ list_to_set ids |}).
Definition here_delete (ids : list string) : proc_call unit := fun p =>
  (Ok tt, {| p_db := p_db p; firingHere := firingHere p ∖ list_to_set ids |}).

(** [try { m } finally { f }] *)
Definition call_finally {A} (m : proc_call A) (f : proc_call unit) : proc_call A := fun p =>
  let '(r, p1) := m p in (r, (f p1).2).

(** The [finally] around a batch: it runs once the batch no longer awaits. *)
Definition closing (claimed : list string) (m : proc_call progress) : proc_call progress := fun p =>
  match m p with
  | (Ok (awaits w), p1) => (Ok (awaits w), p1)
  | (r, p1) => (r, (here_delete claimed p1).2)
  end.

(** Up to the first send of what is left. *)
Fixpoint fireSerial (r : rail) (claimEach : bool) (claimed : list string) (candidates : list PendingRow) : proc_call progress :=
  match candidates with
  | [] => call_ret rail_done
  | candidate :: rest =>
      let! row := if claimEach
                  then let! l := on_db (claimForFiring [pr_pendingId candidate] now) in call_ret (hd_error l)
                  else call_ret (Some candidate) in
      match row with
      | None => fireSerial r claimEach claimed rest
      | Some row =>
          here_add [pr_pendingId row] ;!
          call_ret (awaits (awaits_payout r row rest claimEach claimed))
      end
  end.

Definition fireBatch (r : rail) (rows : list PendingRow) : proc_call progress :=
  if decide (NoDup (item_key <$> rows)) then call_ret (awaits (awaits_batch r rows))
  else fireSerial r false (pr_pendingId <$> rows) rows.

Definition evaluateAndFireRail (r : rail) : proc_call progress :=
  let! rows := on_db (queued_for (rail_name r)) in
  match rows with
  | [] => call_ret rail_done
  | first :: _ =>
      let aggregated := fold_left (fun sum x => js_add sum (Number (pr_amountMicro x))) rows (Number 0) in
      let oldestAge := Number (now - pr_enqueuedAt first) in
      match shouldBatchSettle aggregated (resolveFeeEstimate config (rail_name r)) oldestAge
              (resolvePolicy config (rail_name r)) with
      | Throw _ => call_throw RangeError_batch_inputs
      | Ok false => call_ret rail_done
      | Ok true =>
          if supportsBatch r then
            let! claimed := on_db (claimForFiring (pr_pendingId <$> rows) now) in
            match claimed with
            | [] => call_ret rail_done
            | _ => here_add (pr_pendingId <$> claimed) ;! closing (pr_pendingId <$> claimed) (fireBatch r claimed)
            end
          else fireSerial r true [] rows
      end
  end.

Fixpoint fireRails (rails : list rail) : proc_call (option suspended) :=
  match rails with
  | [] => call_ret None
  | r :: rest =>
      let! p := evaluateAndFireRail r in
      match p with
      | awaits w => call_ret (Some {| sp_wait := w; sp_rails := rest |})
      | rail_done => fireRails rest
      end
  end.

(** ** Recovery *)

Definition recover_error (earlierLife : bool) : rail_error := {|
  payoutNotSent := false;
  message := if earlierLife then "the process died while this payout was being sent"
             else "the send's outcome was never recorded" |}.

Definition find_rail (rails : list rail) (name : string) : option rail :=
  List.find (fun r => bool_decide (rail_name r = name)) rails.

Definition recoverRow (rails : list rail) (processStartedAt : Z) (row : pending_row) : proc_call unit := fun p =>
  let claimedAt := default 0 (last_attempt_at row) in
  let earlierLife := claimedAt <? processStartedAt in
  if negb earlierLife && (bool_decide (pid row ∈ firingHere p) || (now - claimedAt <? STALE_FIRING_MS)) then (Ok tt, p)
  else on_db (markFailed (find_rail rails (pr_rail (pw row))) (pw row) (recover_error earlierLife) now (mint (pid row))) p.

Definition recoverFiring (rails : list rail) (processStartedAt : Z) : proc_call unit :=
  let! rows := on_db (select (fun d => List.filter (fun r => bool_decide (pst r = q_firing)) (relay_pending_withdrawals d))) in
  foldr (fun row k => recoverRow rails processStartedAt row ;! k) (call_ret tt) rows.

(** One tick, up to its first await. *)
Definition runBatchWithdrawalTick (rails : list rail) (processStartedAt : Z) : proc_call (option suspended) :=
  let withdrawableRails := List.filter supportsWithdraw rails in
  recoverFiring withdrawableRails processStartedAt ;!
  on_db (settleOwedRefunds now mint) ;!
  fireRails withdrawableRails.

(** ** The answer of a rail *)

Definition payout_answered (r : rail) (row : PendingRow) (a : result rail_error WithdrawalResult) : proc_call unit :=
  call_finally
    (match a with
     | Throw err => on_db (markFailed (Some r) row err now (mint (pr_pendingId row)))
     | Ok res => on_db (markFired row (firedRecordFor r res now) now (mint (pr_pendingId row)) ;! call_ret tt)
     end)
    (here_delete [pr_pendingId row]).

(** The item of an answer: its row, unless there is none or it was answered before. *)
Definition item_row (rows : list PendingRow) (answered : list string) (key : string) : option PendingRow :=
  match List.find (fun row => bool_decide (item_key row = key)) rows with
  | Some row => if bool_decide (pr_pendingId row ∈ answered) then None else Some row
  | None => None
  end.

Fixpoint mark_fired_items (r : rail) (rows : list PendingRow) (items : list (string * WithdrawalResult)) (answered : list string)
    : call relay_db ledger_error (list string) :=
  match items with
  | [] => call_ret answered
  | (key, res) :: rest =>
      match item_row rows answered key with
      | None => mark_fired_items r rows rest answered
      | Some row =>
          markFired row (firedRecordFor r res now) now (mint (pr_pendingId row)) ;!
          mark_fired_items r rows rest (pr_pendingId row :: answered)
      end
  end.

Fixpoint mark_failed_items (r : rail) (rows : list PendingRow) (items : list (string * string)) (answered : list string)
    : call relay_db ledger_error unit :=
  match items with
  | [] => call_ret tt
  | (key, reason) :: rest =>
      match item_row rows answered key with
      | None => mark_failed_items r rows rest answered
      | Some row =>
          markFailed (Some r) row {| payoutNotSent := false; message := reason |} now (mint (pr_pendingId row)) ;!
          mark_failed_items r rows rest (pr_pendingId row :: answered)
      end
  end.

(** Rows the rail did not answer for stay [firing]. *)
Definition batch_answered (r : rail) (rows : list PendingRow) (a : result rail_error BatchWithdrawalResult)
    : call relay_db ledger_error unit :=
  match a with
  | Throw err =>
      foldr (fun row k => markFailed (Some r) row err now (mint (pr_pendingId row)) ;! k) (call_ret tt) rows
  | Ok res =>
      let! answered := mark_fired_items r rows (fired_items res) [] in
      mark_failed_items r rows (failed_items res) answered
  end.

(** The pass goes on: an answer of the other kind is not one. *)
Definition resume (s : suspended) (a : rail_answer) : proc_call (option suspended) :=
  let next (m : proc_call progress) : proc_call (option suspended) :=
    let! p := m in
    match p with
    | awaits w => call_ret (Some {| sp_wait := w; sp_rails := sp_rails s |})
    | rail_done => fireRails (sp_rails s)
    end in
  match sp_wait s, a with
  | awaits_payout r row rest claimEach claimed, answers_payout a =>
      next (closing claimed (payout_answered r row a ;! fireSerial r claimEach claimed rest))
  | awaits_batch r rows, answers_batch a =>
      next (closing (pr_pendingId <$> rows) (on_db (batch_answered r rows a) ;! call_ret rail_done))
  | _, _ => call_ret (Some s)
  end.
End loop.
