(* ===== verification/EscrowRuns.v ===== *)
(** * Sequences of movements

    What a transaction of [EscrowCallers] does to the escrow: movements of the
    chokepoint, between statements that touch only statuses, markers and other
    tables.  What is held, the balances and the sum of both follow from the list of
    the movements. *)

From Stdlib Require Import String.
From S2P Require Import Prelude Float64 JsMap JsString TaskTypes TaskQueue LedgerTypes Driver SqlStore SqlRefines.
From S2P Require Import Escrow EscrowLaws EscrowCallers.
Local Open Scope Z_scope.
Local Open Scope motebit_scope.

(** ** Statements that move no money *)

Definition al_key (x : allocation_row) : string * string * string :=
  (al_allocation_id x, al_task_id x, al_motebit_id x).

Definition locked_task (taskId : string) (d : relay_db) : bool :=
  existsb (fun x => of_task taskId x && in_status "locked" x) (relay_allocations d).

Record quiet (d d' : relay_db) : Prop := {
  q_accounts : relay_accounts d' = relay_accounts d;
  q_transactions : relay_transactions d' = relay_transactions d;
  q_settlements : relay_settlements d' = relay_settlements d;
  q_forwards : relay_federation_settlements d' = relay_federation_settlements d;
  q_fees : relay_allocation_fees d' = relay_allocation_fees d;
  q_allocations : al_key <$> relay_allocations d' = al_key <$> relay_allocations d;
  q_locked : forall t, locked_task t d' = true -> locked_task t d = true;
  q_claims : forall c, c ∈ relay_dispute_fund_actions d -> c ∈ relay_dispute_fund_actions d';
}.

#[export] Instance quiet_preorder : PreOrder quiet.
Proof.
  split; [by intros d|]. intros d1 d2 d3 [] []. split; try congruence; auto.
Qed.

Lemma quiet_held x d d' : quiet d d' -> held_stamped x d' = held_stamped x d.
Proof. intros []. unfold held_stamped. congruence. Qed.

Lemma quiet_balance i d d' : quiet d d' -> sql_balance i d' = sql_balance i d.
Proof. intros []. unfold sql_balance, find_account. by rewrite q_accounts0. Qed.

Lemma al_ids_of (l l' : list allocation_row) : al_key <$> l' = al_key <$> l -> al_allocation_id <$> l' = al_allocation_id <$> l.
Proof.
  intros E. assert (forall l0 : list allocation_row, al_allocation_id <$> l0 = (fun k => k.1.1) <$> (al_key <$> l0)) as H
    by (intros l0; rewrite <- list_fmap_compose; by apply list_fmap_ext).
  by rewrite !H, E.
Qed.

Lemma quiet_wf d d' : quiet d d' -> escrow_wf d -> escrow_wf d'.
Proof.
  intros [Ea Et Es Ef Ej Ek _ _] [H1 H2 H3 H4 H5 H6 H7]. assert (settlement_rows d' = settlement_rows d) as Es'
    by (unfold settlement_rows; by rewrite Es).
  split; rewrite ?Ea, ?Et, ?Ef, ?Es'; try done.
  - by rewrite (al_ids_of _ _ Ek).
  - intros s Hs t. rewrite Et. by apply H5.
  - intros s Hs Hm. unfold journalled. rewrite Ej. by apply H6.
Qed.

Lemma locked_updated cond f t d : (forall x, al_key (f x) = al_key x) ->
  (forall x, in_status "locked" (f x) = true -> in_status "locked" x = true) ->
  locked_task t (upd_allocations (update_rows cond f) d) = true -> locked_task t d = true.
Proof.
  intros Hk Hl. unfold locked_task. cbn. unfold update_rows. induction (relay_allocations d) as [|x l IH]; [done|]. cbn.
  intros [H|H]%orb_true_iff; apply orb_true_iff; [left|by right; apply IH]. destruct (cond x); [|done].
  apply andb_true_iff in H as [Ht Hs]. apply andb_true_iff. split; [|by apply Hl].
  unfold of_task in *. specialize (Hk x). unfold al_key in Hk. injection Hk as _ <- _. done.
Qed.

Lemma quiet_allocations cond f d : (forall x, al_key (f x) = al_key x) ->
  (forall x, in_status "locked" (f x) = true -> in_status "locked" x = true) ->
  quiet d (upd_allocations (update_rows cond f) d).
Proof.
  intros Hf Hl. split; try done.
  - cbn. unfold update_rows. rewrite <- list_fmap_compose. apply list_fmap_ext. intros _ x _. cbn. by destruct (cond x).
  - intros t. by apply locked_updated.
Qed.

(** ** Sequences *)

Inductive moves : list (AllocationMove * string) -> relay_db -> relay_db -> Prop :=
| moves_nil d : moves [] d d
| moves_quiet l d d1 d2 : moves l d d1 -> quiet d1 d2 -> moves l d d2
| moves_move l m uuid d d1 d2 : moves l d d1 -> effect m uuid d1 d2 ->
    (0 <= held_change m \/ - held_change m <= heldSql (move_allocation m) d1) -> moves (l ++ [(m, uuid)]) d d2.

Definition held_by (x : string) (p : AllocationMove * string) : Z :=
  if decide (x = move_allocation p.1) then held_change p.1 else 0.
(** The ids of the ledger rows it posts. *)
Definition drawn (l : list (AllocationMove * string)) : list string :=
  omap (fun p => match party_of p.1 with Some _ => Some p.2 | None => None end) l.
Definition gained_by (i : string) (p : AllocationMove * string) : Z :=
  if decide (party_of p.1 = Some i) then balance_change p.1 else 0.

Lemma moves_app l1 l2 d d1 d2 : moves l1 d d1 -> moves l2 d1 d2 -> moves (l1 ++ l2) d d2.
Proof.
  intros H1 H2. revert H1. induction H2 as [d1|l d1 d2 d3 _ IH Hq|l m uuid d1 d2 d3 _ IH He Hle]; intros H1.
  - by rewrite app_nil_r.
  - eapply moves_quiet; [by apply IH|done].
  - rewrite app_assoc. eapply moves_move; [by apply IH|done|done].
Qed.

(** Everything a sequence does. *)
Record moved_all (l : list (AllocationMove * string)) (d d' : relay_db) : Prop := {
  ma_wf : escrow_wf d';
  ma_held : forall x, heldSql x d' = heldSql x d + zsum (held_by x) l;
  ma_balance : forall i, sql_balance i d' = sql_balance i d + zsum (gained_by i) l;
  ma_total : total_balance d' = total_balance d + zsum (fun p => balance_change p.1) l;
  ma_keys : al_key <$> relay_allocations d' = al_key <$> relay_allocations d;
  ma_rows : exists rows, relay_transactions d' = relay_transactions d ++ rows /\
    forall t, t ∈ rows -> is_Some (allocation_id t) /\ transaction_id (txn t) ∈ drawn l /\
      (tx_type (txn t) = allocation_hold -> exists p, p ∈ l /\ is_hold_move p.1 = true);
  ma_locked : forall t, locked_task t d' = true -> locked_task t d = true;
  ma_ok : (forall a, 0 <= heldSql a d) -> forall a, 0 <= heldSql a d';
}.

Lemma moves_all l d d' : escrow_wf d -> moves l d d' -> moved_all l d d'.
Proof.
  intros Hw Hm. induction Hm as [d|l d d1 d2 _ IH Hq|l m uuid d d1 d2 _ IH He Hle].
  - split; try done; try (intros; cbn; lia). exists []. split; [by rewrite app_nil_r|]. by intros t ?%elem_of_nil.
  - destruct (IH Hw) as [W H B T K R L O]. pose proof (quiet_wf _ _ Hq W) as W2.
    assert (forall a, heldSql a d2 = heldSql a d1) as E
      by (intros a; rewrite (heldSql_stamped a d2 W2), (heldSql_stamped a d1 W); by apply quiet_held).
    split; try done.
    + intros x. by rewrite E.
    + intros i. by rewrite (quiet_balance i _ _ Hq).
    + rewrite <- T. unfold total_balance. by rewrite (q_accounts _ _ Hq).
    + by rewrite (q_allocations _ _ Hq).
    + by rewrite (q_transactions _ _ Hq).
    + intros t Ht. by apply L, (q_locked _ _ Hq).
    + intros Ha a. rewrite E. by apply O.
  - destruct (IH Hw) as [W H B T K R L O]. pose proof (ef_wf _ _ _ _ He) as W2.
    assert (forall x, heldSql x d2 = heldSql x d1 + held_by x (m, uuid)) as E.
    { intros x. rewrite (heldSql_stamped x d2 W2), (heldSql_stamped x d1 W), (ef_held _ _ _ _ He). done. }
    split; try done.
    + intros x. rewrite E, H, zsum_app. cbn [zsum]. lia.
    + intros i. rewrite (ef_balance _ _ _ _ He), B, zsum_app. cbn [zsum]. unfold gained_by at 3. cbn [fst]. lia.
    + rewrite (ef_total _ _ _ _ He), T, zsum_app. cbn. lia.
    + by rewrite (ef_alloc _ _ _ _ He).
    + destruct R as (rows & Er & Hr), (ef_rows _ _ _ _ He) as (rows' & Er' & Hr'). exists (rows ++ rows').
      rewrite Er', Er, app_assoc. split; [done|]. intros t [Ht|Ht]%elem_of_app; unfold drawn; rewrite omap_app, elem_of_app.
      * destruct (Hr t Ht) as (? & ? & Hh). split; [done|]. split; [by left|]. intros Hty.
        destruct (Hh Hty) as (p & Hp & ?). exists p. split; [by apply elem_of_app; left|done].
      * destruct (Hr' t Ht) as (? & -> & [i Hi] & Hh). split; [done|]. split; [right; cbn; rewrite Hi; by left|]. intros Hty. exists (m, uuid).
        split; [apply elem_of_app; right; by left|by apply Hh].
    + intros t. unfold locked_task. rewrite (ef_alloc _ _ _ _ He). apply L.
    + intros Ha a. rewrite E. specialize (O Ha a). unfold held_by. cbn [fst]. case_decide; [subst|]; lia.
Qed.

Lemma moves_fresh u l d d' : escrow_wf d -> moves l d d' -> u ∉ drawn l -> fresh_uuid u d -> fresh_uuid u d'.
Proof.
  intros Hw Hm Hu Hf. destruct (ma_rows _ _ _ (moves_all _ _ _ Hw Hm)) as (rows & E & Hr). unfold fresh_uuid in *.
  rewrite E. apply Forall_app. split; [done|]. apply Forall_forall. intros t Ht Hx.
  apply Hu. rewrite <- Hx. by destruct (Hr t Ht) as (_ & ? & _).
Qed.

Lemma moves_unreferenced sid l d d' : escrow_wf d -> moves l d d' -> unreferenced sid d -> unreferenced sid d'.
Proof.
  intros Hw Hm Hu t Ht Hn. destruct (ma_rows _ _ _ (moves_all _ _ _ Hw Hm)) as (rows & E & Hr).
  rewrite E in Ht. apply elem_of_app in Ht as [Ht|Ht]; [by apply Hu|]. destruct (Hr t Ht) as ([? ?] & _). congruence.
Qed.

(** A claimed fund action stays claimed. *)
Lemma moves_claims c l d d' : moves l d d' -> c ∈ relay_dispute_fund_actions d -> c ∈ relay_dispute_fund_actions d'.
Proof.
  induction 1 as [d|l d d1 d2 _ IH Hq|l m uuid d d1 d2 _ IH He Hle]; intros Hc; [done| |].
  - by apply (q_claims _ _ Hq), IH.
  - rewrite (ef_claims _ _ _ _ He). by apply IH.
Qed.

(** An allocation stays, with its task and its worker. *)
Lemma find_key a d d' x : al_key <$> relay_allocations d' = al_key <$> relay_allocations d ->
  find_allocation a d = Some x -> exists x', find_allocation a d' = Some x' /\ al_key x' = al_key x.
Proof.
  unfold find_allocation. generalize (relay_allocations d) as l, (relay_allocations d') as l'.
  intros l. induction l as [|y l IH]; intros [|y' l'] E; try done. injection E as E1 E2 E3 E. cbn [List.find].
  rewrite E1. case_bool_decide.
  - intros [= <-]. exists y'. split; [done|]. unfold al_key. congruence.
  - by apply IH.
Qed.

(** The hold payers are those of the holds. *)
Lemma moves_payers l d d' a : escrow_wf d -> moves l d d' -> Forall (fun p => is_hold_move p.1 = false) l ->
  hold_payers a d' = hold_payers a d.
Proof.
  intros Hw Hm Hl. destruct (ma_rows _ _ _ (moves_all _ _ _ Hw Hm)) as (rows & E & Hr).
  unfold hold_payers. rewrite E, List.filter_app, fmap_app.
  assert (List.filter (is_hold a) rows = []) as ->; [|by rewrite app_nil_r].
  clear E. induction rows as [|t rows IH]; [done|]. cbn. unfold is_hold at 1. case_bool_decide as Hty; cbn [andb].
  - destruct (Hr t ltac:(by left)) as (_ & _ & H). destruct (H Hty) as (p & Hp & Hh).
    rewrite Forall_forall in Hl. specialize (Hl p Hp). congruence.
  - apply IH. intros t' Ht'. apply Hr. by right.
Qed.

(** Each payment went to whom it was owed, when it was made. *)
Lemma moves_entitled l d d' p : moves l d d' -> p ∈ l -> 0 < balance_change p.1 ->
  exists i l1 l2 d1, party_of p.1 = Some i /\ entitled p.1 i d1 /\ l = l1 ++ p :: l2 /\ moves l1 d d1.
Proof.
  induction 1 as [d|l d d1 d2 _ IH Hq|l m uuid d d1 d2 Hm IH He Hle]; intros Hp Hb; [by apply elem_of_nil in Hp|by apply IH|].
  apply elem_of_app in Hp as [Hp| ->%list_elem_of_singleton].
  - destruct (IH Hp Hb) as (i & l1 & l2 & d0 & ? & ? & -> & ?). exists i, l1, (l2 ++ [(m, uuid)]), d0.
    split; [done|]. split; [done|]. split; [|done]. by rewrite <- app_assoc.
  - destruct (ef_entitled _ _ _ _ He Hb) as (i & ? & ?). by exists i, l, [], d1.
Qed.

(** What returns to the hold payer returns to the one of the start. *)
Lemma moves_refunded l d d' m uuid a p : escrow_wf d -> moves l d d' -> Forall (fun p => is_hold_move p.1 = false) l ->
  (m, uuid) ∈ l -> (forall i d1, entitled m i d1 -> hold_payer a d1 = Some i) -> party_of m = Some p ->
  0 < balance_change m -> hold_payer a d = Some p.
Proof.
  intros Hw Hm Hl Hin Hent Hp Hb. destruct (moves_entitled _ _ _ _ Hm Hin Hb) as (i & l1 & l2 & d1 & Hi & He & -> & Hm1).
  cbn in Hi, He. apply Hent in He. rewrite Hp in Hi. injection Hi as <-.
  unfold hold_payer in *. by rewrite <- (moves_payers l1 d d1 a Hw Hm1 (proj1 (proj1 (Forall_app _ _ _) Hl))).
Qed.

(** ** Running the pieces *)

Section pieces.
Context (frozen : bool) (now : Z).
Implicit Types (d : relay_db).

Lemma when_ok b (m : call relay_db ledger_error unit) d d' : call_when b m d = (Ok tt, d') ->
  (b = true /\ m d = (Ok tt, d')) \/ (b = false /\ d' = d).
Proof. destruct b; [by left|]. intros [= <-]. by right. Qed.

Lemma catch_ok {A} (m : call relay_db ledger_error A) h d a d' : call_catch m h d = (Ok a, d') ->
  m d = (Ok a, d') \/ exists e d1, m d = (Throw e, d1) /\ h e d1 = (Ok a, d').
Proof. unfold call_catch. destruct (m d) as [[b|e] d1]; [by left|]. intros H. right. by exists e, d1. Qed.

Lemma txn_committed {A} (m : call relay_db ledger_error A) d a d' :
  run (run_transaction m) d = (Ok a, d') -> m d = (Ok a, d').
Proof. cbn. unfold all_or_nothing. by destruct (m d) as [[b|e] d1]. Qed.

Lemma catch_runs {A} (m : call relay_db ledger_error A) h d a d' : m d = (Ok a, d') -> call_catch m h d = (Ok a, d').
Proof. unfold call_catch. by intros ->. Qed.

Lemma transaction_runs {A} (m : call relay_db ledger_error A) d a d' :
  m d = (Ok a, d') -> run (run_transaction m) d = (Ok a, d').
Proof. cbn. unfold all_or_nothing. by intros ->. Qed.

Lemma txn_rolled_back {A} (m : call relay_db ledger_error A) d e d' :
  run (run_transaction m) d = (Throw e, d') -> d' = d.
Proof. cbn. unfold all_or_nothing. destruct (m d) as [[b|e'] d1]; [done|]. by intros [= _ <-]. Qed.

Lemma move_moves m uuid d d' : escrow_wf d -> move_fits m uuid d ->
  run (moveAllocationMoney frozen m uuid now) d = (Ok tt, d') -> moves [(m, uuid)] d d'.
Proof.
  intros Hw Hf H. destruct (move_effect _ _ _ _ _ _ Hw Hf H) as [He Hle].
  exact (moves_move [] m uuid d d d' (moves_nil d) He Hle).
Qed.

Lemma move_amount_ok m uuid d d' : run (moveAllocationMoney frozen m uuid now) d = (Ok tt, d') ->
  0 <= amount_of m /\ move_amount m = JInt (amount_of m).
Proof.
  unfold moveAllocationMoney. destruct frozen; [done|]. destruct (safe_amount (move_amount m)) as [z|e] eqn:E; [|done].
  intros _. apply safe_amount_inv in E as [E Hz]. unfold amount_of. by rewrite E.
Qed.

Lemma safe_amount_of z : 0 <= z <= MAX_SAFE_INTEGER -> Number_isSafeInteger (JInt z) = true.
Proof. intros Hz. cbn. apply bool_decide_eq_true. unfold MAX_SAFE_INTEGER in *. lia. Qed.

Lemma update_allocations_runs cond f d : exists n d', run (update_allocations cond f) d = (Ok n, d').
Proof. by eexists _, _. Qed.

Lemma allocationHeld_runs a d : run (allocationHeld a) d = (Ok (Z.max 0 (heldSql a d)), d).
Proof. done. Qed.

(** A movement out of the escrow gets past the guards. *)
Lemma out_runs m z alloc uuid d : move_amount m = JInt z -> Number_isSafeInteger (JInt z) = true -> 0 <= z ->
  find_allocation (move_allocation m) d = Some alloc -> z <= heldSql (move_allocation m) d ->
  match m with Hold _ _ _ _ | ForwardReturn _ _ _ | DisputeMove dispute_clawback _ _ _ _ _ => False | _ => True end ->
  run (moveAllocationMoney false m uuid now) d = run (move_out alloc m z uuid now) d.
Proof.
  intros Hm Hs Hz Hx Hh Hk. unfold moveAllocationMoney. rewrite Hm. unfold safe_amount. rewrite Hs, (proj2 (Z.leb_le 0 z)) by done.
  cbn [andb check]. assert (run (select (find_allocation (move_allocation m))) d = (Ok (Some alloc), d)) as E1
    by (cbn; unfold stmt_fn; by rewrite Hx).
  rewrite (call_bind_run _ _ _ _ _ E1). assert (forall a, run (allocationHeldRaw a) d = (Ok (heldSql a d), d)) as E2 by done.
  destruct m as [| | | | | |[]]; try done; rewrite (call_bind_run _ _ _ _ _ (E2 _)); by rewrite (proj2 (Z.ltb_ge _ _)).
Qed.

Lemma pay_holder_runs a z p ty ref desc kind uuid d : escrow_wf d -> fresh_uuid uuid d -> hold_payer a d = Some p -> 0 < z ->
  exists d' row, run (pay_hold_payer a z p ty ref desc kind uuid now) d = (Ok tt, d') /\ moved p z [row] d d'.
Proof.
  intros Hw Hu Hp Hz. unfold pay_hold_payer. rewrite (proj2 (Z.eqb_neq z 0)) by lia.
  assert (run (allocationHoldPayer a) d = (Ok (Some p), d)) as E by (cbn; unfold stmt_fn; by rewrite Hp).
  rewrite (call_bind_run _ _ _ _ _ E). rewrite bool_decide_true by done. cbn [negb].
  destruct (credit_pure p z ty (Some ref) (Some desc) (stamp a kind) uuid now d (ew_accounts _ Hw) Hu)
    as (d2 & E2 & Hm). rewrite (call_bind_run _ _ _ _ _ E2). by eexists d2, _.
Qed.

Lemma update_allocations_ok cond f d n d' : (forall x, al_key (f x) = al_key x) ->
  (forall x, in_status "locked" (f x) = true -> in_status "locked" x = true) ->
  run (update_allocations cond f) d = (Ok n, d') ->
  n = changes cond (relay_allocations d) /\ d' = upd_allocations (update_rows cond f) d /\ quiet d d'.
Proof.
  intros Hf Hl [= <- <-]. split; [done|]. split; [done|]. by apply quiet_allocations.
Qed.

Lemma update_disputes_ok cond f d n d' : run (update_disputes cond f) d = (Ok n, d') -> quiet d d'.
Proof.
  unfold update_disputes. cbn. unfold stmt_fn. destruct (relay_disputes d) as [rows|]; [|done]. by intros [= _ <-].
Qed.

Lemma changes_pos {R} (cond : R -> bool) rows : (0 <? Z.of_nat (changes cond rows)) = existsb cond rows.
Proof.
  unfold changes. induction rows as [|r rows IH]; [done|]. cbn [List.filter existsb].
  destruct (cond r); cbn [length orb]; [apply Z.ltb_lt; lia|done].
Qed.

Lemma claim_locked_ok taskId d b d' : run (claim_locked taskId) d = (Ok b, d') ->
  quiet d d' /\ b = locked_task taskId d /\ locked_task taskId d' = false.
Proof.
  unfold claim_locked. intros (n & d1 & H & [= <- <-])%call_bind_ok.
  apply update_allocations_ok in H as (-> & -> & Hq); [|done|done]. split; [done|]. split; [apply changes_pos|].
  unfold locked_task. cbn. unfold update_rows. induction (relay_allocations d) as [|x l IH]; [done|]. cbn.
  rewrite IH, orb_false_r. destruct (of_task taskId x && in_status "locked" x) eqn:E; [by rewrite andb_false_r|done].
Qed.
End pieces.
