(* ===== verification/EscrowDemo.v ===== *)
(** * Escrow states to evaluate

    A decision of the escrow's invariant and the small databases the instances of its
    properties are computed on: an account with money, and a task it funded. *)

From Stdlib Require Import String.
From S2P Require Import Prelude Float64 JsMap JsString TaskTypes TaskQueue LedgerTypes Driver SqlStore SqlRefines.
From S2P Require Import Escrow EscrowLaws EscrowCallers EscrowRuns.
Local Open Scope Z_scope.
Local Open Scope motebit_scope.

(** ** Deciding the invariant *)

Definition unreferencedb (sid : string) (d : relay_db) : bool :=
  forallb (fun t => bool_decide (is_Some (allocation_id t)) || negb (bool_decide (tx_type (txn t) = settlement_credit)) ||
                    negb (bool_decide (reference_id (txn t) = Some sid))) (relay_transactions d).

Definition escrow_wfb (d : relay_db) : bool :=
  bool_decide (NoDup (va_motebit_id <$> relay_accounts d)) &&
  bool_decide (NoDup (al_allocation_id <$> relay_allocations d)) &&
  bool_decide (NoDup (f_settlement_id <$> relay_federation_settlements d)) &&
  forallb (fun t => bool_decide (is_Some (allocation_id t)) ||
    (negb (bool_decide (tx_type (txn t) = allocation_hold)) && negb (bool_decide (tx_type (txn t) = allocation_release))))
    (relay_transactions d) &&
  forallb (fun s => unreferencedb (st_settlement_id s) d) (settlement_rows d) &&
  forallb (fun s => negb (relay_mode s) || (platform_fee s =? 0) || journalled (st_settlement_id s) d) (settlement_rows d) &&
  forallb (fun f => bool_decide (is_Some (f_allocation_id f)) || bool_decide (downstream_relay_id f = None))
    (relay_federation_settlements d).

(** The allocations a stamp names. *)
Definition stamped_ids (d : relay_db) : list string :=
  omap allocation_id (relay_transactions d) ++ (fee_allocation_id <$> relay_allocation_fees d) ++
  omap f_allocation_id (relay_federation_settlements d).

Definition escrow_okb (d : relay_db) : bool := escrow_wfb d && forallb (fun a => 0 <=? heldSql a d) (stamped_ids d).
Definition fresh_uuidb (u : string) (d : relay_db) : bool :=
  forallb (fun t => negb (bool_decide (transaction_id (txn t) = u))) (relay_transactions d).
Definition safe_escrowb (d : relay_db) : bool := forallb (fun a => heldSql a d <=? MAX_SAFE_INTEGER) (stamped_ids d).

Lemma forallb_elem {A} (f : A -> bool) l x : forallb f l = true -> x ∈ l -> f x = true.
Proof. intros H Hx. rewrite forallb_forall in H. apply H. by apply list_elem_of_In. Qed.

Lemma unreferencedb_spec sid d : unreferencedb sid d = true -> unreferenced sid d.
Proof.
  intros H t Ht Hn Hc Hr. apply (forallb_elem _ _ t H) in Ht. cbn in Ht. rewrite Hn, Hc, Hr in Ht.
  rewrite (bool_decide_false (is_Some None)) in Ht by (by intros [? ?]). by rewrite !bool_decide_true in Ht by done.
Qed.

Lemma fresh_uuidb_spec u d : fresh_uuidb u d = true -> fresh_uuid u d.
Proof.
  intros H. apply Forall_forall. intros t Ht. apply (forallb_elem _ _ t H) in Ht.
  by apply negb_true_iff, bool_decide_eq_false in Ht.
Qed.

Lemma escrow_wfb_spec d : escrow_wfb d = true -> escrow_wf d.
Proof.
  unfold escrow_wfb. rewrite !andb_true_iff, !bool_decide_eq_true. intros ((((((H1 & H2) & H3) & H4) & H5) & H6) & H7).
  split; try done.
  - intros t Ht Hn. apply (forallb_elem _ _ t H4) in Ht. cbn in Ht. rewrite Hn in Ht.
    rewrite (bool_decide_false (is_Some None)) in Ht by (by intros [? ?]). cbn [orb] in Ht.
    by apply andb_true_iff in Ht as [?%negb_true_iff%bool_decide_eq_false ?%negb_true_iff%bool_decide_eq_false].
  - intros s Hs. apply unreferencedb_spec, (forallb_elem _ _ s H5 Hs).
  - intros s Hs Hm. apply (forallb_elem _ _ s H6) in Hs. cbn in Hs. rewrite Hm in Hs. cbn [negb orb] in Hs.
    apply orb_true_iff in Hs as [?%Z.eqb_eq|?]; auto.
  - intros f Hf Hn. apply (forallb_elem _ _ f H7) in Hf. cbn in Hf. rewrite Hn in Hf.
    rewrite (bool_decide_false (is_Some None)) in Hf by (by intros [? ?]). by apply bool_decide_eq_true in Hf.
Qed.

Lemma unstamped_held a d : escrow_wf d -> a ∉ stamped_ids d -> heldSql a d = 0.
Proof.
  intros Hw [Ht [Hj Hf]%not_elem_of_app]%not_elem_of_app. rewrite heldSql_stamped by done. unfold held_stamped.
  rewrite !zsum_zero; [done| | |].
  - intros f Hin. unfold forward_of. rewrite decide_False; [done|]. intros [E _]. apply Hf, list_elem_of_omap. by exists f.
  - intros j Hin. unfold fee_of. rewrite decide_False; [done|]. intros <-. apply Hj. by apply list_elem_of_fmap_2.
  - intros t Hin. unfold txn_of. rewrite decide_False; [done|]. intros E. apply Ht, list_elem_of_omap. by exists t.
Qed.

Lemma escrow_okb_spec d : escrow_okb d = true -> escrow_ok d.
Proof.
  intros [Hw%escrow_wfb_spec H]%andb_true_iff. split; [done|]. intros a.
  destruct (decide (a ∈ stamped_ids d)) as [Ha|Ha].
  - apply (forallb_elem _ _ a H) in Ha. lia.
  - by rewrite unstamped_held.
Qed.

Lemma safe_escrowb_spec d : escrow_wf d -> safe_escrowb d = true -> forall a, heldSql a d <= MAX_SAFE_INTEGER.
Proof.
  intros Hw H a. destruct (decide (a ∈ stamped_ids d)) as [Ha|Ha].
  - apply (forallb_elem _ _ a H) in Ha. lia.
  - by rewrite unstamped_held.
Qed.

(** ** States *)

Definition empty_db : relay_db := {|
  relay_accounts := []; relay_transactions := []; relay_withdrawals := []; relay_pending_withdrawals := [];
  relay_allocations := []; relay_settlements := Some []; relay_disputes := Some []; agent_registry := None;
  relay_federation_settlements := []; relay_allocation_fees := []; relay_dispute_resolutions := [];
  relay_dispute_fund_actions := []; relay_settlement_retries := []; relay_refund_log := [] |}.

Definition db_after {A} (m : call relay_db ledger_error A) (d : relay_db) : relay_db := (run m d).2.

(** Alice deposits 1000 and funds the task [t1], for bob, with 600. *)
Definition deposited : relay_db := Eval vm_compute in
  db_after (credit "alice" (JInt 1000) deposit None None None "u1" 1) empty_db.
Definition funded : relay_db := Eval vm_compute in
  db_after (fundingWrites false 10 "t1" "bob" "alice" "escrow" 600 "u2") deposited.
(** 500 of its escrow is forwarded to another relay. *)
Definition forwarded : relay_db := Eval vm_compute in
  db_after (forwardOriginSettlement false 20 "t1" "relay-a" "relay-b" "s1" "r1" 500 "u3") funded.

(** A receipt of bob's for [t1]. *)
Definition answered (st : settle_status) (paid fee_ : Z) : settlement_body := {|
  sb_settlement_id := "s1"; sb_allocation_id := "x402-t1"; sb_motebit_id := "bob"; sb_amount_settled := paid;
  sb_platform_fee := fee_; sb_status := st; sb_settled_at := 30 |}.

Lemma funded_ok : escrow_ok funded.
Proof. apply escrow_okb_spec. vm_compute. reflexivity. Qed.

Lemma forwarded_demo_ok : escrow_ok forwarded.
Proof. apply escrow_okb_spec. vm_compute. reflexivity. Qed.
