(* ===== verification/EscrowSettle.v ===== *)
(** * The settlement of an answer

    What the settlement transactions of [EscrowCallers] do with an allocation: which
    movements they make, that an answer is settled at most once, and that the main
    one leaves nothing of what it claimed unaccounted for. *)

From Stdlib Require Import String.
From S2P Require Import Prelude Float64 JsMap JsString TaskTypes TaskQueue LedgerTypes Driver SqlStore SqlRefines.
From S2P Require Import Escrow EscrowLaws EscrowCallers EscrowRuns EscrowDemo.
Local Open Scope Z_scope.
Local Open Scope motebit_scope.

Section settle.
Context (frozen : bool) (now : Z).
Context (body : settlement_body) (taskId a motebitId worker : string) (grossAmount : Z) (uuid1 uuid2 : string).
Implicit Types (d : relay_db).

(** The ids are new, and a settlement without an allocation carries no fee. *)
Record settle_fits (d : relay_db) : Prop := {
  sf_uuid1 : fresh_uuid uuid1 d;
  sf_uuid2 : fresh_uuid uuid2 d;
  sf_distinct : uuid1 <> uuid2;
  sf_settlement : unreferenced (sb_settlement_id body) d;
  sf_fee : find_allocation a d = None -> sb_platform_fee body = 0;
}.

Definition fee_move : AllocationMove :=
  SettlementFee a (JInt (sb_platform_fee body)) (settlement_insert body taskId motebitId).
Definition credit_move : AllocationMove :=
  SettlementCredit a (JInt (sb_amount_settled body)) worker (sb_settlement_id body)
    (String.append "Payment for task " taskId).
Definition release_move (payer description : string) (amount : Z) : AllocationMove :=
  Refund settlement_release a (JInt amount) payer description.

(** What goes back to the hold payer. *)
Definition release_amount (heldRemaining : Z) : Z :=
  match sb_status body with
  | settle_refunded => heldRemaining
  | settle_partial => heldRemaining - (sb_amount_settled body + sb_platform_fee body)
  | settle_completed => heldRemaining - grossAmount
  end.
Definition credited : bool := negb (bool_decide (sb_status body = settle_refunded)) && (0 <? sb_amount_settled body).

Definition release_list (payer description : string) (heldRemaining : Z) : list (AllocationMove * string) :=
  if 0 <? release_amount heldRemaining then [(release_move payer description (release_amount heldRemaining), uuid2)] else [].
Definition settle_list (payer description : string) (heldRemaining : Z) : list (AllocationMove * string) :=
  (fee_move, uuid1) :: (if credited then [(credit_move, uuid1)] else []) ++ release_list payer description heldRemaining.

Lemma releaseTo_moves amount description uuid d d' : escrow_wf d -> fresh_uuid uuid d ->
  run (releaseTo frozen now a amount description uuid) d = (Ok tt, d') ->
  moves [(release_move (default ""%string (hold_payer a d)) description amount, uuid)] d d'.
Proof.
  intros Hw Hf. unfold releaseTo. intros (p & d1 & [= <- <-] & H)%call_bind_ok. by apply (move_moves frozen now).
Qed.

(** The credit, then a release under a condition. *)
Lemma credit_release_moves b amount description d d1 d' : escrow_wf d ->
  fresh_uuid uuid1 d -> fresh_uuid uuid2 d -> uuid1 <> uuid2 ->
  run (call_when (0 <? sb_amount_settled body) (moveAllocationMoney frozen credit_move uuid1 now)) d = (Ok tt, d1) ->
  run (call_when b (releaseTo frozen now a amount description uuid2)) d1 = (Ok tt, d') ->
  moves ((if 0 <? sb_amount_settled body then [(credit_move, uuid1)] else []) ++
         (if b then [(release_move (default ""%string (hold_payer a d)) description amount, uuid2)] else [])) d d'.
Proof.
  intros Hw H1 H2 Hd Hc H. set (l1 := if 0 <? sb_amount_settled body then _ else _).
  assert (moves l1 d d1) as Hm1.
  { apply when_ok in Hc as [[E Hc]|[E ->]]; unfold l1; rewrite E; [by apply (move_moves frozen now)|constructor]. }
  assert (Forall (fun p => is_hold_move p.1 = false) l1) as Hl1 by (unfold l1; destruct (0 <? _); repeat constructor).
  assert (uuid2 ∉ drawn l1) as Hn by (unfold l1; destruct (0 <? _); set_solver).
  eapply moves_app; [exact Hm1|]. apply when_ok in H as [[-> H]|[-> ->]]; [|constructor].
  assert (hold_payer a d = hold_payer a d1) as -> by (unfold hold_payer; by rewrite (moves_payers _ _ _ a Hw Hm1 Hl1)).
  apply releaseTo_moves; [by eapply ma_wf, moves_all|exact (moves_fresh uuid2 _ _ _ Hw Hm1 Hn H2)|exact H].
Qed.

Lemma distribute_moves heldRemaining d d' : escrow_wf d -> fresh_uuid uuid1 d -> fresh_uuid uuid2 d -> uuid1 <> uuid2 ->
  run (distribute frozen now body a worker taskId grossAmount heldRemaining uuid1 uuid2) d = (Ok tt, d') ->
  exists description,
    moves ((if credited then [(credit_move, uuid1)] else []) ++
           release_list (default ""%string (hold_payer a d)) description heldRemaining) d d'.
Proof.
  intros Hw H1 H2 Hd H. unfold distribute in H. unfold release_list, release_amount, credited.
  destruct (sb_status body) eqn:Est.
  - apply call_bind_ok in H as ([] & d1 & Hc & H). apply call_bind_ok in H as ([] & d2 & [= <-] & H).
    rewrite (bool_decide_true (settle_completed = settle_completed)) in H by done. cbn [andb] in H.
    replace (grossAmount <? heldRemaining) with (0 <? heldRemaining - grossAmount) in H
      by (apply Bool.eq_iff_eq_true; rewrite !Z.ltb_lt; lia).
    eexists. exact (credit_release_moves _ _ _ _ _ _ Hw H1 H2 Hd Hc H).
  - apply call_bind_ok in H as ([] & d1 & Hc & H). apply call_bind_ok in H as ([] & d2 & Hp & [= <-]).
    rewrite (bool_decide_true (settle_partial = settle_partial)) in Hp by done. cbn [andb] in Hp.
    eexists. exact (credit_release_moves _ _ _ _ _ _ Hw H1 H2 Hd Hc Hp).
  - eexists. rewrite (bool_decide_true (settle_refunded = settle_refunded)) by done.
    cbn [negb andb app]. apply when_ok in H as [[-> H]|[-> ->]]; [|constructor]. by apply releaseTo_moves.
Qed.

(** What the transaction claims, and what is left of the escrow then. *)
Definition claims (applies : bool) (d : relay_db) : bool :=
  applies && ((grossAmount =? 0) || (0 <? heldSql a d)) && locked_task taskId d.
Definition held_remaining (applies : bool) (d : relay_db) : Z := if claims applies d then Z.max 0 (heldSql a d) else 0.
Definition is_funded (applies : bool) (d : relay_db) : bool :=
  (grossAmount =? 0) || (claims applies d && (0 <? held_remaining applies d)).

Lemma settle_moves applies d b d' : escrow_wf d -> settle_fits d ->
  run (settleAnswer frozen now applies body taskId a motebitId worker grossAmount uuid1 uuid2) d = (Ok b, d') ->
  b = is_funded applies d /\
  (applies && b = false -> quiet d d') /\
  (applies && b = true -> 0 <= sb_platform_fee body /\ exists description,
     moves (settle_list (default ""%string (hold_payer a d)) description (held_remaining applies d)) d d') /\
  (claims applies d = true -> locked_task taskId d' = false).
Proof.
  intros Hw Hfit H%txn_committed. apply call_bind_ok in H as (held & d1 & Hh & H).
  unfold allocationHeld in Hh. apply call_bind_ok in Hh as (raw & d2 & [= <- <-] & [= <- <-]).
  replace ((grossAmount =? 0) || (0 <? Z.max 0 (heldSql a d))) with ((grossAmount =? 0) || (0 <? heldSql a d)) in H
    by (f_equal; apply Bool.eq_iff_eq_true; rewrite !Z.ltb_lt; lia).
  apply call_bind_ok in H as (claimed & d1 & Hc & H).
  assert (claimed = claims applies d /\ quiet d d1 /\ (claims applies d = true -> locked_task taskId d1 = false)) as (-> & Hq & Hl).
  { unfold claims. destruct (applies && _); [|by injection Hc as <- <-].
    apply claim_locked_ok in Hc as (Hq & -> & ?). by split. }
  fold (held_remaining applies d) in H. fold (is_funded applies d) in H.
  apply call_bind_ok in H as ([] & d2 & Hw2 & [= <- <-]). split; [done|].
  apply when_ok in Hw2 as [[E H]|[E ->]]; rewrite E; [|by split]. split; [done|].
  pose proof (quiet_wf _ _ Hq Hw) as Hw1. assert (moves [] d d1) as Hm1 by (eapply moves_quiet; [constructor|done]).
  apply call_bind_ok in H as ([] & d3 & Hfee & H). destruct Hfit as [F1 F2 F3 F4 F5].
  assert (moves [(fee_move, uuid1)] d1 d3) as Hm3.
  { apply (move_moves frozen now); [done| |exact Hfee]. split.
    - exact (moves_fresh uuid1 _ _ _ Hw Hm1 ltac:(set_solver) F1).
    - split; [exact (moves_unreferenced _ _ _ _ Hw Hm1 F4)|]. intros Hn. apply F5.
      destruct (find_allocation a d) as [x|] eqn:Ex; [|done].
      destruct (find_key _ _ _ _ (q_allocations _ _ Hq) Ex) as (x' & Ex' & _). congruence. }
  pose proof (ma_wf _ _ _ (moves_all _ _ _ Hw1 Hm3)) as Hw3. pose proof (moves_app _ _ _ _ _ Hm1 Hm3) as Hm03.
  destruct (distribute_moves (held_remaining applies d) d3 d2 Hw3) as (desc & Hm); [| |done|exact H|].
  - exact (moves_fresh uuid1 _ _ _ Hw Hm03 ltac:(set_solver) F1).
  - exact (moves_fresh uuid2 _ _ _ Hw Hm03 ltac:(set_solver) F2).
  - assert (hold_payer a d3 = hold_payer a d) as E3
      by (unfold hold_payer; rewrite (moves_payers _ _ _ a Hw Hm03); [done|repeat constructor]).
    rewrite E3 in Hm. split.
    + intros _. split; [by apply (move_amount_ok _ _ _ _ _ _ Hfee)|]. exists desc. exact (moves_app _ _ _ _ _ Hm03 Hm).
    + intros Hcl. specialize (Hl Hcl). pose proof (moves_all _ _ _ Hw1 (moves_app _ _ _ _ _ Hm3 Hm)) as Hall.
      destruct (locked_task taskId d2) eqn:E2; [|done]. apply (ma_locked _ _ _ Hall) in E2. congruence.
Qed.

(** A settlement that was recorded had an escrow to pay out of. *)
Lemma funded_claimed applies d : 0 < grossAmount -> is_funded applies d = true ->
  held_remaining applies d = heldSql a d /\ 0 < heldSql a d /\ claims applies d = true.
Proof.
  intros Hg. unfold is_funded, held_remaining. destruct (Z.eqb_spec grossAmount 0); [lia|]. cbn [orb].
  destruct (claims applies d); [|done]. cbn [andb]. intros E%Z.ltb_lt. split; [lia|]. split; [lia|done].
Qed.

(** The worker's part, and what stays in the escrow: on a completed answer what was
    agreed and neither paid nor taken as the fee. *)
Definition worker_part : Z := if bool_decide (sb_status body = settle_refunded) then 0 else sb_amount_settled body.
Definition left_held (held : Z) : Z :=
  match sb_status body with
  | settle_completed => Z.min held grossAmount - (worker_part + sb_platform_fee body)
  | _ => 0
  end.
(** What goes back to the delegator. *)
Definition back_to_payer (held : Z) : Z := held - sb_platform_fee body - worker_part - left_held held.

Lemma settle_list_sums payer desc held x i : 0 <= sb_amount_settled body ->
  let back := Z.max 0 (release_amount held) in
  zsum (held_by x) (settle_list payer desc held) = (if decide (x = a) then - (sb_platform_fee body + worker_part + back) else 0) /\
  zsum (gained_by i) (settle_list payer desc held) =
    (if decide (i = worker) then worker_part else 0) + (if decide (i = payer) then back else 0) /\
  zsum (fun p => balance_change p.1) (settle_list payer desc held) = worker_part + back.
Proof.
  intros Hn back. unfold settle_list, release_list, credited, worker_part, held_by, gained_by.
  assert (forall z, 0 <= z -> (0 <? z) = false -> z = 0) as Hz by (intros; lia).
  destruct (bool_decide (sb_status body = settle_refunded)), (0 <? sb_amount_settled body) eqn:E1,
    (0 <? release_amount held) eqn:E2; cbn -[Z.max Z.opp release_amount]; unfold back;
    repeat case_decide; simplify_eq; lia.
Qed.
End settle.

(** ** Without a locked allocation *)

Lemma settle_unlocked frozen now applies body taskId a motebitId worker gross u1 u2 d b d' :
  locked_task taskId d = false -> 0 < gross ->
  run (settleAnswer frozen now applies body taskId a motebitId worker gross u1 u2) d = (Ok b, d') -> b = false /\ quiet d d'.
Proof.
  intros Hl Hg H%txn_committed. apply call_bind_ok in H as (held & d1 & Hh & H).
  unfold allocationHeld in Hh. apply call_bind_ok in Hh as (raw & d2 & [= <- <-] & [= <- <-]).
  apply call_bind_ok in H as (claimed & d1 & Hc & H). assert (claimed = false /\ quiet d d1) as [-> Hq].
  { destruct (applies && _); [|by injection Hc as <- <-]. apply claim_locked_ok in Hc as (Hq & -> & _). by split. }
  replace (gross =? 0) with false in H by lia. cbn [andb orb] in H. rewrite andb_false_r in H.
  apply call_bind_ok in H as ([] & d2 & [= <-] & [= <- <-]). by split.
Qed.

Lemma sub_settle_unlocked frozen now body taskId subAgent u d b d' : locked_task taskId d = false ->
  run (settleSubAnswer frozen now body taskId subAgent u) d = (Ok b, d') -> quiet d d'.
Proof.
  intros Hl H. apply catch_ok in H as [H|(e & d1 & H1 & [= _ <-])]; [|by apply txn_rolled_back in H1 as ->].
  apply txn_committed in H. apply call_bind_ok in H as (held & d1 & Hh & H).
  unfold allocationHeld in Hh. apply call_bind_ok in Hh as (raw & d2 & [= <- <-] & [= <- <-]).
  apply call_bind_ok in H as (claimed & d1 & Hc & H). assert (claimed = false /\ quiet d d1) as [-> Hq].
  { destruct (0 <? _); [|by injection Hc as <- <-]. apply claim_locked_ok in Hc as (Hq & -> & _). by split. }
  by apply call_bind_ok in H as ([] & d2 & [= <-] & [= <- <-]).
Qed.

(** ** A nested answer *)

Definition sub_list (body : settlement_body) (taskId subAgent uuid : string) : list (AllocationMove * string) :=
  let a := String.append "x402-" taskId in
  (fee_move body taskId a subAgent, uuid) ::
  (if 0 <? sb_amount_settled body
   then [(SettlementCredit a (JInt (sb_amount_settled body)) subAgent (sb_settlement_id body)
            (String.append "Payment for sub-delegated task " taskId), uuid)]
   else []).

(** Fee and payment, and nothing else, of an allocation it takes out of [locked]. *)
Lemma sub_settle_moves frozen now body taskId subAgent uuid d d' :
  let a := String.append "x402-" taskId in
  escrow_wf d -> fresh_uuid uuid d -> unreferenced (sb_settlement_id body) d ->
  (find_allocation a d = None -> sb_platform_fee body = 0) -> locked_task taskId d = true -> 0 < heldSql a d ->
  run (settleSubAnswer frozen now body taskId subAgent uuid) d = (Ok true, d') ->
  moves (sub_list body taskId subAgent uuid) d d' /\ locked_task taskId d' = false /\ 0 <= sb_platform_fee body.
Proof.
  intros a Hw Hu Hr Hx Hl Hp H. apply catch_ok in H as [H|(e & d1 & _ & [=])]. apply txn_committed in H.
  apply call_bind_ok in H as (held & d1 & Hh & H). fold a in Hh, H.
  unfold allocationHeld in Hh. apply call_bind_ok in Hh as (raw & d2 & [= <- <-] & [= <- <-]).
  rewrite (proj2 (Z.ltb_lt 0 _)) in H by lia. apply call_bind_ok in H as (claimed & d1 & Hc & H).
  apply claim_locked_ok in Hc as (Hq & -> & Hl1). rewrite Hl in H.
  apply call_bind_ok in H as ([] & d2 & Hm & [= <-]). apply when_ok in Hm as [[_ H]|[? _]]; [|done].
  apply call_bind_ok in H as ([] & d3 & Hfee & Hcr).
  pose proof (quiet_wf _ _ Hq Hw) as Hw1. assert (moves [] d d1) as M1 by (eapply moves_quiet; [constructor|done]).
  assert (fresh_uuid uuid d1) as Hu1 by exact (moves_fresh uuid _ _ _ Hw M1 ltac:(set_solver) Hu).
  assert (moves [(fee_move body taskId a subAgent, uuid)] d1 d3) as M2.
  { apply (move_moves frozen now); [done| |exact Hfee]. split; [done|].
    split; [exact (moves_unreferenced _ _ _ _ Hw M1 Hr)|]. cbn. intros Hn. apply Hx.
    destruct (find_allocation a d) as [x|] eqn:Ex; [|done].
    destruct (find_key _ _ _ _ (q_allocations _ _ Hq) Ex) as (x' & E & _). congruence. }
  pose proof (moves_all _ _ _ Hw1 M2) as A2. pose proof (ma_wf _ _ _ A2) as Hw3.
  split; [|split; [|by apply (move_amount_ok _ _ _ _ _ _ Hfee)]].
  - eapply (moves_app [] (_ :: _)); [exact M1|]. eapply (moves_app [_]); [exact M2|].
    apply when_ok in Hcr as [[-> Hcr]|[-> ->]]; [|constructor]. apply (move_moves frozen now); [done| |exact Hcr].
    split; [|done]. apply (moves_fresh uuid _ _ _ Hw1 M2); [set_solver|done].
  - assert (locked_task taskId d3 = false) as Hl3.
    { destruct (locked_task taskId d3) eqn:E; [|done]. apply (ma_locked _ _ _ A2) in E. congruence. }
    apply when_ok in Hcr as [[_ Hcr]|[_ ->]]; [|done]. destruct (locked_task taskId d2) eqn:E; [|done].
    assert (fresh_uuid uuid d3) as Hu3 by (apply (moves_fresh uuid _ _ _ Hw1 M2); [set_solver|done]).
    set (m := SettlementCredit _ _ _ _ _) in Hcr.
    pose proof (moves_all _ _ _ Hw3 (move_moves frozen now m uuid d3 d2 Hw3 (conj Hu3 I) Hcr)) as A3.
    apply (ma_locked _ _ _ A3) in E. congruence.
Qed.

(** What a recorded settlement did with what the escrow held. *)
Record distributed (body : settlement_body) (a worker : string) (grossAmount : Z) (d d' : relay_db) : Prop := {
  ds_held : 0 < heldSql a d;
  ds_left : 0 <= left_held body grossAmount (heldSql a d);
  ds_back : 0 <= back_to_payer body grossAmount (heldSql a d);
  ds_payer : 0 < back_to_payer body grossAmount (heldSql a d) -> is_Some (hold_payer a d);
  ds_escrow x : heldSql x d' = if decide (x = a) then left_held body grossAmount (heldSql a d) else heldSql x d;
  ds_balance i : sql_balance i d' = sql_balance i d + (if decide (i = worker) then worker_part body else 0) +
    (if decide (hold_payer a d = Some i) then back_to_payer body grossAmount (heldSql a d) else 0);
  ds_total : total_balance d' = total_balance d + worker_part body + back_to_payer body grossAmount (heldSql a d);
}.

Lemma settle_distributed frozen now body taskId a motebitId worker grossAmount uuid1 uuid2 d d' :
  escrow_ok d -> settle_fits body a uuid1 uuid2 d -> 0 < grossAmount -> 0 <= sb_amount_settled body ->
  run (settleAnswer frozen now true body taskId a motebitId worker grossAmount uuid1 uuid2) d = (Ok true, d') ->
  distributed body a worker grossAmount d d'.
Proof.
  intros [Hw Hok] Hfit Hg Hn H. set (held := heldSql a d). set (left := left_held body grossAmount held).
  set (back := back_to_payer body grossAmount held).
  destruct (settle_moves frozen now body taskId a motebitId worker grossAmount uuid1 uuid2 true d true d' Hw Hfit H)
    as (Hb & _ & Hm & _). symmetry in Hb. destruct (funded_claimed taskId a grossAmount true d Hg Hb) as (Hr & Hpos & _).
  destruct (Hm eq_refl) as (Hfee & desc & Hmv). clear Hm. rewrite Hr in Hmv.
  fold held in Hr, Hpos, Hmv. set (payer := default ""%string (hold_payer a d)) in *.
  pose proof (moves_all _ _ _ Hw Hmv) as [_ Hh Hbal Ht _ _ _ Hok'].
  pose proof (fun x i => settle_list_sums body taskId a motebitId worker grossAmount uuid1 uuid2 payer desc held x i Hn) as Hs.
  cbn zeta in Hs. set (rel := release_amount body grossAmount held) in *.
  assert (0 <= heldSql a d') as Ha' by (by apply Hok').
  rewrite Hh in Ha'. destruct (Hs a ""%string) as (Ea & _ & Et). rewrite Ea, decide_True in Ha' by done. fold held in Ha'.
  assert (back = Z.max 0 rel /\ 0 <= left) as [Eb Hl].
  { unfold back, back_to_payer, left, left_held, rel, release_amount, worker_part in *. destruct (sb_status body);
      case_bool_decide; try done; lia. }
  assert (0 < back -> hold_payer a d = Some payer) as Hpay.
  { intros Hlt. apply (moves_refunded _ _ _ (release_move a payer desc rel) uuid2 a payer Hw Hmv); [| |by cbn|done|cbn; lia].
    - unfold settle_list, release_list. destruct (credited body), (0 <? _); repeat constructor.
    - unfold settle_list, release_list. fold rel. rewrite (proj2 (Z.ltb_lt 0 rel)) by lia. right. apply elem_of_app. right. by left. }
  assert (back = held - sb_platform_fee body - worker_part body - left) as Ebk by done.
  split; fold held left back; [done|done|lia|intros Hlt; by rewrite Hpay| | |].
  - intros x. rewrite Hh. destruct (Hs x ""%string) as (-> & _ & _). destruct (decide (x = a)) as [->|]; fold held; lia.
  - intros i. rewrite Hbal. destruct (Hs a i) as (_ & -> & _). rewrite <- Eb.
    destruct (decide (0 < back)) as [Hlt|Hle].
    + rewrite (Hpay Hlt). repeat case_decide; simplify_eq; try lia.
    + assert (back = 0) as E0 by lia. rewrite E0. repeat case_decide; lia.
  - rewrite Ht, Et. lia.
Qed.

(** ** Properties *)

(** C4: the settlement of an answer distributes exactly what the escrow holds.
    When the transaction records a settlement of a priced task, the fee, the
    worker's payment and what returns to the delegator come out of what was held,
    nothing is created: a refunded or partial settlement leaves the escrow empty, a
    completed one leaves what was agreed and neither paid nor taken as the fee.  No
    other allocation and no other account changes, and the rest goes to the sole
    holder of the hold. *)
Theorem settlement_distributes frozen now body taskId a motebitId worker grossAmount uuid1 uuid2 d d' :
  escrow_ok d -> settle_fits body a uuid1 uuid2 d -> 0 < grossAmount -> 0 <= sb_amount_settled body ->
  run (settleAnswer frozen now true body taskId a motebitId worker grossAmount uuid1 uuid2) d = (Ok true, d') ->
  let held := heldSql a d in
  let left := left_held body grossAmount held in
  let back := back_to_payer body grossAmount held in
  0 < held /\ 0 <= left /\ 0 <= back /\ (0 < back -> is_Some (hold_payer a d)) /\
  (forall x, heldSql x d' = if decide (x = a) then left else heldSql x d) /\
  (forall i, sql_balance i d' = sql_balance i d + (if decide (i = worker) then worker_part body else 0) +
                                (if decide (hold_payer a d = Some i) then back else 0)) /\
  total_balance d' = total_balance d + worker_part body + back.
Proof.
  intros Hok Hfit Hg Hn H. by destruct (settle_distributed _ _ _ _ _ _ _ _ _ _ _ _ Hok Hfit Hg Hn H).
Qed.

(** C15: an answer is settled at most once.  A recorded settlement of a priced task
    leaves its allocation out of [locked]; whatever movements follow, a later
    settlement transaction of the same task - another receipt, another body, other
    amounts, the direct door or the nested one - records nothing and moves nothing. *)
Theorem answer_settled_once frozen now body taskId a motebitId worker grossAmount uuid1 uuid2 d d' l d1 :
  escrow_ok d -> settle_fits body a uuid1 uuid2 d -> 0 < grossAmount ->
  run (settleAnswer frozen now true body taskId a motebitId worker grossAmount uuid1 uuid2) d = (Ok true, d') ->
  moves l d' d1 ->
  (forall now2 applies body2 a2 motebitId2 worker2 gross2 u1 u2 b d2, 0 < gross2 ->
     run (settleAnswer frozen now2 applies body2 taskId a2 motebitId2 worker2 gross2 u1 u2) d1 = (Ok b, d2) ->
     b = false /\ quiet d1 d2) /\
  (forall now2 body2 subAgent u b d2,
     run (settleSubAnswer frozen now2 body2 taskId subAgent u) d1 = (Ok b, d2) -> quiet d1 d2).
Proof.
  intros [Hw _] Hfit Hg H Hl.
  destruct (settle_moves frozen now body taskId a motebitId worker grossAmount uuid1 uuid2 true d true d' Hw Hfit H)
    as (Hb & _ & Hm & Hlock). symmetry in Hb. destruct (funded_claimed taskId a grossAmount true d Hg Hb) as (_ & _ & Hc).
  destruct (Hm eq_refl) as (_ & desc & Hmv). pose proof (ma_wf _ _ _ (moves_all _ _ _ Hw Hmv)) as Hw'.
  pose proof (moves_all _ _ _ Hw' Hl) as Hall. assert (locked_task taskId d1 = false) as Hn.
  { destruct (locked_task taskId d1) eqn:E; [|done]. apply (ma_locked _ _ _ Hall) in E. rewrite (Hlock Hc) in E. done. }
  split.
  - intros now2 applies body2 a2 m2 w2 gross2 u1 u2 b d2 Hg2 H2. eapply settle_unlocked; eauto.
  - intros now2 body2 subAgent u b d2 H2. eapply sub_settle_unlocked; eauto.
Qed.

(** ** Instances *)

(** A receipt answered in full: 450 to bob and a fee of 50, of the 500 agreed. *)
Definition full_answer : settlement_body := answered settle_completed 450 50.

Lemma demo_fits body a u1 u2 d x : fresh_uuidb u1 d && fresh_uuidb u2 d && negb (bool_decide (u1 = u2)) &&
    unreferencedb (sb_settlement_id body) d = true -> find_allocation a d = Some x -> settle_fits body a u1 u2 d.
Proof.
  rewrite !andb_true_iff. intros (((H1 & H2) & H3) & H4) Hx.
  split; [by apply fresh_uuidb_spec..|by apply negb_true_iff, bool_decide_eq_false in H3|by apply unreferencedb_spec|congruence].
Qed.

Definition after_answer : relay_db := Eval vm_compute in
  db_after (settleAnswer false 30 true full_answer "t1" "x402-t1" "bob" "bob" 500 "u4" "u5") funded.

Lemma answer_runs : run (settleAnswer false 30 true full_answer "t1" "x402-t1" "bob" "bob" 500 "u4" "u5") funded = (Ok true, after_answer).
Proof. vm_compute. reflexivity. Qed.

Lemma full_answer_fits : settle_fits full_answer "x402-t1" "u4" "u5" funded.
Proof. eapply demo_fits; vm_compute; reflexivity. Qed.

Lemma settlement_distributes_witness :
  heldSql "x402-t1" funded = 600 /\ sql_balance "bob" after_answer = 450 /\ sql_balance "alice" after_answer = 500 /\
  heldSql "x402-t1" after_answer = 0.
Proof.
  destruct (settlement_distributes false 30 full_answer "t1" "x402-t1" "bob" "bob" 500 "u4" "u5" funded after_answer
    funded_ok full_answer_fits ltac:(lia) ltac:(cbn; lia) answer_runs) as (_ & _ & _ & _ & Hh & Hb & _).
  split; [by vm_compute|]. split; [rewrite Hb; by vm_compute|]. split; [rewrite Hb; by vm_compute|]. rewrite Hh. by vm_compute.
Defined.

Definition second_answer : settlement_body := {|
  sb_settlement_id := "s2"; sb_allocation_id := "x402-t1"; sb_motebit_id := "carol"; sb_amount_settled := 500;
  sb_platform_fee := 0; sb_status := settle_completed; sb_settled_at := 40 |}.

Lemma answer_settled_once_witness : exists b d2,
  run (settleAnswer false 40 true second_answer "t1" "x402-t1" "bob" "carol" 500 "u6" "u7") after_answer = (Ok b, d2) /\
  b = false /\ quiet after_answer d2.
Proof.
  destruct (answer_settled_once false 30 full_answer "t1" "x402-t1" "bob" "bob" 500 "u4" "u5" funded after_answer [] after_answer
    funded_ok full_answer_fits ltac:(lia) answer_runs (moves_nil _)) as [H1 _].
  eexists _, _. split; [vm_compute; reflexivity|].
  eapply (H1 40 true second_answer "x402-t1"%string "bob"%string "carol"%string 500 "u6"%string "u7"%string); [lia|vm_compute; reflexivity].
Defined.
