(* ===== verification/Pricing.v ===== *)
(** * A task's price, from the listing to the payment

    The rounding of [Settlement] in whole micro-units: a settlement's legs sum to its
    gross and the fee is its rate of it, the hold covers the price, and the worker of
    a completed task earns the price its listing advertises. *)

From Stdlib Require Import String.
From Stdlib Require Import ZArith Lia QArith Lqa.
From Stdlib Require Import Floats.SpecFloat.
From S2P Require Import Prelude JsMap JsString Float64 FloatError LedgerTypes Money Driver SqlStore SqlRefines.
From S2P Require Import TaskTypes Escrow EscrowLaws EscrowCallers Settlement EscrowRuns EscrowDemo EscrowSettle.
Local Open Scope string_scope.
Local Open Scope Z_scope.

(** The prices the theorems cover: below 2^48 micro-units, 281 million dollars. *)
Definition PRICE_LIMIT : Z := 2 ^ 48.

(** ** Rounding to a micro-unit *)

Lemma price_value P : 0 <= P < PRICE_LIMIT ->
  nonneg (Number P) /\ (Qval (Number P) == inject_Z P)%Q /\ (0 <= inject_Z P)%Q /\ (inject_Z P <= 281474976710655)%Q.
Proof.
  unfold PRICE_LIMIT. intros HP. destruct (Number_value P ltac:(lia)) as [Hn Ev]. split; [done|]. split; [done|].
  change 281474976710655%Q with (inject_Z 281474976710655). change 0%Q with (inject_Z 0). rewrite <- !Zle_Qle. lia.
Qed.

Lemma microRound_near x : nonneg x -> (Qval x <= 281474976710657)%Q -> near (microRound x) (Qval x) (1 # 12).
Proof.
  intros Hn Hle. destruct MICRO_value as [Nm Em]. pose proof (Qval_nonneg x Hn) as H0.
  assert (Qval x * Qval (Number MICRO) < pow2 68)%Q as Hlt.
  { rewrite Em. change (pow2 68) with 295147905179352825856%Q. lra. }
  destruct (js_mul_near _ _ 68 Hn Nm ltac:(lia) Hlt) as [Np Plo Phi]. change (pow2 (68 - 54)) with 16384%Q in *.
  rewrite Em in Plo, Phi. destruct (Math_round_near _ Np) as [z Hz].
  { apply (Qle_lt_trans _ 295147905179352842240); [lra|done]. }
  pose proof (rt_low _ _ Hz) as Z1. pose proof (rt_high _ _ Hz) as Z2.
  destruct (div_micro_near (Math_round (js_mul x (Number MICRO))) z 49) as [Nq Qlo Qhi];
    [apply Hz|apply Hz|apply Hz|lia|change (pow2 49) with 562949953421312%Q; lra|].
  change (pow2 (49 - 53)) with (1 # 16)%Q in *.
  assert (inject_Z z / 1000000 == inject_Z z * (1 # 1000000))%Q as Eq by done. rewrite Eq in Qlo, Qhi.
  split; [exact Nq| |]; unfold microRound; lra.
Qed.

(** ** The legs of a settlement *)

Record split_legs (P f : Z) (r net fee : number) : Prop := {
  sl_net : nonneg net;
  sl_fee : nonneg fee;
  sl_bounds : 0 <= f <= P;
  sl_split : roundSettlementSplitMicro net fee = {| netMicro := Number (P - f); feeMicro := Number f |};
  sl_rate_low : (inject_Z f - (3 # 5) <= inject_Z P * Qval r)%Q;
  sl_rate_high : (inject_Z P * Qval r <= inject_Z f + (3 # 5))%Q;
}.

Lemma free_split r : is_ratio r -> (Qval r <= 1 # 2)%Q ->
  let fee := microRound (js_mul (Number 0) r) in split_legs 0 0 r (microRound (js_sub (Number 0) fee)) fee.
Proof.
  intros Hr _. destruct (ratio_nonneg r Hr) as [Nr _]. 
  assert (exists s, js_mul (Number 0) r = S754_zero s) as [s ->].
  { destruct r as [s| | |s m e]; try by destruct Nr. all: by eexists. }
  assert (inject_Z 0 * Qval r == 0)%Q as E by (change (inject_Z 0) with 0%Q; apply Qmult_0_l).
  split; [by destruct s|by destruct s|done|by destruct s; vm_compute| |]; rewrite E; done.
Qed.

Lemma split_near P r : 0 <= P < PRICE_LIMIT -> is_ratio r -> (Qval r <= 1 # 2)%Q ->
  let fee := microRound (js_mul (Number P) r) in
  exists f, split_legs P f r (microRound (js_sub (Number P) fee)) fee.
Proof.
  intros HP Hr Hhalf fee. destruct (Z.eq_dec P 0) as [->|HP0]; [exists 0; by apply free_split|].
  destruct (ratio_nonneg r Hr) as [Nr _]. pose proof (Qval_nonneg r Nr) as R0.
  destruct (price_value P HP) as (NP & EP & P0 & P1).
  assert (1 <= inject_Z P)%Q as P1' by (change 1%Q with (inject_Z 1); rewrite <- Zle_Qle; lia).
  assert (0 <= inject_Z P * Qval r)%Q as X0 by nra. assert (inject_Z P * Qval r <= inject_Z P * (1 # 2))%Q as X1 by nra.
  set (X := (inject_Z P * Qval r)%Q) in *.
  assert (Qval (Number P) * Qval r < pow2 48)%Q as Hlt.
  { rewrite EP. fold X. change (pow2 48) with 281474976710656%Q. lra. }
  destruct (js_mul_near _ _ 48 NP Nr ltac:(lia) Hlt) as [Np Plo Phi]. change (pow2 (48 - 54)) with (1 # 64)%Q in *.
  rewrite EP in Plo, Phi. fold X in Plo, Phi.
  destruct (microRound_near _ Np ltac:(lra)) as [Nf Flo Fhi]. fold fee in Nf, Flo, Fhi.
  destruct (js_sub_near (Number P) fee 48 NP Nf ltac:(lia)) as [Ns Slo Shi];
    [rewrite EP; lra|rewrite EP; change (pow2 48) with 281474976710656%Q; lra|].
  change (pow2 (48 - 54)) with (1 # 64)%Q in *. rewrite EP in Slo, Shi.
  destruct (microRound_near _ Ns ltac:(lra)) as [Nn Nlo Nhi]. set (net := microRound (js_sub (Number P) fee)) in *.
  pose proof (Qval_nonneg _ Nf) as F0. pose proof (Qval_nonneg _ Nn) as N0.
  destruct (js_add_near net fee 49 Nn Nf ltac:(lia)) as [Na Alo Ahi];
    [change (pow2 49) with 562949953421312%Q; lra|]. change (pow2 (49 - 54)) with (1 # 32)%Q in *.
  destruct (Math_round_near _ Na) as [g Hg]; [apply (Qle_lt_trans _ 562949953421313); [lra|done]|].
  assert (g = P) as -> by (apply (rounds_eq _ _ _ Hg); lra).
  destruct (Math_round_near _ Nf) as [f Hf]; [apply (Qle_lt_trans _ 562949953421313); [lra|done]|].
  assert (0 <= f <= P) as Hb by (split; [apply Hf|apply (rounds_le _ _ _ Hf); lra]).
  exists f. pose proof (rt_low _ _ Hf). pose proof (rt_high _ _ Hf). split; [done|done|done| |fold X; lra|fold X; lra].
  unfold roundSettlementSplitMicro. rewrite (round_Number _ _ Hg), (round_Number _ _ Hf).
  unfold PRICE_LIMIT in HP. by rewrite js_sub_exact by lia.
Qed.

(** ** The settlement record of an answer *)

Lemma whole_Number z : 0 <= z < 2 ^ 53 -> whole (Number z) = z.
Proof. intros Hz. unfold whole. by rewrite as_js_Number. Qed.

Lemma valid_price P : 0 <= P < PRICE_LIMIT -> js_ltb (Number P) (Number 0) = false /\ beyond_safe (Number P) = false.
Proof.
  intros HP. destruct (price_value P HP) as (NP & EP & P0 & _). split.
  - apply js_ltb_false; [done|by apply Number_nonneg|]. by rewrite EP.
  - unfold beyond_safe, PRICE_LIMIT in *. rewrite as_js_Number by lia. unfold LedgerTypes.Number_isSafeInteger, MAX_SAFE_INTEGER.
    by rewrite bool_decide_true by lia.
Qed.

Lemma ratio_checks r : is_ratio r -> js_ltb r (Number 0) = false /\ js_ltb (Number 1) r = false.
Proof.
  intros Hr. destruct (ratio_nonneg r Hr) as [Nr H1]. destruct (Number_value 1) as [N1 E1]; [done|]. split.
  - apply js_ltb_false; [done|by apply Number_nonneg|]. by apply Qval_nonneg.
  - apply js_ltb_false; [done|done|]. by rewrite E1.
Qed.

Definition not_executed (receipt : ExecutionReceipt) : Prop := rc_status receipt = "failed" \/ rc_status receipt = "denied".

(** A receipt that failed refunds; any other settles the whole price in two legs. *)
Lemma answer_settled taskId sid P aid receipt r now : 0 <= P < PRICE_LIMIT -> is_ratio r -> (Qval r <= 1 # 2)%Q ->
  exists body f, answerSettlement taskId sid (Number P) aid receipt r now = Ok body /\
    sb_settlement_id body = sid /\ sb_motebit_id body = rc_motebit_id receipt /\
    0 <= f <= P /\ (inject_Z f - (3 # 5) <= inject_Z P * Qval r <= inject_Z f + (3 # 5))%Q /\
    if decide (not_executed receipt)
    then sb_status body = settle_refunded /\ sb_amount_settled body = 0 /\ sb_platform_fee body = 0
    else sb_status body = settle_completed /\ sb_amount_settled body = P - f /\ sb_platform_fee body = f.
Proof.
  intros HP Hr Hhalf. destruct (split_near P r HP Hr Hhalf) as [f [Nn Nf Hb Hs R1 R2]].
  unfold answerSettlement, settleOnReceipt, validateAllocation. cbn [ba_amount_locked ba_allocation_id].
  destruct (ratio_checks r Hr) as [-> ->]. destruct (valid_price P HP) as [-> ->]. cbn [orb result_bind].
  destruct (decide (not_executed receipt)) as [Hx|Hx].
  - rewrite bool_decide_true by done. cbn [result_bind]. eexists _, f. split; [done|]. cbn. by repeat (split; [done|]).
  - rewrite bool_decide_false by done. unfold settled_gross. cbn [result_bind ba_amount_locked].
    rewrite js_ltb_false by (exact Nn || by apply Number_nonneg || exact (Qval_nonneg _ Nn)). cbn [result_bind srb_amount_settled srb_platform_fee settlement_record].
    rewrite Hs. eexists _, f. split; [done|]. cbn [sb_settlement_id sb_motebit_id sb_status sb_amount_settled sb_platform_fee
      netMicro feeMicro srb_status settlement_record srb_settlement_id srb_motebit_id].
    unfold PRICE_LIMIT in HP. rewrite !whole_Number by lia. done.
Qed.

(** ** The hold *)

Lemma Math_round_Number A : 0 <= A < 2 ^ 53 -> Math_round (Number A) = Number A.
Proof.
  intros HA. destruct (Number_value A HA) as [Hn Ev]. destruct (Math_round_near _ Hn) as [z Hz].
  { rewrite Ev. apply (Qlt_trans _ (inject_Z (2 ^ 53))); [rewrite <- Zlt_Qlt; lia|done]. }
  rewrite (round_Number _ _ Hz). f_equal. apply (rounds_eq _ _ _ Hz); rewrite Ev; lra.
Qed.

Lemma js_ltb_Number a b : 0 <= a < 2 ^ 53 -> 0 <= b < 2 ^ 53 -> js_ltb (Number a) (Number b) = (a <? b).
Proof.
  intros Ha Hb. destruct (Number_value a Ha) as [Na Ea], (Number_value b Hb) as [Nb Eb]. apply Bool.eq_iff_eq_true.
  rewrite js_ltb_spec, Ea, Eb, <- Zlt_Qlt by done. symmetry. apply Z.ltb_lt.
Qed.

Lemma Math_min_nonneg x y : nonneg x -> nonneg y -> Math_min x y = if js_ltb y x then y else x.
Proof. intros [_ Hx] [_ Hy]. by destruct x, y. Qed.

Lemma Math_min_Number a b : 0 <= a < 2 ^ 53 -> 0 <= b < 2 ^ 53 -> Math_min (Number a) (Number b) = Number (Z.min a b).
Proof.
  intros Ha Hb. rewrite Math_min_nonneg, js_ltb_Number by (done || by apply Number_nonneg).
  destruct (Z.ltb_spec b a); f_equal; lia.
Qed.

(** What a submission may draw on: the spendable balance, at most what it paid. *)
Definition funds (spendable : Z) (x402Credited : option Z) : Z :=
  match x402Credited with Some credited => Z.min spendable credited | None => spendable end.

Lemma risk_buffered P : 1 <= P < PRICE_LIMIT ->
  let lock := js_mul (Number P) (js_add (Number 1) (js_mul (Number 1) RISK_BUFFER)) in
  nonneg lock /\ (inject_Z P <= Qval lock)%Q /\ (5 * Qval lock <= 6 * inject_Z P + 1)%Q.
Proof.
  intros HP. set (buf := js_add (Number 1) (js_mul (Number 1) RISK_BUFFER)).
  destruct (price_value P ltac:(lia)) as (NP & EP & _ & P1).
  assert (1 <= inject_Z P)%Q as P0 by (change 1%Q with (inject_Z 1); rewrite <- Zle_Qle; lia).
  assert (nonneg buf) as Nb by (split; vm_compute; reflexivity). assert (6 # 5 <= Qval buf + (1 # 10000000000000000))%Q as B1 by (by vm_compute).
  assert (Qval buf <= (6 # 5) + (1 # 10000000000000000))%Q as B2 by (by vm_compute).
  assert (inject_Z P * ((6 # 5) - (1 # 10000000000000000)) <= inject_Z P * Qval buf)%Q as X1 by (apply Qmult_le_l; lra).
  assert (inject_Z P * Qval buf <= inject_Z P * ((6 # 5) + (1 # 10000000000000000)))%Q as X2 by (apply Qmult_le_l; lra).
  assert (Qval (Number P) * Qval buf < pow2 49)%Q as Hlt.
  { rewrite EP. change (pow2 49) with 562949953421312%Q. lra. }
  destruct (js_mul_near _ _ 49 NP Nb ltac:(lia) Hlt) as [Nl Lo Hi]. change (pow2 (49 - 54)) with (1 # 32)%Q in *.
  rewrite EP in Lo, Hi. split; [done|]. split; lra.
Qed.

(** The hold covers the price and draws on no more than there is. *)
Lemma hold_covers taskId motebitId P spendable credited now : 1 <= P < PRICE_LIMIT ->
  0 <= spendable <= MAX_SAFE_INTEGER -> (forall c, credited = Some c -> 0 <= c <= MAX_SAFE_INTEGER) ->
  let available := funds spendable credited in
  let hold := holdAmount taskId motebitId (Number P) (Number spendable) (Number <$> credited) now in
  (available < P -> hold = None) /\
  (P <= available -> exists H, hold = Some (Number H) /\ P <= H <= available /\ 5 * H <= 6 * P + 4).
Proof.
  intros HP HS HC available hold. unfold MAX_SAFE_INTEGER in *.
  assert (0 <= available < 2 ^ 53) as HA by (unfold available, funds; destruct credited; [specialize (HC _ eq_refl)|]; lia).
  assert (match Number <$> credited with Some c => Math_min (Number spendable) c | None => Number spendable end = Number available) as Ea.
  { unfold available, funds. destruct credited as [c|]; [|done]. specialize (HC _ eq_refl). by apply Math_min_Number; lia. }
  subst hold. unfold holdAmount. rewrite Ea. unfold allocateBudget. cbn [ar_risk_factor ar_estimated_cost default ba_amount_locked].
  destruct (risk_buffered P HP) as (Nl & L1 & L2). set (lock := js_mul _ _) in *.
  destruct (Number_value available HA) as [NA EA].
  rewrite (Math_min_nonneg lock (Number available) Nl NA). destruct (js_ltb (Number available) lock) eqn:Em.
  - unfold PRICE_LIMIT in HP. rewrite js_ltb_Number by lia. destruct (Z.ltb_spec available P).
    + split; [done|lia].
    + split; [lia|]. intros _. exists available. cbn [ba_amount_locked]. rewrite Math_round_Number by done.
      split; [done|]. split; [lia|]. apply js_ltb_spec in Em; [|done|done]. rewrite EA in Em.
      assert (5 * inject_Z available < 6 * inject_Z P + 1)%Q as Hq by lra.
      assert (inject_Z (5 * available) < inject_Z (6 * P + 1))%Q as Hz by (rewrite inject_Z_plus, !inject_Z_mult; exact Hq).
      rewrite <- Zlt_Qlt in Hz. lia.
  - destruct (price_value P ltac:(lia)) as (NP & EP & _ & P1). rewrite (js_ltb_false lock (Number P)) by (done || by rewrite EP).
    assert (Qval lock <= inject_Z available)%Q as Hle.
    { destruct (Qlt_le_dec (inject_Z available) (Qval lock)) as [Hlt|]; [|done]. rewrite <- EA in Hlt.
      apply js_ltb_spec in Hlt; [congruence|done|done]. }
    assert (P <= available) as HPA by (rewrite Zle_Qle; lra). split; [lia|]. intros _.
    destruct (Math_round_near _ Nl) as [H HH]; [apply (Qle_lt_trans _ 562949953421312); [lra|done]|].
    exists H. cbn [ba_amount_locked]. rewrite (round_Number _ _ HH). split; [done|].
    split; [split; [by apply (rounds_ge _ _ _ HH)|by apply (rounds_le _ _ _ HH)]|].
    pose proof (rt_low _ _ HH). assert (5 * inject_Z H < 6 * inject_Z P + 5)%Q as Hq by lra.
    assert (inject_Z (5 * H) < inject_Z (6 * P + 5))%Q as Hz by (rewrite inject_Z_plus, !inject_Z_mult; exact Hq).
    rewrite <- Zlt_Qlt in Hz. lia.
Qed.

(** ** The price of a listing *)

Lemma rate_complement r : nonneg r -> (Qval r <= 1 # 2)%Q -> near (js_sub (Number 1) r) (1 - Qval r) (1 # 9007199254740992).
Proof.
  intros Nr Hr. destruct (Number_value 1) as [N1 E1]; [done|]. change (inject_Z 1) with 1%Q in E1.
  assert (1 - Qval r == Qval (Number 1) - Qval r)%Q as E by (by rewrite E1).
  eapply near_eq; [|symmetry; exact E]. apply (js_sub_near (Number 1) r 1); [done|done|lia|rewrite E1; lra|by rewrite E1].
Qed.

(** Dividing by a rate's complement: the quotient times the divisor. *)
Lemma quotient_bounds U d Q k : (0 <= U)%Q -> (1 # 3 <= d)%Q -> (Q == U / d)%Q -> (3 * U <= k)%Q ->
  (Q * d == U)%Q /\ (0 <= Q)%Q /\ (Q <= k)%Q.
Proof.
  intros HU Hd E Hk. assert (Q * d == U)%Q as Ed by (rewrite E; field; lra). split; [done|]. split; [|].
  - rewrite E. apply Qle_shift_div_l; lra.
  - rewrite E. apply Qle_shift_div_r; [lra|]. nra.
Qed.

(** The errors of the price, put together. *)
Lemma price_error P Q U d r u : (0 <= d)%Q -> (d <= 1 - r + (1 # 9007199254740992))%Q ->
  (1 - r - (1 # 9007199254740992) <= d)%Q -> (0 <= r)%Q -> (Q * d == U)%Q -> (0 <= P)%Q -> (P <= 281474976710656)%Q ->
  (P - 1000000 * Q <= 55 # 100)%Q -> (1000000 * Q - P <= 55 # 100)%Q ->
  (1000000 * U - u <= 15 # 1000)%Q -> (u - 1000000 * U <= 15 # 1000)%Q ->
  (u - (3 # 5) <= P * (1 - r))%Q /\ (P * (1 - r) <= u + (3 # 5))%Q.
Proof.
  intros D0 D1 D2 R0 E P0 P1 H1 H2 H3 H4.
  assert ((P - 1000000 * Q) * d <= (55 # 100) * d)%Q as X1 by (apply Qmult_le_compat_r; done).
  assert ((1000000 * Q - P) * d <= (55 # 100) * d)%Q as X2 by (apply Qmult_le_compat_r; done).
  assert (P * d - 1000000 * U == (P - 1000000 * Q) * d)%Q as E1 by (rewrite <- E; ring).
  assert (1000000 * U - P * d == (1000000 * Q - P) * d)%Q as E2 by (rewrite <- E; ring).
  rewrite <- E1 in X1. rewrite <- E2 in X2.
  assert (d * P <= (1 - r + (1 # 9007199254740992)) * P)%Q as Y1 by (apply Qmult_le_compat_r; done).
  assert ((1 - r - (1 # 9007199254740992)) * P <= d * P)%Q as Y2 by (apply Qmult_le_compat_r; done).
  split; lra.
Qed.

Lemma listing_price u r : 1 <= u < 2 ^ 46 -> is_ratio r -> (Qval r <= 1 # 2)%Q ->
  exists P, priceSubmission (fromMicro (Number u)) r = Ok (Number P) /\ 1 <= P < PRICE_LIMIT /\
    (inject_Z u - (3 # 5) <= inject_Z P * (1 - Qval r))%Q /\ (inject_Z P * (1 - Qval r) <= inject_Z u + (3 # 5))%Q.
Proof.
  intros Hu Hr Hhalf. destruct (ratio_nonneg r Hr) as [Nr _]. pose proof (Qval_nonneg r Nr) as R0.
  destruct (price_value u ltac:(unfold PRICE_LIMIT; lia)) as (Nu & Eu & _ & _).
  assert (1 <= inject_Z u)%Q as U0 by (change 1%Q with (inject_Z 1); rewrite <- Zle_Qle; lia).
  assert (inject_Z u <= 70368744177663)%Q as U1 by (change 70368744177663%Q with (inject_Z 70368744177663); rewrite <- Zle_Qle; lia).
  destruct (div_micro_near (Number u) u 27 Nu Eu) as [NU Ulo Uhi];
    [lia|lia|change (pow2 27) with 134217728%Q; lra|]. fold (fromMicro (Number u)) in NU, Ulo, Uhi.
  change (pow2 (27 - 53)) with (1 # 67108864)%Q in *.
  assert (inject_Z u / 1000000 == inject_Z u * (1 # 1000000))%Q as Eq by done. rewrite Eq in Ulo, Uhi.
  set (U := Qval (fromMicro (Number u))) in *.
  destruct (rate_complement r Nr Hhalf) as [Nd Dlo Dhi]. set (d := js_sub (Number 1) r) in *.
  assert (1 # 3 <= Qval d)%Q as Hd by lra.
  destruct (quotient_bounds U (Qval d) (U / Qval d) (3 * U)) as (EQ & Q0 & Q1); [lra|done|done|lra|].
  set (Q := (U / Qval d)%Q) in *.
  destruct (js_div_near (fromMicro (Number u)) d 28 NU Nd) as [NG Glo Ghi]; fold U Q;
    [lra|lia|change (pow2 28) with 268435456%Q; lra| |].
  { right. apply (Qle_trans _ (pow2 (-30))); [by apply pow2_le|]. change (pow2 (-30)) with (1 # 1073741824)%Q.
    unfold Q. apply Qle_shift_div_l; lra. }
  fold U Q in Glo, Ghi. change (pow2 (28 - 53)) with (1 # 33554432)%Q in *. set (G := js_div (fromMicro (Number u)) d) in *.
  destruct MICRO_value as [Nm Em]. pose proof (Qval_nonneg G NG) as G0.
  destruct (js_mul_near G (Number MICRO) 48 NG Nm ltac:(lia)) as [Nt Tlo Thi];
    [rewrite Em; change (pow2 48) with 281474976710656%Q; lra|]. change (pow2 (48 - 54)) with (1 # 64)%Q in *.
  rewrite Em in Tlo, Thi. destruct (Math_round_near _ Nt) as [P HP]; [apply (Qle_lt_trans _ 281474976710656); [lra|done]|].
  pose proof (rt_low _ _ HP) as P1. pose proof (rt_high _ _ HP) as P2.
  assert (0 <= inject_Z P)%Q as P0 by (change 0%Q with (inject_Z 0); rewrite <- Zle_Qle; apply HP).
  destruct (price_error (inject_Z P) Q U (Qval d) (Qval r) (inject_Z u)) as [E1 E2];
    [lra|lra|lra|done|done|done|lra|lra|lra|lra|lra|].
  exists P. split; [|split; [|split; [exact E1|exact E2]]].
  - unfold priceSubmission. rewrite (proj2 (js_ltb_spec (Number 0) (fromMicro (Number u)) (Number_nonneg 0 ltac:(done)) NU)).
    2: { change (Qval (Number 0)) with 0%Q. fold U. lra. }
    unfold computeGrossAmount. destruct (ratio_checks r Hr) as [-> _].
    assert (js_leb (Number 1) r = false) as ->.
    { destruct (js_leb (Number 1) r) eqn:El; [|done]. apply js_leb_spec in El; [|by apply Number_nonneg|done].
      rewrite (proj2 (Number_value 1 ltac:(done))) in El. change (inject_Z 1) with 1%Q in El. lra. }
    cbn [orb result_bind]. fold d G. unfold toMicro. by rewrite (round_Number _ _ HP).
  - unfold PRICE_LIMIT. split.
    + assert (0 < P); [|lia]. rewrite Zlt_Qlt. change (inject_Z 0) with 0%Q. nra.
    + rewrite Zlt_Qlt. change (inject_Z (2 ^ 48)) with 281474976710656%Q. lra.
Qed.

(** The direct payment's fee: what a worker's net must be grossed up by. *)
Lemma p2p_fee N r : 0 <= N < 2 ^ 46 -> is_ratio r -> (Qval r <= 1 # 2)%Q ->
  exists fee, computeP2pFeeMicro (Number N) r = Ok (Number fee) /\ 0 <= fee /\
    (inject_Z N - (3 # 5) <= inject_Z (N + fee) * (1 - Qval r))%Q /\ (inject_Z (N + fee) * (1 - Qval r) <= inject_Z N + (3 # 5))%Q.
Proof.
  intros HN Hr Hhalf. destruct (ratio_nonneg r Hr) as [Nr _]. pose proof (Qval_nonneg r Nr) as R0.
  destruct (price_value N ltac:(unfold PRICE_LIMIT; lia)) as (NN & EN & N0 & _).
  assert (inject_Z N <= 70368744177663)%Q as N1 by (change 70368744177663%Q with (inject_Z 70368744177663); rewrite <- Zle_Qle; lia).
  destruct (rate_complement r Nr Hhalf) as [Nd Dlo Dhi]. set (d := js_sub (Number 1) r) in *.
  assert (1 # 3 <= Qval d)%Q as Hd by lra.
  assert (Qval (Number N) / Qval d == inject_Z N / Qval d)%Q as EQ0 by (by rewrite EN).
  destruct (quotient_bounds (inject_Z N) (Qval d) (inject_Z N / Qval d) (3 * inject_Z N)) as (EQ & Q0 & Q1); [lra|done|done|lra|].
  set (Q := (inject_Z N / Qval d)%Q) in *.
  destruct (js_div_near (Number N) d 48 NN Nd) as [NG Glo Ghi]; rewrite ?EQ0;
    [lra|lia|change (pow2 48) with 281474976710656%Q; lra| |].
  { destruct (Z.eq_dec N 0) as [->|]; [left; done|right]. apply (Qle_trans _ (pow2 (-30))); [by apply pow2_le|].
    change (pow2 (-30)) with (1 # 1073741824)%Q. unfold Q. apply Qle_shift_div_l; [lra|].
    assert (1 <= inject_Z N)%Q by (change 1%Q with (inject_Z 1); rewrite <- Zle_Qle; lia). lra. }
  rewrite EQ0 in Glo, Ghi. change (pow2 (48 - 53)) with (1 # 32)%Q in *.
  destruct (Math_round_near _ NG) as [P HP]; [apply (Qle_lt_trans _ 281474976710656); [lra|done]|].
  pose proof (rt_low _ _ HP) as P1. pose proof (rt_high _ _ HP) as P2.
  assert (0 <= inject_Z P)%Q as P0 by (change 0%Q with (inject_Z 0); rewrite <- Zle_Qle; apply HP).
  assert (N <= P <= 281474976710656) as HNP.
  { split; [|rewrite Zle_Qle; change (inject_Z 281474976710656) with 281474976710656%Q; lra].
    assert (inject_Z N < inject_Z (P + 1))%Q as Hz; [|rewrite <- Zlt_Qlt in Hz; lia].
    rewrite inject_Z_plus. change (inject_Z 1) with 1%Q. nra. }
  destruct (price_error (inject_Z P) (Q / 1000000) (inject_Z N / 1000000) (Qval d) (Qval r) (inject_Z N)) as [E1 E2];
    [lra|lra|lra|done|unfold Qdiv; rewrite <- EQ; ring|done|lra| | | | |];
    [change (1000000 * (Q / 1000000))%Q with (1000000 * (Q * (1 # 1000000)))%Q; lra..| | |].
  all: try (change (1000000 * (inject_Z N / 1000000))%Q with (1000000 * (inject_Z N * (1 # 1000000)))%Q; lra).
  exists (P - N). unfold computeP2pFeeMicro.
  assert (valid_fee_rate r = true) as ->.
  { apply andb_true_iff. split; [by destruct Hr as (_ & ? & _)|].
    apply js_ltb_spec; [done|by apply Number_nonneg|]. rewrite (proj2 (Number_value 1 ltac:(done))). change (inject_Z 1) with 1%Q. lra. }
  cbn [negb]. fold d. rewrite (round_Number _ _ HP), js_sub_exact by lia. split; [done|]. split; [lia|].
  replace (N + (P - N)) with P by lia. done.
Qed.

Lemma worker_earns P f u R : (inject_Z f - (3 # 5) <= inject_Z P * R)%Q -> (inject_Z P * R <= inject_Z f + (3 # 5))%Q ->
  (inject_Z u - (3 # 5) <= inject_Z P * (1 - R))%Q -> (inject_Z P * (1 - R) <= inject_Z u + (3 # 5))%Q ->
  u - 1 <= P - f <= u + 1.
Proof.
  intros A1 A2 B1 B2.
  assert (inject_Z P < inject_Z f + inject_Z u + 2)%Q as H1 by lra. assert (inject_Z f + inject_Z u < inject_Z P + 2)%Q as H2 by lra.
  change 2%Q with (inject_Z 2) in H1, H2. rewrite <- !inject_Z_plus, <- Zlt_Qlt in H1, H2. lia.
Qed.

(** ** Properties *)

(** C11: a listing's price is honoured from the submission to the payment.  A
    worker lists a price of [u] micro-units (in dollars, up to 2^46); the submission
    is priced so that the fee comes on top; it is funded just when the delegator's
    funds cover that price, by a hold of at least the price and at most those funds;
    and when the answer completes, the worker's payment and the relay's fee sum to
    the price exactly and the worker earns the listed amount to within one
    micro-unit, whatever the rate up to one half. *)
Theorem listing_price_honoured u r taskId motebitId sid receipt spendable credited now :
  1 <= u < 2 ^ 46 -> is_ratio r -> (Qval r <= 1 # 2)%Q ->
  0 <= spendable <= MAX_SAFE_INTEGER -> (forall c, credited = Some c -> 0 <= c <= MAX_SAFE_INTEGER) ->
  ~ not_executed receipt ->
  exists P, priceSubmission (fromMicro (Number u)) r = Ok (Number P) /\ 0 < P < PRICE_LIMIT /\
  let hold := holdAmount taskId motebitId (Number P) (Number spendable) (Number <$> credited) now in
  (funds spendable credited < P -> hold = None) /\
  (P <= funds spendable credited ->
   exists H body, hold = Some (Number H) /\ P <= H <= funds spendable credited /\
     answerSettlement taskId sid (Number P) None receipt r now = Ok body /\
     sb_amount_settled body + sb_platform_fee body = P /\ 0 <= sb_platform_fee body /\
     u - 1 <= sb_amount_settled body <= u + 1).
Proof.
  intros Hu Hr Hhalf HS HC Hx. destruct (listing_price u r Hu Hr Hhalf) as (P & EP & HP & P1 & P2).
  exists P. split; [done|]. split; [lia|]. destruct (hold_covers taskId motebitId P spendable credited now HP HS HC) as [Hn Hy].
  split; [exact Hn|]. intros Hle. destruct (Hy Hle) as (H & EH & HH & _).
  destruct (answer_settled taskId sid P None receipt r now ltac:(lia) Hr Hhalf) as (body & f & Eb & _ & _ & Hf & [F1 F2] & Hb).
  rewrite decide_False in Hb by done. destruct Hb as (_ & En & Ef).
  exists H, body. rewrite En, Ef. split; [done|]. split; [done|]. split; [done|]. split; [lia|]. split; [lia|].
  by apply (worker_earns P f u (Qval r)).
Qed.

(** C5: a priced answer moves exactly what was held for it.  Let a task be priced
    at [P] micro-units and at least that be held.  The settlement the relay computes
    for its receipt, once the settlement transaction records it, leaves nothing in
    the escrow: if the work failed, all of it returns to the delegator and nobody is
    paid; otherwise the worker receives [P] less a fee, the fee is the platform's
    rate of [P] to within one micro-unit, the delegator gets back exactly what was
    held beyond [P], and the fee is all that leaves the accounts. *)
Theorem priced_answer_settles frozen now r taskId sid a P receipt body motebitId worker uuid1 uuid2 d d' :
  0 < P < PRICE_LIMIT -> is_ratio r -> (Qval r <= 1 # 2)%Q ->
  escrow_ok d -> settle_fits body a uuid1 uuid2 d -> P <= heldSql a d -> worker <> default "" (hold_payer a d) ->
  answerSettlement taskId sid (Number P) (Some a) receipt r now = Ok body ->
  run (settleAnswer frozen now true body taskId a motebitId worker P uuid1 uuid2) d = (Ok true, d') ->
  heldSql a d' = 0 /\
  if decide (not_executed receipt)
  then sql_balance worker d' = sql_balance worker d /\ total_balance d' = total_balance d + heldSql a d /\
       forall payer, hold_payer a d = Some payer -> sql_balance payer d' = sql_balance payer d + heldSql a d
  else exists fee, 0 <= fee <= P /\ (inject_Z fee - 1 <= inject_Z P * Qval r <= inject_Z fee + 1)%Q /\
       sql_balance worker d' = sql_balance worker d + (P - fee) /\
       total_balance d' = total_balance d + (heldSql a d - fee) /\
       forall payer, hold_payer a d = Some payer -> sql_balance payer d' = sql_balance payer d + (heldSql a d - P).
Proof.
  intros HP Hr Hhalf Hok Hfit Hheld Hwp Eb H.
  destruct (answer_settled taskId sid P (Some a) receipt r now ltac:(lia) Hr Hhalf) as (body' & f & Eb' & _ & _ & Hf & [F1 F2] & Hb).
  rewrite Eb in Eb'. injection Eb' as <-.
  assert (0 <= sb_amount_settled body) as Hn by (destruct (decide _); destruct Hb as (_ & -> & _); lia).
  destruct (settle_distributed _ _ _ _ _ _ _ _ _ _ _ _ Hok Hfit (proj1 HP) Hn H) as [Hpos _ _ _ Hesc Hbal Htot].
  specialize (Hesc a). rewrite decide_True in Hesc by done.
  pose proof (Hbal worker) as Hw. rewrite decide_True in Hw by done.
  assert (hold_payer a d <> Some worker) as Hpw by (intros E; by rewrite E in Hwp). rewrite decide_False in Hw by done.
  assert (forall payer, hold_payer a d = Some payer -> sql_balance payer d' = sql_balance payer d + back_to_payer body P (heldSql a d)) as Hpay.
  { intros payer E. rewrite Hbal, decide_False, decide_True by congruence. lia. }
  unfold back_to_payer in *. clear H Hbal.
  destruct (decide (not_executed receipt)); destruct Hb as (Es & En & Ef).
  - assert (worker_part body = 0) as Ew by (unfold worker_part; by rewrite Es).
    assert (left_held body P (heldSql a d) = 0) as El by (unfold left_held; by rewrite Es). rewrite Ew, El, Ef in *.
    repeat (split; [lia|]). intros payer E. rewrite (Hpay payer E). lia.
  - assert (worker_part body = P - f) as Ew by (unfold worker_part; by rewrite Es, En).
    assert (left_held body P (heldSql a d) = 0) as El by (unfold left_held; rewrite Es, Ew; lia). rewrite Ew, El, Ef in *.
    split; [lia|]. exists f. split; [done|]. split; [split; lra|]. repeat (split; [lia|]).
    intros payer E. rewrite (Hpay payer E). lia.
Qed.

(** A ledger of which no step completed is settled in full, not in proportion. *)
Lemma no_step_completed_pays_all allocation ledger : steps ledger <> [] -> "completed" ∉ steps ledger ->
  settled_gross allocation (Some ledger) = Ok (ba_amount_locked allocation, settle_completed).
Proof.
  intros Hne Hno. unfold settled_gross.
  assert (filter (fun s => s = "completed") (steps ledger) = []) as ->.
  { clear Hne. induction (steps ledger) as [|x l IH]; [done|]. apply not_elem_of_cons in Hno as [Hx Hl].
    rewrite filter_cons_False by done. by apply IH. }
  cbn [length Z.of_nat]. destruct (steps ledger); [done|]. cbn -[Z.of_nat].
  destruct (Z.of_nat (S (length l)) =? 0); [done|]. destruct (Z.ltb_spec (Z.of_nat (S (length l))) 0); [lia|].
  by rewrite andb_false_r.
Qed.

(** ** At concrete inputs *)

Definition done_receipt (status : string) : ExecutionReceipt := {|
  rc_task_id := "t1"; relay_task_id := Some "t1"; rc_motebit_id := "bob"; rc_device_id := None; rc_status := status;
  signature := "sig"; result_hash := "hash"; rc_rest := "" |}.

Lemma default_rate : is_ratio PLATFORM_FEE_RATE /\ (Qval PLATFORM_FEE_RATE <= 1 # 2)%Q.
Proof. by split; [split; [|split]|]; vm_compute. Qed.

(** A price of 19.99 dollars: the submission costs 21.042105, the worker earns 19.99. *)
Lemma listing_price_honoured_witness : exists P H body,
  priceSubmission (fromMicro (Number 19990000)) PLATFORM_FEE_RATE = Ok (Number P) /\ P = 21042105 /\
  holdAmount "t1" "bob" (Number P) (Number 30000000) None 5 = Some (Number H) /\
  answerSettlement "t1" "s1" (Number P) None (done_receipt "completed") PLATFORM_FEE_RATE 5 = Ok body /\
  sb_amount_settled body + sb_platform_fee body = P /\ 19989999 <= sb_amount_settled body <= 19990001.
Proof.
  destruct (listing_price_honoured 19990000 PLATFORM_FEE_RATE "t1" "bob" "s1" (done_receipt "completed") 30000000 None 5)
    as (P & EP & HP & _ & Hf); [lia|apply default_rate|apply default_rate|by vm_compute|done|by intros [E|E]|].
  assert (P = 21042105) as EP'.
  { assert (Ok (as_js_number (Number P)) = (Ok (JInt 21042105) : result money_error js_number)) as E.
    { transitivity (result_bind (Ok (Number P) : result money_error number) (fun x => Ok (as_js_number x))); [done|].
      rewrite <- EP. vm_compute. reflexivity. }
    unfold PRICE_LIMIT in HP. rewrite as_js_Number in E by lia. by injection E. }
  destruct Hf as (H & body & EH & _ & Eb & Es & _ & Eu); [rewrite EP'; by vm_compute|].
  exists P, H, body. split; [exact EP|]. split; [exact EP'|]. split; [exact EH|]. split; [exact Eb|]. split; [exact Es|exact Eu].
Defined.

(** The demonstration's task: held 600 for a price of 500. *)
Definition demo_settlement (status : string) : result money_error settlement_body :=
  answerSettlement "t1" "s1" (Number 500) (Some "x402-t1") (done_receipt status) PLATFORM_FEE_RATE 30.
Definition demo_body (status : string) : settlement_body :=
  match demo_settlement status with Ok body => body | Throw _ => answered settle_completed 0 0 end.
Definition completed_body : settlement_body := Eval vm_compute in demo_body "completed".
Definition failed_body : settlement_body := Eval vm_compute in demo_body "failed".
Definition after_completed : relay_db := Eval vm_compute in
  db_after (settleAnswer false 30 true completed_body "t1" "x402-t1" "bob" "bob" 500 "u4" "u5") funded.
Definition after_failed : relay_db := Eval vm_compute in
  db_after (settleAnswer false 30 true failed_body "t1" "x402-t1" "bob" "bob" 500 "u4" "u5") funded.

Lemma priced_answer_settles_witness :
  heldSql "x402-t1" after_completed = 0 /\ heldSql "x402-t1" after_failed = 0 /\
  (exists fee, 0 <= fee <= 500 /\ total_balance after_completed = total_balance funded + (600 - fee)) /\
  sql_balance "alice" after_completed = sql_balance "alice" funded + 100 /\
  sql_balance "alice" after_failed = sql_balance "alice" funded + 600.
Proof.
  destruct (priced_answer_settles false 30 PLATFORM_FEE_RATE "t1" "s1" "x402-t1" 500 (done_receipt "completed") completed_body
    "bob" "bob" "u4" "u5" funded after_completed) as (H1 & H2);
    [done|apply default_rate|apply default_rate|exact funded_ok|eapply demo_fits; vm_compute; reflexivity|by vm_compute|by vm_compute
    |vm_compute; reflexivity|vm_compute; reflexivity|].
  destruct (priced_answer_settles false 30 PLATFORM_FEE_RATE "t1" "s1" "x402-t1" 500 (done_receipt "failed") failed_body
    "bob" "bob" "u4" "u5" funded after_failed) as (F1 & F2);
    [done|apply default_rate|apply default_rate|exact funded_ok|eapply demo_fits; vm_compute; reflexivity|by vm_compute|by vm_compute
    |vm_compute; reflexivity|vm_compute; reflexivity|].
  rewrite decide_False in H2 by (by intros [E|E]). rewrite decide_True in F2 by (by left).
  destruct H2 as (fee & Hf & _ & _ & Ht & Hp). destruct F2 as (_ & _ & Fp).
  split; [exact H1|]. split; [exact F1|]. split; [exists fee; split; [exact Hf|exact Ht]|].
  split; [apply (Hp "alice"); by vm_compute|apply (Fp "alice"); by vm_compute].
Defined.
