(* ===== verification/EscrowRefunds.v ===== *)
(** * Refunds of an escrow: the stale sweep and the undelivered forward

    What [releaseStaleAllocations] and [refundExhaustedForward] of [EscrowCallers]
    pay back, to whom, and what they leave alone. *)

From Stdlib Require Import String.
From S2P Require Import Prelude Float64 JsMap JsString TaskTypes TaskQueue LedgerTypes Driver SqlStore SqlRefines.
From S2P Require Import Escrow EscrowLaws EscrowCallers EscrowRuns EscrowDemo EscrowSettle.
Local Open Scope Z_scope.
Local Open Scope motebit_scope.

Lemma flag_ok a reason d n d' : run (flagForReview a reason) d = (Ok n, d') -> quiet d d'.
Proof. intros H. by apply update_allocations_ok in H as (_ & _ & ?). Qed.

Lemma retire_ok a d n d' : run (retire_locked a) d = (Ok n, d') -> quiet d d'.
Proof. intros H. by apply update_allocations_ok in H as (_ & _ & ?). Qed.

Lemma allocationHeld_ok a d z d' : run (allocationHeld a) d = (Ok z, d') -> z = Z.max 0 (heldSql a d) /\ d' = d.
Proof. unfold allocationHeld. by intros (raw & d1 & [= <- <-] & [= <- <-])%call_bind_ok. Qed.

Lemma quiet_moves d d' : quiet d d' -> moves [] d d'.
Proof. intros Hq. eapply moves_quiet; [constructor|done]. Qed.

#[export] Hint Resolve quiet_moves flag_ok retire_ok : motebit.

(** ** The sweep *)

Section sweep.
Context (frozen : bool) (now : Z) (tasks : task_db) (grant : string -> bool) (uuids : string -> string).
Implicit Types (d : relay_db) (x : allocation_row).

(** Neither granted and unanswered, nor answered and not settled. *)
Definition swept x : bool := negb (grant (al_task_id x)) && negb (holdsUnsettledClaim (al_task_id x) tasks).

(** What the sweep pays back for one stale allocation. *)
Definition refund_of d x : Z :=
  if swept x && bool_decide (is_Some (hold_payer (al_allocation_id x) d)) then Z.max 0 (heldSql (al_allocation_id x) d) else 0.

Definition sweep_move (p : string) (amount : Z) x : AllocationMove :=
  Refund sweep_refund (al_allocation_id x) (JInt amount) p
    (String.append "Stale allocation release for task " (al_task_id x)).

Definition sweep_list d x : list (AllocationMove * string) :=
  if 0 <? refund_of d x
  then [(sweep_move (default ""%string (hold_payer (al_allocation_id x) d)) (refund_of d x) x, uuids (al_allocation_id x))]
  else [].

Lemma releaseStale_moves x d n d' : escrow_wf d -> fresh_uuid (uuids (al_allocation_id x)) d ->
  run (releaseStale frozen now tasks grant x (uuids (al_allocation_id x))) d = (Ok n, d') -> moves (sweep_list d x) d d'.
Proof.
  intros Hw Hf. unfold releaseStale, sweep_list, refund_of, swept. destruct (grant (al_task_id x)).
  { intros (m & d1 & H & [= _ <-])%call_bind_ok. eauto with motebit. }
  destruct (holdsUnsettledClaim (al_task_id x) tasks); [intros [= _ <-]; constructor|].
  rewrite andb_false_r. intros (held & d1 & Hh & H)%call_bind_ok. apply allocationHeld_ok in Hh as [-> ->]. cbn [negb andb].
  destruct (0 <? Z.max 0 _) eqn:E.
  - apply call_bind_ok in H as (payer & d1 & [= <- <-] & H). destruct (hold_payer (al_allocation_id x) d) as [p|] eqn:Ep.
    + rewrite bool_decide_true by done. rewrite E. apply call_bind_ok in H as ([] & d1 & Hm & H).
      eapply (moves_app [_] []); [by apply (move_moves frozen now)|]. eauto with motebit.
    + apply call_bind_ok in H as (m & d1 & H & [= _ <-]). rewrite bool_decide_false by (by intros [? ?]). eauto with motebit.
  - destruct (bool_decide _); rewrite ?E; eauto with motebit.
Qed.

(** An allocation the movements do not name keeps what it holds and its payer. *)
Lemma moves_apart l a d d' : escrow_wf d -> moves l d d' -> Forall (fun p => is_hold_move p.1 = false) l ->
  Forall (fun p => a <> move_allocation p.1) l -> heldSql a d' = heldSql a d /\ hold_payer a d' = hold_payer a d.
Proof.
  intros Hw Hm Hl Ha. split; [|unfold hold_payer; by rewrite (moves_payers _ _ _ a Hw Hm Hl)].
  rewrite (ma_held _ _ _ (moves_all _ _ _ Hw Hm)), zsum_zero; [lia|]. intros p Hp. unfold held_by.
  rewrite Forall_forall in Ha. rewrite decide_False; [done|]. by apply Ha.
Qed.

Lemma refund_of_apart l x d d' : escrow_wf d -> moves l d d' -> Forall (fun p => is_hold_move p.1 = false) l ->
  Forall (fun p => al_allocation_id x <> move_allocation p.1) l -> refund_of d' x = refund_of d x.
Proof.
  intros Hw Hm Hl Ha. destruct (moves_apart l _ d d' Hw Hm Hl Ha) as [E1 E2]. unfold refund_of. by rewrite E1, E2.
Qed.

Lemma refund_of_payer d x : 0 < refund_of d x -> exists p, hold_payer (al_allocation_id x) d = Some p.
Proof.
  unfold refund_of. destruct (swept x); [|done]. case_bool_decide as H; [|done]. by destruct H as [p ->]; eauto.
Qed.

(** The movements of the whole sweep, summed over the stale allocations. *)
Record sweep_sums (stale : list allocation_row) d (l : list (AllocationMove * string)) : Prop := {
  sw_holds : Forall (fun p => is_hold_move p.1 = false) l;
  sw_ids : Forall (fun p => move_allocation p.1 ∈ (al_allocation_id <$> stale)) l;
  sw_drawn : forall u, u ∈ drawn l -> u ∈ ((fun x => uuids (al_allocation_id x)) <$> stale);
  sw_held : forall a, zsum (held_by a) l = - zsum (fun x => if decide (a = al_allocation_id x) then refund_of d x else 0) stale;
  sw_gained : forall i, zsum (gained_by i) l =
    zsum (fun x => if decide (hold_payer (al_allocation_id x) d = Some i) then refund_of d x else 0) stale;
}.

Lemma sweep_list_sums d x : sweep_sums [x] d (sweep_list d x).
Proof.
  unfold sweep_list. assert (0 <= refund_of d x) as H0 by (unfold refund_of; destruct (_ && _); lia).
  destruct (0 <? refund_of d x) eqn:E.
  - destruct (refund_of_payer d x) as [p Hp]; [lia|]. rewrite Hp. split; try (by repeat constructor).
    + by intros u Hu.
    + intros a. cbn. unfold held_by. cbn -[Z.opp]. case_decide; lia.
    + intros i. cbn. unfold gained_by. cbn. rewrite Hp. repeat case_decide; congruence.
  - assert (refund_of d x = 0) as E0 by lia. split; try (by repeat constructor).
    + intros a. cbn. rewrite E0. by case_decide.
    + intros i. cbn. rewrite E0. by case_decide.
Qed.

Lemma releaseEach_moves stale : forall d n d', escrow_wf d -> NoDup (al_allocation_id <$> stale) ->
  NoDup ((fun x => uuids (al_allocation_id x)) <$> stale) ->
  (forall x, x ∈ stale -> fresh_uuid (uuids (al_allocation_id x)) d) ->
  run (releaseEach frozen now tasks grant uuids stale) d = (Ok n, d') ->
  exists l, moves l d d' /\ sweep_sums stale d l.
Proof.
  induction stale as [|x stale IH]; intros d n d' Hw Hn Hu Hf H.
  - injection H as _ <-. exists []. split; [constructor|]. by split; try constructor.
  - apply call_bind_ok in H as (n1 & d1 & H1 & H). apply call_bind_ok in H as (n2 & d2 & H2 & [= _ <-]).
    cbn in Hn, Hu. apply NoDup_cons in Hn as [Hx Hn]. apply NoDup_cons in Hu as [Hux Hu].
    pose proof (releaseStale_moves x d n1 d1 Hw (Hf x ltac:(by left)) H1) as Hm1.
    pose proof (sweep_list_sums d x) as [S1 S2 S3 S4 S5]. pose proof (ma_wf _ _ _ (moves_all _ _ _ Hw Hm1)) as Hw1.
    destruct (IH d1 n2 d2 Hw1 Hn Hu) as (l & Hm2 & [T1 T2 T3 T4 T5]); [|exact H2|].
    { intros y Hy. apply (moves_fresh _ _ _ _ Hw Hm1); [|apply Hf; by right].
      intros Hin. apply S3, list_elem_of_singleton in Hin. apply Hux. rewrite <- Hin. apply list_elem_of_fmap. by exists y. }
    assert (forall y, y ∈ stale -> refund_of d1 y = refund_of d y /\
              hold_payer (al_allocation_id y) d1 = hold_payer (al_allocation_id y) d) as Hsame.
    { intros y Hy. assert (Forall (fun p => al_allocation_id y <> move_allocation p.1) (sweep_list d x)) as Ha.
      { eapply Forall_impl; [exact S2|]. intros p Hp E. cbn in Hp. rewrite <- E in Hp. apply list_elem_of_singleton in Hp.
        apply Hx. rewrite <- Hp. by apply list_elem_of_fmap_2. }
      split; [by apply (refund_of_apart _ y _ _ Hw Hm1)|]. by apply (moves_apart _ _ _ _ Hw Hm1). }
    exists (sweep_list d x ++ l). split; [by eapply moves_app|]. split.
    + by apply Forall_app.
    + apply Forall_app. split; (eapply Forall_impl; [eassumption|]); intros p Hp; cbn in Hp |- *;
        [apply list_elem_of_singleton in Hp as ->; by left|by right].
    + intros u Hin. unfold drawn in Hin. rewrite omap_app in Hin. cbn. apply elem_of_app in Hin as [Hin|Hin].
      * apply S3, list_elem_of_singleton in Hin as ->. by left.
      * right. by apply T3.
    + intros a. rewrite zsum_app, S4, T4. cbn. rewrite (zsum_ext _ (fun y => if decide (a = al_allocation_id y) then refund_of d y else 0) stale);
        [lia|]. intros y Hy. by destruct (Hsame y Hy) as [-> _].
    + intros i. rewrite zsum_app, S5, T5. cbn.
      rewrite (zsum_ext _ (fun y => if decide (hold_payer (al_allocation_id y) d = Some i) then refund_of d y else 0) stale);
        [lia|]. intros y Hy. by destruct (Hsame y Hy) as [-> ->].
Qed.
End sweep.

(** ** Lists *)

Lemma filter_sublist {A} (f : A -> bool) (l : list A) : List.filter f l `sublist_of` l.
Proof.
  induction l as [|x l IH]; [constructor|]. cbn [List.filter]. destruct (f x); [by apply sublist_skip|by apply sublist_cons].
Qed.

(** A sum over the rows with one key. *)
Lemma zsum_key {A} (key : A -> string) (f : A -> Z) (l : list A) x : NoDup (key <$> l) -> x ∈ l ->
  zsum (fun y => if decide (key x = key y) then f y else 0) l = f x.
Proof.
  induction l as [|y l IH]; intros Hn Hx; [by apply elem_of_nil in Hx|]. cbn in Hn |- *. apply NoDup_cons in Hn as [Hy Hn].
  apply elem_of_cons in Hx as [->|Hx].
  - rewrite decide_True, zsum_zero by done || (intros z Hz; rewrite decide_False; [done|]; intros E; apply Hy; rewrite E;
      by apply list_elem_of_fmap_2). lia.
  - rewrite decide_False, IH by (done || (intros E; apply Hy; rewrite <- E; by apply list_elem_of_fmap_2)). lia.
Qed.

(** ** Refunds run *)

Lemma find_allocation_elem a x d : find_allocation a d = Some x -> x ∈ relay_allocations d /\ al_allocation_id x = a.
Proof. intros [Hin E%bool_decide_eq_true]%find_some. split; [by apply list_elem_of_In|done]. Qed.

Lemma find_allocation_of x d : escrow_wf d -> x ∈ relay_allocations d -> find_allocation (al_allocation_id x) d = Some x.
Proof.
  intros Hw Hx. pose proof (ew_allocations _ Hw) as Hn. unfold find_allocation. induction (relay_allocations d) as [|y l IH].
  - by apply elem_of_nil in Hx.
  - cbn in Hn |- *. apply NoDup_cons in Hn as [Hy Hn]. apply elem_of_cons in Hx as [->|Hx].
    + by rewrite bool_decide_true.
    + rewrite bool_decide_false; [by apply IH|]. intros E. apply Hy. rewrite E. by apply list_elem_of_fmap_2.
Qed.

(** A refund of what the escrow holds goes through. *)
Lemma refund_runs k a z p desc uuid now d x : escrow_wf d -> fresh_uuid uuid d -> find_allocation a d = Some x ->
  hold_payer a d = Some p -> 0 < z <= heldSql a d -> Number_isSafeInteger (JInt z) = true ->
  exists d' row, run (moveAllocationMoney false (Refund k a (JInt z) p desc) uuid now) d = (Ok tt, d') /\ moved p z [row] d d'.
Proof.
  intros Hw Hu Hx Hp Hz Hs. rewrite (out_runs now (Refund k a (JInt z) p desc) z x uuid d) by (done || cbn [move_allocation]; done || lia).
  by apply pay_holder_runs; [..|lia].
Qed.

Definition safe_escrow (d : relay_db) : Prop := forall a, heldSql a d <= MAX_SAFE_INTEGER.

Section sweep_runs.
Context (now : Z) (tasks : task_db) (grant : string -> bool) (uuids : string -> string).
Implicit Types (d : relay_db) (x : allocation_row).

Lemma releaseStale_runs x u d : escrow_wf d -> fresh_uuid u d -> safe_escrow d ->
  (exists x', find_allocation (al_allocation_id x) d = Some x') ->
  exists n d', run (releaseStale false now tasks grant x u) d = (Ok n, d').
Proof.
  intros Hw Hf Hs [x' Hx]. unfold releaseStale. destruct (grant (al_task_id x)); [by eexists _, _|].
  destruct (holdsUnsettledClaim (al_task_id x) tasks); [by eexists _, _|]. rewrite andb_false_r.
  rewrite (call_bind_run _ _ _ _ _ (allocationHeld_runs (al_allocation_id x) d)).
  destruct (0 <? Z.max 0 _) eqn:E; [|by eexists _, _].
  destruct (hold_payer (al_allocation_id x) d) as [p|] eqn:Ep.
  - assert (run (allocationHoldPayer (al_allocation_id x)) d = (Ok (Some p), d)) as E3 by (cbn; unfold stmt_fn; by rewrite Ep).
    rewrite (call_bind_run _ _ _ _ _ E3). specialize (Hs (al_allocation_id x)).
    destruct (refund_runs sweep_refund (al_allocation_id x) (Z.max 0 (heldSql (al_allocation_id x) d)) p
      (String.append "Stale allocation release for task " (al_task_id x)) u now d x' Hw Hf Hx Ep) as (d1 & _ & E1 & _);
      [lia|apply safe_amount_of; lia|]. rewrite (call_bind_run _ _ _ _ _ E1). by eexists _, _.
  - assert (run (allocationHoldPayer (al_allocation_id x)) d = (Ok None, d)) as E3 by (cbn; unfold stmt_fn; by rewrite Ep).
    rewrite (call_bind_run _ _ _ _ _ E3). by eexists _, _.
Qed.

Lemma releaseEach_runs stale : forall d, escrow_ok d -> safe_escrow d -> NoDup (al_allocation_id <$> stale) ->
  NoDup ((fun x => uuids (al_allocation_id x)) <$> stale) ->
  (forall x, x ∈ stale -> fresh_uuid (uuids (al_allocation_id x)) d) ->
  (forall x, x ∈ stale -> exists x', find_allocation (al_allocation_id x) d = Some x') ->
  exists n d', run (releaseEach false now tasks grant uuids stale) d = (Ok n, d').
Proof.
  induction stale as [|x stale IH]; intros d [Hw Hok] Hs Hn Hu Hf Hx; [by eexists _, _|].
  destruct (releaseStale_runs x (uuids (al_allocation_id x)) d Hw (Hf x ltac:(by left)) Hs (Hx x ltac:(by left)))
    as (n1 & d1 & H1). cbn [releaseEach]. rewrite (call_bind_run _ _ _ _ _ H1).
  cbn in Hn, Hu. apply NoDup_cons in Hn as [Hxn Hn]. apply NoDup_cons in Hu as [Hux Hu].
  pose proof (releaseStale_moves false now tasks grant uuids x d n1 d1 Hw (Hf x ltac:(by left)) H1) as Hm1.
  pose proof (moves_all _ _ _ Hw Hm1) as [W1 H K _ Keys _ _ O1].
  pose proof (sweep_list_sums tasks grant uuids d x) as [_ _ S3 S4 _].
  destruct (IH d1) as (n2 & d2 & H2); [by split; [|apply O1]| |done|done| | |].
  - intros a. rewrite H, S4. specialize (Hs a). cbn.
    assert (0 <= refund_of tasks grant d x) by (unfold refund_of; destruct (_ && _); lia). case_decide; lia.
  - intros y Hy. apply (moves_fresh _ _ _ _ Hw Hm1); [|apply Hf; by right].
    intros Hin. apply S3, list_elem_of_singleton in Hin. apply Hux. rewrite <- Hin. apply list_elem_of_fmap. by exists y.
  - intros y Hy. destruct (Hx y ltac:(by right)) as (y' & Ey). destruct (find_key _ _ _ _ Keys Ey) as (y2 & ? & _). by exists y2.
  - rewrite (call_bind_run _ _ _ _ _ H2). by eexists _, _.
Qed.
End sweep_runs.

(** Whatever the sweep does, it touches only the rows it selects. *)
Lemma sweep_moves frozen now horizonMs tasks grant uuids d n d' : escrow_wf d ->
  NoDup ((fun x => uuids (al_allocation_id x)) <$> relay_allocations d) ->
  (forall x, x ∈ relay_allocations d -> fresh_uuid (uuids (al_allocation_id x)) d) ->
  run (releaseStaleAllocations frozen now horizonMs tasks grant uuids) d = (Ok n, d') ->
  exists l, moves l d d' /\ Forall (fun p => is_hold_move p.1 = false) l /\
    Forall (fun p => move_allocation p.1 ∈ (al_allocation_id <$> List.filter (is_stale (now - horizonMs)) (relay_allocations d))) l.
Proof.
  intros Hw Hu Hf H. set (stale := List.filter _ _).
  assert (stale `sublist_of` relay_allocations d) as Hsub by apply filter_sublist.
  apply catch_ok in H as [H|(e & d1 & H & [= <- <-])].
  - apply call_bind_ok in H as (st & d1 & [= <- <-] & H). fold stale in H.
    destruct (releaseEach_moves frozen now tasks grant uuids stale d n d' Hw) as (l & Hm & [S1 S2 _ _ _]); [| | |by (destruct stale; [exact H|by apply txn_committed in H])|by exists l].
    + eapply sublist_NoDup; [exact (ew_allocations _ Hw)|apply fmap_sublist, Hsub].
    + eapply sublist_NoDup; [exact Hu|apply fmap_sublist, Hsub].
    + intros x Hx. apply Hf. apply list_elem_of_In, filter_In in Hx as [Hx _]. by apply list_elem_of_In.
  - exists []. split; [|by split; constructor]. unfold call_bind in H. cbn in H. destruct (List.filter _ _); [done|].
    unfold all_or_nothing in H. destruct (releaseEach _ _ _ _ _ _ _) as [[k|e'] d2]; [done|]. injection H as _ <-. constructor.
Qed.

(** ** The undelivered forward *)

(** A sent forward of the allocation, not yet acknowledged. *)
Record pending_forward (sid a : string) (f : forward_row) (d : relay_db) : Prop := {
  pf_row : f ∈ relay_federation_settlements d;
  pf_id : f_settlement_id f = sid;
  pf_sent : is_Some (downstream_relay_id f);
  pf_pending : f_status f = fwd_pending;
  pf_allocation : f_allocation_id f = Some a;
}.

Definition fails (sid : string) (g : forward_row) : bool :=
  bool_decide (f_settlement_id g = sid) && bool_decide (f_status g = fwd_pending).

Lemma forwardOf_run sid f d : escrow_wf d -> f ∈ relay_federation_settlements d -> f_settlement_id f = sid ->
  is_Some (downstream_relay_id f) -> run (forwardOf sid) d = (Ok (Some f), d).
Proof.
  intros Hw Hf Hs Hd. unfold forwardOf, select. cbn. unfold stmt_fn. do 2 f_equal. f_equal.
  apply (find_unique f_settlement_id); [apply Hw|done| |].
  - by intros g _ [->%bool_decide_eq_true _]%andb_true_iff.
  - by rewrite !bool_decide_true.
Qed.

Lemma forward_return_runs sid a f u now d x : escrow_wf d -> pending_forward sid a f d -> find_allocation a d = Some x ->
  0 <= gross_amount f <= MAX_SAFE_INTEGER ->
  run (moveAllocationMoney false (ForwardReturn a (JInt (gross_amount f)) sid) u now) d
  = (Ok tt, upd_forwards (update_rows (fails sid) set_failed) d).
Proof.
  intros Hw [Hf Hs Hd Hp Ha] Hx Hz. unfold moveAllocationMoney. cbn [move_amount]. unfold safe_amount.
  rewrite safe_amount_of by done. rewrite (proj2 (Z.leb_le 0 _)) by lia. cbn [andb check move_allocation].
  assert (run (select (find_allocation a)) d = (Ok (Some x), d)) as E1 by (cbn; unfold stmt_fn; by rewrite Hx).
  rewrite (call_bind_run _ _ _ _ _ E1). unfold move_forward_return.
  rewrite (call_bind_run _ _ d (Some f) d).
  - by rewrite Hp, Z.eqb_refl.
  - unfold select. cbn. unfold stmt_fn. do 2 f_equal. apply (find_unique f_settlement_id); [apply Hw|done| |].
    + intros g _ [->%bool_decide_eq_true _]%andb_true_iff. done.
    + by rewrite Hs, Ha, !bool_decide_true.
Qed.

(** ** Properties *)

(** C19: the stale sweep pays every stale escrow back to the party that funded it,
    in full, and nothing else.  Unfrozen, over amounts a number holds exactly, the
    sweep commits; each stale allocation that is neither granted and unanswered nor
    answered and unsettled, and has one hold payer, ends with an empty escrow, its
    payer credited with what was held; every other allocation keeps its escrow and
    every other account its balance. *)
Theorem stale_sweep_refunds now horizonMs tasks grant uuids d :
  escrow_ok d -> safe_escrow d ->
  NoDup ((fun x => uuids (al_allocation_id x)) <$> relay_allocations d) ->
  (forall x, x ∈ relay_allocations d -> fresh_uuid (uuids (al_allocation_id x)) d) ->
  let stale := List.filter (is_stale (now - horizonMs)) (relay_allocations d) in
  let refund := refund_of tasks grant d in
  exists n d', run (releaseStaleAllocations false now horizonMs tasks grant uuids) d = (Ok n, d') /\
    (forall x, x ∈ stale -> heldSql (al_allocation_id x) d' = heldSql (al_allocation_id x) d - refund x) /\
    (forall a, a ∉ (al_allocation_id <$> stale) -> heldSql a d' = heldSql a d) /\
    (forall i, sql_balance i d' = sql_balance i d +
       zsum (fun x => if decide (hold_payer (al_allocation_id x) d = Some i) then refund x else 0) stale) /\
    escrow_ok d'.
Proof.
  intros [Hw Hok] Hs Hu Hf stale refund.
  assert (stale `sublist_of` relay_allocations d) as Hsub by apply filter_sublist.
  assert (NoDup (al_allocation_id <$> stale)) as Hns
    by (eapply sublist_NoDup; [exact (ew_allocations _ Hw)|apply fmap_sublist, Hsub]).
  assert (NoDup ((fun x => uuids (al_allocation_id x)) <$> stale)) as Hus
    by (eapply sublist_NoDup; [exact Hu|apply fmap_sublist, Hsub]).
  assert (forall x, x ∈ stale -> x ∈ relay_allocations d) as Hin
    by (intros x [Hx _]%list_elem_of_In%filter_In; by apply list_elem_of_In).
  destruct (releaseEach_runs now tasks grant uuids stale d) as (n & d' & Hrun);
    [by split|done|done|exact Hus|by intros x Hx; apply Hf, Hin|
     intros x Hx; exists x; by apply find_allocation_of; [|apply Hin]|].
  destruct (releaseEach_moves false now tasks grant uuids stale d n d' Hw Hns) as (l & Hm & [S1 S2 S3 S4 S5]);
    [exact Hus|by intros x Hx; apply Hf, Hin|exact Hrun|].
  destruct (moves_all _ _ _ Hw Hm) as [W1 H B _ _ _ _ O].
  assert (exists n', run (releaseStaleAllocations false now horizonMs tasks grant uuids) d = (Ok n', d')) as (n' & Hrun').
  { unfold releaseStaleAllocations, call_catch. rewrite (call_bind_run _ _ d stale d) by done.
    destruct stale as [|x l0] eqn:Est; [injection Hrun as _ <-; by exists 0%nat|]. exists n.
    change (run (run_transaction (releaseEach false now tasks grant uuids (x :: l0))) d) with
      (all_or_nothing (run (releaseEach false now tasks grant uuids (x :: l0))) d). unfold all_or_nothing. by rewrite Hrun. }
  exists n', d'. split; [done|]. split; [|split; [|split]].
  - intros x Hx. rewrite H, S4, zsum_key by done. unfold refund. lia.
  - intros a Ha. rewrite H, S4, zsum_zero; [lia|]. intros x Hx. rewrite decide_False; [done|].
    intros ->. apply Ha. by apply list_elem_of_fmap_2.
  - intros i. by rewrite B, S5.
  - split; [done|by apply O].
Qed.

(** The exhaustion path refunds an allocation of the task unless it is disputed, or
    is locked under a claim recorded unrecoverable and not settled. *)
Definition keeps_escrow (tasks : task_db) (taskId : string) (alloc : allocation_row) : bool :=
  in_status "disputed" alloc ||
  (in_status "locked" alloc && bool_decide (is_Some (claim_unrecoverable_at alloc)) && holdsUnsettledClaim taskId tasks).

(** The refund itself, once the forward's gross is back. *)
Lemma exhausted_runs tasks retry refundId uuid now d alloc f p :
  let a := al_allocation_id alloc in
  escrow_ok d -> fresh_uuid uuid d -> List.find (of_task (rt_task_id retry)) (relay_allocations d) = Some alloc ->
  pending_forward (rt_settlement_id retry) a f d -> 0 <= gross_amount f ->
  0 < heldSql a d + gross_amount f <= MAX_SAFE_INTEGER -> hold_payer a d = Some p ->
  keeps_escrow tasks (rt_task_id retry) alloc = false ->
  exists d', run (refundExhaustedForward false now tasks retry refundId uuid) d = (Ok refunded, d') /\
    moves [(ForwardReturn a (JInt (gross_amount f)) (rt_settlement_id retry), uuid);
           (Refund retry_exhaustion_refund a (JInt (heldSql a d + gross_amount f)) p
              (String.append "Retry exhaustion refund for task " (rt_task_id retry)), uuid)] d d' /\
    relay_federation_settlements d' = update_rows (fails (rt_settlement_id retry)) set_failed (relay_federation_settlements d) /\
    relay_allocations d' = update_rows (fun x => of_id a x && in_status "locked" x) (with_status "released") (relay_allocations d).
Proof.
  intros a [Hw Hok] Hu Ht Hf Hg Hz Hp Hk. apply find_some in Ht as Hin. destruct Hin as [Hin _]. apply list_elem_of_In in Hin.
  pose proof (find_allocation_of _ _ Hw Hin) as Hx. fold a in Hx. pose proof (Hok a) as Ha.
  pose proof (forward_return_runs _ a f uuid now d alloc Hw Hf Hx ltac:(lia)) as R1.
  set (d1 := upd_forwards (update_rows (fails (rt_settlement_id retry)) set_failed) d) in *.
  pose proof (move_moves false now (ForwardReturn a (JInt (gross_amount f)) (rt_settlement_id retry)) uuid d d1 Hw (conj Hu I) R1) as M1.
  pose proof (moves_all _ _ _ Hw M1) as A1. pose proof (ma_wf _ _ _ A1) as Hw1.
  assert (heldSql a d1 = heldSql a d + gross_amount f) as E1
    by (rewrite (ma_held _ _ _ A1); cbn; unfold held_by; cbn; rewrite decide_True by done; lia).
  assert (hold_payer a d1 = Some p) as Hp1 by exact Hp. assert (fresh_uuid uuid d1) as Hu1 by exact Hu.
  destruct (refund_runs retry_exhaustion_refund a (heldSql a d + gross_amount f) p
    (String.append "Retry exhaustion refund for task " (rt_task_id retry)) uuid now d1 alloc Hw1 Hu1 Hx Hp1) as (d2 & row & R2 & Hmv);
    [lia|apply safe_amount_of; lia|].
  pose proof (move_moves false now (Refund retry_exhaustion_refund a (JInt (heldSql a d + gross_amount f)) p _) uuid d1 d2 Hw1 (conj Hu1 I) R2) as M2.
  destruct (moved_rows _ _ _ _ _ Hmv) as (_ & Ea2 & _ & Ef2 & _).
  destruct (update_allocations_runs (fun x => of_id a x && in_status "locked" x) (with_status "released") d2) as (n & d3 & R3).
  apply update_allocations_ok in R3 as R3'; [|done|done]. destruct R3' as (_ & E3 & Q3).
  set (log := {| rl_refund_id := refundId; rl_retry_id := rt_retry_id retry; rl_task_id := rt_task_id retry;
    rl_allocation_id := a; rl_delegator_id := p; rl_amount := heldSql a d + gross_amount f |}).
  assert (exists d4, run (insert_refund_log log) d3 = (Ok tt, d4) /\ quiet d3 d4 /\
            relay_federation_settlements d4 = relay_federation_settlements d3 /\ relay_allocations d4 = relay_allocations d3)
    as (d4 & R4 & Q4 & Ef4 & Ea4).
  { unfold insert_refund_log. cbn. unfold stmt_fn. destruct (insert_row same_refund_log log (relay_refund_log d3)); by eexists. }
  exists d4. split; [|split; [|split]].
  - unfold refundExhaustedForward. apply catch_runs, transaction_runs.
    rewrite (call_bind_run _ _ d (Some alloc) d) by (cbn; unfold stmt_fn; by rewrite Ht). cbv beta match zeta. fold a.
    rewrite (call_bind_run _ _ _ _ _ (forwardOf_run _ _ _ Hw (pf_row _ _ _ _ Hf) (pf_id _ _ _ _ Hf) (pf_sent _ _ _ _ Hf))). cbv beta match zeta.
    rewrite (bool_decide_true (f_status f = fwd_pending)) by apply Hf.
    rewrite (bool_decide_true (f_allocation_id f = Some a)) by apply Hf. cbn [andb].
    rewrite (call_bind_run _ _ d true d1) by (by rewrite (call_bind_run _ _ _ _ _ R1)). cbv beta match zeta.
    rewrite (call_bind_run _ _ _ _ _ (allocationHeld_runs a d1)). rewrite E1, Z.max_r by lia.
    fold (keeps_escrow tasks (rt_task_id retry) alloc). rewrite Hk. cbn [orb].
    rewrite (proj2 (Z.leb_gt _ _)) by lia.
    rewrite (call_bind_run _ _ d1 (Some p) d1) by (cbn; unfold stmt_fn; by rewrite Hp1).
    rewrite (call_bind_run _ _ _ _ _ R2). unfold retire_locked. rewrite (call_bind_run _ _ _ _ _ R3).
    fold log. rewrite (call_bind_run _ _ _ _ _ R4). done.
  - eapply moves_quiet; [eapply moves_quiet; [exact (moves_app [_] [_] _ _ _ M1 M2)|exact Q3]|exact Q4].
  - rewrite Ef4, E3. cbn. by rewrite Ef2.
  - rewrite Ea4, E3. cbn. by rewrite Ea2.
Qed.

(** Once the forward has failed and nothing is held, the path does nothing. *)
Lemma exhausted_again frozen tasks retry refundId uuid now d alloc f :
  escrow_wf d -> List.find (of_task (rt_task_id retry)) (relay_allocations d) = Some alloc ->
  heldSql (al_allocation_id alloc) d <= 0 -> f ∈ relay_federation_settlements d ->
  f_settlement_id f = rt_settlement_id retry -> is_Some (downstream_relay_id f) -> f_status f <> fwd_pending ->
  run (refundExhaustedForward frozen now tasks retry refundId uuid) d = (Ok skipped, d).
Proof.
  intros Hw Ht Hh Hf Hs Hd Hn. unfold refundExhaustedForward. apply catch_runs, transaction_runs.
  rewrite (call_bind_run _ _ d (Some alloc) d) by (cbn; unfold stmt_fn; by rewrite Ht). cbv beta match zeta.
  rewrite (call_bind_run _ _ _ _ _ (forwardOf_run _ _ _ Hw Hf Hs Hd)). cbv beta match zeta.
  rewrite (bool_decide_false (f_status f = fwd_pending)) by done. cbn [andb].
  rewrite (call_bind_run _ _ d false d) by done. cbv beta match zeta.
  rewrite (call_bind_run _ _ _ _ _ (allocationHeld_runs _ d)). rewrite (proj2 (Z.leb_le _ _)) by lia.
  by rewrite orb_true_r.
Qed.

Lemma find_updated {A} (c cond : A -> bool) g l x : (forall y, c (g y) = c y) -> List.find c l = Some x ->
  List.find c (update_rows cond g l) = Some (if cond x then g x else x).
Proof.
  intros Hg. unfold update_rows. induction l as [|y l IH]; [done|]. cbn.
  assert (c (if cond y then g y else y) = c y) as -> by (destruct (cond y); auto).
  destruct (c y); [by intros [= ->]|done].
Qed.

(** A forward the peer never acknowledged is refunded once, in full, and never
    sent again.  For a task whose forward is pending and whose escrow is neither
    under dispute nor kept for an unsettled claim, the path pays the hold payer the
    forward's gross and whatever else is held; the escrow is empty, no other escrow
    or account changes, and the row is failed.  From then on no send of it begins,
    and the path, run again, neither pays nor changes anything. *)
Theorem undelivered_forward_refunded tasks retry refundId uuid now d alloc f p :
  let a := al_allocation_id alloc in
  escrow_ok d -> fresh_uuid uuid d -> List.find (of_task (rt_task_id retry)) (relay_allocations d) = Some alloc ->
  pending_forward (rt_settlement_id retry) a f d -> 0 <= gross_amount f ->
  0 < heldSql a d + gross_amount f <= MAX_SAFE_INTEGER -> hold_payer a d = Some p ->
  keeps_escrow tasks (rt_task_id retry) alloc = false ->
  exists d', run (refundExhaustedForward false now tasks retry refundId uuid) d = (Ok refunded, d') /\
    (forall x, heldSql x d' = if decide (x = a) then 0 else heldSql x d) /\
    (forall i, sql_balance i d' = sql_balance i d + (if decide (i = p) then heldSql a d + gross_amount f else 0)) /\
    run (beginForwardSend false (rt_settlement_id retry)) d' = (Ok false, d') /\
    (forall frozen2 tasks2 refundId2 uuid2 now2,
       run (refundExhaustedForward frozen2 now2 tasks2 retry refundId2 uuid2) d' = (Ok skipped, d')) /\
    escrow_ok d'.
Proof.
  intros a Hok Hu Ht Hf Hg Hz Hp Hk.
  destruct (exhausted_runs tasks retry refundId uuid now d alloc f p Hok Hu Ht Hf Hg Hz Hp Hk) as (d' & R & Hm & Ef & Ea).
  fold a in Hm, Ea. destruct Hok as [Hw Hok]. pose proof (moves_all _ _ _ Hw Hm) as [Hw' Hh Hb _ _ _ _ Ho].
  assert (forall x, heldSql x d' = if decide (x = a) then 0 else heldSql x d) as Hheld.
  { intros x. rewrite Hh. cbn. unfold held_by. cbn -[Z.opp Z.add]. case_decide as E; [rewrite E|]; lia. }
  assert (set_failed f ∈ relay_federation_settlements d') as Hf'.
  { rewrite Ef. apply list_elem_of_fmap. exists f. split; [|apply Hf]. unfold fails.
    rewrite !bool_decide_true by apply Hf. done. }
  exists d'. split; [done|]. split; [done|]. split; [|split; [|split]].
  - intros i. rewrite Hb. cbn -[Z.add]. unfold gained_by. cbn -[Z.add]. repeat case_decide; simplify_eq; lia.
  - unfold beginForwardSend. rewrite (call_bind_run _ _ _ _ _ (forwardOf_run _ _ _ Hw' Hf' (pf_id _ _ _ _ Hf) (pf_sent _ _ _ _ Hf))).
    done.
  - intros. eapply exhausted_again; [done| | |exact Hf'|apply Hf|apply Hf|done].
    + rewrite Ea. apply find_updated; [done|exact Ht].
    + assert (al_allocation_id (if of_id a alloc && in_status "locked" alloc then with_status "released" alloc else alloc) = a)
        as -> by (by destruct (_ && _)). rewrite Hheld, decide_True by done. done.
  - split; [done|by apply Ho].
Qed.

(** a nested settlement strands what it does not pay.  A sub-task's receipt, once
    taken, is charged its fee and paid its amount, and the rest of what its escrow
    held - the risk buffer of a completed answer, everything when the answer failed -
    stays held: no other account is credited, the allocation is no longer [locked],
    and a stale sweep, at whatever time, leaves it where it is. *)
Theorem nested_settlement_strands_rest frozen now body taskId subAgent uuid d d' x :
  let a := String.append "x402-" taskId in
  escrow_ok d -> fresh_uuid uuid d -> unreferenced (sb_settlement_id body) d ->
  find_allocation a d = Some x -> al_task_id x = taskId -> 0 <= sb_amount_settled body ->
  locked_task taskId d = true -> 0 < heldSql a d ->
  run (settleSubAnswer frozen now body taskId subAgent uuid) d = (Ok true, d') ->
  let rest := heldSql a d - sb_platform_fee body - sb_amount_settled body in
  heldSql a d' = rest /\
  (forall i, sql_balance i d' = sql_balance i d + (if decide (i = subAgent) then sb_amount_settled body else 0)) /\
  forall frozen2 now2 horizonMs tasks grant uuids n d2,
    NoDup ((fun x => uuids (al_allocation_id x)) <$> relay_allocations d') ->
    (forall x, x ∈ relay_allocations d' -> fresh_uuid (uuids (al_allocation_id x)) d') ->
    run (releaseStaleAllocations frozen2 now2 horizonMs tasks grant uuids) d' = (Ok n, d2) ->
    heldSql a d2 = rest.
Proof.
  intros a [Hw Hok] Hu Hr Hx Ht Hs Hl Hp H rest.
  destruct (sub_settle_moves frozen now body taskId subAgent uuid d d' Hw Hu Hr ltac:(unfold a in *; congruence) Hl Hp H) as (Hm & Hl' & Hf).
  pose proof (moves_all _ _ _ Hw Hm) as [Hw' Hh Hb _ Hk _ _ _].
  assert (heldSql a d' = rest) as Ha.
  { rewrite Hh. unfold sub_list, held_by, rest. fold a. destruct (0 <? sb_amount_settled body) eqn:E; cbn -[Z.opp];
      rewrite !decide_True by done; lia. }
  split; [done|]. split.
  - intros i. rewrite Hb. unfold sub_list, gained_by. destruct (0 <? sb_amount_settled body) eqn:E; cbn; repeat case_decide;
      simplify_eq; lia.
  - intros frozen2 now2 horizonMs tasks grant uuids n d2 Hn Hfr H2.
    destruct (sweep_moves frozen2 now2 horizonMs tasks grant uuids d' n d2 Hw' Hn Hfr H2) as (l & Hm2 & S1 & S2).
    rewrite <- Ha. apply (moves_apart l a d' d2 Hw' Hm2 S1). eapply Forall_impl; [exact S2|].
    intros p (y & E & Hy)%list_elem_of_fmap Eq. cbn in E. apply list_elem_of_In, filter_In in Hy as [Hy Hst].
    apply list_elem_of_In in Hy. unfold is_stale in Hst. apply andb_true_iff in Hst as [Hst _].
    destruct (find_key a _ _ _ Hk Hx) as (x' & Hx' & Hkey).
    assert (x' = y) as ->.
    { destruct (find_allocation_elem _ _ _ Hx') as [Hin Eid]. apply (nodup_key al_allocation_id _ x' y (ew_allocations _ Hw') Hin Hy).
      congruence. }
    unfold al_key in Hkey. assert (locked_task taskId d' = true) as Hc; [|congruence].
    apply existsb_exists. exists y. split; [by apply list_elem_of_In|]. apply andb_true_iff. split; [|done].
    apply bool_decide_eq_true. congruence.
Qed.

(** ** Instances *)

Definition demo_allocation : allocation_row := Eval vm_compute in
  List.hd (Build_allocation_row "" "" "" 0 "" 0 None None) (relay_allocations funded).
Definition no_tasks : task_db := {| relay_task_queue := []; relay_task_answers := [];
  TaskQueue.relay_settlements := []; TaskQueue.relay_federation_settlements := [] |}.

Lemma stale_sweep_refunds_witness :
  exists n d', run (releaseStaleAllocations false 100 50 no_tasks (fun _ => false) (fun _ => "u4"%string)) funded = (Ok n, d') /\
    heldSql "x402-t1" d' = 0 /\ sql_balance "alice" d' = 1000.
Proof.
  destruct (stale_sweep_refunds 100 50 no_tasks (fun _ => false) (fun _ => "u4"%string) funded funded_ok)
    as (n & d' & H & Hh & _ & Hb & _).
  - intros a. apply safe_escrowb_spec; [apply funded_ok|by vm_compute].
  - apply NoDup_singleton.
  - intros x _. by apply fresh_uuidb_spec.
  - exists n, d'. split; [done|]. split.
    + etransitivity; [exact (Hh demo_allocation ltac:(by left))|by vm_compute].
    + rewrite Hb. by vm_compute.
Defined.

Definition demo_retry : retry_row := {| rt_retry_id := "r1"; rt_settlement_id := "s1"; rt_task_id := "t1";
  rt_peer_relay_id := "relay-b"; rt_attempts := 8; rt_max_attempts := 8; rt_next_retry_at := 0; rt_status := "failed" |}.
Definition demo_forward : forward_row := Eval vm_compute in List.hd
  {| f_settlement_id := ""; f_task_id := ""; upstream_relay_id := ""; downstream_relay_id := None; gross_amount := 0;
     f_allocation_id := None; f_status := fwd_failed |} (SqlStore.relay_federation_settlements forwarded).

Lemma demo_pending : pending_forward "s1" "x402-t1" demo_forward forwarded.
Proof. split; [by left|done|by eexists|done|done]. Qed.

Lemma undelivered_forward_refunded_witness :
  exists d', run (refundExhaustedForward false 90 no_tasks demo_retry "l1" "u4") forwarded = (Ok refunded, d') /\
    heldSql "x402-t1" d' = 0 /\ sql_balance "alice" d' = 1000 /\ run (beginForwardSend false "s1") d' = (Ok false, d').
Proof.
  destruct (undelivered_forward_refunded no_tasks demo_retry "l1" "u4" 90 forwarded demo_allocation demo_forward "alice" forwarded_demo_ok)
    as (d' & H & Hh & Hb & Hs & _).
  - by apply fresh_uuidb_spec.
  - by vm_compute.
  - exact demo_pending.
  - by vm_compute.
  - split; by vm_compute.
  - by vm_compute.
  - by vm_compute.
  - exists d'. split; [done|]. split; [rewrite Hh; by vm_compute|]. split; [rewrite Hb; by vm_compute|]. exact Hs.
Defined.

(** A nested answer that failed: its whole escrow stays held. *)
Definition after_nested : relay_db := Eval vm_compute in
  db_after (settleSubAnswer false 30 (answered settle_refunded 0 0) "t1" "bob" "u4") funded.

Lemma nested_settlement_strands_rest_witness :
  heldSql "x402-t1" funded = 600 /\ heldSql "x402-t1" after_nested = 600 /\
  sql_balance "alice" after_nested = sql_balance "alice" funded.
Proof.
  assert (run (settleSubAnswer false 30 (answered settle_refunded 0 0) "t1" "bob" "u4") funded = (Ok true, after_nested)) as H
    by (vm_compute; reflexivity).
  destruct (nested_settlement_strands_rest false 30 (answered settle_refunded 0 0) "t1" "bob" "u4" funded after_nested demo_allocation
    funded_ok) as (Hh & Hb & _); [by apply fresh_uuidb_spec|by apply unreferencedb_spec|by vm_compute|done|done|by vm_compute|by vm_compute|exact H|].
  split; [by vm_compute|]. split; [etransitivity; [exact Hh|by vm_compute]|]. rewrite Hb. by vm_compute.
Defined.
