(* ===== verification/ForwardRetry.v ===== *)
(** * The settlement retry loop

    [processSettlementRetries] of [services/relay/src/federation.ts]: one retry of a
    pass, cut at its two awaits, the signing of the message and the answer of the
    peer.  The clock, the freeze, the peer row and the backoff of a turn are its
    arguments.  An interval timer starts the passes and does not wait for the one
    before, so several passes may be under way: a [loop_world] holds them all, and an
    event lets one of them take its next turn.  The code runs on into the next retry
    of a pass without a pause; here that is a turn of its own, which only adds
    interleavings. *)

From Stdlib Require Import String.
From S2P Require Import Prelude Float64 JsMap JsString TaskTypes TaskQueue LedgerTypes Driver SqlStore SqlRefines.
From S2P Require Import Escrow EscrowLaws EscrowCallers EscrowRuns EscrowDemo EscrowSettle EscrowRefunds.
Local Open Scope string_scope.
Local Open Scope Z_scope.
Local Open Scope motebit_scope.

(** ** One retry *)

Definition of_retry (id : string) (r : retry_row) : bool := bool_decide (rt_retry_id r = id).
Definition retry_pending (r : retry_row) : bool := bool_decide (rt_status r = "pending").

Definition set_retry (status : string) (attempts next : Z) (r : retry_row) : retry_row := {|
  rt_retry_id := rt_retry_id r; rt_settlement_id := rt_settlement_id r; rt_task_id := rt_task_id r;
  rt_peer_relay_id := rt_peer_relay_id r; rt_attempts := attempts; rt_max_attempts := rt_max_attempts r;
  rt_next_retry_at := next; rt_status := status |}.
Definition retry_status (status : string) (r : retry_row) : retry_row := set_retry status (rt_attempts r) (rt_next_retry_at r) r.

(** Where a retry stands when its turn ends. *)
Inductive turn := next_retry | signing | sending | pass_stopped.

(** What a turn reads: [ti_ok], the signature made or the peer's 2xx. *)
Record turn_input := {
  ti_frozen : bool;
  ti_now : Z;
  ti_peer : bool;
  ti_ok : bool;
  ti_delay : Z;
  ti_refund_id : string;
  ti_uuid : string;
}.

Section turns.
Context {W : Type} `{!DatabaseDriver relay_db ledger_error W}.
Abbreviation db_call := (call W ledger_error).
Context (tasks : task_db) (i : turn_input).

Definition update_retries (cond : retry_row -> bool) (f : retry_row -> retry_row) : db_call unit :=
  run_sql (fun d => Ok (tt, upd_retries (update_rows cond f) d)).

(** [WHERE status = 'pending' AND next_retry_at <= ? AND attempts < max_attempts] *)
Definition dueRetries (now : Z) : db_call (list retry_row) :=
  select (fun d => List.filter (fun r => retry_pending r && (rt_next_retry_at r <=? now) && (rt_attempts r <? rt_max_attempts r))
                     (relay_settlement_retries d)).

(** [onRetryExhausted]: what it throws is logged. *)
Definition retryExhausted (retry : retry_row) : db_call unit :=
  call_catch (refundExhaustedForward (ti_frozen i) (ti_now i) tasks retry (ti_refund_id i) (ti_uuid i) ;! call_ret tt)
    (fun _ => call_ret tt).

(** The outer [catch]. *)
Definition retry_failed (retry : retry_row) (err : ledger_error) : db_call turn :=
  match err with
  | EmergencyFrozenError => call_ret pass_stopped
  | _ =>
      let newAttempts := rt_attempts retry + 1 in
      if rt_max_attempts retry <=? newAttempts then
        if ti_frozen i then call_ret pass_stopped else
        update_retries (of_retry (rt_retry_id retry))
          (fun r => set_retry "failed" newAttempts (rt_next_retry_at r) r) ;!
        retryExhausted retry ;!
        call_ret next_retry
      else
        update_retries (of_retry (rt_retry_id retry))
          (fun r => set_retry (rt_status r) newAttempts (ti_now i + ti_delay i) r) ;!
        call_ret next_retry
  end.

(** Up to the signing: the send is claimed, or the retry is settled at once. *)
Definition claim_turn (retry : retry_row) : db_call turn :=
  call_catch (
    let! claimed := beginForwardSend (ti_frozen i) (rt_settlement_id retry) in
    if negb claimed then
      let! f := forwardOf (rt_settlement_id retry) in
      let status := match f_status <$> f with Some fwd_delivered => "completed" | _ => "failed" end in
      update_retries (fun r => of_retry (rt_retry_id retry) r && retry_pending r) (retry_status status) ;!
      call_ret next_retry
    else if negb (ti_peer i) then
      update_retries (of_retry (rt_retry_id retry)) (retry_status "failed") ;!
      retryExhausted retry ;!
      call_ret next_retry
    else call_ret signing) (retry_failed retry).

(** From the signature to the send: claimed again. *)
Definition signed_turn (retry : retry_row) : db_call turn :=
  call_catch (
    if negb (ti_ok i) then call_throw Error_driver else
    let! claimed := beginForwardSend (ti_frozen i) (rt_settlement_id retry) in
    call_ret (if (claimed : bool) then sending else next_retry)) (retry_failed retry).

(** The peer's answer: an acknowledgement is recorded whole or not at all. *)
Definition answered_turn (retry : retry_row) : db_call turn :=
  call_catch (
    if negb (ti_ok i) then call_throw (HTTPException 502) else
    call_catch (run_transaction (
      update_retries (of_retry (rt_retry_id retry)) (retry_status "completed") ;!
      markForwardDelivered (rt_settlement_id retry))) (fun _ => call_ret tt) ;!
    call_ret next_retry) (retry_failed retry).
End turns.

(** ** Passes under way *)

Inductive position := waits_for_signature | waits_for_answer.

Record pass := { current : option (retry_row * position); todo : list retry_row }.
Record loop_world := { lw_db : relay_db; lw_passes : list pass }.

(** The turn a pass takes next: [None] when it has nothing left to do. *)
Definition next_turn (tasks : task_db) (i : turn_input) (p : pass) : option (retry_row * list retry_row * call relay_db ledger_error turn) :=
  match current p, todo p with
  | Some (r, waits_for_signature), rest => Some (r, rest, signed_turn tasks i r)
  | Some (r, waits_for_answer), rest => Some (r, rest, answered_turn tasks i r)
  | None, r :: rest => Some (r, rest, claim_turn tasks i r)
  | None, [] => None
  end.

Definition pass_after (r : retry_row) (rest : list retry_row) (t : result ledger_error turn) : pass :=
  match t with
  | Ok signing => {| current := Some (r, waits_for_signature); todo := rest |}
  | Ok sending => {| current := Some (r, waits_for_answer); todo := rest |}
  | Ok next_retry => {| current := None; todo := rest |}
  | Ok pass_stopped | Throw _ => {| current := None; todo := [] |}
  end.

Inductive loop_event :=
| tick (now : Z)
| advance (n : nat) (i : turn_input).

Definition loop_step (tasks : task_db) (w : loop_world) (e : loop_event) : loop_world :=
  match e with
  | tick now =>
      match run (dueRetries now) (lw_db w) with
      | (Ok (r :: rest), d) => {| lw_db := d; lw_passes := lw_passes w ++ [{| current := None; todo := r :: rest |}] |}
      | (_, d) => {| lw_db := d; lw_passes := lw_passes w |}
      end
  | advance n i =>
      match lw_passes w !! n with
      | None => w
      | Some p =>
          match next_turn tasks i p with
          | None => w
          | Some (r, rest, m) =>
              let '(t, d) := run m (lw_db w) in
              {| lw_db := d; lw_passes := <[n := pass_after r rest t]> (lw_passes w) |}
          end
      end
  end.

Definition loop_run (tasks : task_db) (w : loop_world) (es : list loop_event) : loop_world := fold_left (loop_step tasks) es w.

(** ** A retry whose peer never answers *)

Definition answering (ok : bool) (i : turn_input) : turn_input := {|
  ti_frozen := ti_frozen i; ti_now := ti_now i; ti_peer := ti_peer i; ti_ok := ok; ti_delay := ti_delay i;
  ti_refund_id := ti_refund_id i; ti_uuid := ti_uuid i |}.

(** The three turns of one retry, the message signed and the peer silent. *)
Definition silent_attempt (tasks : task_db) (i : turn_input) (r : retry_row) : call relay_db ledger_error turn :=
  let! t := claim_turn tasks i r in
  match t with
  | signing =>
      let! t := signed_turn tasks (answering true i) r in
      match t with sending => answered_turn tasks (answering false i) r | t => call_ret t end
  | t => call_ret t
  end.

(** One attempt after another, each on the row as it then is. *)
Fixpoint silent_attempts (tasks : task_db) (id : string) (inputs : list turn_input) (d : relay_db) : relay_db :=
  match inputs with
  | [] => d
  | i :: rest =>
      match List.find (of_retry id) (relay_settlement_retries d) with
      | None => d
      | Some r => silent_attempts tasks id rest (snd (run (silent_attempt tasks i r) d))
      end
  end.

(** A pending forward of an escrow the exhaustion path refunds. *)
Record refundable (tasks : task_db) (sid taskId : string) (alloc : allocation_row) (f : forward_row) (p : string) (d : relay_db) : Prop := {
  rf_ok : escrow_ok d;
  rf_task : List.find (of_task taskId) (relay_allocations d) = Some alloc;
  rf_forward : pending_forward sid (al_allocation_id alloc) f d;
  rf_gross : 0 <= gross_amount f;
  rf_safe : 0 < heldSql (al_allocation_id alloc) d + gross_amount f <= MAX_SAFE_INTEGER;
  rf_payer : hold_payer (al_allocation_id alloc) d = Some p;
  rf_free : keeps_escrow tasks taskId alloc = false;
}.

(** What the refund of the forward has left. *)
Record refunded_forward (sid a p : string) (f : forward_row) (d d' : relay_db) : Prop := {
  rd_ok : escrow_ok d';
  rd_held x : heldSql x d' = if decide (x = a) then 0 else heldSql x d;
  rd_balance i : sql_balance i d' = sql_balance i d + (if decide (i = p) then heldSql a d + gross_amount f else 0);
  rd_forward : set_failed f ∈ relay_federation_settlements d';
}.

Lemma quiet_retries g d : quiet d (upd_retries g d).
Proof. by split. Qed.

Lemma retries_ok g d : escrow_ok d -> escrow_ok (upd_retries g d).
Proof. intros [Hw Hok]. split; [by apply (quiet_wf d); [apply quiet_retries|]|exact Hok]. Qed.

Lemma refundable_retries tasks sid taskId alloc f p g d :
  refundable tasks sid taskId alloc f p d -> refundable tasks sid taskId alloc f p (upd_retries g d).
Proof.
  intros [H1 H2 H3 H4 H5 H6 H7]. split; [by apply retries_ok|exact H2|by destruct H3|exact H4|exact H5|exact H6|exact H7].
Qed.

Lemma refunded_retries sid a p f d g d' : refunded_forward sid a p f d d' -> refunded_forward sid a p f d (upd_retries g d').
Proof. intros [H1 H2 H3 H4]. split; [by apply retries_ok|exact H2|exact H3|exact H4]. Qed.

Lemma refunded_from_retries sid a p f g d d' : refunded_forward sid a p f (upd_retries g d) d' -> refunded_forward sid a p f d d'.
Proof. by intros [H1 H2 H3 H4]. Qed.

Lemma begin_sends sid f d : escrow_wf d -> f ∈ relay_federation_settlements d -> f_settlement_id f = sid ->
  is_Some (downstream_relay_id f) ->
  run (beginForwardSend false sid) d = (Ok (match f_status f with fwd_delivered | fwd_failed => false | _ => true end), d).
Proof.
  intros Hw Hf Hs Hd. unfold beginForwardSend. rewrite (call_bind_run _ _ _ _ _ (forwardOf_run _ _ _ Hw Hf Hs Hd)).
  cbn. by destruct (f_status f).
Qed.

Section attempts.
Context (tasks : task_db) (i : turn_input) (r : retry_row) (alloc : allocation_row) (f : forward_row) (p : string).
Abbreviation sid := (rt_settlement_id r).
Abbreviation exposed := (refundable tasks sid (rt_task_id r) alloc f p).

(** The exhaustion path, once the retry row is written. *)
Lemma exhausts g d : exposed d -> fresh_uuid (ti_uuid i) d -> ti_frozen i = false ->
  exists d', run (retryExhausted tasks i r) (upd_retries g d) = (Ok tt, d') /\
    refunded_forward sid (al_allocation_id alloc) p f d d'.
Proof.
  intros He Hu Hf. apply (refundable_retries _ _ _ _ _ _ g) in He. destruct He as [Hok Ht Hp Hg Hs Hh Hk].
  destruct (exhausted_runs tasks r (ti_refund_id i) (ti_uuid i) (ti_now i) (upd_retries g d) alloc f p Hok Hu Ht Hp Hg Hs Hh Hk)
    as (d' & R & Hm & Ef & _).
  exists d'. split.
  - unfold retryExhausted. rewrite Hf. apply catch_runs. by rewrite (call_bind_run _ _ _ _ _ R).
  - pose proof (moves_all _ _ _ (proj1 Hok) Hm) as [Hw' Hheld Hb _ _ _ _ Ho]. apply (refunded_from_retries _ _ _ _ g).
    split; [split; [done|by apply Ho, Hok]| | |].
    + intros x. rewrite Hheld. cbn. unfold held_by. cbn -[Z.opp Z.add]. case_decide as E; [rewrite E|]; lia.
    + intros j. rewrite Hb. cbn -[Z.add]. unfold gained_by. cbn -[Z.add]. repeat case_decide; simplify_eq; lia.
    + rewrite Ef. apply list_elem_of_fmap. exists f. split; [|apply Hp]. unfold fails. by rewrite !bool_decide_true by apply Hp.
Qed.

(** A silent attempt: another one is scheduled, or the forward is refunded. *)
Lemma attempt_ends d : exposed d -> ti_frozen i = false -> fresh_uuid (ti_uuid i) d ->
  exists g d', run (silent_attempt tasks i r) d = (Ok next_retry, d') /\ 
    if ti_peer i && (rt_attempts r + 1 <? rt_max_attempts r)
    then d' = upd_retries (update_rows (of_retry (rt_retry_id r)) g) d /\
         forall x, g x = set_retry (rt_status x) (rt_attempts r + 1) (ti_now i + ti_delay i) x
    else refunded_forward sid (al_allocation_id alloc) p f d d'.
Proof.
  intros He Hf Hu. pose proof (rf_forward _ _ _ _ _ _ _ He) as Hp. destruct (rf_ok _ _ _ _ _ _ _ He) as [Hw _].
  pose proof (begin_sends sid f d Hw (pf_row _ _ _ _ Hp) (pf_id _ _ _ _ Hp) (pf_sent _ _ _ _ Hp)) as Hb.
  rewrite (pf_pending _ _ _ _ Hp) in Hb. unfold silent_attempt. destruct (ti_peer i) eqn:Hpeer; cbn [andb].
  - rewrite (call_bind_run _ _ d signing d).
    2: { unfold claim_turn. rewrite Hf. apply catch_runs. rewrite (call_bind_run _ _ _ _ _ Hb). cbn [negb]. by rewrite Hpeer. }
    cbv beta match zeta. rewrite (call_bind_run _ _ d sending d).
    2: { unfold signed_turn, answering. cbn. rewrite Hf. apply catch_runs. by rewrite (call_bind_run _ _ _ _ _ Hb). }
    cbv beta match zeta. unfold answered_turn. change (ti_ok (answering false i)) with false. cbn [negb].
    unfold call_catch, call_throw at 1. unfold retry_failed. change (ti_frozen (answering false i)) with (ti_frozen i).
    change (ti_now (answering false i)) with (ti_now i). change (ti_delay (answering false i)) with (ti_delay i).
    rewrite Hf. destruct (Z.ltb_spec (rt_attempts r + 1) (rt_max_attempts r)).
    + rewrite (proj2 (Z.leb_gt _ _)) by done.
      eexists (fun x => set_retry (rt_status x) (rt_attempts r + 1) (ti_now i + ti_delay i) x), _. by split; [done|split; [done|]].
    + rewrite (proj2 (Z.leb_le _ _)) by done. set (g := fun x => set_retry "failed" _ _ x).
      destruct (exhausts (update_rows (of_retry (rt_retry_id r)) g) d He Hu Hf) as (d' & R & Hd).
      exists g, d'. split; [|done].
      rewrite (call_bind_run _ _ d tt (upd_retries (update_rows (of_retry (rt_retry_id r)) g) d)) by done. cbv beta.
      assert (run (retryExhausted tasks (answering false i) r) (upd_retries (update_rows (of_retry (rt_retry_id r)) g) d) = (Ok tt, d'))
        as R' by exact R. by rewrite (call_bind_run _ _ _ _ _ R').
  - destruct (exhausts (update_rows (of_retry (rt_retry_id r)) (retry_status "failed")) d He Hu Hf) as (d' & R & Hd).
    exists id, d'. split; [|done]. rewrite (call_bind_run _ _ d next_retry d'); [done|].
    unfold claim_turn. rewrite Hf. apply catch_runs. rewrite (call_bind_run _ _ _ _ _ Hb). cbn [negb]. rewrite Hpeer. cbn [negb].
    rewrite (call_bind_run _ _ d tt (upd_retries (update_rows (of_retry (rt_retry_id r)) (retry_status "failed")) d)) by done. cbv beta.
    by rewrite (call_bind_run _ _ _ _ _ R).
Qed.

End attempts.

Definition unfrozen (d : relay_db) (i : turn_input) : Prop := ti_frozen i = false /\ fresh_uuid (ti_uuid i) d.

(** Attempts short of the last only reschedule the retry. *)
Lemma attempts_reschedule tasks id alloc f p inputs : forall r d,
  refundable tasks (rt_settlement_id r) (rt_task_id r) alloc f p d ->
  List.find (of_retry id) (relay_settlement_retries d) = Some r ->
  Z.of_nat (length inputs) < rt_max_attempts r - rt_attempts r ->
  (forall i, i ∈ inputs -> unfrozen d i /\ ti_peer i = true) ->
  exists g r', silent_attempts tasks id inputs d = upd_retries g d /\
    List.find (of_retry id) (relay_settlement_retries (upd_retries g d)) = Some r' /\
    rt_settlement_id r' = rt_settlement_id r /\ rt_task_id r' = rt_task_id r /\
    rt_max_attempts r' = rt_max_attempts r /\ rt_attempts r' = rt_attempts r + Z.of_nat (length inputs).
Proof.
  induction inputs as [|i rest IH]; intros r d He Hr Hlen Hin; cbn [silent_attempts length] in *.
  - exists (fun x => x), r. destruct d. cbn in *. repeat (split; [done|]). lia.
  - rewrite Hr. destruct (Hin i ltac:(by left)) as [[Hf Hu] Hp].
    destruct (attempt_ends tasks i r alloc f p d He Hf Hu) as (g & d' & R & Hd).
    rewrite Hp, (proj2 (Z.ltb_lt _ _)) in Hd by lia. cbn [andb] in Hd. destruct Hd as [-> Hg].
    assert (of_retry id r = true) as Hid by (by apply find_some in Hr as [_ ?]).
    assert (rt_retry_id r = id) as Ei by (by apply bool_decide_eq_true in Hid). rewrite Ei in *.
    destruct (IH (g r) (upd_retries (update_rows (of_retry id) g) d)) as (g' & r' & E & Hr' & E1 & E2 & E3 & E4).
    + rewrite Hg. by apply refundable_retries.
    + cbn [upd_retries relay_settlement_retries]. rewrite (find_updated _ _ g _ r); [by rewrite Hid| |done].
      intros y. by rewrite Hg.
    + rewrite Hg. cbn [set_retry rt_max_attempts rt_attempts]. lia.
    + intros j Hj. apply Hin. by right.
    + rewrite R. cbn [snd]. rewrite E. exists (fun l => g' (update_rows (of_retry id) g l)), r'.
      rewrite Hg in E1, E2, E3, E4. cbn [set_retry rt_settlement_id rt_task_id rt_max_attempts rt_attempts] in *.
      repeat (split; [done|]). lia.
Qed.

Lemma silent_attempts_app tasks id i inputs : forall d r, List.find (of_retry id) (relay_settlement_retries (silent_attempts tasks id inputs d)) = Some r ->
  silent_attempts tasks id (inputs ++ [i]) d = snd (run (silent_attempt tasks i r) (silent_attempts tasks id inputs d)).
Proof.
  induction inputs as [|j rest IH]; intros d r; cbn [silent_attempts app].
  - by intros ->.
  - destruct (List.find _ (relay_settlement_retries d)) as [x|] eqn:E; [apply IH|]. intros Hr. congruence.
Qed.

(** ** Properties *)


(** ** Overlapping passes *)

Definition live (i : turn_input) : Prop := ti_frozen i = false /\ ti_peer i = true.

(** Two passes that both selected the last attempt of a retry, both sent. *)
Lemma both_in_flight tasks r f t1 t2 i1 i2 j1 j2 d : escrow_wf d ->
  pending_forward (rt_settlement_id r) (default "" (f_allocation_id f)) f d ->
  run (dueRetries t1) d = (Ok [r], d) -> run (dueRetries t2) d = (Ok [r], d) ->
  live i1 -> live i2 -> live j1 -> live j2 ->
  loop_run tasks {| lw_db := d; lw_passes := [] |}
    [tick t1; advance 0 i1; tick t2; advance 1 i2; advance 0 (answering true j1); advance 1 (answering true j2)] =
  {| lw_db := d; lw_passes := [{| current := Some (r, waits_for_answer); todo := [] |};
                               {| current := Some (r, waits_for_answer); todo := [] |}] |}.
Proof.
  intros Hw Hp D1 D2 [F1 P1] [F2 P2] [G1 _] [G2 _].
  pose proof (begin_sends _ f d Hw (pf_row _ _ _ _ Hp) (pf_id _ _ _ _ Hp) (pf_sent _ _ _ _ Hp)) as Hb.
  rewrite (pf_pending _ _ _ _ Hp) in Hb.
  assert (forall i, live i -> run (claim_turn tasks i r) d = (Ok signing, d)) as Hc.
  { intros i [Hf Hpe]. unfold claim_turn. rewrite Hf. apply catch_runs. rewrite (call_bind_run _ _ _ _ _ Hb). cbn [negb]. by rewrite Hpe. }
  assert (forall i, ti_frozen i = false -> run (signed_turn tasks (answering true i) r) d = (Ok sending, d)) as Hs.
  { intros i Hf. unfold signed_turn. change (ti_ok (answering true i)) with true. cbn [negb].
    change (ti_frozen (answering true i)) with (ti_frozen i). rewrite Hf. apply catch_runs. by rewrite (call_bind_run _ _ _ _ _ Hb). }
  unfold loop_run. cbn [fold_left]. unfold loop_step at 6. cbn [lw_db]. rewrite D1. cbn [app lw_passes].
  unfold loop_step at 5. cbn [lw_passes lookup list_lookup next_turn current todo lw_db].
  rewrite (Hc i1 (conj F1 P1)). cbn [pass_after insert list_insert].
  unfold loop_step at 4. cbn [lw_db]. rewrite D2. cbn [app lw_passes].
  unfold loop_step at 3. cbn [lw_passes lookup list_lookup next_turn current todo lw_db].
  rewrite (Hc i2 (conj F2 P2)). cbn [pass_after insert list_insert].
  unfold loop_step at 2. cbn [lw_passes lookup list_lookup next_turn current todo lw_db].
  rewrite (Hs j1 G1). cbn [pass_after insert list_insert].
  unfold loop_step. cbn [lw_passes lookup list_lookup next_turn current todo lw_db].
  rewrite (Hs j2 G2). done.
Qed.

(** C40: overlapping passes refund a forward the peer has acknowledged.  The timer
    starts a pass while the one before still waits, and both may have selected the
    last attempt of a retry.  If the first is answered with an error and the second
    with an acknowledgement, the first refunds the forward in full to the hold payer
    and the second commits its acknowledgement over it: the forward stays failed, the
    money stays with the payer, and the peer that acknowledged holds it too. *)
Theorem overlapping_passes_refund_acknowledged tasks r alloc f p t1 t2 i1 i2 j1 j2 k1 k2 d :
  let a := al_allocation_id alloc in
  refundable tasks (rt_settlement_id r) (rt_task_id r) alloc f p d ->
  rt_max_attempts r = rt_attempts r + 1 ->
  run (dueRetries t1) d = (Ok [r], d) -> run (dueRetries t2) d = (Ok [r], d) ->
  live i1 -> live i2 -> live j1 -> live j2 -> live k1 -> fresh_uuid (ti_uuid k1) d ->
  let w := loop_run tasks {| lw_db := d; lw_passes := [] |}
    [tick t1; advance 0 i1; tick t2; advance 1 i2; advance 0 (answering true j1); advance 1 (answering true j2);
     advance 0 (answering false k1); advance 1 (answering true k2)] in
  lw_passes w = [{| current := None; todo := [] |}; {| current := None; todo := [] |}] /\
  set_failed f ∈ relay_federation_settlements (lw_db w) /\
  forall i, sql_balance i (lw_db w) = sql_balance i d + (if decide (i = p) then heldSql a d + gross_amount f else 0).
Proof.
  intros a He Hmax D1 D2 I1 I2 J1 J2 [K1 K1p] Hu w. subst w.
  pose proof (rf_forward _ _ _ _ _ _ _ He) as Hp. destruct (rf_ok _ _ _ _ _ _ _ He) as [Hw _].
  match goal with |- context [loop_run tasks ?w0 ?es] =>
    change (loop_run tasks w0 es) with (loop_run tasks (loop_run tasks w0 (take 6 es)) (drop 6 es)) end.
  cbn [take drop]. rewrite (both_in_flight tasks r f) by (done || (rewrite (pf_allocation _ _ _ _ Hp); exact Hp)).
  set (g := set_retry "failed" (rt_attempts r + 1)).
  destruct (exhausts tasks (answering false k1) r alloc f p
    (update_rows (of_retry (rt_retry_id r)) (fun x => g (rt_next_retry_at x) x)) d He Hu K1) as (d' & R & [Ho Hh Hb Hfail]).
  assert (run (answered_turn tasks (answering false k1) r) d = (Ok next_retry, d')) as A1.
  { unfold answered_turn. change (ti_ok (answering false k1)) with false. cbn [negb].
    unfold call_catch, call_throw at 1. unfold retry_failed. change (ti_frozen (answering false k1)) with (ti_frozen k1).
    rewrite K1, (proj2 (Z.leb_le _ _)) by lia.
    rewrite (call_bind_run _ _ d tt (upd_retries (update_rows (of_retry (rt_retry_id r)) (fun x => g (rt_next_retry_at x) x)) d)) by done.
    cbv beta. by rewrite (call_bind_run _ _ _ _ _ R). }
  set (d2 := upd_forwards (update_rows (fun x => bool_decide (f_settlement_id x = rt_settlement_id r) && bool_decide (f_status x = fwd_pending))
               set_delivered) (upd_retries (update_rows (of_retry (rt_retry_id r)) (retry_status "completed")) d')).
  assert (run (answered_turn tasks (answering true k2) r) d' = (Ok next_retry, d2)) as A2 by done.
  match goal with |- context [loop_run tasks ?w1 ?es] =>
    assert (loop_run tasks w1 es = {| lw_db := d2; lw_passes := [{| current := None; todo := [] |}; {| current := None; todo := [] |}] |}) as ->
  end.
  { unfold loop_run. cbn [fold_left]. unfold loop_step at 2. cbn [lw_passes lookup list_lookup next_turn current todo lw_db].
    rewrite A1. cbn [pass_after insert list_insert].
    unfold loop_step. cbn [lw_passes lookup list_lookup next_turn current todo lw_db]. by rewrite A2. }
  split; [done|]. split; [|exact Hb].
  apply list_elem_of_fmap. exists (set_failed f). split; [|exact Hfail].
  by rewrite (bool_decide_false (f_status (set_failed f) = fwd_pending)), andb_false_r.
Qed.

(** ** At concrete inputs *)

Definition demo_turn (now : Z) (uuid : string) : turn_input := {|
  ti_frozen := false; ti_now := now; ti_peer := true; ti_ok := true; ti_delay := 5000; ti_refund_id := "l1"; ti_uuid := uuid |}.

Definition forwarded_retry : retry_row := Eval vm_compute in List.hd demo_retry (relay_settlement_retries forwarded).

Lemma forwarded_refundable : refundable no_tasks (rt_settlement_id forwarded_retry) (rt_task_id forwarded_retry) demo_allocation demo_forward "alice" forwarded.
Proof. split; [exact forwarded_demo_ok|by vm_compute|exact demo_pending|by vm_compute|split; by vm_compute|by vm_compute|by vm_compute]. Qed.


(** The same forward at its last attempt, selected by two passes. *)
Definition last_try : relay_db := upd_retries (fun l => set_retry "pending" 7 0 <$> l) forwarded.

Lemma overlapping_passes_refund_acknowledged_witness :
  let w := loop_run no_tasks {| lw_db := last_try; lw_passes := [] |}
    [tick 100; advance 0 (demo_turn 100 "u4"); tick 30100; advance 1 (demo_turn 30100 "u4");
     advance 0 (answering true (demo_turn 100 "u4")); advance 1 (answering true (demo_turn 30100 "u4"));
     advance 0 (answering false (demo_turn 100 "u4")); advance 1 (answering true (demo_turn 30100 "u4"))] in
  sql_balance "alice" (lw_db w) = 1000 /\ (rt_status <$> relay_settlement_retries (lw_db w)) = ["completed"] /\
  set_failed demo_forward ∈ relay_federation_settlements (lw_db w).
Proof.
  intros w.
  destruct (overlapping_passes_refund_acknowledged no_tasks (set_retry "pending" 7 0 forwarded_retry) demo_allocation demo_forward "alice"
    100 30100 (demo_turn 100 "u4") (demo_turn 30100 "u4") (demo_turn 100 "u4") (demo_turn 30100 "u4") (demo_turn 100 "u4")
    (demo_turn 30100 "u4") last_try) as (_ & Hf & Hb).
  - apply refundable_retries, forwarded_refundable.
  - by vm_compute.
  - vm_compute. reflexivity.
  - vm_compute. reflexivity.
  - done.
  - done.
  - done.
  - done.
  - done.
  - by apply fresh_uuidb_spec.
  - split; [etransitivity; [exact (Hb "alice")|by vm_compute]|]. split; [by vm_compute|exact Hf].
Defined.
