(* ===== verification/BatchLaws.v ===== *)
(** * What a turn of the batch loop does to the queue

    [queue_ok] is the invariant of the queue's table with the two it writes beside
    it; [evolves] is what any turn does to the rows, under any freeze and whether or
    not it throws.  Each statement and each function of [BatchWithdrawals] is shown to
    stay within it. *)

From Stdlib Require Import String.
From S2P Require Import Prelude Float64 JsString LedgerTypes Driver SqlStore SqlRefines.
From S2P Require Import Settlement Escrow EscrowLaws EscrowRuns EscrowRefunds Freeze BatchWithdrawals.
Local Open Scope string_scope.
Local Open Scope Z_scope.
Local Open Scope motebit_scope.

(** ** Under the guards *)

(** What returns under the guards returns the same without them. *)
Definition below {A} (m m' : call relay_db ledger_error A) : Prop := forall d a d', m d = (Ok a, d') -> m' d = (Ok a, d').

Lemma below_refl {A} (m : call relay_db ledger_error A) : below m m.
Proof. by intros d a d'. Qed.

Lemma below_bind {A B} (m m' : call relay_db ledger_error A) (k k' : A -> call relay_db ledger_error B) :
  below m m' -> (forall a, below (k a) (k' a)) -> below (call_bind m k) (call_bind m' k').
Proof.
  intros Hm Hk d b d' (a & d1 & H1 & H2)%call_bind_ok. apply call_bind_ok. exists a, d1. split; [by apply Hm|by apply Hk].
Qed.

Lemma below_sql fr {A} (f : relay_db -> result ledger_error (A * relay_db)) :
  below (@run_sql _ _ _ (FreezeDriver fr) A f) (@run_sql _ _ _ PureDriver A f).
Proof.
  intros d a d'. cbn. unfold stmt_fn, guarded_sql. destruct fr; [|done].
  destruct (f d) as [[b d1]|e]; [|done]. by destruct (freeze_refuses d d1).
Qed.

Lemma below_transaction fr {A} (m m' : call relay_db ledger_error A) : below m m' ->
  below (@run_transaction _ _ _ (FreezeDriver fr) A m) (@run_transaction _ _ _ PureDriver A m').
Proof.
  intros H d a d'. cbn. unfold all_or_nothing. specialize (H d). destruct (m d) as [[b|e] d1]; [|done].
  intros [= -> ->]. by rewrite (H a d').
Qed.

Ltac below_auto :=
  repeat first
    [ progress intros | apply below_sql | apply below_transaction | apply below_refl | apply below_bind
    | match goal with |- below (match ?x with _ => _ end) _ => destruct x end ].

(** A statement that throws has changed nothing. *)
Lemma frozen_throws fr {A} (f : relay_db -> result ledger_error (A * relay_db)) d e d' :
  @run_sql _ _ _ (FreezeDriver fr) A f d = (Throw e, d') -> d' = d.
Proof.
  cbn. unfold stmt_fn. destruct (guarded_sql fr f d) as [[a d1]|e']; [done|]. by intros [= _ <-].
Qed.

Lemma frozen_rolls_back fr {A} (m : call relay_db ledger_error A) d e d' :
  @run_transaction _ _ _ (FreezeDriver fr) A m d = (Throw e, d') -> d' = d.
Proof. cbn. unfold all_or_nothing. destruct (m d) as [[a|e'] d1]; [done|]. by intros [= _ <-]. Qed.

(** ** A credit that returns *)

Abbreviation plain m := (m : call relay_db ledger_error _).

Lemma inserted_fresh row d d' : plain (insert_transaction row) d = (Ok tt, d') ->
  Forall (fun r => transaction_id (txn r) <> transaction_id (txn row)) (relay_transactions d).
Proof.
  unfold insert_transaction. cbn. unfold stmt_fn, insert_row. destruct (existsb _ _) eqn:E; [done|]. intros _.
  apply Forall_forall. intros r Hr Heq. apply not_true_iff_false in E. apply E, existsb_exists. exists r.
  split; [by apply list_elem_of_In|]. by apply bool_decide_eq_true.
Qed.

Lemma account_keeps_ledger id now d r d' : plain (getOrCreateAccount id now) d = (r, d') ->
  relay_transactions d' = relay_transactions d.
Proof.
  unfold getOrCreateAccount, select, call_bind, run_sql. cbn. unfold stmt_fn at 1.
  destruct (find_account id d); [by intros [= _ <-]|]. unfold stmt_fn. destruct (insert_row _ _ _); by intros [= _ <-].
Qed.

Lemma queue_credit_returns id a ty ref desc stamp uuid now d b d' : NoDup (va_motebit_id <$> relay_accounts d) ->
  plain (credit id (JInt a) ty ref desc stamp uuid now) d = (Ok b, d') ->
  moved id a [txn_values uuid id ty a (sql_balance id d + a) ref desc now stamp] d d'.
Proof.
  intros Hnd H. assert (fresh_uuid uuid d) as Hf.
  { pose proof H as H'. unfold credit in H'. cbn [assertMicroUnits check] in H'. apply txn_committed in H'.
    apply call_bind_ok in H' as (x & d1 & H1 & (n & d2 & H2 & (z & d3 & H3 & ([] & d4 & H4 & _)%call_bind_ok)%call_bind_ok)%call_bind_ok).
    apply inserted_fresh in H4. cbn [txn_values txn transaction_id] in H4. injection H3 as _ <-.
    assert (relay_transactions d2 = relay_transactions d1) as E by (cbn in H2; unfold stmt_fn in H2; by injection H2 as _ <-).
    unfold fresh_uuid. rewrite <- (account_keeps_ledger _ _ _ _ _ H1), <- E. exact H4. }
  destruct (credit_pure id a ty ref desc stamp uuid now d Hnd Hf) as (d1 & R & Hm). rewrite R in H. by injection H as _ <-.
Qed.

(** ** The invariant of the queue *)

(** What the ledger says of a queue row: the rows that reference it, summed. *)
Definition queue_txn (id : string) (t : AccountTransaction) : bool :=
  bool_decide (reference_id t = Some id) && bool_decide (tx_type t = withdrawal).
Definition queue_net (id : string) (d : relay_db) : Z :=
  select_sum (queue_txn id) tx_amount (txn <$> relay_transactions d).

Definition is_settled (st : queue_status) : Prop := st = q_fired \/ st = q_unknown.
Definition is_owed (st : queue_status) : Prop := st = q_refund_owed \/ st = q_refunded.

(** The withdrawal a settled row became. *)
Definition recorded (r : pending_row) (d : relay_db) : Prop := exists w,
  w ∈ relay_withdrawals d /\ linked_withdrawal r = Some (withdrawal_id (wd w)) /\
  w_motebit_id (wd w) = pr_motebitId (pw r) /\ w_amount (wd w) = pr_amountMicro (pw r).

Record queue_ok (d : relay_db) : Prop := {
  qk_accounts : NoDup (va_motebit_id <$> relay_accounts d);
  qk_ids : NoDup (pid <$> relay_pending_withdrawals d);
  qk_net r : r ∈ relay_pending_withdrawals d ->
    queue_net (pid r) d = if bool_decide (pst r = q_refunded) then 0 else - pr_amountMicro (pw r);
  qk_settled r : r ∈ relay_pending_withdrawals d -> is_settled (pst r) -> recorded r d;
}.

(** The entry of a row: all but what the loop writes. *)
Definition same_entry (a b : PendingRow) : Prop := with_queue_status (pr_status b) a = b.

Lemma same_entry_refl a : same_entry a a.
Proof. by destruct a. Qed.

Lemma same_entry_trans a b c : same_entry a b -> same_entry b c -> same_entry a c.
Proof. unfold same_entry. intros <- <-. by destruct a. Qed.

Lemma same_entry_set st a : same_entry a (with_queue_status st a).
Proof. by destruct a. Qed.

Lemma entry_id a b : same_entry a b -> pr_pendingId b = pr_pendingId a.
Proof. unfold same_entry. by intros <-. Qed.

Lemma entry_rail a b : same_entry a b -> pr_rail b = pr_rail a.
Proof. unfold same_entry. by intros <-. Qed.

#[export] Hint Resolve same_entry_refl same_entry_trans same_entry_set : motebit.

Lemma row_by_id d r1 r2 : queue_ok d -> r1 ∈ relay_pending_withdrawals d -> r2 ∈ relay_pending_withdrawals d ->
  pid r1 = pid r2 -> r1 = r2.
Proof. intros H. exact (nodup_key pid _ r1 r2 (qk_ids _ H)). Qed.

(** ** What a turn may do

    [owes r]: the row's payout is known not to have been sent. *)
Section evolves.
Context (owes : PendingRow -> Prop).
Hypothesis owes_entry : forall a b, same_entry a b -> owes a -> owes b.

Record row_evolves (r r' : pending_row) : Prop := {
  re_entry : same_entry (pw r) (pw r');
  re_pending : pst r' = q_pending -> pst r = q_pending;
  re_owed : is_owed (pst r') -> is_owed (pst r) \/ owes (pw r');
}.

Definition evolves (d d' : relay_db) : Prop := queue_ok d -> queue_ok d' /\
  pid <$> relay_pending_withdrawals d' = pid <$> relay_pending_withdrawals d /\
  forall r', r' ∈ relay_pending_withdrawals d' -> exists r, r ∈ relay_pending_withdrawals d /\ row_evolves r r'.

Lemma row_evolves_refl r : row_evolves r r.
Proof. split; auto with motebit. Qed.

Lemma row_evolves_trans r1 r2 r3 : row_evolves r1 r2 -> row_evolves r2 r3 -> row_evolves r1 r3.
Proof.
  intros [E1 P1 O1] [E2 P2 O2]. split; [by eapply same_entry_trans|auto|].
  intros [H|H]%O2; [|by right]. apply O1 in H as [H|H]; [by left|right]. by eapply owes_entry.
Qed.

#[export] Instance evolves_preorder : PreOrder evolves.
Proof.
  split.
  - intros d H. split; [done|]. split; [done|]. intros r Hr. exists r. split; [done|apply row_evolves_refl].
  - intros d1 d2 d3 H1 H2 Hok. destruct (H1 Hok) as (Hok2 & E1 & R1). destruct (H2 Hok2) as (Hok3 & E2 & R2).
    split; [done|]. split; [congruence|]. intros r3 Hr3. destruct (R2 r3 Hr3) as (r2 & Hr2 & Hs2).
    destruct (R1 r2 Hr2) as (r1 & Hr1 & Hs1). exists r1. split; [done|]. by eapply row_evolves_trans.
Qed.

(** One row changes. *)
Record row_step (r : pending_row) (f : pending_row -> pending_row) (d d' : relay_db) : Prop := {
  rs_in : r ∈ relay_pending_withdrawals d;
  rs_queue : relay_pending_withdrawals d' = update_rows (row_in (pid r) (pst r)) f (relay_pending_withdrawals d);
  rs_entry : same_entry (pw r) (pw (f r));
  rs_accounts : NoDup (va_motebit_id <$> relay_accounts d');
  rs_net id : queue_net id d' = queue_net id d +
    if bool_decide (id = pid r) && bool_decide (pst (f r) = q_refunded) then pr_amountMicro (pw r) else 0;
  rs_withdrawals w : w ∈ relay_withdrawals d -> w ∈ relay_withdrawals d';
  rs_settled : is_settled (pst (f r)) -> recorded (f r) d';
}.

Lemma stepped_rows r f d d' r' : queue_ok d -> row_step r f d d' -> r' ∈ relay_pending_withdrawals d' ->
  r' = f r \/ (r' ∈ relay_pending_withdrawals d /\ pid r' <> pid r).
Proof.
  intros Hok Hs. rewrite (rs_queue _ _ _ _ Hs). unfold update_rows.
  intros (x & -> & Hx)%list_elem_of_fmap. unfold row_in. case_bool_decide as E; cbn.
  - pose proof (row_by_id d x r Hok Hx (rs_in _ _ _ _ Hs) E) as ->. rewrite bool_decide_true by done. by left.
  - by right.
Qed.

Lemma row_step_evolves r f d d' : pst r <> q_refunded -> pst (f r) <> q_pending ->
  (is_owed (pst (f r)) -> is_owed (pst r) \/ owes (pw (f r))) -> row_step r f d d' -> evolves d d'.
Proof.
  intros Hnr Hnp Hown Hs Hok. pose proof (rs_entry _ _ _ _ Hs) as He.
  assert (pid (f r) = pid r) as Hid by exact (entry_id _ _ He).
  assert (pid <$> relay_pending_withdrawals d' = pid <$> relay_pending_withdrawals d) as Hids.
  { rewrite (rs_queue _ _ _ _ Hs). unfold update_rows. rewrite <- list_fmap_compose. apply list_fmap_ext.
    intros k x Hx%list_elem_of_lookup_2. cbn. unfold row_in. case_bool_decide as E; cbn; [|done].
    pose proof (row_by_id d x r Hok Hx (rs_in _ _ _ _ Hs) E) as ->. by rewrite bool_decide_true. }
  split; [|split; [exact Hids|]].
  - split; [apply Hs|rewrite Hids; apply Hok| |].
    + intros r' [->|[Hr' Hne]]%(stepped_rows _ _ _ _ _ Hok Hs); rewrite (rs_net _ _ _ _ Hs).
      * rewrite Hid, (bool_decide_true (pid r = pid r)), (qk_net _ Hok r (rs_in _ _ _ _ Hs)), bool_decide_false by done.
        assert (pr_amountMicro (pw (f r)) = pr_amountMicro (pw r)) as ->
          by (unfold same_entry in He; rewrite <- He; by destruct (pw r)). cbn. case_bool_decide; lia.
      * rewrite (bool_decide_false (pid r' = pid r)) by done. rewrite (qk_net _ Hok r' Hr'). cbn. lia.
    + intros r' [->|[Hr' Hne]]%(stepped_rows _ _ _ _ _ Hok Hs) Hst; [by apply Hs|].
      destruct (qk_settled _ Hok r' Hr' Hst) as (w & Hw & H). exists w. split; [by apply Hs|done].
  - intros r' [->|[Hr' Hne]]%(stepped_rows _ _ _ _ _ Hok Hs).
    + exists r. split; [apply Hs|]. split; [done|done|done].
    + exists r'. split; [done|apply row_evolves_refl].
Qed.
End evolves.

Lemma evolves_forward owes d d' r : evolves owes d d' -> queue_ok d -> r ∈ relay_pending_withdrawals d ->
  exists r', r' ∈ relay_pending_withdrawals d' /\ row_evolves owes r r'.
Proof.
  intros He Hok Hr. destruct (He Hok) as (Hok' & Hids & Hb).
  assert (pid r ∈ pid <$> relay_pending_withdrawals d') as (r' & Hid & Hr')%list_elem_of_fmap
    by (rewrite Hids; by apply list_elem_of_fmap_2).
  exists r'. split; [done|]. destruct (Hb r' Hr') as (r0 & Hr0 & Hs).
  pose proof (entry_id _ _ (re_entry _ _ _ Hs)) as E. assert (r0 = r) as <-; [|done].
  apply (row_by_id d); try done. unfold pid in *. congruence.
Qed.

(** ** The statements *)

Lemma update_none {R} (c : R -> bool) f rows : changes c rows = 0%nat -> update_rows c f rows = rows.
Proof.
  unfold changes, update_rows. induction rows as [|x rows IH]; [done|]. cbn. destruct (c x); [done|].
  intros H. by rewrite IH.
Qed.

Lemma changed_row id st f d :
  (changes (row_in id st) (relay_pending_withdrawals d) = 0%nat /\ upd_pending (update_rows (row_in id st) f) d = d) \/
  (changes (row_in id st) (relay_pending_withdrawals d) <> 0%nat /\
   exists r, r ∈ relay_pending_withdrawals d /\ pid r = id /\ pst r = st).
Proof.
  destruct (decide (changes (row_in id st) (relay_pending_withdrawals d) = 0%nat)) as [Hn|Hn]; [left|right]; (split; [done|]).
  - unfold upd_pending. rewrite update_none by done. by destruct d.
  - unfold changes in Hn. destruct (List.filter _ _) as [|r l] eqn:E; [done|].
    assert (In r (List.filter (row_in id st) (relay_pending_withdrawals d))) as Hr by (rewrite E; by left).
    apply filter_In in Hr as [Hr Hc%andb_true_iff]. rewrite !bool_decide_eq_true in Hc.
    exists r. split; [by apply list_elem_of_In|done].
Qed.

Section statements.
Context (owes : PendingRow -> Prop).
Hypothesis owes_entry : forall a b, same_entry a b -> owes a -> owes b.
Context (fr : bool).
#[local] Instance guards : DatabaseDriver relay_db ledger_error relay_db := FreezeDriver fr.
Abbreviation run m := (m : call relay_db ledger_error _).
Abbreviation evolve := (stays (E := ledger_error) (evolves owes)).
Implicit Types (d : relay_db).

Lemma evolves_pre : PreOrder (evolves owes).
Proof. by apply evolves_preorder. Qed.
#[local] Existing Instance evolves_pre.

Lemma update_queue_cases id st f d res d' : run (update_queue (row_in id st) f) d = (res, d') ->
  (exists e, res = Throw e /\ d' = d) \/
  (exists n, res = Ok n /\ d' = upd_pending (update_rows (row_in id st) f) d /\ n = changes (row_in id st) (relay_pending_withdrawals d)).
Proof.
  intros H. destruct res as [n|e]; [right|left; exists e; split; [done|by eapply (frozen_throws fr)]].
  exists n. split; [done|]. apply (below_sql fr) in H. cbn in H. unfold stmt_fn in H. by injection H as <- <-.
Qed.

(** A status that only the queue's table shows. *)
Lemma plain_step r f d : queue_ok d -> r ∈ relay_pending_withdrawals d -> same_entry (pw r) (pw (f r)) ->
  pst (f r) <> q_refunded -> ~ is_settled (pst (f r)) ->
  row_step r f d (upd_pending (update_rows (row_in (pid r) (pst r)) f) d).
Proof.
  intros Hok Hr He Hn Hs. split; try done; [apply Hok|]. intros id. rewrite (bool_decide_false (pst (f r) = q_refunded)) by done.
  rewrite andb_false_r. change (queue_net id (upd_pending _ d)) with (queue_net id d). lia.
Qed.

Lemma claim_evolves id now : evolve (update_queue (row_in id q_pending) (fun r => set_queue q_firing (last_error r) now r)).
Proof.
  intros d. destruct (run (update_queue _ _) d) as [res d'] eqn:H. cbn.
  apply update_queue_cases in H as [(e & _ & ->)|(n & _ & -> & _)]; [reflexivity|].
  destruct (changed_row id q_pending (fun r => set_queue q_firing (last_error r) now r) d)
    as [[_ ->]|(_ & r & Hr & <- & Hst)]; [reflexivity|]. rewrite <- Hst. intros Hok. eapply row_step_evolves; [| | |apply plain_step|exact Hok]; auto with motebit;
    first [by rewrite Hst|done|by intros [Hx|Hx]].
Qed.

Lemma select_evolves {A} (q : relay_db -> A) : evolve (select q).
Proof.
  intros d. destruct (run (select q) d) as [[a|e] d'] eqn:E; cbn.
  - apply (below_sql fr) in E. injection E as _ <-. reflexivity.
  - apply (frozen_throws fr) in E as ->. reflexivity.
Qed.

Lemma claims_evolve now ids : evolve (claimForFiring ids now).
Proof.
  induction ids as [|id ids IH]; cbn [claimForFiring]; [by apply stays_ret; exact _|].
  apply stays_bind; [exact _|apply claim_evolves|]. intros n. apply stays_bind; [exact _| |].
  - case_decide; [by apply stays_ret; exact _|apply select_evolves].
  - intros x. apply stays_bind; [exact _|exact IH|]. intros l. by apply stays_ret; exact _.
Qed.

(** What a claim returns: rows that were pending and are not now. *)
Definition claimed_rows d d' (xs : list PendingRow) : Prop :=
  NoDup (pr_pendingId <$> xs) /\ forall x, x ∈ xs ->
    (exists r, r ∈ relay_pending_withdrawals d /\ pst r = q_pending /\ same_entry (pw r) x) /\
    (forall r', r' ∈ relay_pending_withdrawals d' -> pid r' = pr_pendingId x -> pst r' <> q_pending).

Lemma find_pid d r : queue_ok d -> r ∈ relay_pending_withdrawals d ->
  List.find (fun x => bool_decide (pid x = pid r)) (relay_pending_withdrawals d) = Some r.
Proof.
  intros Hok Hr. apply (find_unique pid); [apply Hok|done| |by apply bool_decide_eq_true]. intros y _ Hy. by apply bool_decide_eq_true in Hy.
Qed.

Lemma claims_claimed now ids : forall d xs d', queue_ok d -> run (claimForFiring ids now) d = (Ok xs, d') -> claimed_rows d d' xs.
Proof.
  induction ids as [|id ids IH]; intros d xs d' Hok; cbn [claimForFiring].
  { intros [= <- <-]. split; [constructor|by intros x Hx%elem_of_nil]. }
  intros (n & d1 & H1 & (o & d2 & H2 & (l & d3 & H3 & [= <- <-])%call_bind_ok)%call_bind_ok)%call_bind_ok.
  pose proof (claim_evolves id now d) as He. rewrite H1 in He. cbn in He.
  apply update_queue_cases in H1 as [(e & [=] & _)|(n' & [= <-] & Ed1 & En)].
  assert (d2 = d1 /\ o = if decide (n = 0%nat) then None else List.find (fun r => bool_decide (pid r = id)) (relay_pending_withdrawals d1)) as [-> ->].
  { case_decide; [by injection H2 as <- <-|]. apply (below_sql fr) in H2. by injection H2 as <- <-. }
  destruct (He Hok) as (Hok1 & Hids & Hb). destruct (IH d1 l d3 Hok1 H3) as [Hnd Hl].
  pose proof (claims_evolve now ids d1) as He3. rewrite H3 in He3. cbn in He3.
  assert (forall x, x ∈ l -> (exists r, r ∈ relay_pending_withdrawals d /\ pst r = q_pending /\ same_entry (pw r) x) /\
    (forall r', r' ∈ relay_pending_withdrawals d3 -> pid r' = pr_pendingId x -> pst r' <> q_pending)) as Hl'.
  { intros x Hx. destruct (Hl x Hx) as [(r1 & Hr1 & Hs1 & Hx1) H]. split; [|exact H].
    destruct (Hb r1 Hr1) as (r & Hr & [E1 E2 _]). exists r. split; [done|]. split; [auto|by eapply same_entry_trans]. }
  case_decide as Hn; [by split|]. set (f := fun r => set_queue q_firing (last_error r) now r) in *.
  destruct (changed_row id q_pending f d) as [[Hz _]|(_ & r & Hr & <- & Hst)]; [congruence|]. subst d1.
  set (d1 := upd_pending _ d) in *.
  assert (List.find (fun x => bool_decide (pid x = pid r)) (relay_pending_withdrawals d1) = Some (f r)) as ->.
  { cbn. rewrite (find_updated _ _ f _ r); [|done|by apply find_pid]. unfold row_in.
    by rewrite !bool_decide_true. }
  assert (f r ∈ relay_pending_withdrawals d1) as Hfr.
  { cbn. unfold update_rows. apply list_elem_of_fmap. exists r. split; [|done]. unfold row_in. by rewrite !bool_decide_true. }
  split.
  - cbn. apply NoDup_cons. split; [|done]. intros (x & Ex & Hx)%list_elem_of_fmap.
    destruct (Hl x Hx) as [(r1 & Hr1 & Hs1 & Hx1) _]. apply entry_id in Hx1.
    assert (r1 = f r) as ->; [|done]. apply (row_by_id d1); try done. unfold pid in *. cbn in *. congruence.
  - intros x [->|Hx]%elem_of_cons; [|by apply Hl']. split.
    + exists r. split; [done|]. split; [done|]. apply same_entry_set.
    + intros r' Hr' Hid. destruct (He3 Hok1) as (_ & _ & Hb3). destruct (Hb3 r' Hr') as (r1 & Hr1 & [E1 E2 _]).
      apply entry_id in E1. assert (r1 = f r) as ->; [|by intros Hp%E2].
      apply (row_by_id d1); try done. unfold pid in *. cbn in *. congruence.
Qed.

(** ** Refunds *)

Lemma queue_net_grows id l d d' : relay_transactions d' = (relay_transactions d ++ l)%list ->
  queue_net id d' = queue_net id d + select_sum (queue_txn id) tx_amount (txn <$> l).
Proof.
  intros E. unfold queue_net, select_sum. rewrite E, fmap_app.
  rewrite List.filter_app, zsum_app. lia.
Qed.

Lemma refund_below id at_ uuid now :
  below (refundPendingWithdrawal id at_ uuid now) (@refundPendingWithdrawal relay_db PureDriver id at_ uuid now).
Proof.
  unfold refundPendingWithdrawal, credit, getOrCreateAccount, select, check, insert_transaction, select_balance, update_balance.
  below_auto.
Qed.

Definition refunded_at (at_ : Z) (r : pending_row) : pending_row := {|
  pw := with_queue_status q_refunded (pw r); last_attempt_at := Some at_;
  last_error := last_error r; linked_withdrawal := linked_withdrawal r |}.

(** A refund that returns true has refunded the row. *)
Lemma refund_returns id at_ uuid now d b d' : queue_ok d -> run (refundPendingWithdrawal id at_ uuid now) d = (Ok b, d') ->
  (b = false /\ d' = d) \/
  (b = true /\ exists r, r ∈ relay_pending_withdrawals d /\ pid r = id /\ pst r = q_refund_owed /\
     row_step r (refunded_at at_) d d' /\ relay_withdrawals d' = relay_withdrawals d /\
     exists t, relay_transactions d' = (relay_transactions d ++ [t])%list /\ transaction_id (txn t) = uuid).
Proof.
  intros Hok H. apply refund_below in H. unfold refundPendingWithdrawal in H. apply txn_committed in H.
  apply call_bind_ok in H as (n & d1 & H1 & H2).
  assert (n = changes (row_in id q_refund_owed) (relay_pending_withdrawals d) /\
    d1 = upd_pending (update_rows (row_in id q_refund_owed) (refunded_at at_)) d) as [-> ->]
    by (cbn in H1; unfold stmt_fn in H1; by injection H1 as <- <-).
  destruct (changed_row id q_refund_owed (refunded_at at_) d) as [[Hz E]|(Hn & r & Hr & <- & Hst)].
  - left. rewrite Hz, E in H2. cbn in H2. by injection H2 as <- <-.
  - right. rewrite decide_False in H2 by done. set (d1 := upd_pending _ d) in *.
    assert (List.find (fun x => bool_decide (pid x = pid r)) (relay_pending_withdrawals d1) = Some (refunded_at at_ r)) as Hf.
    { cbn. rewrite (find_updated _ _ (refunded_at at_) _ r); [|done|by apply find_pid]. unfold row_in.
      by rewrite !bool_decide_true. }
    apply call_bind_ok in H2 as (o & d2 & H2 & H3). assert (o = Some (refunded_at at_ r) /\ d2 = d1) as [-> ->]
      by (rewrite <- Hf; by injection H2 as <- <-). apply call_bind_ok in H3 as (z & d2 & H3 & [= <- <-]). split; [done|].
    exists r. split; [done|]. split; [done|]. split; [done|].
    apply queue_credit_returns in H3; [|exact (qk_accounts _ Hok)]. destruct H3 as [_ Hnd [rows ->]].
    split; [|by split; [done|eexists]]. split; try done.
    + by rewrite Hst.
    + intros i. rewrite (queue_net_grows i [txn_values uuid (pr_motebitId (pw r)) withdrawal (pr_amountMicro (pw r)) _ (Some (pid r)) _ now None] d) by reflexivity.
      unfold select_sum, queue_txn. cbn -[Z.add]. rewrite (bool_decide_true (q_refunded = q_refunded)), andb_true_r by done.
      destruct (decide (i = pid r)) as [->|Hi]; [rewrite !bool_decide_true by done; cbn; lia|].
      rewrite (bool_decide_false (Some (pid r) = Some i)) by congruence. rewrite (bool_decide_false (i = pid r)) by done. cbn. lia.
    + intros [Hx|Hx]; done.
Qed.

Lemma refund_evolves id at_ uuid now : evolve (refundPendingWithdrawal id at_ uuid now).
Proof.
  intros d. destruct (run (refundPendingWithdrawal id at_ uuid now) d) as [[b|e] d'] eqn:E; cbn.
  - intros Hok. destruct (refund_returns _ _ _ _ _ _ _ Hok E) as [[_ ->]|(_ & r & Hr & <- & Hst & Hs & _)].
    { assert (evolves owes d d) as Hx by reflexivity. by apply Hx. }
    revert Hok. apply (row_step_evolves _ r (refunded_at at_)); [by rewrite Hst|done| |exact Hs]. intros _. left. left. exact Hst.
  - apply (frozen_rolls_back fr) in E as ->. reflexivity.
Qed.

Lemma owed_refund_evolves id now uuid : evolve (settleOwedRefund id now uuid).
Proof.
  apply stays_catch; [exact _|apply refund_evolves|]. intros e. case_match; [apply stays_ret|apply stays_throw]; exact _.
Qed.

Lemma owed_refunds_evolve now mint : evolve (settleOwedRefunds now mint).
Proof.
  apply stays_bind; [exact _|apply select_evolves|]. intros ids.
  apply (stays_foldr _ (fun id => settleOwedRefund id now (mint id))); [apply stays_ret; exact _|].
  intros id. apply owed_refund_evolves.
Qed.

(** ** Outcomes *)

(** A row's outcome with the withdrawal that records it, committed together. *)
Definition settle_row (id : string) (st : queue_status) (error : pending_row -> option string) (row : PendingRow) (fired : FiredRecord)
    (now : Z) (note : option string) (uuid : string) : call relay_db ledger_error (option string) :=
  run_transaction (
    let! info := update_queue (row_in id q_firing) (fun r => set_queue st (error r) now r) in
    if decide (info = 0%nat) then call_ret None else
    let! wid := recordFiredWithdrawal row fired now note uuid in
    link_withdrawal id wid ;!
    call_ret (Some wid)).

Definition settled_row (st : queue_status) (error : pending_row -> option string) (now : Z) (uuid : string) (r : pending_row) : pending_row := {|
  pw := with_queue_status st (pw r); last_attempt_at := Some now; last_error := error r; linked_withdrawal := Some uuid |}.

Lemma update_rows_twice {R} (c1 c2 : R -> bool) (f g : R -> R) rows :
  (forall r, r ∈ rows -> c2 (if c1 r then f r else r) = c1 r) ->
  update_rows c2 g (update_rows c1 f rows) = update_rows c1 (fun r => g (f r)) rows.
Proof.
  intros H. unfold update_rows. rewrite <- list_fmap_compose. apply list_fmap_ext. intros k r Hr%list_elem_of_lookup_2.
  cbn. rewrite (H r Hr). by destruct (c1 r).
Qed.

Lemma settle_row_returns id st error row fired now note uuid d o d' : queue_ok d -> is_settled st ->
  (forall r, r ∈ relay_pending_withdrawals d -> pid r = id -> same_entry row (pw r)) ->
  run (settle_row id st error row fired now note uuid) d = (Ok o, d') ->
  (o = None /\ d' = d) \/
  (o = Some uuid /\ exists r, r ∈ relay_pending_withdrawals d /\ pid r = id /\ pst r = q_firing /\
     relay_withdrawals d' = (relay_withdrawals d ++ [fired_withdrawal row fired now note uuid])%list /\
     relay_transactions d' = relay_transactions d /\
     row_step r (settled_row st error now uuid) d d').
Proof.
  intros Hok Hst Hrow H.
  assert (below (settle_row id st error row fired now note uuid) (@run_transaction _ _ _ PureDriver _ (
    let! info := @update_queue _ PureDriver (row_in id q_firing) (fun r => set_queue st (error r) now r) in
    if decide (info = 0%nat) then call_ret None else
    let! wid := @recordFiredWithdrawal _ PureDriver row fired now note uuid in
    @link_withdrawal _ PureDriver id wid ;!
    call_ret (Some wid)))) as Hb
    by (unfold settle_row, recordFiredWithdrawal, link_withdrawal, update_queue; below_auto).
  apply Hb in H. apply txn_committed in H. apply call_bind_ok in H as (n & d1 & H1 & H2).
  set (f := fun r => set_queue st (error r) now r) in *.
  assert (n = changes (row_in id q_firing) (relay_pending_withdrawals d) /\ d1 = upd_pending (update_rows (row_in id q_firing) f) d)
    as [-> ->] by (by injection H1 as <- <-).
  destruct (changed_row id q_firing f d) as [[Hz E]|(Hn & r & Hr & <- & Hf)].
  { left. rewrite Hz, E in H2. by injection H2 as <- <-. }
  right. rewrite decide_False in H2 by done. set (d1 := upd_pending _ d) in *.
  apply call_bind_ok in H2 as (wid & d2 & H2 & ([] & d3 & H3 & [= <- <-])%call_bind_ok).
  apply call_bind_ok in H2 as ([] & d2' & H2 & [= <- <-]). cbn in H2. unfold stmt_fn, insert_row in H2.
  destruct (existsb _ _); [done|]. injection H2 as <-. apply call_bind_ok in H3 as (m & d4 & H3 & [= <-]).
  injection H3 as _ <-. split; [done|]. exists r. do 5 (split; [done|]).
  split; try done.
  - rewrite Hf. etrans; [apply (update_rows_twice (row_in (pid r) q_firing) (fun x => bool_decide (pid x = pid r)) f)|done].
    intros x Hx. unfold row_in. destruct (decide (pid x = pid r)) as [E|E].
    + rewrite (row_by_id d x r Hok Hx Hr E). trans true.
      * apply bool_decide_eq_true. by case_match.
      * by rewrite !bool_decide_true.
    + rewrite (bool_decide_false (pid x = pid r)) by done. cbn. by apply bool_decide_eq_false.
  - apply Hok.
  - intros i. cbn [pst settled_row pw with_queue_status pr_status].
    rewrite (bool_decide_false (st = q_refunded)) by (by destruct Hst as [->| ->]). rewrite andb_false_r.
    change (queue_net i _) with (queue_net i d). lia.
  - intros w Hw. apply elem_of_app. by left.
  - intros _. exists (fired_withdrawal row fired now note uuid). split; [apply elem_of_app; right; by left|].
    pose proof (Hrow r Hr eq_refl) as He. split; [done|]. unfold same_entry in He. cbn. rewrite <- He. by destruct row.
Qed.

Lemma settle_row_throws id st error row fired now note uuid d e d' :
  run (settle_row id st error row fired now note uuid) d = (Throw e, d') -> d' = d.
Proof. apply (frozen_rolls_back fr). Qed.

(** ** Rows read before

    [tracked xs]: the rows [xs] were read from the queue. *)
Definition tracked (xs : list PendingRow) d : Prop := forall x r, x ∈ xs -> r ∈ relay_pending_withdrawals d ->
  pid r = pr_pendingId x -> same_entry x (pw r).

Lemma tracked_evolves xs d d' : queue_ok d -> evolves owes d d' -> tracked xs d -> tracked xs d'.
Proof.
  intros Hok He Ht x r' Hx Hr' Hid. destruct (He Hok) as (_ & _ & Hb). destruct (Hb r' Hr') as (r & Hr & [E _ _]).
  eapply same_entry_trans; [|exact E]. apply (Ht x r Hx Hr). apply entry_id in E. unfold pid in *. congruence.
Qed.

Lemma tracked_read d xs : queue_ok d -> (forall x, x ∈ xs -> exists r, r ∈ relay_pending_withdrawals d /\ same_entry (pw r) x) -> tracked xs d.
Proof.
  intros Hok H x r Hx Hr Hid. destruct (H x Hx) as (r0 & Hr0 & E). pose proof (entry_id _ _ E) as E'.
  assert (r0 = r) as -> by (apply (row_by_id d); try done; unfold pid in *; congruence).
  unfold same_entry in *. rewrite <- E. by destruct (pw r).
Qed.

Definition evolves_with (xs : list PendingRow) d d' : Prop := queue_ok d -> tracked xs d -> evolves owes d d'.

Lemma evolves_with_pre xs : PreOrder (evolves_with xs).
Proof.
  split.
  - intros d _ _. reflexivity.
  - intros d1 d2 d3 H1 H2 Hok Ht. pose proof (H1 Hok Ht) as He. destruct (He Hok) as (Hok2 & _).
    etrans; [exact He|]. apply H2; [done|]. exact (tracked_evolves xs d1 d2 Hok He Ht).
Qed.
#[local] Existing Instance evolves_with_pre.
Abbreviation evolve_with xs := (stays (E := ledger_error) (evolves_with xs)).

Lemma evolve_evolve_with xs {A} (m : call relay_db ledger_error A) : evolve m -> evolve_with xs m.
Proof. intros H d _ _. apply H. Qed.

Lemma settle_row_evolves xs st error row fired now note uuid : is_settled st -> row ∈ xs ->
  evolve_with xs (settle_row (pr_pendingId row) st error row fired now note uuid).
Proof.
  intros Hst Hx d Hok Ht. destruct (run (settle_row _ st error row fired now note uuid) d) as [[o|e] d'] eqn:E; cbn.
  - destruct (settle_row_returns _ st error row fired now note uuid d o d' Hok Hst (fun r Hr => Ht row r Hx Hr) E)
      as [[_ ->]|(_ & r & Hr & Hid & Hf & _ & _ & Hs)]; [reflexivity|].
    apply (row_step_evolves _ r (settled_row st error now uuid)); [by rewrite Hf| | |exact Hs]; cbn.
    + by destruct Hst as [-> | ->].
    + intros [Ho|Ho]; destruct Hst as [-> | ->]; done.
  - apply settle_row_throws in E as ->. reflexivity.
Qed.

Lemma owe_evolves xs row reason now : row ∈ xs -> owes row ->
  evolve_with xs (update_queue (row_in (pr_pendingId row) q_firing) (set_queue q_refund_owed (Some reason) now)).
Proof.
  intros Hx Ho d Hok Ht. destruct (run (update_queue _ _) d) as [res d'] eqn:H. cbn.
  apply update_queue_cases in H as [(e & _ & ->)|(n & _ & -> & _)]; [reflexivity|].
  destruct (changed_row (pr_pendingId row) q_firing (set_queue q_refund_owed (Some reason) now) d)
    as [[_ ->]|(_ & r & Hr & Hid & Hst)]; [reflexivity|]. rewrite <- Hst, <- Hid.
  eapply row_step_evolves; [| | |apply plain_step]; auto with motebit; first [by rewrite Hst|done|by intros [Hp|Hp]|idtac].
  intros _. right. apply (owes_entry row); [|done]. eapply same_entry_trans; [by apply (Ht row r)|apply same_entry_set].
Qed.

Lemma failed_evolves xs r row err now uuid : row ∈ xs -> (failureOutcome r err = not_sent -> owes row) ->
  evolve_with xs (markFailed r row err now uuid).
Proof.
  intros Hx Ho. unfold markFailed. destruct (failureOutcome r err).
  - unfold refundNotSent. apply stays_bind; [exact _|by apply owe_evolves; auto|]. intros n.
    case_decide; [apply stays_ret; exact _|]. apply stays_bind; [exact _| |intros; apply stays_ret; exact _].
    apply evolve_evolve_with, owed_refund_evolves.
  - apply stays_bind; [exact _| |intros; apply stays_ret; exact _].
    apply (settle_row_evolves xs q_unknown (fun _ => Some (message err)) row); [by right|done].
Qed.

Lemma fired_evolves xs row fired now uuid : row ∈ xs -> evolve_with xs (markFired row fired now uuid).
Proof. intros Hx. apply (settle_row_evolves xs q_fired last_error row fired now None uuid); [by left|done]. Qed.
End statements.

(** ** The enqueue *)

(** What opening an account or reading the holds leaves alone. *)
Record quiet_queue (d d' : relay_db) : Prop := {
  qq_transactions : relay_transactions d' = relay_transactions d;
  qq_queue : relay_pending_withdrawals d' = relay_pending_withdrawals d;
  qq_withdrawals : relay_withdrawals d' = relay_withdrawals d;
  qq_accounts : NoDup (va_motebit_id <$> relay_accounts d) -> NoDup (va_motebit_id <$> relay_accounts d');
}.

#[export] Instance quiet_queue_preorder : PreOrder quiet_queue.
Proof.
  split; [by intros d|]. intros d1 d2 d3 [A1 A2 A3 A4] [B1 B2 B3 B4]. split; [congruence|congruence|congruence|auto].
Qed.

(** A row enqueued with its debit. *)
Record enqueued (id : string) (d d' : relay_db) : Prop := {
  nq_accounts : NoDup (va_motebit_id <$> relay_accounts d) -> NoDup (va_motebit_id <$> relay_accounts d');
  nq_withdrawals : relay_withdrawals d' = relay_withdrawals d;
  nq_row : exists row t, relay_pending_withdrawals d' = (relay_pending_withdrawals d ++ [row])%list /\
    relay_transactions d' = (relay_transactions d ++ [t])%list /\ pid row = id /\ pst row = q_pending /\
    reference_id (txn t) = Some id /\ tx_type (txn t) = withdrawal /\ tx_amount (txn t) = - pr_amountMicro (pw row);
}.

Section enqueue.
Context (fr : bool).
#[local] Instance enqueue_guards : DatabaseDriver relay_db ledger_error relay_db := FreezeDriver fr.
Abbreviation quiets := (stays (E := ledger_error) quiet_queue).

Lemma sql_quiets {A} (f : relay_db -> result ledger_error (A * relay_db)) :
  (forall d a d', f d = Ok (a, d') -> quiet_queue d d') -> quiets (run_sql f).
Proof.
  intros H d. destruct (run_sql f d) as [[a|e] d'] eqn:E; cbn.
  - apply (below_sql fr) in E. cbn in E. unfold stmt_fn in E. apply (H d a). destruct (f d) as [[b d1]|e]; [|done]. by injection E as <- <-.
  - apply (frozen_throws fr) in E as ->. reflexivity.
Qed.

Lemma select_quiets {A} (q : relay_db -> A) : quiets (select q).
Proof. apply sql_quiets. by intros d a d' [= _ <-]. Qed.

Lemma account_quiets id now : quiets (SqlStore.getOrCreateAccount id now).
Proof.
  apply stays_bind; [exact _|apply select_quiets|]. intros [row|]; [apply stays_ret; exact _|].
  apply stays_bind; [exact _| |intros; apply stays_ret; exact _]. apply sql_quiets. intros d a d'.
  destruct (insert_row _ _ _) as [rows|e] eqn:E; [|done]. intros [= _ <-]. split; try done. cbn.
  apply insert_row_inv in E as [-> Hc]. apply (nodup_insert va_motebit_id same_account); [|exact Hc].
  intros r Hr%bool_decide_eq_false. intros E. by apply Hr.
Qed.

Lemma holds_quiet id now uuid : quiets (@Withdrawals.computeWithdrawableAvailable relay_db (StoreLaws.sqliteAccountStoreFor now uuid) id).
Proof.
  apply stays_bind; [exact _|apply account_quiets|]. intros account.
  apply stays_bind; [exact _| |].
  { apply stays_bind; [exact _|apply select_quiets|]. intros b. case_match; [apply stays_ret; exact _|apply select_quiets]. }
  intros dispute. apply stays_bind; [exact _| |intros; apply stays_ret; exact _].
  apply stays_bind; [exact _|apply select_quiets|]. intros b. case_match; [apply stays_ret; exact _|].
  apply stays_bind; [exact _|apply select_quiets|]. intros granted. case_decide; [apply stays_ret; exact _|].
  apply stays_bind; [exact _|apply select_quiets|]. intros spend. apply stays_ret; exact _.
Qed.

Lemma enqueue_below args q u now :
  below (debitAndEnqueuePending args q u now) (@debitAndEnqueuePending relay_db PureDriver args q u now).
Proof.
  unfold debitAndEnqueuePending, SqlStore.getOrCreateAccount, select, check, insert_transaction, select_balance, update_balance.
  below_auto.
Qed.

(** The compound primitive: a replay, a refusal, or the row with its debit. *)
Lemma debit_enqueue_returns args q u now d o d' : NoDup (va_motebit_id <$> relay_accounts d) -> ea_pendingId args = None ->
  debitAndEnqueuePending args q u now d = (Ok o, d') ->
  quiet_queue d d' \/ (exists b, o = Some (q, b) /\ enqueued q d d').
Proof.
  intros Hnd Hid H. apply enqueue_below in H. unfold debitAndEnqueuePending in H.
  destruct (ea_amountMicro args) as [amount|]; [|done]. rewrite Hid in H. cbn [assertMicroUnits check default] in H.
  apply txn_committed in H. apply call_bind_ok in H as (existing & d1 & H1 & H2).
  assert (d1 = d) as -> by (destruct (ea_idempotencyKey args); [by injection H1 as _ <-|by injection H1 as _ <-]).
  destruct existing as [r|].
  { left. apply call_bind_ok in H2 as (b & d1 & H2 & [= _ <-]). by injection H2 as _ <-. }
  apply call_bind_ok in H2 as (account & d1 & H2 & (n & d2 & H3 & H4)%call_bind_ok).
  destruct (getOrCreate_pure (ea_motebitId args) now d Hnd) as (row & d1' & E1 & Hm1 & Hrow & Hb).
  rewrite E1 in H2. injection H2 as <- ->.
  destruct (update_balance_pure (ea_motebitId args) (- amount) (Some amount) now row d1)
    as [[_ (d2' & E2 & Hm2)]|[_ E2]]; [apply Hm1|exact Hrow| |].
  - rewrite E2 in H3. injection H3 as <- ->. rewrite decide_False in H4 by done.
    apply call_bind_ok in H4 as (b & d3 & H4 & ([] & d4 & H5 & ([] & d5 & H6 & [= <- <-])%call_bind_ok)%call_bind_ok).
    injection H4 as _ <-. pose proof (inserted_fresh _ _ _ H5) as Hf.
    edestruct (insert_transaction_pure (ea_motebitId args)) as (d4' & E5 & Hm5); [apply Hm2|exact Hf|].
    rewrite E5 in H5. injection H5 as ->.
    pose proof (moved_trans _ _ _ _ _ _ _ _ (moved_trans _ _ _ _ _ _ _ _ Hm1 Hm2) Hm5) as [_ Hn [rows ->]].
    cbn in H6. unfold stmt_fn in H6. destruct (insert_row _ _ _) as [l|e] eqn:E6; [|done]. injection H6 as <-.
    apply insert_row_inv in E6 as [-> _]. right. eexists. split; [done|]. split; [done|done|].
    eexists _, _. by repeat (split; [reflexivity|]).
  - left. rewrite E2 in H3. injection H3 as <- <-. cbn in H4. injection H4 as _ <-. destruct Hm1 as [_ Hn [rows ->]].
    split; try done. cbn. by rewrite app_nil_r.
Qed.

Lemma enqueue_cases params q u now d res d' : NoDup (va_motebit_id <$> relay_accounts d) ->
  enqueuePendingWithdrawal params q u now d = (res, d') ->
  quiet_queue d d' \/ (res = Ok (Some q) /\ exists d1, quiet_queue d d1 /\ enqueued q d1 d').
Proof.
  intros Hnd. unfold enqueuePendingWithdrawal, check.
  destruct (assertPositiveMicro (ep_amountMicro params)) as [amount|e]; [|intros [= _ <-]; by left].
  unfold call_bind at 1.
  pose proof (holds_quiet (ep_motebitId params) now u d) as Hq.
  destruct (Withdrawals.computeWithdrawableAvailable _ d) as [[wa|e] d1]; cbn in Hq; [|intros [= _ <-]; by left].
  case_match; [intros [= _ <-]; by left|]. unfold call_bind.
  destruct (debitAndEnqueuePending _ q u now d1) as [[o|e] d2] eqn:E.
  - intros [= <- <-]. apply debit_enqueue_returns in E as [Hq2|(b & -> & He)]; [left; by etrans| |by apply Hq|done].
    right. split; [done|]. by exists d1.
  - intros [= _ <-]. left. assert (d2 = d1) as ->; [|done]. unfold debitAndEnqueuePending, check in E.
    destruct (assertMicroUnits _); [by apply (frozen_rolls_back fr) in E|by injection E as _ <-].
Qed.
End enqueue.
