(* ===== verification/BatchSystem.v ===== *)
(** * The batch loop as a system

    Passes of the loop under way in one process, their rails' answers in any order,
    restarts, the freeze coming and going, payouts that leave their rail, enqueues and
    the writes of other modules: a world and its events.  A queued payout is handed to
    a rail at most once, is refunded at most once, and never both paid and refunded;
    and a restart strands none. *)

From Stdlib Require Import String.
From S2P Require Import Prelude Float64 JsString LedgerTypes Driver SqlStore SqlRefines.
From S2P Require Import Settlement Escrow EscrowRuns EscrowRefunds Freeze BatchWithdrawals BatchLaws.
Local Open Scope list_scope.
Local Open Scope Z_scope.
Local Open Scope motebit_scope.

(** ** What a pass holds while it awaits *)

Definition w_rail (w : awaiting) : rail := match w with awaits_payout r _ _ _ _ | awaits_batch r _ => r end.
(** Handed to the rail; claimed and not yet handed; not yet claimed. *)
Definition air (w : awaiting) : list PendingRow := match w with awaits_payout _ x _ _ _ => [x] | awaits_batch _ xs => xs end.
Definition held (w : awaiting) : list PendingRow := match w with awaits_payout _ _ rest false _ => rest | _ => [] end.
Definition candidates (w : awaiting) : list PendingRow := match w with awaits_payout _ _ rest true _ => rest | _ => [] end.
Definition w_rows (w : awaiting) : list PendingRow := (air w ++ held w) ++ candidates w.

Section turns.
Context (rails : list rail) (owes : PendingRow -> Prop).
Hypothesis owes_entry : forall a b, same_entry a b -> owes a -> owes b.
Hypothesis owes_manual : forall r x, r ∈ rails -> isManualPayoutRail r = true -> pr_rail x = rail_name r -> owes x.
Context (config : BatchWithdrawalConfig) (i : turn_input).
Abbreviation guards := (relay_driver i).
#[local] Instance turn_evolves : PreOrder (evolves owes) := evolves_preorder owes owes_entry.

Record wait_ok (d : relay_db) (w : awaiting) : Prop := {
  wo_rail : w_rail w ∈ rails;
  wo_rows x : x ∈ w_rows w -> pr_rail x = rail_name (w_rail w);
  wo_tracked : tracked (w_rows w) d;
}.

(** What a turn leaves when it awaits again: rows claimed in this turn. *)
Definition fresh_wait (d d' : relay_db) (w : awaiting) : Prop := wait_ok d' w /\ claimed_rows d d' (air w ++ held w).

Lemma wait_evolves d d' w : queue_ok d -> evolves owes d d' -> wait_ok d w -> wait_ok d' w.
Proof. intros Hok He [H1 H2 H3]. split; [done|done|]. by apply (tracked_evolves owes _ d). Qed.

Lemma claimed_before d d1 d' xs : queue_ok d -> evolves owes d d1 -> claimed_rows d1 d' xs -> claimed_rows d d' xs.
Proof.
  intros Hok He [Hn H]. split; [done|]. intros x Hx. destruct (H x Hx) as [(r1 & Hr1 & Hs1 & Hx1) Hp]. split; [|done].
  destruct (He Hok) as (_ & _ & Hb). destruct (Hb r1 Hr1) as (r & Hr & [E P _]). exists r. split; [done|].
  split; [auto|by eapply same_entry_trans].
Qed.

Lemma claimed_after d d1 d' xs : queue_ok d1 -> evolves owes d1 d' -> claimed_rows d d1 xs -> claimed_rows d d' xs.
Proof.
  intros Hok He [Hn H]. split; [done|]. intros x Hx. destruct (H x Hx) as [Hr Hp]. split; [done|].
  intros r' Hr' Hid Hst. destruct (He Hok) as (_ & _ & Hb). destruct (Hb r' Hr') as (r & Hr1 & [E P _]).
  apply (Hp r Hr1); [|auto]. apply entry_id in E. unfold pid in *. congruence.
Qed.

Lemma claimed_tracked d d' xs : queue_ok d -> evolves owes d d' -> claimed_rows d d' xs -> tracked xs d'.
Proof.
  intros Hok He [_ H]. apply (tracked_evolves owes _ d); [done|done|]. apply tracked_read; [done|].
  intros x Hx. destruct (H x Hx) as [(r & Hr & _ & Hx1) _]. by exists r.
Qed.

Lemma claimed_app xs ys d d' : claimed_rows d d' (xs ++ ys) -> claimed_rows d d' xs.
Proof.
  intros [Hn H]. rewrite fmap_app in Hn. apply NoDup_app in Hn as [Hn _]. split; [done|].
  intros x Hx. apply H, elem_of_app. by left.
Qed.

Lemma claims_ids now ids : forall d xs d', @claimForFiring relay_db guards ids now d = (Ok xs, d') ->
  forall x, x ∈ xs -> pr_pendingId x ∈ ids.
Proof.
  induction ids as [|id ids IH]; intros d xs d'; cbn [claimForFiring]; [by intros [= <- _] x Hx%elem_of_nil|].
  intros (n & d1 & _ & (o & d2 & H2 & (l & d3 & H3 & [= <- _])%call_bind_ok)%call_bind_ok)%call_bind_ok x Hx.
  assert (forall x, x ∈ l -> pr_pendingId x ∈ id :: ids) as Hl by (intros y Hy; right; by apply (IH d2 l d3)).
  destruct o as [r|]; [|by apply Hl]. apply elem_of_cons in Hx as [->|Hx]; [|by apply Hl].
  case_decide; [done|]. apply (below_sql (ti_frozen i)) in H2. injection H2 as H2 _.
  apply find_some in H2 as [_ H2]. apply bool_decide_eq_true in H2. rewrite <- H2. by left.
Qed.

(** ** Up to the first await *)

Lemma claims_stay ids now : stays (evolves owes) (@claimForFiring relay_db guards ids now).
Proof. exact (claims_evolve owes owes_entry (ti_frozen i) now ids). Qed.

Lemma claims_fresh ids now d xs d' : queue_ok d -> @claimForFiring relay_db guards ids now d = (Ok xs, d') -> claimed_rows d d' xs.
Proof. exact (claims_claimed owes owes_entry (ti_frozen i) now ids d xs d'). Qed.

(** A turn: how it ends and what it has done to the tables. *)
Definition turned (p : process) (out : result ledger_error progress * process) : Prop :=
  evolves owes (p_db p) (p_db out.2) /\
  match out.1 with Ok (awaits w) => fresh_wait (p_db p) (p_db out.2) w | _ => True end.

Lemma on_db_bind {A B} (m : call relay_db ledger_error A) (k : A -> call process ledger_error B) p :
  call_bind (on_db m) k p = match m (p_db p) with
                            | (Ok a, d) => k a {| p_db := d; firingHere := firingHere p |}
                            | (Throw e, d) => (Throw e, {| p_db := d; firingHere := firingHere p |})
                            end.
Proof. unfold call_bind, on_db. by destruct (m (p_db p)) as [[a|e] d]. Qed.

Lemma turned_here (p p' : process) out : p_db p' = p_db p -> turned p' out -> turned p out.
Proof. unfold turned. by intros ->. Qed.

Lemma turned_closing claimed (m : call process ledger_error progress) p : turned p (m p) -> turned p (closing claimed m p).
Proof.
  unfold turned, closing. destruct (m p) as [[[w|]|e] p1]; cbn; tauto.
Qed.

(** The serial loop, each row claimed before its send. *)
Lemma serial_each r claimed cands : forall p, queue_ok (p_db p) -> r ∈ rails ->
  (forall x, x ∈ cands -> pr_rail x = rail_name r) -> tracked cands (p_db p) ->
  turned p (fireSerial i r true claimed cands p).
Proof.
  induction cands as [|c rest IH]; intros p Hok Hr Hrail Ht; cbn [fireSerial].
  { split; [reflexivity|done]. }
  unfold call_bind at 1. rewrite on_db_bind.
  destruct (claimForFiring [pr_pendingId c] (ti_now i) (p_db p)) as [[xs|e] d] eqn:E; cbn.
  2:{ split; [|done]. cbn. pose proof (claims_stay [pr_pendingId c] (ti_now i) (p_db p)) as He.
      by rewrite E in He. }
  pose proof (claims_stay [pr_pendingId c] (ti_now i) (p_db p)) as He. rewrite E in He. cbn in He.
  destruct (He Hok) as (Hok1 & _). pose proof (tracked_evolves owes _ _ _ Hok He Ht) as Ht1.
  destruct (hd_error xs) as [x|] eqn:Ex.
  - destruct xs as [|y xs]; [done|]. cbn in Ex. injection Ex as ->.
    pose proof (claims_fresh _ _ _ _ _ Hok E) as Hc.
    pose proof (claims_ids _ _ _ _ _ E x ltac:(by left)) as Hid%list_elem_of_singleton.
    apply (claimed_app [x]) in Hc. split; [exact He|]. cbn.
    assert (exists r1, r1 ∈ relay_pending_withdrawals (p_db p) /\ same_entry (pw r1) x) as (r1 & Hr1 & Hx1).
    { destruct Hc as [_ Hc]. destruct (Hc x ltac:(by left)) as [(r1 & Hr1 & _ & Hx1) _]. by exists r1. }
    assert (pr_rail x = rail_name r) as Hxr.
    { rewrite (entry_rail _ _ Hx1). rewrite <- (Hrail c ltac:(by left)). apply entry_rail, (Ht c r1 ltac:(by left) Hr1).
      apply entry_id in Hx1. unfold pid. congruence. }
    split; [|cbn; exact Hc]. split; [done| |]; unfold w_rows; cbn.
    + intros y [->|Hy]%elem_of_cons; [done|]. apply Hrail. by right.
    + intros y ry [->|Hy]%elem_of_cons; [|by apply Ht1; right].
      apply (claimed_tracked _ _ _ Hok He Hc); by left.
  - destruct (IH {| p_db := d; firingHere := firingHere p |}) as [He2 Hw].
    + exact Hok1.
    + done.
    + intros x Hx. apply Hrail. by right.
    + intros x rx Hx. apply Ht1. by right.
    + split; [by etrans|]. cbn. destruct (fireSerial _ _ _ _ _ _) as [[[w|]|e] p1]; try done. cbn in *.
      destruct Hw as [Hw Hc]. split; [done|]. by eapply claimed_before.
Qed.

Lemma select_stays {A} (q : relay_db -> A) : stays (evolves owes) (@select relay_db guards A q).
Proof. exact (select_evolves owes owes_entry (ti_frozen i) q). Qed.

Lemma select_ok {A} (q : relay_db -> A) d a d' : @select relay_db guards A q d = (Ok a, d') -> a = q d /\ d' = d.
Proof. intros H. apply (below_sql (ti_frozen i)) in H. by injection H as <- <-. Qed.

(** A batch, or the serial loop over rows claimed at once. *)
Lemma batch_turned r xs p d0 : queue_ok d0 -> evolves owes d0 (p_db p) -> r ∈ rails ->
  (forall x, x ∈ xs -> pr_rail x = rail_name r) -> xs <> [] -> claimed_rows d0 (p_db p) xs ->
  exists w p', fireBatch i r xs p = (Ok (awaits w), p') /\ p_db p' = p_db p /\ fresh_wait d0 (p_db p) w.
Proof.
  intros Hok He Hr Hrail Hne Hc. pose proof (claimed_tracked _ _ _ Hok He Hc) as Ht.
  unfold fireBatch. case_decide.
  - exists (awaits_batch r xs), p. split; [done|]. split; [done|]. split; [|cbn; by rewrite app_nil_r].
    split; unfold w_rows; cbn; rewrite ?app_nil_r; done.
  - destruct xs as [|x xs]; [done|]. cbn [fireSerial].
    eexists (awaits_payout r x xs false _), _. split; [reflexivity|]. split; [done|].
    split; [|cbn; exact Hc]. split; unfold w_rows; cbn; rewrite ?app_nil_r; done.
Qed.

Lemma claimed_rails name rows now d xs d' : queue_ok d -> (forall x, x ∈ rows -> pr_rail x = name) -> tracked rows d ->
  @claimForFiring relay_db guards (pr_pendingId <$> rows) now d = (Ok xs, d') -> forall x, x ∈ xs -> pr_rail x = name.
Proof.
  intros Hok Hrail Ht E x Hx. pose proof (claims_fresh _ _ _ _ _ Hok E) as [_ Hc].
  destruct (Hc x Hx) as [(r & Hr & _ & Hx1) _].
  pose proof (claims_ids _ _ _ _ _ E x Hx) as (y & Hid & Hy)%list_elem_of_fmap.
  rewrite (entry_rail _ _ Hx1), <- (Hrail y Hy). apply entry_rail, (Ht y r Hy Hr).
  apply entry_id in Hx1. unfold pid. congruence.
Qed.

Lemma evaluate_turned r p : queue_ok (p_db p) -> r ∈ rails -> turned p (evaluateAndFireRail config i r p).
Proof.
  intros Hok Hr. unfold evaluateAndFireRail. rewrite on_db_bind. unfold queued_for.
  match goal with |- context [@select relay_db guards _ ?q] => set (qq := q) end.
  pose proof (select_stays qq (p_db p)) as He0.
  destruct (@select relay_db guards _ qq (p_db p)) as [[rows|e] d0] eqn:E0; [|by split].
  apply select_ok in E0 as [Erows ->]. clear He0.
  set (p0 := {| p_db := p_db p; firingHere := firingHere p |}).
  assert (forall x, x ∈ rows -> exists r0, r0 ∈ relay_pending_withdrawals (p_db p) /\ pw r0 = x /\ pr_rail x = rail_name r) as Hrows.
  { intros x. rewrite Erows. unfold qq. rewrite js_sort_elem. intros Hx%list_elem_of_In. apply filter_In in Hx as [Hx Hc].
    apply list_elem_of_In in Hx. apply list_elem_of_fmap in Hx as (r0 & -> & Hr0). exists r0. split; [done|]. split; [done|].
    by apply andb_true_iff in Hc as [Hc%bool_decide_eq_true _]. }
  assert (tracked rows (p_db p)) as Ht.
  { apply tracked_read; [done|]. intros x Hx. destruct (Hrows x Hx) as (r0 & Hr0 & <- & _). exists r0. by split; [|apply same_entry_refl]. }
  assert (forall x, x ∈ rows -> pr_rail x = rail_name r) as Hrail by (intros x Hx; destruct (Hrows x Hx) as (r0 & _ & _ & H); done).
  destruct rows as [|first rest] eqn:Erw; [by split|].
  destruct (shouldBatchSettle _ _ _ _) as [[|]|e]; [|by split|by split].
  destruct (supportsBatch r).
  - rewrite on_db_bind. rewrite <- Erw in *. change (p_db p0) with (p_db p).
    pose proof (claims_stay (pr_pendingId <$> rows) (ti_now i) (p_db p)) as He.
    destruct (@claimForFiring relay_db guards (pr_pendingId <$> rows) (ti_now i) (p_db p)) as [[xs|e] d] eqn:E; cbn in He; [|split; [exact He|done]].
    pose proof (claims_fresh _ _ _ _ _ Hok E) as Hc. destruct (He Hok) as (Hok1 & _).
    pose proof (claimed_rails (rail_name r) _ _ _ _ _ Hok Hrail Ht E) as Hxr.
    destruct xs as [|x xs]; [split; [exact He|done]|]. unfold call_bind, here_add. apply (turned_here _ p0); [done|].
    set (p1 := {| p_db := _; firingHere := _ |}).
    destruct (batch_turned r (x :: xs) p1 (p_db p)) as (w & p' & E1 & E2 & Hw); [done|exact He|done|exact Hxr|done|exact Hc|].
    unfold closing. rewrite E1. split; cbn; rewrite E2; [exact He|exact Hw].
  - by apply (serial_each r [] (first :: rest) p0).
Qed.

(** The rails in turn. *)
Definition passed (rs : list rail) (p : process) (out : result ledger_error (option suspended) * process) : Prop :=
  evolves owes (p_db p) (p_db out.2) /\
  match out.1 with
  | Ok (Some s) => fresh_wait (p_db p) (p_db out.2) (sp_wait s) /\ forall r, r ∈ sp_rails s -> r ∈ rs
  | _ => True
  end.

Lemma rails_passed rs : forall p, queue_ok (p_db p) -> (forall r, r ∈ rs -> r ∈ rails) -> passed rs p (fireRails config i rs p).
Proof.
  induction rs as [|r rs IH]; intros p Hok Hrs; cbn [fireRails]; [by split|]. unfold call_bind.
  destruct (evaluate_turned r p Hok (Hrs r ltac:(by left))) as [He Hw].
  destruct (evaluateAndFireRail config i r p) as [[[w|]|e] p1]; cbn in He, Hw; [| |by split].
  - split; [done|]. cbn. split; [done|]. intros x Hx. by right.
  - destruct (He Hok) as (Hok1 & _). destruct (IH p1 Hok1) as [He2 Hw2]; [intros x Hx; apply Hrs; by right|].
    split; [by etrans|]. destruct (fireRails config i rs p1) as [[[s|]|e] p2]; try done. cbn in *.
    destruct Hw2 as [[H1 H2] H3]. split; [|intros x Hx; right; auto]. split; [done|]. by eapply claimed_before.
Qed.

(** ** Recovery *)

Definition turns_with (xs : list PendingRow) (p p' : process) : Prop := evolves_with owes xs (p_db p) (p_db p').

Lemma turns_with_pre xs : PreOrder (turns_with xs).
Proof.
  pose proof (evolves_with_pre owes owes_entry xs) as H. split.
  - intros p. unfold turns_with. reflexivity.
  - intros p1 p2 p3 H1 H2. unfold turns_with in *. by etrans.
Qed.
#[local] Existing Instance turns_with_pre.
Abbreviation turn_stays xs := (stays (E := ledger_error) (turns_with xs)).

Lemma on_db_stays xs {A} (m : call relay_db ledger_error A) : stays (evolves_with owes xs) m -> turn_stays xs (on_db m).
Proof. intros H p. unfold on_db. specialize (H (p_db p)). by destruct (m (p_db p)) as [r d]. Qed.

Lemma find_rail_in name r : find_rail rails name = Some r -> r ∈ rails /\ rail_name r = name.
Proof. intros [H1 H2]%find_some. split; [by apply list_elem_of_In|by apply bool_decide_eq_true in H2]. Qed.

Lemma recover_row_stays xs started row : pw row ∈ xs -> turn_stays xs (recoverRow i rails started row).
Proof.
  intros Hx p. unfold recoverRow. case_match; [reflexivity|]. apply on_db_stays.
  apply (failed_evolves owes owes_entry (ti_frozen i)); [done|].
  unfold failureOutcome. destruct (find_rail rails (pr_rail (pw row))) as [r|] eqn:E; [|done].
  apply find_rail_in in E as [Hr Hn]. destruct (isManualPayoutRail r) eqn:Em; [|done]. intros _. by apply (owes_manual r).
Qed.

Lemma recover_evolves started p : queue_ok (p_db p) -> evolves owes (p_db p) (p_db (recoverFiring i rails started p).2).
Proof.
  intros Hok. unfold recoverFiring. rewrite on_db_bind.
  match goal with |- context [@select relay_db guards _ ?q] => set (qq := q) end.
  pose proof (select_stays qq (p_db p)) as He0.
  destruct (@select relay_db guards _ qq (p_db p)) as [[rows|e] d0] eqn:E0; [|exact He0].
  apply select_ok in E0 as [Erows ->]. set (p0 := {| p_db := p_db p; firingHere := firingHere p |}).
  assert (turn_stays (pw <$> rows) (foldr (fun row k => recoverRow i rails started row ;! k) (call_ret tt) rows)) as Hs.
  { assert (forall l, (forall x, x ∈ l -> x ∈ rows) ->
      turn_stays (pw <$> rows) (foldr (fun row k => recoverRow i rails started row ;! k) (call_ret tt) l)) as Hl; [|by apply Hl].
    induction l as [|row l IH]; intros Hin; cbn [foldr]; [apply stays_ret; exact _|].
    apply stays_bind; [exact _| |intros; apply IH; intros x Hx; apply Hin; by right].
    apply recover_row_stays, list_elem_of_fmap_2, Hin. by left. }
  apply (Hs p0 Hok). apply tracked_read; [done|]. intros x (row & -> & Hrow)%list_elem_of_fmap.
  exists row. split; [|apply same_entry_refl]. rewrite Erows in Hrow. unfold qq in Hrow. apply list_elem_of_In, filter_In in Hrow as [Hrow _].
  by apply list_elem_of_In.
Qed.

(** ** A tick *)

Lemma passed_after rs d0 p p1 out : queue_ok d0 -> evolves owes d0 (p_db p1) -> p_db p = d0 -> passed rs p1 out -> passed rs p out.
Proof.
  intros Hok He Hp [He2 Hw]. unfold passed. rewrite Hp. split; [by etrans|]. destruct out as [[[s|]|e] p2]; try done. cbn in *.
  destruct Hw as [[H1 H2] H3]. split; [|done]. split; [done|]. by eapply claimed_before.
Qed.

Lemma tick_passed all started p : rails = List.filter supportsWithdraw all -> queue_ok (p_db p) ->
  passed rails p (runBatchWithdrawalTick config i all started p).
Proof.
  intros Hall Hok. unfold runBatchWithdrawalTick. rewrite <- Hall.
  pose proof (recover_evolves started p Hok) as He. unfold call_bind at 1.
  destruct (recoverFiring i rails started p) as [[[]|e] p1]; cbn in He; [|by split].
  destruct (He Hok) as (Hok1 & _). rewrite on_db_bind.
  pose proof (owed_refunds_evolve owes owes_entry (ti_frozen i) (ti_now i) (ti_mint i) (p_db p1)) as He2.
  destruct (@settleOwedRefunds relay_db guards (ti_now i) (ti_mint i) (p_db p1)) as [[[]|e] d2] eqn:E2.
  - assert (evolves owes (p_db p1) d2) as He2' by (pose proof (f_equal snd E2) as Ed; cbn in Ed; rewrite <- Ed; exact He2).
    destruct (He2' Hok1) as (Hok2 & _). apply (passed_after _ (p_db p) _ {| p_db := d2; firingHere := firingHere p1 |}); [done|by etrans|done|].
    apply rails_passed; [exact Hok2|auto].
  - assert (evolves owes (p_db p1) d2) as He2' by (pose proof (f_equal snd E2) as Ed; cbn in Ed; rewrite <- Ed; exact He2).
    split; [cbn; by etrans|done].
Qed.

(** ** An answer *)

Definition proof_of (a : rail_answer) : bool :=
  match a with answers_payout (Throw e) | answers_batch (Throw e) => payoutNotSent e | _ => false end.
Definition fits (w : awaiting) (a : rail_answer) : bool :=
  match w, a with awaits_payout _ _ _ _ _, answers_payout _ | awaits_batch _ _, answers_batch _ => true | _, _ => false end.

Lemma outcome_owes r x err : r ∈ rails -> pr_rail x = rail_name r -> (payoutNotSent err = true -> owes x) ->
  failureOutcome (Some r) err = not_sent -> owes x.
Proof.
  intros Hr Hx Hp. unfold failureOutcome. destruct (isManualPayoutRail r) eqn:E; [intros _; by apply (owes_manual r)|].
  destruct (payoutNotSent err); [auto|done].
Qed.

Lemma finally_stays xs {A} (m : call process ledger_error A) ids : turn_stays xs m -> turn_stays xs (call_finally m (here_delete ids)).
Proof. intros H p. specialize (H p). unfold call_finally. by destruct (m p) as [o p1]. Qed.

Lemma payout_stays xs r x a : r ∈ rails -> pr_rail x = rail_name r -> x ∈ xs -> (proof_of (answers_payout a) = true -> owes x) ->
  turn_stays xs (payout_answered i r x a).
Proof.
  intros Hr Hx Hin Hp. pose proof (evolves_with_pre owes owes_entry xs) as Hpre.
  apply finally_stays. destruct a as [res|err]; apply on_db_stays.
  - apply stays_bind; [exact _| |intros; apply stays_ret; exact _]. by apply (fired_evolves owes owes_entry (ti_frozen i)).
  - apply (failed_evolves owes owes_entry (ti_frozen i)); [done|]. by apply outcome_owes.
Qed.

Lemma item_row_in rows answered key x : item_row rows answered key = Some x -> x ∈ rows.
Proof.
  unfold item_row. destruct (List.find _ rows) as [y|] eqn:E; [|done]. case_bool_decide; [done|]. intros [= <-].
  apply find_some in E as [E _]. by apply list_elem_of_In.
Qed.

Section batch.
Context (r : rail) (rows : list PendingRow).
Hypothesis Hr : r ∈ rails.
Hypothesis Hrows : forall x, x ∈ rows -> pr_rail x = rail_name r.
#[local] Instance with_rows_pre : PreOrder (evolves_with owes rows) := evolves_with_pre owes owes_entry rows.
Abbreviation with_rows := (stays (E := ledger_error) (evolves_with owes rows)).

Lemma failed_stays x err : x ∈ rows -> (payoutNotSent err = true -> owes x) ->
  with_rows (@markFailed relay_db guards (Some r) x err (ti_now i) (ti_mint i (pr_pendingId x))).
Proof. intros Hx Hp. apply (failed_evolves owes owes_entry (ti_frozen i)); [done|]. apply outcome_owes; auto. Qed.

Lemma fired_items_stay items : forall answered, with_rows (mark_fired_items i r rows items answered).
Proof.
  induction items as [|[key res] items IH]; intros answered; cbn [mark_fired_items]; [apply stays_ret; exact _|].
  destruct (item_row rows answered key) as [x|] eqn:E; [|apply IH]. apply item_row_in in E.
  apply stays_bind; [exact _| |intros; apply IH]. by apply (fired_evolves owes owes_entry (ti_frozen i)).
Qed.

Lemma failed_items_stay items : forall answered, with_rows (mark_failed_items i r rows items answered).
Proof.
  induction items as [|[key reason] items IH]; intros answered; cbn [mark_failed_items]; [apply stays_ret; exact _|].
  destruct (item_row rows answered key) as [x|] eqn:E; [|apply IH]. apply item_row_in in E.
  apply stays_bind; [exact _| |intros; apply IH]. by apply failed_stays.
Qed.

Lemma batch_stays a : (proof_of (answers_batch a) = true -> forall x, x ∈ rows -> owes x) -> with_rows (batch_answered i r rows a).
Proof.
  intros Hp. unfold batch_answered. destruct a as [res|err].
  - apply stays_bind; [exact _|apply fired_items_stay|]. intros answered. apply failed_items_stay.
  - assert (forall l, (forall x, x ∈ l -> x ∈ rows) -> with_rows (foldr (fun row k =>
      @markFailed relay_db guards (Some r) row err (ti_now i) (ti_mint i (pr_pendingId row)) ;! k) (call_ret tt) l)) as Hl; [|by apply Hl].
    induction l as [|x l IH]; intros Hin; cbn [foldr]; [apply stays_ret; exact _|].
    apply stays_bind; [exact _| |intros; apply IH; intros y Hy; apply Hin; by right].
    assert (x ∈ rows) as Hx by (apply Hin; by left). apply failed_stays; [done|]. intros H. by apply Hp.
Qed.
End batch.

(** ** A pass goes on *)

Definition pass_ok (d : relay_db) (s : suspended) : Prop := wait_ok d (sp_wait s) /\ forall r, r ∈ sp_rails s -> r ∈ rails.

(** It awaits again with what it held, or with rows claimed in this turn. *)
Definition resumed (s : suspended) (p : process) (out : result ledger_error (option suspended) * process) : Prop :=
  evolves owes (p_db p) (p_db out.2) /\
  match out.1 with
  | Ok (Some s') => pass_ok (p_db out.2) s' /\
      (held (sp_wait s) = (air (sp_wait s') ++ held (sp_wait s'))%list \/
       claimed_rows (p_db p) (p_db out.2) (air (sp_wait s') ++ held (sp_wait s')))
  | _ => True
  end.

(** What the answer leaves of its rail. *)
Definition next_on_rail (s : suspended) (p : process) (out : result ledger_error progress * process) : Prop :=
  evolves owes (p_db p) (p_db out.2) /\
  match out.1 with
  | Ok (awaits w) => wait_ok (p_db out.2) w /\
      (held (sp_wait s) = (air w ++ held w)%list \/ claimed_rows (p_db p) (p_db out.2) (air w ++ held w))
  | _ => True
  end.

Lemma next_closing s claimed (m : call process ledger_error progress) p : next_on_rail s p (m p) -> next_on_rail s p (closing claimed m p).
Proof. unfold next_on_rail, closing. destruct (m p) as [[[w|]|e] p1]; cbn; tauto. Qed.

Lemma next_resumed s (m : call process ledger_error progress) p : queue_ok (p_db p) -> (forall r, r ∈ sp_rails s -> r ∈ rails) ->
  next_on_rail s p (m p) ->
  resumed s p (call_bind m (fun q => match q with
    | awaits w => call_ret (Some {| sp_wait := w; sp_rails := sp_rails s |})
    | rail_done => fireRails config i (sp_rails s)
    end) p).
Proof.
  intros Hok Hrs [He Hw]. unfold call_bind. destruct (m p) as [[[w|]|e] p1]; cbn in He, Hw.
  - split; [exact He|]. cbn. destruct Hw as [Hw Hc]. split; [by split|exact Hc].
  - destruct (He Hok) as (Hok1 & _). destruct (rails_passed (sp_rails s) p1 Hok1 Hrs) as [He2 Hw2].
    split; [by etrans|]. destruct (fireRails config i (sp_rails s) p1) as [[[s'|]|e] p2]; try done. cbn in *.
    destruct Hw2 as [[H1 H2] H3]. split; [split; [done|auto]|]. right. by eapply claimed_before.
  - by split.
Qed.

Lemma resume_ok s a p : queue_ok (p_db p) -> pass_ok (p_db p) s -> fits (sp_wait s) a = true ->
  (proof_of a = true -> forall x, x ∈ air (sp_wait s) -> owes x) -> resumed s p (resume config i s a p).
Proof.
  intros Hok [[Hr Hrows Ht] Hrs] Hfit Hp. unfold resume. destruct s as [w rs]. cbn [sp_wait sp_rails] in *.
  destruct w as [r x rest each claimed|r xs], a as [a|a]; try done; apply next_resumed; try done; apply next_closing.
  - assert (x ∈ w_rows (awaits_payout r x rest each claimed)) as Hx by (unfold w_rows; cbn; by left).
    pose proof (payout_stays _ r x a Hr (Hrows x Hx) Hx (fun H => Hp H x ltac:(cbn; by left)) p Hok Ht) as He.
    unfold call_bind. destruct (payout_answered i r x a p) as [[[]|e] p1]; cbn in He; [|by split].
    destruct (He Hok) as (Hok1 & _). pose proof (tracked_evolves owes _ _ _ Hok He Ht) as Ht1.
    destruct each; unfold w_rows in *; cbn in Hrows, Ht1.
    + destruct (serial_each r claimed rest p1 Hok1 Hr) as [He2 Hw2].
      * intros y Hy. apply Hrows. by right.
      * intros y ry Hy. apply Ht1. by right.
      * split; [by etrans|]. destruct (fireSerial _ _ _ _ _ _) as [[[w|]|e] p2]; try done. cbn in *.
        destruct Hw2 as [H1 H2]. split; [done|]. right. by eapply claimed_before.
    + destruct rest as [|y rest]; cbn [fireSerial]; [by split|]. unfold call_bind, here_add, call_ret. cbn.
      split; [exact He|]. cbn. split; [|by left]. split; [done| |]; unfold w_rows; cbn.
      * intros z Hz. apply Hrows. by right.
      * intros z rz Hz. apply Ht1. by right.
  - pose proof (on_db_stays _ _ (batch_stays r xs Hr (fun x Hx => Hrows x ltac:(unfold w_rows; cbn; by rewrite !app_nil_r)) a Hp) p Hok) as He.
    unfold call_bind. destruct (on_db _ p) as [[[]|e] p1]; cbn in He; split; try done; apply He; unfold w_rows in Ht; cbn in Ht; by rewrite !app_nil_r in Ht.
Qed.
End turns.

(** ** The world *)

(** [handed], [proved] and [landed] are history: the ids of the rows passed to a
    rail, of those a rail proved not sent, and of those whose payout has left. *)
Record world := {
  bw_proc : process;
  bw_started : Z;
  bw_passes : list suspended;
  handed : list string;
  proved : list string;
  landed : list string;
}.
Abbreviation bw_db w := (p_db (bw_proc w)).

Inductive batch_event :=
| ev_enqueue (params : EnqueueParams) (pendingId uuid : string) (now : Z) (frozen : bool)
| ev_tick (i : turn_input)
| ev_answer (n : nat) (a : rail_answer) (i : turn_input)
| ev_restart (now : Z)
| ev_lands (id : string)
| ev_other (d : relay_db).

Definition ids (xs : list PendingRow) : list string := pr_pendingId <$> xs.
Definition held_ids (ps : list suspended) : list string := ps ≫= (fun s => ids (held (sp_wait s))).

Section system.
Context (all : list rail) (config : BatchWithdrawalConfig).
Abbreviation rails := (List.filter supportsWithdraw all).

Definition manual_row (x : PendingRow) : bool :=
  match find_rail rails (pr_rail x) with Some r => isManualPayoutRail r | None => false end.

(** How a turn ends: the pass that awaits, if one does, has handed its rows over. *)
Definition after_turn (w : world) (rest : list suspended) (shown : list string)
    (out : result ledger_error (option suspended) * process) : world :=
  let awaiting := match out.1 with Ok (Some s) => [s] | _ => [] end in
  {| bw_proc := out.2; bw_started := bw_started w; bw_passes := rest ++ awaiting;
     handed := handed w ++ (awaiting ≫= (fun s => ids (air (sp_wait s)))); proved := shown; landed := landed w |}.

Definition batch_step (w : world) (e : batch_event) : world :=
  match e with
  | ev_enqueue params q u now frozen =>
      {| bw_proc := {| p_db := (@enqueuePendingWithdrawal relay_db (FreezeDriver frozen) params q u now (bw_db w)).2;
                       firingHere := firingHere (bw_proc w) |};
         bw_started := bw_started w; bw_passes := bw_passes w; handed := handed w; proved := proved w; landed := landed w |}
  | ev_tick i => after_turn w (bw_passes w) (proved w) (runBatchWithdrawalTick config i all (bw_started w) (bw_proc w))
  | ev_answer n a i =>
      match bw_passes w !! n with
      | None => w
      | Some s =>
          after_turn w (delete n (bw_passes w)) (proved w ++ (if proof_of a then ids (air (sp_wait s)) else []))
            (resume config i s a (bw_proc w))
      end
  | ev_restart now =>
      {| bw_proc := {| p_db := bw_db w; firingHere := ∅ |}; bw_started := now; bw_passes := [];
         handed := handed w; proved := proved w; landed := landed w |}
  | ev_lands id =>
      {| bw_proc := bw_proc w; bw_started := bw_started w; bw_passes := bw_passes w;
         handed := handed w; proved := proved w; landed := landed w ++ [id] |}
  | ev_other d =>
      {| bw_proc := {| p_db := d; firingHere := firingHere (bw_proc w) |}; bw_started := bw_started w;
         bw_passes := bw_passes w; handed := handed w; proved := proved w; landed := landed w |}
  end.

(** What other modules leave alone: the queue, what the ledger says of its rows, and
    whose a withdrawal is and how much. *)
Record other_writes (d d' : relay_db) : Prop := {
  ow_accounts : NoDup (va_motebit_id <$> relay_accounts d');
  ow_queue : relay_pending_withdrawals d' = relay_pending_withdrawals d;
  ow_net r : r ∈ relay_pending_withdrawals d -> queue_net (pid r) d' = queue_net (pid r) d;
  ow_withdrawals w : w ∈ relay_withdrawals d -> exists w', w' ∈ relay_withdrawals d' /\
    withdrawal_id (wd w') = withdrawal_id (wd w) /\ w_motebit_id (wd w') = w_motebit_id (wd w) /\ w_amount (wd w') = w_amount (wd w);
}.

(** The events that can happen: an id is minted once; a rail answers in kind, and
    proves that nothing was sent only of payouts that have not left; a payout leaves
    only once handed to a rail that sends, which has proved nothing of it. *)
Definition allowed (w : world) (e : batch_event) : Prop :=
  match e with
  | ev_enqueue _ q _ _ _ =>
      (q ∉ handed w ++ (bw_passes w ≫= (fun s => ids (w_rows (sp_wait s))))) /\ (q ∉ pid <$> relay_pending_withdrawals (bw_db w)) /\
      Forall (fun t => reference_id (txn t) <> Some q) (relay_transactions (bw_db w))
  | ev_answer n a _ => forall s, bw_passes w !! n = Some s -> fits (sp_wait s) a = true /\
      (proof_of a = true -> forall x, x ∈ air (sp_wait s) -> pr_pendingId x ∉ landed w)
  | ev_lands id => id ∈ handed w /\ (id ∉ proved w) /\
      exists r, r ∈ relay_pending_withdrawals (bw_db w) /\ pid r = id /\ manual_row (pw r) = false
  | ev_other d => other_writes (bw_db w) d
  | ev_tick _ | ev_restart _ => True
  end.

(** From a database whose queue is empty. *)
Inductive reachable : world -> Prop :=
| reach_start d started : NoDup (va_motebit_id <$> relay_accounts d) -> relay_pending_withdrawals d = [] ->
    reachable {| bw_proc := {| p_db := d; firingHere := ∅ |}; bw_started := started; bw_passes := [];
                 handed := []; proved := []; landed := [] |}
| reach_step w e : reachable w -> allowed w e -> reachable (batch_step w e).

(** ** The invariant *)

Definition owes_by (shown : list string) (x : PendingRow) : Prop := manual_row x = true \/ pr_pendingId x ∈ shown.

Record world_ok (w : world) : Prop := {
  wk_queue : queue_ok (bw_db w);
  wk_passes s : s ∈ bw_passes w -> pass_ok rails (bw_db w) s;
  wk_once : NoDup (handed w ++ held_ids (bw_passes w));
  wk_pending r : r ∈ relay_pending_withdrawals (bw_db w) -> pst r = q_pending -> pid r ∉ handed w ++ held_ids (bw_passes w);
  wk_owed r : r ∈ relay_pending_withdrawals (bw_db w) -> is_owed (pst r) -> owes_by (proved w) (pw r);
  wk_landed id : id ∈ landed w -> id ∈ handed w /\ (id ∉ proved w) /\
    exists r, r ∈ relay_pending_withdrawals (bw_db w) /\ pid r = id /\ manual_row (pw r) = false;
}.

Hypothesis names : NoDup (rail_name <$> rails).

Lemma owes_by_entry shown a b : same_entry a b -> owes_by shown a -> owes_by shown b.
Proof.
  intros He. unfold owes_by, manual_row. by rewrite (entry_rail _ _ He), (entry_id _ _ He).
Qed.

Lemma owes_by_manual shown r x : r ∈ rails -> isManualPayoutRail r = true -> pr_rail x = rail_name r -> owes_by shown x.
Proof.
  intros Hr Hm Hx. left. unfold manual_row. rewrite Hx. unfold find_rail.
  rewrite (find_unique rail_name _ _ r names Hr); [done| |by apply bool_decide_eq_true].
  intros y _ Hy. by apply bool_decide_eq_true in Hy.
Qed.

(** The ids a turn shows handed or held are those before it, or claimed in it. *)
Definition accounted (d d' : relay_db) (old new : list string) : Prop :=
  NoDup new /\ forall id, id ∈ new -> id ∈ old \/ (forall r, r ∈ relay_pending_withdrawals d' -> pid r = id -> pst r <> q_pending).

Lemma accounted_sub d d' old new : NoDup new -> (forall id, id ∈ new -> id ∈ old) -> accounted d d' old new.
Proof. intros Hn H. split; [done|]. intros id Hid. left. auto. Qed.

Lemma accounted_claimed d d' old kept xs new : NoDup kept -> (forall id, id ∈ kept -> id ∈ old) ->
  (forall r, r ∈ relay_pending_withdrawals d -> pst r = q_pending -> pid r ∉ old) ->
  claimed_rows d d' xs -> new ≡ₚ kept ++ ids xs -> accounted d d' old new.
Proof.
  intros Hn Hk Hp [Hx Hc] Hnew. split.
  - rewrite Hnew. apply NoDup_app. split; [done|]. split; [|done]. intros id Hid (x & -> & Hxs)%list_elem_of_fmap.
    destruct (Hc x Hxs) as [(r & Hr & Hst & He) _]. apply (Hp r Hr Hst), Hk. apply entry_id in He. unfold pid. congruence.
  - intros id. rewrite Hnew. intros [Hid|(x & -> & Hxs)%list_elem_of_fmap]%elem_of_app; [left; auto|right].
    by apply (Hc x Hxs).
Qed.

(** A turn keeps the invariant. *)
Lemma turn_keeps w w' : world_ok w -> evolves (owes_by (proved w')) (bw_db w) (bw_db w') ->
  (forall id, id ∈ proved w -> id ∈ proved w') -> landed w' = landed w -> (forall id, id ∈ handed w -> id ∈ handed w') ->
  (forall id, id ∈ landed w -> id ∉ proved w') ->
  (forall s, s ∈ bw_passes w' -> pass_ok rails (bw_db w') s) ->
  accounted (bw_db w) (bw_db w') (handed w ++ held_ids (bw_passes w)) (handed w' ++ held_ids (bw_passes w')) ->
  world_ok w'.
Proof.
  intros Hw He Hpr El Hh Hl Hps [Hn Ha]. destruct (He (wk_queue _ Hw)) as (Hok & Hids & Hb). split; try done.
  - intros r' Hr' Hst Hin. destruct (Ha _ Hin) as [Hold|Hnp]; [|by apply (Hnp r')].
    destruct (Hb r' Hr') as (r & Hr & [E P _]). apply (wk_pending _ Hw r Hr (P Hst)).
    apply entry_id in E. unfold pid in *. congruence.
  - intros r' Hr' Ho. destruct (Hb r' Hr') as (r & Hr & [E _ O]). destruct (O Ho) as [Hor|]; [|done].
    apply (owes_by_entry _ (pw r)); [done|]. destruct (wk_owed _ Hw r Hr Hor) as [H|H]; [by left|right; auto].
  - intros id. rewrite El. intros Hid. destruct (wk_landed _ Hw id Hid) as (H1 & H2 & r & Hr & Hri & Hm).
    split; [auto|]. split; [auto|]. destruct (evolves_forward _ _ _ r He (wk_queue _ Hw) Hr) as (r' & Hr' & [E _ _]).
    exists r'. split; [done|]. split.
    + apply entry_id in E. unfold pid in *. congruence.
    + unfold manual_row in *. by rewrite (entry_rail _ _ E).
Qed.

Lemma held_app ps qs : held_ids (ps ++ qs) = held_ids ps ++ held_ids qs.
Proof. apply bind_app. Qed.

Lemma held_delete ps n s : ps !! n = Some s -> held_ids ps ≡ₚ ids (held (sp_wait s)) ++ held_ids (delete n ps).
Proof. intros H. unfold held_ids. rewrite (delete_Permutation ps n s H) at 1. done. Qed.

Lemma pass_evolves shown d d' s : queue_ok d -> evolves (owes_by shown) d d' -> pass_ok rails d s -> pass_ok rails d' s.
Proof. intros Hok He [H1 H2]. split; [|done]. by apply (wait_evolves rails (owes_by shown) d). Qed.

(** A turn of the loop, from what is known of how it ends. *)
Lemma loop_turn_ok w rest shown out : world_ok w -> (forall id, id ∈ proved w -> id ∈ shown) ->
  (forall id, id ∈ landed w -> id ∉ shown) -> evolves (owes_by shown) (bw_db w) (p_db out.2) ->
  (forall s, s ∈ rest -> s ∈ bw_passes w) -> NoDup (handed w ++ held_ids rest) ->
  (forall id, id ∈ held_ids rest -> id ∈ held_ids (bw_passes w)) ->
  (forall s, out.1 = Ok (Some s) -> pass_ok rails (p_db out.2) s /\
    accounted (bw_db w) (p_db out.2) (handed w ++ held_ids (bw_passes w))
      (handed w ++ held_ids rest ++ ids (air (sp_wait s) ++ held (sp_wait s)))) ->
  world_ok (after_turn w rest shown out).
Proof.
  intros Hw Hsh Hl He Hrest Hn Hheld Hs. unfold after_turn.
  assert (forall s, s ∈ rest -> pass_ok rails (p_db out.2) s) as Hps.
  { intros s Hin. apply (pass_evolves shown (bw_db w)); [by apply wk_queue|done|]. by apply wk_passes, Hrest. }
  apply (turn_keeps w); cbn; try done.
  - intros id Hid. apply elem_of_app. by left.
  - intros s [Hin|Hin]%elem_of_app; [by apply Hps|]. destruct (out.1) as [[s'|]|e]; [|by apply elem_of_nil in Hin|by apply elem_of_nil in Hin].
    apply list_elem_of_singleton in Hin as ->. by apply Hs.
  - rewrite held_app. destruct (out.1) as [[s'|]|e].
    + destruct (Hs s' eq_refl) as [_ [Hn' Ha]]. cbn. rewrite !app_nil_r.
      assert ((handed w ++ ids (air (sp_wait s'))) ++ held_ids rest ++ ids (held (sp_wait s')) ≡ₚ
              handed w ++ held_ids rest ++ ids (air (sp_wait s') ++ held (sp_wait s'))) as Hperm.
      { unfold ids. rewrite fmap_app. rewrite <- !app_assoc. f_equiv. by rewrite Permutation_app_swap_app. }
      split; [by rewrite Hperm|]. intros id. rewrite Hperm. apply Ha.
    + cbn. rewrite !app_nil_r. apply accounted_sub; [done|]. intros id. rewrite !elem_of_app. intros [?|?]; auto.
    + cbn. rewrite !app_nil_r. apply accounted_sub; [done|]. intros id. rewrite !elem_of_app. intros [?|?]; auto.
Qed.

Lemma tick_ok w i : world_ok w -> world_ok (batch_step w (ev_tick i)).
Proof.
  intros Hw. cbn. destruct (tick_passed rails (owes_by (proved w)) (owes_by_entry _) (owes_by_manual _) config i all
    (bw_started w) (bw_proc w) eq_refl (wk_queue _ Hw)) as [He Hs].
  apply loop_turn_ok; try done; [apply Hw|by apply wk_once|].
  intros s E. rewrite E in Hs. destruct Hs as [[Hwait Hc] Hr]. split; [by split|].
  eapply accounted_claimed; [apply (wk_once _ Hw)|done|apply (wk_pending _ Hw)|exact Hc|]. by rewrite <- app_assoc.
Qed.

Lemma answer_ok w n a i : world_ok w -> allowed w (ev_answer n a i) -> world_ok (batch_step w (ev_answer n a i)).
Proof.
  intros Hw Ha. cbn in *. destruct (bw_passes w !! n) as [s|] eqn:En; [|done]. destruct (Ha s eq_refl) as [Hfit Hproof].
  set (shown := proved w ++ _).
  assert (forall id, id ∈ proved w -> id ∈ shown) as Hsh by (intros id Hid; apply elem_of_app; by left).
  assert (s ∈ bw_passes w) as Hs by by eapply list_elem_of_lookup_2.
  pose proof (held_delete _ _ _ En) as Hperm.
  assert (NoDup (handed w ++ ids (held (sp_wait s)) ++ held_ids (delete n (bw_passes w)))) as Hn
    by (rewrite <- Hperm; apply Hw).
  destruct (resume_ok rails (owes_by shown) (owes_by_entry _) (owes_by_manual _) config i s a (bw_proc w)
    (wk_queue _ Hw) (wk_passes _ Hw s Hs) Hfit) as [He Hres].
  { intros Hp x Hx. right. apply elem_of_app. right. rewrite Hp. by apply list_elem_of_fmap_2. }
  assert (NoDup (handed w ++ held_ids (delete n (bw_passes w)))) as Hn'.
  { apply NoDup_app in Hn as (N1 & N2 & N3). apply NoDup_app in N3 as (_ & _ & N3). apply NoDup_app. split; [done|]. split; [|done].
    intros id Hid Hin. apply (N2 id Hid), elem_of_app. by right. }
  apply loop_turn_ok; try done.
  - intros id Hid. unfold shown. rewrite elem_of_app. intros [Hin|Hin]; [by apply (wk_landed _ Hw) in Hid as (_ & ? & _)|].
    destruct (proof_of a) eqn:Ep; [|by apply elem_of_nil in Hin].
    apply list_elem_of_fmap in Hin as (x & -> & Hx). by apply (Hproof eq_refl x Hx).
  - intros s' Hin. rewrite (delete_Permutation _ _ _ En). by right.
  - intros id Hid. rewrite Hperm. apply elem_of_app. by right.
  - intros s' E. rewrite E in Hres. destruct Hres as [Hpass Hor]. split; [done|]. destruct Hor as [Hheld|Hc].
    + apply accounted_sub.
      * unfold ids in *. rewrite <- Hheld. by rewrite (Permutation_app_comm (held_ids _)).
      * intros id. rewrite <- Hheld, Hperm, !elem_of_app. tauto.
    + eapply accounted_claimed; [exact Hn'| |apply (wk_pending _ Hw)|exact Hc|by rewrite <- app_assoc].
      intros id. rewrite Hperm, !elem_of_app. tauto.
Qed.

Lemma quiet_queue_ok d d' : queue_ok d -> quiet_queue d d' -> queue_ok d'.
Proof.
  intros [H1 H2 H3 H4] [Q1 Q2 Q3 Q4]. split; rewrite ?Q2; [auto|done| |].
  - intros r Hr. unfold queue_net. rewrite Q1. by apply H3.
  - intros r Hr Hst. destruct (H4 r Hr Hst) as (w & Hw & H). exists w. by rewrite Q3.
Qed.

Lemma unreferenced_net q d : Forall (fun t => reference_id (txn t) <> Some q) (relay_transactions d) -> queue_net q d = 0.
Proof.
  unfold queue_net, select_sum. induction 1 as [|t l Ht _ IH]; [done|]. cbn -[Z.add]. unfold queue_txn at 1.
  by rewrite bool_decide_false.
Qed.

Lemma enqueued_ok q d d' : queue_ok d -> enqueued q d d' -> (q ∉ pid <$> relay_pending_withdrawals d) ->
  Forall (fun t => reference_id (txn t) <> Some q) (relay_transactions d) -> queue_ok d'.
Proof.
  intros Hok [N1 N2 (row & t & Eq & Et & Hid & Hst & Hr & Hty & Ham)] Hq Href.
  assert (forall i, queue_net i d' = queue_net i d + if bool_decide (i = q) then - pr_amountMicro (pw row) else 0) as Hnet.
  { intros i. rewrite (queue_net_grows i [t] d d' Et). unfold select_sum, queue_txn. cbn -[Z.add]. rewrite Hr, Hty.
    rewrite (bool_decide_true (withdrawal = withdrawal)), andb_true_r by done.
    destruct (decide (i = q)) as [->|Hi]; [rewrite !bool_decide_true by done; cbn; rewrite Ham; lia|].
    rewrite (bool_decide_false (Some q = Some i)), (bool_decide_false (i = q)) by congruence. cbn. lia. }
  split.
  - apply N1, Hok.
  - rewrite Eq, fmap_app. apply NoDup_app. split; [apply Hok|]. split; [|apply NoDup_singleton].
    intros x Hx ->%list_elem_of_singleton. by rewrite Hid in Hx.
  - intros r. rewrite Eq, Hnet. intros [Hin| ->%list_elem_of_singleton]%elem_of_app.
    + rewrite bool_decide_false; [|intros Heq; apply Hq; rewrite <- Heq; by apply list_elem_of_fmap_2].
      rewrite (qk_net _ Hok r Hin). lia.
    + rewrite Hid, (unreferenced_net q d Href), (bool_decide_true (q = q)), Hst by done. rewrite (bool_decide_false (q_pending = q_refunded)) by done. lia.
  - intros r. rewrite Eq. intros [Hin| ->%list_elem_of_singleton]%elem_of_app Hs.
    + destruct (qk_settled _ Hok r Hin Hs) as (w & Hw & H). exists w. by rewrite N2.
    + rewrite Hst in Hs. by destruct Hs.
Qed.

(** The rows of the queue as they were, and perhaps one that is new. *)
Lemma queue_keeps w d' : world_ok w -> queue_ok d' ->
  (forall r, r ∈ relay_pending_withdrawals (bw_db w) -> r ∈ relay_pending_withdrawals d') ->
  (forall r, r ∈ relay_pending_withdrawals d' -> r ∈ relay_pending_withdrawals (bw_db w) \/
     (pst r = q_pending /\ (pid r ∉ handed w ++ (bw_passes w ≫= (fun s => ids (w_rows (sp_wait s))))))) ->
  forall here, world_ok {| bw_proc := {| p_db := d'; firingHere := here |}; bw_started := bw_started w; bw_passes := bw_passes w;
                           handed := handed w; proved := proved w; landed := landed w |}.
Proof.
  intros Hw Hok Hkept Hnew here. split; cbn; try done; try apply Hw.
  - intros s Hs. destruct (wk_passes _ Hw s Hs) as [[H1 H2 H3] H4]. split; [|done]. split; [done|done|].
    intros x r Hx Hr Hid. destruct (Hnew r Hr) as [Hold|[_ Hn]]; [by apply H3|]. exfalso. apply Hn, elem_of_app. right.
    apply list_elem_of_bind. exists s. split; [|done]. rewrite Hid. by apply list_elem_of_fmap_2.
  - intros r Hr Hst. destruct (Hnew r Hr) as [Hold|[_ Hn]]; [by apply Hw|]. intros Hin. apply Hn.
    apply elem_of_app in Hin as [Hin|Hin]; apply elem_of_app; [by left|right].
    apply list_elem_of_bind in Hin as (s & Hin & Hs). apply list_elem_of_bind. exists s. split; [|done].
    unfold w_rows, ids. rewrite !fmap_app. apply elem_of_app. left. apply elem_of_app. by right.
  - intros r Hr Ho. destruct (Hnew r Hr) as [Hold|[Hp _]]; [by apply Hw|]. rewrite Hp in Ho. by destruct Ho.
  - intros id Hid. destruct (wk_landed _ Hw id Hid) as (H1 & H2 & r & Hr & H). split; [done|]. split; [done|]. exists r. auto.
Qed.

Lemma event_enqueue_ok w params q u now fr : world_ok w -> allowed w (ev_enqueue params q u now fr) ->
  world_ok (batch_step w (ev_enqueue params q u now fr)).
Proof.
  intros Hw (Hn & Hq & Href). cbn [batch_step].
  destruct (@enqueuePendingWithdrawal relay_db (FreezeDriver fr) params q u now (bw_db w)) as [res d'] eqn:E.
  apply enqueue_cases in E as [Hquiet|(_ & d1 & Hquiet & He)]; [| |apply Hw].
  - pose proof (qq_queue _ _ Hquiet) as Eq. apply (queue_keeps w); [done|by apply (quiet_queue_ok (bw_db w)); [apply Hw|]| |]; cbn; rewrite Eq; auto.
  - pose proof (qq_queue _ _ Hquiet) as Eq. pose proof (quiet_queue_ok _ _ (wk_queue _ Hw) Hquiet) as Hok1.
    assert (queue_ok d') as Hok'.
    { apply (enqueued_ok q d1); [done|done|by rewrite Eq|by rewrite (qq_transactions _ _ Hquiet)]. }
    destruct (nq_row _ _ _ He) as (row & t & Eq' & _ & Hid & Hst & _). apply (queue_keeps w); [done|done| |]; cbn; rewrite Eq', Eq.
    + intros r Hr. apply elem_of_app. by left.
    + intros r [Hr| ->%list_elem_of_singleton]%elem_of_app; [by left|right]. by rewrite Hid.
Qed.

Lemma other_ok w d : world_ok w -> allowed w (ev_other d) -> world_ok (batch_step w (ev_other d)).
Proof.
  intros Hw [O1 O2 O3 O4]. apply (queue_keeps w); [done| | |]; cbn; rewrite ?O2; auto. split; rewrite ?O2; [done|apply Hw| |].
  - intros r Hr. rewrite (O3 r Hr). by apply Hw.
  - intros r Hr Hst. destruct (qk_settled _ (wk_queue _ Hw) r Hr Hst) as (x & Hx & Hl & Hm & Ha).
    destruct (O4 x Hx) as (x' & Hx' & E1 & E2 & E3). exists x'. rewrite E1, E2, E3. done.
Qed.

Lemma restart_ok w now : world_ok w -> world_ok (batch_step w (ev_restart now)).
Proof.
  intros Hw. split; cbn; try apply Hw.
  - intros s Hs. by apply elem_of_nil in Hs.
  - rewrite app_nil_r. by destruct (proj1 (NoDup_app _ _) (wk_once _ Hw)).
  - intros r Hr Hst. rewrite app_nil_r. intros Hin. apply (wk_pending _ Hw r Hr Hst), elem_of_app. by left.
Qed.

Lemma lands_ok w id : world_ok w -> allowed w (ev_lands id) -> world_ok (batch_step w (ev_lands id)).
Proof.
  intros Hw (H1 & H2 & H3). split; cbn; try apply Hw.
  intros j [Hj| ->%list_elem_of_singleton]%elem_of_app; [by apply Hw|done].
Qed.

Lemma batch_reachable_ok w : reachable w -> world_ok w.
Proof.
  induction 1 as [d started Hn Hq|w e _ Hw Ha].
  - assert (forall r, r ∈ relay_pending_withdrawals d -> False) as Hno by (intros r; rewrite Hq; apply not_elem_of_nil).
    split; cbn; try done.
    + split; [done|rewrite Hq; constructor|by intros r ?%Hno|by intros r ?%Hno].
    + by intros s ?%not_elem_of_nil.
    + constructor.
    + by intros r ?%Hno.
    + by intros r ?%Hno.
    + by intros id ?%not_elem_of_nil.
  - destruct e; [by apply event_enqueue_ok|by apply tick_ok|by apply answer_ok|by apply restart_ok|by apply lands_ok|by apply other_ok].
Qed.
End system.

(** ** Claims leave the other rows alone *)

Record only_claims (d d' : relay_db) : Prop := {
  oc_rows r : r ∈ relay_pending_withdrawals d -> pst r <> q_pending -> r ∈ relay_pending_withdrawals d';
  oc_withdrawals : relay_withdrawals d' = relay_withdrawals d;
  oc_transactions : relay_transactions d' = relay_transactions d;
}.

Definition claims_process (p p' : process) : Prop := only_claims (p_db p) (p_db p').

#[export] Instance only_claims_preorder : PreOrder only_claims.
Proof. split; [by intros d|]. intros d1 d2 d3 [A1 A2 A3] [B1 B2 B3]. split; [auto|congruence|congruence]. Qed.

#[export] Instance claims_process_preorder : PreOrder claims_process.
Proof. split; [by intros p|]. intros p1 p2 p3 H1 H2. unfold claims_process in *. by etrans. Qed.

Section claims_only.
Context (config : BatchWithdrawalConfig) (i : turn_input).
Abbreviation guards := (relay_driver i).
Abbreviation claiming := (stays (E := ledger_error) only_claims).
Abbreviation proc_claiming := (stays (E := ledger_error) claims_process).

Lemma select_claiming {A} (q : relay_db -> A) : claiming (@select relay_db guards A q).
Proof.
  intros d. destruct (@select relay_db guards A q d) as [[a|e] d'] eqn:E; cbn.
  - apply (below_sql (ti_frozen i)) in E. injection E as _ <-. reflexivity.
  - apply (frozen_throws (ti_frozen i)) in E as ->. reflexivity.
Qed.

Lemma claim_claiming ids now : claiming (@claimForFiring relay_db guards ids now).
Proof.
  induction ids as [|id ids IH]; cbn [claimForFiring]; [apply stays_ret; exact _|].
  apply stays_bind; [exact _| |].
  - intros d. destruct (@update_queue relay_db guards _ _ d) as [res d'] eqn:E. cbn.
    apply (update_queue_cases (ti_frozen i)) in E as [(e & _ & ->)|(n & _ & -> & _)]; [reflexivity|].
    split; [|done|done]. intros r Hr Hst. cbn. unfold update_rows. apply list_elem_of_fmap. exists r. split; [|done].
    unfold row_in. by rewrite (bool_decide_false (pst r = q_pending)), andb_false_r.
  - intros n. apply stays_bind; [exact _| |intros o; apply stays_bind; [exact _|exact IH|intros; apply stays_ret; exact _]].
    case_decide; [apply stays_ret; exact _|apply select_claiming].
Qed.

Lemma on_db_claiming {A} (m : call relay_db ledger_error A) : claiming m -> proc_claiming (on_db m).
Proof. intros H p. unfold on_db. specialize (H (p_db p)). by destruct (m (p_db p)) as [r d]. Qed.

Lemma closing_claiming claimed m : proc_claiming m -> proc_claiming (closing claimed m).
Proof. intros H p. specialize (H p). unfold closing. by destruct (m p) as [[[w|]|e] p1]. Qed.

Lemma here_claiming xs : proc_claiming (here_add xs).
Proof. by intros p. Qed.

Lemma serial_claiming r each claimed xs : proc_claiming (fireSerial i r each claimed xs).
Proof.
  induction xs as [|x xs IH]; cbn [fireSerial]; [apply stays_ret; exact _|]. apply stays_bind; [exact _| |].
  - destruct each; [|apply stays_ret; exact _]. apply stays_bind; [exact _|apply on_db_claiming, claim_claiming|].
    intros; apply stays_ret; exact _.
  - intros [row|]; [|exact IH]. apply stays_bind; [exact _|apply here_claiming|intros; apply stays_ret; exact _].
Qed.

Lemma rails_claiming rs : proc_claiming (fireRails config i rs).
Proof.
  induction rs as [|r rs IH]; cbn [fireRails]; [apply stays_ret; exact _|]. apply stays_bind; [exact _| |].
  - apply stays_bind; [exact _|apply on_db_claiming, select_claiming|]. intros [|first rest]; [apply stays_ret; exact _|].
    cbv zeta. destruct (shouldBatchSettle _ _ _ _) as [[|]|e]; [|apply stays_ret; exact _|apply stays_throw; exact _].
    destruct (supportsBatch r); [|apply serial_claiming].
    apply stays_bind; [exact _|apply on_db_claiming, claim_claiming|]. intros [|x xs]; [apply stays_ret; exact _|].
    apply stays_bind; [exact _|apply here_claiming|]. intros _. apply closing_claiming. unfold fireBatch.
    case_decide; [apply stays_ret; exact _|apply serial_claiming].
  - intros [w|]; [apply stays_ret; exact _|exact IH].
Qed.
End claims_only.

(** ** A payout, once *)

(** C7: however enqueues, ticks, answers, restarts and the freeze interleave, and
    whatever other modules write, no queue row is handed to a rail twice, and one still
    pending was handed to none.  The ledger holds one debit of each row's amount until
    the row is [refunded], and then its credit back; a row settled as [fired] or
    [unknown] is linked to a withdrawal of its owner and amount; and a payout that has
    left its rail is never owed a refund nor refunded. *)
Theorem queued_payout_once (all : list rail) (config : BatchWithdrawalConfig) (w : world) :
  NoDup (rail_name <$> List.filter supportsWithdraw all) -> reachable all config w ->
  NoDup (handed w) /\
  forall r, r ∈ relay_pending_withdrawals (bw_db w) ->
    queue_net (pid r) (bw_db w) = (if bool_decide (pst r = q_refunded) then 0 else - pr_amountMicro (pw r)) /\
    (is_settled (pst r) -> recorded r (bw_db w)) /\
    (pst r = q_pending -> pid r ∉ handed w) /\
    (pid r ∈ landed w -> pid r ∈ handed w /\ ~ is_owed (pst r) /\ pst r <> q_pending).
Proof.
  intros Hn Hw. pose proof (batch_reachable_ok all config Hn w Hw) as [Hok _ Honce Hp Ho Hl].
  split; [by apply NoDup_app in Honce as [? _]|]. intros r Hr.
  assert (pst r = q_pending -> pid r ∉ handed w) as Hpend.
  { intros Hst Hin. apply (Hp r Hr Hst), elem_of_app. by left. }
  split; [by apply Hok|]. split; [by apply Hok|]. split; [done|].
  intros Hin. destruct (Hl _ Hin) as (Hh & Hnp & r' & Hr' & Hid & Hm).
  pose proof (row_by_id _ r' r Hok Hr' Hr Hid) as ->. split; [done|]. split.
  - intros Hst. destruct (Ho r Hr Hst) as [Hm'|Hp']; [congruence|]. by apply Hnp.
  - intros Hst. by apply Hpend in Hst.
Qed.

(** An account of 5 dollars, a payout of 2 enqueued; the rail sends it, the process
    dies, and the next one finds it. *)
Definition demo_rails : list rail := [{| rail_name := "x402"%string; payoutManual := false; payoutValidityMs := Some 60000;
  supportsWithdraw := true; supportsBatch := false |}].
Definition demo_config : BatchWithdrawalConfig := {|
  railFeeEstimates := fun _ => None; policy := None; railPolicyOverrides := fun _ => None |}.
Definition demo_funded : relay_db := upd_accounts (fun _ => [{| va_motebit_id := "alice"%string; va_balance := 5000000;
  va_currency := "USD"%string; va_created_at := 0; va_updated_at := 0 |}]) createAccountTables.
Definition demo_turn (at_ : Z) (id : string) : turn_input := {| ti_frozen := false; ti_now := at_; ti_mint := fun _ => id |}.
Definition demo_events : list batch_event := [
  ev_enqueue {| ep_motebitId := "alice"%string; ep_amountMicro := JInt 2000000; ep_destination := "wallet"%string; ep_rail := "x402"%string;
    ep_source := source_sweep; ep_idempotencyKey := None |} "q1"%string "t1"%string 10 false;
  ev_tick (demo_turn 20 "w1"%string); ev_lands "q1"%string; ev_restart 30; ev_tick (demo_turn 40 "w2"%string)].
Definition demo_world : world := {| bw_proc := {| p_db := demo_funded; firingHere := ∅ |}; bw_started := 0; bw_passes := [];
  handed := []; proved := []; landed := [] |}.
Definition demo_run (n : nat) : world :=
  fold_left (batch_step demo_rails demo_config) (take n demo_events) demo_world.

Lemma demo_in_flight : reachable demo_rails demo_config (demo_run 2).
Proof.
  assert (reachable demo_rails demo_config (demo_run 0)) as H0.
  { apply reach_start; [apply NoDup_singleton|done]. }
  assert (reachable demo_rails demo_config (demo_run 1)) as H1.
  { refine (reach_step _ _ (demo_run 0) _ H0 _). cbn. by repeat split; try apply not_elem_of_nil. }
  exact (reach_step _ _ (demo_run 1) (ev_tick (demo_turn 20 "w1"%string)) H1 I).
Qed.

Lemma demo_reachable : reachable demo_rails demo_config (demo_run 5).
Proof.
  pose proof demo_in_flight as H2.
  assert (reachable demo_rails demo_config (demo_run 3)) as H3.
  { refine (reach_step _ _ (demo_run 2) (ev_lands "q1"%string) H2 _).
    split; [apply (bool_decide_unpack _); by vm_compute|]. split; [apply (bool_decide_unpack _); by vm_compute|].
    eexists. split; [by vm_compute; left|]. by vm_compute. }
  assert (reachable demo_rails demo_config (demo_run 4)) as H4 by exact (reach_step _ _ (demo_run 3) (ev_restart 30) H3 I).
  exact (reach_step _ _ (demo_run 4) (ev_tick (demo_turn 40 "w2"%string)) H4 I).
Qed.

Lemma queued_payout_once_witness : exists w, reachable demo_rails demo_config w /\ handed w = ["q1"%string] /\ landed w = ["q1"%string] /\
  (pst <$> relay_pending_withdrawals (bw_db w)) = [q_unknown] /\ (w_amount ∘ wd <$> relay_withdrawals (bw_db w)) = [2000000] /\
  NoDup (handed w).
Proof.
  exists (demo_run 5). split; [exact demo_reachable|]. do 4 (split; [by vm_compute|]).
  apply (queued_payout_once demo_rails demo_config (demo_run 5)); [apply NoDup_singleton|exact demo_reachable].
Defined.
