(* ===== verification/BatchRecovery.v ===== *)
(** * What a restart recovers

    The first tick of a process, the relay not frozen: every row its predecessor left
    [firing] or [refund_owed] is settled by the money rule, and the rest of the tick
    does not take that back. *)

From Stdlib Require Import String.
From S2P Require Import Prelude Float64 JsString LedgerTypes Driver SqlStore SqlRefines SqlHolds.
From S2P Require Import Settlement Escrow EscrowRuns EscrowRefunds Freeze BatchWithdrawals BatchLaws BatchSystem.
Local Open Scope list_scope.
Local Open Scope Z_scope.
Local Open Scope motebit_scope.

Definition wid (w : withdrawal_row) : string := withdrawal_id (wd w).

(** A turn of one row: what becomes of it, of the rows beside it and of the ids. *)
Record row_done (u : string) (r r' : pending_row) (d d' : relay_db) : Prop := {
  rd_ok : queue_ok d';
  rd_row : r' ∈ relay_pending_withdrawals d';
  rd_id : pid r' = pid r;
  rd_others x : x ∈ relay_pending_withdrawals d -> pid x <> pid r -> x ∈ relay_pending_withdrawals d';
  rd_back x : x ∈ relay_pending_withdrawals d' -> pid x <> pid r -> x ∈ relay_pending_withdrawals d;
  rd_txns t : t ∈ relay_transactions d' -> t ∈ relay_transactions d \/ transaction_id (txn t) = u;
  rd_wds w : w ∈ relay_withdrawals d' -> w ∈ relay_withdrawals d \/ wid w = u;
  rd_kept w : w ∈ relay_withdrawals d -> w ∈ relay_withdrawals d';
}.

(** The id drawn for a row is new to both tables it may name a row of. *)
Definition fresh_id (u : string) (d : relay_db) : Prop :=
  (forall t, t ∈ relay_transactions d -> transaction_id (txn t) <> u) /\ (forall w, w ∈ relay_withdrawals d -> wid w <> u).

Section recovery.
Context (owes : PendingRow -> Prop).
Hypothesis owes_entry : forall a b, same_entry a b -> owes a -> owes b.
#[local] Instance unfrozen : DatabaseDriver relay_db ledger_error relay_db := FreezeDriver false.
Abbreviation run m := (m : call relay_db ledger_error _).

Lemma stepped r f d d' u : queue_ok d -> queue_ok d' -> row_step r f d d' -> pid (f r) = pid r ->
  (forall t, t ∈ relay_transactions d' -> t ∈ relay_transactions d \/ transaction_id (txn t) = u) ->
  (forall w, w ∈ relay_withdrawals d' -> w ∈ relay_withdrawals d \/ wid w = u) -> row_done u r (f r) d d'.
Proof.
  intros Hok Hok' Hs Hid Ht Hw. split; try done.
  - rewrite (rs_queue _ _ _ _ Hs). unfold update_rows. apply list_elem_of_fmap. exists r. split; [|apply Hs].
    unfold row_in. by rewrite !bool_decide_true.
  - intros x Hx Hne. rewrite (rs_queue _ _ _ _ Hs). unfold update_rows. apply list_elem_of_fmap. exists x. split; [|done].
    unfold row_in. by rewrite (bool_decide_false (pid x = pid r)).
  - intros x Hx Hne. apply (stepped_rows r f d d') in Hx as [->|[Hx _]]; done.
  - apply Hs.
Qed.

(** A row that is owed is refunded. *)
Lemma owed_refund_runs r at_ u d : queue_ok d -> r ∈ relay_pending_withdrawals d -> pst r = q_refund_owed -> fresh_id u d ->
  exists d', run (settleOwedRefund (pid r) at_ u) d = (Ok true, d') /\ row_done u r (refunded_at at_ r) d d'.
Proof.
  intros Hok Hr Hst [Hf _].
  destruct (refund_pure (pid r) at_ u at_ d) as [(r1 & d' & _ & _ & R & _)|[Hno _]].
  - split; apply Hok.
  - apply Forall_forall. exact Hf.
  - exists d'. split; [by apply catch_runs|].
    assert (evolves owes d (run (refundPendingWithdrawal (pid r) at_ u at_) d).2) as He
      by exact (refund_evolves owes owes_entry false (pid r) at_ u at_ d).
    assert (run (refundPendingWithdrawal (pid r) at_ u at_) d = (Ok true, d')) as R' by exact R.
    destruct (refund_returns false _ _ _ _ _ _ _ Hok R') as [[[=] _]|(_ & r2 & Hr2 & Hid & _ & Hs & Ew & t & Et & Hu)].
    pose proof (row_by_id d r2 r Hok Hr2 Hr Hid) as ->.
    assert (queue_ok d') as Hok' by (rewrite R' in He; by apply He).
    apply stepped; try done.
    + intros t'. rewrite Et. intros [Ht| ->%list_elem_of_singleton]%elem_of_app; auto.
    + intros w. rewrite Ew. auto.
  - exfalso. apply (Hno r); [|done]. by apply find_pid.
Qed.

Lemma update_queue_runs id st f d : run (update_queue (row_in id st) f) d =
  (Ok (changes (row_in id st) (relay_pending_withdrawals d)), upd_pending (update_rows (row_in id st) f) d).
Proof. reflexivity. Qed.

Lemma changed r st d : r ∈ relay_pending_withdrawals d -> pst r = st -> changes (row_in (pid r) st) (relay_pending_withdrawals d) <> 0%nat.
Proof.
  intros Hr Hst Hz. destruct (changed_row (pid r) st (fun x => x) d) as [[_ E]|[Hn _]]; [|done].
  unfold changes in Hz. apply length_zero_iff_nil in Hz.
  assert (In r (List.filter (row_in (pid r) st) (relay_pending_withdrawals d))) as Hin.
  { apply filter_In. split; [by apply list_elem_of_In|]. unfold row_in. by rewrite !bool_decide_true. }
  by rewrite Hz in Hin.
Qed.

(** What a held row becomes. *)
Definition held_as (rl : option rail) (now : Z) (u : string) (r : pending_row) (reason : string) : withdrawal_row :=
  fired_withdrawal (pw r) {| fr_status := processing; payoutReference := None;
    payoutValidUntil := Some (now + default UNDECLARED_PAYOUT_HORIZON_MS (rl ≫= payoutValidityMsOf)) |}
    now (Some (unresolved_note (pw r) reason)) u.

Lemma hold_runs rl r reason now u d : queue_ok d -> r ∈ relay_pending_withdrawals d -> pst r = q_firing -> fresh_id u d ->
  pr_idempotencyKey (pw r) = None ->
  exists d', run (holdUnknown rl (pw r) reason now u) d = (Ok (Some u), d') /\
    row_done u r (settled_row q_unknown (fun _ => Some reason) now u r) d d' /\ held_as rl now u r reason ∈ relay_withdrawals d'.
Proof.
  intros Hok Hr Hst [_ Hf] Hkey.
  set (f := set_queue q_unknown (Some reason) now). set (row := held_as rl now u r reason).
  assert (exists d', run (holdUnknown rl (pw r) reason now u) d = (Ok (Some u), d')) as (d' & R).
  { eexists. unfold holdUnknown. apply transaction_runs. rewrite (call_bind_run _ _ _ _ _ (update_queue_runs (pid r) q_firing f d)).
    rewrite decide_False by by apply changed. unfold recordFiredWithdrawal.
    assert (insert_row same_withdrawal row (relay_withdrawals d) = Ok (relay_withdrawals d ++ [row])) as Ei.
    { apply insert_row_ok, Forall_forall. intros w Hw. unfold same_withdrawal. cbn. rewrite Hkey.
      rewrite (bool_decide_false (u = _)) by (intros ->; by apply (Hf w Hw)).
      rewrite (bool_decide_false (is_Some None)) by (by intros []). by rewrite andb_false_r. }
    unfold call_bind at 1 2. cbn [run_sql unfrozen FreezeDriver guarded_sql]. unfold stmt_fn at 1.
    change (relay_withdrawals (upd_pending _ d)) with (relay_withdrawals d). fold (held_as rl now u r reason). fold row. rewrite Ei.
    reflexivity. }
  exists d'. split; [done|].
  assert (run (settle_row false (pid r) q_unknown (fun _ => Some reason) (pw r) {| fr_status := processing; payoutReference := None;
    payoutValidUntil := Some (now + default UNDECLARED_PAYOUT_HORIZON_MS (rl ≫= payoutValidityMsOf)) |}
    now (Some (unresolved_note (pw r) reason)) u) d = (Ok (Some u), d')) as R' by exact R.
  assert (tracked [pw r] d) as Ht.
  { apply tracked_read; [done|]. intros x ->%list_elem_of_singleton. exists r. split; [done|apply same_entry_refl]. }
  assert (evolves owes d (run (holdUnknown rl (pw r) reason now u) d).2) as He.
  { exact (settle_row_evolves owes owes_entry false [pw r] q_unknown (fun _ => Some reason) (pw r) _ now _ u
      (or_intror eq_refl) ltac:(by left) d Hok Ht). }
  rewrite R in He. destruct (He Hok) as (Hok' & _).
  destruct (settle_row_returns false _ _ _ _ _ _ _ _ _ _ _ Hok (or_intror eq_refl)
    (fun x Hx Hid => Ht (pw r) x ltac:(by left) Hx Hid) R') as [[[=] _]|(_ & r2 & Hr2 & Hid & _ & Ew & Et & Hs)].
  pose proof (row_by_id d r2 r Hok Hr2 Hr Hid) as ->.
  split; [apply stepped; try done|rewrite Ew; apply elem_of_app; right; by left].
  - intros t. rewrite Et. by left.
  - intros w. rewrite Ew. intros [Hw| ->%list_elem_of_singleton]%elem_of_app; [by left|by right].
Qed.

Lemma row_done_trans u r1 r2 r3 d1 d2 d3 : row_done u r1 r2 d1 d2 -> row_done u r2 r3 d2 d3 -> row_done u r1 r3 d1 d3.
Proof.
  intros [A1 A2 A3 A4 A5 A6 A7 A8] [B1 B2 B3 B4 B5 B6 B7 B8]. split; try done; [congruence| | | | |auto].
  - intros x Hx Hne. apply B4; [by apply A4|congruence].
  - intros x Hx Hne. apply A5; [|done]. apply B5; [done|congruence].
  - intros t [Ht|Ht]%B6; [by apply A6|by right].
  - intros w [Hw|Hw]%B7; [by apply A7|by right].
Qed.

Lemma owe_runs r reason now d : queue_ok d -> r ∈ relay_pending_withdrawals d -> pst r = q_firing -> owes (pw r) ->
  exists d', run (update_queue (row_in (pid r) q_firing) (set_queue q_refund_owed (Some reason) now)) d
      = (Ok (changes (row_in (pid r) q_firing) (relay_pending_withdrawals d)), d') /\
    (forall u, row_done u r (set_queue q_refund_owed (Some reason) now r) d d') /\ (forall u, fresh_id u d -> fresh_id u d').
Proof.
  intros Hok Hr Hst Ho. eexists. split; [reflexivity|]. split; [|done]. intros u. rewrite <- Hst.
  assert (row_step r (set_queue q_refund_owed (Some reason) now) d
    (upd_pending (update_rows (row_in (pid r) (pst r)) (set_queue q_refund_owed (Some reason) now)) d)) as Hs.
  { apply plain_step; auto with motebit; try done. by intros [H|H]. }
  apply stepped; try done; [|by left|by left].
  refine (proj1 (row_step_evolves owes r _ d _ _ _ _ Hs Hok)); [by rewrite Hst|done|].
  intros _. right. apply (owes_entry (pw r)); [apply same_entry_set|done].
Qed.

(** A failed send's row, by the money rule. *)
Definition failed_as (rl : option rail) (err : rail_error) (now : Z) (u : string) (r r' : pending_row) (d' : relay_db) : Prop :=
  match failureOutcome rl err with
  | not_sent => pst r' = q_refunded
  | outcome_unknown => pst r' = q_unknown /\ linked_withdrawal r' = Some u /\ held_as rl now u r (message err) ∈ relay_withdrawals d'
  end.

Lemma failed_runs rl r err now u d : queue_ok d -> r ∈ relay_pending_withdrawals d -> pst r = q_firing -> fresh_id u d ->
  pr_idempotencyKey (pw r) = None -> (failureOutcome rl err = not_sent -> owes (pw r)) ->
  exists r' d', run (markFailed rl (pw r) err now u) d = (Ok tt, d') /\ row_done u r r' d d' /\ failed_as rl err now u r r' d'.
Proof.
  intros Hok Hr Hst Hf Hkey Ho. unfold markFailed, failed_as. destruct (failureOutcome rl err).
  - destruct (owe_runs r (message err) now d Hok Hr Hst (Ho eq_refl)) as (d1 & R1 & D1 & F1).
    destruct (owed_refund_runs (set_queue q_refund_owed (Some (message err)) now r) now u d1) as (d2 & R2 & D2);
      [apply (rd_ok _ _ _ _ _ (D1 u))|apply (rd_row _ _ _ _ _ (D1 u))|done|by apply F1|].
    eexists _, d2. split; [|split; [by eapply row_done_trans|done]].
    unfold refundNotSent. rewrite (call_bind_run _ _ _ _ _ R1). rewrite decide_False by by apply changed.
    rewrite (call_bind_run _ _ _ _ _ R2). done.
  - destruct (hold_runs rl r (message err) now u d Hok Hr Hst Hf Hkey) as (d1 & R1 & D1 & W1).
    eexists _, d1. split; [by rewrite (call_bind_run _ _ _ _ _ R1)|]. split; [exact D1|done].
Qed.
End recovery.

(** ** Row after row *)

Section each.
Context {A : Type} (mint : string -> string) (body : pending_row -> call relay_db ledger_error A).
Context (good : pending_row -> Prop) (P : pending_row -> pending_row -> relay_db -> Prop).
Hypothesis body_runs : forall r d, queue_ok d -> r ∈ relay_pending_withdrawals d -> good r -> fresh_id (mint (pid r)) d ->
  exists a r' d', body r d = (Ok a, d') /\ row_done (mint (pid r)) r r' d d' /\ P r r' d'.
Hypothesis P_kept : forall r r' d d', P r r' d -> (forall w, w ∈ relay_withdrawals d -> w ∈ relay_withdrawals d') -> P r r' d'.

Record all_done (l : list pending_row) (d d' : relay_db) : Prop := {
  ad_ok : queue_ok d';
  ad_rows r : r ∈ l -> exists r', r' ∈ relay_pending_withdrawals d' /\ pid r' = pid r /\ P r r' d';
  ad_others x : x ∈ relay_pending_withdrawals d -> (pid x ∉ pid <$> l) -> x ∈ relay_pending_withdrawals d';
  ad_back x : x ∈ relay_pending_withdrawals d' -> (pid x ∉ pid <$> l) -> x ∈ relay_pending_withdrawals d;
  ad_txns t : t ∈ relay_transactions d' -> t ∈ relay_transactions d \/ exists r, r ∈ l /\ transaction_id (txn t) = mint (pid r);
  ad_wds w : w ∈ relay_withdrawals d' -> w ∈ relay_withdrawals d \/ exists r, r ∈ l /\ wid w = mint (pid r);
  ad_kept w : w ∈ relay_withdrawals d -> w ∈ relay_withdrawals d';
}.

Lemma all_done_fresh l d d' u : all_done l d d' -> fresh_id u d -> (forall r, r ∈ l -> mint (pid r) <> u) -> fresh_id u d'.
Proof.
  intros Ha [F1 F2] Hn. split.
  - intros t [Ht|(r & Hr & ->)]%(ad_txns _ _ _ Ha); [by apply F1|by apply Hn].
  - intros w [Hw|(r & Hr & ->)]%(ad_wds _ _ _ Ha); [by apply F2|by apply Hn].
Qed.

Lemma each_runs l : forall d, queue_ok d -> NoDup (pid <$> l) ->
  (forall r, r ∈ l -> r ∈ relay_pending_withdrawals d /\ good r /\ fresh_id (mint (pid r)) d) ->
  (forall r1 r2, r1 ∈ l -> r2 ∈ l -> mint (pid r1) = mint (pid r2) -> pid r1 = pid r2) ->
  exists d', foldr (fun r k => body r ;! k) (call_ret tt) l d = (Ok tt, d') /\ all_done l d d'.
Proof.
  induction l as [|r l IH]; intros d Hok Hnd Hl Hinj; cbn [foldr].
  { exists d. split; [done|]. split; auto. by intros r Hr%elem_of_nil. }
  apply NoDup_cons in Hnd as [Hr Hnd]. destruct (Hl r ltac:(by left)) as (Hin & Hg & Hf).
  destruct (body_runs r d Hok Hin Hg Hf) as (a & r' & d1 & R & D & HP).
  assert (forall x, x ∈ l -> pid x <> pid r) as Hne by (intros x Hx E; apply Hr; rewrite <- E; by apply list_elem_of_fmap_2).
  destruct (IH d1) as (d' & R' & [B1 B2 B3 B4 B5 B6 B7]); [apply D|done| |auto|].
  { intros x Hx. destruct (Hl x ltac:(by right)) as (H1 & H2 & H3). split; [apply D; [done|by apply Hne]|]. split; [done|].
    assert (mint (pid x) <> mint (pid r)) as Hm by (intros E; apply (Hne x Hx), Hinj; [by right|by left|done]).
    destruct H3 as [F1 F2]. split.
    - intros t [Ht| ->]%(rd_txns _ _ _ _ _ D); [by apply F1|auto].
    - intros w [Hw| ->]%(rd_wds _ _ _ _ _ D); [by apply F2|auto]. }
  { intros r1 r2 H1 H2. apply Hinj; by right. }
  exists d'. split; [by rewrite (call_bind_run _ _ _ _ _ R)|]. split; try done.
  - intros x [->|Hx]%elem_of_cons; [|by apply B2]. exists r'. split; [|split; [apply D|by apply (P_kept _ _ d1)]].
    apply B3; [apply D|]. by rewrite (rd_id _ _ _ _ _ D).
  - intros x Hx [Hne1 Hnl]%not_elem_of_cons. apply B3; [|done]. by apply D.
  - intros x Hx [Hne1 Hnl]%not_elem_of_cons. apply (rd_back _ _ _ _ _ D); [|done]. by apply B4.
  - intros t [Ht|(x & Hx & E)]%B5; [|right; exists x; split; [by right|done]].
    apply (rd_txns _ _ _ _ _ D) in Ht as [Ht|Ht]; [by left|right]. exists r. split; [by left|done].
  - intros w [Hw|(x & Hx & E)]%B6; [|right; exists x; split; [by right|done]].
    apply (rd_wds _ _ _ _ _ D) in Hw as [Hw|Hw]; [by left|right]. exists r. split; [by left|done].
  - intros w Hw. by apply B7, D.
Qed.
End each.

(** ** The first tick of a process *)

Section first_tick.
Context (rails : list rail) (started : Z) (i : turn_input) (owes : PendingRow -> Prop).
Hypothesis owes_entry : forall a b, same_entry a b -> owes a -> owes b.
Hypothesis owes_manual : forall r x, r ∈ rails -> isManualPayoutRail r = true -> pr_rail x = rail_name r -> owes x.
Hypothesis unfrozen_now : ti_frozen i = false.
#[local] Existing Instance unfrozen.
Abbreviation mint := (ti_mint i).

Definition rail_of (r : pending_row) : option rail := find_rail rails (pr_rail (pw r)).
Definition recovered (r : pending_row) : call relay_db ledger_error unit :=
  markFailed (rail_of r) (pw r) (recover_error true) (ti_now i) (mint (pid r)).
Definition refunding (r : pending_row) : call relay_db ledger_error bool := settleOwedRefund (pid r) (ti_now i) (mint (pid r)).
Definition firing_rows (d : relay_db) : list pending_row :=
  List.filter (fun r => bool_decide (pst r = q_firing)) (relay_pending_withdrawals d).
Definition owed_rows (d : relay_db) : list pending_row :=
  List.filter (fun r => bool_decide (pst r = q_refund_owed)) (relay_pending_withdrawals d).

Definition row_recovered (r r' : pending_row) (d' : relay_db) : Prop :=
  failed_as (rail_of r) (recover_error true) (ti_now i) (mint (pid r)) r r' d'.
Definition row_refunded (r r' : pending_row) (d' : relay_db) : Prop := pst r' = q_refunded.

Lemma failed_as_kept rl err now u r r' d d' : failed_as rl err now u r r' d ->
  (forall w, w ∈ relay_withdrawals d -> w ∈ relay_withdrawals d') -> failed_as rl err now u r r' d'.
Proof. unfold failed_as. destruct (failureOutcome rl err); [done|]. intros (H1 & H2 & H3) Hk. auto. Qed.

Lemma failed_settled rl err now u r r' d : failed_as rl err now u r r' d -> pst r' <> q_pending /\ pst r' <> q_refund_owed.
Proof. unfold failed_as. by destruct (failureOutcome rl err) as []; [intros ->|intros (-> & _)]. Qed.

Lemma filtered st d r : r ∈ List.filter (fun r => bool_decide (pst r = st)) (relay_pending_withdrawals d) <->
  r ∈ relay_pending_withdrawals d /\ pst r = st.
Proof. rewrite list_elem_of_In, filter_In, <- list_elem_of_In. by rewrite bool_decide_eq_true. Qed.

Lemma filtered_ids f d : queue_ok d -> NoDup (pid <$> List.filter f (relay_pending_withdrawals d)).
Proof.
  intros Hok. generalize (qk_ids _ Hok). induction (relay_pending_withdrawals d) as [|r l IH]; [done|].
  rewrite fmap_cons. intros [Hr Hl]%NoDup_cons. cbn. destruct (f r); [|by apply IH].
  rewrite fmap_cons. apply NoDup_cons. split; [|by apply IH].
  intros (x & E & Hx)%list_elem_of_fmap. apply list_elem_of_In, filter_In in Hx as [Hx%list_elem_of_In _].
  apply Hr. rewrite E. by apply list_elem_of_fmap_2.
Qed.

Lemma on_db_seq {A B} (m : call relay_db ledger_error A) (k : A -> call relay_db ledger_error B) p :
  on_db (call_bind m k) p = call_bind (on_db m) (fun a => on_db (k a)) p.
Proof. unfold call_bind, on_db. by destruct (m (p_db p)) as [[a|e] d]. Qed.

Lemma recover_rows l : (forall r, r ∈ l -> default 0 (last_attempt_at r) < started) ->
  forall p, foldr (fun r k => recoverRow i rails started r ;! k) (call_ret tt) l p =
            on_db (foldr (fun r k => recovered r ;! k) (call_ret tt) l) p.
Proof.
  induction l as [|r l IH]; intros Hl p; cbn [foldr]; [by destruct p|].
  assert (recoverRow i rails started r p = on_db (recovered r) p) as Hr.
  { unfold recoverRow. rewrite (proj2 (Z.ltb_lt _ _) (Hl r ltac:(by left))). cbn [negb andb].
    unfold relay_driver. by rewrite unfrozen_now. }
  rewrite on_db_seq. unfold call_bind at 1 3. rewrite Hr. destruct (on_db (recovered r) p) as [[a|e] p1]; [|done].
  apply IH. intros x Hx. apply Hl. by right.
Qed.

(** What the tick needs of the rows it settles. *)
Record recoverable (d : relay_db) : Prop := {
  rc_early r : r ∈ relay_pending_withdrawals d -> pst r = q_firing -> default 0 (last_attempt_at r) < started;
  rc_unkeyed r : r ∈ relay_pending_withdrawals d -> pst r = q_firing -> pr_idempotencyKey (pw r) = None;
  rc_fresh r : r ∈ relay_pending_withdrawals d -> pst r = q_firing \/ pst r = q_refund_owed -> fresh_id (mint (pid r)) d;
  rc_mint r1 r2 : r1 ∈ relay_pending_withdrawals d -> r2 ∈ relay_pending_withdrawals d ->
    mint (pid r1) = mint (pid r2) -> pid r1 = pid r2;
}.

Lemma recovery_owes r : failureOutcome (rail_of r) (recover_error true) = not_sent -> owes (pw r).
Proof.
  unfold failureOutcome, rail_of. destruct (find_rail rails (pr_rail (pw r))) as [rl|] eqn:E; [|done].
  apply find_rail_in in E as [Hr Hn]. destruct (isManualPayoutRail rl) eqn:Em; [|done]. intros _. by apply (owes_manual rl).
Qed.

Lemma firing_recovered d : queue_ok d -> recoverable d -> exists d',
  foldr (fun r k => recovered r ;! k) (call_ret tt) (firing_rows d) d = (Ok tt, d') /\ all_done mint row_recovered (firing_rows d) d d'.
Proof.
  intros Hok Hrc.
  apply (each_runs mint recovered (fun r => pst r = q_firing /\ pr_idempotencyKey (pw r) = None)); [| |done|by apply filtered_ids| |].
  - intros r d0 Hok0 Hr [Hst Hkey] Hf. exists tt. by apply (failed_runs owes owes_entry); auto using recovery_owes.
  - intros r r' d1 d2. apply failed_as_kept.
  - intros r [Hr Hst]%filtered. split; [done|]. split; [split; [done|by apply (rc_unkeyed _ Hrc)]|]. apply (rc_fresh _ Hrc); auto.
  - intros r1 r2 [H1 _]%filtered [H2 _]%filtered. by apply (rc_mint _ Hrc).
Qed.

Lemma owed_refunded d : queue_ok d -> (forall r, r ∈ owed_rows d -> fresh_id (mint (pid r)) d) ->
  (forall r1 r2, r1 ∈ owed_rows d -> r2 ∈ owed_rows d -> mint (pid r1) = mint (pid r2) -> pid r1 = pid r2) -> exists d',
  foldr (fun r k => refunding r ;! k) (call_ret tt) (owed_rows d) d = (Ok tt, d') /\ all_done mint row_refunded (owed_rows d) d d'.
Proof.
  intros Hok Hf Hm.
  apply (each_runs mint refunding (fun r => pst r = q_refund_owed)); [|done|done|by apply filtered_ids| |done].
  - intros r d0 Hok0 Hr Hst Hf0. destruct (owed_refund_runs owes owes_entry r (ti_now i) (mint (pid r)) d0 Hok0 Hr Hst Hf0) as (d' & R & D).
    by exists true, (refunded_at (ti_now i) r), d'.
  - intros r Hr. split; [by apply filtered in Hr as [? _]|]. split; [by apply filtered in Hr as [_ ?]|auto].
Qed.

Lemma select_unfrozen {A} (q : relay_db -> A) d : @select relay_db (relay_driver i) A q d = (Ok (q d), d).
Proof. unfold relay_driver. by rewrite unfrozen_now. Qed.

Lemma recover_all p d1 : recoverable (p_db p) -> foldr (fun r k => recovered r ;! k) (call_ret tt) (firing_rows (p_db p)) (p_db p) = (Ok tt, d1) ->
  recoverFiring i rails started p = (Ok tt, {| p_db := d1; firingHere := firingHere p |}).
Proof.
  intros Hrc R. unfold recoverFiring. rewrite on_db_bind, select_unfrozen. cbv beta match.
  fold (firing_rows (p_db p)). rewrite recover_rows; [unfold on_db; cbn [p_db]; by rewrite R|].
  intros r [Hr Hst]%filtered. by apply (rc_early _ Hrc).
Qed.

Lemma owed_as_rows d : @settleOwedRefunds relay_db (relay_driver i) (ti_now i) mint d =
  foldr (fun r k => refunding r ;! k) (call_ret tt) (owed_rows d) d.
Proof.
  unfold settleOwedRefunds. unfold call_bind at 1. rewrite select_unfrozen. cbv beta match.
  fold (owed_rows d). rewrite foldr_fmap. unfold relay_driver. by rewrite unfrozen_now.
Qed.

(** Recovery, then the owed refunds: the rows of both are settled. *)
Lemma tick_settles config all p : rails = List.filter supportsWithdraw all -> queue_ok (p_db p) -> recoverable (p_db p) ->
  exists d1 d2, all_done mint row_recovered (firing_rows (p_db p)) (p_db p) d1 /\
    (forall r, r ∈ owed_rows (p_db p) -> r ∈ owed_rows d1) /\ all_done mint row_refunded (owed_rows d1) d1 d2 /\
    only_claims d2 (p_db (runBatchWithdrawalTick config i all started p).2).
Proof.
  intros Hall Hok Hrc. destruct (firing_recovered (p_db p) Hok Hrc) as (d1 & R1 & D1).
  assert (forall r, r ∈ owed_rows d1 -> r ∈ owed_rows (p_db p)) as Hsame.
  { intros r [Hr Hst]%filtered. apply filtered. split; [|done]. apply (ad_back _ _ _ _ _ D1); [done|].
    intros (x & Hid & Hx)%list_elem_of_fmap. destruct (ad_rows _ _ _ _ _ D1 x Hx) as (r' & Hr' & Hid' & Hp).
    apply failed_settled in Hp as [_ Hp]. apply Hp. rewrite <- Hst. f_equal. apply (row_by_id d1); [apply D1|done|done|congruence]. }
  assert (forall r x, r ∈ owed_rows (p_db p) -> x ∈ firing_rows (p_db p) -> pid x <> pid r) as Hapart.
  { intros r x [Hr Hst]%filtered [Hx Hsx]%filtered Hid. pose proof (row_by_id _ x r Hok Hx Hr Hid) as ->. congruence. }
  destruct (owed_refunded d1) as (d2 & R2 & D2).
  { apply D1. }
  { intros r Hr. apply Hsame in Hr as Hr0. pose proof Hr0 as [Hr1 Hst]%filtered.
    apply (all_done_fresh mint row_recovered (firing_rows (p_db p)) (p_db p)); [done|by apply (rc_fresh _ Hrc); auto|].
    intros x Hx Hm. apply (Hapart r x Hr0 Hx). apply filtered in Hx as [Hx _]. by apply (rc_mint _ Hrc). }
  { intros r1 r2 H1%Hsame%filtered H2%Hsame%filtered. apply (rc_mint _ Hrc); [apply H1|apply H2]. }
  assert (forall r, r ∈ owed_rows (p_db p) -> r ∈ owed_rows d1) as Hstill.
  { intros r Hr. pose proof Hr as [Hr1 Hst]%filtered. apply filtered. split; [|done]. apply (ad_others _ _ _ _ _ D1); [done|].
    intros (x & Hid & Hx)%list_elem_of_fmap. by apply (Hapart r x). }
  exists d1, d2. do 3 (split; [done|]). unfold runBatchWithdrawalTick. rewrite <- Hall.
  rewrite (call_bind_run _ _ _ _ _ (recover_all p d1 Hrc R1)), on_db_bind. cbn [p_db]. rewrite owed_as_rows, R2.
  exact (rails_claiming config i rails {| p_db := d2; firingHere := firingHere p |}).
Qed.
End first_tick.

(** ** No payout is stranded *)

(** What a restart makes of a row its predecessor left in flight. *)
Definition settled_after (all : list rail) (r r' : pending_row) (d' : relay_db) : Prop :=
  if bool_decide (pst r = q_refund_owed) || manual_row all (pw r) then pst r' = q_refunded
  else pst r' = q_unknown /\ exists x, x ∈ relay_withdrawals d' /\ linked_withdrawal r' = Some (wid x) /\
    w_status (wd x) = processing /\ w_motebit_id (wd x) = pr_motebitId (pw r) /\ w_amount (wd x) = pr_amountMicro (pw r).

Lemma recovered_settled all i r r' d : pst r = q_firing -> row_recovered (List.filter supportsWithdraw all) i r r' d ->
  settled_after all r r' d.
Proof.
  intros Hst. unfold row_recovered, failed_as, settled_after, rail_of, manual_row, failureOutcome. rewrite Hst. cbn.
  destruct (find_rail _ _) as [rl|]; [destruct (isManualPayoutRail rl); [done|]|]; cbn; intros (H1 & H2 & H3);
    (split; [done|]); by eexists; split; [exact H3|].
Qed.

(** C10: a process that dies strands no payout.  Whatever was under way, the first
    tick of the next process, when the relay is not frozen, settles every row it finds
    [firing] or [refund_owed]: one owed is refunded, and so is one on a rail a person
    pays from; any other becomes [unknown] and is linked to a [processing] withdrawal
    of its owner and amount, where it waits for the chain to be read.  The ids it draws
    are new, the clock has moved since the rows were claimed, and the rows in flight
    carry no key of a caller's, as the sweep enqueues them. *)
Theorem restart_settles_all (all : list rail) (config : BatchWithdrawalConfig) (w : world) (started : Z) (i : turn_input) :
  NoDup (rail_name <$> List.filter supportsWithdraw all) -> reachable all config w -> ti_frozen i = false ->
  recoverable started i (bw_db w) ->
  let w' := batch_step all config (batch_step all config w (ev_restart started)) (ev_tick i) in
  forall r, r ∈ relay_pending_withdrawals (bw_db w) -> pst r = q_firing \/ pst r = q_refund_owed ->
  exists r', r' ∈ relay_pending_withdrawals (bw_db w') /\ pid r' = pid r /\ settled_after all r r' (bw_db w').
Proof.
  intros Hn Hw Hfr Hrc w' r Hr Hst. pose proof (batch_reachable_ok all config Hn w Hw) as [Hok _ _ _ _ _].
  destruct (tick_settles (List.filter supportsWithdraw all) started i (owes_by all (proved w)) (owes_by_entry all _) (owes_by_manual all Hn _)
    Hfr config all {| p_db := bw_db w; firingHere := ∅ |} eq_refl Hok Hrc) as (d1 & d2 & D1 & Hstill & D2 & [C1 C2 _]).
  change (bw_db w') with (p_db (runBatchWithdrawalTick config i all started {| p_db := bw_db w; firingHere := ∅ |}).2).
  destruct Hst as [Hst|Hst].
  - destruct (ad_rows _ _ _ _ _ D1 r) as (r1 & Hr1 & Hid & Hp); [by apply filtered|].
    pose proof (failed_settled _ _ _ _ _ _ _ Hp) as [Hnp Hno].
    exists r1. split; [|split; [done|]].
    + apply C1; [|done]. apply (ad_others _ _ _ _ _ D2); [done|].
      intros (x & Hx & Hin)%list_elem_of_fmap. apply filtered in Hin as [Hin Hsx]. apply Hno.
      by rewrite (row_by_id d1 r1 x (ad_ok _ _ _ _ _ D1) Hr1 Hin Hx).
    + apply (recovered_settled all i); [done|]. apply (failed_as_kept _ _ _ _ _ _ d1); [done|].
      intros x Hx. rewrite C2. by apply (ad_kept _ _ _ _ _ D2).
  - destruct (ad_rows _ _ _ _ _ D2 r) as (r2 & Hr2 & Hid & Hp); [by apply Hstill, filtered|].
    exists r2. unfold row_refunded in Hp. split; [apply C1; [done|congruence]|]. split; [done|].
    unfold settled_after. by rewrite bool_decide_true.
Qed.

Lemma restart_settles_all_witness : exists w r, r ∈ relay_pending_withdrawals (bw_db w) /\ pst r = q_firing /\
  let w' := batch_step demo_rails demo_config (batch_step demo_rails demo_config w (ev_restart 30)) (ev_tick (demo_turn 40 "w2"%string)) in
  exists r', r' ∈ relay_pending_withdrawals (bw_db w') /\ pid r' = pid r /\ settled_after demo_rails r r' (bw_db w').
Proof.
  exists (demo_run 2). eexists. split; [by vm_compute; left|]. split; [by vm_compute|].
  apply (restart_settles_all demo_rails demo_config (demo_run 2) 30 (demo_turn 40 "w2"%string)); [apply NoDup_singleton|exact demo_in_flight|done| |by vm_compute; left|by left].
  assert (forall r, r ∈ relay_pending_withdrawals (bw_db (demo_run 2)) -> pid r = "q1"%string /\ pr_idempotencyKey (pw r) = None /\
    last_attempt_at r = Some 20) as Hone by (intros r Hr; vm_compute in Hr; by apply list_elem_of_singleton in Hr as ->).
  split.
  - intros r (_ & _ & ->)%Hone _. done.
  - by intros r (_ & -> & _)%Hone _.
  - intros r _ _. split; intros x Hx; vm_compute in Hx; [apply list_elem_of_singleton in Hx as ->; by vm_compute|by apply not_elem_of_nil in Hx].
  - by intros r1 r2 (-> & _)%Hone (-> & _)%Hone _.
Defined.

(** A key a caller gives is unique per table only: a queue row whose key a withdrawal
    of the same account already has can never be recorded.  Its answer is lost, the
    row stays [firing], and each later tick throws on it before it fires any rail. *)
Definition keyed_row : PendingRow := {| pr_pendingId := "q1"%string; pr_motebitId := "alice"%string; pr_amountMicro := 2000000;
  pr_destination := "wallet"%string; pr_rail := "x402"%string; pr_source := source_user; pr_enqueuedAt := 10; pr_status := q_firing;
  pr_idempotencyKey := Some "k"%string |}.
Definition keyed_world : world := fold_left (batch_step demo_rails demo_config) [
    ev_enqueue {| ep_motebitId := "alice"%string; ep_amountMicro := JInt 2000000; ep_destination := "wallet"%string; ep_rail := "x402"%string;
      ep_source := source_user; ep_idempotencyKey := Some "k"%string |} "q1"%string "t1"%string 10 false;
    ev_tick (demo_turn 20 "w1"%string); ev_answer 0 (answers_payout (Ok {| proof_reference := Some "tx"%string; confirmedAt := None |})) (demo_turn 25 "w2"%string);
    ev_restart 30]
  {| bw_proc := {| p_db := upd_withdrawals (fun _ => [fired_withdrawal keyed_row
       {| fr_status := completed; payoutReference := None; payoutValidUntil := None |} 5 None "w0"%string]) demo_funded; firingHere := ∅ |};
     bw_started := 0; bw_passes := []; handed := []; proved := []; landed := [] |}.

Example shared_key_blocks_the_loop :
  let out := runBatchWithdrawalTick demo_config (demo_turn 40 "w3"%string) demo_rails 30 (bw_proc keyed_world) in
  (pst <$> relay_pending_withdrawals (bw_db keyed_world)) = [q_firing] /\
  (exists e, out.1 = Throw e) /\ p_db out.2 = bw_db keyed_world.
Proof. split; [by vm_compute|]. split; [eexists; by vm_compute|by vm_compute]. Qed.
