(* ===== verification/ChainPayouts.v ===== *)
(** * Payouts decided by the chain ([services/relay/src/withdrawal-chain-payouts.ts],
      [budget.ts], [packages/wallet-solana/src/web3js-adapter.ts])

    A Solana payout is signed over the treasury's durable nonce, recorded before it is
    sent, and settled by finalized statuses only.  Here are the record's tables and
    statements, the adapter's signing and reading, the verdict, the kill, and the send
    and resolution paths of [budget.ts].  Each path is cut where it awaits: what runs
    in between is one call on a [payer], the database with the two sets of the process,
    and a path that awaits is a [pay_wait] value.  [wire] is what the process has handed
    to [sendRawTransaction], [py_log] the two log events that report a settlement. *)

From Stdlib Require Import String.
From S2P Require Import Prelude JsString LedgerTypes Driver SqlStore AccountStore Withdrawals StoreLaws Tables Freeze.
Local Open Scope list_scope.
Local Open Scope Z_scope.
Local Open Scope motebit_scope.

(** ** The adapter *)

Inductive attempt_kind := kind_payout | kind_kill.

Record DurableNonceLane := { lane_account : string; lane_nonceValue : string; observedSlot : option Z }.

(** [squatted]: the address, when nothing at it can become the treasury's. *)
Inductive NonceLaneState :=
| lane_ready (lane : DurableNonceLane)
| lane_unavailable (squatted : option string).

Record DurableTransactionRef := {
  tx_signature : string;
  tx_kind : attempt_kind;
  nonceAccount : string;
  nonceValue : string;
  nonceObservedSlot : option Z;
}.

(** A transaction over a nonce value: [nonceAdvance] first, then a transfer or nothing. *)
Inductive durable_tx :=
| tx_payout (account nonce to : string) (amount : Z)
| tx_kill (account nonce : string).

Definition dt_account (t : durable_tx) : string := match t with tx_payout a _ _ _ | tx_kill a _ => a end.
Definition dt_nonce (t : durable_tx) : string := match t with tx_payout _ n _ _ | tx_kill _ n => n end.
Definition dt_kind (t : durable_tx) : attempt_kind := match t with tx_payout _ _ _ _ => kind_payout | tx_kill _ _ => kind_kill end.

#[export] Instance attempt_kind_eq : EqDecision attempt_kind.
Proof. solve_decision. Defined.
#[export] Instance durable_tx_eq : EqDecision durable_tx.
Proof. solve_decision. Defined.

(** A status as the RPC reports it. *)
Record signature_status := { confirmationStatus : string; ss_err : bool; ss_slot : Z }.

Inductive unknown_reason := absent | not_finalized | rpc_error.
Inductive FinalizedSignatureStatus :=
| finalized (ok : bool) (slot : Z)
| status_unknown (reason : unknown_reason).

Definition status_of (s : signature_status) : FinalizedSignatureStatus :=
  if bool_decide (confirmationStatus s = "finalized"%string) then finalized (negb (ss_err s)) (ss_slot s)
  else status_unknown not_finalized.

(** [cache] and [history]: the two answers, the second asked for when the first is
    null; [Throw] is a call that failed or timed out. *)
Definition getFinalizedStatus (cache history : result unit (option signature_status)) : FinalizedSignatureStatus :=
  match cache with
  | Throw _ => status_unknown rpc_error
  | Ok (Some s) => status_of s
  | Ok None => match history with
               | Throw _ => status_unknown rpc_error
               | Ok (Some s) => status_of s
               | Ok None => status_unknown absent
               end
  end.

(** The nonce account as [getAccountInfoAndContext] reports it. *)
Record account_info := {
  ai_system_owned : bool;
  ai_length : Z;
  ai_initialized : bool;
  ai_authority : string;
  ai_nonce : string;
  ai_lamports : Z;
}.

Inductive lane_read := read_state (s : NonceLaneState) | read_absent | read_takeover (lamports dataLen : Z).

Definition NONCE_ACCOUNT_LENGTH : Z := 80.

(** [treasury]: the key's own address. *)
Definition readNonceLane (treasury address : string) (minContextSlot : option Z) (contextSlot : Z) (info : option account_info)
    : result unit lane_read :=
  if match minContextSlot with Some m => contextSlot <? m | None => false end then Throw tt else
  match info with
  | None => Ok read_absent
  | Some i =>
      let squatted := Ok (read_state (lane_unavailable (Some address))) in
      if negb (ai_system_owned i) then squatted
      else if ai_length i =? 0 then Ok (read_takeover (ai_lamports i) 0)
      else if negb (ai_length i =? NONCE_ACCOUNT_LENGTH) then squatted
      else if negb (ai_initialized i) then Ok (read_takeover (ai_lamports i) NONCE_ACCOUNT_LENGTH)
      else if negb (bool_decide (ai_authority i = treasury)) then squatted
      else Ok (read_state (lane_ready {| lane_account := address; lane_nonceValue := ai_nonce i; observedSlot := Some contextSlot |}))
  end.

Definition readNonceAccount (r : result unit lane_read) : NonceLaneState :=
  match r with
  | Ok (read_state s) => s
  | Ok read_absent | Ok (read_takeover _ _) | Throw _ => lane_unavailable None
  end.

(** [second] is the read after the account was created or taken over; it throws when
    that did. *)
Definition prepareNonceLane (first second : result unit lane_read) : NonceLaneState :=
  match first with
  | Ok (read_state s) => s
  | Throw _ => lane_unavailable None
  | Ok _ => readNonceAccount second
  end.

(** ** The record's tables *)

Record chain_claim := { cc_withdrawal_id : string; cc_chain : string; cc_claimed_at : Z }.

Record PayoutAttempt := {
  pa_withdrawal_id : string;
  pa_signature : string;
  pa_kind : attempt_kind;
  pa_nonce_account : option string;
  pa_nonce_value : option string;
  pa_nonce_observed_slot : option Z;
  pa_recorded_at : Z;
  pa_last_valid_block_height : option Z;
  pa_final_status : option bool;
  pa_final_slot : option Z;
}.

Record payout_queue_row := { pq_withdrawal_id : string; pq_queued_at : Z }.

Record payout_tables := {
  chain_claims : list chain_claim;
  payout_attempts : list PayoutAttempt;
  payout_queue : list payout_queue_row;
}.

Abbreviation payout_db := (prod relay_db payout_tables).

Definition upd_claims f (t : payout_tables) : payout_tables :=
  {| chain_claims := f (chain_claims t); payout_attempts := payout_attempts t; payout_queue := payout_queue t |}.
Definition upd_attempts f (t : payout_tables) : payout_tables :=
  {| chain_claims := chain_claims t; payout_attempts := f (payout_attempts t); payout_queue := payout_queue t |}.
Definition upd_queue f (t : payout_tables) : payout_tables :=
  {| chain_claims := chain_claims t; payout_attempts := payout_attempts t; payout_queue := f (payout_queue t) |}.

(** The relay's connection: its guards watch the account tables. *)
Definition PayoutDriver (frozen : bool) : DatabaseDriver payout_db ledger_error payout_db := {|
  run_sql := fun A f => stmt_fn (if frozen then fun d : payout_db =>
    match f d with
    | Ok (a, d') => if freeze_refuses d.1 d'.1 then Throw EmergencyFrozenError else Ok (a, d')
    | Throw e => Throw e
    end else f);
  run_transaction := fun A fn => all_or_nothing fn;
|}.

Section statements.
Context {W : Type} `{!DatabaseDriver payout_db ledger_error W}.
Abbreviation db_call := (call W ledger_error).

Definition on_table {A} (q : payout_tables -> result ledger_error (A * payout_tables)) : db_call A :=
  run_sql (fun d : payout_db => match q d.2 with Ok (a, t) => Ok (a, (d.1, t)) | Throw e => Throw e end).
Definition select_table {A} (q : payout_tables -> A) : db_call A := on_table (fun t => Ok (q t, t)).

Definition markChainRecordedClaim (withdrawalId chain : string) (claimedAt : Z) : db_call unit :=
  on_table (fun t =>
    match insert_row (fun a b => bool_decide (cc_withdrawal_id a = cc_withdrawal_id b))
            {| cc_withdrawal_id := withdrawalId; cc_chain := chain; cc_claimed_at := claimedAt |} (chain_claims t) with
    | Ok rows => Ok (tt, upd_claims (fun _ => rows) t)
    | Throw e => Throw e
    end).

Definition claimed_in (withdrawalId : string) (t : payout_tables) : bool :=
  existsb (fun c => bool_decide (cc_withdrawal_id c = withdrawalId)) (chain_claims t).
Definition isChainRecordedClaim (withdrawalId : string) : db_call bool := select_table (claimed_in withdrawalId).

(** The attempt's row: a payout or kill over a nonce. *)
Definition attempt_of (withdrawalId : string) (tx : DurableTransactionRef) (recordedAt : Z) : PayoutAttempt := {|
  pa_withdrawal_id := withdrawalId; pa_signature := tx_signature tx; pa_kind := tx_kind tx;
  pa_nonce_account := Some (nonceAccount tx); pa_nonce_value := Some (nonceValue tx);
  pa_nonce_observed_slot := nonceObservedSlot tx; pa_recorded_at := recordedAt; pa_last_valid_block_height := None;
  pa_final_status := None; pa_final_slot := None |}.

Definition same_attempt (withdrawalId signature : string) (a : PayoutAttempt) : bool :=
  bool_decide (pa_withdrawal_id a = withdrawalId) && bool_decide (pa_signature a = signature).

(** [ON CONFLICT (withdrawal_id, signature) DO NOTHING] *)
Definition recordDurableAttempt (withdrawalId : string) (tx : DurableTransactionRef) (recordedAt : Z) : db_call unit :=
  on_table (fun t => Ok (tt, upd_attempts (fun l =>
    if existsb (same_attempt withdrawalId (tx_signature tx)) l then l else l ++ [attempt_of withdrawalId tx recordedAt]) t)).

(** [ORDER BY recorded_at ASC, signature ASC] *)
Definition attempt_before (a b : PayoutAttempt) : bool :=
  (pa_recorded_at a <? pa_recorded_at b) ||
  ((pa_recorded_at a =? pa_recorded_at b) && str_geb (pa_signature b) (pa_signature a)).
Definition attempts_in (withdrawalId : string) (t : payout_tables) : list PayoutAttempt :=
  js_sort attempt_before (List.filter (fun a => bool_decide (pa_withdrawal_id a = withdrawalId)) (payout_attempts t)).
Definition getPayoutAttempts (withdrawalId : string) : db_call (list PayoutAttempt) := select_table (attempts_in withdrawalId).

Definition with_final (ok : bool) (slot : Z) (a : PayoutAttempt) : PayoutAttempt := {|
  pa_withdrawal_id := pa_withdrawal_id a; pa_signature := pa_signature a; pa_kind := pa_kind a;
  pa_nonce_account := pa_nonce_account a; pa_nonce_value := pa_nonce_value a;
  pa_nonce_observed_slot := pa_nonce_observed_slot a; pa_recorded_at := pa_recorded_at a;
  pa_last_valid_block_height := pa_last_valid_block_height a; pa_final_status := Some ok; pa_final_slot := Some slot |}.

(** Once: [AND final_status IS NULL]. *)
Definition recordFinal (withdrawalId signature : string) (ok : bool) (slot : Z) : db_call unit :=
  on_table (fun t => Ok (tt, upd_attempts (update_rows (fun a =>
    same_attempt withdrawalId signature a && bool_decide (pa_final_status a = None)) (with_final ok slot)) t)).

Definition over_nonce (account nonce : string) (a : PayoutAttempt) : bool :=
  bool_decide (pa_nonce_account a = Some account) && bool_decide (pa_nonce_value a = Some nonce).
Definition isNonceValueUsed (lane : DurableNonceLane) : db_call bool :=
  select_table (fun t => existsb (over_nonce (lane_account lane) (lane_nonceValue lane)) (payout_attempts t)).

Definition enqueuePayout (withdrawalId : string) (at_ : Z) : db_call unit :=
  on_table (fun t => Ok (tt, upd_queue (fun l =>
    if existsb (fun q => bool_decide (pq_withdrawal_id q = withdrawalId)) l then l
    else l ++ [{| pq_withdrawal_id := withdrawalId; pq_queued_at := at_ |}]) t)).
Definition dequeuePayout (withdrawalId : string) : db_call unit :=
  on_table (fun t => Ok (tt, upd_queue (List.filter (fun q => negb (bool_decide (pq_withdrawal_id q = withdrawalId)))) t)).
Definition queuedPayouts (limit : nat) : db_call (list string) :=
  select_table (fun t => take limit (pq_withdrawal_id <$> js_sort (fun a b => (pq_queued_at a <? pq_queued_at b) ||
    ((pq_queued_at a =? pq_queued_at b) && str_geb (pq_withdrawal_id b) (pq_withdrawal_id a))) (payout_queue t))).

Definition earlierNonceValues (account : string) (before : Z) : db_call (list string) :=
  select_table (fun t => omap pa_nonce_value (List.filter (fun a =>
    bool_decide (pa_nonce_account a = Some account) && (pa_recorded_at a <? before)) (payout_attempts t))).

(** [MAX] over the column: null when no row has a slot. *)
Definition laneReadFloor : db_call (option Z) :=
  select_table (fun t => match omap pa_nonce_observed_slot (payout_attempts t) with
                         | [] => None
                         | s :: l => Some (fold_left Z.max l s)
                         end).

(** The processing payouts a tick decides, oldest claim first. *)
Definition processing_payouts : db_call (list string) :=
  run_sql (fun d : payout_db => Ok (take 200 (withdrawal_id <$> js_sort (fun a b =>
      match claimed_at a, claimed_at b with
      | None, _ => true
      | Some x, Some y => x <=? y
      | Some _, None => false
      end)
    (List.filter (fun w => bool_decide (w_status w = processing) && claimed_in (withdrawal_id w) d.2)
       (wd <$> relay_withdrawals d.1))), d)).
End statements.

(** ** The verdict *)

Inductive not_paid_by := no_broadcast | payout_failed | killed.
Inductive ChainVerdict :=
| verdict_paid (signature : string) (slot : Z) (landed : list string)
| verdict_not_paid (attempts : nat) (by_ : not_paid_by)
| verdict_undecided (unreadable : bool) (signature : string) (killable : bool) (unfinalized : list string).

Definition is_payout (a : PayoutAttempt) : bool := bool_decide (pa_kind a = kind_payout).
Definition is_durable (a : PayoutAttempt) : bool :=
  bool_decide (is_Some (pa_nonce_value a)) && bool_decide (is_Some (pa_nonce_account a)).
Definition ends (st : bool) (a : PayoutAttempt) : bool := bool_decide (pa_final_status a = Some st).

Definition durable_payout (attempts : list PayoutAttempt) : option PayoutAttempt :=
  List.find is_durable (List.filter is_payout attempts).

(** What the finalized statuses of a non-empty list of attempts say. *)
Definition chain_verdict (attempts : list PayoutAttempt) (unfinalized : list string) (unreadable : bool) : ChainVerdict :=
  let payouts := List.filter is_payout attempts in
  let kills := List.filter (fun a => negb (is_payout a)) attempts in
  let undecided (first : option PayoutAttempt) (killable : bool) :=
    verdict_undecided unreadable (match first with Some a => pa_signature a | None => EmptyString end) killable unfinalized in
  match List.filter (ends true) payouts with
  | l :: rest => verdict_paid (pa_signature l) (default 0 (pa_final_slot l)) (pa_signature <$> l :: rest)
  | [] =>
      match durable_payout attempts with
      | Some durable =>
          if ends false durable then verdict_not_paid (length attempts) payout_failed
          else if existsb (fun k => bool_decide (is_Some (pa_final_status k)) &&
                                    bool_decide (pa_nonce_account k = pa_nonce_account durable) &&
                                    bool_decide (pa_nonce_value k = pa_nonce_value durable)) kills
          then verdict_not_paid (length attempts) killed
          else undecided (Some durable) true
      | None =>
          if negb (bool_decide (payouts = [])) && forallb (ends false) payouts
          then verdict_not_paid (length attempts) payout_failed
          else undecided (match payouts with p :: _ => Some p | [] => hd_error attempts end) false
      end
  end.

(** ** The paths of a payout *)

Inductive payer_log :=
| log_auto_settled (withdrawalId signature : string)
| log_refunded_from_chain (withdrawalId : string) (by_ : not_paid_by).

Record payer := {
  py_db : payout_db;
  payoutsInFlight : gset string;
  reservedNonces : gset string;
  wire : list durable_tx;
  py_log : list payer_log;
}.

(** Where a path awaits: the lane of a send; the adapter before it has signed; the RPC
    after; the statuses of a verdict, with those not read yet; the microtask that
    resumes with a verdict; the receipt's signature; the lane of a kill. *)
Inductive pay_wait :=
| at_lane (id : string) (w : WithdrawalRequest)
| at_send (id : string) (w : WithdrawalRequest) (lane : DurableNonceLane)
| at_broadcast (id : string) (lane : DurableNonceLane)
| at_reads (id : string) (inline : bool) (w : WithdrawalRequest) (attempts : list PayoutAttempt)
    (todo unfinalized : list string) (unreadable : bool)
| at_verdict (id : string) (inline : bool) (w : WithdrawalRequest) (v : ChainVerdict)
| at_sign (id : string) (inline : bool) (w : WithdrawalRequest) (signature : string) (completedAt : Z)
| at_kill (id : string) (payout : PayoutAttempt) (account nonce : string) (observed : Z).

Inductive pay_answer :=
| ans_lane (s : NonceLaneState)
| ans_send_throws
| ans_signed
| ans_read (signature : string) (s : FinalizedSignatureStatus)
| ans_receipt (signature publicKey : option string)
| ans_resume.

(** What a turn reads: the freeze, the clock, an id for a ledger row. *)
Record pay_turn := { pt_frozen : bool; pt_now : Z; pt_uuid : string }.

Definition PAYOUT_KILL_AFTER_MS : Z := 5 * 60 * 1000.

Section paths.
Context (sign : durable_tx -> string) (killAfterMs : Z) (i : pay_turn).
Abbreviation now := (pt_now i).
Abbreviation pay_call := (call payer ledger_error).
#[local] Instance payout_driver : DatabaseDriver payout_db ledger_error payout_db := PayoutDriver (pt_frozen i).
#[local] Instance payout_store : AccountStore payout_db := sqliteAccountStoreFor now (pt_uuid i).

Definition on_tables {A} (m : call payout_db ledger_error A) : pay_call A := fun p =>
  let '(r, d) := m (py_db p) in
  (r, {| py_db := d; payoutsInFlight := payoutsInFlight p; reservedNonces := reservedNonces p; wire := wire p; py_log := py_log p |}).
Definition reads {A} (q : payer -> A) : pay_call A := fun p => (Ok (q p), p).
Definition set_flight (f : gset string -> gset string) : pay_call unit := fun p =>
  (Ok tt, {| py_db := py_db p; payoutsInFlight := f (payoutsInFlight p); reservedNonces := reservedNonces p; wire := wire p; py_log := py_log p |}).
Definition set_reserved (f : gset string -> gset string) : pay_call unit := fun p =>
  (Ok tt, {| py_db := py_db p; payoutsInFlight := payoutsInFlight p; reservedNonces := f (reservedNonces p); wire := wire p; py_log := py_log p |}).
Definition logged (e : payer_log) : pay_call unit := fun p =>
  (Ok tt, {| py_db := py_db p; payoutsInFlight := payoutsInFlight p; reservedNonces := reservedNonces p; wire := wire p; py_log := py_log p ++ [e] |}).
Definition sendRawTransaction (t : durable_tx) : pay_call unit := fun p =>
  (Ok tt, {| py_db := py_db p; payoutsInFlight := payoutsInFlight p; reservedNonces := reservedNonces p; wire := wire p ++ [t]; py_log := py_log p |}).

Definition signDurable (lane : DurableNonceLane) (t : durable_tx) : DurableTransactionRef := {|
  tx_signature := sign t; tx_kind := dt_kind t; nonceAccount := lane_account lane; nonceValue := lane_nonceValue lane;
  nonceObservedSlot := observedSlot lane |}.

(** Recorded before it is sent; a hook that throws stops the send. *)
Definition broadcast (id : string) (lane : DurableNonceLane) (t : durable_tx) : pay_call unit :=
  on_tables (recordDurableAttempt id (signDurable lane t) now) ;! sendRawTransaction t.

(** A path ends when it throws or has nothing left to await. *)
Definition not_thrown (m : pay_call (option pay_wait)) : pay_call (option pay_wait) := call_catch m (fun _ => call_ret None).
Definition releasing (id : string) (m : pay_call (option pay_wait)) : pay_call (option pay_wait) := fun p =>
  match not_thrown m p with
  | (Ok (Some w), p1) => (Ok (Some w), p1)
  | (r, p1) => (r, (set_flight (fun s => s ∖ {[id]}) p1).2)
  end.
Definition closing_path (inline : bool) (id : string) (m : pay_call (option pay_wait)) : pay_call (option pay_wait) :=
  if inline then releasing id m else not_thrown m.

(** *** Deciding *)

Definition unread (attempts : list PayoutAttempt) : list string :=
  pa_signature <$> List.filter (fun a => bool_decide (pa_final_status a = None)) attempts.

Definition begin_verdict (id : string) (inline : bool) (w : WithdrawalRequest) : pay_call (option pay_wait) :=
  let! attempts := on_tables (getPayoutAttempts id) in
  match attempts with
  | [] => call_ret (Some (at_verdict id inline w (verdict_not_paid 0 no_broadcast)))
  | _ => match unread attempts with
         | [] => call_ret (Some (at_verdict id inline w (chain_verdict attempts [] false)))
         | todo => call_ret (Some (at_reads id inline w attempts todo [] false))
         end
  end.

Definition resolveWithdrawal (id : string) (inline : bool) : pay_call (option pay_wait) :=
  let! w := on_tables (getWithdrawalById id) in
  match w with
  | Some w =>
      if negb (bool_decide (w_status w = processing)) then call_ret None else
      let! recorded := on_tables (isChainRecordedClaim id) in
      if negb recorded then call_ret None else
      let! here := reads (fun p => bool_decide (id ∈ payoutsInFlight p)) in
      if negb inline && here then call_ret None else begin_verdict id inline w
  | None => call_ret None
  end.

(** A status is recorded when it is final, and the attempt at hand with it. *)
Definition status_read (id : string) (inline : bool) (w : WithdrawalRequest) (attempts : list PayoutAttempt)
    (todo unfinalized : list string) (unreadable : bool) (signature : string) (s : FinalizedSignatureStatus) : pay_call (option pay_wait) :=
  if negb (bool_decide (signature ∈ todo)) then call_ret (Some (at_reads id inline w attempts todo unfinalized unreadable)) else
  let todo := List.filter (fun s => negb (bool_decide (s = signature))) todo in
  let next attempts unfinalized unreadable :=
    match todo with
    | [] => call_ret (Some (at_verdict id inline w (chain_verdict attempts unfinalized unreadable)))
    | _ => call_ret (Some (at_reads id inline w attempts todo unfinalized unreadable))
    end in
  match s with
  | finalized ok slot =>
      on_tables (recordFinal id signature ok slot) ;!
      next (update_rows (fun a => bool_decide (pa_signature a = signature)) (with_final ok slot) attempts) unfinalized unreadable
  | status_unknown not_finalized => next attempts (unfinalized ++ [signature]) unreadable
  | status_unknown rpc_error => next attempts unfinalized true
  | status_unknown absent => next attempts unfinalized unreadable
  end.

Definition refund_reason (by_ : not_paid_by) : string :=
  match by_ with
  | no_broadcast => "no transaction of this payout was ever broadcast"
  | payout_failed => "the payout landed and failed on chain (finalized): no USDC moved"
  | killed => "the kill transaction consumed the payout's durable nonce (finalized): the payout can never land"
  end.

Definition completeFromChain (id signature : string) (completedAt_ : Z) (receipt publicKey : option string) : pay_call unit :=
  let! ok := on_tables (Withdrawals.completeWithdrawal {|
    cw_withdrawalId := id; cw_payoutReference := signature; cw_from := processing;
    relaySignature := receipt; relayPublicKey := publicKey; completedAt := completedAt_ |}) in
  if ok then logged (log_auto_settled id signature) else call_ret tt.

(** A refund the freeze refuses leaves the row [processing], its outcome noted. *)
Definition refundFromChain (id : string) (by_ : not_paid_by) : pay_call unit :=
  call_catch
    (let! ok := on_tables (Withdrawals.failWithdrawal id
        (String.append "solana payout not paid — " (String.append (refund_reason by_) "; amount returned to balance")) processing None) in
     if ok then logged (log_refunded_from_chain id by_) else call_ret tt)
    (fun err => if isEmergencyFrozenAbort err
      then on_tables (Withdrawals.noteWithdrawalPayoutUnresolved id
             (String.append "refund refused by emergency freeze: solana payout not paid — " (String.append (refund_reason by_)
               "; after the freeze lifts it is refunded from the same finalized facts (or reconcile as not_paid)"))) ;! call_ret tt
      else call_throw err).

(** *** Killing *)

Definition requestKill (id : string) : pay_call (option pay_wait) :=
  let! attempts := on_tables (getPayoutAttempts id) in
  match durable_payout attempts with
  | Some payout =>
      match pa_nonce_account payout, pa_nonce_value payout, pa_nonce_observed_slot payout with
      | Some account, Some nonce, Some observed => call_ret (Some (at_kill id payout account nonce observed))
      | _, _, _ => call_ret None
      end
  | None => call_ret None
  end.

Inductive kill_request := kill_sent | kill_consumed | kill_stale | kill_lane_unavailable.

(** What a read of the payout's own nonce account allows: the kill, when it still holds
    the payout's nonce; a read from before that nonce was seen proves nothing. *)
Definition kill_status (nonce : string) (observed : Z) (earlier : list string) (s : NonceLaneState) : kill_request :=
  match s with
  | lane_unavailable _ => kill_lane_unavailable
  | lane_ready lane =>
      match observedSlot lane with
      | Some slot =>
          if slot <? observed then kill_stale
          else if bool_decide (lane_nonceValue lane = nonce) then kill_sent
          else if bool_decide (lane_nonceValue lane ∈ earlier) then kill_stale else kill_consumed
      | None => kill_stale
      end
  end.

(** A [kill_consumed] is for the operator to settle: the loop only reports it. *)
Definition kill_lane_answered (id : string) (payout : PayoutAttempt) (account nonce : string) (observed : Z) (s : NonceLaneState)
    : pay_call (option pay_wait) :=
  let! earlier := on_tables (earlierNonceValues account (pa_recorded_at payout)) in
  match kill_status nonce observed earlier s with
  | kill_sent =>
      broadcast id {| lane_account := account; lane_nonceValue := nonce; observedSlot := Some observed |} (tx_kill account nonce) ;!
      call_ret None
  | kill_consumed | kill_stale | kill_lane_unavailable => call_ret None
  end.

Definition verdict_resumes (id : string) (inline : bool) (w : WithdrawalRequest) (v : ChainVerdict) : pay_call (option pay_wait) :=
  match v with
  | verdict_paid signature _ _ => call_ret (Some (at_sign id inline w signature now))
  | verdict_not_paid _ by_ => refundFromChain id by_ ;! call_ret None
  | verdict_undecided unreadable signature killable _ =>
      if inline then
        on_tables (Withdrawals.noteWithdrawalPayoutUnresolved id (String.append "payout " (String.append signature
          (String.append " not finalized yet (" (String.append (if unreadable then "rpc_error" else "pending")
            "); the relay decides it from finalized chain state — a finalized payout completes it, a finalized kill of its durable nonce refunds it (#990)")))))
        ;! call_ret None
      else
        let claimedAt := match claimed_at w with Some at_ => at_ | None => requested_at w end in
        if killable && (killAfterMs <=? now - claimedAt) then requestKill id else call_ret None
  end.

(** *** Sending *)

Definition firePathZero (id : string) : pay_call (option pay_wait) :=
  let! w := on_tables (getWithdrawalById id) in
  match w with
  | Some w => if bool_decide (w_status w = pending) then call_ret (Some (at_lane id w))
              else on_tables (dequeuePayout id) ;! call_ret None
  | None => on_tables (dequeuePayout id) ;! call_ret None
  end.

(** The claim, its marker and the queue's row in one transaction. *)
Definition claim_for_chain (id : string) : call payout_db ledger_error bool :=
  run_transaction (Db := payout_db) (
    let! ok := Withdrawals.claimWithdrawalForPayout id now None in
    (if ok then markChainRecordedClaim id "solana" now else call_ret tt) ;!
    dequeuePayout id ;!
    call_ret ok).

Definition lane_answered (id : string) (w : WithdrawalRequest) (s : NonceLaneState) : pay_call (option pay_wait) :=
  match s with
  | lane_unavailable _ => on_tables (enqueuePayout id now) ;! call_ret None
  | lane_ready lane =>
      let! reserved := reads (fun p => bool_decide (lane_nonceValue lane ∈ reservedNonces p)) in
      let! used := if reserved then call_ret true else on_tables (isNonceValueUsed lane) in
      if used then on_tables (enqueuePayout id now) ;! call_ret None else
      let! won := call_catch (on_tables (claim_for_chain id))
        (fun err => if isEmergencyFrozenAbort err then call_ret false else call_throw err) in
      if negb won then call_ret None else
      set_reserved (fun s => s ∪ {[lane_nonceValue lane]}) ;!
      set_flight (fun s => s ∪ {[id]}) ;!
      call_ret (Some (at_send id w lane))
  end.

(** After [sendPayout], whether it returned or threw. *)
Definition send_over (id : string) (lane : DurableNonceLane) : pay_call (option pay_wait) :=
  set_reserved (fun s => s ∖ {[lane_nonceValue lane]}) ;! releasing id (resolveWithdrawal id true).

(** A hook that throws rejects the promise the send path awaits. *)
Definition sendUsdcDurable (id : string) (w : WithdrawalRequest) (lane : DurableNonceLane) : pay_call (option pay_wait) :=
  call_catch (broadcast id lane (tx_payout (lane_account lane) (lane_nonceValue lane) (destination w) (w_amount w)))
    (fun _ => call_ret tt) ;!
  call_ret (Some (at_broadcast id lane)).

(** A path goes on with what it awaited; an answer of another kind is not one. *)
Definition pay_resume (w : pay_wait) (a : pay_answer) : pay_call (option pay_wait) :=
  match w, a with
  | at_lane id r, ans_lane s => lane_answered id r s
  | at_send id r lane, ans_send_throws => send_over id lane
  | at_send id r lane, ans_signed => sendUsdcDurable id r lane
  | at_broadcast id lane, ans_resume => send_over id lane
  | at_reads id inline r attempts todo unfinalized unreadable, ans_read signature s =>
      closing_path inline id (status_read id inline r attempts todo unfinalized unreadable signature s)
  | at_verdict id inline r v, ans_resume => closing_path inline id (verdict_resumes id inline r v)
  | at_sign id inline r signature at_, ans_receipt receipt key =>
      closing_path inline id (completeFromChain id signature at_ receipt key ;! call_ret None)
  | at_kill id payout account nonce observed, ans_lane s => closing_path false id (kill_lane_answered id payout account nonce observed s)
  | _, _ => call_ret (Some w)
  end.

(** The loop's own start of a resolution. *)
Definition resolve_from_loop (id : string) : pay_call (option pay_wait) := not_thrown (resolveWithdrawal id false).
End paths.
