(* ===== verification/ChainLaws.v ===== *)
(** * What a turn of a payout does to the withdrawals

    A withdrawal is looked up by its id ([withdrawal_in]); a turn that settles one
    leaves the others as they are ([ledger_step]), and what each call answers says what
    became of its own. *)

From Stdlib Require Import String.
From S2P Require Import Prelude JsString LedgerTypes Driver SqlStore AccountStore Withdrawals StoreLaws Tables Freeze ChainPayouts.
Local Open Scope list_scope.
Local Open Scope Z_scope.
Local Open Scope motebit_scope.

Definition withdrawal_ids (d : relay_db) : list string := (fun r => withdrawal_id (wd r)) <$> relay_withdrawals d.
Definition withdrawal_in (id : string) (d : relay_db) : option WithdrawalRequest :=
  wd <$> List.find (fun r => bool_decide (withdrawal_id (wd r) = id)) (relay_withdrawals d).

(** What never changes of a withdrawal. *)
Definition same_payee (w w' : WithdrawalRequest) : Prop :=
  withdrawal_id w' = withdrawal_id w /\ destination w' = destination w /\ w_amount w' = w_amount w.
Definition is_closed (st : WithdrawalStatus) : Prop := st <> pending /\ st <> processing.

(** A withdrawal stays as it is, or a [processing] one is closed. *)
Definition row_settles (w w' : option WithdrawalRequest) : Prop :=
  match w, w' with
  | Some w, Some w' => same_payee w w' /\ (w_status w' = w_status w \/ (w_status w = processing /\ is_closed (w_status w')))
  | None, None => True
  | _, _ => False
  end.

Record ledger_step (id : string) (d d' : relay_db) : Prop := {
  ls_ids : withdrawal_ids d' = withdrawal_ids d;
  ls_other j : j <> id -> withdrawal_in j d' = withdrawal_in j d;
  ls_this : NoDup (withdrawal_ids d) -> row_settles (withdrawal_in id d) (withdrawal_in id d');
}.

Lemma row_settles_refl w : row_settles w w.
Proof. destruct w as [w|]; [|done]. split; [by split|by left]. Qed.

Lemma row_settles_trans w1 w2 w3 : row_settles w1 w2 -> row_settles w2 w3 -> row_settles w1 w3.
Proof.
  destruct w1 as [w1|], w2 as [w2|], w3 as [w3|]; try done. intros [(A1 & A2 & A3) HA] [(B1 & B2 & B3) HB].
  split; [by repeat split; congruence|].
  destruct HA as [HA|[HA1 HA2]], HB as [HB|[HB1 HB2]]; [left; congruence|right; split; [congruence|done]| |].
  - right. split; [done|]. by rewrite HB.
  - destruct HA2 as [_ HA2]. by rewrite HB1 in HA2.
Qed.

#[export] Instance ledger_step_preorder id : PreOrder (ledger_step id).
Proof.
  split.
  - intros d. split; [done|done|intros _; apply row_settles_refl].
  - intros d1 d2 d3 [A1 A2 A3] [B1 B2 B3]. split; [congruence| |].
    + intros j Hj. by rewrite B2, A2.
    + intros Hn. eapply row_settles_trans; [by apply A3|apply B3]. by rewrite A1.
Qed.

(** ** One statement *)

Lemma find_row_unique id (rows : list withdrawal_row) r : NoDup ((fun r => withdrawal_id (wd r)) <$> rows) -> r ∈ rows ->
  withdrawal_id (wd r) = id -> List.find (fun r => bool_decide (withdrawal_id (wd r) = id)) rows = Some r.
Proof.
  intros Hn Hr Hid. apply (find_unique (fun r => withdrawal_id (wd r))); [done|done| |by apply bool_decide_eq_true].
  intros y _ Hy%bool_decide_eq_true. congruence.
Qed.

Lemma withdrawal_found id d w : withdrawal_in id d = Some w ->
  exists r, r ∈ relay_withdrawals d /\ wd r = w /\ withdrawal_id w = id.
Proof.
  unfold withdrawal_in. destruct (List.find _ _) as [r|] eqn:E; [|done]. intros [= <-].
  apply find_some in E as [E1 E2%bool_decide_eq_true]. exists r. split; [by apply list_elem_of_In|done].
Qed.

(** [update_withdrawal id cond f] on the rows. *)
Definition updated (id : string) (cond : WithdrawalRequest -> bool) (f : WithdrawalRequest -> WithdrawalRequest) (d : relay_db) : relay_db :=
  upd_withdrawals (update_rows (fun r => bool_decide (withdrawal_id (wd r) = id) && cond (wd r))
    (fun r => {| wd := f (wd r); idempotency_key := idempotency_key r |})) d.

Section updated.
Context (id : string) (cond : WithdrawalRequest -> bool) (f : WithdrawalRequest -> WithdrawalRequest).
Hypothesis f_payee : forall w, same_payee w (f w).

Lemma updated_ids d : withdrawal_ids (updated id cond f d) = withdrawal_ids d.
Proof.
  unfold withdrawal_ids, updated. cbn. unfold update_rows. rewrite <- list_fmap_compose. apply list_fmap_ext.
  intros k r _. cbn. destruct (_ && _); [|done]. cbn. apply f_payee.
Qed.

Lemma updated_other j d : j <> id -> withdrawal_in j (updated id cond f d) = withdrawal_in j d.
Proof.
  intros Hj. unfold withdrawal_in, updated. cbn. unfold update_rows. induction (relay_withdrawals d) as [|r l IH]; [done|].
  rewrite fmap_cons. cbn. destruct (decide (withdrawal_id (wd r) = id)) as [Hr|Hr].
  - assert (withdrawal_id (wd (if bool_decide (withdrawal_id (wd r) = id) && cond (wd r)
      then {| wd := f (wd r); idempotency_key := idempotency_key r |} else r)) = id) as ->.
    { destruct (_ && _); [|done]. cbn. by destruct (f_payee (wd r)) as [-> _]. }
    rewrite !bool_decide_false by congruence. done.
  - rewrite (bool_decide_false (withdrawal_id (wd r) = id)) by done. cbn [andb]. by destruct (bool_decide (withdrawal_id (wd r) = j)).
Qed.

Lemma updated_in j d : NoDup (withdrawal_ids d) ->
  withdrawal_in j (updated id cond f d) =
  (if bool_decide (j = id) then (fun w => if cond w then f w else w) <$> withdrawal_in id d else withdrawal_in j d).
Proof.
  intros Hn. case_bool_decide as Hj; [subst j|by apply updated_other].
  revert Hn. unfold withdrawal_in, withdrawal_ids, updated. cbn. unfold update_rows.
  induction (relay_withdrawals d) as [|r l IH]; [done|]. rewrite !fmap_cons. intros [Hr Hn]%NoDup_cons. cbn.
  destruct (decide (withdrawal_id (wd r) = id)) as [Hri|Hri].
  - rewrite (bool_decide_true (withdrawal_id (wd r) = id)) by done. cbn. destruct (cond (wd r)); cbn.
    + destruct (f_payee (wd r)) as [E _]. rewrite bool_decide_true by congruence. done.
    + rewrite bool_decide_true by done. done.
  - rewrite !(bool_decide_false (withdrawal_id (wd r) = id)) by done. cbn. by apply IH.
Qed.

(** It changed a row: there was one to change. *)
Lemma updated_changes d : NoDup (withdrawal_ids d) ->
  (0 < changes (fun r => bool_decide (withdrawal_id (wd r) = id) && cond (wd r)) (relay_withdrawals d))%nat ->
  exists w, withdrawal_in id d = Some w /\ cond w = true.
Proof.
  intros Hn Hc. unfold changes in Hc. destruct (List.filter _ _) as [|r l] eqn:E; [cbn in Hc; lia|].
  assert (In r (r :: l)) as Hin by by left. rewrite <- E in Hin.
  apply filter_In in Hin as [Hr%list_elem_of_In [H1%bool_decide_eq_true H2]%andb_true_iff].
  exists (wd r). split; [|done]. unfold withdrawal_in. by rewrite (find_row_unique id _ r Hn Hr H1).
Qed.
End updated.

(** ** The calls *)

(** The withdrawals of both databases are the same, and so is the record. *)
Definition quiet_tables (p q : payout_db) : Prop := relay_withdrawals q.1 = relay_withdrawals p.1 /\ q.2 = p.2.
Definition table_step (id : string) (p q : payout_db) : Prop := ledger_step id p.1 q.1 /\ q.2 = p.2.

#[export] Instance quiet_tables_preorder : PreOrder quiet_tables.
Proof. split; [by intros p|]. intros p q r [A1 A2] [B1 B2]. split; congruence. Qed.
#[export] Instance table_step_preorder id : PreOrder (table_step id).
Proof. split; [by intros p|]. intros p q r [A1 A2] [B1 B2]. split; [by etrans|congruence]. Qed.

Lemma quiet_step id p q : quiet_tables p q -> table_step id p q.
Proof.
  intros [H1 H2]. split; [|done]. unfold withdrawal_ids, withdrawal_in in *. split.
  - unfold withdrawal_ids. by rewrite H1.
  - intros j _. unfold withdrawal_in. by rewrite H1.
  - intros _. unfold withdrawal_in. rewrite H1. apply row_settles_refl.
Qed.

Section calls.
Context (fr : bool) (now : Z) (uuid : string).
#[local] Instance guarded_payouts : DatabaseDriver payout_db ledger_error payout_db := PayoutDriver fr.
#[local] Instance guarded_store : AccountStore payout_db := sqliteAccountStoreFor now uuid.
Abbreviation quiet := (stays (E := ledger_error) quiet_tables).
Abbreviation steps id := (stays (E := ledger_error) (table_step id)).

Lemma guarded_run {A} (f : payout_db -> result ledger_error (A * payout_db)) p r p' :
  @run_sql _ _ _ guarded_payouts A f p = (r, p') ->
  match r with Ok a => f p = Ok (a, p') | Throw _ => p' = p end.
Proof.
  cbn. unfold stmt_fn. destruct fr.
  - destruct (f p) as [[a q]|e]; [|by intros [= <- <-]]. destruct (freeze_refuses p.1 q.1); by intros [= <- <-].
  - destruct (f p) as [[a q]|e]; by intros [= <- <-].
Qed.

Lemma account_run {A} (f : relay_db -> result ledger_error (A * relay_db)) p r p' :
  @run_sql relay_db ledger_error payout_db _ A f p = (r, p') ->
  match r with Ok a => f p.1 = Ok (a, p'.1) /\ p'.2 = p.2 | Throw _ => p' = p end.
Proof.
  intros H%guarded_run. destruct r as [a|e]; [|done]. destruct (f p.1) as [[b d]|e]; [|done].
  by injection H as <- <-.
Qed.

Lemma table_run {A} (q : payout_tables -> result ledger_error (A * payout_tables)) p r p' : on_table q p = (r, p') ->
  match r with Ok a => q p.2 = Ok (a, p'.2) /\ p'.1 = p.1 | Throw _ => p' = p end.
Proof.
  intros H%guarded_run. destruct r as [a|e]; [|done]. destruct (q p.2) as [[b t]|e]; [|done].
  by injection H as <- <-.
Qed.

Lemma select_table_run {A} (q : payout_tables -> A) p r p' : select_table q p = (r, p') ->
  p' = p /\ (forall a, r = Ok a -> a = q p.2).
Proof.
  intros H%table_run. destruct r as [a|e]; [|done]. destruct H as [[= <- H1] H2]. destruct p, p'; cbn in *; subst.
  split; [done|]. by intros a [= <-].
Qed.

Lemma row_run id p r p' : getWithdrawalById id p = (r, p') -> p' = p /\ (forall a, r = Ok a -> a = withdrawal_in id p.1).
Proof.
  intros H%account_run. destruct r as [a|e]; [|done]. destruct H as [[= <- H1] H2]. destruct p, p'; cbn in *; subst.
  split; [done|]. by intros a [= <-].
Qed.

Lemma transaction_run {A} (m : call payout_db ledger_error A) p r p' :
  @run_transaction relay_db ledger_error payout_db _ A m p = (r, p') ->
  match r with Ok a => m p = (Ok a, p') | Throw _ => p' = p end.
Proof. cbn. unfold all_or_nothing. destruct (m p) as [[a|e] q]; by intros [= <- <-]. Qed.

Lemma transaction_stays {A} R `{!PreOrder R} (m : call payout_db ledger_error A) : stays R m -> stays R (run_transaction (Db := relay_db) m).
Proof.
  intros H p. destruct (run_transaction (Db := relay_db) m p) as [r p'] eqn:E. apply transaction_run in E. destruct r as [a|e]; cbn.
  - specialize (H p). by rewrite E in H.
  - by subst p'.
Qed.

Lemma quiet_sql {A} (f : relay_db -> result ledger_error (A * relay_db)) :
  (forall d a d', f d = Ok (a, d') -> relay_withdrawals d' = relay_withdrawals d) -> quiet (run_sql f).
Proof.
  intros Hf p. destruct (run_sql f p) as [r p'] eqn:E. apply account_run in E. destruct r as [a|e]; cbn; [|by subst p'].
  destruct E as [E1 E2]. split; [by eapply Hf|done].
Qed.

Lemma quiet_select {A} (q : relay_db -> A) : quiet (select q).
Proof. apply quiet_sql. by intros d a d' [= _ <-]. Qed.

Lemma quiet_credit id a ty ref desc stamp : quiet (credit id a ty ref desc stamp uuid now).
Proof.
  unfold credit, check. destruct (assertMicroUnits a) as [z|e]; [|apply stays_throw; exact _].
  apply transaction_stays; [exact _|]. apply stays_bind; [exact _| |intros _].
  { apply stays_bind; [exact _|apply quiet_select|]. intros [row|]; [apply stays_ret; exact _|].
    apply stays_bind; [exact _|apply quiet_sql|intros; apply stays_ret; exact _].
    intros d b d'. destruct (insert_row _ _ _); by intros [= _ <-]. }
  apply stays_bind; [exact _|apply quiet_sql; by intros d b d' [= _ <-]|intros _].
  apply stays_bind; [exact _|apply quiet_select|intros b].
  apply stays_bind; [exact _|apply quiet_sql|intros; apply stays_ret; exact _].
  intros d c d'. destruct (insert_row _ _ _); by intros [= _ <-].
Qed.

(** *** Updates of one withdrawal *)

Lemma update_run id cond f p r p' : update_withdrawal id cond f p = (r, p') ->
  match r with
  | Ok b => p' = (updated id cond f p.1, p.2) /\
      b = bool_decide (0 < changes (fun r => bool_decide (withdrawal_id (wd r) = id) && cond (wd r)) (relay_withdrawals p.1))%nat
  | Throw _ => p' = p
  end.
Proof.
  intros H%account_run. destruct r as [b|e]; [|done]. destruct H as [[= E1 E2] E3]. split; [|done].
  destruct p'. cbn in *. by subst.
Qed.

Lemma update_steps id cond f : (forall w, same_payee w (f w)) ->
  (forall w, cond w = true -> w_status (f w) = w_status w \/ (w_status w = processing /\ is_closed (w_status (f w)))) ->
  steps id (update_withdrawal id cond f).
Proof.
  intros Hp Hc p. destruct (update_withdrawal id cond f p) as [r p'] eqn:E. apply update_run in E.
  destruct r as [b|e]; cbn; [|by subst p']. destruct E as [-> _]. split; [|done]. cbn. split.
  - by apply updated_ids.
  - intros j Hj. by apply updated_other.
  - intros Hn. rewrite updated_in, bool_decide_true by done. destruct (withdrawal_in id p.1) as [w|]; cbn; [|done].
    destruct (cond w) eqn:Ec; [split; [done|by apply Hc]|exact (row_settles_refl (Some w))].
Qed.

Lemma note_steps id note : steps id (Withdrawals.noteWithdrawalPayoutUnresolved id note).
Proof. apply update_steps; [by repeat split|by left]. Qed.

Lemma completion_steps id ref at_ : steps id (SqlStore.setWithdrawalCompletion id ref at_ processing).
Proof. apply update_steps; [by repeat split|]. intros w H%bool_decide_eq_true. right. by split. Qed.

Lemma signature_steps id sig pk : steps id (SqlStore.setWithdrawalSignature id sig pk).
Proof.
  apply stays_bind; [exact _| |intros; apply stays_ret; exact _]. apply update_steps; [by repeat split|by left].
Qed.

Lemma complete_steps args : cw_from args = processing -> steps (cw_withdrawalId args) (Withdrawals.completeWithdrawal args).
Proof.
  intros Hfrom. unfold completeWithdrawal. rewrite Hfrom. apply stays_bind; [exact _|exact (completion_steps _ _ _)|].
  intros ok. destruct (negb ok); [apply stays_ret; exact _|].
  destruct (truthy (relaySignature args)), (truthy (relayPublicKey args)); try (apply stays_ret; exact _).
  apply stays_bind; [exact _|exact (signature_steps _ _ _)|intros; apply stays_ret; exact _].
Qed.

Lemma quiet_steps {A} id (m : call payout_db ledger_error A) : quiet m -> steps id m.
Proof. intros H p. apply quiet_step, H. Qed.

Lemma refund_steps id reason at_ : steps id (SqlStore.failWithdrawalAndRefund id reason processing at_ uuid now).
Proof.
  apply transaction_stays; [exact _|]. apply stays_bind; [exact _| |].
  - apply update_steps; [by repeat split|]. intros w H%bool_decide_eq_true. right. by split.
  - intros changed. destruct (negb changed); [apply stays_ret; exact _|].
    apply stays_bind; [exact _|apply quiet_steps, quiet_select|]. intros [w|]; [|apply stays_throw; exact _].
    apply stays_bind; [exact _|apply quiet_steps, quiet_credit|intros; apply stays_ret; exact _].
Qed.

Lemma fail_steps id reason : steps id (Withdrawals.failWithdrawal id reason processing None).
Proof.
  unfold failWithdrawal. apply stays_bind; [exact _|exact (refund_steps _ _ _)|]. intros [?|]; apply stays_ret; exact _.
Qed.

(** *** Answers *)

Definition was_settled (id : string) (p p' : payout_db) : Prop := exists w w',
  withdrawal_in id p.1 = Some w /\ w_status w = processing /\ withdrawal_in id p'.1 = Some w' /\ is_closed (w_status w').

Lemma settled_answer id f p p' : NoDup (withdrawal_ids p.1) -> (forall w, same_payee w (f w)) -> (forall w, is_closed (w_status (f w))) ->
  update_withdrawal id (fun w => bool_decide (w_status w = processing)) f p = (Ok true, p') -> was_settled id p p'.
Proof.
  intros Hn Hp Hc H%update_run. destruct H as [-> Hb]. symmetry in Hb. apply bool_decide_eq_true in Hb.
  destruct (updated_changes id (fun w => bool_decide (w_status w = processing)) p.1 Hn Hb) as (w & Hw & Hst). exists w, (f w). apply bool_decide_eq_true in Hst as Hst'.
  split; [done|]. split; [done|]. split; [|done]. cbn [fst]. rewrite (updated_in _ _ _ Hp), bool_decide_true, Hw by done. cbn. by rewrite Hst.
Qed.

(** A step after that leaves it so. *)
Lemma settled_then id p q p' : NoDup (withdrawal_ids p.1) -> table_step id p q -> was_settled id p q -> table_step id q p' -> was_settled id p p'.
Proof.
  intros Hn [[Hid _ _] _] (w & w' & H1 & H2 & H3 & H4) [[_ _ Hs] _]. rewrite Hid in Hs. specialize (Hs Hn). rewrite H3 in Hs.
  destruct (withdrawal_in id p'.1) as [w2|] eqn:E; [|done]. exists w, w2. repeat split; try done.
  - destruct Hs as [_ [->|[Hst _]]]; [by apply H4|]. destruct H4 as [_ H4]. by rewrite Hst in H4.
  - destruct Hs as [_ [->|[Hst _]]]; [by apply H4|]. destruct H4 as [_ H4]. by rewrite Hst in H4.
Qed.

Lemma complete_answer args p p' : cw_from args = processing -> NoDup (withdrawal_ids p.1) ->
  Withdrawals.completeWithdrawal args p = (Ok true, p') -> was_settled (cw_withdrawalId args) p p'.
Proof.
  intros Hfrom Hn. unfold completeWithdrawal. rewrite Hfrom. intros (ok & q & H1 & H2)%call_bind_ok.
  destruct ok; [|by injection H2].
  assert (was_settled (cw_withdrawalId args) p q) as Hset by (eapply settled_answer; [done| | |exact H1]; by repeat split).
  assert (table_step (cw_withdrawalId args) p q) as Hpq.
  { pose proof (completion_steps (cw_withdrawalId args) (cw_payoutReference args) (completedAt args) p) as H.
    assert (SqlStore.setWithdrawalCompletion (cw_withdrawalId args) (cw_payoutReference args) (completedAt args) processing p = (Ok true, q)) as E
      by exact H1. by rewrite E in H. }
  assert (q = p' \/ table_step (cw_withdrawalId args) q p') as [<-|Hqp]; [|done|by eapply settled_then].
  cbn [negb] in H2. destruct (truthy (relaySignature args)) as [sig|]; [|by injection H2; left].
  destruct (truthy (relayPublicKey args)) as [pk|]; [|by injection H2; left].
  apply call_bind_ok in H2 as (x & q1 & H2 & [= ->]). right.
  pose proof (signature_steps (cw_withdrawalId args) sig pk q) as H.
  assert (SqlStore.setWithdrawalSignature (cw_withdrawalId args) sig pk q = (Ok x, p')) as E by exact H2. by rewrite E in H.
Qed.

Lemma fail_answer id reason p p' : NoDup (withdrawal_ids p.1) ->
  Withdrawals.failWithdrawal id reason processing None p = (Ok true, p') -> was_settled id p p'.
Proof.
  intros Hn. unfold failWithdrawal. intros ([x|] & q & H1 & H2)%call_bind_ok; [|by injection H2]. injection H2 as ->.
  assert (SqlStore.failWithdrawalAndRefund id reason processing now uuid now p = (Ok (Some x), p')) as E by exact H1. clear H1.
  unfold SqlStore.failWithdrawalAndRefund, check in E. cbn [openStatus] in E. apply transaction_run in E.
  apply call_bind_ok in E as (changed & q & H1 & H2). destruct changed; [|by injection H2].
  assert (was_settled id p q) as Hset by (eapply settled_answer; [done| | |exact H1]; by repeat split).
  cbn [negb] in H2. apply call_bind_ok in H2 as (w & q1 & H2 & H3).
  assert (quiet_tables q q1) as Hq1 by (pose proof (quiet_select (fun d => wd <$> List.find (fun r => bool_decide (withdrawal_id (wd r) = id)) (relay_withdrawals d)) q) as H;
    assert (SqlStore.getWithdrawalById id q = (Ok w, q1)) as E by exact H2; by unfold SqlStore.getWithdrawalById in E; rewrite E in H).
  destruct w as [w|]; [|done]. apply call_bind_ok in H3 as (b & q2 & H3 & [= _ ->]).
  assert (quiet_tables q1 p') as Hq2 by (match type of H3 with ?m q1 = _ => assert (quiet_tables q1 (m q1).2) as H by apply quiet_credit; by rewrite H3 in H end).
  destruct Hset as (w1 & w2 & A1 & A2 & A3 & A4). exists w1, w2. repeat split; try done; try apply A4.
  unfold withdrawal_in in *. destruct Hq1 as [Hq1 _], Hq2 as [Hq2 _]. by rewrite Hq2, Hq1.
Qed.

(** *** The claim *)

Lemma queue_run id p r p' : dequeuePayout id p = (r, p') ->
  p'.1 = p.1 /\ chain_claims p'.2 = chain_claims p.2 /\ payout_attempts p'.2 = payout_attempts p.2.
Proof.
  intros H%table_run. destruct r; [|by subst p']. destruct p', H as [[= _ E] E1]. cbn in *. by subst.
Qed.

Lemma enqueue_run id at_ p r p' : enqueuePayout id at_ p = (r, p') ->
  p'.1 = p.1 /\ chain_claims p'.2 = chain_claims p.2 /\ payout_attempts p'.2 = payout_attempts p.2.
Proof.
  intros H%table_run. destruct r; [|by subst p']. destruct p', H as [[= _ E] E1]. cbn in *. by subst.
Qed.

Lemma mark_run id chain at_ p r p' : markChainRecordedClaim id chain at_ p = (r, p') ->
  match r with
  | Ok _ => p'.1 = p.1 /\ (id ∉ cc_withdrawal_id <$> chain_claims p.2) /\ payout_attempts p'.2 = payout_attempts p.2 /\
            cc_withdrawal_id <$> chain_claims p'.2 = (cc_withdrawal_id <$> chain_claims p.2) ++ [id]
  | Throw _ => p' = p
  end.
Proof.
  intros H%table_run. destruct r as [[]|e]; [|done]. destruct H as [H ->]. unfold insert_row in H.
  destruct (existsb _ _) eqn:E; [done|]. injection H as <-. cbn. split; [done|]. split; [|by rewrite fmap_app].
  intros (c & Hc1 & Hc2)%list_elem_of_fmap. apply not_true_iff_false in E. apply E, existsb_exists. exists c.
  split; [by apply list_elem_of_In|]. by apply bool_decide_eq_true.
Qed.
End calls.

Lemma claim_run i id p r p' : NoDup (withdrawal_ids p.1) -> claim_for_chain i id p = (r, p') ->
  match r with
  | Ok true => (exists w, withdrawal_in id p.1 = Some w /\ w_status w = pending) /\
      p'.1 = updated id (fun w => bool_decide (w_status w = pending)) (with_claim (pt_now i) None) p.1 /\
      (id ∉ cc_withdrawal_id <$> chain_claims p.2) /\ payout_attempts p'.2 = payout_attempts p.2 /\
      cc_withdrawal_id <$> chain_claims p'.2 = (cc_withdrawal_id <$> chain_claims p.2) ++ [id]
  | Ok false => (forall j, withdrawal_in j p'.1 = withdrawal_in j p.1) /\ withdrawal_ids p'.1 = withdrawal_ids p.1 /\
      chain_claims p'.2 = chain_claims p.2 /\ payout_attempts p'.2 = payout_attempts p.2
  | Throw _ => p' = p
  end.
Proof.
  intros Hn H. unfold claim_for_chain in H. apply (transaction_run (pt_frozen i)) in H. destruct r as [won|e]; [|done].
  apply call_bind_ok in H as (ok & q & H1 & (x & q1 & H2 & (y & q2 & H3 & [= <- <-])%call_bind_ok)%call_bind_ok).
  pose proof (update_run (pt_frozen i) id (fun w => bool_decide (w_status w = pending)) (with_claim (pt_now i) None) p (Ok ok) q H1) as [-> Hok].
  assert (forall w, same_payee w (with_claim (pt_now i) None w)) as Hp by by repeat split.
  apply (queue_run (pt_frozen i)) in H3 as (E1 & E2 & E3). rewrite E1, E2, E3. symmetry in Hok. destruct ok.
  - apply bool_decide_eq_true in Hok. apply (mark_run (pt_frozen i)) in H2 as (M1 & M2 & M3 & M4).
    rewrite M1, M3, M4. split; [|done].
    destruct (updated_changes id (fun w => bool_decide (w_status w = pending)) p.1 Hn Hok) as (w & Hw & Hst%bool_decide_eq_true). by exists w.
  - injection H2 as _ <-. cbn [fst snd]. split; [|split; [by apply updated_ids|done]].
    apply bool_decide_eq_false in Hok. intros j. rewrite (updated_in _ _ _ Hp) by done. case_bool_decide as Hj; [subst j|done].
    destruct (withdrawal_in id p.1) as [w|] eqn:Ew; [|done]. cbn. case_bool_decide as Hst; [|done].
    exfalso. apply Hok. apply withdrawal_found in Ew as (r & Hr & <- & Hid).
    unfold changes. assert (In r (List.filter (fun r => bool_decide (withdrawal_id (wd r) = id) && bool_decide (w_status (wd r) = pending))
      (relay_withdrawals p.1))) as Hin.
    { apply filter_In. split; [by apply list_elem_of_In|]. by rewrite !bool_decide_true. }
    destruct (List.filter _ _); [done|cbn; lia].
Qed.
