(* ===== verification/ChainSystem.v ===== *)
(** * Payouts and the chain as a system

    The paths of one relay process, its restarts, the freeze, other modules' writes and
    the chain: a world and its events.  The chain lands a transaction that was handed to
    it, and of those over one nonce value at most one; a status read as [finalized] is
    what landed.  Nothing is assumed of any other answer.  A withdrawal the relay
    refunds has no payout that landed or ever will, one it completes has, and no two
    withdrawals share a payout. *)

From Stdlib Require Import String.
From stdpp Require Import pretty.
From S2P Require Import Prelude JsString LedgerTypes Driver SqlStore AccountStore Withdrawals StoreLaws Tables Freeze ChainPayouts ChainLaws.
Local Open Scope list_scope.
Local Open Scope Z_scope.
Local Open Scope motebit_scope.

(** ** The world *)

Record chain_world := {
  cw_payer : payer;
  cw_waits : list pay_wait;
  cw_landed : list (durable_tx * bool);
}.

Abbreviation cw_db w := (py_db (cw_payer w)).

Inductive pay_event :=
| pe_fire (id : string) (i : pay_turn)
| pe_resolve (id : string) (i : pay_turn)
| pe_answer (n : nat) (a : pay_answer) (i : pay_turn)
| pe_restart
| pe_land (t : durable_tx) (ok : bool)
| pe_other (d : payout_db).

Definition with_payer_db (d : payout_db) (p : payer) : payer := {|
  py_db := d; payoutsInFlight := payoutsInFlight p; reservedNonces := reservedNonces p; wire := wire p; py_log := py_log p |}.

Definition restarted (p : payer) : payer := {|
  py_db := py_db p; payoutsInFlight := ∅; reservedNonces := ∅; wire := wire p; py_log := py_log p |}.

(** What awaits after a turn. *)
Definition new_wait {E} (r : result E (option pay_wait)) : list pay_wait :=
  match r with Ok (Some w) => [w] | _ => [] end.

Section step.
Context (sign : durable_tx -> string) (killAfterMs : Z).

Definition after_path (w : chain_world) (rest : list pay_wait) (out : result ledger_error (option pay_wait) * payer) : chain_world :=
  {| cw_payer := out.2; cw_waits := rest ++ new_wait out.1; cw_landed := cw_landed w |}.

Definition pay_step (w : chain_world) (e : pay_event) : chain_world :=
  match e with
  | pe_fire id i => after_path w (cw_waits w) (firePathZero i id (cw_payer w))
  | pe_resolve id i => after_path w (cw_waits w) (resolve_from_loop i id (cw_payer w))
  | pe_answer n a i =>
      match cw_waits w !! n with
      | Some x => after_path w (delete n (cw_waits w)) (pay_resume sign killAfterMs i x a (cw_payer w))
      | None => w
      end
  | pe_restart => {| cw_payer := restarted (cw_payer w); cw_waits := []; cw_landed := cw_landed w |}
  | pe_land t ok => {| cw_payer := cw_payer w; cw_waits := cw_waits w; cw_landed := cw_landed w ++ [(t, ok)] |}
  | pe_other d => {| cw_payer := with_payer_db d (cw_payer w); cw_waits := cw_waits w; cw_landed := cw_landed w |}
  end.

(** The lane of a transaction: what at most one landing consumes. *)
Definition dt_lane (t : durable_tx) : string * string := (dt_account t, dt_nonce t).

Definition claim_ids (d : payout_db) : list string := cc_withdrawal_id <$> chain_claims d.2.

(** Other modules' writes: not the record; no withdrawal is removed or given another
    payee or amount, and one claimed for the chain is at most settled. *)
Record other_payout_writes (d d' : payout_db) : Prop := {
  op_record : d'.2 = d.2;
  op_ids : NoDup (withdrawal_ids d'.1);
  op_rows id r : withdrawal_in id d.1 = Some r -> exists r', withdrawal_in id d'.1 = Some r' /\ same_payee r r';
  op_claimed id : id ∈ claim_ids d -> row_settles (withdrawal_in id d.1) (withdrawal_in id d'.1);
}.

(** The chain lands what it was handed, one transaction per nonce value; a final
    status is a landing. *)
Definition pay_allowed (w : chain_world) (e : pay_event) : Prop :=
  match e with
  | pe_land t ok => t ∈ wire (cw_payer w) /\ forall t' ok', (t', ok') ∈ cw_landed w -> dt_lane t' <> dt_lane t
  | pe_answer _ (ans_read signature (finalized ok _)) _ => exists t, sign t = signature /\ (t, ok) ∈ cw_landed w
  | pe_other d => other_payout_writes (cw_db w) d
  | _ => True
  end.

(** From a database whose record is empty. *)
Inductive pay_reachable : chain_world -> Prop :=
| pay_start d q : NoDup (withdrawal_ids d) -> pay_reachable {|
    cw_payer := {| py_db := (d, {| chain_claims := []; payout_attempts := []; payout_queue := q |});
                   payoutsInFlight := ∅; reservedNonces := ∅; wire := []; py_log := [] |};
    cw_waits := []; cw_landed := [] |}
| pay_next w e : pay_reachable w -> pay_allowed w e -> pay_reachable (pay_step w e).

(** A payout of [id] that the relay's own record holds. *)
Definition payout_recorded (d : payout_db) (id : string) (t : durable_tx) : Prop :=
  dt_kind t = kind_payout /\ exists a, a ∈ payout_attempts d.2 /\ pa_withdrawal_id a = id /\ pa_signature a = sign t.

(** ** The invariant *)

(** [G]: every transaction signed so far and recorded, with its withdrawal. *)
Definition attempt_for (a : PayoutAttempt) (g : string * durable_tx) : Prop :=
  pa_withdrawal_id a = g.1 /\ pa_signature a = sign g.2 /\ pa_kind a = dt_kind g.2 /\
  pa_nonce_account a = Some (dt_account g.2) /\ pa_nonce_value a = Some (dt_nonce g.2).

Definition pays (g : string * durable_tx) : bool := bool_decide (dt_kind g.2 = kind_payout).
Definition payouts (G : list (string * durable_tx)) : list (string * durable_tx) := List.filter pays G.

Implicit Types (G : list (string * durable_tx)) (L : list (durable_tx * bool)) (p : payer) (ws : list pay_wait).

Definition not_sending (id : string) ws : Prop := forall r lane, at_send id r lane ∉ ws.

Definition landed_payout G L (id signature : string) : Prop := exists t,
  (id, t) ∈ payouts G /\ sign t = signature /\ (t, true) ∈ L.

(** No payout of [id] can land: its nonce is gone, and not by paying. *)
Definition never_pays G L (id : string) : Prop := forall t, (id, t) ∈ payouts G -> exists t' ok,
  (t', ok) ∈ L /\ dt_lane t' = dt_lane t /\ (t', ok) <> (t, true).

Definition closed_in (id : string) (d : relay_db) : Prop := exists r, withdrawal_in id d = Some r /\ is_closed (w_status r).

Definition log_id (e : payer_log) : string := match e with log_auto_settled id _ | log_refunded_from_chain id _ => id end.
Definition log_ok G L (e : payer_log) : Prop :=
  match e with
  | log_auto_settled id signature => landed_payout G L id signature
  | log_refunded_from_chain id _ => never_pays G L id
  end.

Record core G L p : Prop := {
  co_ids : NoDup (withdrawal_ids (py_db p).1);
  co_claims : NoDup (claim_ids (py_db p));
  co_row id : id ∈ claim_ids (py_db p) -> exists r, withdrawal_in id (py_db p).1 = Some r /\ w_status r <> pending;
  co_attempts : Forall2 attempt_for (payout_attempts (py_db p).2) G;
  co_final a ok : a ∈ payout_attempts (py_db p).2 -> pa_final_status a = Some ok -> exists t, sign t = pa_signature a /\ (t, ok) ∈ L;
  co_signed g : g ∈ G -> g.1 ∈ claim_ids (py_db p);
  co_payout id a n to amt : (id, tx_payout a n to amt) ∈ G -> exists r, withdrawal_in id (py_db p).1 = Some r /\ to = destination r /\ amt = w_amount r;
  co_payout_ids : NoDup ((payouts G).*1);
  co_payout_lanes : NoDup (dt_lane ∘ snd <$> payouts G);
  co_kill id a n : (id, tx_kill a n) ∈ G -> exists to amt, (id, tx_payout a n to amt) ∈ G;
  co_wire t : t ∈ wire p -> t ∈ G.*2;
  co_landed t ok : (t, ok) ∈ L -> t ∈ wire p;
  co_landed_once t ok t' ok' : (t, ok) ∈ L -> (t', ok') ∈ L -> dt_lane t = dt_lane t' -> (t, ok) = (t', ok');
  co_log_once : NoDup (log_id <$> py_log p);
  co_log e : e ∈ py_log p -> log_ok G L e;
  co_log_closed e : e ∈ py_log p -> log_id e ∈ claim_ids (py_db p) /\ closed_in (log_id e) (py_db p).1;
}.

(** A copy of the attempts of [id]: none of its payouts is missing, and what is final
    in it is so on the chain. *)
Definition snapshot G L (id : string) (l : list PayoutAttempt) : Prop :=
  (forall a, a ∈ l -> exists t, (id, t) ∈ G /\ attempt_for a (id, t) /\ forall ok, pa_final_status a = Some ok -> (t, ok) ∈ L) /\
  (forall t, (id, t) ∈ payouts G -> exists a, a ∈ l /\ attempt_for a (id, t)).

Definition verdict_ok G L (id : string) (v : ChainVerdict) : Prop :=
  match v with
  | verdict_paid signature _ _ => landed_payout G L id signature
  | verdict_not_paid _ _ => never_pays G L id
  | verdict_undecided _ _ _ _ => True
  end.

(** The paths that hold a payout in flight, and a nonce. *)
Definition owner (w : pay_wait) : option string :=
  match w with
  | at_send id _ _ | at_broadcast id _ | at_reads id true _ _ _ _ _ | at_verdict id true _ _ | at_sign id true _ _ _ => Some id
  | _ => None
  end.
Definition holder (w : pay_wait) : option string :=
  match w with at_send _ _ lane | at_broadcast _ lane => Some (lane_nonceValue lane) | _ => None end.

(** [settles]: a path that can only decide, of a withdrawal claimed and not being sent. *)
Definition deciding (w : pay_wait) : option string :=
  match w with at_reads id _ _ _ _ _ _ | at_verdict id _ _ _ | at_sign id _ _ _ _ => Some id | _ => None end.

Definition wait_ok G L (d : payout_db) (w : pay_wait) : Prop :=
  match w with
  | at_lane id r => exists r', withdrawal_in id d.1 = Some r' /\ same_payee r r'
  | at_send id r lane => (exists r', withdrawal_in id d.1 = Some r' /\ same_payee r r') /\
      (id ∉ G.*1) /\ ((lane_account lane, lane_nonceValue lane) ∉ dt_lane ∘ snd <$> G)
  | at_broadcast _ _ => True
  | at_reads id _ _ l _ _ _ => snapshot G L id l
  | at_verdict id _ _ v => verdict_ok G L id v
  | at_sign id _ _ signature _ => landed_payout G L id signature
  | at_kill id _ a n _ => exists to amt, (id, tx_payout a n to amt) ∈ G
  end.

Record paths_ok G L p ws : Prop := {
  pk_wait w : w ∈ ws -> wait_ok G L (py_db p) w;
  pk_owners : NoDup (omap owner ws);
  pk_owned id : id ∈ omap owner ws -> id ∈ claim_ids (py_db p) /\ id ∈ payoutsInFlight p;
  pk_holders : NoDup (omap holder ws);
  pk_held n : n ∈ omap holder ws -> n ∈ reservedNonces p;
  pk_deciding w id : w ∈ ws -> deciding w = Some id -> id ∈ claim_ids (py_db p) /\ not_sending id ws;
}.

(** Tables and paths together; what was refunded is not being sent. *)
Record state_ok G L p ws : Prop := {
  so_core : core G L p;
  so_paths : paths_ok G L p ws;
  so_refunded id by_ : log_refunded_from_chain id by_ ∈ py_log p -> not_sending id ws;
}.

(** ** What keeps the invariant of the tables *)

Hypothesis sign_inj : forall t t', sign t = sign t' -> t = t'.

Lemma core_frame G L p p' : py_db p' = py_db p -> wire p' = wire p -> py_log p' = py_log p -> core G L p -> core G L p'.
Proof. intros E1 E2 E3 [H1 H2 H3 H4 H5 H6 H7 H8 H9 H10 H11 H12 H13 H14 H15 H16]. split; rewrite ?E1, ?E2, ?E3; done. Qed.

(** Rows stay, with their payee; the record and the claimed ids stay; claimed rows
    settle at most. *)
Record rows_move (d d' : payout_db) : Prop := {
  rm_ids : NoDup (withdrawal_ids d'.1);
  rm_claims : claim_ids d' = claim_ids d;
  rm_attempts : payout_attempts d'.2 = payout_attempts d.2;
  rm_rows id r : withdrawal_in id d.1 = Some r -> exists r', withdrawal_in id d'.1 = Some r' /\ same_payee r r';
  rm_settles id : id ∈ claim_ids d -> row_settles (withdrawal_in id d.1) (withdrawal_in id d'.1);
}.

Lemma settles_closed id d d' : row_settles (withdrawal_in id d) (withdrawal_in id d') -> closed_in id d -> closed_in id d'.
Proof.
  intros Hs (r & Hr & Hc). rewrite Hr in Hs. destruct (withdrawal_in id d') as [r'|] eqn:E; [|done]. exists r'. split; [done|].
  destruct Hs as [_ [->|[Hst _]]]; [done|]. destruct Hc as [_ Hc]. by rewrite Hst in Hc.
Qed.

Lemma core_rows G L p d : rows_move (py_db p) d -> core G L p -> core G L (with_payer_db d p).
Proof.
  intros [M1 M2 M3 M4 M5] [H1 H2 H3 H4 H5 H6 H7 H8 H9 H10 H11 H12 H13 H14 H15 H16]. split; cbn; rewrite ?M2, ?M3; try done.
  - intros id Hid. destruct (H3 id Hid) as (r & Hr & Hst). specialize (M5 id Hid). rewrite Hr in M5.
    destruct (withdrawal_in id d.1) as [r'|] eqn:E; [|done]. exists r'. split; [done|].
    destruct M5 as [_ [->|[_ Hc]]]; [done|apply Hc].
  - intros id a n to amt Hg. destruct (H7 id a n to amt Hg) as (r & Hr & -> & ->). destruct (M4 id r Hr) as (r' & Hr' & _ & E1 & E2).
    exists r'. by rewrite E1, E2.
  - intros e He. destruct (H16 e He) as [Hid Hc]. split; [done|]. eapply settles_closed; [by apply M5|done].
Qed.

(** A settlement reported once, of a withdrawal that was open. *)
Lemma core_logged G L p e : core G L p -> log_ok G L e -> log_id e ∈ claim_ids (py_db p) -> closed_in (log_id e) (py_db p).1 ->
  (log_id e ∉ log_id <$> py_log p) -> core G L (logged e p).2.
Proof.
  intros [H1 H2 H3 H4 H5 H6 H7 H8 H9 H10 H11 H12 H13 H14 H15 H16] Hok Hid Hc Hn. split; cbn; try done.
  - rewrite fmap_app. apply NoDup_app. split; [done|]. split; [|apply NoDup_singleton].
    intros x Hx ->%list_elem_of_singleton. done.
  - by intros e' [He| ->%list_elem_of_singleton]%elem_of_app; [apply H15|].
  - by intros e' [He| ->%list_elem_of_singleton]%elem_of_app; [apply H16|].
Qed.

(** A landing. *)
Lemma landed_mono G L L' id sig : (forall x, x ∈ L -> x ∈ L') -> landed_payout G L id sig -> landed_payout G L' id sig.
Proof. intros HL (t & H1 & H2 & H3). exists t. auto. Qed.
Lemma never_mono G L L' id : (forall x, x ∈ L -> x ∈ L') -> never_pays G L id -> never_pays G L' id.
Proof. intros HL H t Ht. destruct (H t Ht) as (t' & ok & H1 & H2 & H3). exists t', ok. auto. Qed.

Lemma core_landing G L p t ok : t ∈ wire p -> (forall t' ok', (t', ok') ∈ L -> dt_lane t' <> dt_lane t) ->
  core G L p -> core G (L ++ [(t, ok)]) p.
Proof.
  intros Ht Hn [H1 H2 H3 H4 H5 H6 H7 H8 H9 H10 H11 H12 H13 H14 H15 H16].
  assert (forall x, x ∈ L -> x ∈ L ++ [(t, ok)]) as HL by (intros x Hx; apply elem_of_app; by left).
  split; try done.
  - intros a o Ha Ho. destruct (H5 a o Ha Ho) as (t' & E & Hin). exists t'. auto.
  - by intros t' o [Hin|[= -> ->]%list_elem_of_singleton]%elem_of_app; [eapply H12|].
  - intros t1 o1 t2 o2 [A|[= -> ->]%list_elem_of_singleton]%elem_of_app [B|[= -> ->]%list_elem_of_singleton]%elem_of_app E; [by apply H13| | |done].
    + by apply Hn in A.
    + symmetry in E. by apply Hn in B.
  - intros [id sig|id by_] He; specialize (H15 _ He); cbn in *; [by eapply landed_mono|by eapply never_mono].
Qed.

(** A final status, of what landed. *)
Lemma final_attempts id sig ok slot A G : Forall2 attempt_for A G ->
  Forall2 attempt_for (update_rows (fun a => same_attempt id sig a && bool_decide (pa_final_status a = None)) (with_final ok slot) A) G.
Proof.
  induction 1 as [|a g A G Ha _ IH]; [constructor|]. unfold update_rows in *. rewrite fmap_cons. constructor; [|done].
  by destruct (_ && _).
Qed.

Lemma core_final_read G L p id sig ok slot t d : sign t = sig -> (t, ok) ∈ L -> d.1 = (py_db p).1 -> chain_claims d.2 = chain_claims (py_db p).2 ->
  payout_attempts d.2 = update_rows (fun a => same_attempt id sig a && bool_decide (pa_final_status a = None)) (with_final ok slot)
    (payout_attempts (py_db p).2) -> core G L p -> core G L (with_payer_db d p).
Proof.
  intros Hsig HL E1 E2 E3 [H1 H2 H3 H4 H5 H6 H7 H8 H9 H10 H11 H12 H13 H14 H15 H16].
  assert (claim_ids d = claim_ids (py_db p)) as Ec by (unfold claim_ids; by rewrite E2).
  split; cbn; rewrite ?E1, ?Ec; try done.
  - rewrite E3. by apply final_attempts.
  - intros a o Ha. rewrite E3 in Ha. unfold update_rows in Ha. apply list_elem_of_fmap in Ha as (b & -> & Hb).
    destruct (_ && _) eqn:Ec2; [|by apply H5]. cbn. intros [= <-].
    apply andb_true_iff in Ec2 as [[_ Es%bool_decide_eq_true]%andb_true_iff _]. exists t. split; [congruence|done].
Qed.

(** A transaction recorded and sent. *)
Lemma core_recorded G L p id lane t at_ d : core G L p -> id ∈ claim_ids (py_db p) ->
  (lane_account lane, lane_nonceValue lane) = dt_lane t ->
  (match t with
   | tx_payout a n to amt => (id ∉ G.*1) /\ (dt_lane t ∉ dt_lane ∘ snd <$> G) /\
       exists r, withdrawal_in id (py_db p).1 = Some r /\ to = destination r /\ amt = w_amount r
   | tx_kill a n => exists to amt, (id, tx_payout a n to amt) ∈ G
   end) ->
  (dt_kind t = kind_payout -> forall by_, log_refunded_from_chain id by_ ∉ py_log p) ->
  d.1 = (py_db p).1 -> chain_claims d.2 = chain_claims (py_db p).2 ->
  payout_attempts d.2 = (if existsb (same_attempt id (sign t)) (payout_attempts (py_db p).2) then payout_attempts (py_db p).2
    else payout_attempts (py_db p).2 ++ [attempt_of id (signDurable sign lane t) at_]) ->
  exists G', core G' L (sendRawTransaction t (with_payer_db d p)).2 /\ (forall g, g ∈ G' <-> g ∈ G \/ g = (id, t)).
Proof.
  intros [H1 H2 H3 H4 H5 H6 H7 H8 H9 H10 H11 H12 H13 H14 H15 H16] Hid Hlane Ht Href E1 E2 E3.
  assert (claim_ids d = claim_ids (py_db p)) as Ec by (unfold claim_ids; by rewrite E2).
  destruct (existsb (same_attempt id (sign t)) (payout_attempts (py_db p).2)) eqn:Ex.
  - apply existsb_exists in Ex as (a & Ha%list_elem_of_In & [Ea1%bool_decide_eq_true Ea2%bool_decide_eq_true]%andb_true_iff).
    apply list_elem_of_lookup in Ha as (k & Hk). destruct (Forall2_lookup_l _ _ _ _ _ H4 Hk) as ([id' t'] & Hg & Hfor).
    destruct Hfor as (F1 & F2 & _). cbn in *. assert (t' = t) as -> by (apply sign_inj; congruence). assert (id' = id) as -> by congruence.
    apply list_elem_of_lookup_2 in Hg. exists G. split; [|intros g; split; [by left|by intros [?| ->]]].
    split; cbn; rewrite ?E1, ?Ec, ?E3; try done.
    + intros t' [Ht'| ->%list_elem_of_singleton]%elem_of_app; [by apply H11|]. apply list_elem_of_fmap. by exists (id, t).
    + intros t' ok Hin. apply elem_of_app. left. by eapply H12.
  - exists (G ++ [(id, t)]). split; [|intros g; by rewrite elem_of_app, list_elem_of_singleton].
    assert (payouts (G ++ [(id, t)]) = payouts G ++ (if bool_decide (dt_kind t = kind_payout) then [(id, t)] else [])) as Epay.
    { unfold payouts. by rewrite List.filter_app. }
    assert (forall id' sig, landed_payout G L id' sig -> landed_payout (G ++ [(id, t)]) L id' sig) as Hlp.
    { intros id' sig (t' & A1 & A2 & A3). exists t'. split; [|done]. rewrite Epay. apply elem_of_app. by left. }
    split; cbn; rewrite ?E1, ?Ec, ?E3; try done.
    + apply Forall2_app; [done|]. constructor; [|constructor]. injection Hlane as L1 L2. repeat split; cbn; congruence.
    + intros a ok [Ha| ->%list_elem_of_singleton]%elem_of_app; [by apply H5|done].
    + intros g [Hg| ->%list_elem_of_singleton]%elem_of_app; [by apply H6|done].
    + intros id' a n to amt [Hg|[= -> <-]%list_elem_of_singleton]%elem_of_app; [by apply (H7 id' a n)|]. by destruct Ht as (_ & _ & Ht).
    + rewrite Epay, fmap_app. destruct t as [a n to amt|a n]; cbn; [|by rewrite app_nil_r].
      apply NoDup_app. split; [done|]. split; [|apply NoDup_singleton]. intros x Hx Hs%list_elem_of_singleton. cbn in Hs. subst x.
      destruct Ht as [Ht _]. apply Ht. apply list_elem_of_fmap in Hx as (g & -> & Hg). apply list_elem_of_fmap_2.
      by apply list_elem_of_In, filter_In in Hg as [Hg%list_elem_of_In _].
    + rewrite Epay, fmap_app. destruct t as [a n to amt|a n]; cbn; [|by rewrite app_nil_r].
      apply NoDup_app. split; [done|]. split; [|apply NoDup_singleton]. intros x Hx Hs%list_elem_of_singleton. cbn in Hs. subst x.
      destruct Ht as [_ [Ht _]]. apply Ht. apply list_elem_of_fmap in Hx as (g & E & Hg). apply list_elem_of_fmap. exists g.
      split; [done|]. by apply list_elem_of_In, filter_In in Hg as [Hg%list_elem_of_In _].
    + intros id' a n [Hg|[= -> <-]%list_elem_of_singleton]%elem_of_app.
      * destruct (H10 id' a n Hg) as (to & amt & Hp). exists to, amt. apply elem_of_app. by left.
      * destruct Ht as (to & amt & Hp). exists to, amt. apply elem_of_app. by left.
    + intros t' [Ht'| ->%list_elem_of_singleton]%elem_of_app; rewrite fmap_app; apply elem_of_app; [left; by apply H11|right; by left].
    + intros t' ok Hin. apply elem_of_app. left. by eapply H12.
    + intros [id' sig|id' by_] He; pose proof (H15 _ He) as Hl; cbn in *; [by apply Hlp|].
      intros t' Ht'. rewrite Epay in Ht'. apply elem_of_app in Ht' as [Ht'|Ht']; [by apply Hl|].
      case_bool_decide as Hk; [|by apply elem_of_nil in Ht']. apply list_elem_of_singleton in Ht' as [= -> ->]. by apply (Href Hk) in He.
Qed.

(** A claim. *)
Lemma core_claimed G L p id i d w : core G L p -> withdrawal_in id (py_db p).1 = Some w ->
  w_status w = pending ->
  d.1 = updated id (fun w => bool_decide (w_status w = pending)) (with_claim (pt_now i) None) (py_db p).1 ->
  (id ∉ claim_ids (py_db p)) -> payout_attempts d.2 = payout_attempts (py_db p).2 -> claim_ids d = claim_ids (py_db p) ++ [id] ->
  core G L (with_payer_db d p).
Proof.
  intros [H1 H2 H3 H4 H5 H6 H7 H8 H9 H10 H11 H12 H13 H14 H15 H16] Hw Hst E1 Hn E2 E3.
  assert (forall w, same_payee w (with_claim (pt_now i) None w)) as Hp by by repeat split.
  assert (forall j, withdrawal_in j d.1 = (if bool_decide (j = id) then Some (with_claim (pt_now i) None w) else withdrawal_in j (py_db p).1)) as Hin.
  { intros j. rewrite E1, (updated_in _ _ _ Hp) by done. case_bool_decide; [|done]. rewrite Hw. cbn. by rewrite bool_decide_true. }
  split; cbn; rewrite ?E2, ?E3; try done.
  - by rewrite E1, updated_ids.
  - apply NoDup_app. split; [done|]. split; [|apply NoDup_singleton]. intros x Hx Hs%list_elem_of_singleton. by subst x.
  - intros j [Hj| ->%list_elem_of_singleton]%elem_of_app; rewrite Hin.
    + rewrite bool_decide_false by (by intros ->). by apply H3.
    + rewrite bool_decide_true by done. by eexists.
  - intros g Hg. apply elem_of_app. left. by apply H6.
  - intros j a n to amt Hg. rewrite Hin, bool_decide_false; [by apply (H7 j a n)|]. intros ->. by apply Hn, (H6 _ Hg).
  - intros e He. destruct (H16 e He) as [Hid (r & Hr & Hc)]. split; [apply elem_of_app; by left|]. exists r. split; [|done].
    rewrite Hin, bool_decide_false; [done|]. by intros E; rewrite E in Hid.
Qed.

(** ** What keeps the invariant of the paths *)

Lemma wait_ok_grows G G' L L' d d' w : (forall g, g ∈ G -> g ∈ G') -> (forall x, x ∈ L -> x ∈ L') ->
  (forall id r, withdrawal_in id d.1 = Some r -> exists r', withdrawal_in id d'.1 = Some r' /\ same_payee r r') ->
  (forall id t, deciding w = Some id -> (id, t) ∈ payouts G' -> (id, t) ∈ payouts G) ->
  (forall id r lane, w = at_send id r lane -> forall g, g ∈ G' -> g ∈ G \/ (g.1 <> id /\ dt_lane g.2 <> (lane_account lane, lane_nonceValue lane))) ->
  wait_ok G L d w -> wait_ok G' L' d' w.
Proof.
  intros HG HL Hrows Hdec Hsend.
  assert (forall g, g ∈ payouts G -> g ∈ payouts G') as Hpay.
  { intros g Hg. apply list_elem_of_In, filter_In in Hg as [Hg%list_elem_of_In Hk]. apply list_elem_of_In, filter_In. split; [|done].
    apply list_elem_of_In. auto. }
  assert (forall id sig, landed_payout G L id sig -> landed_payout G' L' id sig) as Hlp.
  { intros id sig (t & A1 & A2 & A3). exists t. auto. }
  assert (forall id, deciding w = Some id -> never_pays G L id -> never_pays G' L' id) as Hnp.
  { intros id Hd H t Ht. destruct (H t (Hdec id t Hd Ht)) as (t' & ok & A1 & A2 & A3). exists t', ok. auto. }
  assert (forall r r0 id, withdrawal_in id d.1 = Some r -> same_payee r0 r -> exists r', withdrawal_in id d'.1 = Some r' /\ same_payee r0 r') as Hrow.
  { intros r r0 id Hr (A1 & A2 & A3). destruct (Hrows id r Hr) as (r' & Hr' & B1 & B2 & B3). exists r'. split; [done|]. repeat split; congruence. }
  destruct w as [id r|id r lane|id lane|id inl r l todo unf unr|id inl r v|id inl r sig at_|id a acc n obs]; cbn.
  - intros (r' & Hr & Hs). by eapply Hrow.
  - intros ((r' & Hr & Hs) & Hid & Hl). split; [by eapply Hrow|]. split.
    + intros (g & -> & Hg)%list_elem_of_fmap. destruct (Hsend _ _ _ eq_refl g Hg) as [Hg'|[Hne _]]; [|done]. apply Hid. by apply list_elem_of_fmap_2.
    + intros (g & E & Hg)%list_elem_of_fmap. destruct (Hsend _ _ _ eq_refl g Hg) as [Hg'|[_ Hne]]; [|by apply Hne].
      apply Hl. rewrite E. by apply (list_elem_of_fmap_2 (dt_lane ∘ snd)).
  - done.
  - intros [S1 S2]. split.
    + intros a Ha. destruct (S1 a Ha) as (t & A1 & A2 & A3). exists t. auto.
    + intros t Ht. apply S2. by apply Hdec.
  - destruct v; cbn; [by apply Hlp|by apply Hnp|done].
  - by apply Hlp.
  - intros (to & amt & H). exists to, amt. auto.
Qed.

Lemma not_sending_sub id ws ws' : (forall w, w ∈ ws' -> w ∈ ws) -> not_sending id ws -> not_sending id ws'.
Proof. intros Hsub H r lane Hin. by apply (H r lane), Hsub. Qed.

(** ** Steps of the state *)

(** What a path that decides [id] holds against the paths [ws] beside it. *)
Record may_decide (id : string) (inline : bool) p ws : Prop := {
  md_claimed : id ∈ claim_ids (py_db p);
  md_sending : not_sending id ws;
  md_inline : inline = true -> id ∈ payoutsInFlight p /\ (id ∉ omap owner ws);
}.

Lemma state_drop G L p w ws ws' : ws ≡ₚ w :: ws' -> state_ok G L p ws -> state_ok G L p ws'.
Proof.
  intros Hp [Hc [P1 P2 P3 P4 P5 P6] Hr]. assert (forall x, x ∈ ws' -> x ∈ ws) as Hsub by (intros x Hx; rewrite Hp; by right).
  split; [done| |].
  - split.
    + auto.
    + rewrite Hp in P2. cbn in P2. destruct (owner w); [by apply NoDup_cons in P2 as [_ ?]|done].
    + intros id (x & Hx & E)%list_elem_of_omap. apply P3, list_elem_of_omap. eauto.
    + rewrite Hp in P4. cbn in P4. destruct (holder w); [by apply NoDup_cons in P4 as [_ ?]|done].
    + intros n (x & Hx & E)%list_elem_of_omap. apply P5, list_elem_of_omap. eauto.
    + intros x id Hx Hd. destruct (P6 x id (Hsub x Hx) Hd) as [A B]. split; [done|]. by eapply not_sending_sub.
  - intros id by_ H. eapply not_sending_sub; [exact Hsub|by eapply Hr].
Qed.

Lemma sending_owned id r lane ws : at_send id r lane ∈ ws -> id ∈ omap owner ws.
Proof. intros H. apply list_elem_of_omap. by eexists. Qed.

Lemma not_owner_not_sending id ws : (id ∉ omap owner ws) -> not_sending id ws.
Proof. intros H r lane Hin. by apply H, (sending_owned id r lane). Qed.

(** The paths see growth only. *)
Lemma state_step G G' L L' p p' ws : state_ok G L p ws -> core G' L' p' ->
  (forall g, g ∈ G -> g ∈ G') -> (forall x, x ∈ L -> x ∈ L') ->
  (forall id r, withdrawal_in id (py_db p).1 = Some r -> exists r', withdrawal_in id (py_db p').1 = Some r' /\ same_payee r r') ->
  (forall id, id ∈ claim_ids (py_db p) -> id ∈ claim_ids (py_db p')) ->
  (forall id w t, w ∈ ws -> deciding w = Some id -> (id, t) ∈ payouts G' -> (id, t) ∈ payouts G) ->
  (forall id r lane, at_send id r lane ∈ ws -> forall g, g ∈ G' -> g ∈ G \/ (g.1 <> id /\ dt_lane g.2 <> (lane_account lane, lane_nonceValue lane))) ->
  (forall id, id ∈ omap owner ws -> id ∈ payoutsInFlight p -> id ∈ payoutsInFlight p') ->
  (forall n, n ∈ omap holder ws -> n ∈ reservedNonces p -> n ∈ reservedNonces p') ->
  (forall id by_, log_refunded_from_chain id by_ ∈ py_log p' -> log_refunded_from_chain id by_ ∈ py_log p \/ not_sending id ws) ->
  state_ok G' L' p' ws.
Proof.
  intros [Hc [P1 P2 P3 P4 P5 P6] Hr] Hc' HG HL Hrows Hcl Hdec Hsend Hfl Hre Hlog. split; [done| |].
  - split; try done.
    + intros w Hw. eapply wait_ok_grows; [exact HG|exact HL|exact Hrows| | |by apply P1]; [by eauto|]. intros id r lane ->. by eapply Hsend.
    + intros id Hid. destruct (P3 id Hid) as [A B]. auto.
    + intros n Hn. auto.
    + intros w id Hw Hd. destruct (P6 w id Hw Hd) as [A B]. auto.
  - intros id by_ [H|H]%Hlog; [by eapply Hr|done].
Qed.

(** The same tables: the sets may lose what no path holds. *)
Lemma state_sets G L p p' ws : py_db p' = py_db p -> wire p' = wire p -> py_log p' = py_log p ->
  (forall id, id ∈ omap owner ws -> id ∈ payoutsInFlight p -> id ∈ payoutsInFlight p') ->
  (forall n, n ∈ omap holder ws -> n ∈ reservedNonces p -> n ∈ reservedNonces p') ->
  state_ok G L p ws -> state_ok G L p' ws.
Proof.
  intros E1 E2 E3 Hfl Hre Hs. eapply state_step; [exact Hs|by eapply core_frame, Hs|done|done| | |done|by left|done|done|].
  - intros id r Hr. rewrite E1. exists r. by repeat split.
  - by rewrite E1.
  - rewrite E3. by left.
Qed.

Lemma state_rows G L p d ws : rows_move (py_db p) d -> state_ok G L p ws -> state_ok G L (with_payer_db d p) ws.
Proof.
  intros Hm Hs. eapply state_step; [exact Hs|by eapply core_rows, Hs|done|done| | |done|by left|done|done|by left].
  - apply Hm.
  - intros id Hid. cbn. by rewrite (rm_claims _ _ Hm).
Qed.

Lemma state_logged G L p e ws : state_ok G L p ws -> log_ok G L e -> log_id e ∈ claim_ids (py_db p) -> closed_in (log_id e) (py_db p).1 ->
  (log_id e ∉ log_id <$> py_log p) -> not_sending (log_id e) ws -> state_ok G L (logged e p).2 ws.
Proof.
  intros Hs H1 H2 H3 H4 H5. eapply state_step; [exact Hs|apply core_logged; [apply Hs|done..]|done|done| |done|done|by left|done|done|].
  - intros id r Hr. exists r. by repeat split.
  - cbn. intros id by_ [H| <-%list_elem_of_singleton]%elem_of_app; [by left|by right].
Qed.

(** A path more. *)
Lemma state_add G L p ws w : state_ok G L p ws -> wait_ok G L (py_db p) w ->
  (forall id, owner w = Some id -> id ∈ claim_ids (py_db p) /\ id ∈ payoutsInFlight p /\ (id ∉ omap owner ws)) ->
  (forall n, holder w = Some n -> n ∈ reservedNonces p /\ (n ∉ omap holder ws)) ->
  (forall id, deciding w = Some id -> id ∈ claim_ids (py_db p) /\ not_sending id ws) ->
  (forall id r lane, w = at_send id r lane -> (forall x, x ∈ ws -> deciding x <> Some id) /\
     forall by_, log_refunded_from_chain id by_ ∉ py_log p) ->
  state_ok G L p (ws ++ [w]).
Proof.
  intros [Hc [P1 P2 P3 P4 P5 P6] Hr] Hw Ho Hh Hd Hsd.
  assert (forall id, not_sending id ws -> (forall r lane, w <> at_send id r lane) -> not_sending id (ws ++ [w])) as Hns.
  { intros id H1 H2 r lane [Hin|E%list_elem_of_singleton]%elem_of_app; [by apply (H1 r lane)|by apply (H2 r lane)]. }
  split; [done| |].
  - split.
    + by intros x [Hx| ->%list_elem_of_singleton]%elem_of_app; [apply P1|].
    + rewrite omap_app. cbn. destruct (owner w) as [id|] eqn:E; cbn; [|by rewrite app_nil_r].
      apply NoDup_app. split; [done|]. split; [|apply NoDup_singleton]. intros x Hx Hs%list_elem_of_singleton. subst x.
      by destruct (Ho id eq_refl) as (_ & _ & ?).
    + intros id. rewrite omap_app. intros [Hid|Hid]%elem_of_app; [by apply P3|]. cbn in Hid.
      destruct (owner w) as [id'|] eqn:E; [|by apply elem_of_nil in Hid]. apply list_elem_of_singleton in Hid as ->.
      by destruct (Ho id' eq_refl) as (? & ? & _).
    + rewrite omap_app. cbn. destruct (holder w) as [n|] eqn:E; cbn; [|by rewrite app_nil_r].
      apply NoDup_app. split; [done|]. split; [|apply NoDup_singleton]. intros x Hx Hs%list_elem_of_singleton. subst x.
      by destruct (Hh n eq_refl) as (_ & ?).
    + intros n. rewrite omap_app. intros [Hn|Hn]%elem_of_app; [by apply P5|]. cbn in Hn.
      destruct (holder w) as [n'|] eqn:E; [|by apply elem_of_nil in Hn]. apply list_elem_of_singleton in Hn as ->.
      by destruct (Hh n' eq_refl) as (? & _).
    + intros x id [Hx| ->%list_elem_of_singleton]%elem_of_app Hdx.
      * destruct (P6 x id Hx Hdx) as [A B]. split; [done|]. apply Hns; [done|]. intros r lane ->.
        by destruct (Hsd id r lane eq_refl) as [H _]; apply (H x Hx).
      * destruct (Hd id Hdx) as [A B]. split; [done|]. apply Hns; [done|]. by intros r lane ->.
  - intros id by_ H. apply Hns; [by eapply Hr|]. intros r lane ->. by destruct (Hsd id r lane eq_refl) as [_ H2]; apply (H2 by_).
Qed.

(** ** The verdict *)

Lemma attempt_unique a g g' : attempt_for a g -> attempt_for a g' -> g = g'.
Proof.
  intros (A1 & A2 & _) (B1 & B2 & _). destruct g, g'; cbn in *. f_equal; [congruence|]. apply sign_inj. congruence.
Qed.

Lemma in_payouts G id t : (id, t) ∈ payouts G <-> (id, t) ∈ G /\ dt_kind t = kind_payout.
Proof.
  unfold payouts. rewrite list_elem_of_In, filter_In, <- list_elem_of_In. unfold pays. cbn. by rewrite bool_decide_eq_true.
Qed.

Lemma attempt_pays a id t : attempt_for a (id, t) -> is_payout a = bool_decide (dt_kind t = kind_payout).
Proof. intros (_ & _ & A & _). unfold is_payout. by rewrite A. Qed.

Lemma attempt_here G L p id t : core G L p -> (id, t) ∈ G -> exists a, a ∈ attempts_in id (py_db p).2 /\ attempt_for a (id, t).
Proof.
  intros H (k & Hk)%list_elem_of_lookup. destruct (Forall2_lookup_r _ _ _ _ _ (co_attempts _ _ _ H) Hk) as (a & Ha & Hfor).
  exists a. split; [|done]. apply js_sort_elem, list_elem_of_In, filter_In. split; [by eapply list_elem_of_In, list_elem_of_lookup_2|].
  apply bool_decide_eq_true. by destruct Hfor as (F1 & _).
Qed.

Lemma core_snapshot G L p id : core G L p -> snapshot G L id (attempts_in id (py_db p).2).
Proof.
  intros H. pose proof (co_attempts _ _ _ H) as HF. split.
  - intros a Ha. apply js_sort_elem, list_elem_of_In, filter_In in Ha as [Ha%list_elem_of_In Hid%bool_decide_eq_true].
    pose proof Ha as (k & Hk)%list_elem_of_lookup. destruct (Forall2_lookup_l _ _ _ _ _ HF Hk) as ([id' t] & Hg & Hfor).
    pose proof Hfor as (F1 & F2 & _). cbn in *. assert (id' = id) as -> by congruence. exists t. split; [by eapply list_elem_of_lookup_2|].
    split; [done|]. intros ok Hok. destruct (co_final _ _ _ H a ok Ha Hok) as (t' & E & HL).
    assert (t' = t) as <-; [apply sign_inj; congruence|done].
  - intros t [Ht _]%in_payouts. by apply (attempt_here G L p).
Qed.

Lemma no_attempt_never G L id : snapshot G L id [] -> never_pays G L id.
Proof. intros [_ H] t Ht. destruct (H t Ht) as (a & Ha & _). by apply elem_of_nil in Ha. Qed.

(** The one payout of a withdrawal. *)
Lemma payout_of_id G L p id t t' : core G L p -> (id, t) ∈ payouts G -> (id, t') ∈ payouts G -> t = t'.
Proof.
  intros H H1 H2. pose proof (nodup_key fst (payouts G) (id, t) (id, t') (co_payout_ids _ _ _ H) H1 H2 eq_refl) as E. by injection E.
Qed.

Lemma verdict_sound G L p id l unf unr : core G L p -> snapshot G L id l -> verdict_ok G L id (chain_verdict l unf unr).
Proof.
  intros Hc [S1 S2]. unfold chain_verdict.
  destruct (List.filter (ends true) (List.filter is_payout l)) as [|a rest] eqn:Epaid.
  2:{ assert (In a (List.filter (ends true) (List.filter is_payout l))) as Ha by (rewrite Epaid; by left).
      apply filter_In in Ha as [[Ha%list_elem_of_In Hp]%filter_In He%bool_decide_eq_true].
      destruct (S1 a Ha) as (t & Ht & Hfor & Hfin). rewrite (attempt_pays _ _ _ Hfor) in Hp. apply bool_decide_eq_true in Hp.
      exists t. split; [by apply in_payouts|]. split; [by destruct Hfor as (_ & -> & _)|auto]. }
  destruct (durable_payout l) as [a|] eqn:Ed.
  - apply find_some in Ed as [[Ha%list_elem_of_In Hp]%filter_In _]. destruct (S1 a Ha) as (t & Ht & Hfor & Hfin).
    rewrite (attempt_pays _ _ _ Hfor) in Hp. apply bool_decide_eq_true in Hp.
    assert (forall t', (id, t') ∈ payouts G -> t' = t) as Hone.
    { intros t' Ht'. apply (payout_of_id G L p id); [done|done|by apply in_payouts]. }
    destruct (ends false a) eqn:Ef.
    + apply bool_decide_eq_true in Ef. intros t' ->%Hone. exists t, false. split; [by apply Hfin|done].
    + destruct (existsb _ _) eqn:Ek; [|done]. apply existsb_exists in Ek as (k & [Hk%list_elem_of_In Hkill]%filter_In & Hks).
      apply andb_true_iff in Hks as [[[ok Hok]%bool_decide_eq_true E1%bool_decide_eq_true]%andb_true_iff E2%bool_decide_eq_true].
      destruct (S1 k Hk) as (tk & Htk & Hkfor & Hkfin). intros t' ->%Hone. exists tk, ok. split; [by apply Hkfin|].
      apply negb_true_iff in Hkill. rewrite (attempt_pays _ _ _ Hkfor) in Hkill. apply bool_decide_eq_false in Hkill.
      destruct Hfor as (_ & _ & _ & A1 & A2), Hkfor as (_ & _ & _ & B1 & B2). cbn in *. split; [unfold dt_lane; congruence|].
      by intros [= -> ->].
  - destruct (negb _ && forallb _ _) eqn:Ea; [|done]. apply andb_true_iff in Ea as [_ Ea]. rewrite forallb_forall in Ea.
    intros t' Ht'. destruct (S2 t' Ht') as (a & Ha & Hfor). apply in_payouts in Ht' as [_ Hk].
    assert (ends false a = true) as He%bool_decide_eq_true.
    { apply Ea, filter_In. split; [by apply list_elem_of_In|]. rewrite (attempt_pays _ _ _ Hfor). by apply bool_decide_eq_true. }
    destruct (S1 a Ha) as (t & Ht & Hfor2 & Hfin). pose proof (attempt_unique _ _ _ Hfor Hfor2) as [= ->].
    exists t, false. split; [by apply Hfin|done].
Qed.

(** ** Turns *)

Definition turn_ok L ws (out : result ledger_error (option pay_wait) * payer) : Prop :=
  exists G, state_ok G L out.2 (ws ++ new_wait out.1).

Lemma turn_ends G L ws p r : state_ok G L p ws -> new_wait r = [] -> turn_ok L ws (r, p).
Proof. intros H E. exists G. cbn. by rewrite E, app_nil_r. Qed.

Lemma turn_waits G L ws p w : state_ok G L p (ws ++ [w]) -> turn_ok L ws (Ok (Some w), p).
Proof. intros H. by exists G. Qed.

Lemma not_thrown_ok L ws m p : turn_ok L ws (m p) -> turn_ok L ws (not_thrown m p).
Proof.
  intros [G H]. unfold not_thrown, call_catch. destruct (m p) as [[o|e] p1]; exists G; [exact H|]. cbn in *. by rewrite app_nil_r in *.
Qed.

Lemma releasing_ok L ws id m p : (id ∉ omap owner ws) -> turn_ok L ws (m p) -> turn_ok L ws (releasing id m p).
Proof.
  intros Hid H. apply (not_thrown_ok L ws m p) in H as [G H]. unfold releasing. destruct (not_thrown m p) as [[[w|]|e] p1].
  - by exists G.
  - exists G. cbn in *. eapply state_sets; [..|exact H]; try done. cbn. rewrite app_nil_r. intros j Hj Hin.
    apply elem_of_difference. split; [done|]. intros ->%elem_of_singleton. done.
  - exists G. cbn in *. eapply state_sets; [..|exact H]; try done. cbn. rewrite app_nil_r. intros j Hj Hin.
    apply elem_of_difference. split; [done|]. intros ->%elem_of_singleton. done.
Qed.

Lemma closing_ok L ws inline id m p : (inline = true -> id ∉ omap owner ws) -> turn_ok L ws (m p) -> turn_ok L ws (closing_path inline id m p).
Proof. intros Hid H. destruct inline; [apply releasing_ok; auto|by apply not_thrown_ok]. Qed.

Lemma with_same p : with_payer_db (py_db p) p = p.
Proof. by destruct p. Qed.

Lemma tables_bind {A B} (m : call payout_db ledger_error A) (k : A -> call payer ledger_error B) p :
  call_bind (on_tables m) k p = match m (py_db p) with
                                | (Ok a, d) => k a (with_payer_db d p)
                                | (Throw e, d) => (Throw e, with_payer_db d p)
                                end.
Proof. unfold call_bind, on_tables. by destruct (m (py_db p)) as [[a|e] d]. Qed.

(** What [getPayoutAttempts] and the other readers leave. *)
Lemma select_tables {A B} i (q : payout_tables -> A) (k : A -> call payer ledger_error B) p :
  (exists e, call_bind (on_tables (@select_table _ (PayoutDriver (pt_frozen i)) A q)) k p = (Throw e, p)) \/
  call_bind (on_tables (@select_table _ (PayoutDriver (pt_frozen i)) A q)) k p = k (q (py_db p).2) p.
Proof.
  rewrite tables_bind. destruct (@select_table _ (PayoutDriver (pt_frozen i)) A q (py_db p)) as [[a|e] d] eqn:E;
    apply select_table_run in E as [-> Ha]; rewrite with_same; [right; by rewrite (Ha a eq_refl)|left; by exists e].
Qed.

(** A path that decides goes on awaiting. *)
Lemma decides_on G L p ws id inline w : state_ok G L p ws -> may_decide id inline p ws -> deciding w = Some id ->
  owner w = (if inline then Some id else None) -> wait_ok G L (py_db p) w -> turn_ok L ws (Ok (Some w), p).
Proof.
  intros Hs [M1 M2 M3] Hd Ho Hw. apply (turn_waits G). apply state_add; [done|done| | | |].
  - intros j. rewrite Ho. destruct inline; [|done]. intros [= <-]. by destruct (M3 eq_refl).
  - intros n Hn. by destruct w.
  - intros j. rewrite Hd. by intros [= <-].
  - by intros j r lane ->.
Qed.

Lemma begin_ok G L p ws i id inline w : state_ok G L p ws -> may_decide id inline p ws -> turn_ok L ws (begin_verdict i id inline w p).
Proof.
  intros Hs Hm. unfold begin_verdict, getPayoutAttempts. destruct (select_tables i (attempts_in id)
    (fun attempts => match attempts with
      | [] => call_ret (Some (at_verdict id inline w (verdict_not_paid 0 no_broadcast)))
      | _ => match unread attempts with
             | [] => call_ret (Some (at_verdict id inline w (chain_verdict attempts [] false)))
             | todo => call_ret (Some (at_reads id inline w attempts todo [] false))
             end
      end) p) as [[e E]|E].
  { setoid_rewrite E. by apply (turn_ends G). }
  setoid_rewrite E. pose proof (core_snapshot G L p id (so_core _ _ _ _ Hs)) as Hsnap.
  destruct (attempts_in id (py_db p).2) as [|a l] eqn:El.
  - apply (decides_on G L p ws id inline); [done|done|done|by destruct inline|]. by apply no_attempt_never.
  - assert (verdict_ok G L id (chain_verdict (a :: l) [] false)) as Hv by (eapply verdict_sound; [apply Hs|done]).
    destruct (unread (a :: l)); (apply (decides_on G L p ws id inline); [done|done|done|by destruct inline|done]).
Qed.

Lemma row_tables {B} i id (k : option WithdrawalRequest -> call payer ledger_error B) p :
  (exists e, call_bind (on_tables (@getWithdrawalById payout_db (@AccountTables _ _ (payout_driver i)) id)) k p = (Throw e, p)) \/
  call_bind (on_tables (@getWithdrawalById payout_db (@AccountTables _ _ (payout_driver i)) id)) k p = k (withdrawal_in id (py_db p).1) p.
Proof.
  rewrite tables_bind. destruct (@getWithdrawalById payout_db (@AccountTables _ _ (payout_driver i)) id (py_db p)) as [[a|e] d] eqn:E;
    apply (row_run (pt_frozen i)) in E as [-> Ha]; rewrite with_same; [right; by rewrite (Ha a eq_refl)|left; by exists e].
Qed.

Lemma claimed_ids id d : claimed_in id d.2 = true <-> id ∈ claim_ids d.
Proof.
  unfold claimed_in, claim_ids. rewrite existsb_exists, list_elem_of_fmap. split.
  - intros (c & Hc%list_elem_of_In & E%bool_decide_eq_true). by exists c.
  - intros (c & E & Hc). exists c. split; [by apply list_elem_of_In|by apply bool_decide_eq_true].
Qed.

Lemma resolve_ok G L p ws i id inline : state_ok G L p ws -> (inline = true -> may_decide id true p ws) ->
  turn_ok L ws (resolveWithdrawal i id inline p).
Proof.
  intros Hs Hm. assert (forall r : result ledger_error (option pay_wait), new_wait r = [] -> turn_ok L ws (r, p)) as Hend
    by (intros r; by apply turn_ends with G).
  unfold resolveWithdrawal.
  match goal with |- turn_ok _ _ (call_bind _ ?k p) => destruct (row_tables i id k p) as [[e E]|E] end; setoid_rewrite E; clear E; [by apply Hend|].
  destruct (withdrawal_in id (py_db p).1) as [w|]; [|by apply Hend]. destruct (negb _); [by apply Hend|].
  unfold isChainRecordedClaim.
  match goal with |- turn_ok _ _ (call_bind _ ?k p) => destruct (select_tables i (claimed_in id) k p) as [[e E]|E] end;
    setoid_rewrite E; clear E; [by apply Hend|].
  destruct (claimed_in id (py_db p).2) eqn:Ec; cbn [negb]; [|by apply Hend]. apply claimed_ids in Ec.
  unfold call_bind, reads. destruct inline; cbn [negb andb]; [by apply begin_ok with G; [done|apply Hm]|].
  case_bool_decide as Hin; [by apply Hend|]. apply begin_ok with G; [done|]. split; [done| |done].
  apply not_owner_not_sending. intros Ho. by apply Hin, (pk_owned _ _ _ _ (so_paths _ _ _ _ Hs)).
Qed.

Lemma send_over_ok G L p ws i id lane : state_ok G L p ws -> id ∈ claim_ids (py_db p) -> id ∈ payoutsInFlight p -> (id ∉ omap owner ws) ->
  (lane_nonceValue lane ∉ omap holder ws) -> turn_ok L ws (send_over i id lane p).
Proof.
  intros Hs H1 H2 H3 H4. unfold send_over, call_bind. cbn [set_reserved]. apply releasing_ok; [done|].
  apply resolve_ok with G.
  - eapply state_sets; [..|exact Hs]; try done. cbn. intros n Hn Hr. apply elem_of_difference. split; [done|].
    intros ->%elem_of_singleton. done.
  - intros _. split; [done|by apply not_owner_not_sending|done].
Qed.

Lemma snapshot_read G L id l signature ok slot t : sign t = signature -> (t, ok) ∈ L -> snapshot G L id l ->
  snapshot G L id (update_rows (fun a => bool_decide (pa_signature a = signature)) (with_final ok slot) l).
Proof.
  intros Hsig HL [S1 S2]. unfold update_rows. split.
  - intros a (b & -> & Hb)%list_elem_of_fmap. destruct (S1 b Hb) as (t' & Ht & Hfor & Hfin). exists t'. split; [done|].
    case_bool_decide as E; [|done]. split; [done|]. cbn. intros o [= <-].
    assert (t' = t) as ->; [|done]. apply sign_inj. destruct Hfor as (_ & F & _). cbn in F. congruence.
  - intros t' Ht. destruct (S2 t' Ht) as (a & Ha & Hfor). eexists. split; [by apply list_elem_of_fmap_2|]. by case_bool_decide.
Qed.

(** Running a statement of the record. *)
Lemma table_bind {A B} i (q : payout_tables -> A * payout_tables) (k : A -> call payer ledger_error B) p :
  (exists e, call_bind (on_tables (@on_table _ (payout_driver i) _ (fun t => Ok (q t)))) k p = (Throw e, p)) \/
  (exists a d, call_bind (on_tables (@on_table _ (payout_driver i) _ (fun t => Ok (q t)))) k p = k a (with_payer_db d p) /\
    d.1 = (py_db p).1 /\ q (py_db p).2 = (a, d.2)).
Proof.
  rewrite tables_bind. destruct (@on_table _ (payout_driver i) A (fun t => Ok (q t)) (py_db p)) as [[a|e] d] eqn:E; apply (table_run (pt_frozen i)) in E.
  - destruct E as [[= E1] E2]. right. by exists a, d.
  - subst d. rewrite with_same. left. by exists e.
Qed.

Lemma status_read_ok G L p ws i id inline w l todo unf unr signature s : state_ok G L p ws -> may_decide id inline p ws ->
  snapshot G L id l -> (forall ok slot, s = finalized ok slot -> exists t, sign t = signature /\ (t, ok) ∈ L) ->
  turn_ok L ws (status_read i id inline w l todo unf unr signature s p).
Proof.
  intros Hs Hm Hsnap Htrue. unfold status_read. destruct (negb _); [by apply (decides_on G L p ws id inline); [..|by destruct inline|]|].
  set (todo' := List.filter _ todo).
  assert (forall p l unf unr, state_ok G L p ws -> may_decide id inline p ws -> snapshot G L id l -> turn_ok L ws (match todo' with
    | [] => call_ret (Some (at_verdict id inline w (chain_verdict l unf unr)))
    | _ => call_ret (Some (at_reads id inline w l todo' unf unr))
    end p)) as Hnext.
  { intros q l' unf' unr' Hq Hmq Hl. assert (verdict_ok G L id (chain_verdict l' unf' unr')) as Hv by (eapply verdict_sound; [apply Hq|done]).
    destruct todo'; (apply (decides_on G L q ws id inline); [done|done|done|by destruct inline|done]). }
  destruct s as [ok slot|[| |]]; [|by apply Hnext..].
  destruct (Htrue ok slot eq_refl) as (t & Et & HL). unfold recordFinal.
  match goal with |- turn_ok _ _ (call_bind (on_tables (on_table (fun t => Ok (@?q t)))) ?k p) =>
    destruct (table_bind i q k p) as [[e E]|(a & d & E & E1 & E2)] end; setoid_rewrite E; clear E; [by apply (turn_ends G)|].
  injection E2 as _ E2.
  assert (core G L (with_payer_db d p)) as Hc.
  { eapply (core_final_read G L p id signature ok slot t); [done|done|done|by rewrite <- E2|by rewrite <- E2|apply Hs]. }
  apply Hnext; [| |by eapply snapshot_read].
  - eapply state_step; [exact Hs|exact Hc|done|done| | |done|by left|done|done|by left].
    + intros j r Hr. cbn. rewrite E1. exists r. by repeat split.
    + intros j. unfold claim_ids. cbn. by rewrite <- E2.
  - destruct Hm as [M1 M2 M3]. split; [|done|done]. unfold claim_ids. cbn. by rewrite <- E2.
Qed.

(** *** Settling *)

Lemma table_moves G L p id d : core G L p -> id ∈ claim_ids (py_db p) -> table_step id (py_db p) d -> rows_move (py_db p) d.
Proof.
  intros Hc Hid [[S1 S2 S3] S4]. specialize (S3 (co_ids _ _ _ Hc)).
  assert (forall j, row_settles (withdrawal_in j (py_db p).1) (withdrawal_in j d.1)) as Hsettles.
  { intros j. destruct (decide (j = id)) as [->|Hj]; [done|]. rewrite (S2 j Hj). apply row_settles_refl. }
  split; unfold claim_ids; rewrite ?S4; try done.
  - rewrite S1. apply Hc.
  - intros j r Hr. specialize (Hsettles j). rewrite Hr in Hsettles. destruct (withdrawal_in j d.1) as [r'|]; [|done].
    exists r'. by destruct Hsettles.
Qed.

Lemma settled_log G L p id d e ws : state_ok G L p ws -> may_decide id true p ws \/ may_decide id false p ws -> table_step id (py_db p) d ->
  was_settled id (py_db p) d -> log_id e = id -> log_ok G L e -> state_ok G L (logged e (with_payer_db d p)).2 ws.
Proof.
  intros Hs Hm Hstep (r & r' & W1 & W2 & W3 & W4) He Hok.
  assert (id ∈ claim_ids (py_db p) /\ not_sending id ws) as [Hid Hns] by (by destruct Hm as [[]|[]]).
  assert (rows_move (py_db p) d) as Hmove by (eapply table_moves; [apply Hs|done|done]).
  apply state_logged; [by apply state_rows|done|by rewrite He; cbn; rewrite (rm_claims _ _ Hmove)|by rewrite He; exists r'| |by rewrite He].
  intros (e' & E & He')%list_elem_of_fmap. destruct (co_log_closed _ _ _ (so_core _ _ _ _ Hs) e' He') as [_ (r2 & Hr2 & Hc)].
  rewrite <- E, He, W1 in Hr2. injection Hr2 as <-. destruct Hc as [_ Hc]. by rewrite W2 in Hc.
Qed.

Lemma tables_stay G L p id ws (d : payout_db) : state_ok G L p ws -> id ∈ claim_ids (py_db p) -> table_step id (py_db p) d ->
  state_ok G L (with_payer_db d p) ws.
Proof. intros Hs Hid Hstep. apply state_rows; [|done]. eapply table_moves; [apply Hs|done|done]. Qed.

Lemma complete_ok G L p ws i id inline signature at_ receipt key : state_ok G L p ws -> may_decide id inline p ws ->
  landed_payout G L id signature -> turn_ok L ws ((completeFromChain i id signature at_ receipt key ;! call_ret None) p).
Proof.
  intros Hs Hm Hl. unfold completeFromChain. unfold call_bind at 1. rewrite tables_bind.
  match goal with |- context [match ?c (py_db p) with _ => _ end] => pose proof (complete_steps (pt_frozen i) (pt_now i) (pt_uuid i) {|
    cw_withdrawalId := id; cw_payoutReference := signature; cw_from := processing;
    relaySignature := receipt; relayPublicKey := key; completedAt := at_ |} eq_refl (py_db p) : table_step id (py_db p) (c (py_db p)).2) as Hstep;
    pose proof (fun d => complete_answer (pt_frozen i) (pt_now i) (pt_uuid i) {|
    cw_withdrawalId := id; cw_payoutReference := signature; cw_from := processing;
    relaySignature := receipt; relayPublicKey := key; completedAt := at_ |} (py_db p) d eq_refl (co_ids _ _ _ (so_core _ _ _ _ Hs)) : c (py_db p) = (Ok true, d) -> was_settled id (py_db p) d) as Hans;
    destruct (c (py_db p)) as [[b|e] d] end; cbn [snd] in Hstep.
  2:{ apply (turn_ends G); [|done]. by eapply tables_stay; [..|apply Hstep]; [|apply Hm]. }
  destruct b.
  - apply (turn_ends G); [|done]. apply (settled_log G L p id); [done|by destruct inline; [left|right]|done|by apply Hans|done|done].
  - apply (turn_ends G); [|done]. by eapply tables_stay; [..|apply Hstep]; [|apply Hm].
Qed.

Lemma note_ok G L p id ws i note : state_ok G L p ws -> id ∈ claim_ids (py_db p) ->
  turn_ok L ws ((on_tables (@Withdrawals.noteWithdrawalPayoutUnresolved payout_db (payout_store i) id note) ;! call_ret None) p).
Proof.
  intros Hs Hid. rewrite tables_bind.
  match goal with |- context [match ?c (py_db p) with _ => _ end] =>
    pose proof (note_steps (pt_frozen i) (pt_now i) (pt_uuid i) id note (py_db p) : table_step id (py_db p) (c (py_db p)).2) as Hstep;
    destruct (c (py_db p)) as [[u|e] d] end; (apply (turn_ends G); [|done]; by eapply tables_stay).
Qed.

Lemma refund_ok G L p id ws i inline by_ : state_ok G L p ws -> may_decide id inline p ws -> never_pays G L id ->
  turn_ok L ws ((refundFromChain i id by_ ;! call_ret None) p).
Proof.
  intros Hs Hm Hn. unfold refundFromChain. unfold call_bind at 1. unfold call_catch. rewrite tables_bind.
  match goal with |- context [match ?c (py_db p) with _ => _ end] =>
    match c with Withdrawals.failWithdrawal _ ?reason _ _ =>
    pose proof (fail_steps (pt_frozen i) (pt_now i) (pt_uuid i) id reason (py_db p) : table_step id (py_db p) (c (py_db p)).2) as Hstep;
    pose proof (fun d => fail_answer (pt_frozen i) (pt_now i) (pt_uuid i) id reason (py_db p) d (co_ids _ _ _ (so_core _ _ _ _ Hs)) :
      c (py_db p) = (Ok true, d) -> was_settled id (py_db p) d) as Hans end;
    destruct (c (py_db p)) as [[b|e] d] end; cbn [snd] in Hstep.
  - destruct b; apply (turn_ends G); try done.
    + apply (settled_log G L p id); [done|by destruct inline; [left|right]|done|by apply Hans|done|done].
    + by eapply tables_stay; [..|apply Hstep]; [|apply Hm].
  - assert (state_ok G L (with_payer_db d p) ws) as Hs' by (by eapply tables_stay; [..|apply Hstep]; [|apply Hm]).
    destruct (isEmergencyFrozenAbort e); [|by apply (turn_ends G)].
    match goal with |- context [Withdrawals.noteWithdrawalPayoutUnresolved _ ?note] =>
      destruct (note_ok G L (with_payer_db d p) id ws i note Hs') as [G' H'] end.
    { assert (rows_move (py_db p) d) as Hmove by (eapply table_moves; [apply Hs|apply Hm|apply Hstep]). cbn.
      rewrite (rm_claims _ _ Hmove). apply Hm. }
    exists G'. revert H'. unfold call_bind, call_ret. by destruct (on_tables _ _) as [[u|e'] q].
Qed.

Lemma requestKill_ok G L p id ws i : state_ok G L p ws -> turn_ok L ws (requestKill i id p).
Proof.
  intros Hs. unfold requestKill, getPayoutAttempts.
  match goal with |- turn_ok _ _ (call_bind _ ?k p) => destruct (select_tables i (attempts_in id) k p) as [[e E]|E] end;
    setoid_rewrite E; clear E; [by apply (turn_ends G)|].
  destruct (durable_payout _) as [a|] eqn:Ed; [|by apply (turn_ends G)].
  destruct (pa_nonce_account a) as [acc|] eqn:Ea; [|by apply (turn_ends G)].
  destruct (pa_nonce_value a) as [nonce|] eqn:En; [|by apply (turn_ends G)].
  destruct (pa_nonce_observed_slot a); [|by apply (turn_ends G)].
  apply (turn_waits G). apply state_add; try done. cbn.
  apply find_some in Ed as [[Ha%list_elem_of_In Hp]%filter_In _].
  destruct (core_snapshot G L p id (so_core _ _ _ _ Hs)) as [S1 _]. destruct (S1 a Ha) as (t & Ht & Hfor & _).
  rewrite (attempt_pays _ _ _ Hfor) in Hp. apply bool_decide_eq_true in Hp. destruct Hfor as (_ & _ & _ & F1 & F2). cbn in *.
  destruct t as [a' n' to amt|]; [|done]. cbn in *. exists to, amt. assert (acc = a') as -> by congruence. by assert (nonce = n') as -> by congruence.
Qed.

Lemma verdict_resumes_ok G L p id ws i inline w v : state_ok G L p ws -> may_decide id inline p ws -> verdict_ok G L id v ->
  turn_ok L ws (verdict_resumes killAfterMs i id inline w v p).
Proof.
  intros Hs Hm Hv. destruct v as [signature slot landed|n by_|unr signature killable unf]; cbn [verdict_resumes].
  - apply (decides_on G L p ws id inline); [done|done|done|by destruct inline|done].
  - by apply refund_ok with G inline.
  - destruct inline; [apply note_ok with G; [done|apply Hm]|]. cbv zeta. destruct (_ && _); [by apply requestKill_ok with G|by apply (turn_ends G)].
Qed.

(** *** Sending *)

Lemma broadcast_ok G L p ws i id lane t : state_ok G L p ws -> id ∈ claim_ids (py_db p) ->
  (lane_account lane, lane_nonceValue lane) = dt_lane t ->
  (match t with
   | tx_payout a n to amt => (id ∉ G.*1) /\ (dt_lane t ∉ dt_lane ∘ snd <$> G) /\
       exists r, withdrawal_in id (py_db p).1 = Some r /\ to = destination r /\ amt = w_amount r
   | tx_kill a n => exists to amt, (id, tx_payout a n to amt) ∈ G
   end) ->
  (dt_kind t = kind_payout -> (forall by_, log_refunded_from_chain id by_ ∉ py_log p) /\ forall x, x ∈ ws -> deciding x <> Some id) ->
  (forall j r lane', at_send j r lane' ∈ ws -> id <> j /\ dt_lane t <> (lane_account lane', lane_nonceValue lane')) ->
  exists G' r q, broadcast sign i id lane t p = (r, q) /\ state_ok G' L q ws /\
    claim_ids (py_db q) = claim_ids (py_db p) /\ payoutsInFlight q = payoutsInFlight p /\ reservedNonces q = reservedNonces p.
Proof.
  intros Hs Hid Hlane Ht Hpay Hsend. unfold broadcast, recordDurableAttempt.
  match goal with |- context [call_bind (on_tables (on_table (fun t => Ok (@?q t)))) ?k p] =>
    destruct (table_bind i q k p) as [[e E]|(a & d & E & E1 & E2)] end; setoid_rewrite E; clear E; [by exists G, (Throw e), p|].
  injection E2 as _ E2.
  assert (exists G', core G' L (sendRawTransaction t (with_payer_db d p)).2 /\ (forall g, g ∈ G' <-> g ∈ G \/ g = (id, t))) as (G' & Hc & HG).
  { eapply (core_recorded G L p id lane t (pt_now i) d (so_core _ _ _ _ Hs) Hid Hlane Ht); [by intros Hk; apply Hpay|done|by rewrite <- E2|].
    rewrite <- E2. cbn. destruct (existsb _ _); reflexivity. }
  assert (claim_ids d = claim_ids (py_db p)) as Hcl by (unfold claim_ids; by rewrite <- E2).
  exists G', (Ok tt), (sendRawTransaction t (with_payer_db d p)).2. split; [done|]. split; [|done].
  eapply state_step; [exact Hs|exact Hc|intros g Hg; apply HG; by left|done| | | | |done|done|by left].
  - intros j r Hr. cbn. rewrite E1. exists r. by repeat split.
  - cbn. by rewrite Hcl.
  - intros j x t' Hx Hd [Hin Hk]%in_payouts. apply in_payouts. split; [|done]. apply HG in Hin as [Hin|[= -> ->]]; [done|].
    by destruct (proj2 (Hpay Hk) x Hx).
  - intros j r lane' Hin g [Hg| ->]%HG; [by left|right]. by apply (Hsend j r lane').
Qed.

Lemma kill_lane_ok G L p ws i id a account nonce observed s : state_ok G L p ws -> (exists to amt, (id, tx_payout account nonce to amt) ∈ G) ->
  turn_ok L ws (kill_lane_answered sign i id a account nonce observed s p).
Proof.
  intros Hs (to & amt & Hg). unfold kill_lane_answered, earlierNonceValues.
  match goal with |- turn_ok _ _ (call_bind (on_tables (select_table ?q)) ?k p) => destruct (select_tables i q k p) as [[e E]|E] end;
    setoid_rewrite E; clear E; [by apply (turn_ends G)|].
  destruct (kill_status _ _ _ _); [|by apply (turn_ends G)..].
  destruct (broadcast_ok G L p ws i id {| lane_account := account; lane_nonceValue := nonce; observedSlot := Some observed |}
    (tx_kill account nonce)) as (G' & r & q & E & Hq & _); [done|by apply (co_signed _ _ _ (so_core _ _ _ _ Hs) _ Hg)|done|by exists to, amt|done| |].
  - intros j r lane' Hin. destruct (pk_wait _ _ _ _ (so_paths _ _ _ _ Hs) _ Hin) as (_ & H1 & H2). split.
    + intros ->. apply H1. by apply (list_elem_of_fmap_2 fst _ _ Hg).
    + intros E. apply H2. rewrite <- E. exact (list_elem_of_fmap_2 (dt_lane ∘ snd) _ _ Hg).
  - unfold call_bind. rewrite E. destruct r; by apply (turn_ends G').
Qed.

Lemma sendUsdcDurable_ok G L p ws ws' i id w lane : state_ok G L p ws -> ws ≡ₚ at_send id w lane :: ws' ->
  turn_ok L ws' (sendUsdcDurable sign i id w lane p).
Proof.
  intros Hs Hp. pose proof (state_drop _ _ _ _ _ _ Hp Hs) as Hs'. assert (at_send id w lane ∈ ws) as Hin by (rewrite Hp; by left).
  destruct Hs as [Hc [P1 P2 P3 P4 P5 P6] Hr].
  destruct (P1 _ Hin) as ((r & Hrow & Epay) & Hid & Hlane).
  destruct (P3 id) as [Hcl Hfl]; [by apply (sending_owned id w lane)|].
  rewrite Hp in P2, P4. cbn in P2, P4. apply NoDup_cons in P2 as [P2 _]. apply NoDup_cons in P4 as [P4 _].
  assert (lane_nonceValue lane ∈ reservedNonces p) as Hres.
  { apply P5. apply list_elem_of_omap. by exists (at_send id w lane). }
  destruct (broadcast_ok G L p ws' i id lane (tx_payout (lane_account lane) (lane_nonceValue lane) (destination w) (w_amount w)))
    as (G' & o & q & E & Hq & Q1 & Q2 & Q3); [done|done|done| | | |].
  - split; [done|]. split; [done|]. exists r. split; [done|]. by destruct Epay as (_ & -> & ->).
  - intros _. split.
    + intros by_ Hl. by apply (Hr id by_ Hl w lane).
    + intros x Hx Hd. destruct (P6 x id) as [_ Hns]; [rewrite Hp; by right|done|]. by apply (Hns w lane).
  - intros j r' lane' Hin'. split.
    + intros <-. apply P2. by apply (sending_owned id r' lane').
    + intros [= E1 E2]. apply P4. apply list_elem_of_omap. exists (at_send j r' lane'). split; [done|]. by cbn; rewrite E2.
  - assert (sendUsdcDurable sign i id w lane p = (Ok (Some (at_broadcast id lane)), q)) as ->.
    { unfold sendUsdcDurable, call_bind, call_catch. rewrite E. by destruct o as [[]|e]. }
    apply (turn_waits G'). apply state_add; [done|done| | |done|done].
    + intros j [= <-]. by rewrite Q1, Q2.
    + intros n [= <-]. by rewrite Q3.
Qed.

(** *** Claiming *)

Lemma queue_moves G L p ws (d : payout_db) : state_ok G L p ws ->
  d.1 = (py_db p).1 /\ chain_claims d.2 = chain_claims (py_db p).2 /\ payout_attempts d.2 = payout_attempts (py_db p).2 ->
  state_ok G L (with_payer_db d p) ws.
Proof.
  intros Hs (E1 & E2 & E3). apply state_rows; [|done]. split; unfold claim_ids; rewrite ?E1, ?E2; try done.
  - apply Hs.
  - intros id r Hr. exists r. by repeat split.
  - intros id _. apply row_settles_refl.
Qed.

Lemma dequeue_ok G L p ws i id : state_ok G L p ws ->
  turn_ok L ws ((on_tables (@dequeuePayout _ (payout_driver i) id) ;! call_ret None) p).
Proof.
  intros Hs. rewrite tables_bind. destruct (@dequeuePayout _ (payout_driver i) id (py_db p)) as [[u|e] d] eqn:E;
    apply (queue_run (pt_frozen i)) in E; (apply (turn_ends G); [|done]; by apply queue_moves).
Qed.

Lemma queue_kept_ok G L p ws i id at_ : state_ok G L p ws ->
  turn_ok L ws ((on_tables (@enqueuePayout _ (payout_driver i) id at_) ;! call_ret None) p).
Proof.
  intros Hs. rewrite tables_bind. destruct (@enqueuePayout _ (payout_driver i) id at_ (py_db p)) as [[u|e] d] eqn:E;
    apply (enqueue_run (pt_frozen i)) in E; (apply (turn_ends G); [|done]; by apply queue_moves).
Qed.

Lemma fire_ok G L p ws i id : state_ok G L p ws -> turn_ok L ws (firePathZero i id p).
Proof.
  intros Hs. unfold firePathZero.
  match goal with |- turn_ok _ _ (call_bind _ ?k p) => destruct (row_tables i id k p) as [[e E]|E] end; setoid_rewrite E; clear E;
    [by apply (turn_ends G)|].
  destruct (withdrawal_in id (py_db p).1) as [w|] eqn:Ew; [|by apply dequeue_ok with G].
  case_bool_decide; [|by apply dequeue_ok with G]. apply (turn_waits G). apply state_add; try done. by exists w.
Qed.

(** The lane holds a nonce no recorded transaction used. *)
Lemma unused_lane G L p lane : core G L p -> existsb (over_nonce (lane_account lane) (lane_nonceValue lane)) (payout_attempts (py_db p).2) = false ->
  (lane_account lane, lane_nonceValue lane) ∉ dt_lane ∘ snd <$> G.
Proof.
  intros Hc Hu (g & E & Hg)%list_elem_of_fmap. apply list_elem_of_lookup in Hg as (k & Hk).
  destruct (Forall2_lookup_r _ _ _ _ _ (co_attempts _ _ _ Hc) Hk) as (a & Ha & (_ & _ & _ & F1 & F2)).
  apply not_true_iff_false in Hu. apply Hu, existsb_exists. exists a. split; [by eapply list_elem_of_In, list_elem_of_lookup_2|].
  injection E as E1 E2. unfold over_nonce. rewrite F1, F2, E1, E2. by rewrite !bool_decide_true.
Qed.

Lemma claim_won_ok G L p ws i id w lane d : state_ok G L p ws ->
  (exists r, withdrawal_in id (py_db p).1 = Some r /\ same_payee w r) ->
  (lane_nonceValue lane ∉ reservedNonces p) -> ((lane_account lane, lane_nonceValue lane) ∉ dt_lane ∘ snd <$> G) ->
  (exists r, withdrawal_in id (py_db p).1 = Some r /\ w_status r = pending) ->
  d.1 = updated id (fun w => bool_decide (w_status w = pending)) (with_claim (pt_now i) None) (py_db p).1 ->
  (id ∉ claim_ids (py_db p)) -> payout_attempts d.2 = payout_attempts (py_db p).2 -> claim_ids d = claim_ids (py_db p) ++ [id] ->
  state_ok G L {| py_db := d; payoutsInFlight := payoutsInFlight p ∪ {[id]}; reservedNonces := reservedNonces p ∪ {[lane_nonceValue lane]};
                  wire := wire p; py_log := py_log p |} (ws ++ [at_send id w lane]).
Proof.
  intros Hs (r & Hrow & Hpay) Hres Hlane (r' & Hr' & Hst) E1 Hn E2 E3.
  assert (r' = r) as -> by congruence. clear Hr'. pose proof Hs as [Hc [P1 P2 P3 P4 P5 P6] Hr].
  assert (forall w, same_payee w (with_claim (pt_now i) None w)) as Hp by by repeat split.
  assert (state_ok G L {| py_db := d; payoutsInFlight := payoutsInFlight p ∪ {[id]}; reservedNonces := reservedNonces p ∪ {[lane_nonceValue lane]};
                  wire := wire p; py_log := py_log p |} ws) as Hs'.
  { eapply state_step; [exact Hs| |done|done| | |done|by left| | |by left]; cbn.
    - eapply core_frame; [..|by eapply (core_claimed G L p id i d r)]; done.
    - intros j rj Hj. rewrite E1, (updated_in _ _ _ Hp) by apply Hc. case_bool_decide as Hji; [subst j|by exists rj; repeat split].
      rewrite Hj. cbn. eexists. split; [done|]. case_bool_decide; [apply Hp|by repeat split].
    - intros j Hj. rewrite E3. apply elem_of_app. by left.
    - intros j _ Hj. apply elem_of_union. by left.
    - intros n _ Hj. apply elem_of_union. by left. }
  apply state_add; [done| | | |done|]; cbn.
  - split; [|split; [|done]].
    + rewrite E1, (updated_in _ _ _ Hp), bool_decide_true, Hrow by (done || apply Hc). cbn. eexists. split; [done|].
      rewrite bool_decide_true by done. done.
    + intros (g & -> & Hg)%list_elem_of_fmap. by apply Hn, (co_signed _ _ _ Hc).
  - intros j [= <-]. split; [rewrite E3; apply elem_of_app; right; by left|]. split; [apply elem_of_union; right; by apply elem_of_singleton|].
    intros Ho. by apply Hn, P3.
  - intros n [= <-]. split; [apply elem_of_union; right; by apply elem_of_singleton|]. intros Ho. by apply Hres, P5.
  - intros j r0 lane0 [= <- <- <-]. split.
    + intros x Hx Hd. by apply Hn, (P6 x id Hx Hd).
    + intros by_ Hl. by apply Hn, (co_log_closed _ _ _ Hc _ Hl).
Qed.

Lemma lane_answered_ok G L p ws i id w s : state_ok G L p ws -> (exists r, withdrawal_in id (py_db p).1 = Some r /\ same_payee w r) ->
  turn_ok L ws (lane_answered i id w s p).
Proof.
  intros Hs Hrow. destruct s as [lane|sq]; cbn [lane_answered]; [|by apply queue_kept_ok with G].
  unfold call_bind at 1. cbn [reads]. case_bool_decide as Hres; [by apply queue_kept_ok with G|]. unfold isNonceValueUsed.
  match goal with |- turn_ok _ _ (call_bind (on_tables (select_table ?q)) ?k p) => destruct (select_tables i q k p) as [[e E]|E] end;
    setoid_rewrite E; clear E; [by apply (turn_ends G)|].
  destruct (existsb _ _) eqn:Eused; [by apply queue_kept_ok with G|].
  unfold call_bind at 1. unfold call_catch, on_tables.
  destruct (claim_for_chain i id (py_db p)) as [[won|e] d] eqn:E; apply claim_run in E; try apply Hs.
  - destruct won; cbn [negb].
    + destruct E as (E1 & E2 & E3 & E4 & E5). apply (turn_waits G). apply (claim_won_ok G L p ws i id w lane d); try done.
      eapply unused_lane; [apply Hs|done].
    + destruct E as (E1 & E2 & E3 & E4). apply (turn_ends G); [|done]. apply state_rows; [|done]. split; unfold claim_ids; rewrite ?E2, ?E3; try done.
      * apply Hs.
      * intros j r. rewrite E1. intros Hj. exists r. by repeat split.
      * intros j _. rewrite E1. apply row_settles_refl.
  - subst d. 
    destruct (isEmergencyFrozenAbort e); cbn [call_ret call_throw negb]; apply (turn_ends G); try done; by destruct p.
Qed.

(** ** A step *)

Lemma state_perm G L p ws ws' : ws ≡ₚ ws' -> state_ok G L p ws -> state_ok G L p ws'.
Proof.
  intros Hp [Hc [P1 P2 P3 P4 P5 P6] Hr]. assert (forall id, not_sending id ws -> not_sending id ws') as Hns
    by (intros id; apply not_sending_sub; intros w; by rewrite Hp).
  split; [done| |].
  - split.
    + intros w Hw. apply P1. by rewrite Hp.
    + by rewrite <- Hp.
    + intros id. rewrite <- Hp. apply P3.
    + by rewrite <- Hp.
    + intros n. rewrite <- Hp. apply P5.
    + intros w id Hw Hd. destruct (P6 w id) as [A B]; [by rewrite Hp|done|]. split; [done|by apply Hns].
  - intros id by_ H. by eapply Hns, Hr.
Qed.

Lemma decider_may G L p ws ws' x id (inline : bool) : state_ok G L p ws -> ws ≡ₚ x :: ws' -> deciding x = Some id ->
  owner x = (if inline then Some id else None) -> may_decide id inline p ws'.
Proof.
  intros Hs Hp Hd Ho. assert (x ∈ ws) as Hx by (rewrite Hp; by left). destruct (so_paths _ _ _ _ Hs) as [P1 P2 P3 P4 P5 P6].
  destruct (P6 x id Hx Hd) as [A B]. split; [done| |].
  - eapply not_sending_sub; [|exact B]. intros w Hw. rewrite Hp. by right.
  - intros ->. rewrite Hp in P2. cbn in P2. rewrite Ho in P2. apply NoDup_cons in P2 as [P2 _]. split; [|done].
    apply P3, list_elem_of_omap. eauto.
Qed.

Definition true_answer L (a : pay_answer) : Prop :=
  match a with ans_read signature (finalized ok _) => exists t, sign t = signature /\ (t, ok) ∈ L | _ => True end.

Lemma pay_resume_ok G L p ws ws' i x a : state_ok G L p ws -> ws ≡ₚ x :: ws' -> true_answer L a ->
  turn_ok L ws' (pay_resume sign killAfterMs i x a p).
Proof.
  intros Hs Hp Ha. pose proof (state_drop _ _ _ _ _ _ Hp Hs) as Hs'. assert (x ∈ ws) as Hx by (rewrite Hp; by left).
  pose proof (pk_wait _ _ _ _ (so_paths _ _ _ _ Hs) _ Hx) as Hw.
  assert (turn_ok L ws' (Ok (Some x), p)) as Hkeep.
  { apply (turn_waits G). eapply state_perm; [|exact Hs]. rewrite Hp. by rewrite <- Permutation_cons_append. }
  assert (forall id lane, owner x = Some id -> holder x = Some (lane_nonceValue lane) -> turn_ok L ws' (send_over i id lane p)) as Hover.
  { intros id lane Ho Hh. destruct (so_paths _ _ _ _ Hs) as [P1 P2 P3 P4 P5 P6]. destruct (P3 id) as [A B].
    { apply list_elem_of_omap. eauto. }
    rewrite Hp in P2, P4. cbn in P2, P4. rewrite Ho in P2. rewrite Hh in P4. apply NoDup_cons in P2 as [P2 _]. apply NoDup_cons in P4 as [P4 _].
    by apply send_over_ok with G. }
  assert (forall id (inline : bool) m, deciding x = Some id -> owner x = (if inline then Some id else None) ->
    (may_decide id inline p ws' -> turn_ok L ws' (m p)) -> turn_ok L ws' (closing_path inline id m p)) as Hclose.
  { intros id inline m Hd Ho Hm. pose proof (decider_may _ _ _ _ _ _ _ _ Hs Hp Hd Ho) as Hmay. apply closing_ok; [|auto].
    intros ->. by destruct (md_inline _ _ _ _ Hmay eq_refl). }
  destruct x as [id r|id r lane|id lane|id inl r l todo unf unr|id inl r v|id inl r sig at_|id pa acc n obs], a as [s| | |sg s|rc key|];
    try exact Hkeep; cbn [pay_resume].
  - by apply lane_answered_ok with G.
  - by apply Hover.
  - by apply sendUsdcDurable_ok with G ws.
  - by apply Hover.
  - apply Hclose; [done|by destruct inl|]. intros Hmay. eapply status_read_ok; [done|done|exact Hw|]. by intros ok slot ->.
  - apply Hclose; [done|by destruct inl|]. intros Hmay. by eapply verdict_resumes_ok.
  - apply Hclose; [done|by destruct inl|]. intros Hmay. by eapply complete_ok.
  - apply closing_ok; [done|]. by eapply kill_lane_ok.
Qed.

Definition world_ok (w : chain_world) : Prop := exists G, state_ok G (cw_landed w) (cw_payer w) (cw_waits w).

Lemma start_ok d q : NoDup (withdrawal_ids d) -> world_ok {|
    cw_payer := {| py_db := (d, {| chain_claims := []; payout_attempts := []; payout_queue := q |});
                   payoutsInFlight := ∅; reservedNonces := ∅; wire := []; py_log := [] |};
    cw_waits := []; cw_landed := [] |}.
Proof.
  intros Hn. exists []. split; [split|split|]; cbn; try done; try (constructor; done); intros *; try (by intros ?%elem_of_nil); by intros ? ?%elem_of_nil.
Qed.

Lemma step_ok w e : world_ok w -> pay_allowed w e -> world_ok (pay_step w e).
Proof.
  intros [G Hs] Ha. destruct e as [id i|id i|n a i| |t ok|d]; cbn [pay_step] in *.
  - destruct (fire_ok G _ _ _ i id Hs) as [G' H]. by exists G'.
  - destruct (not_thrown_ok _ _ _ _ (resolve_ok G _ _ _ i id false Hs ltac:(done))) as [G' H]. by exists G'.
  - destruct (cw_waits w !! n) as [x|] eqn:E; [|by exists G]. apply delete_Permutation in E.
    destruct (pay_resume_ok G _ _ _ _ i x a Hs E) as [G' H]; [|by exists G']. by destruct a as [| | |? [] | |].
  - exists G. cbn. destruct Hs as [Hc Hp Hr]. split; [by apply (core_frame _ _ (cw_payer w))| |by intros ? ? _ ? ? ?%elem_of_nil].
    split; cbn; try (constructor; done); intros *; try (by intros ?%elem_of_nil); by intros ? ?%elem_of_nil.
  - exists G. cbn. destruct Ha as [Hw Hn]. eapply state_step; [exact Hs|by apply core_landing; [..|apply Hs]|done|set_solver| |done|done|by left|done|done|by left].
    intros id r Hr. exists r. by repeat split.
  - exists G. cbn. apply state_rows; [|done]. destruct Ha as [A1 A2 A3 A4]. split; [done|by unfold claim_ids; rewrite A1|by rewrite A1|done|].
    intros id Hid. by apply A4.
Qed.

Lemma pay_reachable_ok w : pay_reachable w -> world_ok w.
Proof. induction 1; [by apply start_ok|by apply step_ok]. Qed.
(** Every attempt with the status the chain has for it. *)
Definition read_all (slots : durable_tx -> Z) L (l : list PayoutAttempt) : list PayoutAttempt :=
  (fun a => match pa_final_status a with
            | Some _ => a
            | None => match List.find (fun x => bool_decide (sign x.1 = pa_signature a)) L with
                      | Some (t, ok) => with_final ok (slots t) a
                      | None => a
                      end
            end) <$> l.

Lemma read_all_snapshot G L id slots l : snapshot G L id l -> snapshot G L id (read_all slots L l).
Proof.
  intros [S1 S2]. split.
  - intros a (b & -> & Hb)%list_elem_of_fmap. destruct (S1 b Hb) as (t & Ht & Hfor & Hfin). exists t. split; [done|].
    destruct (pa_final_status b) as [o|] eqn:Eb; [by rewrite Eb in *|]. destruct (List.find _ L) as [[t' ok]|] eqn:Ef; [|by rewrite Eb].
    apply find_some in Ef as [Hin%list_elem_of_In E%bool_decide_eq_true]. split; [done|]. cbn. intros o [= <-].
    assert (t' = t) as ->; [|done]. apply sign_inj. destruct Hfor as (_ & F & _). cbn in *. congruence.
  - intros t Ht. destruct (S2 t Ht) as (a & Ha & Hfor). eexists. split; [by apply list_elem_of_fmap_2|].
    destruct (pa_final_status a); [done|]. by destruct (List.find _ L) as [[t' ok]|].
Qed.

Lemma read_all_final G L p id slots l a t ok : core G L p -> snapshot G L id l -> a ∈ read_all slots L l -> attempt_for a (id, t) -> (t, ok) ∈ L ->
  pa_final_status a = Some ok.
Proof.
  intros Hc Hsnap Ha Hfor HL. destruct (read_all_snapshot G L id slots l Hsnap) as [S1 _]. destruct (S1 a Ha) as (t' & _ & Hfor' & Hfin).
  pose proof (attempt_unique _ _ _ Hfor Hfor') as [= <-]. destruct (pa_final_status a) as [o|] eqn:E.
  - pose proof (co_landed_once _ _ _ Hc _ _ _ _ (Hfin o eq_refl) HL eq_refl) as [= ->]. done.
  - exfalso. revert E. apply list_elem_of_fmap in Ha as (b & -> & Hb). destruct (pa_final_status b) eqn:Eb; [by rewrite Eb|].
    destruct (List.find _ L) as [[t1 o1]|] eqn:Ef; [done|]. intros _. pose proof (find_none _ _ Ef (t, ok) ltac:(by apply list_elem_of_In)) as Hn.
    apply bool_decide_eq_false in Hn. apply Hn. by destruct Hfor as (_ & F & _).
Qed.

(** A landed transaction over the nonce of a payout of [id] is an attempt of [id]. *)
Lemma landed_attempt G L p id t t' ok : core G L p -> (id, t) ∈ payouts G -> (t', ok) ∈ L -> dt_lane t' = dt_lane t -> (id, t') ∈ G.
Proof.
  intros Hc Ht HL Hlane. pose proof (co_wire _ _ _ Hc t' (co_landed _ _ _ Hc t' ok HL)) as ([id' t2] & -> & Hg)%list_elem_of_fmap. cbn in *.
  assert (exists t1, (id', t1) ∈ payouts G /\ dt_lane t1 = dt_lane t2) as (t1 & Ht1 & Hl1).
  { destruct t2 as [a n to amt|a n]; [by exists (tx_payout a n to amt); split; [apply in_payouts|]|].
    destruct (co_kill _ _ _ Hc _ _ _ Hg) as (to & amt & Hp). by exists (tx_payout a n to amt); split; [apply in_payouts|]. }
  assert (dt_lane t1 = dt_lane t) as E by congruence.
  pose proof (nodup_key (dt_lane ∘ snd) (payouts G) (id', t1) (id, t) (co_payout_lanes _ _ _ Hc) Ht1 Ht E) as [= -> _]. done.
Qed.

(** Read so, the attempts of a withdrawal decide it once a transaction over its
    payout's nonce landed. *)
Lemma verdict_decides G L p id slots t t' ok unf unr : core G L p -> (id, t) ∈ payouts G -> (t', ok) ∈ L -> dt_lane t' = dt_lane t ->
  match chain_verdict (read_all slots L (attempts_in id (py_db p).2)) unf unr with verdict_undecided _ _ _ _ => False | _ => True end.
Proof.
  intros Hc Ht HL Hlane. pose proof (core_snapshot G L p id Hc) as Hsnap. set (l := read_all slots L _).
  destruct (read_all_snapshot G L id slots _ Hsnap : snapshot G L id l) as [S1 _].
  pose proof (fun a t ok => read_all_final G L p id slots _ a t ok Hc Hsnap : a ∈ l -> _) as Hfin.
  assert (forall t, (id, t) ∈ G -> exists a, a ∈ l /\ attempt_for a (id, t)) as Hall.
  { intros t1 Ht1. destruct (attempt_here G L p id t1 Hc Ht1) as (a & Ha & Hfor). eexists. split; [by apply list_elem_of_fmap_2|].
    destruct (pa_final_status a); [done|]. by destruct (List.find _ L) as [[? ?]|]. }
  pose proof Ht as [Hg Hk]%in_payouts. pose proof (landed_attempt G L p id t t' ok Hc Ht HL Hlane) as Hg'.
  unfold chain_verdict. destruct (List.filter (ends true) _) eqn:Epaid; [|done].
  destruct (Hall t Hg) as (a0 & Ha0 & Hfor0).
  assert (forall a t, a ∈ l -> attempt_for a (id, t) -> dt_kind t = kind_payout -> List.In a (List.filter is_payout l)) as Hpay.
  { intros a t1 Ha Hfor Hk1. apply filter_In. split; [by apply list_elem_of_In|]. rewrite (attempt_pays _ _ _ Hfor). by apply bool_decide_eq_true. }
  destruct (durable_payout l) as [a|] eqn:Ed.
  2:{ pose proof (find_none _ _ Ed a0 (Hpay _ _ Ha0 Hfor0 Hk)) as Hn. destruct Hfor0 as (_ & _ & _ & F1 & F2).
      unfold is_durable in Hn. by rewrite F1, F2 in Hn. }
  apply find_some in Ed as [[Ha%list_elem_of_In Hp]%filter_In _]. destruct (S1 a Ha) as (t2 & Ht2 & Hfor & _).
  rewrite (attempt_pays _ _ _ Hfor) in Hp. apply bool_decide_eq_true in Hp.
  assert (t2 = t) as -> by (by apply (payout_of_id G L p id); [|apply in_payouts|]).
  destruct (ends false a) eqn:Ef; [done|]. destruct (existsb _ _) eqn:Ek; [done|]. destruct (dt_kind t') eqn:Ek'.
  - assert (t' = t) as -> by (by apply (payout_of_id G L p id); [|apply in_payouts|]). pose proof (Hfin a t ok Ha Hfor HL) as Hst.
    destruct ok; [|by unfold ends in Ef; rewrite Hst in Ef].
    assert (List.In a (List.filter (ends true) (List.filter is_payout l))) as Hin; [|by rewrite Epaid in Hin].
    apply filter_In. split; [by eapply Hpay|]. unfold ends. by rewrite Hst.
  - destruct (Hall t' Hg') as (k & Hkl & Hkfor). apply not_true_iff_false in Ek. apply Ek, existsb_exists. exists k. split.
    + apply filter_In. split; [by apply list_elem_of_In|]. by rewrite (attempt_pays _ _ _ Hkfor), Ek'.
    + rewrite (Hfin k t' ok Hkl Hkfor HL). destruct Hfor as (_ & _ & _ & A1 & A2), Hkfor as (_ & _ & _ & B1 & B2). cbn in *.
      injection Hlane as E1 E2. rewrite A1, A2, B1, B2, E1, E2. by rewrite !bool_decide_true.
Qed.

Lemma recorded_signed G L p id t : core G L p -> payout_recorded (py_db p) id t <-> (id, t) ∈ payouts G.
Proof.
  intros Hc. rewrite in_payouts. split.
  - intros (Hk & a & Ha & E1 & E2). split; [|done]. apply list_elem_of_lookup in Ha as (k & Hk').
    destruct (Forall2_lookup_l _ _ _ _ _ (co_attempts _ _ _ Hc) Hk') as ([id' t'] & Hg & (F1 & F2 & _)). cbn in *.
    assert (t' = t) as -> by (apply sign_inj; congruence). assert (id' = id) as -> by congruence. by eapply list_elem_of_lookup_2.
  - intros [Hg Hk]. split; [done|]. apply list_elem_of_lookup in Hg as (k & Hg).
    destruct (Forall2_lookup_r _ _ _ _ _ (co_attempts _ _ _ Hc) Hg) as (a & Ha & (F1 & F2 & _)). exists a.
    split; [by eapply list_elem_of_lookup_2|done].
Qed.
End step.

(** ** What the relay may promise *)

(** C8: Over every interleaving of the send path, the resolution loop, kills, restarts,
    the freeze, other modules' writes and the chain's landings: a withdrawal's
    settlement is logged once.  One logged as settled is closed and a payout of exactly
    its amount to its own destination, with the signature logged, is on the chain.  One
    logged as refunded is closed and no payout of it has landed, nor can land.  A
    withdrawal has one payout at most and a payout one withdrawal; and whatever payout
    lands was recorded before, for a withdrawal claimed for the chain. *)
Theorem chain_payout_once sign killAfterMs w : (forall t t', sign t = sign t' -> t = t') -> pay_reachable sign killAfterMs w ->
  NoDup (log_id <$> py_log (cw_payer w)) /\
  (forall id signature, log_auto_settled id signature ∈ py_log (cw_payer w) -> closed_in id (cw_db w).1 /\
     exists account nonce r, withdrawal_in id (cw_db w).1 = Some r /\
       sign (tx_payout account nonce (destination r) (w_amount r)) = signature /\
       (tx_payout account nonce (destination r) (w_amount r), true) ∈ cw_landed w) /\
  (forall id by_, log_refunded_from_chain id by_ ∈ py_log (cw_payer w) -> closed_in id (cw_db w).1 /\
     forall t, payout_recorded sign (cw_db w) id t -> (t, true) ∉ cw_landed w /\ ~ pay_allowed sign w (pe_land t true)) /\
  (forall id t id' t', payout_recorded sign (cw_db w) id t -> payout_recorded sign (cw_db w) id' t' -> id = id' <-> t = t') /\
  (forall t ok, (t, ok) ∈ cw_landed w -> dt_kind t = kind_payout -> exists id, payout_recorded sign (cw_db w) id t /\ id ∈ claim_ids (cw_db w)).
Proof.
  intros Hinj Hw. destruct (pay_reachable_ok sign killAfterMs Hinj w Hw) as [G [Hc _ _]].
  pose proof (fun id t => recorded_signed sign Hinj G _ _ id t Hc) as Hrec. split; [apply Hc|]. split; [|split; [|split]].
  - intros id signature He. pose proof (co_log _ _ _ _ Hc _ He) as (t & Ht & Hsig & HL). split; [apply (co_log_closed _ _ _ _ Hc _ He)|].
    apply in_payouts in Ht as [Hg Hk]. destruct t as [account nonce to amt|]; [|done].
    destruct (co_payout _ _ _ _ Hc _ _ _ _ _ Hg) as (r & Hr & -> & ->). by exists account, nonce, r.
  - intros id by_ He. split; [apply (co_log_closed _ _ _ _ Hc _ He)|]. intros t Ht%Hrec.
    destruct (co_log _ _ _ _ Hc _ He t Ht) as (t' & ok & HL & Hlane & Hne). split.
    + intros Hin. by apply Hne, (co_landed_once _ _ _ _ Hc).
    + intros [_ Hn]. by apply (Hn t' ok).
  - intros id t id' t' H1%Hrec H2%Hrec. split.
    + intros <-. by eapply payout_of_id.
    + intros <-. pose proof (nodup_key (dt_lane ∘ snd) (payouts G) (id, t) (id', t) (co_payout_lanes _ _ _ _ Hc) H1 H2 eq_refl) as E. by injection E.
  - intros t ok HL Hk. pose proof (co_wire _ _ _ _ Hc t (co_landed _ _ _ _ Hc t ok HL)) as ([id t'] & -> & Hg)%list_elem_of_fmap.
    exists id. split; [by apply Hrec, in_payouts|by apply (co_signed _ _ _ _ Hc _ Hg)].
Qed.


(** ** A run *)

(** The events the chain and other modules allow, decided for a run without the latter. *)
Definition allowedb (sign : durable_tx -> string) (w : chain_world) (e : pay_event) : bool :=
  match e with
  | pe_land t _ => bool_decide (t ∈ wire (cw_payer w)) && forallb (fun x => negb (bool_decide (dt_lane x.1 = dt_lane t))) (cw_landed w)
  | pe_answer _ (ans_read signature (finalized ok _)) _ =>
      existsb (fun x => bool_decide (sign x.1 = signature) && eqb x.2 ok) (cw_landed w)
  | pe_other _ => false
  | _ => true
  end.

Fixpoint pay_run (sign : durable_tx -> string) (killAfterMs : Z) (w : chain_world) (es : list pay_event) : option chain_world :=
  match es with
  | [] => Some w
  | e :: es => if allowedb sign w e then pay_run sign killAfterMs (pay_step sign killAfterMs w e) es else None
  end.

Lemma allowedb_spec sign w e : allowedb sign w e = true -> pay_allowed sign w e.
Proof.
  destruct e as [| |n [| | |sg [ok slot|]| |] i| |t ok|d]; cbn; try done.
  - intros ([t ok'] & Hin%list_elem_of_In & [E%bool_decide_eq_true E'%eqb_prop]%andb_true_iff)%existsb_exists. cbn in *. subst ok'. by exists t.
  - intros [Hw%bool_decide_eq_true Hf]%andb_true_iff. split; [done|]. intros t' ok' Hin E. rewrite forallb_forall in Hf.
    specialize (Hf (t', ok') ltac:(by apply list_elem_of_In)). cbn in Hf. by rewrite bool_decide_true in Hf.
Qed.

Lemma pay_run_reachable sign killAfterMs es w w' : pay_reachable sign killAfterMs w -> pay_run sign killAfterMs w es = Some w' ->
  pay_reachable sign killAfterMs w'.
Proof.
  revert w. induction es as [|e es IH]; intros w Hw; cbn; [by intros [= <-]|].
  destruct (allowedb sign w e) eqn:E; [|done]. intros Hr. apply (IH _ (pay_next _ _ w e Hw (allowedb_spec _ _ _ E)) Hr).
Qed.

(** A signature that tells transactions apart: a number for the message. *)
Definition demo_sign (t : durable_tx) : string := pretty (N.pos (encode
  (match t with tx_payout a n to z => inl (a, n, to, z) | tx_kill a n => inr (a, n) end))).

Lemma demo_sign_inj t t' : demo_sign t = demo_sign t' -> t = t'.
Proof.
  unfold demo_sign. intros E%(inj pretty). injection E as E%(inj encode). destruct t, t'; by simplify_eq.
Qed.

Definition demo_withdrawal (id : string) (amount : Z) : withdrawal_row := {| wd := {|
  withdrawal_id := id; w_motebit_id := "alice"%string; w_amount := amount; w_currency := "USDC"%string; destination := "wallet"%string;
  w_status := pending; payout_reference := None; requested_at := 0; completed_at := None; failure_reason := None;
  relay_signature := None; relay_public_key := None; claimed_at := None; payout_valid_until := None |}; idempotency_key := None |}.
Definition demo_rows : relay_db := upd_withdrawals (fun _ => [demo_withdrawal "w1"%string 700; demo_withdrawal "w2"%string 300])
  (upd_accounts (fun _ => [{| va_motebit_id := "alice"%string; va_balance := 0; va_currency := "USD"%string; va_created_at := 0; va_updated_at := 0 |}])
    createAccountTables).
Definition demo_chain : chain_world := {|
  cw_payer := {| py_db := (demo_rows, {| chain_claims := []; payout_attempts := []; payout_queue := [] |});
                 payoutsInFlight := ∅; reservedNonces := ∅; wire := []; py_log := [] |};
  cw_waits := []; cw_landed := [] |}.

(** The first withdrawal is paid; the second's payout never lands, so its nonce is
    killed after five minutes and its amount returned. *)
Definition demo_events : list pay_event :=
  let at_ (ms : Z) := {| pt_frozen := false; pt_now := ms; pt_uuid := "u"%string |} in
  let lane n slot := ans_lane (lane_ready {| lane_account := "nonce"%string; lane_nonceValue := n; observedSlot := Some slot |}) in
  let pay n amount := tx_payout "nonce"%string n "wallet"%string amount in
  let kill := tx_kill "nonce"%string "n2"%string in
  [ pe_fire "w1"%string (at_ 10); pe_answer 0 (lane "n1"%string 1) (at_ 11); pe_answer 0 ans_signed (at_ 12); pe_land (pay "n1"%string 700) true;
    pe_answer 0 ans_resume (at_ 13); pe_answer 0 (ans_read (demo_sign (pay "n1"%string 700)) (finalized true 2)) (at_ 14);
    pe_answer 0 ans_resume (at_ 15); pe_answer 0 (ans_receipt (Some "receipt"%string) (Some "key"%string)) (at_ 16);
    pe_fire "w2"%string (at_ 20); pe_answer 0 (lane "n2"%string 3) (at_ 21); pe_answer 0 ans_signed (at_ 22); pe_restart;
    pe_resolve "w2"%string (at_ 400000); pe_answer 0 (ans_read (demo_sign (pay "n2"%string 300)) (status_unknown absent)) (at_ 400001);
    pe_answer 0 ans_resume (at_ 400002); pe_answer 0 (lane "n2"%string 4) (at_ 400003); pe_land kill true;
    pe_resolve "w2"%string (at_ 500000); pe_answer 0 (ans_read (demo_sign (pay "n2"%string 300)) (status_unknown absent)) (at_ 500001);
    pe_answer 0 (ans_read (demo_sign kill) (finalized true 5)) (at_ 500002); pe_answer 0 ans_resume (at_ 500003) ].

Definition demo_after : chain_world := default demo_chain (pay_run demo_sign PAYOUT_KILL_AFTER_MS demo_chain demo_events).

Lemma demo_reached : pay_reachable demo_sign PAYOUT_KILL_AFTER_MS demo_after.
Proof.
  apply (pay_run_reachable demo_sign PAYOUT_KILL_AFTER_MS demo_events demo_chain); [|by vm_compute].
  apply pay_start. apply (bool_decide_unpack _). by vm_compute.
Qed.

Lemma killed_recorded : payout_recorded demo_sign (cw_db demo_after) "w2"%string (tx_payout "nonce"%string "n2"%string "wallet"%string 300).
Proof. split; [done|]. apply Exists_exists, (bool_decide_unpack _). by vm_compute. Qed.

Lemma chain_payout_once_witness : exists w, pay_reachable demo_sign PAYOUT_KILL_AFTER_MS w /\
  py_log (cw_payer w) = [log_auto_settled "w1"%string (demo_sign (tx_payout "nonce"%string "n1"%string "wallet"%string 700)); log_refunded_from_chain "w2"%string killed] /\
  (va_balance <$> relay_accounts (cw_db w).1) = [300] /\
  NoDup (log_id <$> py_log (cw_payer w)) /\ (tx_payout "nonce"%string "n2"%string "wallet"%string 300, true) ∉ cw_landed w.
Proof.
  pose proof demo_reached as Hw.
  assert (py_log (cw_payer demo_after) = [log_auto_settled "w1"%string (demo_sign (tx_payout "nonce"%string "n1"%string "wallet"%string 700)); log_refunded_from_chain "w2"%string killed])
    as Hlog by by vm_compute.
  pose proof (chain_payout_once demo_sign PAYOUT_KILL_AFTER_MS demo_after demo_sign_inj Hw) as (H1 & H2 & H3 & H4 & H5).
  exists demo_after. split; [done|]. split; [done|]. split; [by vm_compute|]. split; [done|].
  apply (H3 "w2"%string killed); [rewrite Hlog; right; by left|exact killed_recorded].
Defined.

