(* ===== verification/Authority.v ===== *)
(** * Tools, turns and decisions ([packages/protocol/src/index.ts],
      [packages/policy/src/risk-model.ts], [authority-delta.ts])

    The records the policy gate reads and writes, and the classification of a tool by
    its hint or by the words of its name and description. *)

From Stdlib Require Import String Ascii.
From S2P Require Import Prelude JsMap JsString LedgerTypes.
Local Open Scope string_scope.
Local Open Scope Z_scope.

Inductive RiskLevel := R0_READ | R1_DRAFT | R2_WRITE | R3_EXECUTE | R4_MONEY.
Inductive DataClass := dc_public | dc_private | dc_secret.
Inductive SideEffect := se_none | se_reversible | se_irreversible.
Inductive AgentTrustLevel := trust_unknown | trust_first_contact | trust_verified | trust_trusted | trust_blocked.

(** The enum's numbers, which the code compares. *)
Definition rank (r : RiskLevel) : Z :=
  match r with R0_READ => 0 | R1_DRAFT => 1 | R2_WRITE => 2 | R3_EXECUTE => 3 | R4_MONEY => 4 end.
Notation "a '<=r' b" := (rank a <=? rank b) (at level 70) : motebit_scope.
Notation "a '<r' b" := (rank a <? rank b) (at level 70) : motebit_scope.
Local Open Scope motebit_scope.

#[export] Instance RiskLevel_eq : EqDecision RiskLevel.
Proof. solve_decision. Defined.
#[export] Instance AgentTrustLevel_eq : EqDecision AgentTrustLevel.
Proof. solve_decision. Defined.

Record ToolRiskProfile := { risk : RiskLevel; dataClass : DataClass; sideEffect : SideEffect; requiresApproval : bool }.

(** [moneyBinding]: true for late. *)
Record ToolDefinition := {
  tool_name : string;
  description : string;
  tool_requiresApproval : bool;
  hint_risk : option RiskLevel;
  hint_dataClass : option DataClass;
  hint_sideEffect : option SideEffect;
  binds_late : bool;
}.

(** A value of [args]: what the code tells apart. *)
Inductive arg_value := arg_string (s : string) | arg_number (n : js_number) | arg_other.
Abbreviation tool_args := (jsmap string arg_value).

(** [SpendCeilingV1] *)
Record SpendCeilingV1 := {
  wire_cumulative : option js_number;
  wire_per_counterparty : option js_number;
  wire_max_actions : option js_number;
  wire_lifetime : option js_number;
  wire_window : option js_number;
}.

Record VerifiedGrant := { vg_grant_id : string; token_issued_at : option Z; spend_ceiling : option SpendCeilingV1 }.

Record TurnContext := {
  turnId : string;
  runId : option string;
  toolCallCount : Z;
  turnStartMs : Z;
  costAccumulated : Z;
  callerMotebitId : option string;
  callerTrustLevel : option AgentTrustLevel;
  remoteMotebitType : option string;
  delegationScope : option string;
  verifiedGrant : option VerifiedGrant;
}.

Record AuthorityDelta := {
  missing_scope : list string;
  required_risk : option RiskLevel;
  posture_ceiling : option RiskLevel;
  requires_verified_grant : bool;
  spend_overage_micro : option Z;
  not_before : option Z;
  quorum_shortfall : option Z;
}.

Definition scopeDelta (toolName : string) : AuthorityDelta := {|
  missing_scope := [toolName]; required_risk := None; posture_ceiling := None; requires_verified_grant := false;
  spend_overage_micro := None; not_before := None; quorum_shortfall := None |}.
Definition postureDelta (requiredRisk postureCeiling : RiskLevel) : AuthorityDelta := {|
  missing_scope := []; required_risk := Some requiredRisk; posture_ceiling := Some postureCeiling; requires_verified_grant := false;
  spend_overage_micro := None; not_before := None; quorum_shortfall := None |}.
Definition grantRequiredDelta (requiredRisk : RiskLevel) : AuthorityDelta := {|
  missing_scope := []; required_risk := Some requiredRisk; posture_ceiling := None; requires_verified_grant := true;
  spend_overage_micro := None; not_before := None; quorum_shortfall := None |}.
Definition quorumShortfallDelta (shortfall : Z) : AuthorityDelta := {|
  missing_scope := []; required_risk := None; posture_ceiling := None; requires_verified_grant := false;
  spend_overage_micro := None; not_before := None; quorum_shortfall := Some shortfall |}.

(** ** Classification *)

(** [\w] *)
Definition word_char (c : ascii) : bool :=
  let n := N_of_ascii c in
  ((48 <=? n) && (n <=? 57) || (65 <=? n) && (n <=? 90) || (97 <=? n) && (n <=? 122) || (n =? 95))%N.

(** The maximal runs of word characters.  A pattern [\b(a|b|...)\b] whose alternatives
    are words matches a text exactly when one of its runs is one of them. *)
Fixpoint words_from (acc : string) (s : string) : list string :=
  match s with
  | EmptyString => [acc]
  | String c s' => if word_char c then words_from (acc ++ String c EmptyString) s' else acc :: words_from EmptyString s'
  end.
Definition words (s : string) : list string := words_from EmptyString s.

(** [/\b(...)\b/i.test(text)] *)
Definition mentions (alternatives : list string) (text : string) : bool :=
  existsb (fun w => bool_decide (w ∈ alternatives)) (words (toLowerCase text)).

Definition RISK_RULES : list (list string * RiskLevel) := [
  (["pay"; "payment"; "charge"; "invoice"; "refund"; "transfer"; "checkout"; "stripe"; "billing"], R4_MONEY);
  (["shell"; "exec"; "run"; "command"; "deploy"; "restart"; "kill"], R3_EXECUTE);
  (["write"; "rewrite"; "rewrites"; "rewriting"; "rewritten"; "overwrite"; "overwrites"; "overwriting"; "overwritten";
    "supersede"; "supersedes"; "superseded"; "superseding"; "forget"; "prune"; "erase"; "create"; "update"; "delete";
    "remove"; "send"; "post"; "push"; "merge"], R2_WRITE);
  (["draft"; "compose"; "generate"; "suggest"; "plan"; "prepare"; "format"], R1_DRAFT);
  (["read"; "get"; "list"; "search"; "fetch"; "query"; "recall"; "check"; "view"; "browse"], R0_READ)].

Definition DATA_CLASS_RULES : list (list string * DataClass) := [
  (["secret"; "credential"; "token"; "password"; "key"; "seed"; "ssn"; "private_key"], dc_secret);
  (["personal"; "private"; "memory"; "calendar"; "email"; "inbox"; "contact"; "photo"], dc_private)].

Definition first_rule {A} (rules : list (list string * A)) (text : string) : option A :=
  snd <$> List.find (fun r => mentions r.1 text) rules.

Definition classifyTool (tool : ToolDefinition) : ToolRiskProfile :=
  let text := tool_name tool ++ " " ++ description tool in
  let risk := match hint_risk tool with Some r => r | None => default R0_READ (first_rule RISK_RULES text) end in
  let dataClass := match hint_dataClass tool with Some c => c | None => default dc_public (first_rule DATA_CLASS_RULES text) end in
  let sideEffect := match hint_sideEffect tool with
                    | Some e => e
                    | None => if R3_EXECUTE <=r risk then se_irreversible else if R2_WRITE <=r risk then se_reversible else se_none
                    end in
  {| risk := risk; dataClass := dataClass; sideEffect := sideEffect;
     requiresApproval := tool_requiresApproval tool || (R2_WRITE <=r risk) |}.

Definition isToolAllowed (profile : ToolRiskProfile) (maxRisk : RiskLevel) : bool := risk profile <=r maxRisk.
