(* ===== verification/BlastRadius.v ===== *)
(** * The ceiling of a grant ([packages/policy/src/grant-blast-radius.ts])

    What a standing grant may spend without a human: the evaluator over a grant's
    accumulator, the reading of a signed ceiling and of a tool call's money, and the
    in-memory store.  Amounts, clocks and nonces are integers; a limit may be any value
    ([js_number]), as the code checks.  The spend per counterparty is a plain object:
    a name it inherits from [Object.prototype] reads as that property, and adding to it
    makes a text no comparison holds of ([cp_text]). *)

From Stdlib Require Import String Ascii.
From S2P Require Import Prelude JsMap JsString LedgerTypes Authority.
Local Open Scope string_scope.
Local Open Scope Z_scope.
Local Open Scope motebit_scope.

Record GrantSpendCeiling := {
  cumulative_limit_micro : option js_number;
  per_counterparty_limit_micro : option js_number;
  max_action_count : option js_number;
  lifetime_limit_micro : option js_number;
  window_ms : option Z;
}.

Record MoneyAction := { amount_micro : js_number; counterparty : string }.

Inductive cp_spent := cp_micro (z : Z) | cp_text.

Record GrantSpendState := {
  grant_id : string;
  window_started_at : Z;
  window_spent_micro : Z;
  window_action_count : Z;
  per_counterparty_micro : jsmap string cp_spent;
  lifetime_spent_micro : Z;
  high_water_nonce : Z;
}.

Inductive BlastRadiusDenial :=
| ceiling_absent | invalid_amount | invalid_counterparty | invalid_ceiling | invalid_window | replay
| lifetime_exceeded | cumulative_exceeded | per_counterparty_exceeded | action_count_exceeded.

Record headroom := {
  left_cumulative : option Z; left_lifetime : option Z; left_counterparty : option Z; left_actions : option Z }.

(** The decision, with what the owner is shown, and the state to store. *)
Inductive BlastRadiusEvaluation :=
| refused (denial : BlastRadiusDenial) (missing_authority : option AuthorityDelta)
| consumed (remaining : headroom) (nextState : GrantSpendState).

Definition freshGrantSpendState (grant_id : string) (now : Z) : GrantSpendState := {|
  grant_id := grant_id; window_started_at := now; window_spent_micro := 0; window_action_count := 0;
  per_counterparty_micro := jm_empty; lifetime_spent_micro := 0; high_water_nonce := -1 |}.

(** *** Counterparties *)

Definition js_space (c : ascii) : bool := let n := N_of_ascii c in ((9 <=? n) && (n <=? 13) || (n =? 32) || (n =? 160))%N.
Fixpoint trimStart (s : string) : string :=
  match s with String c s' => if js_space c then trimStart s' else s | EmptyString => EmptyString end.
Fixpoint trimEnd (s : string) : string :=
  match s with
  | String c s' => match trimEnd s' with
                   | EmptyString => if js_space c then EmptyString else String c EmptyString
                   | t => String c t
                   end
  | EmptyString => EmptyString
  end.
Definition trim (s : string) : string := trimEnd (trimStart s).

Definition hex_char (c : ascii) : bool :=
  let n := N_of_ascii c in ((48 <=? n) && (n <=? 57) || (65 <=? n) && (n <=? 70) || (97 <=? n) && (n <=? 102))%N.
Fixpoint all_chars (p : ascii -> bool) (s : string) : bool :=
  match s with EmptyString => true | String c s' => p c && all_chars p s' end.

Definition canonicalizeCounterparty (raw : string) : option string :=
  let t := trim raw in
  if (String.length t =? 0)%nat then None
  else if startsWith "0x" t && (String.length t =? 42)%nat && all_chars hex_char (slice_from 2 t) then Some (toLowerCase t)
  else Some t.

(** What a plain object inherits. *)
Definition object_prototype : list string := [
  "constructor"; "toString"; "toLocaleString"; "valueOf"; "hasOwnProperty"; "isPrototypeOf"; "propertyIsEnumerable";
  "__proto__"; "__defineGetter__"; "__defineSetter__"; "__lookupGetter__"; "__lookupSetter__"].

(** [perCp[cp] ?? 0] *)
Definition cp_get (cp : string) (m : jsmap string cp_spent) : cp_spent :=
  match jm_get cp m with
  | Some v => v
  | None => if bool_decide (cp ∈ object_prototype) then cp_text else cp_micro 0
  end.
Definition cp_plus (v : cp_spent) (amt : Z) : cp_spent := match v with cp_micro z => cp_micro (z + amt) | cp_text => cp_text end.

(** *** Ceilings *)

Definition isNonNegativeSafeInteger (v : js_number) : bool :=
  Number_isSafeInteger v && match v with JInt z => 0 <=? z | JNonInt => false end.
Definition limit_ok (v : option js_number) : bool := match v with Some n => isNonNegativeSafeInteger n | None => true end.

(** [limit !== undefined && x > limit] *)
Definition over (limit : option js_number) (x : Z) : bool := match limit with Some (JInt l) => l <? x | _ => false end.
Definition cp_over (limit : option js_number) (v : cp_spent) : bool := match v with cp_micro x => over limit x | cp_text => false end.
Definition left_of (limit : option js_number) (x : Z) : option Z := match limit with Some (JInt l) => Some (l - x) | _ => None end.

Definition hasWindowLimit (c : GrantSpendCeiling) : bool :=
  bool_decide (is_Some (cumulative_limit_micro c)) || bool_decide (is_Some (per_counterparty_limit_micro c)) ||
  bool_decide (is_Some (max_action_count c)).
Definition hasTotalBound (c : GrantSpendCeiling) : bool :=
  bool_decide (is_Some (cumulative_limit_micro c)) || bool_decide (is_Some (lifetime_limit_micro c)).
Definition window_of (c : GrantSpendCeiling) : Z := default 0 (window_ms c).
Definition positive_window (c : GrantSpendCeiling) : bool := match window_ms c with Some w => 0 <? w | None => false end.

Definition overage (limit : option js_number) (x : Z) (unlock : option Z) : option AuthorityDelta := Some {|
  missing_scope := []; required_risk := None; posture_ceiling := None; requires_verified_grant := false;
  spend_overage_micro := match limit with Some (JInt l) => Some (x - l) | _ => None end; not_before := unlock; quorum_shortfall := None |}.

Definition evaluateBlastRadius (ceiling : GrantSpendCeiling) (state : GrantSpendState) (action : MoneyAction) (nonce now : Z)
    : BlastRadiusEvaluation :=
  match amount_micro action with
  | JNonInt => refused invalid_amount None
  | JInt amt =>
      if negb (Number_isSafeInteger (JInt amt)) || (amt <=? 0) then refused invalid_amount None else
      match canonicalizeCounterparty (counterparty action) with
      | None => refused invalid_counterparty None
      | Some cp =>
          if negb (limit_ok (cumulative_limit_micro ceiling) && limit_ok (per_counterparty_limit_micro ceiling) &&
                   limit_ok (max_action_count ceiling) && limit_ok (lifetime_limit_micro ceiling))
          then refused invalid_ceiling None else
          if negb (hasTotalBound ceiling) then refused ceiling_absent None else
          if hasWindowLimit ceiling && negb (positive_window ceiling) then refused invalid_window None else
          if nonce <=? high_water_nonce state then refused replay None else
          let windowMs := window_of ceiling in
          let rolled := hasWindowLimit ceiling && (0 <? windowMs) && (window_started_at state + windowMs <=? now) in
          let windowStartedAt := if rolled then now else window_started_at state in
          let windowSpent := if rolled then 0 else window_spent_micro state in
          let windowActions := if rolled then 0 else window_action_count state in
          let perCp := if rolled then jm_empty else per_counterparty_micro state in
          let newWindow := windowSpent + amt in
          let newLifetime := lifetime_spent_micro state + amt in
          let newCp := cp_plus (cp_get cp perCp) amt in
          if negb (Number_isSafeInteger (JInt newWindow)) || negb (Number_isSafeInteger (JInt newLifetime))
          then refused invalid_amount None else
          let windowUnlock := if hasWindowLimit ceiling && (0 <? windowMs) then Some (windowStartedAt + windowMs) else None in
          if over (lifetime_limit_micro ceiling) newLifetime
          then refused lifetime_exceeded (overage (lifetime_limit_micro ceiling) newLifetime None) else
          if over (cumulative_limit_micro ceiling) newWindow
          then refused cumulative_exceeded (overage (cumulative_limit_micro ceiling) newWindow windowUnlock) else
          if cp_over (per_counterparty_limit_micro ceiling) newCp
          then refused per_counterparty_exceeded
                 (overage (per_counterparty_limit_micro ceiling) (match newCp with cp_micro x => x | cp_text => 0 end) windowUnlock) else
          if over (max_action_count ceiling) (windowActions + 1)
          then refused action_count_exceeded (match windowUnlock with Some u => if u =? 0 then None else overage None 0 (Some u) | None => None end) else
          consumed {| left_cumulative := left_of (cumulative_limit_micro ceiling) newWindow;
                      left_lifetime := left_of (lifetime_limit_micro ceiling) newLifetime;
                      left_counterparty := match newCp with cp_micro x => left_of (per_counterparty_limit_micro ceiling) x | cp_text => None end;
                      left_actions := left_of (max_action_count ceiling) (windowActions + 1) |}
                   {| grant_id := grant_id state; window_started_at := windowStartedAt; window_spent_micro := newWindow;
                      window_action_count := windowActions + 1; per_counterparty_micro := jm_set cp newCp perCp;
                      lifetime_spent_micro := newLifetime; high_water_nonce := nonce |}
      end
  end.

(** *** The money of a call, the ceiling of a grant *)

Definition extractMoneyAction (args : tool_args) : option MoneyAction :=
  match jm_get "amount_micro" args, jm_get "counterparty" args with
  | Some (arg_number amount), Some (arg_string counterparty) =>
      if negb (isPositiveMicro amount) then None
      else if (String.length (trim counterparty) =? 0)%nat then None
      else Some {| amount_micro := amount; counterparty := counterparty |}
  | _, _ => None
  end.

Definition spendCeilingFromGrant (spend_ceiling : option SpendCeilingV1) : result unit (option GrantSpendCeiling) :=
  match spend_ceiling with
  | None => Ok None
  | Some wire =>
      if limit_ok (wire_cumulative wire) && limit_ok (wire_per_counterparty wire) && limit_ok (wire_max_actions wire) &&
         limit_ok (wire_lifetime wire) && limit_ok (wire_window wire)
      then Ok (Some {|
        cumulative_limit_micro := wire_cumulative wire; per_counterparty_limit_micro := wire_per_counterparty wire;
        max_action_count := wire_max_actions wire; lifetime_limit_micro := wire_lifetime wire;
        window_ms := match wire_window wire with Some (JInt w) => Some w | _ => None end |})
      else Throw tt
  end.

(** *** The store *)

Record spend_request := { sr_grant_id : string; sr_ceiling : GrantSpendCeiling; sr_action : MoneyAction; sr_nonce : Z; sr_now : Z }.

Abbreviation spend_states := (jsmap string GrantSpendState).

Definition state_of (input : spend_request) (states : spend_states) : GrantSpendState :=
  default (freshGrantSpendState (sr_grant_id input) (sr_now input)) (jm_get (sr_grant_id input) states).

(** [InMemoryGrantSpendStore.tryConsume] *)
Definition tryConsume (input : spend_request) (states : spend_states) : BlastRadiusEvaluation * spend_states :=
  let out := evaluateBlastRadius (sr_ceiling input) (state_of input states) (sr_action input) (sr_nonce input) (sr_now input) in
  match out with
  | consumed _ nextState => (out, jm_set (sr_grant_id input) nextState states)
  | refused _ _ => (out, states)
  end.
