(* ===== verification/SpendLaws.v ===== *)
(** * Spending stays within the ceiling

    The abstract specification of the meter is a log of what was spent, with the window
    each spend fell in, and [within_ceiling], what the signed ceiling promises of such a
    log.  The accumulator is shown to be the sums of the log ([accounted]), and so every
    sequence of requests, whatever their amounts, nonces and clocks, to stay within. *)

From Stdlib Require Import String.
From S2P Require Import Prelude JsMap JsString LedgerTypes Authority BlastRadius.
Local Open Scope string_scope.
Local Open Scope list_scope.
Local Open Scope Z_scope.
Local Open Scope motebit_scope.

Record spend := { sp_grant : string; sp_amount : Z; sp_counterparty : string; sp_nonce : Z; sp_now : Z; sp_window : Z }.

Definition amount_of (a : MoneyAction) : Z := match amount_micro a with JInt z => z | JNonInt => 0 end.
Definition spend_of (i : spend_request) (next : GrantSpendState) : spend := {|
  sp_grant := sr_grant_id i; sp_amount := amount_of (sr_action i);
  sp_counterparty := default EmptyString (canonicalizeCounterparty (counterparty (sr_action i)));
  sp_nonce := sr_nonce i; sp_now := sr_now i; sp_window := window_started_at next |}.

(** What a sequence of requests spends. *)
Fixpoint consume_all (states : spend_states) (inputs : list spend_request) : list spend * spend_states :=
  match inputs with
  | [] => ([], states)
  | i :: inputs =>
      let '(out, states') := tryConsume i states in
      let '(log, final) := consume_all states' inputs in
      (match out with consumed _ next => [spend_of i next] | refused _ _ => [] end ++ log, final)
  end.

Definition total (log : list spend) : Z := zsum sp_amount log.
Definition in_window (w : Z) (log : list spend) : list spend := List.filter (fun s => sp_window s =? w) log.
Definition to_counterparty (cp : string) (log : list spend) : list spend := List.filter (fun s => bool_decide (sp_counterparty s = cp)) log.
Definition in_span (t d : Z) (log : list spend) : list spend := List.filter (fun s => (t <=? sp_now s) && (sp_now s <? t + d)) log.
Definition of_grant (gid : string) (log : list spend) : list spend := List.filter (fun s => bool_decide (sp_grant s = gid)) log.

Record within_ceiling (c : GrantSpendCeiling) (log : list spend) : Prop := {
  wc_positive s : s ∈ log -> 0 < sp_amount s;
  wc_lifetime l : lifetime_limit_micro c = Some (JInt l) -> 0 <= l -> total log <= l;
  wc_window l w : cumulative_limit_micro c = Some (JInt l) -> 0 <= l -> total (in_window w log) <= l;
  wc_counterparty l w cp : per_counterparty_limit_micro c = Some (JInt l) -> 0 <= l -> (cp ∉ object_prototype) ->
    total (to_counterparty cp (in_window w log)) <= l;
  wc_actions n w : max_action_count c = Some (JInt n) -> 0 <= n -> Z.of_nat (length (in_window w log)) <= n;
  wc_windows s s' : hasWindowLimit c = true -> s ∈ log -> s' ∈ log -> sp_window s < sp_window s' ->
    sp_window s + window_of c <= sp_window s';
  wc_nonces : StronglySorted Z.lt (sp_nonce <$> log);
}.

(** ** The accumulator is the sums of the log *)

Record accounted (c : GrantSpendCeiling) (st : GrantSpendState) (log : list spend) : Prop := {
  ac_within : within_ceiling c log;
  ac_lifetime : lifetime_spent_micro st = total log;
  ac_window : window_spent_micro st = total (in_window (window_started_at st) log);
  ac_actions : window_action_count st = Z.of_nat (length (in_window (window_started_at st) log));
  ac_counterparty cp : (cp ∉ object_prototype) ->
    cp_get cp (per_counterparty_micro st) = cp_micro (total (to_counterparty cp (in_window (window_started_at st) log)));
  ac_nonce s : s ∈ log -> sp_nonce s <= high_water_nonce st;
  ac_windows s : s ∈ log -> sp_window s = window_started_at st \/
    (hasWindowLimit c = true /\ sp_window s + window_of c <= window_started_at st);
  ac_current s : s ∈ log -> hasWindowLimit c = true -> sp_now s < sp_window s + window_of c;
  ac_clock : StronglySorted Z.le (sp_now <$> log) -> forall s, s ∈ log -> sp_window s <= sp_now s;
}.

(** The window a request finds: the current one, or a new one. *)
Definition rolls (c : GrantSpendCeiling) (st : GrantSpendState) (now : Z) : bool :=
  hasWindowLimit c && (0 <? window_of c) && (window_started_at st + window_of c <=? now).
Definition roll (c : GrantSpendCeiling) (st : GrantSpendState) (now : Z) : GrantSpendState :=
  if rolls c st now then {| grant_id := grant_id st; window_started_at := now; window_spent_micro := 0; window_action_count := 0;
    per_counterparty_micro := jm_empty; lifetime_spent_micro := lifetime_spent_micro st; high_water_nonce := high_water_nonce st |}
  else st.

Record consumes (c : GrantSpendCeiling) (st : GrantSpendState) (amt : Z) (cp : string) (nonce : Z) (st' : GrantSpendState) : Prop := {
  cs_positive : 0 < amt;
  cs_nonce : high_water_nonce st < nonce;
  cs_next : st' = {| grant_id := grant_id st; window_started_at := window_started_at st; window_spent_micro := window_spent_micro st + amt;
    window_action_count := window_action_count st + 1; per_counterparty_micro := jm_set cp (cp_plus (cp_get cp (per_counterparty_micro st)) amt) (per_counterparty_micro st);
    lifetime_spent_micro := lifetime_spent_micro st + amt; high_water_nonce := nonce |};
  cs_lifetime : over (lifetime_limit_micro c) (lifetime_spent_micro st + amt) = false;
  cs_window : over (cumulative_limit_micro c) (window_spent_micro st + amt) = false;
  cs_counterparty : cp_over (per_counterparty_limit_micro c) (cp_plus (cp_get cp (per_counterparty_micro st)) amt) = false;
  cs_actions : over (max_action_count c) (window_action_count st + 1) = false;
  cs_windowed : hasWindowLimit c = true -> 0 < window_of c;
}.

Lemma consumed_inv c st action nonce now rem st' : evaluateBlastRadius c st action nonce now = consumed rem st' ->
  exists amt cp, amount_micro action = JInt amt /\ canonicalizeCounterparty (counterparty action) = Some cp /\
    consumes c (roll c st now) amt cp nonce st'.
Proof.
  unfold evaluateBlastRadius. destruct (amount_micro action) as [amt|]; [|done].
  destruct (negb _ || _) eqn:E1; [done|]. apply orb_false_iff in E1 as [_ E1]. destruct (canonicalizeCounterparty _) as [cp|]; [|done].
  destruct (negb _); [done|]. destruct (negb _); [done|]. destruct (hasWindowLimit c && negb (positive_window c)) eqn:E4; [done|].
  destruct (nonce <=? _) eqn:E5; [done|]. intros H. exists amt, cp. split; [done|]. split; [done|]. revert H.
  change (hasWindowLimit c && (0 <? window_of c) && (window_started_at st + window_of c <=? now)) with (rolls c st now).
  assert ((if rolls c st now then now else window_started_at st) = window_started_at (roll c st now)) as -> by (unfold roll; by destruct (rolls c st now)).
  assert ((if rolls c st now then 0 else window_spent_micro st) = window_spent_micro (roll c st now)) as -> by (unfold roll; by destruct (rolls c st now)).
  assert ((if rolls c st now then 0 else window_action_count st) = window_action_count (roll c st now)) as -> by (unfold roll; by destruct (rolls c st now)).
  assert ((if rolls c st now then jm_empty else per_counterparty_micro st) = per_counterparty_micro (roll c st now)) as -> by (unfold roll; by destruct (rolls c st now)).
  assert (lifetime_spent_micro st = lifetime_spent_micro (roll c st now)) as -> by (unfold roll; by destruct (rolls c st now)).
  assert (grant_id st = grant_id (roll c st now)) as -> by (unfold roll; by destruct (rolls c st now)).
  assert (high_water_nonce st = high_water_nonce (roll c st now)) as Eh by (unfold roll; by destruct (rolls c st now)).
  rewrite Eh in E5. generalize (roll c st now) E5. clear E5 Eh. intros r E5.
  destruct (negb _ || negb _); [done|]. destruct (over (lifetime_limit_micro c) _) eqn:L1; [done|].
  destruct (over (cumulative_limit_micro c) _) eqn:L2; [done|]. destruct (cp_over _ _) eqn:L3; [done|].
  destruct (over (max_action_count c) _) eqn:L4; [done|]. intros [= _ <-]. split; try done; try lia.
  intros Hw. rewrite Hw in E4. cbn in E4. apply negb_false_iff in E4. unfold positive_window in E4. unfold window_of.
  destruct (window_ms c); [cbn; lia|done].
Qed.

Lemma in_window_app w l1 l2 : in_window w (l1 ++ l2) = in_window w l1 ++ in_window w l2.
Proof. apply List.filter_app. Qed.

Lemma in_window_none w log : (forall s, s ∈ log -> sp_window s <> w) -> in_window w log = [].
Proof.
  intros H. unfold in_window. induction log as [|s log IH]; [done|]. cbn. rewrite IH by (intros; apply H; by right).
  assert (sp_window s <> w) by (apply H; by left). by replace (sp_window s =? w) with false by lia.
Qed.

Lemma roll_accounted c st log now : (hasWindowLimit c = true -> 0 < window_of c) -> accounted c st log -> accounted c (roll c st now) log.
Proof.
  intros Hwin H. unfold roll. destruct (rolls c st now) eqn:E; [|done]. unfold rolls in E.
  apply andb_true_iff in E as [[Hw Hp]%andb_true_iff Hn]. destruct H as [A1 A2 A3 A4 A5 A6 A7 A8 A9].
  assert (forall s, s ∈ log -> sp_window s + window_of c <= now) as Hold.
  { intros s Hs. destruct (A7 s Hs) as [->|[_ Hle]]; lia. }
  assert (in_window now log = []) as Hnone by (apply in_window_none; intros s Hs; specialize (Hold s Hs); lia).
  split; cbn; rewrite ?Hnone; try done.
  - intros cp Hcp. unfold cp_get. cbn. by rewrite bool_decide_false.
  - intros s Hs. right. split; [done|by apply Hold].
Qed.

Lemma over_false limit l x : over limit x = false -> limit = Some (JInt l) -> x <= l.
Proof. intros H ->. cbn in H. lia. Qed.

Lemma cp_get_set cp cp' v m : cp_get cp (jm_set cp' v m) = if decide (cp = cp') then v else cp_get cp m.
Proof. unfold cp_get. rewrite jm_get_set. by case_decide. Qed.

Lemma to_counterparty_app cp l1 l2 : to_counterparty cp (l1 ++ l2) = to_counterparty cp l1 ++ to_counterparty cp l2.
Proof. apply List.filter_app. Qed.

Lemma in_window_one w s : in_window w [s] = if sp_window s =? w then [s] else [].
Proof. done. Qed.

Lemma sorted_snoc {A} (R : A -> A -> Prop) l x : StronglySorted R l -> (forall y, y ∈ l -> R y x) -> StronglySorted R (l ++ [x]).
Proof.
  induction 1 as [|a l Hs IH Ha]; intros Hx; [by repeat constructor|]. cbn. constructor.
  - apply IH. intros y Hy. apply Hx. by right.
  - rewrite Forall_app. split; [done|]. constructor; [|done]. apply Hx. by left.
Qed.

Lemma sorted_init {A} (R : A -> A -> Prop) l x : StronglySorted R (l ++ [x]) -> StronglySorted R l /\ forall y, y ∈ l -> R y x.
Proof.
  induction l as [|a l IH]; cbn; [by split; [constructor|intros y ?%elem_of_nil]|].
  intros [Hs Ha]%StronglySorted_inv. destruct (IH Hs) as [Hl Hx]. rewrite Forall_app, Forall_singleton in Ha. split.
  - constructor; [done|by apply Ha].
  - intros y [->|Hy]%elem_of_cons; [by apply Ha|by apply Hx].
Qed.

Lemma consumes_accounted c st amt cp nonce st' log s : accounted c st log -> consumes c st amt cp nonce st' ->
  sp_amount s = amt -> sp_counterparty s = cp -> sp_nonce s = nonce -> sp_window s = window_started_at st ->
  (hasWindowLimit c = true -> sp_now s < sp_window s + window_of c) ->
  (sp_now s = window_started_at st \/ exists s0, s0 ∈ log /\ sp_now s0 = window_started_at st) ->
  accounted c st' (log ++ [s]).
Proof.
  intros [[B1 B2 B3 B4 B5 B6 B7] A2 A3 A4 A5 A6 A7 A8 A9] [C1 C2 -> C4 C5 C6 C7 C8] Hamt Hcp Hnon Hwin Hcur Hopen.
  assert (forall w, w <> sp_window s -> in_window w (log ++ [s]) = in_window w log) as Hother.
  { intros w Hw. rewrite in_window_app, in_window_one. replace (sp_window s =? w) with false by lia. by rewrite app_nil_r. }
  assert (in_window (sp_window s) (log ++ [s]) = in_window (sp_window s) log ++ [s]) as Hthis.
  { rewrite in_window_app, in_window_one. by rewrite Z.eqb_refl. }
  rewrite <- Hwin in *.
  split; [split| | | | | | | |]; cbn.
  - by intros x [Hx| ->%list_elem_of_singleton]%elem_of_app; [apply B1|lia].
  - intros l Hl _. unfold total. rewrite zsum_app. cbn. apply (over_false _ l) in C4; [|done]. unfold total in *. lia.
  - intros l w Hl Hl0. destruct (decide (w = sp_window s)) as [->|Hw]; [|rewrite Hother by done; by apply B3].
    rewrite Hthis. apply (over_false _ l) in C5; [|done]. unfold total in *. rewrite zsum_app. cbn. lia.
  - intros l w cp' Hl Hl0 Hcp'. destruct (decide (w = sp_window s)) as [->|Hw]; [|rewrite Hother by done; by apply B4].
    rewrite Hthis, to_counterparty_app. destruct (decide (sp_counterparty s = cp')) as [E|E].
    + subst cp'. rewrite <- Hcp, A5 in C6 by done. cbn in C6. apply (over_false _ l) in C6; [|done].
      cbn. rewrite bool_decide_true by done. unfold total in *. rewrite zsum_app. cbn. lia.
    + cbn. rewrite bool_decide_false by done. rewrite app_nil_r. by apply B4.
  - intros n w Hn Hn0. destruct (decide (w = sp_window s)) as [->|Hw]; [|rewrite Hother by done; by apply B5].
    rewrite Hthis, length_app. cbn. apply (over_false _ n) in C7; [|done]. lia.
  - intros x x' Hw [Hx| ->%list_elem_of_singleton]%elem_of_app [Hx'| ->%list_elem_of_singleton]%elem_of_app Hlt; [by apply B6| | |lia].
    + destruct (A7 x Hx) as [E|[_ E]]; lia.
    + destruct (A7 x' Hx') as [E|[_ E]]; specialize (C8 Hw); lia.
  - rewrite fmap_app. apply sorted_snoc; [done|]. intros y (x & -> & Hx)%list_elem_of_fmap. specialize (A6 x Hx). lia.
  - unfold total in *. rewrite zsum_app. cbn. lia.
  - rewrite Hthis. unfold total in *. rewrite zsum_app. cbn. lia.
  - rewrite Hthis, length_app. cbn. lia.
  - intros cp' Hcp'. rewrite Hthis, to_counterparty_app, cp_get_set. case_decide as E.
    + subst cp'. rewrite A5 by done. cbn. rewrite bool_decide_true by done. f_equal. unfold total. rewrite zsum_app. cbn. lia.
    + cbn. rewrite bool_decide_false by congruence. rewrite app_nil_r. by apply A5.
  - intros x [Hx| ->%list_elem_of_singleton]%elem_of_app; [specialize (A6 x Hx); lia|lia].
  - intros x [Hx| ->%list_elem_of_singleton]%elem_of_app; [by apply A7|by left].
  - intros x [Hx| ->%list_elem_of_singleton]%elem_of_app; [by apply A8|done].
  - rewrite fmap_app. intros [Hs Hle]%sorted_init x [Hx| ->%list_elem_of_singleton]%elem_of_app; [by apply A9|].
    destruct Hopen as [->|(s0 & Hs0 & <-)]; [done|]. apply Hle. by apply list_elem_of_fmap_2.
Qed.

(** ** Every sequence of requests *)

Definition store_ok (c : GrantSpendCeiling) (gid : string) (states : spend_states) (log : list spend) : Prop :=
  match jm_get gid states with
  | Some st => accounted c st log /\ exists s, s ∈ log /\ sp_now s = window_started_at st
  | None => log = []
  end.

Lemma fresh_accounted c gid now : accounted c (freshGrantSpendState gid now) [].
Proof.
  split; [split| | | | | | | |]; try done; try (intros *; by intros ?%elem_of_nil).
  - by intros s s' _ ?%elem_of_nil.
  - constructor.
  - intros cp Hcp. unfold cp_get. cbn. by rewrite bool_decide_false.
  - by intros _ s ?%elem_of_nil.
Qed.

Lemma consume_step c gid states log i : store_ok c gid states log -> (sr_grant_id i = gid -> sr_ceiling i = c) ->
  store_ok c gid (tryConsume i states).2 (log ++ of_grant gid
    match (tryConsume i states).1 with consumed _ next => [spend_of i next] | refused _ _ => [] end).
Proof.
  intros Hok Hc. unfold tryConsume. destruct (evaluateBlastRadius _ _ _ _ _) as [d m|rem next] eqn:E; cbn; [by rewrite app_nil_r|].
  destruct (decide (sr_grant_id i = gid)) as [Hg|Hg].
  2:{ rewrite bool_decide_false by done. rewrite app_nil_r. unfold store_ok in *. by rewrite jm_get_set_ne by congruence. }
  rewrite (Hc Hg) in E. rewrite bool_decide_true by done. subst gid.
  apply consumed_inv in E as (amt & cp & E1 & E2 & Hcs). set (st := state_of i states) in *.
  assert (window_started_at next = window_started_at (roll c st (sr_now i))) as Hst by (by rewrite (cs_next _ _ _ _ _ _ Hcs)).
  assert (accounted c st log /\ (sr_now i = window_started_at st \/ exists s0, s0 ∈ log /\ sp_now s0 = window_started_at st)) as [Hacc Hopen].
  { subst st. unfold state_of. unfold store_ok in Hok. destruct (jm_get (sr_grant_id i) states) as [st|].
    - destruct Hok as [Hacc Hop]. cbn. split; [done|by right].
    - subst log. split; [apply fresh_accounted|by left]. }
  assert (accounted c (roll c st (sr_now i)) log) as Hroll by (apply roll_accounted; [apply Hcs|done]).
  assert (sr_now i = window_started_at (roll c st (sr_now i)) \/
    exists s0, s0 ∈ log /\ sp_now s0 = window_started_at (roll c st (sr_now i))) as Hopen'.
  { unfold roll. destruct (rolls c st (sr_now i)); [by left|done]. }
  unfold store_ok. cbn [snd fst]. rewrite jm_get_set_eq. split.
  - eapply consumes_accounted; [exact Hroll|exact Hcs|by cbn; unfold amount_of; rewrite E1|by cbn; rewrite E2|done|done| |done].
    cbn. intros Hw. rewrite Hst. pose proof (cs_windowed _ _ _ _ _ _ Hcs Hw) as Hp. unfold roll, rolls. rewrite Hw.
    replace (0 <? window_of c) with true by lia. cbn [andb]. destruct (window_started_at st + window_of c <=? sr_now i) eqn:En; cbn; lia.
  - rewrite Hst. destruct Hopen' as [Ho|(s0 & Hs0 & Ho)].
    + eexists. split; [apply elem_of_app; right; by left|done].
    + exists s0. split; [apply elem_of_app; by left|done].
Qed.

Lemma of_grant_app gid l1 l2 : of_grant gid (l1 ++ l2) = of_grant gid l1 ++ of_grant gid l2.
Proof. apply List.filter_app. Qed.

Lemma consume_all_ok c gid inputs states log : store_ok c gid states log ->
  (forall i, i ∈ inputs -> sr_grant_id i = gid -> sr_ceiling i = c) ->
  store_ok c gid (consume_all states inputs).2 (log ++ of_grant gid (consume_all states inputs).1).
Proof.
  revert states log. induction inputs as [|i inputs IH]; intros states log Hok Hc; cbn [consume_all]; [by rewrite app_nil_r|].
  pose proof (consume_step c gid states log i Hok (Hc i ltac:(by left))) as Hstep. destruct (tryConsume i states) as [out states'].
  specialize (IH states' _ Hstep ltac:(intros j Hj; apply Hc; by right)). destruct (consume_all states' inputs) as [l fin].
  cbn [fst snd] in *. by rewrite of_grant_app, app_assoc.
Qed.

Lemma store_within c gid states log : store_ok c gid states log -> within_ceiling c log.
Proof.
  unfold store_ok. destruct (jm_get gid states) as [st|]; [intros [H _]; apply H|intros ->; apply (fresh_accounted c gid 0)].
Qed.

(** ** Any span of a window's length *)

Lemma span_windows c log t s s' s'' : within_ceiling c log -> hasWindowLimit c = true ->
  (forall s, s ∈ log -> sp_window s <= sp_now s < sp_window s + window_of c) ->
  s ∈ in_span t (window_of c) log -> s' ∈ in_span t (window_of c) log -> s'' ∈ in_span t (window_of c) log ->
  sp_window s < sp_window s' -> sp_window s' < sp_window s'' -> False.
Proof.
  intros Hw Hl Hcur H1 H2 H3 L1 L2.
  assert (forall x, x ∈ in_span t (window_of c) log -> x ∈ log /\ t <= sp_now x < t + window_of c) as Hin.
  { intros x [Hx%list_elem_of_In Hs]%list_elem_of_In%filter_In. split; [done|]. lia. }
  apply Hin in H1 as [H1 T1], H2 as [H2 T2], H3 as [H3 T3].
  pose proof (wc_windows _ _ Hw s s' Hl H1 H2 L1). pose proof (wc_windows _ _ Hw s' s'' Hl H2 H3 L2).
  pose proof (Hcur s H1). pose proof (Hcur s'' H3). lia.
Qed.

