(* ===== verification/EscrowDispute.v ===== *)
(** * The fund action of a dispute

    What [executeFundAction] and the finalizers of [EscrowCallers] do with the money
    of a disputed allocation: how it is split, that it moves at most once, and what a
    leg that is refused undoes. *)

From Stdlib Require Import String SpecFloat.
From S2P Require Import Prelude Float64 JsMap JsString TaskTypes TaskQueue LedgerTypes Driver SqlStore SqlRefines.
From S2P Require Import Escrow EscrowLaws EscrowCallers EscrowRuns EscrowDemo.
Local Open Scope Z_scope.
Local Open Scope motebit_scope.

(** ** The position and the split *)

Definition position (a : string) (d : relay_db) : AllocationLedgerPosition := {|
  pos_taskId := al_task_id <$> find_allocation a d;
  pos_delegator := hold_payer a d;
  pos_worker := al_motebit_id <$> find_allocation a d;
  pos_escrowRemaining := Z.max 0 (heldSql a d);
  pos_paid := paid_accounts a d;
  pos_priorDisputeRows := length (List.filter (fun t => bool_decide (allocation_id t = Some a) &&
    (bool_decide (allocation_kind t = Some "dispute_clawback"%string) ||
     bool_decide (allocation_kind t = Some "dispute_worker"%string) ||
     bool_decide (allocation_kind t = Some "dispute_delegator"%string))) (relay_transactions d));
  pos_settled := existsb (fun s => bool_decide (st_allocation_id s = a) && relay_mode s) (settlement_rows d);
  pos_reviewReason := find_allocation a d ≫= review_reason |}.

Lemma position_runs a (d : relay_db) : run (allocationLedgerPosition a) d = (Ok (position a d), d).
Proof. done. Qed.

(** What was paid out, what the verdict takes back of it, and the worker's share of
    what is still held. *)
Definition paid_net (a : string) (d : relay_db) : Z := zsum snd (paid_accounts a d).
Definition claw_back (a : string) (r : number) (d : relay_db) : Z := paid_net a d - floor_share (paid_net a d) r.
Definition worker_share (a : string) (r : number) (d : relay_db) : Z := floor_share (Z.max 0 (heldSql a d)) r.
Definition delegator_share (a : string) (r : number) (d : relay_db) : Z :=
  Z.max 0 (heldSql a d) - worker_share a r d + claw_back a r d.
Definition paid_party (a : string) (d : relay_db) : option string := fst <$> sole_recipient (paid_accounts a d).
Definition worker_party (a : string) (d : relay_db) : option string := al_motebit_id <$> find_allocation a d.

Lemma floor_share_bounds n r : 0 <= n <= MAX_SAFE_INTEGER -> is_ratio r -> 0 <= floor_share n r <= n.
Proof.
  intros Hn Hr. destruct (nonneg_floor _ n ltac:(lia) (share_bounds n r ltac:(unfold MAX_SAFE_INTEGER in *; lia) Hr)) as (z & E & Hz).
  unfold floor_share. by rewrite E.
Qed.

Lemma good_ratio r : is_number r = true -> bad_ratio r = false -> is_ratio r.
Proof.
  intros Hv [[Hf%negb_false_iff H0]%orb_false_iff H1]%orb_false_iff. split; [done|].
  destruct r as [s| | |s m e]; try done. destruct s; [done|]. split; [done|].
  assert (exists c, Number 1 = S754_finite false c (-52)) as (c & E1) by (by eexists).
  unfold js_ltb, js_leb, SFltb, SFleb in *. rewrite E1 in *. cbn [SFcompare] in *.
  rewrite (Z.compare_antisym (-52) e). destruct (Z.compare (-52) e); cbn [CompOpp] in *; [|done|done].
  change (Pos.compare_cont Eq c m) with (Pos.compare c m) in *. change (Pos.compare_cont Eq m c) with (Pos.compare m c).
  rewrite (Pos.compare_antisym c m). by destruct (Pos.compare c m).
Qed.

Lemma paid_net_nonneg a d : 0 <= paid_net a d.
Proof.
  unfold paid_net, paid_accounts. set (l := _ <$> _). induction l as [|p l IH]; [done|]. cbn [List.filter].
  destruct (0 <? p.2) eqn:E; [|done]. cbn [zsum]. lia.
Qed.

(** ** Its movements *)

Definition leg (amount : Z) (m : AllocationMove) (uuid : string) : list (AllocationMove * string) :=
  if 0 <? amount then [(m, uuid)] else [].

Section fund_action.
Context (frozen : bool) (now : Z) (dispute : dispute_row) (fundAction : string) (r : number) (uuid1 uuid2 uuid3 : string).
Implicit Types (d : relay_db).
Abbreviation a := (d_allocation_id dispute).
Abbreviation disputeId := (d_dispute_id dispute).
Abbreviation exec := (executeFundAction frozen now dispute fundAction r uuid1 uuid2 uuid3).

Definition clawback_move d : AllocationMove :=
  DisputeMove dispute_clawback a (JInt (claw_back a r d)) (default ""%string (paid_party a d)) disputeId
    (leg_text "Dispute claw-back" fundAction disputeId).
Definition worker_move d : AllocationMove :=
  DisputeMove dispute_worker a (JInt (worker_share a r d)) (default ""%string (worker_party a d)) disputeId
    (leg_text "Dispute release" fundAction disputeId).
Definition delegator_move d : AllocationMove :=
  DisputeMove dispute_delegator a (JInt (delegator_share a r d)) (default ""%string (hold_payer a d)) disputeId
    (leg_text "Dispute refund" fundAction disputeId).
Definition fund_list d : list (AllocationMove * string) :=
  leg (claw_back a r d) (clawback_move d) uuid1 ++ leg (worker_share a r d) (worker_move d) uuid2 ++
  leg (delegator_share a r d) (delegator_move d) uuid3.

(** Each leg that moves has its account. *)
Definition routable d : Prop :=
  (claw_back a r d <> 0 -> is_Some (paid_party a d)) /\ (delegator_share a r d <> 0 -> is_Some (hold_payer a d)) /\
  (worker_share a r d <> 0 -> is_Some (worker_party a d)).

(** The fund action a claim records. *)
Definition claim_row (taskId : string) d : fund_action_row := {|
  fa_allocation_id := a; fa_task_id := taskId; fa_dispute_id := disputeId; fa_fund_action := fundAction; fa_split_ratio := r;
  fa_regime := if (0 <? paid_net a d)%Z then "post_settlement"%string else "pre_settlement"%string;
  fa_worker_amount := worker_share a r d - claw_back a r d; fa_delegator_amount := delegator_share a r d |}.

Record dispute_fits d : Prop := {
  df_uuid1 : fresh_uuid uuid1 d; df_uuid2 : fresh_uuid uuid2 d; df_uuid3 : fresh_uuid uuid3 d;
  df_12 : uuid1 <> uuid2; df_13 : uuid1 <> uuid3; df_23 : uuid2 <> uuid3;
}.

Lemma close_ok closeAs d n d' : closeAs <> "locked"%string -> run (closeDisputedAllocation dispute closeAs) d = (Ok n, d') -> quiet d d'.
Proof.
  intros Hc H. apply update_allocations_ok in H as (_ & _ & ?); [done|done|]. intros x E. unfold in_status in E. cbn in E.
  by apply bool_decide_eq_true in E.
Qed.

Lemma refusal_ok id reason d n d' : run (recordFundRefusal id reason) d = (Ok n, d') -> quiet d d'.
Proof. apply update_disputes_ok. Qed.

Lemma claim_ok row d b d' : run (claimFundAction row) d = (Ok b, d') -> quiet d d' /\
  (if b then relay_dispute_fund_actions d' = relay_dispute_fund_actions d ++ [row] else d' = d) /\
  b = negb (existsb (same_fund_action row) (relay_dispute_fund_actions d)).
Proof.
  unfold claimFundAction. cbn. unfold stmt_fn, insert_row. destruct (existsb _ _); intros [= <- <-]; [done|].
  split; [|done]. split; try done. intros c Hc. cbn. apply elem_of_app. by left.
Qed.

Lemma guarded_ok z (m : call relay_db ledger_error unit) d d' : run (guarded_leg z m) d = (Ok tt, d') ->
  ((0 <? z) = true /\ m d = (Ok tt, d')) \/ ((0 <? z) = false /\ d' = d).
Proof.
  intros [[E H]|[E ->]]%when_ok; [left|by right]. split; [done|]. apply catch_ok in H as [H|(e & d1 & _ & H)]; [done|].
  destruct e as [| | | | | | |reason| | | | | | | |]; try done. by destruct reason.
Qed.

Lemma leg_moves z m uuid d d' : escrow_wf d -> fresh_uuid uuid d -> (forall a' n s, m <> SettlementFee a' n s) ->
  run (guarded_leg z (moveAllocationMoney frozen m uuid now)) d = (Ok tt, d') -> moves (leg z m uuid) d d'.
Proof.
  intros Hw Hf Hm H. unfold leg. apply guarded_ok in H as [[-> H]|[-> ->]]; [|constructor].
  apply (move_moves frozen now); [done| |done]. split; [done|]. destruct m; try done. by destruct (Hm _ _ _ eq_refl).
Qed.

(** What the ledger already says of the allocation's disputes. *)
Definition prior_rows d : nat := pos_priorDisputeRows (position a d).

Lemma legs_moves d d1 d2 d3 d4 : escrow_wf d -> dispute_fits d -> quiet d d1 ->
  run (guarded_leg (claw_back a r d) (moveAllocationMoney frozen (clawback_move d) uuid1 now)) d1 = (Ok tt, d2) ->
  run (guarded_leg (worker_share a r d) (moveAllocationMoney frozen (worker_move d) uuid2 now)) d2 = (Ok tt, d3) ->
  run (guarded_leg (delegator_share a r d) (moveAllocationMoney frozen (delegator_move d) uuid3 now)) d3 = (Ok tt, d4) ->
  moves (fund_list d) d1 d4.
Proof.
  intros Hw [F1 F2 F3 F12 F13 F23] Hq H1 H2 H3. pose proof (quiet_wf _ _ Hq Hw) as Hw1.
  assert (forall u, fresh_uuid u d -> fresh_uuid u d1) as Hf
    by (intros u; unfold fresh_uuid; by rewrite (q_transactions _ _ Hq)).
  apply leg_moves in H1; [|done|by apply Hf|done]. pose proof (ma_wf _ _ _ (moves_all _ _ _ Hw1 H1)) as Hw2.
  assert (forall z m u u', u' <> u -> u' ∉ drawn (leg z m u)) as Hn
    by (intros z m u u' Hu; unfold leg; destruct (0 <? z); unfold drawn; cbn; [destruct (party_of m)|]; set_solver).
  apply leg_moves in H2; [|done| |done].
  2:{ eapply moves_fresh; [exact Hw1|exact H1|by apply Hn|by apply Hf]. }
  pose proof (ma_wf _ _ _ (moves_all _ _ _ Hw2 H2)) as Hw3. apply leg_moves in H3; [|done| |done].
  2:{ eapply moves_fresh; [exact Hw2|exact H2|by apply Hn|]. eapply moves_fresh; [exact Hw1|exact H1|by apply Hn|by apply Hf]. }
  eapply moves_app; [exact H1|]. eapply moves_app; [exact H2|exact H3].
Qed.

(** Either nothing moves, or the allocation is claimed, for the first time, and every
    leg moves. *)
Lemma fund_action_cases d d' : escrow_wf d -> dispute_fits d -> run exec d = (Ok tt, d') ->
  quiet d d' \/
  (routable d /\ prior_rows d = 0%nat /\
   exists taskId, existsb (same_fund_action (claim_row taskId d)) (relay_dispute_fund_actions d) = false /\
     claim_row taskId d ∈ relay_dispute_fund_actions d' /\ moves (fund_list d) d d').
Proof.
  intros Hw Hfit. unfold executeFundAction. destruct (d_amount_locked dispute =? 0); [intros [= <-]; by left|].
  destruct (bad_ratio r); [done|]. rewrite (call_bind_run _ _ _ _ _ (position_runs a d)). cbv beta zeta.
  assert (forall reason, (recordFundRefusal disputeId (Some reason) ;! call_ret tt) d = (Ok tt, d') -> quiet d d') as Hrefuse.
  { intros reason (n & d1 & H & [= <-])%call_bind_ok. by eapply refusal_ok. }
  assert (forall closeAs, closeAs <> "locked"%string ->
            (closeDisputedAllocation dispute closeAs ;! call_ret tt) d = (Ok tt, d') -> quiet d d') as Hclose.
  { intros closeAs Hc (n & d1 & H & [= <-])%call_bind_ok. by eapply close_ok. }
  destruct (pos_taskId (position a d)) as [taskId|]; [|by intros H; left; eapply Hrefuse].
  destruct (negb _); [by intros H; left; eapply Hrefuse|].
  destruct (bool_decide (is_Some (pos_reviewReason _))); [by intros H; left; eapply Hrefuse|].
  set (closeAs := if pos_settled (position a d) then _ else _).
  assert (closeAs <> "locked"%string) as Hca by (unfold closeAs; by destruct (pos_settled _)).
  destruct (0 <? Z.of_nat _) eqn:Eprior; [by intros H; left; eapply Hclose|].
  destruct (negb _) eqn:Er; [by intros H; left; eapply Hrefuse|].
  intros (claimed & d1 & Hc & H)%call_bind_ok. apply claim_ok in Hc as (Hq & Hrow & Eb).
  destruct claimed; cbn [negb] in H.
  2:{ left. subst d1. by eapply Hclose. }
  right. split; [|split; [unfold prior_rows; lia|]].
  { apply negb_false_iff, andb_true_iff in Er as [[E1 E2]%andb_true_iff E3].
    unfold routable. split_and!; intros Hn;
      [destruct (orb_prop _ _ E1) as [E|E]|destruct (orb_prop _ _ E2) as [E|E]|destruct (orb_prop _ _ E3) as [E|E]];
      try (apply Z.eqb_eq in E; by destruct Hn); apply bool_decide_eq_true in E; try exact E.
    unfold paid_party. by apply fmap_is_Some. }
  exists taskId. split; [by destruct (existsb _ _)|].
  apply call_bind_ok in H as ([] & d2 & H1 & H). apply call_bind_ok in H as ([] & d3 & H2 & H).
  apply call_bind_ok in H as ([] & d4 & H3 & H). apply call_bind_ok in H as (n & d5 & H4 & H).
  apply call_bind_ok in H as (n2 & d6 & H5 & [= <-]). apply close_ok in H4; [|done]. apply refusal_ok in H5.
  pose proof (legs_moves d d1 d2 d3 d4 Hw Hfit Hq H1 H2 H3) as Hm. split.
  - eapply q_claims; [exact H5|]. eapply q_claims; [exact H4|]. eapply moves_claims; [exact Hm|].
    rewrite Hrow. apply elem_of_app. right. by left.
  - eapply moves_quiet; [|etransitivity; [exact H4|exact H5]].
    apply (moves_app [] (fund_list d) d d1); [by eapply moves_quiet; [constructor|]|exact Hm].
Qed.
End fund_action.

(** ** A verdict that executes *)

Section executes.
Context (now : Z) (dispute : dispute_row) (fundAction : string) (r : number) (uuid1 uuid2 uuid3 : string).
Implicit Types (d : relay_db).
Abbreviation a := (d_allocation_id dispute).
Abbreviation disputeId := (d_dispute_id dispute).

Lemma clawback_runs p z desc uuid alloc d : escrow_wf d -> fresh_uuid uuid d -> find_allocation a d = Some alloc ->
  review_reason alloc = None -> 0 < z <= MAX_SAFE_INTEGER -> z <= paid_to a p d -> z <= sql_balance p d ->
  exists d', run (moveAllocationMoney false (DisputeMove dispute_clawback a (JInt z) p disputeId desc) uuid now) d = (Ok tt, d').
Proof.
  intros Hw Hu Hx Hr Hz Hp Hb. unfold moveAllocationMoney. cbn [move_amount]. unfold safe_amount.
  rewrite safe_amount_of, (proj2 (Z.leb_le 0 z)) by lia. cbn [andb check move_allocation].
  assert (run (select (find_allocation a)) d = (Ok (Some alloc), d)) as E1 by (cbn; unfold stmt_fn; by rewrite Hx).
  rewrite (call_bind_run _ _ _ _ _ E1). unfold move_clawback, under_review_or. rewrite Hr, (proj2 (Z.eqb_neq z 0)) by lia.
  assert (run (select (paid_to a p)) d = (Ok (paid_to a p d), d)) as E2 by done. rewrite (call_bind_run _ _ _ _ _ E2).
  rewrite (proj2 (Z.ltb_ge _ _)) by done.
  destruct (debit_pure p z settlement_debit (Some disputeId) (Some desc) (stamp a "dispute_clawback") uuid now d (ew_accounts _ Hw) Hu)
    as [[? _]|[_ (d' & E & _)]]; [lia|]. rewrite (call_bind_run _ _ _ _ _ E). by exists d'.
Qed.

Lemma worker_runs z desc uuid alloc d : escrow_wf d -> fresh_uuid uuid d -> find_allocation a d = Some alloc ->
  review_reason alloc = None -> 0 < z <= MAX_SAFE_INTEGER -> z <= heldSql a d ->
  exists d', run (moveAllocationMoney false (DisputeMove dispute_worker a (JInt z) (al_motebit_id alloc) disputeId desc) uuid now) d
             = (Ok tt, d').
Proof.
  intros Hw Hu Hx Hr Hz Hh.
  rewrite (out_runs now (DisputeMove dispute_worker a (JInt z) (al_motebit_id alloc) disputeId desc) z alloc uuid d)
    by (try done; try apply safe_amount_of; lia).
  cbn [move_out]. unfold under_review_or. rewrite Hr, (proj2 (Z.eqb_neq z 0)) by lia. rewrite bool_decide_true by done. cbn [negb].
  destruct (credit_pure (al_motebit_id alloc) z settlement_credit (Some disputeId) (Some desc) (stamp a "dispute_worker") uuid now d
    (ew_accounts _ Hw) Hu) as (d' & E & _). rewrite (call_bind_run _ _ _ _ _ E). by exists d'.
Qed.

Lemma delegator_runs z p desc uuid alloc d : escrow_wf d -> fresh_uuid uuid d -> find_allocation a d = Some alloc ->
  review_reason alloc = None -> 0 < z <= MAX_SAFE_INTEGER -> z <= heldSql a d -> hold_payer a d = Some p ->
  exists d', run (moveAllocationMoney false (DisputeMove dispute_delegator a (JInt z) p disputeId desc) uuid now) d = (Ok tt, d').
Proof.
  intros Hw Hu Hx Hr Hz Hh Hp. rewrite (out_runs now (DisputeMove dispute_delegator a (JInt z) p disputeId desc) z alloc uuid d)
    by (try done; try apply safe_amount_of; lia).
  cbn [move_out]. unfold under_review_or. rewrite Hr.
  destruct (pay_holder_runs now a z p settlement_credit disputeId desc "dispute_delegator" uuid d Hw Hu Hp ltac:(lia))
    as (d' & row & E & _). by exists d'.
Qed.

(** A leg that can move, moves, and leaves the rows of the allocations alone. *)
Lemma guarded_runs z m uuid d : escrow_wf d -> fresh_uuid uuid d -> (forall a' n s, m <> SettlementFee a' n s) ->
  (0 < z -> exists d', run (moveAllocationMoney false m uuid now) d = (Ok tt, d')) ->
  exists d', run (guarded_leg z (moveAllocationMoney false m uuid now)) d = (Ok tt, d') /\ moves (leg z m uuid) d d' /\
    relay_allocations d' = relay_allocations d /\ relay_disputes d' = relay_disputes d.
Proof.
  intros Hw Hu Hm H. unfold guarded_leg. destruct (0 <? z) eqn:E.
  - destruct (H ltac:(lia)) as (d' & E'). assert (move_fits m uuid d) as Hf.
    { split; [done|]. destruct m; try done. by destruct (Hm _ _ _ eq_refl). }
    exists d'. split; [by apply catch_runs|]. split.
    + unfold leg. rewrite E. by apply (move_moves false now).
    + destruct (move_effect _ _ _ _ _ _ Hw Hf E') as [He _]. split; [exact (ef_alloc _ _ _ _ He)|exact (ef_disputes _ _ _ _ He)].
  - exists d. split; [done|]. split; [|done]. unfold leg. rewrite E. constructor.
Qed.

Lemma sole_paid d p : paid_party a d = Some p -> paid_to a p d = paid_net a d.
Proof.
  unfold paid_party, paid_to, paid_net, sole_recipient. destruct (paid_accounts a d) as [|[q n] [|]]; [done| |done].
  intros [= ->]. cbn. rewrite bool_decide_true by done. cbn. lia.
Qed.

(** What lets a verdict move the money, but for the balance it takes back from. *)
Record executable (d : relay_db) : Prop := {
  ex_amount : d_amount_locked dispute <> 0;
  ex_ratio : is_number r = true /\ bad_ratio r = false;
  ex_allocation : exists alloc, find_allocation a d = Some alloc /\ al_task_id alloc = d_task_id dispute /\ review_reason alloc = None;
  ex_prior : prior_rows dispute d = 0%nat;
  ex_unclaimed : existsb (same_fund_action (claim_row dispute fundAction r (d_task_id dispute) d)) (relay_dispute_fund_actions d) = false;
  ex_routable : routable dispute r d;
  ex_safe : heldSql a d + paid_net a d <= MAX_SAFE_INTEGER;
}.
Definition covered d : Prop := forall p, paid_party a d = Some p -> claw_back a r d <= sql_balance p d.

Lemma share_ranges d : escrow_ok d -> is_ratio r -> heldSql a d + paid_net a d <= MAX_SAFE_INTEGER ->
  0 <= worker_share a r d <= heldSql a d /\ 0 <= claw_back a r d <= paid_net a d /\
  delegator_share a r d = heldSql a d - worker_share a r d + claw_back a r d.
Proof.
  intros [_ Hok] Hr Hs. specialize (Hok a). pose proof (paid_net_nonneg a d).
  unfold delegator_share, worker_share, claw_back. rewrite Z.max_r by lia.
  pose proof (floor_share_bounds (heldSql a d) r ltac:(lia) Hr). pose proof (floor_share_bounds (paid_net a d) r ltac:(lia) Hr). lia.
Qed.

Lemma claim_runs row d : existsb (same_fund_action row) (relay_dispute_fund_actions d) = false ->
  run (claimFundAction row) d = (Ok true, upd_fund_actions (fun _ => relay_dispute_fund_actions d ++ [row]) d).
Proof. intros H. unfold claimFundAction. cbn. unfold stmt_fn, insert_row. by rewrite H. Qed.

Lemma leg_sum (f : AllocationMove * string -> Z) z m u : 0 <= z -> (z = 0 -> f (m, u) = 0) -> zsum f (leg z m u) = f (m, u).
Proof. intros Hz Hf. unfold leg. destruct (0 <? z) eqn:E; cbn; [lia|]. rewrite Hf; lia. Qed.

Lemma leg_held z m u d d' : escrow_wf d -> moves (leg z m u) d d' -> amount_of m = z -> 0 <= z ->
  heldSql (move_allocation m) d' = heldSql (move_allocation m) d + held_change m.
Proof.
  intros Hw Hm Ha Hz. rewrite (ma_held _ _ _ (moves_all _ _ _ Hw Hm)), leg_sum; unfold held_by; cbn [fst];
    rewrite ?decide_True by done; [done|done|]. intros E. unfold held_change. rewrite Ha, E. by destruct m as [| | | | | |[]].
Qed.

Lemma leg_fresh u z m u' d d' : escrow_wf d -> moves (leg z m u') d d' -> u <> u' -> fresh_uuid u d -> fresh_uuid u d'.
Proof.
  intros Hw Hm Hn. apply (moves_fresh u _ _ _ Hw Hm). unfold leg, drawn. destruct (0 <? z); cbn; [destruct (party_of m)|]; set_solver.
Qed.

Lemma leg_payer a' z m u d d' : escrow_wf d -> moves (leg z m u) d d' -> is_hold_move m = false -> hold_payer a' d' = hold_payer a' d.
Proof.
  intros Hw Hm Hh. unfold hold_payer. rewrite (moves_payers _ _ _ a' Hw Hm); [done|]. unfold leg. destruct (0 <? z); by repeat constructor.
Qed.

(** The three legs, one after the other. *)
Lemma legs_run claims d : escrow_ok d -> executable d -> covered d -> dispute_fits uuid1 uuid2 uuid3 d ->
  let d1 := upd_fund_actions (fun _ => claims) d in
  exists d2 d3 d4,
    run (guarded_leg (claw_back a r d) (moveAllocationMoney false (clawback_move dispute fundAction r d) uuid1 now)) d1 = (Ok tt, d2) /\
    run (guarded_leg (worker_share a r d) (moveAllocationMoney false (worker_move dispute fundAction r d) uuid2 now)) d2 = (Ok tt, d3) /\
    run (guarded_leg (delegator_share a r d) (moveAllocationMoney false (delegator_move dispute fundAction r d) uuid3 now)) d3 = (Ok tt, d4) /\
    moves (fund_list dispute fundAction r uuid1 uuid2 uuid3 d) d1 d4 /\ relay_disputes d4 = relay_disputes d.
Proof.
  intros Hok [_ [Hv Hbad] (alloc & Hx & _ & Hrev) _ _ (R1 & R2 & R3) Hsafe] Hbal [F1 F2 F3 F12 F13 F23] d1.
  destruct (share_ranges d Hok (good_ratio r Hv Hbad) Hsafe) as (Hws & Hcl & Hds). pose proof Hok as [Hw Hpos].
  specialize (Hpos a). assert (escrow_wf d1) as Hw1 by (by destruct Hw).
  destruct (guarded_runs (claw_back a r d) (clawback_move dispute fundAction r d) uuid1 d1 Hw1 F1) as (d2 & G1 & M1 & A1 & D1); [done| |].
  { intros Hlt. destruct (R1 ltac:(lia)) as [p Hp]. unfold clawback_move. rewrite Hp.
    apply (clawback_runs p _ _ uuid1 alloc d1 Hw1 F1 Hx Hrev); [lia| |by apply Hbal].
    change (claw_back a r d <= paid_to a p d). rewrite (sole_paid d p Hp). lia. }
  pose proof (ma_wf _ _ _ (moves_all _ _ _ Hw1 M1)) as Hw2.
  assert (fresh_uuid uuid2 d2) as Hf2 by exact (leg_fresh uuid2 _ _ _ _ _ Hw1 M1 ltac:(congruence) F2).
  assert (fresh_uuid uuid3 d2) as Hf32 by exact (leg_fresh uuid3 _ _ _ _ _ Hw1 M1 ltac:(congruence) F3).
  pose proof (leg_held _ _ _ _ _ Hw1 M1 eq_refl ltac:(lia)) as H2. cbn [move_allocation held_change] in H2.
  change (heldSql a d2 = heldSql a d + claw_back a r d) in H2.
  assert (find_allocation a d2 = Some alloc) as Hx2 by (unfold find_allocation; by rewrite A1).
  destruct (guarded_runs (worker_share a r d) (worker_move dispute fundAction r d) uuid2 d2 Hw2 Hf2) as (d3 & G2 & M2 & A2 & D2);
    [done| |].
  { intros Hlt. unfold worker_move, worker_party. rewrite Hx. cbn [default fmap option_fmap option_map].
    apply (worker_runs _ _ uuid2 alloc d2 Hw2); [done|done|done|lia|lia]. }
  pose proof (ma_wf _ _ _ (moves_all _ _ _ Hw2 M2)) as Hw3.
  pose proof (leg_held _ _ _ _ _ Hw2 M2 eq_refl ltac:(lia)) as H3.
  change (heldSql a d3 = heldSql a d2 + - worker_share a r d) in H3.
  assert (fresh_uuid uuid3 d3) as Hf3 by exact (leg_fresh uuid3 _ _ _ _ _ Hw2 M2 ltac:(congruence) Hf32).
  destruct (guarded_runs (delegator_share a r d) (delegator_move dispute fundAction r d) uuid3 d3 Hw3 Hf3) as (d4 & G3 & M3 & _ & D3);
    [done| |].
  { intros Hlt. destruct (R2 ltac:(lia)) as [p Hp]. unfold delegator_move. rewrite Hp.
    apply (delegator_runs _ p _ uuid3 alloc d3 Hw3 Hf3); [unfold find_allocation; by rewrite A2|done|lia|lia|].
    rewrite (leg_payer a _ _ _ _ _ Hw2 M2 eq_refl), (leg_payer a _ _ _ _ _ Hw1 M1 eq_refl). exact Hp. }
  exists d2, d3, d4. split; [done|]. split; [done|]. split; [done|]. split; [|by rewrite D3, D2, D1].
  eapply moves_app; [exact M1|]. eapply moves_app; [exact M2|exact M3].
Qed.

(** What the three legs do, together. *)
Definition part (z : Z) (party : option string) (i : string) : Z := if decide (party = Some i) then z else 0.

Record distributed (d d' : relay_db) : Prop := {
  di_worker : 0 <= worker_share a r d <= heldSql a d;
  di_claw : 0 <= claw_back a r d <= paid_net a d;
  di_held : forall x, heldSql x d' = if decide (x = a) then 0 else heldSql x d;
  di_balance : forall i, sql_balance i d' = sql_balance i d - part (claw_back a r d) (paid_party a d) i +
    part (worker_share a r d) (worker_party a d) i +
    part (heldSql a d - worker_share a r d + claw_back a r d) (hold_payer a d) i;
  di_total : total_balance d' = total_balance d + heldSql a d;
  di_ok : escrow_ok d';
}.

Lemma fund_list_distributes d d' : escrow_ok d -> is_ratio r -> heldSql a d + paid_net a d <= MAX_SAFE_INTEGER ->
  routable dispute r d -> moves (fund_list dispute fundAction r uuid1 uuid2 uuid3 d) d d' -> distributed d d'.
Proof.
  intros Hok Hr Hs (R1 & R2 & R3) Hm. destruct (share_ranges d Hok Hr Hs) as (Hws & Hcl & Hds). pose proof Hok as [Hw Hpos].
  destruct (moves_all _ _ _ Hw Hm) as [Hw' Hh Hb Ht _ _ _ Ho]. specialize (Hpos a) as Ha.
  assert (forall f, (forall m u, amount_of m = 0 -> f (m, u) = 0) ->
    zsum f (fund_list dispute fundAction r uuid1 uuid2 uuid3 d) =
    f (clawback_move dispute fundAction r d, uuid1) + (f (worker_move dispute fundAction r d, uuid2) +
    f (delegator_move dispute fundAction r d, uuid3))) as Hsum.
  { intros f Hf. unfold fund_list. rewrite !zsum_app, !leg_sum; [done|lia|by intros ?; apply Hf|lia|by intros ?; apply Hf|lia|by intros ?; apply Hf]. }
  assert (forall z o i, 0 <= z -> (z <> 0 -> is_Some o) -> part z o i = if decide (Some (default ""%string o) = Some i) then z else 0) as Hpart.
  { intros z o i Hz Hsome. unfold part. destruct o as [q|]; [done|]. destruct (decide (z = 0)) as [->|Hn]; [by repeat case_decide|].
    by destruct (Hsome Hn). }
  assert (forall m, amount_of m = 0 -> held_change m = 0 /\ balance_change m = 0) as Hzero
    by (intros m E; unfold held_change, balance_change; rewrite E; by destruct m as [| | | | | |[]]).
  split; [done|done| | | |split; [done|by apply Ho]].
  - intros x. rewrite Hh, Hsum; unfold held_by.
    + cbn [fst]. change (held_change (clawback_move dispute fundAction r d)) with (claw_back a r d).
      change (held_change (worker_move dispute fundAction r d)) with (- worker_share a r d).
      change (held_change (delegator_move dispute fundAction r d)) with (- delegator_share a r d).
      cbn [move_allocation clawback_move worker_move delegator_move]. case_decide as E; [rewrite E|]; lia.
    + intros m u E. cbn [fst]. destruct (Hzero m E) as [-> _]. by case_decide.
  - intros i. rewrite Hb, Hsum; unfold gained_by.
    + cbn [fst]. change (balance_change (clawback_move dispute fundAction r d)) with (- claw_back a r d).
      change (balance_change (worker_move dispute fundAction r d)) with (worker_share a r d).
      change (balance_change (delegator_move dispute fundAction r d)) with (delegator_share a r d).
      rewrite (Hpart (claw_back a r d)), (Hpart (worker_share a r d)), (Hpart (heldSql a d - _ + _)) by (lia || done || (rewrite <- Hds; done)).
      cbn [party_of clawback_move worker_move delegator_move]. rewrite <- Hds. repeat case_decide; lia.
    + intros m u E. cbn [fst]. destruct (Hzero m E) as [_ ->]. by case_decide.
  - rewrite Ht, (Hsum (fun p => balance_change p.1)).
    + cbn [fst]. change (balance_change (clawback_move dispute fundAction r d)) with (- claw_back a r d).
      change (balance_change (worker_move dispute fundAction r d)) with (worker_share a r d).
      change (balance_change (delegator_move dispute fundAction r d)) with (delegator_share a r d). lia.
    + intros m u E. cbn [fst]. by destruct (Hzero m E) as [_ ->].
Qed.

Lemma update_disputes_runs cond f d rows : relay_disputes d = Some rows ->
  run (update_disputes cond f) d = (Ok (changes cond rows), upd_disputes (fun _ => Some (update_rows cond f rows)) d).
Proof. intros E. unfold update_disputes. cbn. unfold stmt_fn. by rewrite E. Qed.

Definition this_dispute (x : dispute_row) : bool := bool_decide (d_dispute_id x = disputeId).

Abbreviation exec := (executeFundAction false now dispute fundAction r uuid1 uuid2 uuid3).
Definition claimed d : relay_db :=
  upd_fund_actions (fun _ => relay_dispute_fund_actions d ++ [claim_row dispute fundAction r (d_task_id dispute) d]) d.
Definition close_as d : string := if pos_settled (position a d) then "settled"%string else "released"%string.

(** Past its guards, the fund action claims the allocation and moves the legs. *)
Lemma executable_exec frozen d : executable d ->
  run (executeFundAction frozen now dispute fundAction r uuid1 uuid2 uuid3) d = run (
  guarded_leg (claw_back a r d) (moveAllocationMoney frozen (clawback_move dispute fundAction r d) uuid1 now) ;!
  guarded_leg (worker_share a r d) (moveAllocationMoney frozen (worker_move dispute fundAction r d) uuid2 now) ;!
  guarded_leg (delegator_share a r d) (moveAllocationMoney frozen (delegator_move dispute fundAction r d) uuid3 now) ;!
  closeDisputedAllocation dispute (close_as d) ;! recordFundRefusal disputeId None ;! call_ret tt) (claimed d).
Proof.
  intros [H0 [_ Hbad] (alloc & Hx & Ht & Hrev) Hprior Hcl (R1 & R2 & R3) _].
  assert (((claw_back a r d =? 0) || bool_decide (is_Some (sole_recipient (paid_accounts a d)))) &&
          ((delegator_share a r d =? 0) || bool_decide (is_Some (hold_payer a d))) &&
          ((worker_share a r d =? 0) || bool_decide (is_Some (worker_party a d))) = true) as Hrt.
  { unfold paid_party in R1. rewrite fmap_is_Some in R1.
    rewrite !andb_true_iff, !orb_true_iff, !Z.eqb_eq, !bool_decide_eq_true. split_and!;
      [destruct (Z.eq_dec (claw_back a r d) 0)|destruct (Z.eq_dec (delegator_share a r d) 0)|destruct (Z.eq_dec (worker_share a r d) 0)]; auto. }
  unfold executeFundAction. rewrite (proj2 (Z.eqb_neq _ 0)) by done. rewrite Hbad.
  rewrite (call_bind_run _ _ _ _ _ (position_runs a d)). cbv beta zeta.
  replace (pos_taskId (position a d)) with (Some (d_task_id dispute)) by (cbn; rewrite Hx; cbn; congruence).
  replace (pos_reviewReason (position a d)) with (@None string) by (cbn; by rewrite Hx).
  fold (close_as d). unfold prior_rows in Hprior. rewrite Hprior.
  rewrite bool_decide_true by done. rewrite (bool_decide_false (is_Some None)) by (by intros [? ?]).
  change (0 <? Z.of_nat 0) with false. cbn [negb]. destruct (negb _) eqn:E; [exfalso; apply negb_true_iff in E; exact (eq_true_false_abs _ Hrt E)|].
  rewrite (call_bind_run _ _ d true (claimed d)) by exact (claim_runs _ d Hcl). done.
Qed.

Lemma claimed_quiet d : quiet d (claimed d).
Proof. split; try done. intros c Hc. cbn. apply elem_of_app. by left. Qed.

(** The fund action, run. *)
Lemma executes_runs d rows : escrow_ok d -> executable d -> covered d -> dispute_fits uuid1 uuid2 uuid3 d ->
  relay_disputes d = Some rows ->
  exists d', run exec d = (Ok tt, d') /\ moves (fund_list dispute fundAction r uuid1 uuid2 uuid3 d) d d' /\
    claim_row dispute fundAction r (d_task_id dispute) d ∈ relay_dispute_fund_actions d' /\
    relay_disputes d' = Some (update_rows this_dispute (with_refusal None) rows).
Proof.
  intros Hok Hex Hcov Hfit Hrows. pose proof (executable_exec false d Hex) as Eexec.
  destruct (legs_run (relay_dispute_fund_actions (claimed d)) d Hok Hex Hcov Hfit) as (d2 & d3 & d4 & L1 & L2 & L3 & Hm & Hd).
  assert (close_as d <> "locked"%string) as Hca by (unfold close_as; by destruct (pos_settled _)).
  destruct (update_allocations_runs (fun x => of_id a x && in_status "disputed" x) (with_status (close_as d)) d4) as (n & d5 & R5).
  pose proof (close_ok dispute (close_as d) d4 n d5 Hca R5) as Q5.
  assert (relay_disputes d5 = Some rows) as Hd5 by (injection R5 as _ <-; by rewrite <- Hrows, <- Hd).
  pose proof (update_disputes_runs this_dispute (with_refusal None) d5 rows Hd5) as R6. pose proof (update_disputes_ok _ _ _ _ _ R6) as Q6.
  set (d6 := upd_disputes (fun _ => Some (update_rows this_dispute (with_refusal None) rows)) d5) in *.
  exists d6. split; [|split; [|split; [|done]]].
  - rewrite Eexec. change (upd_fund_actions (fun _ => relay_dispute_fund_actions (claimed d)) d) with (claimed d) in L1.
    rewrite (call_bind_run _ _ _ _ _ L1), (call_bind_run _ _ _ _ _ L2), (call_bind_run _ _ _ _ _ L3).
    rewrite (call_bind_run _ _ d4 n d5) by exact R5. by rewrite (call_bind_run _ _ _ _ d6 R6).
  - eapply moves_quiet; [|etransitivity; [exact Q5|exact Q6]].
    apply (moves_app [] _ d (claimed d)); [|exact Hm]. eapply moves_quiet; [constructor|]. apply claimed_quiet.
  - apply (q_claims _ _ Q6), (q_claims _ _ Q5), (moves_claims _ _ _ _ Hm). apply elem_of_app. right. by left.
Qed.

(** Frozen, the first leg that moves anything is refused. *)
Lemma exec_frozen d : executable d -> 0 < claw_back a r d \/ 0 < worker_share a r d \/ 0 < delegator_share a r d ->
  exists d', run (executeFundAction true now dispute fundAction r uuid1 uuid2 uuid3) d = (Throw EmergencyFrozenError, d').
Proof.
  intros Hex Hsome. exists (claimed d). rewrite (executable_exec true d Hex).
  assert (forall z m u (k : call relay_db ledger_error unit) d0, (z <= 0 -> k d0 = (Throw EmergencyFrozenError, d0)) ->
    (guarded_leg z (moveAllocationMoney true m u now) ;! k) d0 = (Throw EmergencyFrozenError, d0)) as Hleg.
  { intros z m u k d0 Hk. unfold guarded_leg, call_when. destruct (0 <? z) eqn:E; [done|]. apply Hk. lia. }
  apply Hleg. intros H1. apply Hleg. intros H2. apply Hleg. intros H3. lia.
Qed.

(** The party it takes back from no longer has it. *)
Lemma exec_refused d p : escrow_ok d -> executable d -> fresh_uuid uuid1 d -> paid_party a d = Some p ->
  sql_balance p d < claw_back a r d -> 0 < claw_back a r d ->
  exists d', run exec d = (Throw (FundActionRefused clawback_insufficient), d').
Proof.
  intros Hok Hex Hf Hp Hb Hlt. rewrite (executable_exec false d Hex). destruct Hex as [_ [Hv Hbad] (alloc & Hx & _ & Hrev) _ _ _ Hsafe].
  destruct (share_ranges d Hok (good_ratio r Hv Hbad) Hsafe) as (Hws & Hcl & _). pose proof Hok as [Hw Hpos]. specialize (Hpos a).
  assert (exists d', run (moveAllocationMoney false (clawback_move dispute fundAction r d) uuid1 now) (claimed d)
            = (Throw (AllocationMoneyRefused insufficient_balance), d')) as (d' & E).
  { unfold clawback_move. rewrite Hp. unfold moveAllocationMoney. cbn [move_amount default]. unfold safe_amount.
    rewrite safe_amount_of, (proj2 (Z.leb_le 0 _)) by lia. cbn [andb check move_allocation].
    rewrite (call_bind_run _ _ (claimed d) (Some alloc) (claimed d)) by (cbn; unfold stmt_fn; by rewrite <- Hx).
    unfold move_clawback, under_review_or. rewrite Hrev, (proj2 (Z.eqb_neq _ 0)) by lia.
    rewrite (call_bind_run _ _ (claimed d) (paid_net a d) (claimed d)) by (rewrite <- (sole_paid d p Hp); done).
    rewrite (proj2 (Z.ltb_ge _ _)) by lia.
    destruct (debit_pure p (claw_back a r d) settlement_debit (Some disputeId) (Some (leg_text "Dispute claw-back" fundAction disputeId))
      (stamp a "dispute_clawback") uuid1 now (claimed d) (ew_accounts _ Hw) Hf) as [[_ (d' & E & _)]|[Hle _]].
    - exists d'. by rewrite (call_bind_run _ _ _ _ _ E).
    - change (claw_back a r d <= sql_balance p d) in Hle. lia. }
  exists d'. unfold guarded_leg, call_when. rewrite (proj2 (Z.ltb_lt 0 _)) by done. unfold call_bind at 1, call_catch. by rewrite E.
Qed.
End executes.

(** ** Finalizing *)

(** A resolved verdict whose appeal window is over. *)
Record due (now : Z) (dispute : dispute_row) (res : resolution_row) (rows : list dispute_row) (d : relay_db) : Prop := {
  du_rows : relay_disputes d = Some rows;
  du_row : dispute ∈ rows;
  du_keys : NoDup (d_dispute_id <$> rows);
  du_state : d_state dispute = "resolved"%string;
  du_appeal : d_appealed_at dispute = None;
  du_window : exists t, d_resolved_at dispute = Some t /\ t + APPEAL_WINDOW_MS < now;
  du_resolution : List.find (fun x => bool_decide (rs_dispute_id x = d_dispute_id dispute) && (rs_round x =? 1))
                    (relay_dispute_resolutions d) = Some res;
}.

Section finalize.
Context (now : Z) (dispute : dispute_row) (res : resolution_row) (uuid1 uuid2 uuid3 : string).
Implicit Types (d : relay_db) (rows : list dispute_row).
Abbreviation finalize frozen now retry u1 u2 u3 := (tryFinalizeIfWindowExpired frozen now dispute retry u1 u2 u3).
Abbreviation exec d := (run (executeFundAction false now dispute (rs_fund_action res) (rs_split_ratio res) uuid1 uuid2 uuid3) d).

Definition open_verdict (x : dispute_row) : bool := this_dispute dispute x && bool_decide (d_state x = "resolved"%string).
Definition finalized rows : list dispute_row := update_rows open_verdict (with_final now) rows.

Lemma resolution_runs d : run (resolution_of (d_dispute_id dispute) 1) d =
  (Ok (List.find (fun x => bool_decide (rs_dispute_id x = d_dispute_id dispute) && (rs_round x =? 1)) (relay_dispute_resolutions d)), d).
Proof. done. Qed.

(** Up to the transaction. *)
Lemma due_finalizes frozen retry u1 u2 u3 rows d : due now dispute res rows d ->
  run (finalize frozen now retry u1 u2 u3) d = run (call_catch (
    let! moved := run_transaction (
      let! moved := to_final now (d_dispute_id dispute) "resolved" (fun x => x) in
      call_when (0 <? Z.of_nat moved)
        (executeFundAction frozen now dispute (rs_fund_action res) (rs_split_ratio res) u1 u2 u3) ;!
      call_ret moved) in
    if (0 <? Z.of_nat moved) then call_ret (with_final now dispute) else
    let! refreshed := getDispute (d_dispute_id dispute) in
    call_ret (default dispute refreshed)) (finalize_failed dispute)) d.
Proof.
  intros [_ _ _ Hs Ha (t & Ht & Hlt) Hr]. unfold tryFinalizeIfWindowExpired. rewrite Hs, Ha, Ht.
  rewrite (bool_decide_false ("resolved"%string = "appealed"%string)) by done. rewrite bool_decide_true by done.
  rewrite (bool_decide_false (is_Some None)) by (by intros [? ?]). cbn [negb].
  rewrite (proj2 (Z.leb_gt _ _)) by done. rewrite (call_bind_run _ _ _ _ _ (resolution_runs d)), Hr. done.
Qed.

Lemma to_final_runs f d rows : relay_disputes d = Some rows ->
  run (to_final now (d_dispute_id dispute) "resolved" f) d
  = (Ok (changes open_verdict rows), upd_disputes (fun _ => Some (update_rows open_verdict (fun x => with_final now (f x)) rows)) d).
Proof. intros E. exact (update_disputes_runs open_verdict _ d rows E). Qed.

Lemma open_verdict_changes rows : dispute ∈ rows -> d_state dispute = "resolved"%string -> (0 <? Z.of_nat (changes open_verdict rows)) = true.
Proof.
  intros Hin Hs. rewrite changes_pos. apply existsb_exists. exists dispute. split; [by apply list_elem_of_In|].
  unfold open_verdict, this_dispute. by rewrite !bool_decide_true.
Qed.

Lemma upd_disputes_id f d : f (relay_disputes d) = relay_disputes d -> upd_disputes f d = d.
Proof. destruct d. unfold upd_disputes. cbn. by intros ->. Qed.

(** Once final, never again: whoever still holds the row it read before. *)
Lemma finalized_stays rows d : relay_disputes d = Some rows -> (forall x, x ∈ rows -> open_verdict x = false) ->
  d_state dispute = "resolved"%string -> d_appealed_at dispute = None ->
  forall frozen2 now2 retry2 u1 u2 u3, exists row, run (finalize frozen2 now2 retry2 u1 u2 u3) d = (Ok row, d).
Proof.
  intros Hrows Hno Hs Ha frozen2 now2 retry2 u1 u2 u3. unfold tryFinalizeIfWindowExpired. rewrite Hs, Ha.
  rewrite (bool_decide_false ("resolved"%string = "appealed"%string)) by done. rewrite bool_decide_true by done.
  rewrite (bool_decide_false (is_Some None)) by (by intros [? ?]). cbn [negb].
  destruct (d_resolved_at dispute) as [t|]; [|by eexists]. destruct (now2 <=? _); [by eexists|].
  rewrite (call_bind_run _ _ _ _ _ (resolution_runs d)). destruct (List.find _ _) as [r2|]; [|by eexists].
  assert (changes open_verdict rows = 0%nat /\ update_rows open_verdict (with_final now2) rows = rows) as [E1 E2].
  { clear Hrows. unfold changes, update_rows. induction rows as [|x l IH]; [done|]. cbn [List.filter].
    rewrite fmap_cons, (Hno x) by (by left).
    destruct IH as [? ?]; [intros y Hy; apply Hno; by right|]. split; [done|by f_equal]. }
  assert (run (to_final now2 (d_dispute_id dispute) "resolved" (fun x => x)) d = (Ok 0%nat, d)) as Et.
  { rewrite <- E1. etransitivity; [exact (update_disputes_runs open_verdict (fun x => with_final now2 x) d rows Hrows)|].
    f_equal. apply upd_disputes_id. rewrite Hrows. f_equal. exact E2. }
  eexists. apply catch_runs. rewrite (call_bind_run _ _ d 0%nat d).
  2:{ apply transaction_runs. rewrite (call_bind_run _ _ _ _ _ Et). done. }
  cbn [Z.of_nat]. change (0 <? 0) with false. cbv iota. reflexivity.
Qed.
End finalize.

Lemma with_final_closed now dispute rows x : x ∈ update_rows (open_verdict dispute) (with_final now) rows -> open_verdict dispute x = false.
Proof.
  intros (y & -> & Hy)%list_elem_of_fmap. destruct (open_verdict dispute y) eqn:E; [|done].
  unfold open_verdict. cbn. by rewrite andb_false_r.
Qed.

Lemma with_refusal_open dispute reason x : open_verdict dispute (with_refusal reason x) = open_verdict dispute x.
Proof. done. Qed.

(** *** The second round *)

Section round2.
Context (dispute : dispute_row) (verdict : resolution_row).
Implicit Types (d : relay_db) (rows : list dispute_row).

(** An appeal whose verdict is being committed. *)
Record appealed rows d : Prop := {
  ap_rows : relay_disputes d = Some rows;
  ap_row : dispute ∈ rows;
  ap_state : d_state dispute = "appealed"%string;
  ap_verdict : rs_dispute_id verdict = d_dispute_id dispute;
  ap_round : rs_round verdict = 2;
}.

Definition under_appeal (x : dispute_row) : bool := this_dispute dispute x && bool_decide (d_state x = "appealed"%string).
Definition persisted d : relay_db := upd_resolutions (fun l => List.filter (fun x =>
  negb (bool_decide (rs_dispute_id x = rs_dispute_id verdict) && (rs_round x =? rs_round verdict))) l ++ [verdict]) d.

Lemma appeal_final_runs now rows d : appealed rows d ->
  run (to_final now (d_dispute_id dispute) "appealed" (with_resolved (rs_resolved_at verdict))) d
  = (Ok (changes under_appeal rows),
     upd_disputes (fun _ => Some (update_rows under_appeal (fun x => with_final now (with_resolved (rs_resolved_at verdict) x)) rows)) d) /\
  (0 <? Z.of_nat (changes under_appeal rows)) = true.
Proof.
  intros [Hrows Hin Hs _ _]. split; [exact (update_disputes_runs under_appeal _ d rows Hrows)|].
  rewrite changes_pos. apply existsb_exists. exists dispute. split; [by apply list_elem_of_In|].
  unfold under_appeal, this_dispute. by rewrite !bool_decide_true.
Qed.

(** The verdict stays on record, whatever refuses its fund action. *)
Lemma persisted_found d : rs_dispute_id verdict = d_dispute_id dispute -> rs_round verdict = 2 ->
  List.find (fun r => bool_decide (rs_dispute_id r = d_dispute_id dispute) && (rs_round r =? 2)) (relay_dispute_resolutions (persisted d))
  = Some verdict.
Proof.
  intros E1 E2. cbn. rewrite E1, E2. induction (relay_dispute_resolutions d) as [|x l IH]; cbn.
  - by rewrite E1, E2, bool_decide_true.
  - destruct (bool_decide (rs_dispute_id x = d_dispute_id dispute) && (rs_round x =? 2)) eqn:E; cbn; [done|]. by rewrite E.
Qed.

Lemma round2_frozen now uuid1 uuid2 uuid3 rows d : appealed rows d ->
  executable dispute (rs_fund_action verdict) (rs_split_ratio verdict) d ->
  0 < claw_back (d_allocation_id dispute) (rs_split_ratio verdict) d \/
    0 < worker_share (d_allocation_id dispute) (rs_split_ratio verdict) d \/
    0 < delegator_share (d_allocation_id dispute) (rs_split_ratio verdict) d ->
  run (commitRound2Verdict true now dispute verdict uuid1 uuid2 uuid3) d = (Throw EmergencyFrozenError, persisted d).
Proof.
  intros Hap Hex Hsome. destruct (appeal_final_runs now rows d Hap) as [R1 Hpos].
  set (d1 := upd_disputes _ d) in R1. assert (executable dispute (rs_fund_action verdict) (rs_split_ratio verdict) (persisted d1)) as Hex1
    by (by destruct Hex).
  destruct (exec_frozen now dispute (rs_fund_action verdict) (rs_split_ratio verdict) uuid1 uuid2 uuid3 (persisted d1) Hex1 Hsome) as (d2 & R2).
  unfold commitRound2Verdict. unfold call_bind at 1, call_catch. cbn [run_transaction PureDriver]. unfold all_or_nothing.
  rewrite (call_bind_run _ _ _ _ _ R1), Hpos. rewrite (call_bind_run _ _ d1 tt (persisted d1)) by done.
  unfold call_bind at 1. rewrite R2. rewrite (call_bind_run _ _ d tt (persisted d)) by done. done.
Qed.
End round2.

(** ** Properties *)

(** C12: a verdict splits the money it was given, exactly, and once.  A resolved
    dispute whose appeal window is over, on an unfrozen relay, with the money
    routable and the paid party able to return what is taken back, is finalized: the
    worker gets the floor of the ratio of what is held, the delegator the rest of it
    and the part of what had been paid that is taken back, the escrow ends empty and
    no other escrow or balance changes; the verdict is final, its claim is written,
    and the finalizer, run again on the row as it was before, by whatever reader and
    whenever, changes nothing. *)
Theorem verdict_executes now dispute res uuid1 uuid2 uuid3 retry rows d :
  escrow_ok d -> due now dispute res rows d -> dispute_fits uuid1 uuid2 uuid3 d ->
  executable dispute (rs_fund_action res) (rs_split_ratio res) d -> covered dispute (rs_split_ratio res) d ->
  exists d', run (tryFinalizeIfWindowExpired false now dispute retry uuid1 uuid2 uuid3) d = (Ok (with_final now dispute), d') /\
    distributed dispute (rs_split_ratio res) d d' /\
    (exists c, c ∈ relay_dispute_fund_actions d' /\ fa_allocation_id c = d_allocation_id dispute) /\
    with_refusal None (with_final now dispute) ∈ default [] (relay_disputes d') /\
    (forall frozen2 now2 retry2 u1 u2 u3, exists row,
       run (tryFinalizeIfWindowExpired frozen2 now2 dispute retry2 u1 u2 u3) d' = (Ok row, d')).
Proof.
  intros Hok Hdue Hfit Hex Hcov. pose proof Hdue as [Hrows Hin _ Hs Ha _ _].
  pose proof (to_final_runs now dispute (fun x => x) d rows Hrows) as R1.
  set (rows1 := update_rows (open_verdict dispute) (fun x => with_final now x) rows) in *.
  set (d1 := upd_disputes (fun _ => Some rows1) d) in *. pose proof (update_disputes_ok _ _ _ _ _ R1) as Q1.
  assert (escrow_ok d1) as Hok1 by (destruct Hok as [Hw Hh]; split; [by apply (quiet_wf _ _ Q1)|exact Hh]).
  assert (executable dispute (rs_fund_action res) (rs_split_ratio res) d1) as Hex1 by (by destruct Hex).
  assert (dispute_fits uuid1 uuid2 uuid3 d1) as Hfit1 by (by destruct Hfit).
  destruct (executes_runs now dispute (rs_fund_action res) (rs_split_ratio res) uuid1 uuid2 uuid3 d1 rows1 Hok1 Hex1 Hcov Hfit1)
    as (d' & R2 & Hm & Hc & Hd'); [done|].
  assert (relay_disputes d' = Some (update_rows (this_dispute dispute) (with_refusal None) rows1)) as Hd2 by exact Hd'.
  exists d'. split; [|split; [|split; [|split]]].
  - rewrite (due_finalizes now dispute res false retry uuid1 uuid2 uuid3 rows d Hdue). apply catch_runs.
    rewrite (call_bind_run _ _ d (changes (open_verdict dispute) rows) d').
    + by rewrite (open_verdict_changes dispute rows Hin Hs).
    + apply transaction_runs. rewrite (call_bind_run _ _ _ _ _ R1). unfold call_when.
      rewrite (open_verdict_changes dispute rows Hin Hs). by rewrite (call_bind_run _ _ _ _ _ R2).
  - destruct Hex as [_ [Hv Hbad] _ _ _ Hrt Hsafe].
    apply (fund_list_distributes dispute (rs_fund_action res) (rs_split_ratio res) uuid1 uuid2 uuid3 d d' Hok (good_ratio _ Hv Hbad) Hsafe Hrt).
    apply (moves_app [] _ d d1); [|exact Hm]. eapply moves_quiet; [constructor|exact Q1].
  - eexists. split; [exact Hc|done].
  - rewrite Hd2. cbn [default]. apply list_elem_of_fmap. exists (with_final now dispute). split.
    + unfold this_dispute. by rewrite bool_decide_true.
    + apply list_elem_of_fmap. exists dispute. split; [|done]. unfold open_verdict, this_dispute. by rewrite !bool_decide_true.
  - intros. apply (finalized_stays dispute _ d' Hd2); [|done|done].
    intros x (y & -> & Hy)%list_elem_of_fmap. apply with_final_closed in Hy. by destruct (this_dispute dispute y).
Qed.

(** a verdict the paid party can no longer cover undoes everything and is marked.
    When the party that was paid has less than what is taken back, finalizing changes
    nothing but the refusal on the dispute's row: no balance, no escrow, no claim, and
    the verdict is still resolved. *)
Theorem uncovered_verdict_rolls_back now dispute res uuid1 uuid2 uuid3 retry rows d p :
  escrow_ok d -> due now dispute res rows d -> fresh_uuid uuid1 d ->
  executable dispute (rs_fund_action res) (rs_split_ratio res) d ->
  paid_party (d_allocation_id dispute) d = Some p ->
  sql_balance p d < claw_back (d_allocation_id dispute) (rs_split_ratio res) d ->
  0 < claw_back (d_allocation_id dispute) (rs_split_ratio res) d ->
  let marked := with_refusal (Some clawback_insufficient) in
  run (tryFinalizeIfWindowExpired false now dispute retry uuid1 uuid2 uuid3) d
  = (Ok (marked dispute), upd_disputes (fun _ => Some (update_rows (this_dispute dispute) marked rows)) d).
Proof.
  intros Hok Hdue Hfit Hex Hp Hb Hlt marked. pose proof Hdue as [Hrows Hin _ Hs Ha _ _].
  pose proof (to_final_runs now dispute (fun x => x) d rows Hrows) as R1.
  set (rows1 := update_rows (open_verdict dispute) (fun x => with_final now x) rows) in *.
  set (d1 := upd_disputes (fun _ => Some rows1) d) in *. pose proof (update_disputes_ok _ _ _ _ _ R1) as Q1.
  assert (escrow_ok d1) as Hok1 by (destruct Hok as [Hw Hh]; split; [by apply (quiet_wf _ _ Q1)|exact Hh]).
  assert (executable dispute (rs_fund_action res) (rs_split_ratio res) d1) as Hex1 by (by destruct Hex).
  destruct (exec_refused now dispute (rs_fund_action res) (rs_split_ratio res) uuid1 uuid2 uuid3 d1 p Hok1 Hex1 Hfit Hp Hb Hlt)
    as (d2 & R2).
  rewrite (due_finalizes now dispute res false retry uuid1 uuid2 uuid3 rows d Hdue).
  unfold call_catch at 1, call_bind at 1. cbn [run_transaction PureDriver]. unfold all_or_nothing.
  rewrite (call_bind_run _ _ _ _ _ R1). unfold call_when. rewrite (open_verdict_changes dispute rows Hin Hs).
  unfold call_bind at 1. rewrite R2. unfold finalize_failed.
  rewrite (call_bind_run _ _ _ _ _ (update_disputes_runs (this_dispute dispute) marked d rows Hrows)). done.
Qed.

(** C16: an allocation has one fund action.  Whatever fund action of whatever verdict
    runs to its end, either it moves nothing, or it distributes as the ratio says and
    its claim is on record; from then on, whatever movements follow, no fund action of
    a dispute of that allocation moves anything. *)
Theorem fund_action_once frozen now dispute fundAction r uuid1 uuid2 uuid3 d d' :
  escrow_ok d -> dispute_fits uuid1 uuid2 uuid3 d -> is_ratio r ->
  heldSql (d_allocation_id dispute) d + paid_net (d_allocation_id dispute) d <= MAX_SAFE_INTEGER ->
  run (executeFundAction frozen now dispute fundAction r uuid1 uuid2 uuid3) d = (Ok tt, d') ->
  quiet d d' \/
  (distributed dispute r d d' /\
   forall l d1 frozen2 now2 dispute2 fundAction2 r2 u1 u2 u3 d2, moves l d' d1 ->
     d_allocation_id dispute2 = d_allocation_id dispute -> dispute_fits u1 u2 u3 d1 ->
     run (executeFundAction frozen2 now2 dispute2 fundAction2 r2 u1 u2 u3) d1 = (Ok tt, d2) -> quiet d1 d2).
Proof.
  intros Hok Hfit Hr Hs H. pose proof Hok as [Hw _].
  destruct (fund_action_cases frozen now dispute fundAction r uuid1 uuid2 uuid3 d d' Hw Hfit H) as [?|(Hrt & _ & t & _ & Hc & Hm)]; [by left|right].
  pose proof (fund_list_distributes dispute fundAction r uuid1 uuid2 uuid3 d d' Hok Hr Hs Hrt Hm) as Hd. split; [done|].
  intros l d1 frozen2 now2 dispute2 fundAction2 r2 u1 u2 u3 d2 Hl Ha Hfit2 H2. pose proof (di_ok _ _ _ _ Hd) as [Hw' _].
  pose proof (ma_wf _ _ _ (moves_all _ _ _ Hw' Hl)) as Hw1.
  destruct (fund_action_cases frozen2 now2 dispute2 fundAction2 r2 u1 u2 u3 d1 d2 Hw1 Hfit2 H2) as [?|(_ & _ & t2 & Hno & _)]; [done|].
  exfalso. apply (moves_claims _ _ _ _ Hl) in Hc. apply not_true_iff_false in Hno. apply Hno, existsb_exists.
  eexists. split; [by apply list_elem_of_In|]. unfold same_fund_action. cbn. by rewrite (bool_decide_true (d_allocation_id dispute2 = _)).
Qed.


(** ** Instances *)

(** [t1] was a nested task: bob was paid 450 of the 600 held, 100 are left, and the
    verdict leaves bob a quarter. *)
Definition quarter : number := Eval vm_compute in js_div (Number 1) (Number 4).
Definition demo_dispute : dispute_row := {| d_dispute_id := "dp"; d_task_id := "t1"; d_allocation_id := "x402-t1";
  d_state := "resolved"; d_amount_locked := 600; d_resolved_at := Some 40; d_appealed_at := None; d_final_at := None;
  fund_refusal := None |}.
Definition demo_resolution : resolution_row := {| rs_dispute_id := "dp"; rs_round := 1; rs_fund_action := "split";
  rs_split_ratio := quarter; rs_resolved_at := 40 |}.
Definition with_verdict (d : relay_db) : relay_db :=
  upd_allocations (update_rows (of_id "x402-t1") (with_status "disputed"))
    (upd_disputes (fun _ => Some [demo_dispute]) (upd_resolutions (fun _ => [demo_resolution]) d)).
Definition disputed_db : relay_db := Eval vm_compute in
  with_verdict (db_after (settleSubAnswer false 30 (answered settle_completed 450 50) "t1" "bob" "u4") funded).
(** Bob has withdrawn what he was paid. *)
Definition spent_db : relay_db := Eval vm_compute in
  db_after (debit "bob" (JInt 400) withdrawal None None None "u5" 50) disputed_db.

Lemma demo_due d now : now = 90000000 -> d = disputed_db \/ d = spent_db -> due now demo_dispute demo_resolution [demo_dispute] d.
Proof.
  intros -> [-> | ->]; (split; try done; [by left|apply NoDup_singleton|by exists 40]).
Qed.

Lemma demo_dispute_fits d : d = disputed_db \/ d = spent_db -> dispute_fits "u6" "u7" "u8" d.
Proof. intros [-> | ->]; (split; [by apply fresh_uuidb_spec..|done|done|done]). Qed.

Lemma demo_executable d : d = disputed_db \/ d = spent_db -> executable demo_dispute "split" quarter d.
Proof.
  intros [-> | ->]; (split; [done|split; by vm_compute|eexists; split_and!; by vm_compute|by vm_compute|by vm_compute| |by vm_compute]);
    (split; [|split]); intros _; eexists; vm_compute; reflexivity.
Qed.

Lemma disputed_ok : escrow_ok disputed_db.
Proof. apply escrow_okb_spec. vm_compute. reflexivity. Qed.
Lemma spent_ok : escrow_ok spent_db.
Proof. apply escrow_okb_spec. vm_compute. reflexivity. Qed.

Lemma verdict_executes_witness : exists d',
  run (tryFinalizeIfWindowExpired false 90000000 demo_dispute false "u6" "u7" "u8") disputed_db = (Ok (with_final 90000000 demo_dispute), d') /\
  sql_balance "bob" disputed_db = 450 /\ sql_balance "bob" d' = 137 /\ sql_balance "alice" d' = 813 /\ heldSql "x402-t1" d' = 0.
Proof.
  destruct (verdict_executes 90000000 demo_dispute demo_resolution "u6" "u7" "u8" false [demo_dispute] disputed_db disputed_ok)
    as (d' & H & [_ _ Hh Hb _ _] & _);
    [apply demo_due; auto|apply demo_dispute_fits; auto|apply demo_executable; auto| |].
  - intros p E. vm_compute in E. injection E as <-. by vm_compute.
  - exists d'. split; [done|]. split; [by vm_compute|]. split; [rewrite Hb; by vm_compute|]. split; [rewrite Hb; by vm_compute|].
    rewrite Hh. by vm_compute.
Defined.

Lemma uncovered_verdict_rolls_back_witness : exists d',
  run (tryFinalizeIfWindowExpired false 90000000 demo_dispute false "u6" "u7" "u8") spent_db
    = (Ok (with_refusal (Some clawback_insufficient) demo_dispute), d') /\ heldSql "x402-t1" d' = 100.
Proof.
  eexists. split.
  - apply (uncovered_verdict_rolls_back 90000000 demo_dispute demo_resolution "u6" "u7" "u8" false [demo_dispute] spent_db "bob" spent_ok);
      [apply demo_due; auto|by apply fresh_uuidb_spec|apply demo_executable; auto|by vm_compute..].
  - by vm_compute.
Defined.

Definition executed_db : relay_db := Eval vm_compute in
  db_after (executeFundAction false 90 demo_dispute "split" quarter "u6" "u7" "u8") disputed_db.

Lemma fund_action_once_witness : exists d2,
  run (executeFundAction false 90 demo_dispute "split" quarter "u6" "u7" "u8") disputed_db = (Ok tt, executed_db) /\
  run (executeFundAction false 95 demo_dispute "refund" (Number 0) "u9" "u10" "u11") executed_db = (Ok tt, d2) /\ quiet executed_db d2.
Proof.
  assert (run (executeFundAction false 90 demo_dispute "split" quarter "u6" "u7" "u8") disputed_db = (Ok tt, executed_db)) as H
    by (vm_compute; reflexivity).
  eexists. split; [exact H|]. split; [vm_compute; reflexivity|].
  destruct (fund_action_once false 90 demo_dispute "split" quarter "u6" "u7" "u8" disputed_db executed_db disputed_ok) as [Hq|[_ Ho]];
    [apply demo_dispute_fits; auto|split_and!; by vm_compute|by vm_compute|exact H| |].
  - exfalso. pose proof (q_transactions _ _ Hq) as E. vm_compute in E. discriminate E.
  - eapply (Ho [] executed_db false 95 demo_dispute "refund"%string (Number 0) "u9"%string "u10"%string "u11"%string);
      [constructor|reflexivity| |vm_compute; reflexivity]. split; [by apply fresh_uuidb_spec..|done|done|done].
Defined.

(** The same verdict, of the second round. *)
Definition demo_appeal : dispute_row := {| d_dispute_id := "dp"; d_task_id := "t1"; d_allocation_id := "x402-t1";
  d_state := "appealed"; d_amount_locked := 600; d_resolved_at := Some 40; d_appealed_at := Some 50; d_final_at := None;
  fund_refusal := None |}.
Definition demo_verdict : resolution_row := {| rs_dispute_id := "dp"; rs_round := 2; rs_fund_action := "split";
  rs_split_ratio := quarter; rs_resolved_at := 60 |}.
Definition appealed_db : relay_db := Eval vm_compute in upd_disputes (fun _ => Some [demo_appeal]) disputed_db.

