(* ===== verification/EscrowSystem.v ===== *)
(** * The escrow under every writer

    The transactions of [EscrowCallers] and the other writers of [Escrow] as the steps
    of one relay, in any order: what is held by no allocation ever goes negative, so
    the triggers that guard the tables never fire.  The one writer whose key a peer
    chooses needs a hypothesis, and breaks the invariant without it. *)

From Stdlib Require Import String.
From S2P Require Import Prelude Float64 JsMap JsString TaskTypes TaskQueue LedgerTypes Driver SqlStore SqlRefines.
From S2P Require Import Escrow EscrowLaws EscrowCallers EscrowRuns EscrowDemo EscrowSettle EscrowRefunds EscrowDispute.
Local Open Scope Z_scope.
Local Open Scope motebit_scope.

(** ** Outcomes *)

Lemma escrow_txn_cases {A} (m : call relay_db ledger_error A) d r d' : run (run_transaction m) d = (r, d') ->
  (exists x, m d = (Ok x, d')) \/ d' = d.
Proof. cbn. unfold all_or_nothing. destruct (m d) as [[x|e] d1]; intros [= <- <-]; [left; by exists x|by right]. Qed.

Lemma moves_ok l d d' : escrow_ok d -> moves l d d' -> escrow_ok d'.
Proof. intros [Hw Hok] Hm. pose proof (moves_all _ _ _ Hw Hm) as A. split; [apply A|by apply (ma_ok _ _ _ A)]. Qed.

Lemma quiet_ok d d' : escrow_ok d -> quiet d d' -> escrow_ok d'.
Proof. intros Hok Hq. by apply (moves_ok [] d), quiet_moves. Qed.

(** The stamps alone decide what is held. *)
Lemma same_stamps_ok d d' : escrow_ok d -> escrow_wf d' -> (forall a, held_stamped a d' = held_stamped a d) -> escrow_ok d'.
Proof.
  intros [Hw Hok] Hw' Hs. split; [done|]. intros a. rewrite heldSql_stamped by done. rewrite Hs, <- heldSql_stamped by done. apply Hok.
Qed.

(** ** Admission *)

Lemma openAllocation_ok a taskId worker z t (d : relay_db) r d' : escrow_ok d ->
  run (openAllocation a taskId worker z t) d = (r, d') -> escrow_ok d' /\ relay_transactions d' = relay_transactions d.
Proof.
  intros Hok. unfold openAllocation. cbn. unfold stmt_fn. set (row := {| al_allocation_id := a |}).
  destruct (insert_row same_allocation row (relay_allocations d)) as [rows|e] eqn:E; intros [= <- <-]; [|done]. split; [|done].
  apply insert_row_inv in E as [-> Hc]. apply (same_stamps_ok d); [done| |done].
  destruct Hok as [[H1 H2 H3 H4 H5 H6 H7] _]. split; try done. cbn.
  apply (nodup_insert al_allocation_id same_allocation); [|done|done].
  intros x Hx Eq. unfold same_allocation in Hx. by rewrite (bool_decide_true (al_allocation_id row = _)) in Hx.
Qed.

Lemma fundingWrites_ok frozen now taskId worker delegator desc z uuid (d : relay_db) x d' : escrow_ok d -> fresh_uuid uuid d ->
  run (fundingWrites frozen now taskId worker delegator desc z uuid) d = (Ok x, d') -> escrow_ok d'.
Proof.
  intros Hok Hu H. apply call_bind_ok in H as ([] & d1 & H1 & H). apply openAllocation_ok in H1 as [Hok1 E]; [|done].
  apply catch_ok in H as [H|(e & d2 & _ & H)]; [|by destruct e].
  set (m := Hold _ _ _ _) in H. apply (moves_ok [(m, uuid)] d1); [done|].
  apply (move_moves frozen now); [apply Hok1| |by destruct x]. split; [unfold fresh_uuid in *; by rewrite E|done].
Qed.

(** ** Forwards *)

Lemma forward_moves frozen now taskId relay peer sid retryId z uuid (d : relay_db) x d' : escrow_wf d -> fresh_uuid uuid d ->
  run (forwardOriginSettlement frozen now taskId relay peer sid retryId z uuid) d = (Ok x, d') -> exists l, moves l d d'.
Proof.
  intros Hw Hu H. apply call_bind_ok in H as (alloc & d1 & [= <- <-] & H).
  destruct (List.find _ _) as [alloc|]; [|injection H as _ <-; exists []; constructor].
  apply catch_ok in H as [H|(e & d1 & H1 & H)].
  - apply txn_committed in H. apply call_bind_ok in H as ([] & d1 & H1 & H). set (m := FederatedForward _ _ _) in H1.
    exists [(m, uuid)]. eapply moves_quiet; [by apply (move_moves frozen now)|].
    apply call_bind_ok in H as ([] & d2 & H2 & [= _ <-]). cbn in H2. unfold stmt_fn in H2.
    destruct (insert_row _ _ _) as [rows|e]; [|done]. by injection H2 as <-.
  - apply txn_rolled_back in H1 as ->. exists []. destruct e; try done. injection H as _ <-. constructor.
Qed.

Lemma delivered_ok sid (d : relay_db) : escrow_ok d -> escrow_ok (upd_forwards (update_rows (fun f =>
    bool_decide (f_settlement_id f = sid) && bool_decide (f_status f = fwd_pending)) set_delivered) d).
Proof.
  intros Hok. apply (same_stamps_ok d); [done|by apply update_forwards_wf; [apply Hok|]|].
  intros a. unfold held_stamped. cbn. f_equal. unfold update_rows. clear Hok. induction (relay_federation_settlements d) as [|f l IH]; [done|].
  cbn. rewrite IH. f_equal. destruct (bool_decide (f_settlement_id f = sid)); [|done]. cbn. case_bool_decide as E; [|done].
  unfold forward_of. cbn. rewrite E. repeat case_decide; naive_solver.
Qed.

Lemma acknowledge_ok sid retryId (d : relay_db) x d' : escrow_ok d -> run (acknowledgeForward sid retryId) d = (Ok x, d') -> escrow_ok d'.
Proof.
  intros Hok H. apply txn_committed in H. apply call_bind_ok in H as ([] & d1 & [= <-] & [= _ <-]).
  apply delivered_ok. by eapply quiet_ok; [exact Hok|].
Qed.

Lemma exhausted_moves frozen now tasks retry refundId uuid (d : relay_db) x d' : escrow_wf d -> fresh_uuid uuid d ->
  run (refundExhaustedForward frozen now tasks retry refundId uuid) d = (Ok x, d') -> exists l, moves l d d'.
Proof.
  intros Hw Hu H. apply catch_ok in H as [H|(e & d1 & H1 & [= _ <-])].
  2:{ apply txn_rolled_back in H1 as ->. exists []. constructor. }
  apply txn_committed in H. apply call_bind_ok in H as (alloc & d1 & [= <- <-] & H).
  destruct (List.find _ _) as [alloc|]; [|injection H as _ <-; exists []; constructor].
  apply call_bind_ok in H as (fwd & d1 & [= <- <-] & H). apply call_bind_ok in H as (ret & d1 & Hr & H).
  assert (exists l1, moves l1 d d1 /\ drawn l1 = []) as (l1 & M1 & D1).
  { destruct (List.find _ _) as [f|]; [|injection Hr as _ <-; exists []; split; [constructor|done]].
    destruct (_ && _); [|injection Hr as _ <-; exists []; split; [constructor|done]].
    apply call_bind_ok in Hr as ([] & d2 & Hr & [= _ <-]). set (m := ForwardReturn _ _ _) in Hr.
    exists [(m, uuid)]. split; [by apply (move_moves frozen now)|done]. }
  pose proof (ma_wf _ _ _ (moves_all _ _ _ Hw M1)) as Hw1.
  assert (fresh_uuid uuid d1) as Hu1 by (apply (moves_fresh uuid _ _ _ Hw M1); [rewrite D1; set_solver|done]).
  apply call_bind_ok in H as (held & d2 & Hh & H). apply allocationHeld_ok in Hh as [-> ->].
  cbv zeta in H. destruct (_ || _); [injection H as _ <-; by exists l1|].
  apply call_bind_ok in H as (payer & d2 & [= <- <-] & H). destruct (hold_payer _ d1) as [p|].
  - apply call_bind_ok in H as ([] & d2 & Hm & H). set (m := Refund _ _ _ _ _) in Hm.
    apply call_bind_ok in H as (n & d3 & H3 & H). apply call_bind_ok in H as ([] & d4 & H4 & [= _ <-]).
    exists (l1 ++ [(m, uuid)]). eapply moves_app; [exact M1|].
    eapply moves_quiet; [by apply (move_moves frozen now)|]. etransitivity; [by eapply retire_ok|].
    cbn in H4. unfold stmt_fn in H4. by destruct (insert_row _ _ _); injection H4 as <-.
  - apply call_bind_ok in H as (n & d2 & Hf & [= _ <-]). exists l1. eapply moves_quiet; [exact M1|by eapply flag_ok].
Qed.

(** ** Verdicts *)

Lemma fund_action_ok frozen now dispute fundAction r u1 u2 u3 (d d1 : relay_db) x d2 : escrow_ok d -> dispute_fits u1 u2 u3 d -> quiet d d1 ->
  run (executeFundAction frozen now dispute fundAction r u1 u2 u3) d1 = (Ok x, d2) -> escrow_ok d2.
Proof.
  intros Hok Hfit Hq H. pose proof (quiet_ok _ _ Hok Hq) as Hok1. destruct x. assert (dispute_fits u1 u2 u3 d1) as Hfit1
    by (destruct Hfit; split; unfold fresh_uuid in *; rewrite ?(q_transactions _ _ Hq); done).
  destruct (fund_action_cases _ _ _ _ _ _ _ _ _ _ (proj1 Hok1) Hfit1 H) as [Hq2|(_ & _ & _ & _ & _ & Hm)];
    [by eapply quiet_ok|by eapply moves_ok].
Qed.

Lemma finalizing_ok frozen now dispute fundAction r u1 u2 u3 from f (d : relay_db) n d' : escrow_ok d -> dispute_fits u1 u2 u3 d ->
  run (let! moved := to_final now (d_dispute_id dispute) from f in
       call_when (0 <? Z.of_nat moved) (executeFundAction frozen now dispute fundAction r u1 u2 u3)) d = (Ok n, d') ->
  escrow_ok d'.
Proof.
  intros Hok Hfit H. apply call_bind_ok in H as (k & d1 & H1 & H2). apply update_disputes_ok in H1. destruct n.
  apply when_ok in H2 as [[_ H2]|[_ ->]]; [by eapply fund_action_ok|by eapply quiet_ok].
Qed.

Lemma finalize_failed_ok dispute e (d : relay_db) r d' : escrow_ok d -> run (finalize_failed dispute e) d = (r, d') -> escrow_ok d'.
Proof.
  intros Hok H. destruct e; try (injection H as _ <-; done). unfold finalize_failed in H. unfold call_bind in H.
  destruct (recordFundRefusal _ _ d) as [[k|e] d1] eqn:E; injection H as _ <-.
  - by eapply quiet_ok; [|eapply refusal_ok].
  - unfold recordFundRefusal, update_disputes in E. cbn in E. unfold stmt_fn in E. destruct (relay_disputes d); [done|]. by injection E as _ <-.
Qed.

(** A transaction, what reads after it, and the [catch] of the finalizers. *)
Lemma finalizer_ok {A} (m : call relay_db ledger_error A) e dispute (d : relay_db) r d' : escrow_ok d ->
  (forall x d1, m d = (Ok x, d1) -> escrow_ok d1) -> (forall n d0 r0 d2, e n d0 = (r0, d2) -> d2 = d0) ->
  call_catch (let! x := run_transaction m in e x) (finalize_failed dispute) d = (r, d') -> escrow_ok d'.
Proof.
  intros Hok Hm He H. unfold call_catch, call_bind at 1 in H. destruct (run_transaction m d) as [[n|err] d2] eqn:E.
  - assert (escrow_ok d2) as Hok2 by (apply escrow_txn_cases in E as [(k & E)| ->]; [by eapply Hm|done]).
    destruct (e n d2) as [[y|err] d3] eqn:E3; apply He in E3 as ->; [by injection H as _ <-|by eapply finalize_failed_ok].
  - apply txn_rolled_back in E as ->. by eapply finalize_failed_ok.
Qed.

Lemma round2_ok frozen now dispute u1 u2 u3 (d : relay_db) r d' : escrow_ok d -> dispute_fits u1 u2 u3 d ->
  run (tryFinalizePersistedRound2 frozen now dispute u1 u2 u3) d = (r, d') -> escrow_ok d'.
Proof.
  intros Hok Hfit. unfold tryFinalizePersistedRound2.
  rewrite (call_bind_run _ _ d (List.find (fun x => bool_decide (rs_dispute_id x = d_dispute_id dispute) && (rs_round x =? 2))
    (relay_dispute_resolutions d)) d) by done.
  destruct (List.find _ _) as [res|]; [|by intros [= _ <-]]. apply finalizer_ok; [done| |].
  - intros x d1. by apply finalizing_ok.
  - intros n d0 r0 d2 E. by injection E as _ <-.
Qed.

Lemma finalize_ok frozen now dispute retry u1 u2 u3 (d : relay_db) r d' : escrow_ok d -> dispute_fits u1 u2 u3 d ->
  run (tryFinalizeIfWindowExpired frozen now dispute retry u1 u2 u3) d = (r, d') -> escrow_ok d'.
Proof.
  intros Hok Hfit. unfold tryFinalizeIfWindowExpired.
  destruct (bool_decide _); [destruct retry; [by apply round2_ok|by intros [= _ <-]]|].
  destruct (negb _); [by intros [= _ <-]|]. destruct (bool_decide _); [by intros [= _ <-]|].
  destruct (d_resolved_at dispute); [|by intros [= _ <-]]. destruct (now <=? _); [by intros [= _ <-]|].
  rewrite (call_bind_run _ _ _ _ _ (resolution_runs dispute d)). destruct (List.find _ _) as [res|]; [|by intros [= _ <-]].
  apply finalizer_ok; [done| |].
  - intros x d1 H. apply call_bind_ok in H as (k & d2 & H1 & H). apply call_bind_ok in H as ([] & d3 & H2 & [= _ <-]).
    eapply finalizing_ok with (n := tt); [exact Hok|exact Hfit|]. by rewrite (call_bind_run _ _ _ _ _ H1).
  - intros n d0 r0 d2. cbv beta. destruct (0 <? Z.of_nat n); by intros [= _ <-].
Qed.

Lemma refusal_any id reason (d : relay_db) r d' : run (recordFundRefusal id reason) d = (r, d') -> quiet d d'.
Proof.
  unfold recordFundRefusal, update_disputes. cbn. unfold stmt_fn. destruct (relay_disputes d); by intros [= _ <-].
Qed.

Lemma commitRound2_ok frozen now dispute verdict u1 u2 u3 (d : relay_db) r d' : escrow_ok d -> dispute_fits u1 u2 u3 d ->
  run (commitRound2Verdict frozen now dispute verdict u1 u2 u3) d = (r, d') -> escrow_ok d'.
Proof.
  intros Hok Hfit. unfold commitRound2Verdict. unfold call_bind at 1. destruct (call_catch _ _ d) as [[raced|e] d1] eqn:E;
    intros H; (assert (d' = d1) as -> by ((try destruct raced); exact (eq_sym (f_equal snd H)))); clear H.
  - apply catch_ok in E as [E|(e & d2 & E & H)].
    + apply txn_committed in E. apply call_bind_ok in E as (k & d2 & H1 & H). apply update_disputes_ok in H1.
      destruct (0 <? Z.of_nat k); [|injection H as _ <-; by eapply quiet_ok].
      apply call_bind_ok in H as ([] & d3 & [= <-] & H). apply call_bind_ok in H as (x & d4 & H & [= _ <-]).
      eapply fund_action_ok; [exact Hok|exact Hfit| |exact H]. etransitivity; [exact H1|done].
    + apply txn_rolled_back in E as ->. destruct e; try done. apply call_bind_ok in H as ([] & d3 & _ & H).
      by apply call_bind_ok in H as (x & d4 & _ & H).
  - unfold call_catch in E. destruct (run_transaction _ d) as [[lost|e'] d2] eqn:E2; [done|]. apply txn_rolled_back in E2 as ->.
    destruct e'; try (injection E as _ <-; done).
    + injection E as _ <-. by eapply quiet_ok; [exact Hok|].
    + rewrite (call_bind_run _ _ d tt (persisted verdict d)) in E by done. unfold call_bind in E.
      destruct (recordFundRefusal _ _ _) as [r2 d3] eqn:E3.
      apply refusal_any in E3. assert (d1 = d3) as -> by (by destruct r2; injection E as _ <-).
      eapply quiet_ok; [exact Hok|]. etransitivity; [|exact E3]. done.
Qed.

(** ** Settlements *)

Lemma settle_ok frozen now applies body taskId a motebitId worker gross u1 u2 (d : relay_db) r d' : escrow_ok d ->
  settle_fits body a u1 u2 d ->
  run (settleAnswer frozen now applies body taskId a motebitId worker gross u1 u2) d = (r, d') -> escrow_ok d'.
Proof.
  intros Hok Hfit H. destruct r as [b|e]; [|unfold settleAnswer in H; by apply txn_rolled_back in H as ->].
  destruct (settle_moves frozen now body taskId a motebitId worker gross u1 u2 applies d b d' (proj1 Hok) Hfit H) as (_ & Hq & Hm & _).
  destruct (applies && b); [|by eapply quiet_ok, Hq]. destruct (Hm eq_refl) as (_ & desc & Hmv). by eapply moves_ok.
Qed.

(** Refused or not claimed, the nested settlement leaves no movement. *)
Lemma sub_settle_skips frozen now body taskId subAgent u (d : relay_db) r d' :
  locked_task taskId d && (0 <? heldSql (String.append "x402-" taskId) d) = false ->
  run (settleSubAnswer frozen now body taskId subAgent u) d = (r, d') -> quiet d d'.
Proof.
  intros Hl H. unfold settleSubAnswer in H. destruct r as [b|e].
  - apply catch_ok in H as [H|(e & d1 & H1 & [= _ <-])]; [|by apply txn_rolled_back in H1 as ->].
    apply txn_committed in H. apply call_bind_ok in H as (held & d1 & Hh & H). apply allocationHeld_ok in Hh as [-> ->].
    apply call_bind_ok in H as (claimed & d1 & Hc & H). assert (claimed = false /\ quiet d d1) as [-> Hq].
    { destruct (0 <? Z.max 0 _) eqn:E in Hc; [|by injection Hc as <- <-]. apply claim_locked_ok in Hc as (Hq & -> & _).
      rewrite (proj2 (Z.ltb_lt 0 (heldSql _ d))), andb_true_r in Hl by lia. by split. }
    by apply call_bind_ok in H as ([] & d2 & [= <-] & [= <- <-]).
  - unfold call_catch in H. by destruct (run_transaction _ d) as [[b|e'] d1].
Qed.

Lemma sub_settle_ok frozen now body taskId subAgent u (d : relay_db) r d' :
  let a := String.append "x402-" taskId in
  escrow_ok d -> fresh_uuid u d -> unreferenced (sb_settlement_id body) d ->
  (find_allocation a d = None -> sb_platform_fee body = 0) ->
  run (settleSubAnswer frozen now body taskId subAgent u) d = (r, d') -> escrow_ok d'.
Proof.
  intros a Hok Hu Hr Hx H. destruct (locked_task taskId d && (0 <? heldSql a d)) eqn:E; [|by eapply quiet_ok, sub_settle_skips].
  apply andb_true_iff in E as [Hl Hp]. pose proof H as H'. unfold settleSubAnswer in H.
  unfold call_catch in H. destruct (run_transaction _ d) as [[b|e] d1] eqn:E.
  - injection H as <- <-. apply txn_committed in E as E'. assert (b = true) as ->.
    { apply call_bind_ok in E' as (? & ? & _ & E'). apply call_bind_ok in E' as (? & ? & _ & E').
      by apply call_bind_ok in E' as (? & ? & _ & [= <- _]). }
    eapply moves_ok; [exact Hok|]. apply (sub_settle_moves frozen now body taskId subAgent u d d1 (proj1 Hok) Hu Hr Hx Hl (proj1 (Z.ltb_lt _ _) Hp)).
    exact H'.
  - injection H as _ <-. by apply txn_rolled_back in E as ->.
Qed.

(** ** The other writers *)

Lemma truncate_ok horizon (d : relay_db) r d' : escrow_ok d -> run (truncateSettlementsBeforeHorizon horizon) d = (r, d') -> escrow_ok d'.
Proof.
  intros Hok [= _ <-]. apply (same_stamps_ok d); [done| |done]. destruct Hok as [[H1 H2 H3 H4 H5 H6 H7] _].
  set (d1 := upd_settlements _ d). assert (forall s, s ∈ settlement_rows d1 -> s ∈ settlement_rows d) as Hsub.
  { intros s. unfold settlement_rows, d1. cbn. destruct (relay_settlements d); [|done]. cbn.
    intros [Hs _]%list_elem_of_In%filter_In. by apply list_elem_of_In. }
  split; try done; intros s Hs; [apply (H5 s)|apply (H6 s)]; by apply Hsub.
Qed.

Lemma audit_ok s (d : relay_db) r d' : escrow_ok d -> unreferenced (st_settlement_id s) d ->
  run (recordP2pSettlementAudit s) d = (r, d') -> escrow_ok d'.
Proof.
  intros Hok Hu. unfold recordP2pSettlementAudit. destruct (negb _) eqn:Em; [by intros [= _ <-]|].
  apply negb_false_iff, bool_decide_eq_true in Em. cbn. unfold stmt_fn. destruct (relay_settlements d) as [rows|] eqn:Er; [|by intros [= _ <-]].
  destruct (insert_row same_settlement s rows) as [rows'|e] eqn:E; intros [= _ <-]; [|done]. apply insert_row_inv in E as [-> _].
  apply (same_stamps_ok d); [done| |done]. destruct Hok as [[H1 H2 H3 H4 H5 H6 H7] _]. unfold settlement_rows in *. rewrite Er in *.
  split; try done.
  - intros s' [Hs| ->%list_elem_of_singleton]%elem_of_app; [by apply H5|done].
  - intros s' [Hs| ->%list_elem_of_singleton]%elem_of_app Hm; [by apply H6|]. unfold relay_mode in Hm. by rewrite Em in Hm.
Qed.

Lemma unstamped_ok id z l (d d' : relay_db) : escrow_ok d -> moved id z l d d' -> own_rows l d ->
  (forall t, t ∈ l -> allocation_id t = None) -> escrow_ok d'.
Proof.
  intros Hok Hm Hl Hn. apply (same_stamps_ok d); [done|by eapply escrow_moved_wf; [apply Hok| |]|].
  intros a. rewrite (moved_held _ _ _ _ _ a Hm), zsum_zero; [lia|]. intros t Ht. unfold txn_of.
  by rewrite (Hn t Ht), decide_False.
Qed.

(** The peer's settlement id is not that of a settlement of this relay. *)
Definition foreign_id (sid : string) (d : relay_db) : Prop :=
  forall s, s ∈ settlement_rows d -> st_settlement_id s <> sid.

Lemma inbound_ok f worker amount desc uuid now (d : relay_db) r d' : escrow_ok d -> fresh_uuid uuid d ->
  foreign_id (f_settlement_id f) d ->
  run (run_transaction (recordInboundFederatedSettlement f worker amount desc uuid now)) d = (r, d') -> escrow_ok d'.
Proof.
  intros Hok Hu Hf H. apply escrow_txn_cases in H as [(x & H)| ->]; [|done]. revert H.
  unfold recordInboundFederatedSettlement. destruct (bool_decide (is_Some _)) eqn:Ed; [done|].
  apply bool_decide_eq_false in Ed. intros H. apply call_bind_ok in H as (local & d1 & [= <- <-] & H).
  destruct (existsb _ _); [done|]. apply call_bind_ok in H as (already & d1 & [= <- <-] & H).
  destruct (existsb _ _); [by injection H as _ <-|]. apply call_bind_ok in H as (ins & d1 & Hi & H).
  assert (escrow_ok d1 /\ relay_transactions d1 = relay_transactions d /\ relay_settlements d1 = relay_settlements d) as (Hok1 & Et & Es).
  { cbn in Hi. unfold stmt_fn in Hi. destruct (insert_row same_forward (set_received f) _) as [rows|e] eqn:E; injection Hi as <- <-; [|done].
    apply insert_row_inv in E as [-> Hc]. split; [|done].
    apply (same_stamps_ok d); [done|by apply forward_inserted_wf; [apply Hok|done|intros _; cbn; destruct (downstream_relay_id f); [destruct Ed; by eexists|]]|].
    intros a. unfold held_stamped. cbn. rewrite zsum_app. cbn [zsum]. unfold forward_of at 2. cbn. rewrite decide_False; [lia|]. by intros [? _]. }
  destruct worker as [w|]; [|by injection H as _ <-]. destruct (_ && _); [|by injection H as _ <-].
  apply call_bind_ok in H as (z & d2 & H & [= _ <-]).
  destruct (credit_pure w amount settlement_credit (Some (f_settlement_id f)) (Some desc) None uuid now d1 (ew_accounts _ (proj1 Hok1)))
    as (d3 & E & Hm); [unfold fresh_uuid in *; by rewrite Et|]. rewrite E in H. injection H as _ <-.
  eapply unstamped_ok; [exact Hok1|exact Hm| |].
  - intros t ->%list_elem_of_singleton _. cbn. split; [done|]. split; [done|]. intros _ s Hs.
    intros [= E']. apply (Hf s); [|done]. unfold settlement_rows in *. by rewrite <- Es.
  - by intros t ->%list_elem_of_singleton.
Qed.

Lemma sweep_ok frozen now horizonMs tasks grant uuids (d : relay_db) r d' : escrow_ok d ->
  NoDup ((fun x => uuids (al_allocation_id x)) <$> relay_allocations d) ->
  (forall x, x ∈ relay_allocations d -> fresh_uuid (uuids (al_allocation_id x)) d) ->
  run (releaseStaleAllocations frozen now horizonMs tasks grant uuids) d = (r, d') -> escrow_ok d'.
Proof.
  intros Hok Hn Hf H. destruct r as [n|e].
  - destruct (sweep_moves frozen now horizonMs tasks grant uuids d n d' (proj1 Hok) Hn Hf H) as (l & Hm & _). by eapply moves_ok.
  - unfold releaseStaleAllocations, call_catch in H. by destruct (call_bind _ _ d) as [[?|?] ?].
Qed.

Lemma exhausted_ok frozen now tasks retry refundId uuid (d : relay_db) r d' : escrow_ok d -> fresh_uuid uuid d ->
  run (refundExhaustedForward frozen now tasks retry refundId uuid) d = (r, d') -> escrow_ok d'.
Proof.
  intros Hok Hu H. destruct r as [x|e].
  - destruct (exhausted_moves _ _ _ _ _ _ _ _ _ (proj1 Hok) Hu H) as (l & Hm). by eapply moves_ok.
  - unfold refundExhaustedForward, call_catch in H. by destruct (run_transaction _ d) as [[?|?] ?].
Qed.

Lemma forward_ok frozen now taskId relay peer sid retryId z uuid (d : relay_db) r d' : escrow_ok d -> fresh_uuid uuid d ->
  run (forwardOriginSettlement frozen now taskId relay peer sid retryId z uuid) d = (r, d') -> escrow_ok d'.
Proof.
  intros Hok Hu H. destruct r as [x|e].
  - destruct (forward_moves _ _ _ _ _ _ _ _ _ _ _ _ (proj1 Hok) Hu H) as (l & Hm). by eapply moves_ok.
  - unfold forwardOriginSettlement, call_bind in H. cbn in H. unfold stmt_fn in H. destruct (List.find _ _) as [alloc|]; [|done].
    unfold call_catch in H. destruct (all_or_nothing _ _) as [[x|e'] d1] eqn:E; [done|]. apply txn_rolled_back in E as ->.
    destruct e'; by injection H as _ <-.
Qed.

(** ** Every writer, in any order *)

(** One call of one writer, whatever it answers, or what other modules do: statements
    that move no money, and ledger rows of no allocation. *)
Inductive escrow_step (d d' : relay_db) : Prop :=
| step_admit frozen now taskId worker delegator desc z u r : fresh_uuid u d ->
    run (run_transaction (fundingWrites frozen now taskId worker delegator desc z u)) d = (r, d') -> escrow_step d d'
| step_settle frozen now applies body taskId a motebitId worker gross u1 u2 r : settle_fits body a u1 u2 d ->
    run (settleAnswer frozen now applies body taskId a motebitId worker gross u1 u2) d = (r, d') -> escrow_step d d'
| step_nested frozen now body taskId subAgent u r : fresh_uuid u d -> unreferenced (sb_settlement_id body) d ->
    (find_allocation (String.append "x402-" taskId) d = None -> sb_platform_fee body = 0) ->
    run (settleSubAnswer frozen now body taskId subAgent u) d = (r, d') -> escrow_step d d'
| step_forward frozen now taskId relay peer sid retryId z u r : fresh_uuid u d ->
    run (forwardOriginSettlement frozen now taskId relay peer sid retryId z u) d = (r, d') -> escrow_step d d'
| step_acknowledge sid retryId : run (acknowledgeForward sid retryId) d = (Ok tt, d') -> escrow_step d d'
| step_exhausted frozen now tasks retry refundId u r : fresh_uuid u d ->
    run (refundExhaustedForward frozen now tasks retry refundId u) d = (r, d') -> escrow_step d d'
| step_sweep frozen now horizonMs tasks grant uuids r :
    NoDup ((fun x => uuids (al_allocation_id x)) <$> relay_allocations d) ->
    (forall x, x ∈ relay_allocations d -> fresh_uuid (uuids (al_allocation_id x)) d) ->
    run (releaseStaleAllocations frozen now horizonMs tasks grant uuids) d = (r, d') -> escrow_step d d'
| step_finalize frozen now dispute retry u1 u2 u3 r : dispute_fits u1 u2 u3 d ->
    run (tryFinalizeIfWindowExpired frozen now dispute retry u1 u2 u3) d = (r, d') -> escrow_step d d'
| step_round2 frozen now dispute verdict u1 u2 u3 r : dispute_fits u1 u2 u3 d ->
    run (commitRound2Verdict frozen now dispute verdict u1 u2 u3) d = (r, d') -> escrow_step d d'
| step_audit s r : unreferenced (st_settlement_id s) d -> run (recordP2pSettlementAudit s) d = (r, d') -> escrow_step d d'
| step_inbound f worker amount desc u now r : fresh_uuid u d -> foreign_id (f_settlement_id f) d ->
    run (run_transaction (recordInboundFederatedSettlement f worker amount desc u now)) d = (r, d') -> escrow_step d d'
| step_truncate horizon r : run (truncateSettlementsBeforeHorizon horizon) d = (r, d') -> escrow_step d d'
| step_ledger id z l : moved id z l d d' -> own_rows l d -> (forall t, t ∈ l -> allocation_id t = None) -> escrow_step d d'
| step_quiet : quiet d d' -> escrow_step d d'.

Lemma escrow_step_ok d d' : escrow_ok d -> escrow_step d d' -> escrow_ok d'.
Proof.
  intros Hok H. destruct H.
  - apply escrow_txn_cases in H0 as [(x & H0)| ->]; [by eapply fundingWrites_ok|done].
  - by eapply settle_ok.
  - by eapply sub_settle_ok.
  - by eapply forward_ok.
  - by eapply acknowledge_ok.
  - by eapply exhausted_ok.
  - by eapply sweep_ok.
  - by eapply finalize_ok.
  - by eapply commitRound2_ok.
  - by eapply audit_ok.
  - by eapply inbound_ok.
  - by eapply truncate_ok.
  - by eapply unstamped_ok.
  - by eapply quiet_ok.
Qed.

Definition reachable : relay_db -> Prop := rtc escrow_step empty_db.

Lemma empty_ok : escrow_ok empty_db.
Proof. by apply escrow_okb_spec. Qed.

Lemma reachable_escrow_ok d : reachable d -> escrow_ok d.
Proof.
  assert (forall x y, rtc escrow_step x y -> escrow_ok x -> escrow_ok y) as H; [|intros Hr; exact (H _ _ Hr empty_ok)].
  induction 1 as [x|x y z Hxy _ IH]; [done|]. intros Hx. by eapply IH, escrow_step_ok.
Qed.

(** A received row and an unstamped credit named after a settlement of the allocation. *)
Lemma credit_overdraws a f t (d d2 : relay_db) w z : own_settlement a (f_settlement_id f) d = true -> downstream_relay_id f = None ->
  allocation_id t = None -> tx_type (txn t) = settlement_credit -> reference_id (txn t) = Some (f_settlement_id f) -> tx_amount (txn t) = z ->
  moved w z [t] (upd_forwards (fun _ => SqlStore.relay_federation_settlements d ++ [set_received f]) d) d2 -> heldSql a d2 = heldSql a d - z.
Proof.
  intros Ho Hd Ht Hty Hr Hz [_ _ [rows ->]].
  assert (held_txn a d t = true) as E1.
  { unfold held_txn. rewrite Ht, Hty, Hr, Ho. rewrite (bool_decide_true (settlement_credit = settlement_credit)) by done. apply orb_true_r. }
  assert (held_forward a d (set_received f) = false) as E2.
  { unfold held_forward. cbn. by rewrite Hd, (bool_decide_false (is_Some None)) by (by intros [? ?]). }
  set (forwards := SqlStore.relay_federation_settlements d). unfold heldSql. rewrite !select_sum_alt.
  set (F := fun r => if held_txn a d r then tx_amount (txn r) else 0). set (G := fun r => if held_forward a d r then gross_amount r else 0).
  assert (zsum F (relay_transactions d ++ [t]) = zsum F (relay_transactions d) + z) as EF
    by (rewrite zsum_app; unfold F at 2; cbn [zsum]; rewrite E1; lia).
  assert (zsum G (forwards ++ [set_received f]) = zsum G forwards) as EG by (rewrite zsum_app; unfold G at 2; cbn [zsum]; rewrite E2; lia).
  fold forwards. change (- zsum F (relay_transactions d ++ [t]) - zsum (fun r => if bool_decide (fee_allocation_id r = a) then fee_amount r else 0)
    (relay_allocation_fees d) - zsum (fun r => if held_fee_row a d r then platform_fee r else 0) (settlement_rows d)
    - zsum G (forwards ++ [set_received f]) = - zsum F (relay_transactions d) - zsum (fun r => if bool_decide (fee_allocation_id r = a)
    then fee_amount r else 0) (relay_allocation_fees d) - zsum (fun r => if held_fee_row a d r then platform_fee r else 0) (settlement_rows d)
    - zsum G forwards - z). lia.
Qed.

(** ** Properties *)


(** C39: a peer that reuses a settlement id overdraws another task's escrow.  The final
    hop of a peer's settlement, recorded under the id of a relay settlement of this
    relay, posts a credit that the reading of that settlement's allocation counts as
    its own: what it holds falls by the amount the peer named, below zero when it is
    more than what was held. *)
Theorem inbound_settlement_overdraws f worker amount desc uuid now d s :
  escrow_ok d -> fresh_uuid uuid d -> s ∈ settlement_rows d -> relay_mode s = true -> st_settlement_id s = f_settlement_id f ->
  downstream_relay_id f = None ->
  existsb (fun x => bool_decide (al_task_id x = f_task_id f)) (relay_allocations d) = false ->
  existsb (same_forward (set_received f)) (relay_federation_settlements d) = false -> 0 < amount ->
  exists d', run (recordInboundFederatedSettlement f (Some worker) amount desc uuid now) d = (Ok true, d') /\
    heldSql (st_allocation_id s) d' = heldSql (st_allocation_id s) d - amount.
Proof.
  intros [Hw _] Hu Hs Hm Hid Hd Hl Hc Hz. unfold recordInboundFederatedSettlement. rewrite Hd.
  rewrite bool_decide_false by (by intros [? ?]).
  rewrite (call_bind_run _ _ d false d) by (cbn; unfold stmt_fn; by rewrite Hl). cbv iota.
  rewrite (call_bind_run _ _ d false d).
  2:{ cbn. unfold stmt_fn. do 2 f_equal. apply not_true_iff_false. intros (g & Hg & E)%existsb_exists.
      apply not_true_iff_false in Hc. apply Hc, existsb_exists. exists g. split; [done|]. unfold same_forward. cbn.
      apply andb_true_iff in E as [E1%bool_decide_eq_true E2%bool_decide_eq_true]. apply orb_true_iff. right.
      apply andb_true_iff. split; by apply bool_decide_eq_true. }
  cbv iota. set (d1 := upd_forwards (fun _ => relay_federation_settlements d ++ [set_received f]) d).
  rewrite (call_bind_run _ _ d true d1) by (cbn; unfold stmt_fn, insert_row; by rewrite Hc).
  cbv iota. rewrite (proj2 (Z.ltb_lt 0 amount)) by done. cbn [andb].
  destruct (credit_pure worker amount settlement_credit (Some (f_settlement_id f)) (Some desc) None uuid now d1 (ew_accounts _ Hw) Hu)
    as (d2 & E & Hmv). rewrite (call_bind_run _ _ _ _ _ E). exists d2. split; [done|].
  assert (own_settlement (st_allocation_id s) (f_settlement_id f) d = true) as Hown.
  { apply existsb_exists. exists s. split; [by apply list_elem_of_In|]. by rewrite Hm, !bool_decide_true. }
  by eapply (credit_overdraws _ f); [exact Hown|exact Hd| | | | |exact Hmv].
Qed.

(** ** Instances *)

Lemma deposited_step : escrow_step empty_db deposited.
Proof.
  destruct (credit_pure "alice" 1000 deposit None None None "u1" 1 empty_db) as (d & E & Hm); [apply NoDup_nil_2|by apply fresh_uuidb_spec|].
  assert (d = deposited) as -> by (vm_compute in E; by injection E as <-).
  eapply step_ledger; [exact Hm| |]; by intros t ->%list_elem_of_singleton.
Qed.


(** Another relay settles its task [t9] under the id [s1] of this relay's settlement. *)
Definition foreign_forward : forward_row := {| f_settlement_id := "s1"; f_task_id := "t9"; upstream_relay_id := "relay-x";
  downstream_relay_id := None; gross_amount := 700; f_allocation_id := None; f_status := fwd_delivered |}.

Lemma inbound_settlement_overdraws_witness : exists d',
  run (recordInboundFederatedSettlement foreign_forward (Some "mallory"%string) 700 "settlement" "u9" 60) after_answer = (Ok true, d') /\
  heldSql "x402-t1" after_answer = 0 /\ heldSql "x402-t1" d' = -700.
Proof.
  set (s := List.hd (settlement_insert full_answer "" "") (settlement_rows after_answer)).
  destruct (inbound_settlement_overdraws foreign_forward "mallory" 700 "settlement" "u9" 60 after_answer s) as (d' & H & Hh);
    [apply escrow_okb_spec; by vm_compute|by apply fresh_uuidb_spec|by left|done|done|done|done|done|done|].
  exists d'. split; [exact H|]. split; [by vm_compute|]. etransitivity; [exact Hh|by vm_compute].
Defined.
